(* ===== verification/_CoqProject ===== *)
-Q . S2P
Prelude.v
GoStrings.v
Tables.v
MoneyRounding.v
MoneyDecimal.v
MoneyIso.v
Money.v
MoneyRate.v
MoneyAllocate.v
PayStatus.v
PayAmount.v
PayHold.v
PayModel.v
PayRefund.v
PaySettle.v
PayObserve.v
LedgerStore.v
LedgerProg.v
LedgerObserve.v
LedgerCharge.v
LedgerRefund.v
LedgerReconcile.v
LedgerInv.v
LedgerSafe.v
LedgerWorld.v
LedgerReplicas.v
LedgerTheorems.v
LedgerRuns.v
IdemMemory.v
IdemStore.v
Outbox.v
OutboxWorker.v
Permission.v
PermModels.v
ComputeExpr.v
Civil.v
Cron.v
StageMachine.v
RecordExpr.v
NetGuard.v
Capabilities.v
EmitPolicy.v
Signing.v
GoHTTP.v
GoJSON.v
WebhookIn.v
Incidents.v
InboxClassify.v
InboxRedact.v
Inbox.v
InboxRuns.v
EventBus.v
DispatchEvent.v
Dispatch.v
DispatchRuns.v
EventOutbox.v
EventRelay.v
EventDelivery.v
GuestEmit.v
Approvals.v
ApprovalRuns.v
Guards.v
