(* ===== verification/Prelude.v ===== *)
(** * A verification of the core of metacore-kernel

    The repository is the Go kernel of an ERP: tenants install addons, and the
    kernel gives them money, payments, idempotent requests, background jobs,
    permissions, computed columns and schedules.  This library models the
    packages that decide about money and about doing a thing once, as Gallina
    definitions that read like the Go code, and proves what makes each of them
    correct.  Paths below are relative to [src/].

    ** Files, and the code they model

    - [Prelude] (this file): the [result] monad for Go's [(T, error)], 64-bit
      integers with their wrap-around, sums and sorted lists.
    - [GoStrings]: the functions of packages strings and strconv the code
      calls, on byte strings.  [Tables]: ordered selections and updates of a
      table's rows.  [GoJSON]: decoded JSON, its members and the decoding of
      a field.  [Civil]: the calendar, zone offsets,
      [time.Date], [Truncate] and [AddDate] of package time.
    - money/: [MoneyRounding] (rounding.go), [MoneyDecimal] (decimal.go),
      [MoneyIso] (iso.go), [Money] (money.go), [MoneyRate] (rate.go),
      [MoneyAllocate] ([Money.Allocate]).
    - payments/: [PayStatus] (status.go), [PayAmount] (money.go and the wire
      grammars of capability/schema.go), [PayHold] (hold.go), [PayModel]
      (model.go), [PayRefund] (refund.go), [PaySettle] (settle.go),
      [PayObserve] (event.go, observe.go).
    - payments/ledger/: [LedgerStore] (rows.go, schema.go: the tables, their
      indexes, a transaction monad), [LedgerProg] (an operation as a program
      of transactions, provider queries and messages), [LedgerObserve]
      (observe.go), [LedgerCharge] (ledger.go, charge.go), [LedgerRefund]
      (refund.go), [LedgerReconcile] (reconcile.go).  Their theory:
      [LedgerInv] (the order on databases and the invariant), [LedgerSafe]
      (every transaction keeps them), [LedgerWorld] (every operation is
      safe), [LedgerReplicas] (any interleaving), [LedgerTheorems],
      [LedgerRuns] (one operation alone).
    - idempotency/: [IdemMemory] (store.go, the flow of middleware.go without
      a lock), [IdemStore] (gorm_store.go, locker.go, [serveLocked]).
    - outbox/: [Outbox] (the statements of service.go and worker.go on the job
      table), [OutboxWorker] (the replicas that run them).
    - permission/: [Permission] (everything but model_grants.go), [PermModels]
      (model_grants.go).
    - manifest/computeexpr/: [ComputeExpr].  manifest/v3/recordexpr.go:
      [RecordExpr].  automation/cron.go: [Cron].
    - dynamic/: [StageMachine] (stage_machine.go, its part of Update in
      service.go and the validation of manifest/validate.go).
    - netguard/: [NetGuard].  security/: [Capabilities] (context.go,
      enforcer.go), [EmitPolicy] (emitpolicy.go and capability/event.go),
      [Signing] (hmac.go, nonce.go).
    - runtime/webhookin/: [GoHTTP] (what it uses of net/http, encoding/hex and
      encoding/base64), [WebhookIn] (webhookin.go, payload.go).
      incidents/, payments/incidents/: [Incidents].  payments/inbox/:
      [InboxClassify] (model.go, classify.go), [InboxRedact] (redact.go),
      [Inbox] (store.go, incidents.go, maintenance.go), [InboxRuns] (their
      interleavings).
    - events/, dynamic/eventmeta.go: [EventBus].  dispatch/: [DispatchEvent]
      (what is delivered and what a handler answers), [Dispatch] (the ledger
      and the statements on it), [DispatchRuns] (their interleavings).
    - dynamic/outbox.go, commithook.go, canonical_events.go: [EventOutbox]
      (rows, counters, relay and their interleavings), [EventRelay] (what
      any publisher that keeps the laws guarantees), [EventDelivery] (the bus
      with the dispatcher is one).  runtime/wasm (emitbuffer.go and the
      attempts of wasm.go) with database/staleplan: [GuestEmit].
    - dynamic/approvals.go, approvals_pin.go, approvals_consume.go:
      [Approvals] (the table, the throttle and the statements on them),
      [ApprovalRuns] (their interleavings).  dynamic/constraints.go and the
      gates of action.go: [Guards].

    ** How state and operations correspond

    A Go struct is a Record with its fields in order, a string enumeration an
    Inductive, a sentinel error a constructor of the component's error type
    (the text [fmt.Errorf] wraps around it is dropped).  A pointer receiver or
    a SQL table that an operation changes is passed in and returned.  An int64
    is a [Z] with its wrap-around written out where it can overflow; big.Int
    is [Z], big.Rat is [Q] kept reduced, float64 is Stdlib's [spec_float] in
    the binary64 format.  A map is a [gmap]; where Go's iteration order could
    matter the definition takes the order as a list.  Instants and durations
    are nanoseconds.  A SQL statement is one function on the table, atomic as
    the database runs it; [IdemStore.step], [OutboxWorker.exec],
    [DispatchRuns.exec], [EventOutbox.exec] and [ApprovalRuns.exec] interleave
    statements of any number of requests and replicas.  In [IdemStore] the
    clock is shared; in the others each statement reads a clock of its own,
    so their theorems hold under clock skew.  The outbox publishes through
    the class [Publisher] with its laws [PublisherLaws], which
    [EventDelivery] discharges for [EventBus] with [DispatchRuns].

    Code the repository does not contain is a parameter: the hashes (nothing
    is assumed of them; what rests on one says so, or that two texts
    collide), the memory [make] finds, the JSON decoder of
    confirmations ([ConfirmedContract]), the jitter and the random tokens
    (drawn fresh), Unicode case tables ([UnicodeLower]), and what the ledger
    uses of other packages ([LedgerEnv]: uuid and time parsing, SHA-256, the
    decoding of a provider's answers, all unconstrained), and the JSON
    decoders of the webhooks ([HandlerJSON], [InboxJSON], [BodyJSON],
    unconstrained), and the formats and identifiers of the dispatcher
    ([DispatchEnv], [UuidString], unconstrained), the text of a decoded
    value ([Sprint]) and of a float64, and what an applier, a host's PIN
    verifier and a guest answer (part of the run).  Their witnesses instantiate them.

    A ledger operation is a [prog]: its transactions are functions on the
    whole database (serialised, as SQLite's one writer and the code's row
    locks make them), its provider queries are answered arbitrarily.  A
    [LedgerReplicas.world] holds the database, the operations in progress on
    all replicas and the log of queries and messages; a step starts an
    operation, commits or rolls back one transaction, answers one query,
    sends one message or kills an operation.

    ** What the theorems show

    - Money: [divRound] returns the one integer its mode allows; decimals and
      amounts parse back from their printed form; [Add], [Sub] and [Convert]
      are exact or report overflow; allocation loses nothing, stays within
      one unit of the exact share and favours the largest remainders.
    - Payments: the status machine only moves money facts forward and
      reachability is decided; a live hold excludes other points of sale; a
      document is never charged twice nor overpaid; refunds never exceed what
      was captured; observations are applied only to the payment they are
      about, and their redelivery changes nothing.
    - Ledger: for any interleaving of any number of operations, crashes and
      answers included: one collection request per idempotency key, for a
      payment on record; the live refunds of a payment never exceed its
      amount and every refund asked for is on record; one open payment per
      document while no correction is on record for its provider; rows are never rewritten
      beyond their lifecycle; organizations do not touch each other;
      confirmations are genuine.  Alone: a replayed charge and a held
      document change and ask nothing, a lease excludes other owners, and a
      refund past its window leaves the repeated requests.
    - Idempotency: the in-memory store keeps what is put under a new key until
      its TTL, or until its capacity of other keys came since; with the durable
      store, while responses are stored within their leases, two live leases
      never run one key's handler, and a stored response is what every later
      request gets.
    - Outbox: a job has at most one lease holder, is never lost, runs at most
      as often as its budget allows, and its success is final; [claim] and
      [finish] do what their SQL promises; the backoff never overflows.
    - Permissions: [Check] decides exactly by the grants, against the store
      interface [PermissionStore] whose laws both stores discharge; the cache
      is stale for at most its TTL and never past an invalidation; [CheckAny],
      [CheckAll] and the gate agree with [Check]; a capability authorizes only
      the models its declaration lists.
    - Expressions: the parser is the documented grammar; the SQL rendering
      parses back to the same tree and cannot start a comment; a validated
      expression always evaluates; a record predicate in the documented
      words is accepted exactly as its documented grammar says, and reads only
      the columns it reports.  Cron: a field selects what its elements
      say; [Next] finds the first match in a zone without transitions.
    - Stage machines: however updates interleave a record is without stage or
      in a declared one, each move is declared from the stage its update
      loaded, and under the row lock from the one on record; a locked stage
      freezes its record; stamping does not depend on map order; the first
      required hook that fails stops the move and is named.

    - Notifications of payments: a handler runs only on an authenticated
      request and gets its exact bytes; a notification is acknowledged only
      when nothing of it is left to do; recorded, it is never rewritten and
      never stuck, its claims exclude each other, and one that needs a person
      has its incident on record and linked; the incident log counts every report once; what is
      shown of a body holds no secret.

    - Events: the bus runs exactly the live subscriptions an event's name
      covers and reports exactly the durable failures; what the dispatcher
      delivers carries the publisher the bus recorded; a publication is
      recorded once per subscription, however often it is published; a
      delivery has at most one owner, is called within its budget, is settled
      once and never stuck.

    - Outbox of events: a row stamped published whose payload is JSON was
      published and has its deliveries; a row stays, and a relay that works
      publishes it once due; while nobody dies and every record is written a
      plain subscriber hears an event once; numbers drawn from a counter are
      its own.  A guest's events are published exactly when its answer
      stands, and its counters are apart from everyone else's.

    - Approvals: a request is decided once, by someone entitled to, and
      replayed at most once; its row only moves along its lifecycle; a
      supervisor's grant pays once, for what it covers, on a verification of
      a PIN of its own; wrong PINs are bounded in each process.  Guards: a
      rejecting guard is never overridden, and the replay of an approved write
      is exempt from the guards of the approved key only.

    - Security: an address is refused by a table of networks, whichever IPv6
      form carries it; a compiled policy grants exactly what was declared;
      nobody but a provider confirms a payment; a signature binds its
      request or two texts collide, and no interleaving lets the nonce cache accept one twice
      while it remembers long enough.

    Thirty-four results describe behaviour the code did not intend:
    [LedgerRuns.second_refusal_dropped] (the second refusal of a cancellation
    is taken for a repeat and the payment stays cancelling),
    [Cron.Next_never_returns] (a zone whose clock skips midnight hangs the
    search), [Permission.regrant_after_revoke_fails] (a revoked grant cannot
    be given again), [PayObserve.padded_ref_always_anomaly] (a provider
    reference stored with spaces never matches again) and, against its
    comment, [IdemMemory.oldest_evicted] (eviction is by age of
    insertion, not by use), [RecordExpr.undocumented_words] (against its
    comment), [StageMachine.stamp_bypasses_gate] (a hook may stamp the stage
    itself), [StageMachine.lost_move] (without the row lock a concurrent
    update writes an old stage back), [StageMachine.required_stamp_blocks] (a
    required hook that only stamps fails every move),
    [Signing.nonce_moves_into_path] (the signed text is ambiguous),
    [Signing.far_future_timestamp_accepted] (a saturated difference passes
    the window), [Signing.expired_race] and
    [Signing.sweep_forgets_fresh_nonce] (a nonce accepted twice once it
    expired), [InboxRuns.retry_taken_for_duplicate] (a retry of a failed
    notification is dropped as a duplicate of a duplicate),
    [InboxRuns.stale_worker_reopens] (a late outcome overwrites a settled
    notification), [InboxClassify.write_failure_status],
    [InboxClassify.unresolved_acknowledged] (against its comment),
    [InboxRedact.card_array_shown] (cards in an array are not masked),
    [DispatchRuns.live_attempt_reaped] (a slow attempt is dead-lettered while
    it runs), [DispatchRuns.lowered_maximum_strands] (a delivery nobody runs
    nor buries), [DispatchEvent.string_error_delivered] (an announced failure
    counts as delivered), [DispatchEvent.huge_retry_after_wraps] (a cap after
    an overflow), [DispatchRuns.replay_underscore] (an unescaped pattern) and,
    against their comments, [DispatchEvent.envelope_identity_forged] and
    [Dispatch.deliveryID_ambiguous];
    [EventDelivery.overlapping_relays] (two relays publish one row),
    [EventDelivery.broken_payload_dropped] (published without a delivery),
    [EventDelivery.shared_sequence] (two streams of one aggregate),
    [GuestEmit.standalone_exec_twice], [GuestEmit.timed_out_call_runs_twice],
    [Guards.two_approvals_never_apply] (two approvals park each other),
    [Guards.supervised_approval_fails] (a grant spent before its approval),
    [ApprovalRuns.concurrent_guesses] (failures counted after the answer) and
    [ApprovalRuns.anchored_grant_without_record].

    ** Fuel

    [PayStatus.bfs] runs at most once per status and its theorem proves the
    fuel enough.  [ComputeExpr.lex] has one unit per byte, the parser
    [4 * tokens + 3]; both never run out.  So has [RecordExpr], with
    [4 * tokens + 5].  [Outbox.double_until] has 64, since
    a positive duration doubles past its cap in fewer rounds.  [Cron.Next]
    takes its fuel as an argument: one round per minute of the five-year span
    is enough in a zone without transitions.  [IdemStore.reserve_loop] and
    [Outbox.enqueue_loop] have the three rounds of the code, and
    [GuestEmit.invokeImpl] its three attempts.

    ** Not modelled

    Of payments/ledger the JSON dispatch of host.go and settle_host.go and
    the endless loop of [Reconciler.Run]; JSON columns are kept decoded, a
    provider error keeps its code and not its text, and the observation
    returned beside an error is the zero one.  Of payments/inbox the exports and their
    paging.  Of dispatch the index of its ledger, the timers and [WaitIdle];
    [ForgetDeliveries], which removes rows, is modelled but stays out of
    the interleavings.  Of the outbox of events publishing without its table
    and its migration; of runtime/wasm the data imports, the pool of
    instances and the settings.  Of the approvals their listing, views and
    events; of the guards cross-record rules, row locks and stamps, and of an
    action what follows its gates.  The rules engine around [Cron], flows and
    schedules, the rest of the CRUD engine, the query builder, licensing, the
    rest of security/, and everything that is transport, storage wiring or
    presentation.  Log lines, metrics, hooks and HTTP bodies are dropped
    throughout. *)

From Stdlib Require Export ZArith Lia Ascii Sorting.Sorted.
From stdpp Require Export base decidable option list gmap strings relations.

Open Scope Z_scope.

Create HintDb money.

(** ** Go errors: a [result] monad *)

(** A Go function returning [(T, error)] is a [result E T]: [Ok] is a nil
    error, [Err e] the sentinel [e] that [errors.Is] would find (the
    formatted message around it is dropped). *)
Inductive result (E A : Type) : Type :=
| Ok (a : A)
| Err (e : E).
Arguments Ok {E A} a.
Arguments Err {E A} e.

#[export] Instance result_ret {E} : MRet (result E) := fun _ a => Ok a.
#[export] Instance result_bind {E} : MBind (result E) :=
  fun _ _ f m => match m with Ok a => f a | Err e => Err e end.
#[export] Instance result_fmap {E} : FMap (result E) :=
  fun _ _ f m => match m with Ok a => Ok (f a) | Err e => Err e end.
#[export] Instance result_eq_dec {E A} `{EqDecision E, EqDecision A} :
  EqDecision (result E A).
Proof. solve_decision. Defined.

(** [if !b { return e }]. *)
Definition require {E} (b : bool) (e : E) : result E unit :=
  if b then Ok tt else Err e.

Section result_lemmas.
Context {E A B : Type}.

Lemma bind_Ok (m : result E A) (f : A -> result E B) b :
  (m ≫= f) = Ok b <-> exists a, m = Ok a /\ f a = Ok b.
Proof. destruct m; cbn; naive_solver. Qed.

Lemma bind_Err (m : result E A) (f : A -> result E B) e :
  (m ≫= f) = Err e <-> m = Err e \/ exists a, m = Ok a /\ f a = Err e.
Proof. destruct m; cbn; naive_solver. Qed.

Lemma require_Ok (b : bool) (e : E) u : require b e = Ok u <-> b = true.
Proof. destruct b, u; cbn; naive_solver. Qed.

Lemma require_Err (b : bool) (e e' : E) :
  require b e = Err e' <-> b = false /\ e = e'.
Proof. destruct b; cbn; naive_solver. Qed.
(** A guard followed by the rest of the function. *)
Lemma require_bind_Ok (b : bool) (e : E) (m : result E B) x :
  (_ ← require b e; m) = Ok x <-> b = true /\ m = Ok x.
Proof. destruct b; cbn; naive_solver. Qed.

Lemma require_bind_Err (b : bool) (e e' : E) (m : result E B) :
  (_ ← require b e; m) = Err e' <-> (b = false /\ e = e') \/ (b = true /\ m = Err e').
Proof. destruct b; cbn; naive_solver. Qed.
End result_lemmas.

(** [lia] with [/] and [mod] by constants. *)
Ltac zlia := Z.div_mod_to_equations; lia.

(** Evaluate the decisions on closed propositions in the goal. *)
Ltac decide_closed :=
  repeat match goal with
  | |- context [@bool_decide ?P ?D] =>
      let b := eval vm_compute in (@bool_decide P D) in
      lazymatch b with true => idtac | false => idtac end;
      change (@bool_decide P D) with b
  end.

(** ** Machine integers *)

Definition int64_min : Z := - 2 ^ 63.
Definition int64_max : Z := 2 ^ 63 - 1.
Definition is_int64 (z : Z) : bool := (int64_min <=? z) && (z <=? int64_max).
Definition uint64_mod : Z := 2 ^ 64.

(** Conversions between Go's [int64] and [uint64]: two's complement. *)
Definition to_u64 (z : Z) : Z := z mod uint64_mod.
Definition to_i64 (u : Z) : Z := if u <? 2 ^ 63 then u else u - uint64_mod.
(** A signed 64-bit operation that wraps around. *)
Definition wrap64 (z : Z) : Z := to_i64 (to_u64 z).
Definition wrap32 (z : Z) : Z :=
  let u := z mod 2 ^ 32 in if u <? 2 ^ 31 then u else u - 2 ^ 32.

Lemma is_int64_spec z : is_int64 z = true <-> - 2 ^ 63 <= z < 2 ^ 63.
Proof. unfold is_int64, int64_min, int64_max. rewrite andb_true_iff. lia. Qed.

Lemma to_u64_range z : 0 <= to_u64 z < 2 ^ 64.
Proof. unfold to_u64, uint64_mod. zlia. Qed.

Lemma to_u64_small z : 0 <= z < 2 ^ 64 -> to_u64 z = z.
Proof. intros H. by apply Z.mod_small. Qed.

Lemma wrap64_small z : - 2 ^ 63 <= z < 2 ^ 63 -> wrap64 z = z.
Proof.
  intros H. unfold wrap64, to_i64, to_u64, uint64_mod.
  destruct (Z.ltb_spec (z mod 2 ^ 64) (2 ^ 63)); zlia.
Qed.

Lemma wrap64_range z : - 2 ^ 63 <= wrap64 z < 2 ^ 63.
Proof.
  unfold wrap64, to_i64, to_u64, uint64_mod.
  destruct (Z.ltb_spec (z mod 2 ^ 64) (2 ^ 63)); zlia.
Qed.

Lemma wrap64_mod z : exists k, wrap64 z = z + k * 2 ^ 64.
Proof.
  unfold wrap64, to_i64, to_u64, uint64_mod.
  pose proof (Z.div_mod z (2 ^ 64)) as H.
  destruct (Z.ltb_spec (z mod 2 ^ 64) (2 ^ 63));
    [exists (- (z / 2 ^ 64)) | exists (- (z / 2 ^ 64) - 1)]; zlia.
Qed.

Lemma wrap32_small z : - 2 ^ 31 <= z < 2 ^ 31 -> wrap32 z = z.
Proof.
  intros H. unfold wrap32. destruct (Z.ltb_spec (z mod 2 ^ 32) (2 ^ 31)); zlia.
Qed.

(** ** Sorted lists *)

Lemma StronglySorted_mono {A} (R S : A -> A -> Prop) l :
  (forall x y, R x y -> S x y) -> StronglySorted R l -> StronglySorted S l.
Proof.
  intros HRS. induction 1; constructor; [done|]. eapply Forall_impl; eauto.
Qed.

Lemma StronglySorted_app_elim {A} (R : A -> A -> Prop) l k x y :
  StronglySorted R (l ++ k) -> x ∈ l -> y ∈ k -> R x y.
Proof.
  induction l as [|z l IH]; cbn; intros Hs Hx Hy; [by apply not_elem_of_nil in Hx|].
  inversion Hs as [|? ? Hs' Hall]; subst. apply elem_of_cons in Hx as [->|Hx]; [|by apply IH].
  rewrite Forall_forall in Hall. apply Hall. set_solver.
Qed.

(** ** Sums of integer lists *)

Definition zsum (l : list Z) : Z := foldr Z.add 0 l.

#[global] Arguments zsum : simpl never.

Lemma zsum_nil : zsum [] = 0.
Proof. done. Qed.

Lemma zsum_cons x l : zsum (x :: l) = x + zsum l.
Proof. done. Qed.

Lemma zsum_app l k : zsum (l ++ k) = zsum l + zsum k.
Proof. induction l as [|x l IH]; cbn; rewrite ?zsum_cons, ?zsum_nil, ?IH; lia. Qed.

Lemma zsum_insert l i x y : l !! i = Some x -> zsum (<[i := y]> l) = zsum l - x + y.
Proof.
  revert i. induction l as [|z l IH]; intros [|i]; simpl; intros H; try done.
  - injection H as ->. rewrite !zsum_cons. lia.
  - rewrite !zsum_cons, (IH i) by done. lia.
Qed.

Lemma zsum_Permutation l k : l ≡ₚ k -> zsum l = zsum k.
Proof. induction 1; rewrite ?zsum_cons; lia. Qed.

Lemma zsum_scale c l : zsum (map (fun x => c * x) l) = c * zsum l.
Proof. induction l as [|x l IH]; cbn; rewrite ?zsum_nil, ?zsum_cons, ?IH; lia. Qed.

Lemma zsum_le_length c l : Forall (fun x => x <= c) l -> zsum l <= c * Z.of_nat (length l).
Proof. induction 1; cbn [length]; rewrite ?zsum_nil, ?zsum_cons; lia. Qed.

Lemma zsum_nonneg l : Forall (fun x => 0 <= x) l -> 0 <= zsum l.
Proof. induction 1; rewrite ?zsum_nil, ?zsum_cons; lia. Qed.

Lemma zsum_zero l : Forall (fun x => x = 0) l -> zsum l = 0.
Proof. induction 1; rewrite ?zsum_nil, ?zsum_cons; lia. Qed.

Lemma zsum_elem_le l : Forall (fun x => 0 <= x) l -> Forall (fun x => 0 <= x <= zsum l) l.
Proof.
  induction 1 as [|x l Hx Hl IH]; constructor; rewrite ?zsum_cons.
  - pose proof (zsum_nonneg l Hl). lia.
  - eapply Forall_impl; [exact IH|]. cbn. intros. lia.
Qed.

(** ** Lists whose elements have keys of their own *)

Lemma NoDup_map_inj {A B} (g : A -> B) l x y :
  NoDup (map g l) -> x ∈ l -> y ∈ l -> g x = g y -> x = y.
Proof.
  intros Hn Hx Hy E. apply list_elem_of_lookup in Hx as [i Hi], Hy as [j Hj].
  assert (i = j) as ->; [|congruence].
  eapply (NoDup_lookup _ _ _ (g x)); [exact Hn|..]; rewrite list_lookup_fmap; [by rewrite Hi|]. by rewrite Hj, E.
Qed.
