(* ===== verification/GoStrings.v ===== *)
(** * Go strings and decimal digits

    The byte-level functions of package strings and of the scanning loops the
    components use, the base-10 reading and printing of integers
    ([big.Int.SetString], [big.Int.String], [strconv.Itoa]), and their
    lemmas. *)

From S2P Require Export Prelude.

#[global] Arguments String.append !_ _ / : simpl nomatch.

(** ** Strings

    A Go string is a byte sequence: [string] with [ascii] as the byte. *)

Definition byte (c : ascii) : Z := Z.of_N (N_of_ascii c).
Definition slen (s : string) : Z := Z.of_nat (String.length s).

(** [c >= '0' && c <= '9'], and the other ASCII classes the code tests. *)
Definition is_digit (c : ascii) : bool := (48 <=? byte c) && (byte c <=? 57).
Definition is_upper (c : ascii) : bool := (65 <=? byte c) && (byte c <=? 90).
Definition is_lower (c : ascii) : bool := (97 <=? byte c) && (byte c <=? 122).

(** The scanning loop [for i < len(s) && p(s[i]) { i++ }]: the bytes passed
    over and what is left. *)
Fixpoint span (p : ascii -> bool) (s : string) : string * string :=
  match s with
  | EmptyString => (EmptyString, EmptyString)
  | String c r =>
      if p c then let '(a, b) := span p r in (String c a, b) else (EmptyString, s)
  end.

Fixpoint str_forall (p : ascii -> bool) (s : string) : bool :=
  match s with
  | EmptyString => true
  | String c r => p c && str_forall p r
  end.

(** [s[:n]] and [s[n:]] for [n <= len(s)]. *)
Fixpoint str_take (n : nat) (s : string) : string :=
  match n, s with
  | S n, String c r => String c (str_take n r)
  | _, _ => EmptyString
  end.
Fixpoint str_drop (n : nat) (s : string) : string :=
  match n, s with
  | O, _ => s
  | S n, String _ r => str_drop n r
  | S _, EmptyString => EmptyString
  end.

(** [strings.Repeat(c, n)] for a one-byte string. *)
Fixpoint str_repeat (c : ascii) (n : nat) : string :=
  match n with O => EmptyString | S n => String c (str_repeat c n) end.

Fixpoint str_rev_app (s acc : string) : string :=
  match s with EmptyString => acc | String c r => str_rev_app r (String c acc) end.
Definition str_rev (s : string) : string := str_rev_app s EmptyString.

(** [strings.IndexByte(s, c) >= 0]. *)
Fixpoint str_contains (c : ascii) (s : string) : bool :=
  match s with EmptyString => false | String d r => Ascii.eqb c d || str_contains c r end.

(** [strings.TrimSpace]: removes the runes of [unicode.IsSpace], which are
    the ASCII ones and, in UTF-8, U+0085, U+00A0, U+1680, U+2000..U+200A,
    U+2028, U+2029, U+202F, U+205F and U+3000. *)
Definition space1 (c : ascii) : bool := (byte c =? 32) || ((9 <=? byte c) && (byte c <=? 13)).
Definition space2 (c d : ascii) : bool :=
  (byte c =? 194) && ((byte d =? 133) || (byte d =? 160)).
Definition space3 (c d e : ascii) : bool :=
  let d := byte d in let e := byte e in
  if byte c =? 225 then (d =? 154) && (e =? 128)
  else if byte c =? 226 then
    ((d =? 128) && (((128 <=? e) && (e <=? 138)) || (e =? 168) || (e =? 169) || (e =? 175)))
    || ((d =? 129) && (e =? 159))
  else if byte c =? 227 then (d =? 128) && (e =? 128)
  else false.

Fixpoint trim_left (s : string) : string :=
  match s with
  | String c r =>
      if space1 c then trim_left r else
      match r with
      | String d r2 =>
          if space2 c d then trim_left r2 else
          match r2 with
          | String e r3 => if space3 c d e then trim_left r3 else s
          | EmptyString => s
          end
      | EmptyString => s
      end
  | EmptyString => s
  end.

(** The same from the other end, on the reversed bytes. *)
Fixpoint trim_left_rev (s : string) : string :=
  match s with
  | String c r =>
      if space1 c then trim_left_rev r else
      match r with
      | String d r2 =>
          if space2 d c then trim_left_rev r2 else
          match r2 with
          | String e r3 => if space3 e d c then trim_left_rev r3 else s
          | EmptyString => s
          end
      | EmptyString => s
      end
  | EmptyString => s
  end.

Definition TrimSpace (s : string) : string :=
  str_rev (trim_left_rev (str_rev (trim_left s))).

(** [strings.TrimSpace(s) == ""]. *)
Definition blank (s : string) : bool := String.eqb (TrimSpace s) EmptyString.

(** ** Digits *)

(** [c - '0'] and its inverse. *)
Definition digit_val (c : ascii) : Z := byte c - 48.
Definition digit_char (d : Z) : ascii := ascii_of_N (Z.to_N (d + 48)).

(** [big.Int.SetString(s, 10)] on a string of digits. *)
Fixpoint digits_acc (acc : Z) (s : string) : Z :=
  match s with
  | EmptyString => acc
  | String c r => digits_acc (10 * acc + digit_val c) r
  end.
Definition digits_Z (s : string) : Z := digits_acc 0 s.

(** [big.Int.String()] of a non-negative integer. The fuel is the bit length,
    see [dec_string_correct]. *)
Fixpoint dec_aux (fuel : nat) (n : Z) (acc : string) : string :=
  match fuel with
  | O => acc
  | S fuel =>
      let acc := String (digit_char (n mod 10)) acc in
      if n <? 10 then acc else dec_aux fuel (n / 10) acc
  end.
Definition dec_string (n : Z) : string := dec_aux (S (Z.to_nat (Z.log2 n))) n EmptyString.

(** ** Lemmas on strings *)

Lemma str_app_nil_r (s : string) : s +:+ "" = s.
Proof. induction s as [|c s IH]; cbn; [done|]. by rewrite IH. Qed.

Lemma str_app_assoc (s t u : string) : (s +:+ t) +:+ u = s +:+ (t +:+ u).
Proof. induction s as [|c s IH]; cbn; [done|]. by rewrite IH. Qed.

Lemma str_length_app (s t : string) :
  String.length (s +:+ t) = (String.length s + String.length t)%nat.
Proof. induction s as [|c s IH]; cbn; [done|]. by rewrite IH. Qed.

Lemma str_app_inj_length (a b c d : string) :
  String.length a = String.length c -> a +:+ b = c +:+ d -> a = c /\ b = d.
Proof.
  revert c. induction a as [|x a IH]; intros [|y c] Hl; cbn in *; try done.
  intros [= -> H]. destruct (IH c ltac:(lia) H) as [-> ->]. done.
Qed.

Lemma slen_app s t : slen (s +:+ t) = slen s + slen t.
Proof. unfold slen. rewrite str_length_app. lia. Qed.

Lemma slen_cons c s : slen (String c s) = 1 + slen s.
Proof. unfold slen. cbn [String.length]. lia. Qed.

Lemma slen_nonneg s : 0 <= slen s.
Proof. unfold slen. lia. Qed.

Lemma slen_zero s : slen s = 0 <-> s = ""%string.
Proof. unfold slen. destruct s; cbn; split; naive_solver lia. Qed.

Lemma str_forall_app p s t : str_forall p (s +:+ t) = str_forall p s && str_forall p t.
Proof. induction s as [|c s IH]; cbn; [done|]. by rewrite IH, andb_assoc. Qed.

Lemma str_take_drop n s : str_take n s +:+ str_drop n s = s.
Proof.
  revert s. induction n as [|n IH]; intros [|c s]; cbn; try done. by rewrite IH.
Qed.

Lemma str_take_length n s :
  (n <= String.length s)%nat -> String.length (str_take n s) = n.
Proof.
  revert s. induction n as [|n IH]; intros [|c s]; cbn; try lia. intros. rewrite IH; lia.
Qed.

Lemma str_drop_length n s : String.length (str_drop n s) = (String.length s - n)%nat.
Proof. revert s. induction n as [|n IH]; intros [|c s]; cbn; auto. Qed.

Lemma str_repeat_length c n : String.length (str_repeat c n) = n.
Proof. induction n; cbn; auto. Qed.

Lemma slen_repeat c n : slen (str_repeat c n) = Z.of_nat n.
Proof. unfold slen. by rewrite str_repeat_length. Qed.

Lemma str_forall_repeat p c n : p c = true -> str_forall p (str_repeat c n) = true.
Proof. intros Hc. induction n; cbn; [done|]. by rewrite Hc. Qed.

Lemma str_forall_take p n s : str_forall p s = true -> str_forall p (str_take n s) = true.
Proof.
  revert s. induction n as [|n IH]; intros [|c s]; cbn; auto.
  intros [-> ?]%andb_true_iff. by apply IH.
Qed.

Lemma str_forall_drop p n s : str_forall p s = true -> str_forall p (str_drop n s) = true.
Proof.
  revert s. induction n as [|n IH]; intros [|c s]; cbn; auto.
  intros [? ?]%andb_true_iff. by apply IH.
Qed.

(** The head of [s], when there is one, fails [p]. *)
Definition stops (p : ascii -> bool) (s : string) : Prop :=
  match s with EmptyString => True | String c _ => p c = false end.

Lemma span_spec p s a b :
  span p s = (a, b) -> s = a +:+ b /\ str_forall p a = true /\ stops p b.
Proof.
  revert a b. induction s as [|c s IH]; intros a b; cbn.
  - intros [= <- <-]. done.
  - destruct (p c) eqn:Hc.
    + destruct (span p s) as [a' b'] eqn:E. intros [= <- <-].
      destruct (IH _ _ eq_refl) as (-> & ? & ?). cbn. by rewrite Hc.
    + intros [= <- <-]. done.
Qed.

Lemma span_app p a b : str_forall p a = true -> stops p b -> span p (a +:+ b) = (a, b).
Proof.
  intros Ha Hb. induction a as [|c a IH]; cbn in *.
  - destruct b as [|c b]; cbn in *; [done|]. by rewrite Hb.
  - apply andb_true_iff in Ha as [-> Ha]. by rewrite IH.
Qed.

Lemma span_all p a : str_forall p a = true -> span p a = (a, ""%string).
Proof. intros Ha. rewrite <- (str_app_nil_r a) at 1. by apply span_app. Qed.

Lemma str_rev_app_spec s acc : str_rev_app s acc = str_rev s +:+ acc.
Proof.
  unfold str_rev. revert acc. induction s as [|c s IH]; intros acc; cbn; [done|].
  rewrite IH, (IH (String c "")). by rewrite str_app_assoc.
Qed.

Lemma str_contains_app c s t : str_contains c (s +:+ t) = str_contains c s || str_contains c t.
Proof. induction s as [|d s IH]; cbn; [done|]. by rewrite IH, orb_assoc. Qed.

(** ** Lemmas on digits *)

Lemma is_digit_val c : is_digit c = true -> 0 <= digit_val c <= 9.
Proof. unfold is_digit, digit_val. rewrite andb_true_iff. lia. Qed.

Lemma byte_digit_char d : 0 <= d <= 9 -> byte (digit_char d) = d + 48.
Proof.
  intros Hd. unfold byte, digit_char. rewrite N_ascii_embedding; lia.
Qed.

Lemma digit_val_char d : 0 <= d <= 9 -> digit_val (digit_char d) = d.
Proof. intros Hd. unfold digit_val. rewrite byte_digit_char; lia. Qed.

Lemma is_digit_char d : 0 <= d <= 9 -> is_digit (digit_char d) = true.
Proof. intros Hd. unfold is_digit. rewrite byte_digit_char by done. lia. Qed.

Lemma digits_acc_shift acc s : digits_acc acc s = acc * 10 ^ slen s + digits_Z s.
Proof.
  unfold digits_Z, slen. revert acc. induction s as [|c s IH]; intros acc; cbn -[Z.pow].
  - lia.
  - rewrite (IH (10 * acc + _)), (IH (10 * 0 + _)).
    rewrite Nat2Z.inj_succ, Z.pow_succ_r by lia. lia.
Qed.

Lemma digits_acc_app acc s t : digits_acc acc (s +:+ t) = digits_acc (digits_acc acc s) t.
Proof. revert acc. induction s as [|c s IH]; intros acc; cbn; auto. Qed.

Lemma digits_Z_app s t : digits_Z (s +:+ t) = digits_Z s * 10 ^ slen t + digits_Z t.
Proof. unfold digits_Z at 1. by rewrite digits_acc_app, digits_acc_shift. Qed.

Lemma digits_Z_cons c s : digits_Z (String c s) = digit_val c * 10 ^ slen s + digits_Z s.
Proof. unfold digits_Z at 1. cbn [digits_acc]. by rewrite digits_acc_shift. Qed.

Lemma digits_Z_bound s : str_forall is_digit s = true -> 0 <= digits_Z s < 10 ^ slen s.
Proof.
  induction s as [|c s IH]; cbn [str_forall].
  - intros _. change (0 <= 0 < 1). lia.
  - intros [Hc Hs]%andb_true_iff. rewrite digits_Z_cons. specialize (IH Hs).
    apply is_digit_val in Hc. unfold slen in *. cbn [String.length].
    rewrite Nat2Z.inj_succ, Z.pow_succ_r by lia. nia.
Qed.

Lemma digits_Z_repeat n : digits_Z (str_repeat "0" n) = 0.
Proof.
  induction n as [|n IH]; [done|]. cbn [str_repeat]. by rewrite digits_Z_cons, IH.
Qed.

(** Printing: [dec_string n] is the digit string of value [n] with no
    superfluous leading zero. *)
Lemma dec_aux_spec fuel n acc :
  0 <= n < 2 ^ Z.of_nat fuel -> (0 < fuel)%nat ->
  exists ds, dec_aux fuel n acc = ds +:+ acc /\ str_forall is_digit ds = true /\
    digits_Z ds = n /\ 1 <= slen ds /\ (slen ds = 1 \/ 10 ^ (slen ds - 1) <= n).
Proof.
  revert n acc. induction fuel as [|fuel IH]; intros n acc Hn Hf; [lia|].
  cbn [dec_aux]. assert (Hm : 0 <= n mod 10 <= 9) by zlia.
  set (last := String (digit_char (n mod 10)) "").
  assert (Hl : str_forall is_digit last = true /\ digits_Z last = n mod 10 /\ slen last = 1).
  { subst last. cbn [str_forall]. rewrite is_digit_char, digits_Z_cons, digit_val_char by done.
    change (slen "") with 0. change (digits_Z "") with 0. repeat split; lia. }
  destruct Hl as (Hl1 & Hl2 & Hl3). destruct (Z.ltb_spec n 10) as [Hlt|Hge].
  - exists last. rewrite Hl3. repeat split; auto; [|lia]. rewrite Hl2. zlia.
  - rewrite Nat2Z.inj_succ, Z.pow_succ_r in Hn by lia.
    destruct (IH (n / 10) (String (digit_char (n mod 10)) acc)) as (ds & -> & Hd & Hv & Hlen & Hmin).
    { zlia. }
    { destruct fuel; [cbn in *; zlia | lia]. }
    exists (ds +:+ last). rewrite str_app_assoc, str_forall_app, digits_Z_app, slen_app, Hl3.
    rewrite Hd, Hl1, Hl2, Hv. repeat split; [zlia | lia |].
    right. replace (slen ds + 1 - 1) with (slen ds) by lia.
    destruct Hmin as [-> | Hmin]; [lia|].
    replace (slen ds) with (1 + (slen ds - 1)) by lia. rewrite Z.pow_add_r by lia. zlia.
Qed.

Lemma dec_string_spec n :
  0 <= n ->
  str_forall is_digit (dec_string n) = true /\ digits_Z (dec_string n) = n /\
  1 <= slen (dec_string n) /\
  (slen (dec_string n) = 1 \/ 10 ^ (slen (dec_string n) - 1) <= n).
Proof.
  intros Hn. unfold dec_string.
  destruct (dec_aux_spec (S (Z.to_nat (Z.log2 n))) n "") as (ds & E & H).
  { rewrite Nat2Z.inj_succ, Z2Nat.id by apply Z.log2_nonneg.
    destruct (Z.eq_dec n 0) as [->|]; [cbn; lia|].
    destruct (Z.log2_spec n); lia. }
  { lia. }
  rewrite E, str_app_nil_r. tauto.
Qed.

Lemma dec_string_length n k : 0 <= n < 10 ^ k -> 1 <= k -> slen (dec_string n) <= k.
Proof.
  intros Hn Hk. destruct (dec_string_spec n) as (_ & _ & _ & [H|H]); [lia..|].
  destruct (Z.le_gt_cases (slen (dec_string n)) k); [done|].
  assert (10 ^ k <= 10 ^ (slen (dec_string n) - 1)) by (apply Z.pow_le_mono_r; lia). lia.
Qed.

(** ** strings.Join *)

(** [strings.Join(l, sep)] for a one-byte separator. *)
Fixpoint str_join (sep : ascii) (l : list string) : string :=
  match l with
  | [] => EmptyString
  | [s] => s
  | s :: l => s +:+ String sep (str_join sep l)
  end.

Lemma str_contains_forall c p s :
  str_forall p s = true -> p c = false -> str_contains c s = false.
Proof.
  induction s as [|d s IH]; cbn; [done|]. intros [Hd Hs]%andb_true_iff Hc.
  destruct (Ascii.eqb_spec c d) as [->|]; [congruence|]. by apply IH.
Qed.

(** A string is cut at the first separator in one way. *)
Lemma str_cut_inj c (a b a' b' : string) :
  str_contains c a = false -> str_contains c a' = false ->
  a +:+ String c b = a' +:+ String c b' -> a = a' /\ b = b'.
Proof.
  revert a'. induction a as [|x a IH]; intros [|y a'] Ha Ha' H; cbn in *.
  - by injection H as <-.
  - injection H as <- _. by rewrite Ascii.eqb_refl in Ha'.
  - injection H as -> _. by rewrite Ascii.eqb_refl in Ha.
  - apply orb_false_iff in Ha as [_ Ha], Ha' as [_ Ha']. injection H as -> H.
    destruct (IH a' Ha Ha' H) as [-> ->]. done.
Qed.

(** Joining fields that do not contain the separator loses nothing. *)
Lemma str_join_inj c l l' :
  length l = length l' -> Forall (fun s => str_contains c s = false) l ->
  Forall (fun s => str_contains c s = false) l' -> str_join c l = str_join c l' -> l = l'.
Proof.
  revert l'. induction l as [|s l IH]; intros [|s' l'] Hlen Hl Hl' H; try done.
  apply Forall_cons in Hl as [Hs Hl], Hl' as [Hs' Hl'].
  destruct l as [|t l], l' as [|t' l']; try done.
  - cbn in H. by subst.
  - change (s +:+ String c (str_join c (t :: l)) = s' +:+ String c (str_join c (t' :: l'))) in H.
    apply str_cut_inj in H as [-> H]; [|done..]. f_equal. apply IH; auto.
Qed.

(** ** hex.EncodeToString *)

Definition hex_char (d : Z) : ascii := ascii_of_N (Z.to_N (if d <? 10 then d + 48 else d + 87)).
Fixpoint hex_encode (s : string) : string :=
  match s with
  | EmptyString => EmptyString
  | String c r => String (hex_char (byte c / 16)) (String (hex_char (byte c mod 16)) (hex_encode r))
  end.

Lemma byte_range c : 0 <= byte c < 256.
Proof. unfold byte. pose proof (N_ascii_bounded c). lia. Qed.

Lemma byte_inj c d : byte c = byte d -> c = d.
Proof.
  unfold byte. intros H. rewrite <- (ascii_N_embedding c), <- (ascii_N_embedding d).
  f_equal. lia.
Qed.

Lemma hex_char_inj a b : 0 <= a < 16 -> 0 <= b < 16 -> hex_char a = hex_char b -> a = b.
Proof.
  intros Ha Hb H. apply (f_equal N_of_ascii) in H. unfold hex_char in H.
  rewrite !N_ascii_embedding in H by (repeat case_match; lia).
  destruct (Z.ltb_spec a 10), (Z.ltb_spec b 10); lia.
Qed.

Lemma hex_encode_inj s t : hex_encode s = hex_encode t -> s = t.
Proof.
  revert t. induction s as [|c s IH]; intros [|d t] H; cbn in H; try done.
  injection H as H1 H2 H3. pose proof (byte_range c). pose proof (byte_range d).
  apply hex_char_inj in H1; [|zlia..]. apply hex_char_inj in H2; [|zlia..].
  rewrite (IH t H3). f_equal. apply byte_inj. zlia.
Qed.

(** ** strings.ToValidUTF8 *)

Definition between (lo hi : Z) (c : ascii) : bool := (lo <=? byte c) && (byte c <=? hi).
(** A continuation byte. *)
Definition cont (c : ascii) : bool := between 128 191 c.

(** The length of the UTF-8 encoded rune [s] begins with; 0 when it begins
    with none (an invalid byte, an overlong form, a surrogate, a value over
    U+10FFFF, a truncated rune, the end). *)
Definition rune_len (s : string) : nat :=
  match s with
  | EmptyString => 0%nat
  | String a r =>
      if byte a <? 128 then 1%nat else
      match r with
      | EmptyString => 0%nat
      | String b r2 =>
          if between 194 223 a then (if cont b then 2%nat else 0%nat) else
          match r2 with
          | EmptyString => 0%nat
          | String c r3 =>
              if between 224 239 a then
                let lo := if byte a =? 224 then 160 else 128 in
                let hi := if byte a =? 237 then 159 else 191 in
                if between lo hi b && cont c then 3%nat else 0%nat
              else
              match r3 with
              | EmptyString => 0%nat
              | String d _ =>
                  if between 240 244 a then
                    let lo := if byte a =? 240 then 144 else 128 in
                    let hi := if byte a =? 244 then 143 else 191 in
                    if between lo hi b && cont c && cont d then 4%nat else 0%nat
                  else 0%nat
              end
          end
      end
  end.

(** [strings.ToValidUTF8(s, "")]: the invalid bytes dropped.  The fuel is
    the length. *)
Fixpoint valid_utf8_aux (fuel : nat) (s : string) : string :=
  match fuel with
  | O => EmptyString
  | S fuel =>
      match s with
      | EmptyString => EmptyString
      | String _ r =>
          match rune_len s with
          | O => valid_utf8_aux fuel r
          | n => str_take n s +:+ valid_utf8_aux fuel (str_drop n s)
          end
      end
  end.
Definition to_valid_utf8 (s : string) : string := valid_utf8_aux (String.length s) s.

Lemma str_take_le n s : (String.length (str_take n s) <= n)%nat.
Proof. revert s. induction n as [|n IH]; intros [|c s]; cbn; [lia..|]. specialize (IH s). lia. Qed.

Lemma str_take_le_length n s : (String.length (str_take n s) <= String.length s)%nat.
Proof. revert s. induction n as [|n IH]; intros [|c s]; cbn; [lia..|]. specialize (IH s). lia. Qed.

Lemma valid_utf8_aux_length fuel s :
  (String.length (valid_utf8_aux fuel s) <= String.length s)%nat.
Proof.
  revert s. induction fuel as [|fuel IH]; intros s; [cbn; lia|].
  cbn [valid_utf8_aux]. destruct s as [|c r]; [cbn; lia|].
  set (n := rune_len (String c r)). destruct n as [|n'] eqn:E.
  - specialize (IH r). cbn. lia.
  - rewrite str_length_app. specialize (IH (str_drop (S n') (String c r))).
    pose proof (f_equal String.length (str_take_drop (S n') (String c r))) as H.
    rewrite str_length_app in H. lia.
Qed.

Lemma to_valid_utf8_length s : slen (to_valid_utf8 s) <= slen s.
Proof. unfold slen, to_valid_utf8. pose proof (valid_utf8_aux_length (String.length s) s). lia. Qed.

(** ** Lower case, prefixes and pieces *)

Fixpoint str_map (f : ascii -> ascii) (s : string) : string :=
  match s with EmptyString => EmptyString | String c s => String (f c) (str_map f s) end.

Definition is_ascii (c : ascii) : bool := byte c <? 128.
Definition lower_char (c : ascii) : ascii := if is_upper c then ascii_of_N (Z.to_N (byte c + 32)) else c.

(** [unicode.ToLower] applied to every rune of a string that is not ASCII;
    its tables are a parameter. *)
Class UnicodeLower := unicode_lower : string -> string.

(** [strings.ToLower]: bytes for an ASCII string, runes otherwise. *)
Definition ToLower `{UnicodeLower} (s : string) : string :=
  if str_forall is_ascii s then str_map lower_char s else unicode_lower s.

(** [strings.TrimPrefix]. *)
Definition TrimPrefix (s prefix : string) : string :=
  if String.prefix prefix s then str_drop (String.length prefix) s else s.

(** What follows the last [c] of [s], if there is one. *)
Fixpoint after_last (c : ascii) (s : string) : option string :=
  match s with
  | EmptyString => None
  | String d s =>
      match after_last c s with
      | Some t => Some t
      | None => if Ascii.eqb c d then Some s else None
      end
  end.

(** [strings.Cut] at the first [c]. *)
Fixpoint cut (c : ascii) (s : string) : option (string * string) :=
  match s with
  | EmptyString => None
  | String d s =>
      if Ascii.eqb c d then Some (EmptyString, s)
      else match cut c s with Some (a, b) => Some (String d a, b) | None => None end
  end.

(** [strings.ReplaceAll(s, c, "")]. *)
Fixpoint str_remove (c : ascii) (s : string) : string :=
  match s with
  | EmptyString => EmptyString
  | String d s => if Ascii.eqb c d then str_remove c s else String d (str_remove c s)
  end.

Lemma cut_spec c s a b : cut c s = Some (a, b) <-> s = a +:+ String c b /\ str_contains c a = false.
Proof.
  revert a. induction s as [|d s IH]; intros a; cbn.
  - split; [done|]. by destruct a as [|? ?]; intros [? _].
  - destruct (Ascii.eqb_spec c d) as [<-|Hne].
    + split; [by intros [= <- <-]|]. intros [E H]. destruct a as [|e a]; cbn in *; [congruence|].
      injection E as <- _. by rewrite Ascii.eqb_refl in H.
    + destruct (cut c s) as [[x y]|] eqn:E.
      * split.
        -- intros [= <- <-]. apply (IH x) in E as [-> H] || (destruct (proj1 (IH x)) as [-> H]; [done|]).
           cbn. by destruct (Ascii.eqb_spec c d).
        -- intros [H1 H2]. destruct a as [|e a]; cbn in *; [congruence|]. injection H1 as <- H1.
           destruct (Ascii.eqb_spec c d); [done|]. assert (Some (x, y) = Some (a, b)) as [= -> ->] by (by apply IH). done.
      * split; [done|]. intros [H1 H2]. destruct a as [|e a]; cbn in *; [congruence|]. injection H1 as <- H1.
        destruct (Ascii.eqb_spec c d); [done|]. assert (None = Some (a, b)) by (by apply IH). done.
Qed.

(** ** Splitting *)

(** [strings.Split] at a byte. *)
Fixpoint str_split (c : ascii) (s : string) : list string :=
  match s with
  | EmptyString => [EmptyString]
  | String d r =>
      if Ascii.eqb c d then EmptyString :: str_split c r
      else match str_split c r with w :: ws => String d w :: ws | [] => [String d EmptyString] end
  end.

(** A space rune starts here. *)
Definition starts_space (s : string) : bool :=
  match s with
  | String c r =>
      space1 c ||
      match r with
      | String d r2 => space2 c d || match r2 with String e _ => space3 c d e | EmptyString => false end
      | EmptyString => false
      end
  | EmptyString => false
  end.

(** The bytes before the first space rune, and the rest. *)
Fixpoint span_word (s : string) : string * string :=
  match s with
  | EmptyString => (EmptyString, EmptyString)
  | String c r => if starts_space s then (EmptyString, s) else let '(w, r) := span_word r in (String c w, r)
  end.

(** [strings.Fields]; every round takes at least a byte. *)
Fixpoint fields_loop (fuel : nat) (s : string) : list string :=
  match fuel with
  | O => []
  | S fuel =>
      match trim_left s with
      | EmptyString => []
      | s => let '(w, r) := span_word s in w :: fields_loop fuel r
      end
  end.
Definition Fields (s : string) : list string := fields_loop (S (String.length s)) s.

(** [strconv.Atoi]: [None] for a syntax or range error. *)
Definition Atoi (s : string) : option Z :=
  let '(neg, d) := match s with
    | String c r => if Ascii.eqb c "-" then (true, r) else if Ascii.eqb c "+" then (false, r) else (false, s)
    | EmptyString => (false, s)
    end in
  if String.eqb d "" || negb (str_forall is_digit d) then None else
  let v := if neg : bool then - digits_Z d else digits_Z d in
  if is_int64 v then Some v else None.

Lemma str_split_nonempty c s : str_split c s <> [].
Proof. destruct s as [|d r]; cbn; [done|]. destruct (Ascii.eqb c d); [done|]. by destruct (str_split c r). Qed.

(** ** Prefixes and suffixes *)

Definition HasPrefix (s p : string) : bool := String.prefix p s.
Definition HasSuffix (s suf : string) : bool :=
  Nat.leb (String.length suf) (String.length s) &&
  String.eqb (str_drop (String.length s - String.length suf) s) suf.
(** [strings.TrimSuffix]. *)
Definition TrimSuffix (s suf : string) : string :=
  if HasSuffix s suf then str_take (String.length s - String.length suf) s else s.

Lemma HasPrefix_spec s p : HasPrefix s p = true <-> exists t, s = p +:+ t.
Proof.
  unfold HasPrefix. revert s. induction p as [|c p IH]; intros s; cbn.
  - split; [by exists s|]. by destruct s.
  - destruct s as [|d s]; cbn; [split; [done|by intros [t ?]]|].
    destruct (ascii_dec c d) as [<-|Hne].
    + rewrite IH. split; intros [t Ht]; exists t; [by rewrite Ht|by injection Ht].
    + split; [done|]. intros [t Ht]. congruence.
Qed.

Lemma str_drop_app n (s t : string) : n = String.length s -> str_drop n (s +:+ t) = t.
Proof. intros ->. induction s as [|c s IH]; cbn; [by destruct t|done]. Qed.
Lemma str_take_app n (s t : string) : n = String.length s -> str_take n (s +:+ t) = s.
Proof. intros ->. induction s as [|c s IH]; cbn; [by destruct t|by rewrite IH]. Qed.

Lemma HasSuffix_spec s suf : HasSuffix s suf = true <-> exists t, s = t +:+ suf.
Proof.
  unfold HasSuffix. rewrite andb_true_iff, Nat.leb_le, String.eqb_eq. split.
  - intros [Hl Hd]. exists (str_take (String.length s - String.length suf) s). by rewrite <- Hd at 2; rewrite str_take_drop.
  - intros [t ->]. rewrite str_length_app. split; [lia|]. apply str_drop_app. lia.
Qed.

Lemma TrimPrefix_app p s : TrimPrefix (p +:+ s) p = s.
Proof.
  unfold TrimPrefix. assert (HasPrefix (p +:+ s) p = true) as H by (apply HasPrefix_spec; by exists s).
  unfold HasPrefix in H. rewrite H. by apply str_drop_app.
Qed.
Lemma TrimSuffix_app s suf : TrimSuffix (s +:+ suf) suf = s.
Proof.
  unfold TrimSuffix. assert (HasSuffix (s +:+ suf) suf = true) as -> by (apply HasSuffix_spec; by exists s).
  apply str_take_app. rewrite str_length_app. lia.
Qed.
