(* ===== verification/Tables.v ===== *)
(** * SQL statements on a table

    Tables as finite maps by key: ORDER BY, a SELECT ... LIMIT of rows, and
    the UPDATE of the rows it selected.  Shared by the job queues. *)

From stdpp Require Import gmap.
From S2P Require Import Prelude.

(** ** ORDER BY *)

Fixpoint insert_by {A} (before : A -> A -> bool) (p : A) (l : list A) : list A :=
  match l with [] => [p] | q :: l' => if before p q then p :: l else q :: insert_by before p l' end.
Definition sort_by {A} (before : A -> A -> bool) (l : list A) : list A := foldr (insert_by before) [] l.

Lemma insert_by_perm {A} (before : A -> A -> bool) p l : insert_by before p l ≡ₚ p :: l.
Proof.
  induction l as [|q l IH]; cbn; [done|]. destruct (before p q); [done|]. rewrite IH. apply Permutation_swap.
Qed.
Lemma sort_by_perm {A} (before : A -> A -> bool) l : sort_by before l ≡ₚ l.
Proof. induction l as [|p l IH]; cbn; [done|]. fold (sort_by before l). by rewrite insert_by_perm, IH. Qed.

Section sorted.
Context {A : Type} (before : A -> A -> bool)
  (before_trans : forall a b c, before a b = true -> before b c = true -> before a c = true)
  (before_total : forall a b, before a b = false -> before b a = true).

Lemma insert_by_sorted p l :
  StronglySorted (fun a b => before a b = true) l -> StronglySorted (fun a b => before a b = true) (insert_by before p l).
Proof.
  induction 1 as [|q l Hl IH Hq]; cbn; [by repeat constructor|].
  destruct (before p q) eqn:E.
  - constructor; [by constructor|]. constructor; [done|].
    eapply Forall_impl; [exact Hq|]. intros x Hx. by eapply before_trans.
  - constructor; [done|]. rewrite insert_by_perm. constructor; [by apply before_total|done].
Qed.
Lemma sort_by_sorted l : StronglySorted (fun a b => before a b = true) (sort_by before l).
Proof. induction l; cbn; [constructor|by apply insert_by_sorted]. Qed.
End sorted.

(** ** Keys *)

(** The list around one of its positions. *)
Lemma list_split_at {A} (l : list A) k x :
  l !! k = Some x -> exists l1 l2, l = l1 ++ x :: l2 /\ (forall y, <[k := y]> l = l1 ++ y :: l2) /\ delete k l = l1 ++ l2.
Proof.
  intros Hk. exists (take k l), (drop (S k) l). split; [symmetry; by apply take_drop_middle|]. split; [|apply delete_take_drop].
  intros y. apply insert_take_drop. by eapply lookup_lt_Some.
Qed.

Lemma NoDup_fst_functional {A B} (l : list (A * B)) a b b' :
  NoDup (map fst l) -> (a, b) ∈ l -> (a, b') ∈ l -> b = b'.
Proof.
  induction l as [|[x y] l IH]; cbn; [set_solver|]. intros [Hx Hl]%NoDup_cons.
  intros [E|H]%elem_of_cons [E'|H']%elem_of_cons; [congruence|..|auto].
  - injection E as <- <-. exfalso. apply Hx, list_elem_of_fmap. by exists (a, b').
  - injection E' as <- <-. exfalso. apply Hx, list_elem_of_fmap. by exists (a, b).
Qed.

Lemma NoDup_pair {A} (token : string) (l : list (string * A)) :
  NoDup (map fst l) -> NoDup (map (fun p => (p.1, token)) l).
Proof.
  induction l as [|[i r] l IH]; cbn; [constructor|]. intros [Hi H]%NoDup_cons.
  constructor; [|auto]. intros (p & E & Hp)%list_elem_of_fmap. apply Hi, list_elem_of_fmap.
  exists p. split; [congruence|done].
Qed.

Lemma NoDup_fst_filter {A} (f : string * A -> bool) (l : list (string * A)) :
  NoDup (map fst l) -> NoDup (map fst (List.filter f l)).
Proof.
  induction l as [|p l IH]; cbn; [done|]. intros [Hp Hl]%NoDup_cons. destruct (f p); cbn; [|auto]. constructor; [|auto].
  intros (q & E & Hq)%list_elem_of_fmap. apply Hp, list_elem_of_fmap. exists q. split; [done|].
  apply list_elem_of_In, filter_In in Hq as [Hq _]. by apply list_elem_of_In.
Qed.

(** ** Writing rows *)

Section rows.
Context {V : Type}.

Fixpoint write_all (l : list (string * V)) (t : gmap string V) : gmap string V :=
  match l with [] => t | (id, r) :: l => <[id := r]> (write_all l t) end.

Lemma write_all_lookup l (t : gmap string V) i :
  NoDup (map fst l) ->
  write_all l t !! i = match List.find (fun p => String.eqb p.1 i) l with Some p => Some p.2 | None => t !! i end.
Proof.
  induction l as [|[k r] l IH]; cbn; [done|]. intros [Hk Hl]%NoDup_cons.
  destruct (String.eqb_spec k i) as [->|Hne]; [by rewrite lookup_insert_eq|].
  rewrite lookup_insert_ne by done. auto.
Qed.

Lemma write_all_in l (t : gmap string V) i r : NoDup (map fst l) -> (i, r) ∈ l -> write_all l t !! i = Some r.
Proof.
  induction l as [|[k q] l IH]; cbn; [intros _ ?%elem_of_nil; done|]. intros [Hk Hl]%NoDup_cons [[= -> ->]|Hin]%elem_of_cons.
  - apply lookup_insert_eq.
  - rewrite lookup_insert_ne; [auto|]. intros ->. apply Hk, list_elem_of_fmap. by exists (i, r).
Qed.
Lemma write_all_cases l (t : gmap string V) i r :
  write_all l t !! i = Some r -> (i, r) ∈ l \/ ((forall q, (i, q) ∉ l) /\ t !! i = Some r).
Proof.
  induction l as [|[k q] l IH]; cbn; [intros Hr; right; split; [intros q ?%elem_of_nil; done|done]|].
  destruct (decide (i = k)) as [->|Hne].
  - rewrite lookup_insert_eq. intros [= ->]. left. by left.
  - rewrite lookup_insert_ne by done. intros [?|[Hn Hr]]%IH; [left; by right|right]. split; [|done].
    intros x [[= -> ->]|Hx]%elem_of_cons; [done|]. by eapply Hn.
Qed.

(** SELECT ... WHERE [sel] ORDER BY [before] LIMIT [n]. *)
Definition select (before : string * V -> string * V -> bool) (sel : string -> V -> bool) (n : nat) (t : gmap string V) :
    list (string * V) := take n (sort_by before (List.filter (fun p => sel p.1 p.2) (map_to_list t))).
(** UPDATE ... WHERE key IN (SELECT ...) RETURNING. *)
Definition update_selected before sel n (f : V -> V) (t : gmap string V) : list (string * V) * gmap string V :=
  let rows := map (fun p => (p.1, f p.2)) (select before sel n t) in (rows, write_all rows t).

Lemma select_keys before sel n t : NoDup (map fst (select before sel n t)).
Proof.
  unfold select. rewrite <- firstn_map.
  assert (NoDup (map fst (sort_by before (List.filter (fun p => sel p.1 p.2) (map_to_list t))))) as Hn.
  { rewrite sort_by_perm. apply NoDup_fst_filter, NoDup_fst_map_to_list. }
  rewrite <- (take_drop n (map fst _)) in Hn. by apply NoDup_app in Hn as [? _].
Qed.

Lemma elem_of_select before sel n t i r : (i, r) ∈ select before sel n t -> t !! i = Some r /\ sel i r = true.
Proof.
  unfold select. intros (k & Hk & _)%elem_of_take. apply list_elem_of_lookup_2 in Hk. rewrite sort_by_perm in Hk.
  apply list_elem_of_In, filter_In in Hk as [Hin Hs]. split; [|done]. by apply elem_of_map_to_list, list_elem_of_In.
Qed.

(** With room for all, every row that satisfies the condition is selected. *)
Lemma select_all before sel n t i r :
  (length (List.filter (fun p => sel p.1 p.2) (map_to_list t)) <= n)%nat ->
  t !! i = Some r -> sel i r = true -> (i, r) ∈ select before sel n t.
Proof.
  intros Hn Hr Hs. unfold select. rewrite take_ge.
  - rewrite sort_by_perm. apply list_elem_of_In, filter_In. split; [|done]. by apply list_elem_of_In, elem_of_map_to_list.
  - by rewrite (Permutation_length (sort_by_perm before _)).
Qed.

Lemma updated_keys before sel n f t : map fst (update_selected before sel n f t).1 = map fst (select before sel n t).
Proof. unfold update_selected. cbn [fst]. rewrite map_map. done. Qed.

Lemma elem_of_updated before sel n f t i r' :
  (i, r') ∈ (update_selected before sel n f t).1 -> exists r, t !! i = Some r /\ sel i r = true /\ r' = f r.
Proof.
  unfold update_selected. cbn [fst]. intros ([j r] & [= -> ->] & Hin)%list_elem_of_fmap.
  apply elem_of_select in Hin as [? ?]. by exists r.
Qed.

(** Every row is one of those updated, or is as it was. *)
Lemma update_selected_lookup before sel n f t i :
  match (update_selected before sel n f t).2 !! i with
  | Some r' => (i, r') ∈ (update_selected before sel n f t).1 \/
               (i ∉ map fst (select before sel n t) /\ t !! i = Some r')
  | None => t !! i = None
  end.
Proof.
  pose proof (updated_keys before sel n f t) as Hk. unfold update_selected in *. cbn [fst snd] in *.
  set (rows := map (fun p => (p.1, f p.2)) _) in *. rewrite write_all_lookup by (rewrite Hk; apply select_keys). rewrite <- Hk.
  destruct (List.find (fun p => String.eqb p.1 i) rows) as [[k r]|] eqn:E.
  - apply find_some in E as [Hin He%String.eqb_eq]. cbn in *. subst. left. by apply list_elem_of_In.
  - assert (i ∉ map fst rows) as Hni.
    { intros ([k r] & Ek & Hin)%list_elem_of_fmap. apply list_elem_of_In in Hin.
      pose proof (find_none _ _ E _ Hin) as Hf. cbn in Hf, Ek. by rewrite <- Ek, String.eqb_refl in Hf. }
    destruct (t !! i); auto.
Qed.

Lemma update_selected_none before sel n f t i : (update_selected before sel n f t).2 !! i = None <-> t !! i = None.
Proof.
  pose proof (update_selected_lookup before sel n f t i) as H. destruct (_ !! i) as [r'|]; [|done].
  split; [done|]. intros Ht. destruct H as [(r & Hr & _)%elem_of_updated|[_ Hr]]; congruence.
Qed.
End rows.
