(* ===== verification/MoneyRounding.v ===== *)
(** * Money: rounding modes and rounded division (money/rounding.go)

    [divRound] is the one place of package money that drops digits; every
    other operation calls it with a power of ten or a cash increment as the
    divisor.  This file gives it a specification on exact integers ([rounds])
    and shows that [divRound] is the unique integer that meets it. *)

From S2P Require Import Prelude.

(** [type RoundingMode uint8]: the six [iota] constants in order; any other
    byte is [UnknownMode] (never equal to a named one, see [mode_of_byte]). *)
Inductive RoundingMode : Type :=
| HalfAwayFromZero | HalfEven | TowardZero | AwayFromZero | Floor | Ceiling
| UnknownMode (b : Z).

#[export] Instance RoundingMode_eq_dec : EqDecision RoundingMode.
Proof. solve_decision. Defined.

(** The sentinels of money/errors.go, and [ErrPanic] for a run-time panic
    ([bits.Div64] overflow, index out of range) so that "never panics" is a
    theorem and not an omission. *)
Inductive money_error : Type :=
| ErrInvalid | ErrPrecision | ErrOverflow | ErrCurrencyMismatch | ErrPanic.

#[export] Instance money_error_eq_dec : EqDecision money_error.
Proof. solve_decision. Defined.

Definition mode_of_byte (b : Z) : RoundingMode :=
  match b with
  | 0 => HalfAwayFromZero | 1 => HalfEven | 2 => TowardZero
  | 3 => AwayFromZero | 4 => Floor | 5 => Ceiling
  | _ => UnknownMode b
  end.

Definition modeNames : list (RoundingMode * string) :=
  [(HalfAwayFromZero, "halfAwayFromZero"); (HalfEven, "halfEven");
   (TowardZero, "towardZero"); (AwayFromZero, "awayFromZero");
   (Floor, "floor"); (Ceiling, "ceil")]%string.

Definition mode_valid (m : RoundingMode) : bool :=
  match m with UnknownMode _ => false | _ => true end.

(** [RoundingMode.MarshalText] / [String] on a valid mode. *)
Definition mode_MarshalText (m : RoundingMode) : result money_error string :=
  match find (fun p => bool_decide (p.1 = m)) modeNames with
  | Some (_, n) => Ok n
  | None => Err ErrInvalid
  end.

Definition ParseRoundingMode (s : string) : result money_error RoundingMode :=
  match find (fun p => String.eqb p.2 s) modeNames with
  | Some (m, _) => Ok m
  | None => Err ErrInvalid
  end.

Definition checkMode (m : RoundingMode) : result money_error unit :=
  require (mode_valid m) ErrInvalid.

(** [divRound]: [big.Int.QuoRem] is truncated division; the quotient then
    moves one step in the sign of the exact quotient when the mode says so.
    [den <> 0] is the caller's obligation (QuoRem panics on zero). *)
Definition divRound (num den : Z) (mode : RoundingMode) : Z :=
  let q := Z.quot num den in
  let r := Z.rem num den in
  if r =? 0 then q else
  let sign := Z.sgn num * Z.sgn den in
  let half tie_up :=
    match (2 * Z.abs r ?= Z.abs den) with
    | Gt => true | Eq => tie_up | Lt => false
    end in
  let up :=
    match mode with
    | TowardZero => false
    | AwayFromZero => true
    | Floor => sign <? 0
    | Ceiling => 0 <? sign
    | HalfAwayFromZero => half true
    | HalfEven | UnknownMode _ => half (Z.odd q)
    end in
  if up then q + sign else q.

(** [pow10Cache] is built by repeated multiplication; [pow10] reads it below
    40 and calls [big.Int.Exp] from there.  Its argument is never negative:
    every caller passes a scale of a well-formed decimal (a negative index
    would panic), see [decimal_wf]. *)
Fixpoint pow10Cache (len : nat) : list Z :=
  match len with
  | O => []
  | S O => [1]
  | S n => let c := pow10Cache n in c ++ [List.last c 0 * 10]
  end.

Definition pow10 (n : Z) : Z :=
  if n <? 40 then List.nth (Z.to_nat n) (pow10Cache 40) 0 else 10 ^ n.

(** ** Specification *)

(** [rounds mode num den q]: [q] is the exact quotient num/den rounded to an
    integer with [mode], written without division. [num - q*den] is the
    discarded part. *)
Definition rounds (mode : RoundingMode) (num den q : Z) : Prop :=
  let r := num - q * den in
  match mode with
  | TowardZero => Z.abs r < Z.abs den /\ Z.abs (q * den) <= Z.abs num
  | AwayFromZero => Z.abs r < Z.abs den /\ Z.abs num <= Z.abs (q * den)
  | Floor => 0 <= r * Z.sgn den < Z.abs den
  | Ceiling => 0 <= - r * Z.sgn den < Z.abs den
  | HalfAwayFromZero =>
      2 * Z.abs r <= Z.abs den /\ (2 * Z.abs r = Z.abs den -> Z.abs num <= Z.abs (q * den))
  | HalfEven | UnknownMode _ =>
      2 * Z.abs r <= Z.abs den /\ (2 * Z.abs r = Z.abs den -> Z.even q = true)
  end.

(** Truncated division in the four sign quadrants, with the remainder split
    into its absolute value: the shape every case of [divRound] needs. *)
Lemma quot_rem_signs num den :
  den <> 0 ->
  exists a,
    0 <= a < Z.abs den /\
    Z.rem num den = Z.sgn num * a /\
    num = den * Z.quot num den + Z.sgn num * a /\
    0 <= Z.sgn num * Z.sgn den * Z.quot num den.
Proof.
  intros Hden. exists (Z.abs (Z.rem num den)).
  pose proof (Z.quot_rem num den Hden) as Hqr.
  pose proof (Z.rem_bound_abs num den Hden) as Hb.
  pose proof (Z.rem_sign_mul num den Hden) as Hs.
  assert (Hr : Z.rem num den = Z.sgn num * Z.abs (Z.rem num den)).
  { destruct (Z.lt_trichotomy num 0) as [H|[->|H]].
    - rewrite (Z.sgn_neg num) by lia. nia.
    - rewrite Z.rem_0_l by lia. reflexivity.
    - rewrite (Z.sgn_pos num) by lia. nia. }
  split; [lia|]. split; [exact Hr|]. split; [lia|].
  destruct (Z.lt_trichotomy num 0) as [H|[->|H]];
    destruct (Z.lt_trichotomy den 0) as [Hd|[Hd|Hd]]; try lia;
    rewrite ?(Z.sgn_neg num), ?(Z.sgn_pos num), ?(Z.sgn_neg den), ?(Z.sgn_pos den) by lia.
  all: nia.
Qed.

Lemma abs_lt_mul_zero k d : Z.abs (k * d) < Z.abs d -> k = 0.
Proof. intros H. rewrite Z.abs_mul in H. nia. Qed.

(** Two candidates differ by a whole number [k] of divisors. *)
Lemma rounds_functional mode num den q1 q2 :
  den <> 0 -> rounds mode num den q1 -> rounds mode num den q2 -> q1 = q2.
Proof.
  intros Hden H1 H2.
  remember (q2 - q1) as k eqn:Hk. assert (q2 = q1 + k) as -> by lia. clear Hk.
  enough (k = 0) by lia.
  assert (Hcases : den > 0 \/ den < 0) by lia.
  destruct mode; cbn [rounds] in H1, H2;
    destruct Hcases as [Hd|Hd];
    rewrite ?(Z.sgn_pos den), ?(Z.sgn_neg den) in * by lia;
    try (apply (abs_lt_mul_zero k den); lia);
    (assert (k = -1 \/ k = 0 \/ k = 1) as [-> | [-> | ->]] by nia); try lia.
  (* Half-even ties: two even neighbours. *)
  all: try (rewrite Z.even_add in *; cbn in *; destruct H1 as [? E1], H2 as [? E2];
            rewrite (E1 ltac:(lia)) in E2; cbn in E2; specialize (E2 ltac:(lia)); congruence).
  (* Neighbouring multiples of [den] never straddle zero strictly. *)
  all: match goal with H2 : context [Z.add ?q ?c] |- _ =>
    assert ((q * den <= 0 /\ (q + c) * den <= 0) \/ (0 <= q * den /\ 0 <= (q + c) * den))
      as [?|?] by (assert (q <= -1 \/ q = 0 \/ 1 <= q) as [?|[->|?]] by lia; nia) end; lia.
Qed.

Lemma rounds_exact mode q den : den <> 0 -> rounds mode (den * q) den q.
Proof.
  intros Hden. unfold rounds. replace (den * q - q * den) with 0 by lia.
  rewrite (Z.mul_comm den q). destruct mode; cbn; lia.
Qed.

(** Evaluate the sign products that remain once both signs are known. *)
Ltac norm_signs :=
  change (1 * 1) with 1 in *; change (1 * -1) with (-1) in *;
  change (-1 * 1) with (-1) in *; change (-1 * -1) with 1 in *;
  change (1 <? 0) with false in *; change (-1 <? 0) with true in *;
  change (0 <? 1) with true in *; change (0 <? -1) with false in *;
  cbv beta iota in *.

Lemma divRound_rounds num den mode :
  den <> 0 -> rounds mode num den (divRound num den mode).
Proof.
  intros Hden. destruct (quot_rem_signs num den Hden) as (a & Ha & Hr & Hn & Hq).
  unfold divRound. rewrite Hr. remember (Z.quot num den) as q eqn:E. clear E Hr.
  case_eq (Z.sgn num * a =? 0); intros Hz.
  { apply Z.eqb_eq in Hz. replace num with (den * q) at 1 by lia. by apply rounds_exact. }
  apply Z.eqb_neq in Hz.
  assert (Hs : Z.sgn num = 1 \/ Z.sgn num = -1) by lia.
  assert (Ht : Z.sgn den = 1 \/ Z.sgn den = -1) by lia.
  assert (Z.abs den = Z.sgn den * den) as Habs by lia.
  remember (Z.sgn num) as s eqn:Es. rewrite Habs in *.
  assert (Hodd : Z.odd q = true -> Z.even (q + 1) = true /\ Z.even (q + -1) = true)
    by (intros Ho; rewrite !Z.even_add, <- Z.negb_odd, Ho; done).
  assert (Heven : Z.odd q = false -> Z.even q = true)
    by (intros Ho; rewrite <- Z.negb_odd, Ho; done).
  destruct Hs as [-> | ->], Ht as [Ht | Ht]; rewrite Ht in *; norm_signs.
  all: destruct mode; cbn [rounds]; rewrite ?Ht, ?Habs; norm_signs;
    repeat match goal with
    | |- context [match ?x ?= ?y with _ => _ end] => destruct (Z.compare_spec x y)
    | |- context [if Z.odd ?x then _ else _] => destruct (Z.odd x)
    end; subst num; try (split; [nia|]);
    first [ intros _; destruct (Hodd eq_refl); assumption
          | intros _; exact (Heven eq_refl)
          | nia ].
Qed.

(** [divRound] computes the one integer that the rounding mode allows
    for num/den, for every sign of [num] and [den] and every mode. *)
Theorem divRound_correct num den mode q :
  den <> 0 -> divRound num den mode = q <-> rounds mode num den q.
Proof.
  intros Hden. split.
  - intros <-. by apply divRound_rounds.
  - intros Hq. eapply rounds_functional; eauto using divRound_rounds.
Qed.

Lemma divRound_correct_witness :
  divRound (-5) 2 HalfEven = -2 /\ rounds HalfEven (-5) 2 (-2).
Proof.
  split; [vm_compute; reflexivity|].
  apply (divRound_correct (-5) 2 HalfEven (-2)); [lia | vm_compute; reflexivity].
Defined.

Lemma divRound_eq num den mode q :
  den <> 0 -> rounds mode num den q -> divRound num den mode = q.
Proof. intros Hden Hq. eapply rounds_functional; eauto using divRound_rounds. Qed.

(** The discarded part is always smaller than one unit. *)
Lemma divRound_error num den mode :
  den <> 0 -> Z.abs (num - divRound num den mode * den) < Z.abs den.
Proof.
  intros Hden. pose proof (divRound_rounds num den mode Hden) as H.
  destruct mode; cbn [rounds] in H;
    destruct (Z.lt_trichotomy den 0) as [Hd|[Hd|Hd]]; try lia;
    rewrite ?(Z.sgn_pos den), ?(Z.sgn_neg den) in H by lia; lia.
Qed.

Lemma divRound_multiple mode q den : den <> 0 -> divRound (den * q) den mode = q.
Proof. intros. apply divRound_eq; auto using rounds_exact. Qed.

Lemma divRound_1 mode n : divRound n 1 mode = n.
Proof. rewrite <- (Z.mul_1_l n) at 1. by apply divRound_multiple. Qed.

(** Scaling both sides of the fraction does not change the result. *)
Lemma rounds_scale mode k num den q :
  k > 0 -> rounds mode num den q -> rounds mode (k * num) (k * den) q.
Proof.
  intros Hk H.
  assert (Hr : k * num - q * (k * den) = k * (num - q * den)) by lia.
  assert (Hm : q * (k * den) = k * (q * den)) by lia.
  assert (Hs : Z.sgn (k * den) = Z.sgn den) by (rewrite Z.sgn_mul, (Z.sgn_pos k) by lia; lia).
  unfold rounds in *. rewrite Hr, Hm, Hs, !(Z.abs_mul k), (Z.abs_eq k) by lia.
  clear Hr Hm Hs. generalize dependent (num - q * den). intros r H. revert H. generalize (q * den); intros p H.
  destruct mode; try (split; nia); (split; [nia | intros Heq]);
    assert (2 * Z.abs r = Z.abs den) as Heq' by nia; apply H in Heq'; first [done | apply Z.mul_le_mono_nonneg_l; [lia | done]].
Qed.

Lemma divRound_scale mode k num den :
  k > 0 -> den <> 0 -> divRound (k * num) (k * den) mode = divRound num den mode.
Proof. intros Hk Hd. apply divRound_eq; [nia|]. auto using rounds_scale, divRound_rounds. Qed.

Lemma divRound_neg mode num den :
  den <> 0 -> mode <> Floor -> mode <> Ceiling ->
  divRound (- num) den mode = - divRound num den mode.
Proof.
  intros Hden Hf Hc. apply divRound_eq; [done|].
  pose proof (divRound_rounds num den mode Hden) as H.
  remember (divRound num den mode) as q. clear Heqq.
  replace (- num) with (-1 * num) by lia. replace (- q) with (-1 * q) by lia.
  unfold rounds in *.
  replace (-1 * num - -1 * q * den) with (- (num - q * den)) by lia.
  replace (-1 * q * den) with (- (q * den)) by lia.
  replace (-1 * num) with (- num) by lia. replace (-1 * q) with (- q) by lia.
  rewrite !Z.abs_opp, Z.even_opp. destruct mode; done.
Qed.

(** ** Powers of ten *)

Lemma pow10Cache_correct : forall n : nat, (n < 40)%nat ->
  List.nth n (pow10Cache 40) 0 = 10 ^ Z.of_nat n.
Proof.
  intros n Hn.
  assert (Hall : forallb (fun n => List.nth n (pow10Cache 40) 0 =? 10 ^ Z.of_nat n) (seq 0 40) = true)
    by (vm_compute; reflexivity).
  rewrite forallb_forall in Hall. apply Z.eqb_eq, Hall, in_seq. lia.
Qed.

Lemma pow10_pow n : 0 <= n -> pow10 n = 10 ^ n.
Proof.
  intros Hn. unfold pow10. destruct (n <? 40) eqn:E; [|done].
  rewrite pow10Cache_correct by lia. f_equal. lia.
Qed.

Lemma pow10_pos n : 0 <= n -> 0 < pow10 n.
Proof. intros Hn. rewrite pow10_pow by done. by apply Z.pow_pos_nonneg. Qed.

Lemma pow10_add a b : 0 <= a -> 0 <= b -> pow10 (a + b) = pow10 a * pow10 b.
Proof. intros. rewrite !pow10_pow by lia. by apply Z.pow_add_r. Qed.

(** The wire names are a bijection with the valid modes. *)
Lemma mode_roundtrip m n : mode_MarshalText m = Ok n -> ParseRoundingMode n = Ok m.
Proof. destruct m; intros [= <-]; reflexivity. Qed.

#[export] Hint Resolve pow10_pos : money.
