(* ===== verification/MoneyDecimal.v ===== *)
(** * Money: exact decimals (money/decimal.go)

    A [Decimal] is coef * 10^-scale.  The operations are the code's, scale
    arithmetic in [int32] included; [dec_value] gives the rational a decimal
    stands for and the theorems relate the two. *)

From Stdlib Require Import QArith.
From S2P Require Import Prelude GoStrings MoneyRounding.

Open Scope Z_scope.

Definition MaxDecimalLen : Z := 256.
Definition maxScale : Z := 64.

(** [coef] is a [*big.Int] (nil reads as 0 through [Decimal.c]), [scale] an
    [int32]. *)
Record Decimal := mkDecimal { coef : Z; scale : Z }.

#[export] Instance Decimal_eq_dec : EqDecision Decimal.
Proof. solve_decision. Defined.

Definition NewDecimal (c sc : Z) : Decimal :=
  if sc <? 0 then mkDecimal (c * pow10 (wrap32 (- sc))) 0 else mkDecimal c sc.

(** The fractional part of [ParseDecimal]: after the integer digits, an
    optional dot that must be followed by digits. *)
Definition parse_frac (rest : string) : result money_error (string * string) :=
  match rest with
  | String c r =>
      if Ascii.eqb c "." then
        let '(frac, rest) := span is_digit r in
        if String.eqb frac "" then Err ErrInvalid else Ok (frac, rest)
      else Ok (EmptyString, rest)
  | EmptyString => Ok (EmptyString, EmptyString)
  end.

(** The optional single sign. *)
Definition parse_sign (s : string) : bool * string :=
  match s with
  | String c r =>
      if Ascii.eqb c "+" || Ascii.eqb c "-" then (Ascii.eqb c "-", r) else (false, s)
  | EmptyString => (false, s)
  end.

Definition ParseDecimal (s : string) : result money_error Decimal :=
  _ ← require (negb ((slen s =? 0) || (MaxDecimalLen <? slen s))) ErrInvalid;
  let '(neg, rest) := parse_sign s in
  let '(intDigits, rest) := span is_digit rest in
  '(fracDigits, rest) ← parse_frac rest;
  _ ← require (negb (String.eqb intDigits "") && String.eqb rest "") ErrInvalid;
  let c := digits_Z (intDigits +:+ fracDigits) in
  Ok (mkDecimal (if neg : bool then - c else c) (wrap32 (slen fracDigits))).

Definition dec_Sign (d : Decimal) : Z := Z.sgn (coef d).
Definition dec_IsZero (d : Decimal) : bool := dec_Sign d =? 0.
Definition dec_Neg (d : Decimal) : Decimal := mkDecimal (- coef d) (scale d).

Definition dec_Cmp (d o : Decimal) : comparison :=
  let a := coef d in let b := coef o in
  if scale d <? scale o then (a * pow10 (wrap32 (scale o - scale d)) ?= b)
  else if scale o <? scale d then (a ?= b * pow10 (wrap32 (scale d - scale o)))
  else (a ?= b).

Definition dec_Mul (d o : Decimal) : Decimal :=
  mkDecimal (coef d * coef o) (wrap32 (scale d + scale o)).

Definition dec_Quo (d o : Decimal) (sc : Z) (mode : RoundingMode) : result money_error Decimal :=
  _ ← require (negb (dec_IsZero o)) ErrInvalid;
  _ ← require (negb ((sc <? 0) || (maxScale <? sc))) ErrInvalid;
  _ ← checkMode mode;
  let num := coef d * pow10 (scale o + sc) in
  let den := coef o * pow10 (scale d) in
  Ok (mkDecimal (divRound num den mode) sc).

Definition dec_Round (d : Decimal) (sc : Z) (mode : RoundingMode) : result money_error Decimal :=
  _ ← require (negb ((sc <? 0) || (maxScale <? sc))) ErrInvalid;
  _ ← checkMode mode;
  if scale d <=? sc then Ok (mkDecimal (coef d * pow10 (wrap32 (sc - scale d))) sc)
  else Ok (mkDecimal (divRound (coef d) (pow10 (wrap32 (scale d - sc))) mode) sc).

(** [formatScaled]: the digits of |coef|, padded so that [scale] of them
    follow the dot and at least one precedes it. *)
Definition formatScaled (c sc : Z) : string :=
  let digits := dec_string (Z.abs c) in
  let digits :=
    if 0 <? sc then
      let digits :=
        if slen digits <=? sc
        then str_repeat "0" (Z.to_nat (sc - slen digits + 1)) +:+ digits
        else digits in
      let n := Z.to_nat (slen digits - sc) in
      str_take n digits +:+ String "." (str_drop n digits)
    else digits in
  if Z.sgn c <? 0 then String "-" digits else digits.

Definition dec_String (d : Decimal) : string := formatScaled (coef d) (scale d).

(** ** Well-formedness and meaning *)

Definition decimal_wf (d : Decimal) : Prop := 0 <= scale d < 2 ^ 31.

Definition dec_value (d : Decimal) : Q := Qmake (coef d) (Z.to_pos (10 ^ scale d)).

(** A plain decimal literal: sign, integer digits, optional fraction. *)
Definition sign_str (o : option bool) : string :=
  match o with None => "" | Some false => "+" | Some true => "-" end.
Definition frac_str (frac : string) : string :=
  if String.eqb frac "" then "" else String "." frac.

Inductive decimal_literal : string -> Decimal -> Prop :=
| decimal_literal_intro sgn int frac :
    str_forall is_digit int = true -> int <> ""%string ->
    str_forall is_digit frac = true ->
    slen (sign_str sgn +:+ int +:+ frac_str frac) <= MaxDecimalLen ->
    decimal_literal (sign_str sgn +:+ int +:+ frac_str frac)
      (mkDecimal (if bool_decide (sgn = Some true) then - digits_Z (int +:+ frac)
                  else digits_Z (int +:+ frac)) (slen frac)).

(** ** Parsing *)

Lemma parse_sign_spec s neg rest :
  parse_sign s = (neg, rest) ->
  exists o, s = sign_str o +:+ rest /\ neg = bool_decide (o = Some true).
Proof.
  unfold parse_sign. destruct s as [|c r].
  - intros [= <- <-]. by exists None.
  - destruct (Ascii.eqb_spec c "+") as [->|H1]; cbn.
    { intros [= <- <-]. by exists (Some false). }
    destruct (Ascii.eqb_spec c "-") as [->|H2]; intros [= <- <-].
    + by exists (Some true).
    + by exists None.
Qed.

Lemma parse_sign_str o int rest :
  str_forall is_digit int = true -> int <> ""%string ->
  parse_sign (sign_str o +:+ int +:+ rest) = (bool_decide (o = Some true), int +:+ rest).
Proof.
  intros Hd Hne. destruct o as [[]|]; [done..|].
  destruct int as [|c int]; [done|]. cbn in Hd |- *. apply andb_true_iff in Hd as [Hc _].
  destruct (Ascii.eqb_spec c "+") as [->|]; [done|].
  destruct (Ascii.eqb_spec c "-") as [->|]; done.
Qed.

Lemma parse_frac_spec s frac rest :
  parse_frac s = Ok (frac, rest) ->
  str_forall is_digit frac = true /\ s = frac_str frac +:+ rest.
Proof.
  unfold parse_frac. destruct s as [|c r]; [by intros [= <- <-]|].
  destruct (Ascii.eqb_spec c ".") as [->|]; [|by intros [= <- <-]].
  destruct (span is_digit r) as [a b] eqn:E. apply span_spec in E as (-> & Ha & _).
  destruct (String.eqb_spec a "") as [->|Hne]; [done|]. intros [= <- <-].
  split; [done|]. unfold frac_str. by rewrite (proj2 (String.eqb_neq _ _) Hne).
Qed.

Lemma frac_str_stops frac : stops is_digit (frac_str frac).
Proof. unfold frac_str. by destruct (String.eqb frac ""). Qed.

Lemma parse_frac_str frac :
  str_forall is_digit frac = true -> parse_frac (frac_str frac) = Ok (frac, ""%string).
Proof.
  intros Hd. unfold frac_str. destruct (String.eqb_spec frac "") as [->|Hne]; [done|].
  cbn. rewrite span_all by done. by rewrite (proj2 (String.eqb_neq _ _) Hne).
Qed.

Lemma literal_length_bound o int frac :
  slen frac <= slen (sign_str o +:+ int +:+ frac_str frac).
Proof.
  rewrite !slen_app. pose proof (slen_nonneg (sign_str o)). pose proof (slen_nonneg int).
  enough (slen frac <= slen (frac_str frac)) by lia.
  unfold frac_str. destruct (String.eqb_spec frac "") as [->|]; [done|].
  rewrite slen_cons. lia.
Qed.

Lemma ParseDecimal_literal s d : decimal_literal s d -> ParseDecimal s = Ok d.
Proof.
  intros [o int frac Hint Hne Hfrac Hlen].
  assert (Hpos : 0 < slen (sign_str o +:+ int +:+ frac_str frac)).
  { rewrite !slen_app. pose proof (slen_nonneg (sign_str o)).
    pose proof (slen_nonneg (frac_str frac)). pose proof (slen_nonneg int).
    assert (slen int <> 0) by (by rewrite slen_zero). lia. }
  unfold ParseDecimal.
  rewrite (proj2 (Z.eqb_neq _ _)), (proj2 (Z.ltb_ge _ _)) by lia. cbn [require negb orb mbind result_bind].
  rewrite parse_sign_str, span_app, parse_frac_str by auto using frac_str_stops.
  cbn [mbind result_bind]. rewrite (proj2 (String.eqb_neq _ _) Hne). cbn.
  rewrite wrap32_small.
  - done.
  - pose proof (literal_length_bound o int frac). pose proof (slen_nonneg frac).
    unfold MaxDecimalLen in *. lia.
Qed.

(** [ParseDecimal] accepts exactly the plain decimal literals of at most
    [MaxDecimalLen] bytes and returns their exact value and scale. *)
Theorem ParseDecimal_iff s d : ParseDecimal s = Ok d <-> decimal_literal s d.
Proof.
  split; [|apply ParseDecimal_literal]. unfold ParseDecimal.
  intros ([] & Hlen%require_Ok & H)%bind_Ok.
  destruct (parse_sign s) as [neg rest] eqn:Es. apply parse_sign_spec in Es as (o & -> & ->).
  destruct (span is_digit rest) as [int r2] eqn:Ei. apply span_spec in Ei as (-> & Hi & _).
  apply bind_Ok in H as ([frac r3] & (Hf & ->)%parse_frac_spec & H).
  apply bind_Ok in H as ([] & [Hne Hr]%require_Ok%andb_true_iff & [= <-]).
  apply String.eqb_eq in Hr as ->. apply negb_true_iff, String.eqb_neq in Hne.
  rewrite str_app_nil_r in *.
  apply negb_true_iff, orb_false_iff in Hlen as [_ Hlen%Z.ltb_ge].
  rewrite wrap32_small.
  - by constructor.
  - pose proof (literal_length_bound o int frac). pose proof (slen_nonneg frac).
    unfold MaxDecimalLen in *. lia.
Qed.

(** ** Printing *)

Lemma formatScaled_spec c sc :
  0 <= sc ->
  exists int frac,
    str_forall is_digit int = true /\ int <> ""%string /\
    str_forall is_digit frac = true /\ slen frac = sc /\
    digits_Z (int +:+ frac) = Z.abs c /\
    slen (int +:+ frac) <= Z.max (slen (dec_string (Z.abs c))) (sc + 1) /\
    formatScaled c sc = sign_str (if c <? 0 then Some true else None) +:+ int +:+ frac_str frac.
Proof.
  intros Hsc. destruct (dec_string_spec (Z.abs c) (Z.abs_nonneg c)) as (Hd & Hv & Hl & _).
  set (ds := dec_string (Z.abs c)) in *.
  assert (Hneg : (Z.sgn c <? 0) = (c <? 0)) by lia.
  destruct (Z.ltb_spec 0 sc) as [Hpos|].
  - set (ps := if slen ds <=? sc then str_repeat "0" (Z.to_nat (sc - slen ds + 1)) +:+ ds else ds).
    assert (Hps : str_forall is_digit ps = true /\ digits_Z ps = Z.abs c /\ sc < slen ps
                  /\ slen ps <= Z.max (slen ds) (sc + 1)).
    { subst ps. destruct (Z.leb_spec (slen ds) sc).
      - rewrite str_forall_app, str_forall_repeat, Hd, digits_Z_app, digits_Z_repeat, slen_app, slen_repeat by done.
        split_and!; [done|..]; lia.
      - split_and!; auto; lia. }
    destruct Hps as (Hps1 & Hps2 & Hps3 & Hps4).
    exists (str_take (Z.to_nat (slen ps - sc)) ps), (str_drop (Z.to_nat (slen ps - sc)) ps).
    rewrite str_take_drop, str_forall_take, str_forall_drop by done.
    assert (Hdrop : slen (str_drop (Z.to_nat (slen ps - sc)) ps) = sc).
    { unfold slen at 1. rewrite str_drop_length. unfold slen in *. lia. }
    split_and!; auto.
    + intros E. apply (f_equal String.length) in E.
      rewrite str_take_length in E by (unfold slen in *; lia).
      change (String.length "") with 0%nat in E. lia.
    + unfold formatScaled. fold ds. rewrite (proj2 (Z.ltb_lt 0 sc)), Hneg by done. fold ps.
      unfold frac_str. destruct (String.eqb_spec (str_drop (Z.to_nat (slen ps - sc)) ps) "") as [E|].
      { rewrite E in Hdrop. change (slen "") with 0 in Hdrop. lia. }
      by destruct (c <? 0).
  - assert (sc = 0) as -> by lia. exists ds, ""%string.
    rewrite str_app_nil_r. split_and!; auto; [|lia|].
    + intros E. rewrite E in Hl. change (slen "") with 0 in Hl. lia.
    + unfold formatScaled. fold ds. cbn [Z.ltb Z.compare frac_str String.eqb].
      rewrite str_app_nil_r, Hneg. by destruct (c <? 0).
Qed.

Lemma formatScaled_parse c sc :
  0 <= sc -> slen (formatScaled c sc) <= MaxDecimalLen ->
  ParseDecimal (formatScaled c sc) = Ok (mkDecimal c sc).
Proof.
  intros Hsc Hlen. destruct (formatScaled_spec c sc Hsc) as (int & frac & ? & ? & ? & Hfl & Hv & _ & E).
  rewrite E in *. apply ParseDecimal_literal.
  replace (mkDecimal c sc) with
    (mkDecimal (if bool_decide ((if c <? 0 then Some true else None) = Some true)
                then - digits_Z (int +:+ frac) else digits_Z (int +:+ frac)) (slen frac)).
  - by constructor.
  - rewrite Hv, Hfl. f_equal. destruct (Z.ltb_spec c 0); [rewrite bool_decide_true | rewrite bool_decide_false]; done || lia.
Qed.

(** Printing a decimal and parsing it back gives the same coefficient
    and the same scale (not only the same value), up to the parser's length
    limit. *)
Theorem decimal_roundtrip d :
  decimal_wf d -> slen (dec_String d) <= MaxDecimalLen -> ParseDecimal (dec_String d) = Ok d.
Proof. intros [? _] Hlen. destruct d. by apply formatScaled_parse. Qed.

Lemma decimal_roundtrip_witness :
  dec_String (mkDecimal (-5) 3) = "-0.005"%string /\ ParseDecimal "-0.005" = Ok (mkDecimal (-5) 3).
Proof.
  split; [vm_compute; reflexivity|].
  apply (decimal_roundtrip (mkDecimal (-5) 3)); [split; cbn; lia | vm_compute; discriminate].
Defined.

(** ** Arithmetic *)

Lemma pow10_to_pos n : 0 <= n -> Z.pos (Z.to_pos (10 ^ n)) = pow10 n.
Proof.
  intros Hn. rewrite pow10_pow by done. apply Z2Pos.id. by apply Z.pow_pos_nonneg.
Qed.

(** Two decimals on a common denominator. *)
Lemma dec_value_scale d k : 0 <= scale d -> 0 <= k ->
  (dec_value d == Qmake (coef d * pow10 k) (Z.to_pos (10 ^ (scale d + k))))%Q.
Proof.
  intros Hs Hk. unfold dec_value, Qeq. cbn [Qnum Qden].
  rewrite !pow10_to_pos, pow10_add by lia. ring.
Qed.

(** [Cmp] is the order of the rationals the decimals stand for, whatever
    their scales. *)
Theorem dec_Cmp_value d o :
  decimal_wf d -> decimal_wf o -> dec_Cmp d o = (dec_value d ?= dec_value o)%Q.
Proof.
  intros Hd Ho. unfold decimal_wf in *. unfold dec_Cmp.
  assert (Hsc : forall k x y, 0 <= k -> (x * pow10 k ?= y * pow10 k) = (x ?= y)).
  { intros k x y Hk. symmetry. apply Zmult_compare_compat_r. pose proof (pow10_pos k Hk). lia. }
  unfold Qcompare, dec_value. cbn [Qnum Qden]. rewrite !pow10_to_pos by lia.
  destruct (Z.ltb_spec (scale d) (scale o)); [|destruct (Z.ltb_spec (scale o) (scale d))].
  - rewrite wrap32_small by lia.
    replace (scale o) with ((scale o - scale d) + scale d) at 2 by lia.
    by rewrite pow10_add, Z.mul_assoc, Hsc by lia.
  - rewrite wrap32_small by lia.
    replace (scale d) with ((scale d - scale o) + scale o) at 2 by lia.
    by rewrite pow10_add, Z.mul_assoc, Hsc by lia.
  - replace (scale o) with (scale d) by lia. by rewrite Hsc by lia.
Qed.

Lemma dec_Cmp_value_witness :
  decimal_wf (mkDecimal 15 1) /\ dec_Cmp (mkDecimal 15 1) (mkDecimal 1500 3) = Eq.
Proof.
  split; [split; cbn; lia|].
  rewrite (dec_Cmp_value (mkDecimal 15 1) (mkDecimal 1500 3));
    [vm_compute; reflexivity | split; cbn; lia | split; cbn; lia].
Defined.

Lemma dec_Mul_value d o :
  decimal_wf d -> decimal_wf o -> scale d + scale o < 2 ^ 31 ->
  decimal_wf (dec_Mul d o) /\ (dec_value (dec_Mul d o) == dec_value d * dec_value o)%Q.
Proof.
  intros [Hd _] [Ho _] Hsum. unfold decimal_wf, dec_value, dec_Mul, Qeq, Qmult. cbn [Qnum Qden scale coef].
  rewrite wrap32_small by lia. split; [lia|].
  rewrite Pos2Z.inj_mul, !pow10_to_pos, pow10_add by lia. ring.
Qed.

Lemma dec_Round_Ok d sc mode r :
  decimal_wf d ->
  dec_Round d sc mode = Ok r <->
  0 <= sc <= maxScale /\ mode_valid mode = true /\ scale r = sc /\
  coef r = divRound (coef d * pow10 sc) (pow10 (scale d)) mode.
Proof.
  intros [Hd1 Hd2]. unfold dec_Round, maxScale, checkMode.
  assert (Hp : forall k, 0 <= k -> 0 < pow10 k) by apply pow10_pos.
  destruct ((sc <? 0) || (64 <? sc)) eqn:Hsc; cbn.
  { split; [done|]. lia. }
  destruct (mode_valid mode) eqn:Hm; cbn; [|naive_solver].
  assert (0 <= sc <= 64) as Hr by lia. clear Hsc.
  assert (Hdiv : divRound (coef d * pow10 sc) (pow10 (scale d)) mode =
    if scale d <=? sc then coef d * pow10 (sc - scale d)
    else divRound (coef d) (pow10 (scale d - sc)) mode).
  { destruct (Z.leb_spec (scale d) sc).
    - replace sc with (scale d + (sc - scale d)) at 1 by lia. rewrite pow10_add by lia.
      replace (coef d * _) with (pow10 (scale d) * (coef d * pow10 (sc - scale d))) by ring.
      apply divRound_multiple. pose proof (Hp (scale d) Hd1). lia.
    - replace (scale d) with (sc + (scale d - sc)) at 1 by lia. rewrite pow10_add by lia.
      rewrite (Z.mul_comm (coef d)). apply divRound_scale.
      + pose proof (Hp sc ltac:(lia)). lia.
      + pose proof (Hp (scale d - sc) ltac:(lia)). lia. }
  rewrite Hdiv. clear Hdiv Hp. destruct (Z.leb_spec (scale d) sc).
  - rewrite wrap32_small by lia. destruct r; cbn; naive_solver.
  - rewrite wrap32_small by lia. destruct r; cbn; naive_solver.
Qed.

(** [Round] succeeds exactly for a scale in [0, 64] and a known mode, and
    then the result is the one decimal of that scale the mode picks for the
    exact value; it is exact when no digit is dropped. *)
Theorem dec_Round_correct d sc mode r :
  decimal_wf d ->
  dec_Round d sc mode = Ok r <->
  0 <= sc <= maxScale /\ mode_valid mode = true /\ scale r = sc /\
  rounds mode (coef d * 10 ^ sc) (10 ^ scale d) (coef r).
Proof.
  intros Hd. pose proof Hd as [Hd0 _]. rewrite dec_Round_Ok by done.
  assert (0 <= sc <= maxScale -> coef r = divRound (coef d * pow10 sc) (pow10 (scale d)) mode <->
     rounds mode (coef d * 10 ^ sc) (10 ^ scale d) (coef r)) as H; [|naive_solver].
  intros Hsc. rewrite !pow10_pow by lia.
  assert (10 ^ scale d <> 0) by (pose proof (Z.pow_pos_nonneg 10 (scale d)); lia).
  split; [intros ->; by apply divRound_rounds|]. intros Hr. symmetry. by apply divRound_eq.
Qed.

Lemma dec_Round_correct_witness :
  decimal_wf (mkDecimal 1005 3) /\
  dec_Round (mkDecimal 1005 3) 2 HalfAwayFromZero = Ok (mkDecimal 101 2).
Proof.
  assert (H : decimal_wf (mkDecimal 1005 3)) by (split; cbn; lia). split; [exact H|].
  apply (dec_Round_correct (mkDecimal 1005 3) 2 HalfAwayFromZero (mkDecimal 101 2) H).
  vm_compute. repeat split; try discriminate.
Defined.

Lemma dec_Quo_Ok d o sc mode r :
  decimal_wf d -> decimal_wf o ->
  dec_Quo d o sc mode = Ok r <->
  coef o <> 0 /\ 0 <= sc <= maxScale /\ mode_valid mode = true /\ scale r = sc /\
  rounds mode (coef d * 10 ^ (scale o + sc)) (coef o * 10 ^ scale d) (coef r).
Proof.
  intros [Hd _] [Ho _]. unfold dec_Quo, maxScale, checkMode, dec_IsZero, dec_Sign.
  destruct (Z.eqb_spec (Z.sgn (coef o)) 0) as [Hz|Hz]; cbn.
  { split; [done|]. intros [? _]. lia. }
  destruct ((sc <? 0) || (64 <? sc)) eqn:Hsc; cbn.
  { split; [done|]. lia. }
  destruct (mode_valid mode) eqn:Hm; cbn; [|naive_solver].
  assert (0 <= sc <= 64) as Hr by lia. clear Hsc.
  rewrite !pow10_pow by lia. pose proof (Z.pow_pos_nonneg 10 (scale d)).
  assert (coef o * 10 ^ scale d <> 0) as Hden by nia.
  destruct r as [c s]; cbn. split.
  - intros [= <- <-]. split_and!; auto using divRound_rounds; lia.
  - intros (_ & _ & _ & -> & Hq). f_equal. f_equal. by apply divRound_eq.
Qed.

Lemma dec_Round_wf d sc mode r : decimal_wf d -> dec_Round d sc mode = Ok r -> decimal_wf r.
Proof.
  intros Hd H. apply dec_Round_Ok in H as (? & _ & Hs & _); [|done].
  unfold decimal_wf, maxScale in *. lia.
Qed.
