(* ===== verification/MoneyIso.v ===== *)
(** * Money: currency specifications (money/iso.go)

    The ISO 4217 table, the [Spec] record with its validation, and [ISO]. *)

From S2P Require Import Prelude GoStrings MoneyRounding.

Definition ScopeLine : string := "line".
Definition ScopeTotal : string := "total".
Definition MaxMinorUnits : Z := 18.

(** [Scope] is a Go string type: unknown values and "" are possible. *)
Record Spec := mkSpec {
  Code : string;
  MinorUnits : Z;
  CashIncrementMinor : Z;
  SpecScope : string;
}.

#[export] Instance Spec_eq_dec : EqDecision Spec.
Proof. solve_decision. Defined.

(** [Spec.Validate]; the four checks in order. *)
Definition spec_Validate (s : Spec) : result money_error unit :=
  _ ← require (negb (String.eqb (Code s) "")) ErrInvalid;
  _ ← require (negb ((MinorUnits s <? 0) || (MaxMinorUnits <? MinorUnits s))) ErrInvalid;
  _ ← require (negb (CashIncrementMinor s <? 0)) ErrInvalid;
  require (String.eqb (SpecScope s) "" || String.eqb (SpecScope s) ScopeLine
           || String.eqb (SpecScope s) ScopeTotal) ErrInvalid.

(** [strings.ToUpper], as far as a comparison with an ASCII key can tell:
    ASCII letters, and the two non-ASCII runes whose upper case is ASCII
    (U+0131 maps to I, U+017F to S).  Every other non-ASCII rune stays
    non-ASCII in Go and is left as it is here; [ISO] only uses the result
    when it is a key of the table, and those are ASCII. *)
Fixpoint ToUpper (s : string) : string :=
  match s with
  | EmptyString => EmptyString
  | String c r =>
      if is_lower c then String (ascii_of_N (N_of_ascii c - 32)) (ToUpper r) else
      match r with
      | String d r2 =>
          if (byte c =? 196) && (byte d =? 177) then String "I" (ToUpper r2)
          else if (byte c =? 197) && (byte d =? 191) then String "S" (ToUpper r2)
          else String c (ToUpper r)
      | EmptyString => String c EmptyString
      end
  end.

Definition cashIncrements : gmap string Z := list_to_map
  [("CHF", 5); ("CAD", 5); ("DKK", 50); ("SEK", 100); ("NOK", 100); ("CZK", 100); ("HUF", 100)]%string.

Definition isoTable : list (string * Z) :=
  [
   ("AED", 2); ("AFN", 2); ("ALL", 2); ("AMD", 2); ("ANG", 2); ("AOA", 2); ("ARS", 2);
   ("AUD", 2); ("AWG", 2); ("AZN", 2); ("BAM", 2); ("BBD", 2); ("BDT", 2); ("BGN", 2);
   ("BHD", 3); ("BIF", 0); ("BMD", 2); ("BND", 2); ("BOB", 2); ("BOV", 2); ("BRL", 2);
   ("BSD", 2); ("BTN", 2); ("BWP", 2); ("BYN", 2); ("BZD", 2); ("CAD", 2); ("CDF", 2);
   ("CHE", 2); ("CHF", 2); ("CHW", 2); ("CLF", 4); ("CLP", 0); ("CNY", 2); ("COP", 2);
   ("COU", 2); ("CRC", 2); ("CUC", 2); ("CUP", 2); ("CVE", 2); ("CZK", 2); ("DJF", 0);
   ("DKK", 2); ("DOP", 2); ("DZD", 2); ("EGP", 2); ("ERN", 2); ("ETB", 2); ("EUR", 2);
   ("FJD", 2); ("FKP", 2); ("GBP", 2); ("GEL", 2); ("GHS", 2); ("GIP", 2); ("GMD", 2);
   ("GNF", 0); ("GTQ", 2); ("GYD", 2); ("HKD", 2); ("HNL", 2); ("HTG", 2); ("HUF", 2);
   ("IDR", 2); ("ILS", 2); ("INR", 2); ("IQD", 3); ("IRR", 2); ("ISK", 0); ("JMD", 2);
   ("JOD", 3); ("JPY", 0); ("KES", 2); ("KGS", 2); ("KHR", 2); ("KMF", 0); ("KPW", 2);
   ("KRW", 0); ("KWD", 3); ("KYD", 2); ("KZT", 2); ("LAK", 2); ("LBP", 2); ("LKR", 2);
   ("LRD", 2); ("LSL", 2); ("LYD", 3); ("MAD", 2); ("MDL", 2); ("MGA", 2); ("MKD", 2);
   ("MMK", 2); ("MNT", 2); ("MOP", 2); ("MRU", 2); ("MUR", 2); ("MVR", 2); ("MWK", 2);
   ("MXN", 2); ("MXV", 2); ("MYR", 2); ("MZN", 2); ("NAD", 2); ("NGN", 2); ("NIO", 2);
   ("NOK", 2); ("NPR", 2); ("NZD", 2); ("OMR", 3); ("PAB", 2); ("PEN", 2); ("PGK", 2);
   ("PHP", 2); ("PKR", 2); ("PLN", 2); ("PYG", 0); ("QAR", 2); ("RON", 2); ("RSD", 2);
   ("RUB", 2); ("RWF", 0); ("SAR", 2); ("SBD", 2); ("SCR", 2); ("SDG", 2); ("SEK", 2);
   ("SGD", 2); ("SHP", 2); ("SLE", 2); ("SLL", 2); ("SOS", 2); ("SRD", 2); ("SSP", 2);
   ("STN", 2); ("SVC", 2); ("SYP", 2); ("SZL", 2); ("THB", 2); ("TJS", 2); ("TMT", 2);
   ("TND", 3); ("TOP", 2); ("TRY", 2); ("TTD", 2); ("TWD", 2); ("TZS", 2); ("UAH", 2);
   ("UGX", 0); ("USD", 2); ("USN", 2); ("UYI", 0); ("UYU", 2); ("UYW", 4); ("UZS", 2);
   ("VED", 2); ("VES", 2); ("VND", 0); ("VUV", 0); ("WST", 2); ("XAF", 0); ("XCD", 2);
   ("XCG", 2); ("XOF", 0); ("XPF", 0); ("YER", 2); ("ZAR", 2); ("ZMW", 2); ("ZWG", 2);
   ("ZWL", 2)]%string.
Definition isoMinorUnits : gmap string Z := list_to_map isoTable.

(** [ISO]: [cashIncrements[c]] reads 0 for a missing key. *)
Definition ISO (code : string) : option Spec :=
  let c := ToUpper (TrimSpace code) in
  match isoMinorUnits !! c with
  | None => None
  | Some mu => Some (mkSpec c mu (default 0 (cashIncrements !! c)) ScopeLine)
  end.

(** ** Properties *)

Lemma spec_Validate_Ok s u :
  spec_Validate s = Ok u <->
  Code s <> ""%string /\ 0 <= MinorUnits s <= MaxMinorUnits /\ 0 <= CashIncrementMinor s /\
  (SpecScope s = "" \/ SpecScope s = ScopeLine \/ SpecScope s = ScopeTotal)%string.
Proof.
  unfold spec_Validate. rewrite !require_bind_Ok, require_Ok.
  rewrite <- String.eqb_neq, <- !String.eqb_eq.
  destruct (String.eqb (Code s) ""), (String.eqb (SpecScope s) ""),
    (String.eqb (SpecScope s) ScopeLine), (String.eqb (SpecScope s) ScopeTotal);
    cbn; split; intros H; split_and!; try lia; destruct H as (?&?&?&?); try done; try lia; naive_solver.
Qed.

(** The whole table, checked by evaluation: keys are three capital letters,
    so upper-casing and trimming leave them alone, and the minor units and
    cash increments are in range. *)
Definition iso_row_ok (p : string * Z) : bool :=
  String.eqb (ToUpper (TrimSpace p.1)) p.1 && (slen p.1 =? 3) && str_forall is_upper p.1
  && (0 <=? p.2) && (p.2 <=? 4) && (0 <=? default 0 (cashIncrements !! p.1)).

Lemma iso_table_ok : forallb iso_row_ok isoTable = true.
Proof. vm_compute. reflexivity. Qed.

Lemma iso_lookup_ok c mu : isoMinorUnits !! c = Some mu -> iso_row_ok (c, mu) = true.
Proof.
  intros H. apply elem_of_list_to_map_2 in H. apply list_elem_of_In in H.
  pose proof iso_table_ok as Ht. rewrite forallb_forall in Ht. by apply Ht.
Qed.

Lemma ISO_Some code s :
  ISO code = Some s ->
  spec_Validate s = Ok tt /\ slen (Code s) = 3 /\ MinorUnits s <= 4 /\ ISO (Code s) = Some s.
Proof.
  unfold ISO. destruct (isoMinorUnits !! ToUpper (TrimSpace code)) as [mu|] eqn:E; [|done].
  intros [= <-]. pose proof (iso_lookup_ok _ _ E) as Hr. unfold iso_row_ok in Hr.
  cbn [fst snd] in Hr. rewrite !andb_true_iff in Hr.
  destruct Hr as (((((Hu & Hl) & _) & Hm0) & Hm4) & Hc). apply String.eqb_eq in Hu.
  cbn [Code MinorUnits]. rewrite Hu, E. split; [|split; [lia|split; [lia|done]]].
  apply spec_Validate_Ok. cbn [Code MinorUnits CashIncrementMinor SpecScope]. unfold MaxMinorUnits.
  split; [|split; [lia|split; [lia|auto]]].
  intros Hc0. rewrite Hc0 in Hl. done.
Qed.
