(* ===== verification/Money.v ===== *)
(** * Money: amounts in minor units (money/money.go)

    [Money] is an int64 number of minor units of one currency.  Addition and
    subtraction go through unsigned 64-bit arithmetic with a sign test, as in
    the code; multiplication, conversion and cash rounding go through exact
    integers and [fromBig].  Allocation is in MoneyAllocate.v. *)

From Stdlib Require Import QArith.
From S2P Require Import Prelude GoStrings MoneyRounding MoneyDecimal MoneyIso.

Open Scope Z_scope.

Record Money := mkMoney { minor : Z; mspec : Spec }.

#[export] Instance Money_eq_dec : EqDecision Money.
Proof. solve_decision. Defined.

(** A [Money] value as the constructors leave it: [minor] is an int64. *)
Definition money_wf (m : Money) : Prop := - 2 ^ 63 <= minor m < 2 ^ 63.

Definition money_Zero (s : Spec) : Money := mkMoney 0 s.

Definition fromBig (c : Z) (s : Spec) : result money_error Money :=
  _ ← require (is_int64 c) ErrOverflow; Ok (mkMoney c s).

Definition FromDecimal (d : Decimal) (s : Spec) : result money_error Money :=
  _ ← spec_Validate s;
  r ← dec_Round d (MinorUnits s) TowardZero;
  _ ← require (bool_decide (dec_Cmp r d = Eq)) ErrPrecision;
  fromBig (coef r) s.

Definition FromDecimalRound (d : Decimal) (s : Spec) (mode : RoundingMode)
  : result money_error Money :=
  _ ← spec_Validate s;
  r ← dec_Round d (MinorUnits s) mode;
  fromBig (coef r) s.

Definition Parse (str : string) (s : Spec) : result money_error Money :=
  _ ← spec_Validate s;
  d ← ParseDecimal str;
  FromDecimal d s.

Definition ParseRound (str : string) (s : Spec) (mode : RoundingMode) : result money_error Money :=
  _ ← spec_Validate s;
  d ← ParseDecimal str;
  FromDecimalRound d s mode.

Definition Amount (m : Money) : Decimal := mkDecimal (minor m) (MinorUnits (mspec m)).

Definition sameCurrency (a b : Spec) : bool :=
  String.eqb (Code a) (Code b) && (MinorUnits a =? MinorUnits b).

Definition WithSpec (m : Money) (s : Spec) : result money_error Money :=
  _ ← spec_Validate s;
  _ ← require (sameCurrency (mspec m) s) ErrCurrencyMismatch;
  Ok (mkMoney (minor m) s).

Definition money_Sign (m : Money) : Z :=
  if minor m <? 0 then -1 else if 0 <? minor m then 1 else 0.
Definition money_IsZero (m : Money) : bool := minor m =? 0.

(** [add64], [sub64]: the two's complement sum and the sign test. *)
Definition add64 (a b : Z) : Z * bool :=
  let s := to_i64 (to_u64 (to_u64 a + to_u64 b)) in
  (s, negb (Bool.eqb (0 <=? a) (0 <=? b) && negb (Bool.eqb (0 <=? s) (0 <=? a)))).

Definition sub64 (a b : Z) : Z * bool :=
  let s := to_i64 (to_u64 (to_u64 a - to_u64 b)) in
  (s, negb (negb (Bool.eqb (0 <=? a) (0 <=? b)) && negb (Bool.eqb (0 <=? s) (0 <=? a)))).

Definition money_Add (m o : Money) : result money_error Money :=
  _ ← require (sameCurrency (mspec m) (mspec o)) ErrCurrencyMismatch;
  let '(s, ok) := add64 (minor m) (minor o) in
  _ ← require ok ErrOverflow;
  Ok (mkMoney s (mspec m)).

Definition money_Sub (m o : Money) : result money_error Money :=
  _ ← require (sameCurrency (mspec m) (mspec o)) ErrCurrencyMismatch;
  let '(s, ok) := sub64 (minor m) (minor o) in
  _ ← require ok ErrOverflow;
  Ok (mkMoney s (mspec m)).

Definition money_Neg (m : Money) : result money_error Money :=
  _ ← require (negb (minor m =? int64_min)) ErrOverflow;
  Ok (mkMoney (- minor m) (mspec m)).

Definition money_Cmp (m o : Money) : result money_error Z :=
  _ ← require (sameCurrency (mspec m) (mspec o)) ErrCurrencyMismatch;
  Ok (if minor m <? minor o then -1 else if minor o <? minor m then 1 else 0).

Definition MulDecimal (m : Money) (d : Decimal) (mode : RoundingMode) : result money_error Money :=
  _ ← checkMode mode;
  let num := minor m * coef d in
  fromBig (divRound num (pow10 (scale d)) mode) (mspec m).

Definition RoundCash (m : Money) (mode : RoundingMode) : result money_error Money :=
  _ ← checkMode mode;
  let inc := CashIncrementMinor (mspec m) in
  if inc <=? 1 then Ok m
  else fromBig (divRound (minor m) inc mode * inc) (mspec m).

Definition money_String (m : Money) : string :=
  formatScaled (minor m) (MinorUnits (mspec m)).

(** [moneyJSON], the two fields the JSON codec carries; encoding/json itself
    is not modelled. *)
Record moneyJSON := mkMoneyJSON { jAmount : string; jCurrencyCode : string }.

Definition money_MarshalJSON (m : Money) : moneyJSON :=
  mkMoneyJSON (money_String m) (Code (mspec m)).

Definition money_UnmarshalJSON (v : moneyJSON) : result money_error Money :=
  match ISO (jCurrencyCode v) with
  | None => Err ErrInvalid
  | Some s => Parse (jAmount v) s
  end.

(** ** Construction *)

Lemma fromBig_Ok c s m : fromBig c s = Ok m <-> - 2 ^ 63 <= c < 2 ^ 63 /\ m = mkMoney c s.
Proof. unfold fromBig. rewrite require_bind_Ok, is_int64_spec. naive_solver. Qed.

(** Rounding towards zero keeps the value only when no digit was dropped. *)
Lemma round_exact_iff d sc r :
  decimal_wf d -> dec_Round d sc TowardZero = Ok r ->
  dec_Cmp r d = Eq <-> coef r * 10 ^ scale d = coef d * 10 ^ sc.
Proof.
  intros Hd Hr. pose proof (dec_Round_wf _ _ _ _ Hd Hr) as Hrw.
  apply dec_Round_Ok in Hr as (Hsc & _ & Hs & _); [|done].
  rewrite dec_Cmp_value, <- Qeq_alt by done.
  unfold Qeq, dec_value. cbn [Qnum Qden]. destruct Hd, Hrw.
  rewrite !pow10_to_pos, !pow10_pow, Hs by lia. done.
Qed.

Lemma round_toward_zero_exact d sc q :
  decimal_wf d -> 0 <= sc <= maxScale -> q * 10 ^ scale d = coef d * 10 ^ sc ->
  dec_Round d sc TowardZero = Ok (mkDecimal q sc).
Proof.
  intros Hd Hsc Hq. apply dec_Round_Ok; [done|]. cbn [scale coef]. split_and!; auto; try lia.
  destruct Hd. rewrite !pow10_pow by lia. pose proof (Z.pow_pos_nonneg 10 (scale d)).
  symmetry. apply divRound_eq; [lia|]. rewrite <- Hq, Z.mul_comm. apply rounds_exact. lia.
Qed.

(** [FromDecimal] succeeds exactly when the decimal is a whole number of
    minor units that fits in int64, and then that number is the amount: no
    digit is ever dropped silently. *)
Theorem FromDecimal_exact d s m :
  decimal_wf d -> spec_Validate s = Ok tt ->
  FromDecimal d s = Ok m <->
  money_wf m /\ mspec m = s /\ minor m * 10 ^ scale d = coef d * 10 ^ MinorUnits s.
Proof.
  intros Hd Hs. unfold FromDecimal, money_wf. rewrite Hs. cbn [mbind result_bind].
  apply spec_Validate_Ok in Hs as (_ & Hmu & _). unfold MaxMinorUnits in Hmu. split.
  - intros (r & Hr & H)%bind_Ok. rewrite require_bind_Ok, bool_decide_eq_true, fromBig_Ok in H.
    destruct H as (Hc & Hi & ->). apply (round_exact_iff _ _ _ Hd Hr) in Hc. done.
  - intros (Hi & <- & He). destruct m as [q s]. cbn [minor mspec] in *.
    assert (Hr : dec_Round d (MinorUnits s) TowardZero = Ok (mkDecimal q (MinorUnits s))).
    { apply round_toward_zero_exact; [done | unfold maxScale; lia | done]. }
    rewrite Hr. cbn [mbind result_bind]. rewrite require_bind_Ok, bool_decide_eq_true, fromBig_Ok.
    split; [|done]. by apply (round_exact_iff _ _ _ Hd Hr).
Qed.

Definition MXN : Spec := mkSpec "MXN" 2 0 "line".
Definition CHF : Spec := mkSpec "CHF" 2 5 "line".

Lemma FromDecimal_exact_witness :
  decimal_wf (mkDecimal 18990 1) /\
  FromDecimal (mkDecimal 18990 1) MXN = Ok (mkMoney 189900 MXN).
Proof.
  assert (H : decimal_wf (mkDecimal 18990 1)) by (split; cbn; lia). split; [exact H|].
  apply (FromDecimal_exact (mkDecimal 18990 1) MXN (mkMoney 189900 MXN) H);
    [vm_compute; reflexivity |].
  split; [split; cbn; lia | split; vm_compute; reflexivity].
Defined.

Lemma FromDecimal_amount m s :
  money_wf m -> spec_Validate s = Ok tt -> mspec m = s -> FromDecimal (Amount m) s = Ok m.
Proof.
  intros Hm Hs <-. unfold Amount. pose proof (proj1 (spec_Validate_Ok _ _) Hs) as (_ & Hmu & _).
  unfold MaxMinorUnits in Hmu. unfold FromDecimal. rewrite Hs. cbn [mbind result_bind].
  assert (Hd : decimal_wf (mkDecimal (minor m) (MinorUnits (mspec m)))) by (split; cbn; lia).
  rewrite (round_toward_zero_exact _ _ (minor m)) by (unfold maxScale; cbn; lia || done).
  cbn [mbind result_bind]. rewrite require_bind_Ok, bool_decide_eq_true, fromBig_Ok.
  split; [rewrite dec_Cmp_value, <- Qeq_alt by done; reflexivity|].
  split; [exact Hm|]. by destruct m.
Qed.

Lemma money_String_length m :
  money_wf m -> 0 <= MinorUnits (mspec m) <= MaxMinorUnits ->
  slen (money_String m) <= 21.
Proof.
  intros Hm Hmu. unfold money_String, MaxMinorUnits in *.
  destruct (formatScaled_spec (minor m) (MinorUnits (mspec m)))
    as (int & frac & _ & _ & _ & Hfl & _ & Hl & ->); [lia|].
  assert (slen (dec_string (Z.abs (minor m))) <= 19)
    by (apply dec_string_length; [destruct Hm; lia | lia]).
  rewrite !slen_app in *.
  assert (slen (sign_str (if minor m <? 0 then Some true else None)) <= 1)
    by (destruct (minor m <? 0); vm_compute; discriminate).
  enough (slen (frac_str frac) <= slen frac + 1) by lia.
  unfold frac_str. destruct (String.eqb_spec frac "") as [->|]; [done|]. rewrite slen_cons. lia.
Qed.

Lemma Parse_String m :
  money_wf m -> spec_Validate (mspec m) = Ok tt -> Parse (money_String m) (mspec m) = Ok m.
Proof.
  intros Hm Hs. pose proof (proj1 (spec_Validate_Ok _ _) Hs) as (_ & Hmu & _).
  unfold Parse. rewrite Hs. cbn [mbind result_bind].
  pose proof (money_String_length m Hm Hmu). unfold money_String in *.
  rewrite formatScaled_parse; [| lia | unfold MaxDecimalLen; lia].
  cbn [mbind result_bind]. by apply (FromDecimal_amount m).
Qed.

(** Printing an amount and parsing it back in its own currency is the
    identity on every int64 amount of every valid currency, the most
    negative one included; the JSON codec's record round-trips for every
    amount of an ISO currency. *)
Theorem money_roundtrip m :
  money_wf m -> spec_Validate (mspec m) = Ok tt ->
  Parse (money_String m) (mspec m) = Ok m /\
  (ISO (Code (mspec m)) = Some (mspec m) -> money_UnmarshalJSON (money_MarshalJSON m) = Ok m).
Proof.
  intros Hm Hs. split; [by apply Parse_String|]. intros Hiso.
  unfold money_UnmarshalJSON, money_MarshalJSON. cbn. rewrite Hiso. by apply Parse_String.
Qed.

Lemma money_roundtrip_witness :
  money_String (mkMoney (- 2 ^ 63) MXN) = "-92233720368547758.08"%string /\
  Parse "-92233720368547758.08" MXN = Ok (mkMoney (- 2 ^ 63) MXN) /\
  money_UnmarshalJSON (money_MarshalJSON (mkMoney (- 2 ^ 63) MXN)) = Ok (mkMoney (- 2 ^ 63) MXN).
Proof.
  split; [vm_compute; reflexivity|].
  destruct (money_roundtrip (mkMoney (- 2 ^ 63) MXN)) as [H1 H2];
    [split; cbn; lia | vm_compute; reflexivity |].
  split; [exact H1 | apply H2; vm_compute; reflexivity].
Defined.

(** ** Checked arithmetic *)

Lemma to_i64_wrap z : to_i64 (to_u64 z) = wrap64 z.
Proof. done. Qed.

Lemma to_u64_add a b : to_u64 (to_u64 a + to_u64 b) = to_u64 (a + b).
Proof. unfold to_u64, uint64_mod. zlia. Qed.

Lemma to_u64_sub a b : to_u64 (to_u64 a - to_u64 b) = to_u64 (a - b).
Proof. unfold to_u64, uint64_mod. zlia. Qed.

(** The sign test detects overflow exactly. *)
Lemma add64_spec a b :
  - 2 ^ 63 <= a < 2 ^ 63 -> - 2 ^ 63 <= b < 2 ^ 63 ->
  (add64 a b).2 = is_int64 (a + b) /\ (is_int64 (a + b) = true -> (add64 a b).1 = a + b).
Proof.
  intros Ha Hb. unfold add64. rewrite to_u64_add, to_i64_wrap. cbn [fst snd].
  destruct (wrap64_mod (a + b)) as [k Hk]. pose proof (wrap64_range (a + b)) as Hr.
  assert (k = -1 \/ k = 0 \/ k = 1) as Hk3 by lia.
  rewrite is_int64_spec. split; [apply eq_true_iff_eq; rewrite is_int64_spec|];
    destruct Hk3 as [-> | [-> | ->]]; lia.
Qed.

Lemma sub64_spec a b :
  - 2 ^ 63 <= a < 2 ^ 63 -> - 2 ^ 63 <= b < 2 ^ 63 ->
  (sub64 a b).2 = is_int64 (a - b) /\ (is_int64 (a - b) = true -> (sub64 a b).1 = a - b).
Proof.
  intros Ha Hb. unfold sub64. rewrite to_u64_sub, to_i64_wrap. cbn [fst snd].
  destruct (wrap64_mod (a - b)) as [k Hk]. pose proof (wrap64_range (a - b)) as Hr.
  assert (k = -1 \/ k = 0 \/ k = 1) as Hk3 by lia.
  rewrite is_int64_spec. split; [apply eq_true_iff_eq; rewrite is_int64_spec|];
    destruct Hk3 as [-> | [-> | ->]]; lia.
Qed.

(** [Add] and [Sub] return the mathematical sum and difference exactly
    when the currencies match and the result fits in int64, and otherwise
    the currency error (first) or the overflow error: the wrapped value is
    never returned. *)
Theorem money_add_sub_correct m o :
  money_wf m -> money_wf o ->
  let checked z :=
    if negb (sameCurrency (mspec m) (mspec o)) then Err ErrCurrencyMismatch
    else if is_int64 z then Ok (mkMoney z (mspec m)) else Err ErrOverflow in
  money_Add m o = checked (minor m + minor o) /\ money_Sub m o = checked (minor m - minor o).
Proof.
  intros Hm Ho checked. subst checked. unfold money_Add, money_Sub, money_wf in *.
  destruct (sameCurrency (mspec m) (mspec o)); [|done]. cbn [require mbind result_bind negb].
  destruct (add64_spec _ _ Hm Ho) as [Ha1 Ha2], (sub64_spec _ _ Hm Ho) as [Hs1 Hs2].
  destruct (add64 (minor m) (minor o)) as [s ok], (sub64 (minor m) (minor o)) as [s' ok'].
  cbn [fst snd] in *. subst. split.
  - destruct (is_int64 (minor m + minor o)); cbn; [by rewrite Ha2 | done].
  - destruct (is_int64 (minor m - minor o)); cbn; [by rewrite Hs2 | done].
Qed.

Lemma money_add_sub_correct_witness :
  money_Add (mkMoney (2 ^ 63 - 1) MXN) (mkMoney 1 MXN) = Err ErrOverflow /\
  money_Sub (mkMoney (- 2 ^ 63) MXN) (mkMoney (-1) MXN) = Ok (mkMoney (- 2 ^ 63 + 1) MXN).
Proof.
  destruct (money_add_sub_correct (mkMoney (2 ^ 63 - 1) MXN) (mkMoney 1 MXN)) as [H1 _];
    [split; cbn; lia | split; cbn; lia |].
  destruct (money_add_sub_correct (mkMoney (- 2 ^ 63) MXN) (mkMoney (-1) MXN)) as [_ H2];
    [split; cbn; lia | split; cbn; lia |].
  rewrite H1, H2. split; vm_compute; reflexivity.
Defined.

Lemma money_Neg_wf m r : money_wf m -> money_Neg m = Ok r -> money_wf r /\ minor r = - minor m.
Proof.
  unfold money_Neg, money_wf, int64_min. rewrite require_bind_Ok.
  intros ? [? [= <-]]. cbn. lia.
Qed.

(** Multiplying by a decimal: the exact product, rounded once. *)
Lemma MulDecimal_Ok m d mode r :
  decimal_wf d ->
  MulDecimal m d mode = Ok r <->
  mode_valid mode = true /\ money_wf r /\ mspec r = mspec m /\
  rounds mode (minor m * coef d) (10 ^ scale d) (minor r).
Proof.
  intros [Hd _]. unfold MulDecimal, checkMode, money_wf.
  rewrite require_bind_Ok, fromBig_Ok, pow10_pow by done.
  assert (10 ^ scale d <> 0) by (pose proof (Z.pow_pos_nonneg 10 (scale d)); lia).
  destruct r as [q s]. cbn [minor mspec]. split.
  - intros (? & ? & [= -> ->]). split_and!; auto using divRound_rounds; lia.
  - intros (? & ? & -> & Hq). apply divRound_eq in Hq; [|done]. rewrite Hq. done.
Qed.

(** Cash rounding returns a multiple of the currency's increment, the one
    the mode picks, changes nothing without an increment, and rounding an
    already rounded amount changes nothing. *)
Theorem RoundCash_correct m mode r :
  money_wf m -> 0 <= CashIncrementMinor (mspec m) -> RoundCash m mode = Ok r ->
  mspec r = mspec m /\ money_wf r /\ RoundCash r mode = Ok r /\
  (let inc := CashIncrementMinor (mspec m) in
   if inc <=? 1 then r = m
   else exists q, minor r = q * inc /\ rounds mode (minor m) inc q).
Proof.
  intros Hm Hinc. unfold RoundCash, checkMode. rewrite require_bind_Ok. intros [Hmode H].
  set (inc := CashIncrementMinor (mspec m)) in *. destruct (Z.leb_spec inc 1) as [Hle|Hgt].
  - injection H as <-. rewrite Hmode. cbn [require mbind result_bind]. fold inc.
    by rewrite (proj2 (Z.leb_le inc 1)).
  - apply fromBig_Ok in H as [Hr ->]. cbn [minor mspec]. fold inc.
    rewrite (proj2 (Z.leb_gt inc 1)), Hmode by done. cbn [require mbind result_bind].
    split_and!; [done | exact Hr | |].
    + apply fromBig_Ok. set (q := divRound (minor m) inc mode) in *.
      rewrite (Z.mul_comm q inc), divRound_multiple by lia.
      by rewrite (Z.mul_comm inc q).
    + eexists. split; [done|]. apply divRound_rounds. lia.
Qed.

Lemma RoundCash_correct_witness :
  RoundCash (mkMoney 1233 CHF) HalfAwayFromZero = Ok (mkMoney 1235 CHF) /\
  RoundCash (mkMoney 1235 CHF) HalfAwayFromZero = Ok (mkMoney 1235 CHF).
Proof.
  assert (H : RoundCash (mkMoney 1233 CHF) HalfAwayFromZero = Ok (mkMoney 1235 CHF))
    by (vm_compute; reflexivity).
  split; [exact H|].
  apply (RoundCash_correct (mkMoney 1233 CHF) HalfAwayFromZero (mkMoney 1235 CHF));
    [split; cbn; lia | cbn; lia | exact H].
Defined.
