(* ===== verification/MoneyRate.v ===== *)
(** * Money: exchange rates (money/rate.go) *)

From Stdlib Require Import QArith.
From S2P Require Import Prelude GoStrings MoneyRounding MoneyDecimal MoneyIso Money.

Open Scope Z_scope.

Definition InverseScale : Z := 12.
Definition InverseMode : RoundingMode := HalfEven.

Record Rate := mkRate {
  rID : string;
  rBase : string;
  rQuote : string;
  rValue : Decimal;
  rKind : string;
  rInverted : bool;
  rDerived : bool;
}.

Definition rate_validate (r : Rate) : result money_error unit :=
  _ ← require (negb (String.eqb (rBase r) "" || String.eqb (rQuote r) "")) ErrInvalid;
  require (negb (dec_Sign (rValue r) <=? 0)) ErrInvalid.

Definition Inverse (r : Rate) (sc : Z) : result money_error Rate :=
  _ ← rate_validate r;
  v ← dec_Quo (NewDecimal 1 0) (rValue r) sc InverseMode;
  _ ← require (negb (dec_Sign v =? 0)) ErrPrecision;
  Ok (mkRate (rID r) (rQuote r) (rBase r) v (rKind r) (negb (rInverted r)) true).

Definition Convert (a : Money) (r : Rate) (to : Spec) (mode : RoundingMode)
  : result money_error Money :=
  _ ← rate_validate r;
  _ ← spec_Validate to;
  _ ← checkMode mode;
  _ ← require (String.eqb (rBase r) (Code (mspec a))) ErrCurrencyMismatch;
  _ ← require (String.eqb (rQuote r) (Code to)) ErrCurrencyMismatch;
  let num := minor a * coef (rValue r) * pow10 (MinorUnits to) in
  let den := pow10 (scale (rValue r) + MinorUnits (mspec a)) in
  fromBig (divRound num den mode) to.

Lemma rate_validate_Ok r u :
  rate_validate r = Ok u <-> rBase r <> ""%string /\ rQuote r <> ""%string /\ 0 < coef (rValue r).
Proof.
  unfold rate_validate, dec_Sign. destruct u. rewrite require_bind_Ok, require_Ok.
  rewrite <- !String.eqb_neq. destruct (String.eqb (rBase r) ""), (String.eqb (rQuote r) "");
    cbn; naive_solver lia.
Qed.

(** A conversion succeeds exactly for a positive rate whose base is the
    amount's currency and whose quote is the target, with a known mode and a
    result that fits; the result is then the exact product
    minor * value * 10^(muTo - muFrom), rounded once. *)
Theorem Convert_correct a r to mode m :
  decimal_wf (rValue r) -> 0 <= MinorUnits (mspec a) ->
  Convert a r to mode = Ok m <->
  (rBase r = Code (mspec a) /\ rQuote r = Code to /\ rBase r <> ""%string /\
   0 < coef (rValue r) /\ spec_Validate to = Ok tt /\ mode_valid mode = true) /\
  money_wf m /\ mspec m = to /\
  rounds mode (minor a * coef (rValue r) * 10 ^ MinorUnits to)
    (10 ^ (scale (rValue r) + MinorUnits (mspec a))) (minor m).
Proof.
  intros [Hd _] Hmu. unfold Convert, checkMode, money_wf. rewrite bind_Ok. split.
  - intros ([] & Hv & ([] & Hs & H)%bind_Ok). rewrite !require_bind_Ok, !String.eqb_eq, fromBig_Ok in H.
    apply rate_validate_Ok in Hv as (? & ? & ?).
    pose proof (proj1 (spec_Validate_Ok _ _) Hs) as (_ & Hto & _).
    rewrite !pow10_pow in H by lia.
    destruct H as (? & ? & ? & ? & ->). cbn [minor mspec]. split_and!; auto; try lia.
    apply divRound_rounds.
    pose proof (Z.pow_pos_nonneg 10 (scale (rValue r) + MinorUnits (mspec a))). lia.
  - intros ((Hb & Hq & Hne & Hpos & Hs & Hmode) & Hwf & Hsp & Hr). exists tt. split.
    { apply rate_validate_Ok. split_and!; auto.
      apply spec_Validate_Ok in Hs as (Hc & _). by rewrite Hq. }
    apply bind_Ok. exists tt. split; [done|].
    rewrite !require_bind_Ok, !String.eqb_eq, fromBig_Ok.
    pose proof (proj1 (spec_Validate_Ok _ _) Hs) as (_ & Hto & _).
    rewrite !pow10_pow by lia. apply divRound_eq in Hr.
    + rewrite Hr. split_and!; auto; try lia. destruct m; cbn in *. by subst.
    + pose proof (Z.pow_pos_nonneg 10 (scale (rValue r) + MinorUnits (mspec a))). lia.
Qed.

Definition usd_mxn : Rate := mkRate "" "USD" "MXN" (mkDecimal 172345 4) "mid" false false.
Definition USD : Spec := mkSpec "USD" 2 0 "line".

Lemma Convert_correct_witness :
  Convert (mkMoney 1000 USD) usd_mxn MXN HalfEven = Ok (mkMoney 17234 MXN).
Proof.
  apply (Convert_correct (mkMoney 1000 USD) usd_mxn MXN HalfEven (mkMoney 17234 MXN));
    [split; cbn; lia | cbn; lia |].
  split; [split_and!; try reflexivity; try discriminate; cbn; lia|].
  split; [split; cbn; lia|]. split; [reflexivity|].
  vm_compute. split; [discriminate|]. reflexivity.
Defined.

(** The inverse rate is a valid rate in the other direction; it is refused
    exactly when it would round to zero. *)
Lemma Inverse_correct r sc r' :
  decimal_wf (rValue r) -> Inverse r sc = Ok r' ->
  rBase r' = rQuote r /\ rQuote r' = rBase r /\ rInverted r' = negb (rInverted r) /\
  rDerived r' = true /\ rate_validate r' = Ok tt /\ scale (rValue r') = sc /\
  rounds HalfEven (10 ^ (scale (rValue r) + sc)) (coef (rValue r)) (coef (rValue r')).
Proof.
  intros Hd. unfold Inverse. intros ([] & Hv & (v & Hq & H)%bind_Ok)%bind_Ok.
  apply require_bind_Ok in H as [Hz [= <-]].
  assert (H1 : decimal_wf (NewDecimal 1 0)) by (split; cbn; lia).
  apply dec_Quo_Ok in Hq as (_ & Hsc & _ & Hs & Hr); [|done..].
  apply rate_validate_Ok in Hv as (Hb & Hqt & Hp). cbn in *.
  rewrite Z.mul_1_l in Hr. rewrite Z.mul_1_r in Hr.
  do 4 (split; [done|]). split; [|done].
  apply rate_validate_Ok. cbn. split; [done|]. split; [done|].
  unfold dec_Sign in Hz. destruct Hr as [Hr _].
  assert (0 < 10 ^ (scale (rValue r) + sc)) by (apply Z.pow_pos_nonneg; destruct Hd; lia).
  assert (coef v <> 0) by lia.
  enough (~ coef v < 0) by lia. nia.
Qed.
