(* ===== verification/MoneyAllocate.v ===== *)
(** * Money: proportional allocation (Money.Allocate in money/money.go)

    The largest remainder method over unsigned 64-bit arithmetic: 128-bit
    products, a stable sort of the indices by remainder, one extra minor unit
    to the first ones.  The run-time panics of the steps ([bits.Div64] when
    the quotient does not fit, an index out of range) are the error
    [ErrPanic], so the total-correctness theorem also says they cannot
    happen. *)

From Stdlib Require Import Sorting.Sorted.
From S2P Require Import Prelude GoStrings MoneyRounding MoneyDecimal MoneyIso Money.

(** ** Definitions *)

(** The weight loop: reject a negative weight, add with carry. *)
Fixpoint sum_weights (total : Z) (weights : list Z) : result money_error Z :=
  match weights with
  | [] => Ok total
  | w :: ws =>
      _ ← require (negb (w <? 0)) ErrInvalid;
      let s := total + to_u64 w in
      _ ← require (s <? uint64_mod) ErrOverflow;
      sum_weights s ws
  end.

(** [bits.Mul64] and [bits.Div64]. *)
Definition Mul64 (x y : Z) : Z * Z := (x * y / uint64_mod, x * y mod uint64_mod).
Definition Div64 (hi lo y : Z) : result money_error (Z * Z) :=
  _ ← require (hi <? y) ErrPanic;
  let n := hi * uint64_mod + lo in Ok (n / y, n mod y).

(** One pass of the quota loop: quotas, remainders and [assigned]. *)
Fixpoint quota_loop (abs total : Z) (weights : list Z) : result money_error (list Z * list Z * Z) :=
  match weights with
  | [] => Ok ([], [], 0)
  | w :: ws =>
      let '(hi, lo) := Mul64 abs (to_u64 w) in
      '(q, r) ← Div64 hi lo total;
      '(qs, rs, assigned) ← quota_loop abs total ws;
      Ok (q :: qs, r :: rs, to_u64 (q + assigned))
  end.

(** [sort.SliceStable] with [rems[order[a]] > rems[order[b]]]: equal
    remainders keep their order. *)
Section order.
Context (rems : list Z).
Definition rem_at (i : nat) : Z := List.nth i rems 0.

Fixpoint insert_desc (i : nat) (l : list nat) : list nat :=
  match l with
  | [] => [i]
  | j :: l' => if rem_at j <=? rem_at i then i :: l else j :: insert_desc i l'
  end.

Definition sort_desc (l : list nat) : list nat := foldr insert_desc [] l.
End order.

(** [for k := 0; k < abs-assigned; k++ { quotas[order[k]]++ }]. *)
Fixpoint give_leftover (n : nat) (order : list nat) (quotas : list Z) : result money_error (list Z) :=
  match n with
  | O => Ok quotas
  | S n =>
      match order with
      | [] => Err ErrPanic
      | i :: order =>
          match quotas !! i with
          | None => Err ErrPanic
          | Some q => give_leftover n order (<[i := to_u64 (q + 1)]> quotas)
          end
      end
  end.

Definition part_of (m : Money) (q : Z) : Money :=
  let v := to_i64 q in
  mkMoney (if minor m <? 0 then wrap64 (- v) else v) (mspec m).

Definition Allocate (m : Money) (weights : list Z) : result money_error (list Money) :=
  _ ← require (negb (bool_decide (weights = []))) ErrInvalid;
  total ← sum_weights 0 weights;
  _ ← require (negb (total =? 0)) ErrInvalid;
  let abs := to_u64 (minor m) in
  let abs := if minor m <? 0 then to_u64 (- abs) else abs in
  '(quotas, rems, assigned) ← quota_loop abs total weights;
  let order := sort_desc rems (seq 0 (length weights)) in
  quotas ← give_leftover (Z.to_nat (to_u64 (abs - assigned))) order quotas;
  Ok (map (part_of m) quotas).

Example allocate_100_by_thirds :
  Allocate (mkMoney 100 MXN) [1; 1; 1] = Ok (map (fun v => mkMoney v MXN) [34; 33; 33]).
Proof. vm_compute. reflexivity. Qed.

Example allocate_min_int64 :
  Allocate (mkMoney (- 2 ^ 63) MXN) [1] = Ok [mkMoney (- 2 ^ 63) MXN].
Proof. vm_compute. reflexivity. Qed.

Example allocate_negative :
  Allocate (mkMoney (-10) MXN) [1; 0; 2] = Ok (map (fun v => mkMoney v MXN) [-3; 0; -7]).
Proof. vm_compute. reflexivity. Qed.

(** ** The quota loop *)

Lemma sum_weights_Ok total ws t :
  0 <= total -> Forall (fun w => w < 2 ^ 63) ws ->
  sum_weights total ws = Ok t <->
  Forall (fun w => 0 <= w) ws /\ t = total + zsum ws /\ (ws <> [] -> t < 2 ^ 64).
Proof.
  intros Ht Hws. revert total Ht. induction Hws as [|w ws Hw Hws IH]; intros total Ht; cbn [sum_weights].
  { rewrite zsum_nil. split; [intros [= ->]|intros (_ & -> & _)]; [|f_equal; lia]. split_and!; auto; [lia|done]. }
  rewrite !require_bind_Ok. rewrite zsum_cons. split.
  - intros (Hw0 & Hlt & H). rewrite to_u64_small in * by lia.
    apply IH in H as (Hall & -> & Hb); [|lia]. split_and!; [constructor; [lia|done] | lia |].
    intros _. destruct ws; [rewrite zsum_nil; unfold uint64_mod in *; lia | by apply Hb].
  - intros (Hall & -> & Hb). apply Forall_cons in Hall as [Hw0 Hall].
    rewrite to_u64_small by lia. pose proof (zsum_nonneg ws Hall). specialize (Hb ltac:(done)).
    unfold uint64_mod. split_and!; [lia|lia|]. apply IH; [lia|]. split_and!; [done|lia|lia].
Qed.

Definition quota (abs total w : Z) : Z := abs * w / total.
Definition remainder (abs total w : Z) : Z := abs * w mod total.

Lemma quota_loop_Ok abs total ws :
  0 <= abs < 2 ^ 64 -> 0 < total < 2 ^ 64 ->
  Forall (fun w => 0 <= w <= total) ws ->
  zsum (map (quota abs total) ws) < 2 ^ 64 ->
  quota_loop abs total ws =
    Ok (map (quota abs total) ws, map (remainder abs total) ws, zsum (map (quota abs total) ws)).
Proof.
  intros Habs Htot. induction 1 as [|w ws Hw Hws IH]; intros Hsum; cbn [quota_loop]; [done|].
  cbn [map] in Hsum. rewrite zsum_cons in Hsum.
  assert (Hq : forall x, 0 <= x <= total -> 0 <= quota abs total x)
    by (intros x Hx; apply Z.div_pos; nia).
  assert (0 <= zsum (map (quota abs total) ws)).
  { apply zsum_nonneg, Forall_map. eapply Forall_impl; [exact Hws|]. cbn. auto. }
  specialize (Hq w Hw). unfold Mul64, Div64. rewrite to_u64_small by lia.
  assert (Hhi : abs * w / uint64_mod < total).
  { unfold uint64_mod. apply Z.div_lt_upper_bound; [lia|]. nia. }
  rewrite (proj2 (Z.ltb_lt _ _) Hhi). cbn [require mbind result_bind].
  assert (Hn : abs * w / uint64_mod * uint64_mod + (abs * w) mod uint64_mod = abs * w).
  { unfold uint64_mod. pose proof (Z.div_mod (abs * w) (2 ^ 64)). lia. }
  rewrite Hn, IH by lia. cbn [mbind result_bind map]. rewrite zsum_cons.
  fold (quota abs total w). fold (remainder abs total w).
  rewrite to_u64_small by lia. done.
Qed.

(** ** The stable sort *)

(** The order in which leftover units are handed out: larger remainder
    first, then smaller index. *)
Definition before (rems : list Z) (i j : nat) : Prop :=
  rem_at rems j < rem_at rems i \/ (rem_at rems i = rem_at rems j /\ (i < j)%nat).

Lemma insert_desc_perm rems i l : insert_desc rems i l ≡ₚ i :: l.
Proof.
  induction l as [|j l IH]; cbn; [done|]. destruct (rem_at rems j <=? rem_at rems i); [done|].
  rewrite IH. apply Permutation_swap.
Qed.

Lemma sort_desc_perm rems l : sort_desc rems l ≡ₚ l.
Proof.
  induction l as [|i l IH]; [done|]. unfold sort_desc. cbn [foldr].
  fold (sort_desc rems l). rewrite insert_desc_perm. by rewrite IH.
Qed.

Lemma insert_desc_sorted rems i l :
  StronglySorted (before rems) l -> Forall (fun j => (i < j)%nat) l ->
  StronglySorted (before rems) (insert_desc rems i l).
Proof.
  induction 1 as [|j l Hs IH Hj]; intros Hlt; cbn.
  { repeat constructor. }
  apply Forall_cons in Hlt as [Hij Hlt].
  destruct (Z.leb_spec (rem_at rems j) (rem_at rems i)) as [Hle|Hgt].
  - constructor; [by constructor|]. constructor; [unfold before; lia|].
    rewrite Forall_forall in *. intros k Hk. specialize (Hj k Hk). specialize (Hlt k Hk).
    unfold before in *. lia.
  - constructor; [by apply IH|]. rewrite insert_desc_perm. constructor; [unfold before; lia|done].
Qed.

Lemma sort_desc_sorted rems l :
  StronglySorted lt l -> StronglySorted (before rems) (sort_desc rems l).
Proof.
  induction 1 as [|i l Hs IH Hi]; [constructor|]. unfold sort_desc. cbn [foldr].
  fold (sort_desc rems l). apply insert_desc_sorted; [done|]. by rewrite sort_desc_perm.
Qed.

Lemma seq_sorted n k : StronglySorted lt (seq k n).
Proof.
  revert k. induction n as [|n IH]; intros k; cbn; constructor; [apply IH|].
  rewrite Forall_forall. intros x [? ?]%elem_of_seq. lia.
Qed.

Lemma map_nth_seq (l : list Z) : map (rem_at l) (seq 0 (length l)) = l.
Proof.
  unfold rem_at. induction l as [|x l IH]; cbn; [done|]. f_equal.
  rewrite <- IH at 2. rewrite <- seq_shift, map_map. done.
Qed.

(** In a descending list of remainders that add up to [n] divisors, the first
    [n] are positive: a zero weight never receives a leftover unit. *)
Lemma desc_positive (f : nat -> Z) (l : list nat) (n T : Z) :
  StronglySorted (fun i j => f j <= f i) l ->
  Forall (fun i => 0 <= f i < T) l -> 0 < T -> zsum (map f l) = n * T ->
  forall k i, Z.of_nat k < n -> l !! k = Some i -> 0 < f i.
Proof.
  intros Hs Hr HT Hsum k i Hk Hi.
  destruct (Z.lt_ge_cases 0 (f i)) as [|Hz]; [done|exfalso].
  rewrite <- (take_drop_middle l k i Hi) in Hsum, Hr, Hs.
  rewrite map_app, zsum_app in Hsum. cbn [map] in Hsum. rewrite zsum_cons in Hsum.
  apply Forall_app in Hr as [Hr1 [Hri Hr2]%Forall_cons].
  assert (Htail : zsum (map f (drop (S k) l)) = 0).
  { apply zsum_zero, Forall_map.
    assert (Hs2 : Forall (fun j => f j <= f i) (drop (S k) l)).
    { clear -Hs. induction (take k l) as [|x t IH]; cbn in Hs; inversion Hs; subst; auto. }
    rewrite Forall_forall in *. intros j Hj. specialize (Hs2 j Hj). specialize (Hr2 j Hj). lia. }
  assert (Hhead : zsum (map f (take k l)) <= T * Z.of_nat k).
  { etransitivity; [apply (zsum_le_length T)|].
    - apply Forall_map. eapply Forall_impl; [exact Hr1|]. cbn. lia.
    - rewrite length_map. pose proof (length_take_le l k). rewrite length_take. nia. }
  nia.
Qed.

(** ** Handing out the leftover *)

Definition bumped (sel : list nat) (qs : list Z) : list Z :=
  imap (fun i q => if bool_decide (i ∈ sel) then q + 1 else q) qs.

Lemma bumped_lookup sel qs i :
  bumped sel qs !! i = (fun q => if bool_decide (i ∈ sel) then q + 1 else q) <$> qs !! i.
Proof. apply list_lookup_imap. Qed.

Lemma bumped_length sel qs : length (bumped sel qs) = length qs.
Proof. apply length_imap. Qed.

Lemma bumped_insert sel qs i q :
  qs !! i = Some q -> i ∉ sel -> bumped sel (<[i := q + 1]> qs) = bumped (i :: sel) qs.
Proof.
  intros Hi Hni. apply list_eq. intros j. rewrite !bumped_lookup.
  destruct (decide (i = j)) as [<-|Hne].
  - rewrite list_lookup_insert_eq by (by eapply lookup_lt_Some). rewrite Hi. cbn.
    rewrite bool_decide_false, bool_decide_true by (done || set_solver). done.
  - rewrite list_lookup_insert_ne by done. destruct (qs !! j); cbn; [|done]. f_equal.
    assert (j ∈ i :: sel <-> j ∈ sel) as Heq by set_solver.
    by rewrite (bool_decide_ext _ _ Heq).
Qed.

Lemma give_leftover_Ok n order qs :
  NoDup order -> Forall (fun i => (i < length qs)%nat) order -> (n <= length order)%nat ->
  Forall (fun q => 0 <= q < 2 ^ 63 + 1) qs ->
  give_leftover n order qs = Ok (bumped (take n order) qs) /\
  zsum (bumped (take n order) qs) = zsum qs + Z.of_nat n.
Proof.
  revert n. enough (Hgen : forall order qs n, NoDup order ->
    Forall (fun i => exists q, qs !! i = Some q /\ 0 <= q < 2 ^ 63 + 1) order -> (n <= length order)%nat ->
    give_leftover n order qs = Ok (bumped (take n order) qs) /\
    zsum (bumped (take n order) qs) = zsum qs + Z.of_nat n).
  { intros n Hnd Hin Hn Hq. apply Hgen; auto. eapply Forall_impl; [exact Hin|].
    cbn. intros i Hi. destruct (lookup_lt_is_Some_2 qs i Hi) as [q Hqi]. exists q. split; [done|].
    rewrite Forall_lookup in Hq. by eapply Hq. }
  assert (Hid : forall qs, bumped [] qs = qs).
  { intros ks. apply list_eq. intros i. rewrite bumped_lookup. by destruct (ks !! i). }
  clear order qs. intros order. induction order as [|i order IH]; intros qs [|n] Hnd Hin Hn; cbn in Hn; try lia;
    cbn [take give_leftover]; rewrite ?Hid; [split; [done|lia].. |].
  apply NoDup_cons in Hnd as [Hni Hnd]. apply Forall_cons in Hin as [(q & Hq & Hqb) Hin].
  assert (Htake : i ∉ take n order) by (intros H; apply Hni; by eapply elem_of_take in H as (? & H%list_elem_of_lookup_2 & _)).
  rewrite Hq, to_u64_small by lia. rewrite <- (bumped_insert _ _ _ q) by done.
  destruct (IH (<[i := q + 1]> qs) n) as [-> ->]; [done| |lia|].
  - rewrite Forall_forall in *. intros j Hj. rewrite list_lookup_insert_ne by (intros ->; done). by apply Hin.
  - split; [done|]. rewrite (zsum_insert _ _ q) by done. lia.
Qed.

(** ** Correctness *)

Lemma abs_u64 z : - 2 ^ 63 <= z < 2 ^ 63 ->
  (if z <? 0 then to_u64 (- to_u64 z) else to_u64 z) = Z.abs z.
Proof.
  intros Hz. unfold to_u64, uint64_mod. destruct (Z.ltb_spec z 0); zlia.
Qed.

Lemma quota_remainder_sum abs total ws :
  0 < total ->
  total * zsum (map (quota abs total) ws) + zsum (map (remainder abs total) ws) = abs * zsum ws.
Proof.
  intros Ht. induction ws as [|w ws IH]; cbn [map]; rewrite ?zsum_nil, ?zsum_cons; [lia|].
  unfold quota at 1, remainder at 1. pose proof (Z.div_mod (abs * w) total). lia.
Qed.

Lemma part_of_minor m q :
  money_wf m -> 0 <= q <= Z.abs (minor m) ->
  minor (part_of m q) = Z.sgn (minor m) * q /\ money_wf (part_of m q).
Proof.
  unfold money_wf, part_of. cbn [minor]. intros Hm Hq. unfold to_i64, uint64_mod.
  destruct (Z.ltb_spec (minor m) 0), (Z.ltb_spec q (2 ^ 63)); try lia.
  - rewrite wrap64_small by lia. lia.
  - assert (q = 2 ^ 63) as -> by lia. change (wrap64 (- (2 ^ 63 - 2 ^ 64))) with (- 2 ^ 63). lia.
Qed.

(** The quantities of one call with valid arguments, and their bounds. *)
Section valid_call.
Context (m : Money) (ws : list Z).
Context (Hm : money_wf m) (Hws : Forall (fun w => 0 <= w < 2 ^ 63) ws).
Context (Htot : 0 < zsum ws < 2 ^ 64).

Local Abbreviation abs := (Z.abs (minor m)).
Local Abbreviation qs := (map (quota abs (zsum ws)) ws).
Local Abbreviation rems := (map (remainder abs (zsum ws)) ws).
Local Abbreviation order := (sort_desc rems (seq 0 (length ws))).
Local Abbreviation L := (abs - zsum qs).

Lemma weights_nonneg : Forall (fun w => 0 <= w) ws.
Proof using Hws. eapply Forall_impl; [exact Hws|cbn; lia]. Qed.

Lemma weights_le_total : Forall (fun w => 0 <= w <= zsum ws) ws.
Proof using Hws. apply zsum_elem_le, weights_nonneg. Qed.

Lemma remainder_bounds : Forall (fun r => 0 <= r < zsum ws) rems.
Proof using Htot.
  apply Forall_map, Forall_forall. intros w _. unfold remainder.
  pose proof (Z.mod_pos_bound (abs * w) (zsum ws)). lia.
Qed.

Lemma quota_bounds : Forall (fun q => 0 <= q <= abs) qs.
Proof using Hws Htot.
  apply Forall_map. eapply Forall_impl; [exact weights_le_total|]. cbn. intros w Hw. unfold quota. split.
  - apply Z.div_pos; nia.
  - apply Z.div_le_upper_bound; nia.
Qed.

Lemma remainder_sum : zsum rems = L * zsum ws.
Proof using Htot. pose proof (quota_remainder_sum abs (zsum ws) ws). lia. Qed.

Lemma leftover_bounds : 0 <= L <= Z.of_nat (length ws).
Proof using Htot.
  pose proof remainder_sum as HL. pose proof remainder_bounds as Hb.
  assert (0 <= zsum rems) by (apply zsum_nonneg; eapply Forall_impl; [exact Hb|cbn; lia]).
  assert (zsum rems <= (zsum ws - 1) * Z.of_nat (length rems))
    by (apply zsum_le_length; eapply Forall_impl; [exact Hb|cbn; lia]).
  rewrite length_map in *. nia.
Qed.

Lemma order_perm : order ≡ₚ seq 0 (length ws).
Proof using. apply sort_desc_perm. Qed.

Lemma leftover_step :
  give_leftover (Z.to_nat L) order qs = Ok (bumped (take (Z.to_nat L) order) qs) /\
  zsum (bumped (take (Z.to_nat L) order) qs) = abs.
Proof using Hm Hws Htot.
  pose proof leftover_bounds. destruct (give_leftover_Ok (Z.to_nat L) order qs) as [-> ->]; [..|split; [done|lia]].
  - rewrite order_perm. apply NoDup_seq.
  - rewrite order_perm. apply Forall_forall. intros i [_ ?]%elem_of_seq. rewrite length_map. lia.
  - rewrite order_perm, length_seq. lia.
  - eapply Forall_impl; [exact quota_bounds|]. unfold money_wf in Hm. cbn. lia.
Qed.

Lemma Allocate_eq : Allocate m ws = Ok (map (part_of m) (bumped (take (Z.to_nat L) order) qs)).
Proof using Hm Hws Htot.
  pose proof leftover_bounds. assert (abs <= 2 ^ 63) by (unfold money_wf in Hm; lia).
  assert (0 <= zsum qs)
    by (apply zsum_nonneg; eapply Forall_impl; [apply quota_bounds|cbn; lia]).
  assert (Hne : ws <> []) by (intros ->; rewrite zsum_nil in Htot; lia).
  unfold Allocate. rewrite bool_decide_false by done. cbn [negb require mbind result_bind].
  rewrite (proj2 (sum_weights_Ok 0 ws (zsum ws) ltac:(lia) ltac:(eapply Forall_impl; [exact Hws|cbn; lia])))
    by (split_and!; [apply weights_nonneg|lia|lia]).
  cbn [mbind result_bind]. rewrite (proj2 (Z.eqb_neq (zsum ws) 0)) by lia.
  cbn [negb require mbind result_bind]. rewrite (abs_u64 _ Hm).
  rewrite quota_loop_Ok by (lia || apply weights_le_total).
  cbn [mbind result_bind]. rewrite to_u64_small by lia.
  by rewrite (proj1 leftover_step).
Qed.

(** The index [i] receives one of the leftover units. *)
Definition gets_extra (i : nat) : Prop := i ∈ take (Z.to_nat L) order.

#[global] Instance gets_extra_dec i : Decision (gets_extra i).
Proof. unfold gets_extra. apply _. Defined.

Lemma gets_extra_positive i : gets_extra i -> 0 < rem_at rems i.
Proof using Htot.
  intros (k & Hk)%list_elem_of_lookup. apply lookup_take_Some in Hk as [Hi Hk].
  apply (desc_positive (rem_at rems) order L (zsum ws)) with k; [..|lia|done].
  - eapply StronglySorted_mono; [|apply sort_desc_sorted, seq_sorted]. unfold before. lia.
  - rewrite order_perm. apply (proj1 (Forall_map (rem_at rems) (fun r => 0 <= r < zsum ws) _)). replace (length ws) with (length rems) by apply length_map.
    rewrite map_nth_seq. apply remainder_bounds.
  - lia.
  - rewrite (zsum_Permutation _ (map (rem_at rems) (seq 0 (length rems)))).
    + rewrite map_nth_seq. apply remainder_sum.
    + rewrite length_map. apply Permutation_map, order_perm.
Qed.

Lemma gets_extra_before i j :
  (i < length ws)%nat -> (j < length ws)%nat -> gets_extra i -> ~ gets_extra j -> before rems i j.
Proof using.
  intros Hi Hj Hin Hout. pose proof (sort_desc_sorted rems _ (seq_sorted (length ws) 0)) as Hs.
  assert (Hjo : j ∈ order) by (rewrite order_perm; apply elem_of_seq; lia).
  rewrite <- (take_drop (Z.to_nat L) order) in Hs, Hjo. unfold gets_extra in *.
  apply elem_of_app in Hjo as [?|Hj2]; [done|].
  eapply StronglySorted_app_elim; eauto.
Qed.

Local Abbreviation final := (bumped (take (Z.to_nat L) order) qs).

Lemma final_lookup i w :
  ws !! i = Some w ->
  final !! i = Some (if bool_decide (gets_extra i) then quota abs (zsum ws) w + 1
                     else quota abs (zsum ws) w).
Proof using. intros Hi. by rewrite bumped_lookup, list_lookup_fmap, Hi. Qed.

Lemma final_bounds : Forall (fun q => 0 <= q <= abs) final.
Proof using Hm Hws Htot.
  pose proof (zsum_elem_le final) as H. rewrite (proj2 leftover_step) in H.
  apply H, Forall_lookup. clear H. intros i q Hq.
  destruct (ws !! i) as [w|] eqn:Hi.
  - rewrite (final_lookup _ _ Hi) in Hq. injection Hq as <-.
    pose proof quota_bounds as Hb. rewrite Forall_map, Forall_lookup in Hb. specialize (Hb _ _ Hi).
    cbn in Hb. case_bool_decide; lia.
  - by rewrite bumped_lookup, list_lookup_fmap, Hi in Hq.
Qed.

Lemma remainder_at i w : ws !! i = Some w -> rem_at rems i = remainder abs (zsum ws) w.
Proof using. intros Hi. apply nth_lookup_Some. by rewrite list_lookup_fmap, Hi. Qed.

(** A part against its exact share |m|*w/W. *)
Lemma final_share i w q :
  ws !! i = Some w -> final !! i = Some q ->
  Z.abs (q * zsum ws - abs * w) < zsum ws /\ (w = 0 -> q = 0).
Proof using Htot.
  intros Hi. rewrite (final_lookup _ _ Hi). intros [= <-].
  pose proof (Z.div_mod (abs * w) (zsum ws)) as Hdm.
  pose proof (Z.mod_pos_bound (abs * w) (zsum ws)) as Hmb.
  unfold quota. case_bool_decide as Hex.
  - apply gets_extra_positive in Hex. rewrite (remainder_at _ _ Hi) in Hex. unfold remainder in Hex.
    split; [lia|]. intros ->. rewrite Z.mul_0_r, Zmod_0_l in Hex. lia.
  - split; [lia|]. intros ->. by rewrite Z.mul_0_r, Zdiv_0_l.
Qed.
End valid_call.

(** C35: allocation loses and creates nothing. For every int64 amount and every
    vector of non-negative weights with a positive sum below 2^64, [Allocate]
    returns (no panic, no overflow) one part per weight, in the amount's
    currency, whose sum is the amount exactly; each part differs from its
    exact share m*w/W by less than one minor unit, has the sign of the
    amount, and a zero weight receives zero. *)
Theorem Allocate_correct m ws :
  money_wf m -> Forall (fun w => 0 <= w < 2 ^ 63) ws -> 0 < zsum ws < 2 ^ 64 ->
  exists parts, Allocate m ws = Ok parts /\ length parts = length ws /\
    zsum (map minor parts) = minor m /\
    forall i w p, ws !! i = Some w -> parts !! i = Some p ->
      money_wf p /\ mspec p = mspec m /\ (w = 0 -> minor p = 0) /\
      Z.abs (minor p * zsum ws - minor m * w) < zsum ws /\ 0 <= minor p * Z.sgn (minor m).
Proof.
  intros Hm Hws Htot. eexists. split; [by apply Allocate_eq|].
  pose proof (final_bounds m ws Hm Hws Htot) as Hb.
  pose proof (proj2 (leftover_step m ws Hm Hws Htot)) as Hsum.
  pose proof (final_share m ws Htot) as Hshare.
  match type of Hsum with zsum ?l = _ => remember l as qs eqn:Eqs end.
  split; [by rewrite Eqs, length_map, bumped_length, length_map|]. split.
  - rewrite map_map, (map_ext_in _ (fun q => Z.sgn (minor m) * q)).
    + rewrite zsum_scale, Hsum. lia.
    + intros q Hq%list_elem_of_In. rewrite Forall_forall in Hb. by apply part_of_minor, Hb.
  - intros i w p Hi Hp. rewrite list_lookup_fmap in Hp.
    destruct (qs !! i) as [q|] eqn:Hq; [|done]. injection Hp as <-.
    rewrite Forall_lookup in Hb. destruct (part_of_minor m q Hm (Hb _ _ Hq)) as [-> Hwf].
    destruct (Hshare i w q Hi Hq) as [Hs Hz]. specialize (Hb _ _ Hq). cbn in Hb.
    split; [done|]. split; [done|]. split; [intros H0; rewrite (Hz H0); lia|].
    split; nia.
Qed.

Lemma Allocate_correct_witness :
  exists parts, Allocate (mkMoney (-10) MXN) [1; 0; 2] = Ok parts /\ zsum (map minor parts) = -10.
Proof.
  destruct (Allocate_correct (mkMoney (-10) MXN) [1; 0; 2]) as (parts & H1 & _ & H2 & _).
  - split; cbn; lia.
  - repeat constructor; lia.
  - vm_compute. split; reflexivity.
  - exists parts. split; [exact H1 | exact H2].
Defined.

(** The leftover units go to the largest remainders, ties to the smallest
    index: a part rounded up has a larger remainder than any part rounded
    down, or an equal one and an earlier position. *)
Theorem Allocate_largest_remainder m ws parts i j wi wj pi pj :
  money_wf m -> Forall (fun w => 0 <= w < 2 ^ 63) ws -> 0 < zsum ws < 2 ^ 64 ->
  Allocate m ws = Ok parts ->
  ws !! i = Some wi -> parts !! i = Some pi -> ws !! j = Some wj -> parts !! j = Some pj ->
  Z.abs (minor m) * wi < Z.abs (minor pi) * zsum ws ->
  Z.abs (minor pj) * zsum ws <= Z.abs (minor m) * wj ->
  let rem w := Z.abs (minor m) * w mod zsum ws in
  rem wj < rem wi \/ (rem wi = rem wj /\ (i < j)%nat).
Proof.
  intros Hm Hws Htot Hall Hwi Hpi Hwj Hpj Hup Hdown rem.
  rewrite (Allocate_eq m ws Hm Hws Htot) in Hall. injection Hall as <-.
  pose proof (final_bounds m ws Hm Hws Htot) as Hb. rewrite Forall_lookup in Hb.
  rewrite list_lookup_fmap in Hpi, Hpj.
  rewrite (final_lookup m ws i wi Hwi) in Hpi. rewrite (final_lookup m ws j wj Hwj) in Hpj.
  injection Hpi as <-. injection Hpj as <-.
  pose proof (Hb _ _ (final_lookup m ws i wi Hwi)) as Hbi.
  pose proof (Hb _ _ (final_lookup m ws j wj Hwj)) as Hbj. cbn in Hbi, Hbj.
  destruct (part_of_minor m _ Hm Hbi) as [Ei _], (part_of_minor m _ Hm Hbj) as [Ej _].
  rewrite Ei in Hup. rewrite Ej in Hdown. clear Ei Ej Hb.
  set (abs := Z.abs (minor m)) in *. set (W := zsum ws) in *.
  assert (Hq : forall w, quota abs W w * W <= abs * w < (quota abs W w + 1) * W).
  { intros w. unfold quota. pose proof (Z.div_mod (abs * w) W). pose proof (Z.mod_pos_bound (abs * w) W). lia. }
  pose proof (Hq wi). pose proof (Hq wj).
  assert (Hsgn : Z.sgn (minor m) = 0 /\ abs = 0 \/ Z.abs (Z.sgn (minor m)) = 1) by (subst abs; lia).
  rewrite !Z.abs_mul in Hup, Hdown.
  assert (Hi : gets_extra m ws i).
  { destruct (bool_decide_reflect (gets_extra m ws i)); [done|].
    rewrite (Z.abs_eq (quota abs W wi)) in Hup by lia. nia. }
  assert (Hj : ~ gets_extra m ws j).
  { destruct (bool_decide_reflect (gets_extra m ws j)); [|done].
    rewrite (Z.abs_eq (quota abs W wj + 1)) in Hdown by lia. nia. }
  pose proof (gets_extra_before m ws i j (lookup_lt_Some _ _ _ Hwi) (lookup_lt_Some _ _ _ Hwj) Hi Hj) as Hbef.
  unfold before in Hbef. by rewrite (remainder_at m ws i wi Hwi), (remainder_at m ws j wj Hwj) in Hbef.
Qed.

Lemma Allocate_largest_remainder_witness :
  Allocate (mkMoney 100 MXN) [1; 2; 3] = Ok (map (fun v => mkMoney v MXN) [17; 33; 50]) /\
  (100 * 2 mod 6 < 100 * 1 mod 6 \/ (100 * 1 mod 6 = 100 * 2 mod 6 /\ (0 < 1)%nat)).
Proof.
  assert (H : Allocate (mkMoney 100 MXN) [1; 2; 3] = Ok (map (fun v => mkMoney v MXN) [17; 33; 50]))
    by (vm_compute; reflexivity).
  split; [exact H|].
  eapply (Allocate_largest_remainder (mkMoney 100 MXN) [1; 2; 3] _ 0 1 1 2 _ _);
    [split; cbn; lia | repeat constructor; lia | vm_compute; split; reflexivity | exact H
    | reflexivity | reflexivity | reflexivity | reflexivity | vm_compute; reflexivity
    | vm_compute; discriminate].
Defined.

Lemma sum_weights_Err total ws e :
  sum_weights total ws = Err e -> e = ErrInvalid \/ e = ErrOverflow.
Proof.
  revert total. induction ws as [|w ws IH]; intros total; cbn; [done|].
  rewrite !require_bind_Err. naive_solver.
Qed.

(** [Allocate] succeeds exactly on valid weights; on any other int64 weights
    the error is one of the two documented sentinels, never a panic. *)
Lemma Allocate_total m ws :
  money_wf m -> Forall (fun w => - 2 ^ 63 <= w < 2 ^ 63) ws ->
  (exists parts, Allocate m ws = Ok parts /\ Forall (fun w => 0 <= w) ws /\ 0 < zsum ws < 2 ^ 64) \/
  ((Allocate m ws = Err ErrInvalid \/ Allocate m ws = Err ErrOverflow) /\
   ~ (Forall (fun w => 0 <= w) ws /\ 0 < zsum ws < 2 ^ 64)).
Proof.
  intros Hm Hws.
  destruct (decide (Forall (fun w => 0 <= w) ws /\ 0 < zsum ws < 2 ^ 64)) as [[Hnn Htot]|Hno].
  - left. eexists. split; [|done]. apply Allocate_eq; [done| |done].
    rewrite Forall_forall in *. intros w Hw. specialize (Hws w Hw). specialize (Hnn w Hw). lia.
  - right. split; [|done]. unfold Allocate. case_bool_decide as Hne; cbn; [by left|].
    destruct (sum_weights 0 ws) as [t|e] eqn:E; cbn.
    + apply sum_weights_Ok in E as (Hnn & Ht & Hlt);
        [|lia|eapply Forall_impl; [exact Hws|cbn; lia]].
      destruct (Z.eqb_spec t 0); cbn; [by left|].
      exfalso. apply Hno. split; [done|]. pose proof (zsum_nonneg ws Hnn). specialize (Hlt Hne). lia.
    + apply sum_weights_Err in E as [->| ->]; auto.
Qed.
