(* ===== verification/PayStatus.v ===== *)
(** * Payments: the status lifecycle (payments/status.go)

    The normalized payment statuses with their transition table, the local
    commands, the breadth-first [Reachable], and [Observe], the
    classification of a status re-read from the provider.  [provider_path]
    is the specification [Reachable] is checked against, and
    [lifecycle_step] the step relation whose reachable states the safety
    theorems quantify over. *)

From S2P Require Import Prelude GoStrings.

(** ** Data *)

(** Every sentinel of package payments ([errors.New] at package level), and
    the two anonymous errors of [Acquire]. *)
Inductive pay_error : Type :=
| ErrInvalidTransition
| ErrInvalidAmount | ErrNotQuantized
| ErrHeld (holder : string) (expiresAt : Z) | ErrHoldExpired | ErrHoldNotOwner
| ErrHoldFields | ErrHoldToken
| ErrNotRefundable | ErrRefundExceeds | ErrRefundCurrency | ErrIdempotencyConflict
| ErrTenderMismatch | ErrLinesMismatch | ErrExceedsTotal | ErrNothingDue
| ErrInvalidTolerance | ErrNegativeAmount | ErrKeyRequired
| ErrUntrustedConfirmation.

#[export] Instance pay_error_eq_dec : EqDecision pay_error.
Proof. solve_decision. Defined.

(** [type Channel string]; [ChannelOther] is any other string. *)
Inductive Channel : Type :=
| ChannelTerminal | ChannelOnline | ChannelQR | ChannelLink | ChannelCash
| ChannelOther (s : string).

#[export] Instance Channel_eq_dec : EqDecision Channel.
Proof. solve_decision. Defined.

Definition channel_Valid (c : Channel) : bool :=
  match c with ChannelOther _ => false | _ => true end.
Definition InPerson (c : Channel) : bool :=
  match c with ChannelTerminal | ChannelCash => true | _ => false end.

(** [type Status string]; [StatusOther] is any string that is not one of the
    eleven constants (the empty string included). *)
Inductive Status : Type :=
| StatusPending | StatusRequiresAction | StatusAtDevice | StatusAuthorized | StatusPaid
| StatusFailed | StatusCancelling | StatusCancelled | StatusExpired
| StatusRefunded | StatusPartiallyRefunded
| StatusOther (s : string).

#[export] Instance Status_eq_dec : EqDecision Status.
Proof. solve_decision. Defined.

Definition Statuses : list Status :=
  [StatusPending; StatusRequiresAction; StatusAuthorized; StatusPaid; StatusFailed;
   StatusCancelled; StatusExpired; StatusRefunded; StatusPartiallyRefunded;
   StatusAtDevice; StatusCancelling].

(** The wire form, [string(status)]. *)
Definition status_string (s : Status) : string :=
  match s with
  | StatusPending => "pending" | StatusRequiresAction => "requires_action"
  | StatusAtDevice => "at_device" | StatusAuthorized => "authorized"
  | StatusPaid => "paid" | StatusFailed => "failed" | StatusCancelling => "cancelling"
  | StatusCancelled => "cancelled" | StatusExpired => "expired"
  | StatusRefunded => "refunded" | StatusPartiallyRefunded => "partially_refunded"
  | StatusOther s => s
  end.

Definition status_Valid (s : Status) : bool := existsb (fun k => bool_decide (k = s)) Statuses.

Definition Open (s : Status) : bool :=
  match s with
  | StatusPending | StatusRequiresAction | StatusAtDevice | StatusAuthorized | StatusCancelling => true
  | _ => false
  end.

Definition Captured (s : Status) : bool :=
  match s with StatusPaid | StatusPartiallyRefunded | StatusRefunded => true | _ => false end.

Definition Counts (s : Status) : bool :=
  match s with StatusPaid | StatusPartiallyRefunded => true | _ => false end.

(** The [transitions] map; a missing key reads nil. *)
Definition transitions (s : Status) : list Status :=
  match s with
  | StatusPending =>
      [StatusRequiresAction; StatusAtDevice; StatusAuthorized; StatusPaid; StatusFailed;
       StatusCancelling; StatusCancelled; StatusExpired]
  | StatusRequiresAction =>
      [StatusPending; StatusAuthorized; StatusPaid; StatusFailed; StatusCancelling;
       StatusCancelled; StatusExpired]
  | StatusAtDevice =>
      [StatusAuthorized; StatusPaid; StatusFailed; StatusCancelling; StatusCancelled; StatusExpired]
  | StatusAuthorized =>
      [StatusPaid; StatusFailed; StatusCancelling; StatusCancelled; StatusExpired]
  | StatusCancelling =>
      [StatusCancelled; StatusPaid; StatusAuthorized; StatusAtDevice; StatusFailed; StatusExpired]
  | StatusPaid => [StatusPartiallyRefunded; StatusRefunded]
  | StatusPartiallyRefunded => [StatusPartiallyRefunded; StatusRefunded]
  | StatusFailed | StatusCancelled | StatusExpired | StatusRefunded | StatusOther _ => []
  end.

Definition Final (s : Status) : bool := bool_decide (length (transitions s) = 0%nat).
Definition Next (s : Status) : list Status := transitions s.

Definition CanTransition (from to : Status) : bool :=
  existsb (fun n => bool_decide (n = to)) (transitions from).

Definition Transition (from to : Status) : result pay_error unit :=
  _ ← require (negb (negb (status_Valid from) || negb (status_Valid to))) ErrInvalidTransition;
  require (CanTransition from to) ErrInvalidTransition.

Definition Command (channel : Channel) (from to : Status) : result pay_error unit :=
  _ ← Transition from to;
  if bool_decide (channel = ChannelCash) then Ok tt
  else require (bool_decide (to = StatusCancelling)) ErrInvalidTransition.

(** [openRank]: a missing key reads 0. *)
Definition openRank (s : Status) : Z :=
  match s with
  | StatusPending => 0 | StatusRequiresAction => 1 | StatusAtDevice => 1
  | StatusAuthorized => 2 | StatusCancelling => 3
  | _ => 0
  end.

Definition advances (from to : Status) : bool :=
  if negb (CanTransition from to) then false
  else if bool_decide (from = StatusCancelling) then true
  else if Open from && Open to && (openRank to <=? openRank from) then false
  else true.

(** The inner loop of [Reachable] over the successors of [cur]: [None] is
    [return true], otherwise the new [seen] and [queue]. *)
Fixpoint visit (cur to : Status) (ns seen queue : list Status) : option (list Status * list Status) :=
  match ns with
  | [] => Some (seen, queue)
  | n :: ns =>
      if negb (advances cur n) then visit cur to ns seen queue
      else if bool_decide (n = to) then None
      else if bool_decide (n ∈ seen) || bool_decide (n = StatusCancelling)
      then visit cur to ns seen queue
      else visit cur to ns (n :: seen) (queue ++ [n])
  end.

(** The outer loop; [None] when the fuel runs out (it never does:
    [Reachable_terminates]). *)
Fixpoint bfs (fuel : nat) (to : Status) (seen queue : list Status) : option bool :=
  match queue with
  | [] => Some false
  | cur :: queue =>
      match fuel with
      | O => None
      | S fuel =>
          match visit cur to (transitions cur) seen queue with
          | None => Some true
          | Some (seen, queue) => bfs fuel to seen queue
          end
      end
  end.

Definition bfs_fuel : nat := 11.
Definition Reachable (from to : Status) : bool := default false (bfs bfs_fuel to [from] [from]).
#[global] Arguments Reachable : simpl never.
#[global] Arguments status_Valid : simpl never.

Inductive ObserveDecision : Type := Apply | Ignore | Anomaly.
#[export] Instance ObserveDecision_eq_dec : EqDecision ObserveDecision.
Proof. solve_decision. Defined.

Inductive Reason : Type :=
| NoReason | ReasonDuplicate | ReasonStale | ReasonLateCapture | ReasonCaptureReversed
| ReasonRefundReversed | ReasonUnknownStatus
| ReasonAmountMismatch | ReasonCurrencyMismatch | ReasonProviderRefMismatch | ReasonInvalidOutcome.
#[export] Instance Reason_eq_dec : EqDecision Reason.
Proof. solve_decision. Defined.

Record Observation := mkObservation { oDecision : ObserveDecision; oReason : Reason }.
#[export] Instance Observation_eq_dec : EqDecision Observation.
Proof. solve_decision. Defined.

Definition gaveUp (s : Status) : bool :=
  match s with StatusFailed | StatusCancelled | StatusExpired => true | _ => false end.

Definition Observe (stored observed : Status) : Observation :=
  if negb (status_Valid observed) || negb (status_Valid stored) then
    mkObservation Anomaly ReasonUnknownStatus
  else if bool_decide (stored = observed) && negb (bool_decide (stored = StatusPartiallyRefunded)) then
    mkObservation Ignore ReasonDuplicate
  else if Reachable stored observed then mkObservation Apply NoReason
  else if gaveUp stored && (bool_decide (observed = StatusAuthorized) || Captured observed) then
    mkObservation Anomaly ReasonLateCapture
  else if Open observed then mkObservation Ignore ReasonStale
  else if Captured stored && gaveUp observed then mkObservation Anomaly ReasonCaptureReversed
  else if Captured stored && Captured observed then mkObservation Anomaly ReasonRefundReversed
  else mkObservation Ignore ReasonStale.

(** ** Enumeration of the statuses *)

Lemma status_cases s : s ∈ Statuses \/ exists x, s = StatusOther x.
Proof. destruct s; [left; unfold Statuses; set_solver ..|right; eauto]. Qed.

Lemma status_Valid_spec s : status_Valid s = true <-> s ∈ Statuses.
Proof.
  unfold status_Valid. rewrite existsb_exists. setoid_rewrite bool_decide_eq_true.
  setoid_rewrite <- list_elem_of_In. naive_solver.
Qed.

(** A decidable property of pairs of statuses, checked on all of them. *)
Lemma forall_statuses2 (P : Status -> Status -> bool) :
  forallb (fun a => forallb (P a) Statuses) Statuses = true ->
  forall a b, a ∈ Statuses -> b ∈ Statuses -> P a b = true.
Proof.
  intros H a b Ha%list_elem_of_In Hb%list_elem_of_In.
  rewrite forallb_forall in H. specialize (H a Ha). rewrite forallb_forall in H. by apply H.
Qed.

Lemma CanTransition_elem from to : CanTransition from to = true <-> to ∈ transitions from.
Proof.
  unfold CanTransition. rewrite existsb_exists. setoid_rewrite bool_decide_eq_true.
  setoid_rewrite <- list_elem_of_In. naive_solver.
Qed.

Lemma transition_known from to : to ∈ transitions from -> from ∈ Statuses /\ to ∈ Statuses.
Proof.
  intros H. split.
  - destruct (status_cases from) as [|[x ->]]; [done|]. by apply not_elem_of_nil in H.
  - assert (transitions from ⊆ Statuses) as Hsub; [|by apply Hsub].
    destruct from; unfold Statuses; cbn; set_solver.
Qed.

Lemma advances_transition from to : advances from to = true -> to ∈ transitions from.
Proof.
  unfold advances. rewrite <- CanTransition_elem. by destruct (CanTransition from to).
Qed.

(** ** [Reachable] *)

(** What a provider re-read may do: one forward move, or several through
    statuses other than [cancelling]. *)
Inductive provider_path : Status -> Status -> Prop :=
| path_one a b : advances a b = true -> provider_path a b
| path_more a m b :
    provider_path a m -> m <> StatusCancelling -> advances m b = true -> provider_path a b.

Lemma visit_None cur to ns seen queue :
  visit cur to ns seen queue = None -> advances cur to = true.
Proof.
  revert seen queue. induction ns as [|n ns IH]; intros seen queue; cbn; [done|].
  destruct (advances cur n) eqn:E; cbn; [|apply IH].
  case_bool_decide; [by subst|]. destruct (_ || _); apply IH.
Qed.

Lemma visit_queue cur to ns seen queue seen' queue' x :
  visit cur to ns seen queue = Some (seen', queue') -> x ∈ queue' ->
  x ∈ queue \/ (advances cur x = true /\ x <> StatusCancelling).
Proof.
  revert seen queue. induction ns as [|n ns IH]; intros seen queue; cbn.
  { intros [= -> ->]. auto. }
  destruct (advances cur n) eqn:E; cbn; [|apply IH].
  case_bool_decide; [done|].
  destruct (bool_decide (n ∈ seen) || bool_decide (n = StatusCancelling)) eqn:Eb; [apply IH|].
  apply orb_false_iff in Eb as [_ Eb%bool_decide_eq_false].
  intros Hv Hx. destruct (IH _ _ Hv Hx) as [[?|Hx']%elem_of_app|?]; auto.
  apply list_elem_of_singleton in Hx' as ->. auto.
Qed.

Lemma bfs_sound fuel from to seen queue :
  (forall q, q ∈ queue -> q = from \/ (provider_path from q /\ q <> StatusCancelling)) ->
  bfs fuel to seen queue = Some true -> provider_path from to.
Proof.
  revert seen queue. induction fuel as [|fuel IH]; intros seen [|cur queue] Hq; cbn; try done.
  destruct (visit cur to (transitions cur) seen queue) as [[seen' queue']|] eqn:Ev.
  - apply IH. intros q Hin. destruct (visit_queue _ _ _ _ _ _ _ _ Ev Hin) as [?|[Ha Hn]].
    + apply Hq. set_solver.
    + right. split; [|done]. destruct (Hq cur) as [->|[Hp Hc]]; [set_solver|..].
      * by constructor.
      * by eapply path_more.
  - intros _. apply visit_None in Ev. destruct (Hq cur) as [->|[Hp Hc]]; [set_solver|..].
    + by constructor.
    + by eapply path_more.
Qed.

Lemma Reachable_sound from to : Reachable from to = true -> provider_path from to.
Proof.
  unfold Reachable. destruct (bfs bfs_fuel to [from] [from]) as [b|] eqn:E; cbn; [|done].
  intros ->. eapply bfs_sound; [|exact E]. intros q Hq. left. by apply list_elem_of_singleton in Hq.
Qed.

Lemma Reachable_one a b : advances a b = true -> Reachable a b = true.
Proof.
  intros H. destruct (transition_known _ _ (advances_transition _ _ H)) as [Ha Hb].
  enough (implb (advances a b) (Reachable a b) = true) as Hi by (rewrite H in Hi; exact Hi).
  clear H. revert a b Ha Hb. apply forall_statuses2. vm_compute. reflexivity.
Qed.

Lemma Reachable_more a m b :
  Reachable a m = true -> m <> StatusCancelling -> advances m b = true ->
  a ∈ Statuses -> Reachable a b = true.
Proof.
  intros Hr Hm Hadv Ha. destruct (transition_known _ _ (advances_transition _ _ Hadv)) as [Hm' Hb].
  enough (forallb (fun b => implb (Reachable a m && negb (bool_decide (m = StatusCancelling)) && advances m b)
            (Reachable a b)) Statuses = true) as Hall.
  { rewrite forallb_forall in Hall. specialize (Hall b). rewrite <- list_elem_of_In in Hall.
    specialize (Hall Hb). by rewrite Hr, Hadv, bool_decide_false in Hall. }
  clear Hr Hm Hadv Hb b. revert a m Ha Hm'. apply forall_statuses2. vm_compute. reflexivity.
Qed.

Lemma Reachable_complete from to : provider_path from to -> Reachable from to = true.
Proof.
  intros H. assert (from ∈ Statuses) as Hk.
  { induction H as [a b Hab|]; [|done]. by destruct (transition_known _ _ (advances_transition _ _ Hab)). }
  induction H; [by apply Reachable_one | eapply Reachable_more; eauto].
Qed.

Lemma Reachable_terminates from to : bfs bfs_fuel to [from] [from] <> None.
Proof.
  destruct (status_cases from) as [Hf|[x ->]]; [|done].
  destruct (status_cases to) as [Ht|[x ->]].
  - enough (bool_decide (bfs bfs_fuel to [from] [from] <> None) = true) by (by eapply bool_decide_eq_true).
    revert from to Hf Ht. apply forall_statuses2. vm_compute. reflexivity.
  - destruct from; vm_compute; discriminate.
Qed.

(** C39: the breadth-first search terminates on every pair of statuses and
    decides exactly the provider paths: one or more forward moves, never
    through [cancelling]. *)
Theorem Reachable_correct from to :
  bfs bfs_fuel to [from] [from] <> None /\ (Reachable from to = true <-> provider_path from to).
Proof.
  split; [apply Reachable_terminates|]. split; [apply Reachable_sound|apply Reachable_complete].
Qed.

(** ** The lifecycle *)

(** A move of a stored payment of one channel: a local command that
    [Command] accepts, or a provider re-read that [Observe] says to apply.
    (The ledger's audited correction of a confirmed anomaly is not a
    lifecycle move.) *)
Inductive lifecycle_step (ch : Channel) : Status -> Status -> Prop :=
| lifecycle_command from to : Command ch from to = Ok tt -> lifecycle_step ch from to
| lifecycle_provider from to : oDecision (Observe from to) = Apply -> lifecycle_step ch from to.

Lemma Transition_Ok from to u :
  Transition from to = Ok u <-> from ∈ Statuses /\ to ∈ Statuses /\ CanTransition from to = true.
Proof.
  unfold Transition. destruct u. rewrite require_bind_Ok, require_Ok, negb_true_iff, orb_false_iff,
    !negb_false_iff, !status_Valid_spec. naive_solver.
Qed.

Lemma Observe_Apply from to :
  oDecision (Observe from to) = Apply ->
  from ∈ Statuses /\ to ∈ Statuses /\ Reachable from to = true.
Proof.
  unfold Observe. rewrite <- !status_Valid_spec.
  destruct (status_Valid to), (status_Valid from); cbn [negb orb]; try done.
  repeat case_match; done.
Qed.

Lemma lifecycle_known ch from to : lifecycle_step ch from to -> from ∈ Statuses /\ to ∈ Statuses.
Proof.
  intros [a b Hc | a b Ho].
  - apply bind_Ok in Hc as ([] & (? & ? & _)%Transition_Ok & _). done.
  - apply Observe_Apply in Ho. tauto.
Qed.

(** One move, on every pair of statuses: captured money stays captured, and
    no move leaves a final status. *)
Definition move_safe (from to : Status) : bool :=
  implb (CanTransition from to || Reachable from to)
    (implb (Captured from) (Captured to) && implb (Final from) (bool_decide (from = to))).

Lemma move_safe_all from to : from ∈ Statuses -> to ∈ Statuses -> move_safe from to = true.
Proof. revert from to. apply forall_statuses2. vm_compute. reflexivity. Qed.

Lemma lifecycle_step_safe ch from to :
  lifecycle_step ch from to ->
  (Captured from = true -> Captured to = true) /\ (Final from = true -> from = to).
Proof.
  intros Hs. destruct (lifecycle_known _ _ _ Hs) as [Hf Ht].
  pose proof (move_safe_all from to Hf Ht) as Hsafe. unfold move_safe in Hsafe.
  assert (CanTransition from to || Reachable from to = true) as Hm.
  { destruct Hs as [a b Hc | a b Ho].
    - apply bind_Ok in Hc as ([] & (_ & _ & ->)%Transition_Ok & _). done.
    - apply Observe_Apply in Ho as (_ & _ & ->). apply orb_true_r. }
  rewrite Hm in Hsafe. cbn in Hsafe. apply andb_true_iff in Hsafe as [H1 H2].
  split; [by destruct (Captured from), (Captured to)|].
  intros HF. rewrite HF in H2. by apply bool_decide_eq_true in H2.
Qed.

(** Over any sequence of accepted commands and applied provider re-reads,
    on any channel, a captured payment stays captured and a final payment
    (failed, cancelled, expired, refunded) never changes. *)
Theorem lifecycle_safe ch from to :
  rtc (lifecycle_step ch) from to ->
  (Captured from = true -> Captured to = true) /\ (Final from = true -> to = from).
Proof.
  induction 1 as [s | a b c Hs _ [IH1 IH2]]; [done|].
  destruct (lifecycle_step_safe _ _ _ Hs) as [H1 H2]. split; [by auto|].
  intros HF. specialize (H2 HF). subst b. auto.
Qed.

Lemma lifecycle_safe_witness :
  rtc (lifecycle_step ChannelTerminal) StatusPaid StatusRefunded /\ Captured StatusRefunded = true.
Proof.
  assert (H : rtc (lifecycle_step ChannelTerminal) StatusPaid StatusRefunded).
  { eapply rtc_l; [apply (lifecycle_provider _ StatusPaid StatusPartiallyRefunded); vm_compute; reflexivity|].
    apply rtc_once. apply lifecycle_provider. vm_compute. reflexivity. }
  split; [exact H|]. apply (lifecycle_safe ChannelTerminal StatusPaid StatusRefunded H).
  reflexivity.
Defined.

(** Outside drawer cash, the only local command is to ask for a
    cancellation of an open payment; every other status, [cancelled]
    included, comes from the provider. *)
Theorem Command_provider_decides ch from to :
  ch <> ChannelCash -> Command ch from to = Ok tt -> to = StatusCancelling /\ Open from = true.
Proof.
  intros Hch (? & (Hf & _ & Ht)%Transition_Ok & H)%bind_Ok.
  rewrite bool_decide_false in H by done. apply require_Ok, bool_decide_eq_true in H as ->.
  split; [done|]. by destruct from.
Qed.

Lemma Command_provider_decides_witness :
  Command ChannelTerminal StatusAtDevice StatusCancelling = Ok tt /\ Open StatusAtDevice = true.
Proof.
  assert (H : Command ChannelTerminal StatusAtDevice StatusCancelling = Ok tt) by (vm_compute; reflexivity).
  split; [exact H|].
  apply (Command_provider_decides ChannelTerminal StatusAtDevice StatusCancelling); [discriminate|exact H].
Defined.

(** The classification on every pair of known statuses. *)
Definition observe_ok (stored observed : Status) : bool :=
  match oDecision (Observe stored observed) with
  | Apply => Reachable stored observed
  | Anomaly =>
      negb (Reachable stored observed) &&
      ((gaveUp stored && (bool_decide (observed = StatusAuthorized) || Captured observed))
       || (Captured stored && (gaveUp observed || Captured observed)))
  | Ignore => bool_decide (stored = observed) || negb (Captured observed || (Captured stored && gaveUp observed))
  end.

Lemma observe_ok_all stored observed :
  stored ∈ Statuses -> observed ∈ Statuses -> observe_ok stored observed = true.
Proof. revert stored observed. apply forall_statuses2. vm_compute. reflexivity. Qed.

(** [Observe] never loses money news. A re-read is applied only along a
    provider path; it is ignored only when it repeats the stored status or
    reports no capture and reverses none; every capture reported after the
    payment was given up, every capture or refund taken back, and every
    unknown status is an anomaly. *)
Theorem Observe_classifies stored observed :
  match oDecision (Observe stored observed) with
  | Apply => provider_path stored observed
  | Ignore =>
      stored = observed \/
      (Captured observed = false /\ (Captured stored = true -> gaveUp observed = false))
  | Anomaly =>
      ~ (stored ∈ Statuses /\ observed ∈ Statuses) \/
      (~ provider_path stored observed /\
       ((gaveUp stored = true /\ (observed = StatusAuthorized \/ Captured observed = true)) \/
        (Captured stored = true /\ (gaveUp observed = true \/ Captured observed = true))))
  end.
Proof.
  destruct (decide (stored ∈ Statuses /\ observed ∈ Statuses)) as [[Hs Ho]|Hno].
  - pose proof (observe_ok_all _ _ Hs Ho) as Hok. unfold observe_ok in Hok.
    destruct (oDecision (Observe stored observed)).
    + by apply Reachable_sound.
    + rewrite orb_true_iff, bool_decide_eq_true, negb_true_iff, orb_false_iff, andb_false_iff in Hok.
      destruct (Captured stored); naive_solver.
    + right. rewrite andb_true_iff, negb_true_iff, orb_true_iff, !andb_true_iff, !orb_true_iff,
        bool_decide_eq_true in Hok. destruct Hok as [Hr Hok]. split; [|done].
      intros Hp%Reachable_complete. congruence.
  - assert (Observe stored observed = mkObservation Anomaly ReasonUnknownStatus) as ->; [|by left].
    unfold Observe. destruct (status_Valid observed) eqn:E1; cbn; [|done].
    destruct (status_Valid stored) eqn:E2; cbn; [|done].
    apply status_Valid_spec in E1, E2. tauto.
Qed.
