(* ===== verification/PayAmount.v ===== *)
(** * Payments: exact amounts (payments/money.go, capability/schema.go)

    [Amount] wraps a [big.Rat]: a rational in lowest terms, modelled as [Q]
    with every operation followed by [Qred].  Equality of amounts as
    numbers is then Leibniz equality ([amount_reduced]); the theorems state
    values with [==] and use the setoid of [QArith]. *)

From Stdlib Require Import QArith Qreduction Qminmax Lqa.
From S2P Require Import Prelude GoStrings PayStatus.
From S2P Require MoneyIso.

Open Scope Z_scope.

Definition MaxScale : Z := 6.

(** ** capability.ValidDecimal and ValidCurrency *)

(** "0", or digits not starting with 0, on a maximal digit run. *)
Definition int_ok (int : string) : bool :=
  match int with
  | EmptyString => false
  | String c r => negb (Ascii.eqb c "0") || String.eqb r ""
  end.

(** Match [decimalRe]: an optional minus, an integer part without leading
    zeros, an optional dot with at least one digit, anchored at both ends.
    The sign, the integer digits and the fraction digits (the empty string
    when there is no fraction). *)
Definition match_decimal (s : string) : option (bool * string * string) :=
  let '(neg, rest) :=
    match s with
    | String c r => if Ascii.eqb c "-" then (true, r) else (false, s)
    | EmptyString => (false, s)
    end in
  let '(int, rest) := span is_digit rest in
  if negb (int_ok int) then None else
  match rest with
  | EmptyString => Some (neg : bool, int, EmptyString)
  | String c r =>
      if Ascii.eqb c "." then
        let '(frac, rest) := span is_digit r in
        if negb (String.eqb frac "") && String.eqb rest "" then Some (neg, int, frac) else None
      else None
  end.

Definition ValidDecimal (s : string) : bool :=
  match match_decimal s with Some _ => true | None => false end.

(** [currencyRe]: three capital ASCII letters. *)
Definition ValidCurrency (s : string) : bool := (slen s =? 3) && str_forall is_upper s.

(** ** Amount *)

Definition Amount : Type := Q.

(** [n / 10^k], normalised. *)
Definition amount_of (n k : Z) : Amount := Qred (Qmake n (Z.to_pos (10 ^ k))).

Definition ParseAmount (s : string) : result pay_error Amount :=
  match match_decimal s with
  | None => Err ErrInvalidAmount
  | Some (neg, int, frac) =>
      if MaxScale <? slen frac then Err ErrInvalidAmount
      else let n := digits_Z (int +:+ frac) in
           Ok (amount_of (if neg : bool then - n else n) (slen frac))
  end.

Definition amount_zero : Amount := 0%Q.
Definition amount_Cmp (a b : Amount) : comparison := Qcompare a b.
Definition amount_Sign (a : Amount) : Z := Z.sgn (Qnum a).
Definition amount_Add (a b : Amount) : Amount := Qred (a + b).
Definition amount_Sub (a b : Amount) : Amount := Qred (a - b).
Definition amount_Mul (a b : Amount) : Amount := Qred (a * b).
Definition amount_Max (a b : Amount) : Amount :=
  match amount_Cmp a b with Lt => b | _ => a end.

(** [big.Rat.FloatString(6)]: long division with the last digit rounded half
    away from zero. *)
Definition float_parts (a : Amount) : bool * Z * Z :=
  let n := Z.abs (Qnum a) in let d := Z.pos (Qden a) in
  let q := n / d in
  let r := (n mod d) * 10 ^ MaxScale in
  let r' := r / d in
  let r' := if d <=? 2 * (r mod d) then r' + 1 else r' in
  let '(q, r') := if 10 ^ MaxScale <=? r' then (q + 1, r' - 10 ^ MaxScale) else (q, r') in
  (Qnum a <? 0, q, r').

(** Left-pad a digit string with zeros. *)
Definition zero_pad (width : Z) (s : string) : string :=
  str_repeat "0" (Z.to_nat (width - slen s)) +:+ s.

Definition float_int (a : Amount) : string :=
  let '(neg, q, _) := float_parts a in
  (if neg : bool then "-" else "") +:+ dec_string q.
Definition float_frac (a : Amount) : string :=
  let '(_, _, r) := float_parts a in zero_pad MaxScale (dec_string r).

(** [strings.TrimRight(s, "0")] on digits. *)
Fixpoint trim_zeros (s : string) : string :=
  match s with
  | EmptyString => EmptyString
  | String c r =>
      let t := trim_zeros r in
      if String.eqb t "" && Ascii.eqb c "0" then EmptyString else String c t
  end.

(** [Amount.String]: the dot of [FloatString] is never trimmed, so trimming
    the whole string is trimming the fraction. *)
Definition amount_String (a : Amount) : string :=
  let f := trim_zeros (float_frac a) in
  let f := if slen f <? 2 then f +:+ str_repeat "0" (Z.to_nat (2 - slen f)) else f in
  let s := float_int a +:+ String "." f in
  if String.eqb s "-0.00" then "0.00" else s.

(** [Amount.scale]. *)
Definition amount_scale (a : Amount) : Z := slen (trim_zeros (float_frac a)).

Fixpoint amount_Sum (total : Amount) (values : list string) : result pay_error Amount :=
  match values with
  | [] => Ok total
  | v :: vs => a ← ParseAmount v; amount_Sum (amount_Add total a) vs
  end.
Definition Sum (values : list string) : result pay_error Amount := amount_Sum amount_zero values.

(** ** Currencies *)

Definition minorUnits : gmap string Z := list_to_map
  [("BIF", 0); ("CLP", 0); ("DJF", 0); ("GNF", 0); ("ISK", 0); ("JPY", 0); ("KMF", 0); ("KRW", 0);
   ("PYG", 0); ("RWF", 0); ("UGX", 0); ("UYI", 0); ("VND", 0); ("VUV", 0); ("XAF", 0); ("XOF", 0);
   ("XPF", 0); ("BHD", 3); ("IQD", 3); ("JOD", 3); ("KWD", 3); ("LYD", 3); ("OMR", 3); ("TND", 3);
   ("CLF", 4); ("UYW", 4)]%string.

Definition MinorUnits (currency : string) : Z :=
  default 2 (minorUnits !! MoneyIso.ToUpper (TrimSpace currency)).

Definition CheckQuantized (a : Amount) (currency : string) : result pay_error unit :=
  require (negb (MinorUnits currency <? amount_scale a)) ErrNotQuantized.

Definition ParseMoney (s currency : string) : result pay_error Amount :=
  a ← ParseAmount s;
  _ ← require (ValidCurrency currency) ErrInvalidAmount;
  _ ← CheckQuantized a currency;
  Ok a.

(** [MinorUnit]: "1", or "0." followed by zeros and a 1. *)
Definition MinorUnit (currency : string) : Amount :=
  let n := MinorUnits currency in
  if n =? 0 then amount_of 1 0 else amount_of 1 n.

(** ** Well-formed amounts *)

Definition amount_reduced (a : Amount) : Prop := Qred a = a.
(** [a] is a whole number of 10^-k. *)
Definition decimals (k : Z) (a : Amount) : Prop := exists n, (a == Qmake n (Z.to_pos (10 ^ k)))%Q.
Definition amount_wf (a : Amount) : Prop := amount_reduced a /\ decimals MaxScale a.

Example string_1499 : amount_String (amount_of 149900 2) = "1499.00"%string.
Proof. vm_compute. reflexivity. Qed.
Example string_0825 : amount_String (amount_of 825 4) = "0.0825"%string.
Proof. vm_compute. reflexivity. Qed.
Example parse_neg : ParseAmount "-0.50" = Ok (-1 # 2)%Q.
Proof. vm_compute. reflexivity. Qed.
Example quantized_mxn : ParseMoney "10.005" "MXN" = Err ErrNotQuantized.
Proof. vm_compute. reflexivity. Qed.

(** ** Rational lemmas *)

Lemma Qle_not_lt_iff a b : ~ (b < a)%Q <-> (a <= b)%Q.
Proof. split; [apply Qnot_lt_le|apply Qle_not_lt]. Qed.

Lemma pos_pow10 k : 0 <= k -> Z.pos (Z.to_pos (10 ^ k)) = 10 ^ k.
Proof. intros Hk. apply Z2Pos.id. by apply Z.pow_pos_nonneg. Qed.

Lemma Qred_involutive q : Qred (Qred q) = Qred q.
Proof. apply Qred_complete, Qred_correct. Qed.

Lemma amount_of_value n k : (amount_of n k == Qmake n (Z.to_pos (10 ^ k)))%Q.
Proof. apply Qred_correct. Qed.

Lemma amount_of_reduced n k : amount_reduced (amount_of n k).
Proof. apply Qred_involutive. Qed.

Lemma amount_reduced_eq a b : amount_reduced a -> amount_reduced b -> (a == b)%Q -> a = b.
Proof.
  intros Ha Hb H. unfold amount_reduced in *. rewrite <- Ha, <- Hb. by apply Qred_complete.
Qed.

Lemma decimals_eq k n a :
  0 <= k -> (a == Qmake n (Z.to_pos (10 ^ k)))%Q <-> Qnum a * 10 ^ k = n * Z.pos (Qden a).
Proof. intros Hk. unfold Qeq. cbn [Qnum Qden]. by rewrite pos_pow10. Qed.

Lemma decimals_mono j k a : 0 <= j <= k -> decimals j a -> decimals k a.
Proof.
  intros Hj [n Hn]. exists (n * 10 ^ (k - j)). rewrite decimals_eq in Hn |- * by lia.
  replace k with (j + (k - j)) at 1 by lia. rewrite Z.pow_add_r by lia.
  rewrite Z.mul_assoc, Hn. ring.
Qed.

#[export] Instance decimals_Proper k : Proper (Qeq ==> iff) (decimals k).
Proof. intros a b H. unfold decimals. by setoid_rewrite H. Qed.

Lemma decimals_add k a b : 0 <= k -> decimals k a -> decimals k b -> decimals k (a + b)%Q.
Proof.
  intros Hk [n Hn] [m Hm]. exists (n + m). rewrite Hn, Hm. unfold Qeq, Qplus.
  cbn [Qnum Qden]. rewrite Pos2Z.inj_mul, pos_pow10 by done. ring.
Qed.

Lemma decimals_opp k a : decimals k a -> decimals k (- a)%Q.
Proof. intros [n Hn]. exists (- n). rewrite Hn. unfold Qeq, Qopp. cbn [Qnum Qden]. ring. Qed.

Lemma amount_of_wf n k : 0 <= k <= MaxScale -> amount_wf (amount_of n k).
Proof.
  intros Hk. split; [apply amount_of_reduced|]. apply (decimals_mono k); [done|].
  exists n. apply amount_of_value.
Qed.

Lemma amount_Add_wf a b : amount_wf a -> amount_wf b -> amount_wf (amount_Add a b).
Proof.
  intros [_ Ha] [_ Hb]. split; [apply Qred_involutive|]. unfold amount_Add.
  rewrite Qred_correct. by apply decimals_add.
Qed.

Lemma amount_Sub_wf a b : amount_wf a -> amount_wf b -> amount_wf (amount_Sub a b).
Proof.
  intros [_ Ha] [_ Hb]. split; [apply Qred_involutive|]. unfold amount_Sub.
  rewrite Qred_correct. by apply decimals_add, decimals_opp.
Qed.

Lemma amount_Max_wf a b : amount_wf a -> amount_wf b -> amount_wf (amount_Max a b).
Proof. unfold amount_Max. by destruct (amount_Cmp a b). Qed.

Lemma amount_zero_wf : amount_wf amount_zero.
Proof. split; [done|]. by exists 0. Qed.

Lemma amount_Add_value a b : (amount_Add a b == a + b)%Q.
Proof. apply Qred_correct. Qed.
Lemma amount_Sub_value a b : (amount_Sub a b == a - b)%Q.
Proof. apply Qred_correct. Qed.
Lemma amount_Cmp_Gt a b : amount_Cmp a b = Gt <-> (b < a)%Q.
Proof. unfold amount_Cmp. symmetry. apply Qgt_alt. Qed.
Lemma amount_Cmp_Lt a b : amount_Cmp a b = Lt <-> (a < b)%Q.
Proof. unfold amount_Cmp. symmetry. apply Qlt_alt. Qed.
Lemma amount_Cmp_Eq a b : amount_Cmp a b = Eq <-> (a == b)%Q.
Proof. unfold amount_Cmp. symmetry. apply Qeq_alt. Qed.
Lemma amount_Max_value a b : (amount_Max a b == Qminmax.Qmax a b)%Q.
Proof.
  unfold amount_Max. destruct (amount_Cmp a b) eqn:E.
  - apply amount_Cmp_Eq in E. rewrite E. by rewrite Qminmax.Q.max_id.
  - apply amount_Cmp_Lt in E. symmetry. apply Qminmax.Q.max_r, Qlt_le_weak, E.
  - apply amount_Cmp_Gt in E. symmetry. apply Qminmax.Q.max_l, Qlt_le_weak, E.
Qed.
Lemma amount_Sign_pos a : 0 < amount_Sign a <-> (0 < a)%Q.
Proof. unfold amount_Sign, Qlt. cbn [Qnum Qden]. destruct (Qnum a); cbn; lia. Qed.
Lemma amount_Sign_nonneg a : 0 <= amount_Sign a <-> (0 <= a)%Q.
Proof. unfold amount_Sign, Qle. cbn [Qnum Qden]. destruct (Qnum a); cbn; lia. Qed.

(** ** Parsing *)

Definition amount_literal (neg : bool) (int frac : string) : Prop :=
  int_ok int = true /\ str_forall is_digit int = true /\ str_forall is_digit frac = true.

Lemma int_ok_nonempty int : int_ok int = true -> int <> ""%string.
Proof. by intros H ->. Qed.

(** The printed forms of [decimalRe]. *)
Lemma match_decimal_frac (neg : bool) int frac :
  amount_literal neg int frac -> frac <> ""%string ->
  match_decimal ((if neg then "-" else "") +:+ int +:+ String "." frac) = Some (neg, int, frac).
Proof.
  intros (Hok & Hi & Hf) Hne. unfold match_decimal.
  assert (Hs : (let '(i, rest) := span is_digit (int +:+ String "." frac) in
    if negb (int_ok i) then None else
    match rest with
    | EmptyString => Some (neg, i, EmptyString)
    | String c r =>
        if Ascii.eqb c "." then
          let '(f, rest) := span is_digit r in
          if negb (String.eqb f "") && String.eqb rest "" then Some (neg, i, f) else None
        else None
    end) = Some (neg, int, frac)).
  { rewrite span_app by done. rewrite Hok. cbn [negb Ascii.eqb].
    rewrite span_all by done. destruct frac; [done|]. reflexivity. }
  destruct neg.
  - cbn [String.append Ascii.eqb Bool.eqb]. exact Hs.
  - cbn [String.append]. destruct int as [|c int]; [done|]. cbn [String.append].
    assert (Ascii.eqb c "-" = false) as ->.
    { cbn in Hi. apply andb_true_iff in Hi as [Hc _].
      destruct (Ascii.eqb_spec c "-"); [by subst|done]. }
    exact Hs.
Qed.

Lemma match_decimal_sound s neg int frac :
  match_decimal s = Some (neg, int, frac) -> amount_literal neg int frac.
Proof.
  unfold match_decimal.
  destruct (match s with String c r => if Ascii.eqb c "-" then (true, r) else (false, s)
            | EmptyString => (false, s) end) as [ng rest].
  destruct (span is_digit rest) as [i rest'] eqn:E1.
  apply span_spec in E1 as (_ & Hi & _).
  destruct (int_ok i) eqn:Hok; cbn; [|done].
  destruct rest' as [|c r].
  - intros [= <- <- <-]. by split_and!.
  - destruct (Ascii.eqb c "."); [|done].
    destruct (span is_digit r) as [f rest''] eqn:E2. apply span_spec in E2 as (_ & Hf & _).
    destruct (_ && _); [|done]. intros [= <- <- <-]. by split_and!.
Qed.

Lemma ParseAmount_wf s a : ParseAmount s = Ok a -> amount_wf a.
Proof.
  unfold ParseAmount. destruct (match_decimal s) as [[[neg int] frac]|]; [|done].
  destruct (Z.ltb_spec MaxScale (slen frac)); [done|]. intros [= <-].
  apply amount_of_wf. pose proof (slen_nonneg frac). lia.
Qed.

Lemma Sum_wf values a : Sum values = Ok a -> amount_wf a.
Proof.
  unfold Sum. generalize amount_zero_wf. generalize amount_zero.
  induction values as [|v vs IH]; intros t Ht; cbn; [by intros [= ->]|].
  intros (b & Hb & H)%bind_Ok. apply IH in H; [done|].
  apply amount_Add_wf; [done|]. by eapply ParseAmount_wf.
Qed.

(** ** Printing *)

Lemma float_parts_decimals a n :
  (a == Qmake n (Z.to_pos (10 ^ MaxScale)))%Q ->
  float_parts a = (n <? 0, Z.abs n / 10 ^ MaxScale, Z.abs n mod 10 ^ MaxScale).
Proof.
  rewrite decimals_eq by done. intros E. unfold float_parts.
  set (d := Z.pos (Qden a)) in *. set (T := 10 ^ MaxScale) in *.
  assert (HT : 0 < T) by reflexivity. assert (Hd : 0 < d) by reflexivity.
  assert (Habs : Z.abs (Qnum a) * T = Z.abs n * d).
  { transitivity (Z.abs (Qnum a * T)); [rewrite Z.abs_mul, (Z.abs_eq T); lia|].
    rewrite E, Z.abs_mul, (Z.abs_eq d); lia. }
  assert (Hq : Z.abs (Qnum a) / d = Z.abs n / T).
  { rewrite <- (Z.div_mul_cancel_r (Z.abs (Qnum a)) d T) by lia.
    rewrite Habs, (Z.mul_comm d T). apply Z.div_mul_cancel_r; lia. }
  assert (Hr : (Z.abs (Qnum a) mod d) * T = (Z.abs n mod T) * d).
  { rewrite !Z.mod_eq by lia. rewrite Hq.
    transitivity (Z.abs (Qnum a) * T - d * (Z.abs n / T) * T); [ring|]. rewrite Habs. ring. }
  rewrite Hr, Hq, Z.mod_mul, Z.div_mul by lia.
  destruct (Z.leb_spec d (2 * 0)); [lia|].
  pose proof (Z.mod_pos_bound (Z.abs n) T HT).
  destruct (Z.leb_spec T (Z.abs n mod T)); [lia|].
  f_equal; f_equal. destruct (Z.ltb_spec (Qnum a) 0), (Z.ltb_spec n 0); nia.
Qed.

Lemma trim_zeros_spec s : exists m, s = trim_zeros s +:+ str_repeat "0" m.
Proof.
  induction s as [|c s [m IH]]; [by exists O|]. cbn.
  destruct (String.eqb_spec (trim_zeros s) "") as [E|]; cbn.
  - destruct (Ascii.eqb_spec c "0") as [->|]; cbn.
    + exists (S m). rewrite E in IH. cbn in *. by rewrite IH at 1.
    + exists m. by rewrite IH at 1.
  - exists m. by rewrite IH at 1.
Qed.

(** Trimming leaves no zero at the end. *)
Lemma trim_zeros_last s n :
  str_forall is_digit s = true -> 1 <= n <= slen (trim_zeros s) ->
  digits_Z (trim_zeros s) mod 10 ^ n <> 0.
Proof.
  revert n. induction s as [|c s IH]; intros n; cbn [str_forall trim_zeros].
  { change (slen "") with 0. lia. }
  intros [Hc Hs]%andb_true_iff Hn.
  destruct (String.eqb_spec (trim_zeros s) "") as [E|E]; cbn [andb] in *.
  - destruct (Ascii.eqb_spec c "0") as [->|Hz]; cbn [andb] in *.
    { change (slen "") with 0 in Hn. lia. }
    rewrite E in *. change (slen (String c "")) with 1 in Hn. assert (n = 1) as -> by lia.
    unfold digits_Z. cbn [digits_acc]. apply is_digit_val in Hc as Hv.
    assert (digit_val c <> 0).
    { intros H0. apply Hz. unfold digit_val, byte in H0.
      rewrite <- (ascii_N_embedding c). replace (N_of_ascii c) with 48%N by lia. reflexivity. }
    change (10 ^ 1) with 10. zlia.
  - rewrite slen_cons in Hn. rewrite digits_Z_cons.
    assert (1 <= slen (trim_zeros s)).
    { pose proof (slen_nonneg (trim_zeros s)). rewrite <- slen_zero in E. lia. }
    intros Hz. apply (IH 1); [done|lia|].
    rewrite Z.mod_divide in Hz |- * by lia. destruct Hz as [k Hk].
    replace (slen (trim_zeros s)) with (1 + (slen (trim_zeros s) - 1)) in Hk by lia.
    replace n with (1 + (n - 1)) in Hk by lia. rewrite !Z.pow_add_r in Hk by lia.
    exists (k * 10 ^ (n - 1) - digit_val c * 10 ^ (slen (trim_zeros s) - 1)). lia.
Qed.

Lemma zero_pad_spec w r :
  0 <= r < 10 ^ w -> 1 <= w ->
  str_forall is_digit (zero_pad w (dec_string r)) = true /\
  digits_Z (zero_pad w (dec_string r)) = r /\ slen (zero_pad w (dec_string r)) = w.
Proof.
  intros Hr Hw. unfold zero_pad.
  destruct (dec_string_spec r) as (Hd & Hv & _); [lia|].
  pose proof (dec_string_length r w Hr Hw).
  rewrite str_forall_app, digits_Z_app, slen_app, slen_repeat, digits_Z_repeat, Hd, Hv.
  rewrite str_forall_repeat by done. split_and!; [done|lia|].
  rewrite Z2Nat.id by lia. lia.
Qed.

(** The parts of the printed form of a whole number of millionths: the
    trimmed fraction [t] and the number of zeros dropped. *)
Lemma frac_spec a n :
  (a == Qmake n (Z.to_pos (10 ^ MaxScale)))%Q ->
  let t := trim_zeros (float_frac a) in
  str_forall is_digit t = true /\ slen t <= MaxScale /\
  digits_Z t * 10 ^ (MaxScale - slen t) = Z.abs n mod 10 ^ MaxScale.
Proof.
  intros Hn t. subst t. unfold float_frac. rewrite (float_parts_decimals a n Hn).
  destruct (zero_pad_spec MaxScale (Z.abs n mod 10 ^ MaxScale)) as (Hd & Hv & Hl).
  { apply Z.mod_pos_bound. reflexivity. }
  { done. }
  set (f := zero_pad _ _) in *. destruct (trim_zeros_spec f) as [m Hm].
  set (t := trim_zeros f) in *. rewrite Hm in Hd, Hv, Hl.
  rewrite str_forall_app in Hd. apply andb_true_iff in Hd as [Hd _].
  rewrite slen_app, slen_repeat in Hl. rewrite digits_Z_app, slen_repeat, digits_Z_repeat in Hv.
  split_and!; [done|lia|]. replace (MaxScale - slen t) with (Z.of_nat m) by lia. lia.
Qed.

Lemma int_ok_dec n : 0 <= n -> int_ok (dec_string n) = true.
Proof.
  intros Hn. destruct (dec_string_spec n Hn) as (Hd & Hv & Hl & Hmin).
  destruct (dec_string n) as [|c r]; [done|]. cbn in Hd |- *.
  apply andb_true_iff in Hd as [_ Hd]. pose proof (digits_Z_bound r Hd) as Hb.
  rewrite slen_cons in Hl, Hmin.
  destruct (Ascii.eqb_spec c "0") as [->|]; [|done]. cbn.
  destruct (String.eqb_spec r "") as [|Hne]; [done|]. exfalso.
  rewrite <- slen_zero in Hne. rewrite digits_Z_cons in Hv.
  replace (1 + slen r - 1) with (slen r) in Hmin by lia.
  change (digit_val "0") with 0 in Hv. destruct Hmin; lia.
Qed.

Lemma amount_String_parse a : amount_wf a -> ParseAmount (amount_String a) = Ok a.
Proof.
  intros [Hred [n Hn]]. unfold amount_String.
  destruct (frac_spec a n Hn) as (Htd & Htl & Htv). set (t := trim_zeros (float_frac a)) in *.
  set (f := if slen t <? 2 then _ else t).
  assert (Hf : str_forall is_digit f = true /\ 2 <= slen f <= MaxScale /\
    digits_Z f * 10 ^ (MaxScale - slen f) = Z.abs n mod 10 ^ MaxScale).
  { subst f. pose proof (slen_nonneg t). destruct (Z.ltb_spec (slen t) 2); [|by split_and!].
    rewrite str_forall_app, digits_Z_app, slen_app, slen_repeat, digits_Z_repeat, Htd.
    rewrite str_forall_repeat, Z2Nat.id by (done || lia).
    split_and!; [done|lia|unfold MaxScale; lia|]. rewrite <- Htv, Z.add_0_r, <- Z.mul_assoc.
    rewrite <- Z.pow_add_r by (unfold MaxScale; lia). f_equal. f_equal. lia. }
  clearbody f. clear Htd Htl Htv t. destruct Hf as (Hfd & Hfl & Hfv).
  unfold float_int. rewrite (float_parts_decimals a n Hn). set (q := Z.abs n / 10 ^ MaxScale).
  assert (Hq : 0 <= q) by (apply Z.div_pos; [lia|reflexivity]).
  rewrite str_app_assoc. set (s := _ +:+ (_ +:+ String "." f)).
  assert (Hs : ParseAmount s = Ok a).
  { unfold ParseAmount, s. destruct (dec_string_spec q Hq) as (Hqd & Hqv & _).
    rewrite match_decimal_frac.
    2:{ by split_and!; [apply int_ok_dec| |]. }
    2:{ intros ->. change (slen "") with 0 in Hfl. lia. }
    destruct (Z.ltb_spec MaxScale (slen f)); [lia|]. f_equal.
    apply amount_reduced_eq; [apply amount_of_reduced|done|].
    rewrite amount_of_value, Hn, decimals_eq by done. cbn [Qnum Qden].
    rewrite pos_pow10 by lia. rewrite digits_Z_app, Hqv.
    assert (Habs : Z.abs n = (q * 10 ^ slen f + digits_Z f) * 10 ^ (MaxScale - slen f)).
    { rewrite Z.mul_add_distr_r, Hfv, <- Z.mul_assoc, <- Z.pow_add_r by lia.
      replace (slen f + (MaxScale - slen f)) with MaxScale by lia.
      subst q. pose proof (Z.div_mod (Z.abs n) (10 ^ MaxScale)) as Hdm. lia. }
    replace (10 ^ MaxScale) with (10 ^ (MaxScale - slen f) * 10 ^ slen f)
      by (rewrite <- Z.pow_add_r by lia; f_equal; lia).
    destruct (Z.ltb_spec n 0); nia. }
  destruct (String.eqb_spec s "-0.00") as [E|]; [|done].
  rewrite E in Hs. vm_compute in Hs. injection Hs as <-. reflexivity.
Qed.

(** An amount with at most six decimals, which is every amount parsed
    from the wire or obtained from such amounts by [Add], [Sub], [Max] and
    [Sum], prints to a string that parses back to the same amount: the wire
    form loses nothing. *)
Theorem amount_roundtrip s values a b :
  ParseAmount s = Ok a -> Sum values = Ok b ->
  Forall (fun x => amount_wf x /\ ParseAmount (amount_String x) = Ok x)
    [a; b; amount_Add a b; amount_Sub a b; amount_Max a b].
Proof.
  intros Ha%ParseAmount_wf Hb%Sum_wf.
  assert (Forall amount_wf [a; b; amount_Add a b; amount_Sub a b; amount_Max a b]) as H.
  { auto 10 using Forall_cons_2, Forall_nil_2, amount_Add_wf, amount_Sub_wf, amount_Max_wf. }
  eapply Forall_impl; [exact H|]. intros x Hx. split; [exact Hx|]. by apply amount_String_parse.
Qed.

Lemma amount_roundtrip_witness :
  exists a b, ParseAmount "10.50" = Ok a /\ Sum ["-3.250001"; "0.10"]%string = Ok b /\
    Forall (fun x => amount_wf x /\ ParseAmount (amount_String x) = Ok x)
      [a; b; amount_Add a b; amount_Sub a b; amount_Max a b].
Proof.
  eexists _, _. split; [vm_compute; reflexivity|]. split; [vm_compute; reflexivity|].
  apply (amount_roundtrip "10.50" ["-3.250001"; "0.10"]%string); vm_compute; reflexivity.
Defined.

(** ** Quantization *)

Lemma amount_scale_spec a k :
  amount_wf a -> 0 <= k <= MaxScale -> amount_scale a <= k <-> decimals k a.
Proof.
  intros [Hred [n Hn]] Hk. unfold amount_scale.
  destruct (frac_spec a n Hn) as (Htd & Htl & Htv).
  set (T := 10 ^ MaxScale) in *.
  assert (HT : T = 10 ^ (MaxScale - k) * 10 ^ k)
    by (unfold T; rewrite <- Z.pow_add_r by lia; f_equal; lia).
  assert (Hp : 0 < 10 ^ (MaxScale - k)) by (apply Z.pow_pos_nonneg; lia).
  assert (Hiff : decimals k a <-> (10 ^ (MaxScale - k) | Z.abs n)).
  { rewrite Z.divide_abs_r. split.
    - intros [m Hm]. exists m. rewrite Hn, decimals_eq in Hm by lia. cbn [Qnum Qden] in Hm.
      change (Z.pos (Z.to_pos T)) with T in Hm. rewrite HT in Hm.
      assert (0 < 10 ^ k) by (apply Z.pow_pos_nonneg; lia). nia.
    - intros [m Hm]. exists m. rewrite Hn, decimals_eq by lia. cbn [Qnum Qden].
      change (Z.pos (Z.to_pos T)) with T. rewrite HT. rewrite Hm at 1. ring. }
  assert (Hmod : (10 ^ (MaxScale - k) | Z.abs n) <-> (10 ^ (MaxScale - k) | Z.abs n mod T)).
  { rewrite (Z.div_mod (Z.abs n) T) at 1 by done.
    split; intros H.
    - apply Z.divide_add_cancel_r with (T * (Z.abs n / T)); [|done].
      rewrite HT, <- !Z.mul_assoc. apply Z.divide_factor_l.
    - apply Z.divide_add_r; [|done]. rewrite HT, <- !Z.mul_assoc. apply Z.divide_factor_l. }
  rewrite Hiff, Hmod, <- Htv. set (t := trim_zeros (float_frac a)) in *. split.
  - intros Hle. replace (MaxScale - slen t) with ((k - slen t) + (MaxScale - k)) by lia.
    rewrite Z.pow_add_r by lia. rewrite Z.mul_assoc. apply Z.divide_factor_r.
  - intros Hdiv. destruct (Z.le_gt_cases (slen t) k) as [|Hgt]; [done|]. exfalso.
    assert (Hft : str_forall is_digit (float_frac a) = true).
    { unfold float_frac. rewrite (float_parts_decimals a n Hn).
      apply zero_pad_spec; [|done]. by apply Z.mod_pos_bound. }
    apply (trim_zeros_last (float_frac a) (slen t - k)); [done|fold t; lia|].
    fold t. apply Z.mod_divide; [lia|].
    apply (Z.mul_divide_cancel_r _ _ (10 ^ (MaxScale - slen t))); [lia|].
    rewrite <- Z.pow_add_r by lia. by replace (slen t - k + (MaxScale - slen t)) with (MaxScale - k) by lia.
Qed.

Lemma MinorUnits_bound cur : 0 <= MinorUnits cur <= 4.
Proof.
  unfold MinorUnits. destruct (minorUnits !! _) as [n|] eqn:E; cbn; [|lia].
  apply elem_of_list_to_map_2 in E.
  eapply (Forall_forall (fun p : string * Z => 0 <= p.2 <= 4)) in E; [exact E|].
  repeat constructor; cbn; lia.
Qed.

Lemma ParseMoney_Ok s cur a :
  ParseMoney s cur = Ok a <->
  ParseAmount s = Ok a /\ ValidCurrency cur = true /\ decimals (MinorUnits cur) a.
Proof.
  unfold ParseMoney, CheckQuantized. rewrite bind_Ok. split.
  - intros (x & Hx & H). rewrite !require_bind_Ok in H. destruct H as (Hc & Hq & [= ->]).
    split_and!; [done..|]. pose proof (MinorUnits_bound cur).
    apply amount_scale_spec; [by eapply ParseAmount_wf|unfold MaxScale; lia|].
    apply negb_true_iff, Z.ltb_ge in Hq. done.
  - intros (Hp & Hc & Hd). exists a. split; [done|]. rewrite !require_bind_Ok.
    split_and!; [done| |done]. pose proof (MinorUnits_bound cur).
    apply amount_scale_spec in Hd; [|by eapply ParseAmount_wf|unfold MaxScale; lia].
    by apply negb_true_iff, Z.ltb_ge.
Qed.

Lemma minorUnits_iso_rows :
  forallb (fun p : string * Z => MinorUnits p.1 =? p.2) MoneyIso.isoTable = true.
Proof. vm_compute. reflexivity. Qed.

Lemma MinorUnits_iso c sp : MoneyIso.ISO c = Some sp -> MinorUnits (MoneyIso.Code sp) = MoneyIso.MinorUnits sp.
Proof.
  unfold MoneyIso.ISO. destruct (MoneyIso.isoMinorUnits !! _) as [mu|] eqn:E; [|done].
  intros [= <-]. cbn. apply elem_of_list_to_map_2 in E. apply list_elem_of_In in E.
  pose proof minorUnits_iso_rows as H. rewrite forallb_forall in H. specialize (H _ E). by apply Z.eqb_eq in H.
Qed.

(** [ParseMoney] accepts exactly the amounts of the wire grammar, in a
    well-formed currency, that are a whole number of the currency's minor
    units; and for every ISO 4217 currency of package money those minor
    units are the ones package money uses. *)
Theorem ParseMoney_quantized s cur a sp :
  MoneyIso.ISO cur = Some sp -> cur = MoneyIso.Code sp ->
  ParseMoney s cur = Ok a <->
  ParseAmount s = Ok a /\ ValidCurrency cur = true /\
  exists n, (a == Qmake n (Z.to_pos (10 ^ MoneyIso.MinorUnits sp)))%Q.
Proof.
  intros Hsp ->. rewrite ParseMoney_Ok. unfold decimals. by rewrite (MinorUnits_iso _ _ Hsp).
Qed.

Lemma ParseMoney_quantized_witness :
  exists sp, MoneyIso.ISO "MXN" = Some sp /\
  (ParseMoney "10.50" "MXN" = Ok (21 # 2)%Q <->
   ParseAmount "10.50" = Ok (21 # 2)%Q /\ ValidCurrency "MXN" = true /\
   exists n, ((21 # 2) == Qmake n (Z.to_pos (10 ^ MoneyIso.MinorUnits sp)))%Q).
Proof.
  eexists. split; [vm_compute; reflexivity|].
  apply (ParseMoney_quantized "10.50" "MXN"); vm_compute; reflexivity.
Defined.

(** ** Comparisons as the code writes them *)

(** [a.Cmp(b) > 0], [a.Cmp(b) < 0] and [a.Cmp(b) != 0]. *)
Definition cmp_gt (a b : Amount) : bool := match amount_Cmp a b with Gt => true | _ => false end.
Definition cmp_lt (a b : Amount) : bool := match amount_Cmp a b with Lt => true | _ => false end.
Definition cmp_ne (a b : Amount) : bool := match amount_Cmp a b with Eq => false | _ => true end.

Lemma cmp_gt_spec a b : cmp_gt a b = true <-> (b < a)%Q.
Proof. unfold cmp_gt. rewrite <- amount_Cmp_Gt. destruct (amount_Cmp a b); naive_solver. Qed.
Lemma cmp_lt_spec a b : cmp_lt a b = true <-> (a < b)%Q.
Proof. unfold cmp_lt. rewrite <- amount_Cmp_Lt. destruct (amount_Cmp a b); naive_solver. Qed.
Lemma cmp_gt_false a b : cmp_gt a b = false <-> (a <= b)%Q.
Proof. rewrite <- not_true_iff_false, cmp_gt_spec. apply Qle_not_lt_iff. Qed.
Lemma cmp_lt_false a b : cmp_lt a b = false <-> (b <= a)%Q.
Proof. rewrite <- not_true_iff_false, cmp_lt_spec. apply Qle_not_lt_iff. Qed.
Lemma cmp_ne_false a b : cmp_ne a b = false <-> (a == b)%Q.
Proof. unfold cmp_ne. rewrite <- amount_Cmp_Eq. destruct (amount_Cmp a b); naive_solver. Qed.
Lemma cmp_ne_spec a b : cmp_ne a b = true <-> ~ (a == b)%Q.
Proof. rewrite <- cmp_ne_false. by destruct (cmp_ne a b). Qed.
Lemma sign_pos a : (0 <? amount_Sign a) = true <-> (0 < a)%Q.
Proof. rewrite Z.ltb_lt. apply amount_Sign_pos. Qed.
Lemma sign_nonpos a : (amount_Sign a <=? 0) = true <-> (a <= 0)%Q.
Proof. rewrite Z.leb_le. unfold amount_Sign, Qle. cbn. destruct (Qnum a); cbn; lia. Qed.
Lemma sign_nonpos_false a : (amount_Sign a <=? 0) = false <-> (0 < a)%Q.
Proof. rewrite Z.leb_gt. apply amount_Sign_pos. Qed.
Lemma sign_neg a : (amount_Sign a <? 0) = true <-> (a < 0)%Q.
Proof. rewrite Z.ltb_lt. unfold amount_Sign, Qlt. cbn. destruct (Qnum a); cbn; lia. Qed.
Lemma sign_neg_false a : (amount_Sign a <? 0) = false <-> (0 <= a)%Q.
Proof. rewrite Z.ltb_ge. apply amount_Sign_nonneg. Qed.
Lemma sign_zero a : (amount_Sign a =? 0) = true <-> (a == 0)%Q.
Proof. rewrite Z.eqb_eq. unfold amount_Sign, Qeq. cbn. destruct (Qnum a); cbn; lia. Qed.

(** Comparisons of amounts as inequalities of rationals. *)
Create Rewrite HintDb amount.
#[export] Hint Rewrite cmp_gt_spec cmp_lt_spec cmp_gt_false cmp_lt_false cmp_ne_false cmp_ne_spec
  sign_pos sign_nonpos sign_nonpos_false sign_neg sign_neg_false sign_zero : amount.
#[export] Hint Rewrite amount_Add_value amount_Sub_value amount_Max_value : amount.
Ltac amount_simpl := autorewrite with amount in *.
