(* ===== verification/PayHold.v ===== *)
(** * Payments: the document charge hold (payments/hold.go)

    The hold record, [Acquire], [CheckCharge], [Release] and [Consume], and
    the protocol a store runs with them: [hold_step] applies one call to the
    hold of one document.  Instants and durations are nanoseconds in [Z]
    ([time.Time.Add] does not wrap for the instants the code handles). *)

From S2P Require Import Prelude GoStrings PayStatus.

(** ** Data *)

Inductive HoldStatus : Type :=
| HoldActive | HoldReleased | HoldConsumed | HoldExpired | HoldOther (s : string).
#[export] Instance HoldStatus_eq_dec : EqDecision HoldStatus.
Proof. solve_decision. Defined.

Definition second : Z := 1000000000.
Definition DefaultHoldTTL : Z := 300 * second.
Definition MinHoldTTL : Z := 30 * second.
Definition MaxHoldTTL : Z := 3600 * second.

Definition ClampHoldTTL (d : Z) : Z :=
  if d <=? 0 then DefaultHoldTTL
  else if d <? MinHoldTTL then MinHoldTTL
  else if MaxHoldTTL <? d then MaxHoldTTL
  else d.

Definition MinHoldTokenLen : Z := 32.

Record Hold := mkHold {
  hDocumentType : string; hDocumentID : string;
  hToken : string; hHolder : string; hChannel : Channel; hUserID : string;
  hStatus : HoldStatus; hExpiresAt : Z
}.
#[export] Instance Hold_eq_dec : EqDecision Hold.
Proof. solve_decision. Defined.

Definition Live (h : Hold) (now : Z) : bool :=
  bool_decide (hStatus h = HoldActive) && (now <? hExpiresAt h).

(** [subtle.ConstantTimeCompare] returns 1 exactly on equal byte strings. *)
Definition Owns (h : Hold) (token : string) : bool :=
  negb (String.eqb token "") && String.eqb (hToken h) token.

Record HoldRequest := mkHoldRequest {
  rDocumentType : string; rDocumentID : string; rHolder : string;
  rChannel : Channel; rUserID : string; rToken : string; rTTL : Z
}.

Definition with_ExpiresAt (h : Hold) (e : Z) : Hold :=
  mkHold (hDocumentType h) (hDocumentID h) (hToken h) (hHolder h) (hChannel h) (hUserID h)
    (hStatus h) e.
Definition with_Status (h : Hold) (s : HoldStatus) : Hold :=
  mkHold (hDocumentType h) (hDocumentID h) (hToken h) (hHolder h) (hChannel h) (hUserID h)
    s (hExpiresAt h).

Definition held_error (h : Hold) : pay_error := ErrHeld (hHolder h) (hExpiresAt h).

(** ** Operations *)

(** [newToken] is the token the generator returns when it is called. *)
Definition Acquire (current : option Hold) (req : HoldRequest) (now : Z) (newToken : string) :
    result pay_error Hold :=
  _ ← require (negb (blank (rDocumentType req) || blank (rDocumentID req) || blank (rHolder req)))
        ErrHoldFields;
  let ttl := ClampHoldTTL (rTTL req) in
  let fresh :=
    let token := newToken in
    _ ← require (negb (slen (TrimSpace token) <? MinHoldTokenLen)) ErrHoldToken;
    Ok (mkHold (rDocumentType req) (rDocumentID req) token (rHolder req) (rChannel req)
          (rUserID req) HoldActive (now + ttl)) in
  match current with
  | Some h =>
      if Live h now then
        if Owns h (rToken req) then Ok (with_ExpiresAt h (now + ttl)) else Err (held_error h)
      else fresh
  | None => fresh
  end.

Definition CheckCharge (current : option Hold) (token : string) (now : Z) : result pay_error unit :=
  match current with
  | None => Ok tt
  | Some h => if negb (Live h now) || Owns h token then Ok tt else Err (held_error h)
  end.

(** The Go function returns the hold with the error too; [current] is then
    unchanged. *)
Definition Release (current : option Hold) (token : string) (force : bool) (now : Z) :
    option Hold * result pay_error unit :=
  match current with
  | None => (None, Ok tt)
  | Some h =>
      if negb (bool_decide (hStatus h = HoldActive)) then (current, Ok tt)
      else if negb (Live h now) then (Some (with_Status h HoldExpired), Ok tt)
      else if force || Owns h token then (Some (with_Status h HoldReleased), Ok tt)
      else (current, Err ErrHoldNotOwner)
  end.

Definition Consume (current : option Hold) (token : string) (now : Z) :
    option Hold * result pay_error unit :=
  match current with
  | None => (None, Ok tt)
  | Some h =>
      if negb (Owns h token) then (current, Err ErrHoldNotOwner)
      else if negb (Live h now) then (current, Err ErrHoldExpired)
      else (Some (with_Status h HoldConsumed), Ok tt)
  end.

(** ** The protocol on one document *)

(** A call to the store of one document: the calls of a point of sale, each
    with the token it presents. *)
Inductive hold_op : Type :=
| OpAcquire (req : HoldRequest) (newToken : string)
| OpCharge (token : string)
| OpRelease (token : string) (force : bool)
| OpConsume (token : string).

(** The stored hold after the call, and whether the call was granted. *)
Definition hold_step (now : Z) (op : hold_op) (cur : option Hold) : option Hold * result pay_error unit :=
  match op with
  | OpAcquire req tok =>
      match Acquire cur req now tok with
      | Ok h => (Some h, Ok tt)
      | Err e => (cur, Err e)
      end
  | OpCharge token => (cur, CheckCharge cur token now)
  | OpRelease token force => Release cur token force now
  | OpConsume token => Consume cur token now
  end.

(** The token a call presents. *)
Definition presents (op : hold_op) : string :=
  match op with
  | OpAcquire req _ => rToken req
  | OpCharge t | OpRelease t _ | OpConsume t => t
  end.
Definition forces (op : hold_op) : bool :=
  match op with OpRelease _ f => f | _ => false end.

Fixpoint hold_run (trace : list (Z * hold_op)) (cur : option Hold) :
    option Hold * list (result pay_error unit) :=
  match trace with
  | [] => (cur, [])
  | (now, op) :: trace =>
      let '(cur, r) := hold_step now op cur in
      let '(final, rs) := hold_run trace cur in
      (final, r :: rs)
  end.

(** ** Lemmas *)

Lemma Clamp_bounds d : MinHoldTTL <= ClampHoldTTL d <= MaxHoldTTL.
Proof.
  unfold ClampHoldTTL, DefaultHoldTTL, MinHoldTTL, MaxHoldTTL, second.
  destruct (Z.leb_spec d 0); [lia|]. destruct (Z.ltb_spec d (30 * 1000000000)); [lia|].
  destruct (Z.ltb_spec (3600 * 1000000000) d); lia.
Qed.

Lemma Live_spec h now : Live h now = true <-> hStatus h = HoldActive /\ now < hExpiresAt h.
Proof. unfold Live. rewrite andb_true_iff, bool_decide_eq_true, Z.ltb_lt. done. Qed.

Lemma Owns_spec h token : Owns h token = true <-> token <> ""%string /\ hToken h = token.
Proof.
  unfold Owns. rewrite andb_true_iff, negb_true_iff, String.eqb_eq, String.eqb_neq. done.
Qed.

Lemma Owns_other h token : token <> hToken h -> Owns h token = false.
Proof. intros H. apply not_true_iff_false. rewrite Owns_spec. naive_solver. Qed.

(** What a granted [Acquire] returns: the caller's own hold with a later
    deadline, or a new one when nothing live was there. *)
Lemma Acquire_Ok current req now tok h :
  Acquire current req now tok = Ok h ->
  hExpiresAt h = now + ClampHoldTTL (rTTL req) /\ Live h now = true /\
  ((exists h0, current = Some h0 /\ Live h0 now = true /\ Owns h0 (rToken req) = true /\
      hToken h = hToken h0) \/
   (hToken h = tok /\ MinHoldTokenLen <= slen (TrimSpace tok) /\
    forall h0, current = Some h0 -> Live h0 now = false)).
Proof.
  unfold Acquire. rewrite require_bind_Ok. intros [_ H].
  pose proof (Clamp_bounds (rTTL req)) as Hb. unfold MinHoldTTL, second in Hb.
  assert (Hfresh : (_ ← require (negb (slen (TrimSpace tok) <? MinHoldTokenLen)) ErrHoldToken;
    Ok (mkHold (rDocumentType req) (rDocumentID req) tok (rHolder req) (rChannel req)
          (rUserID req) HoldActive (now + ClampHoldTTL (rTTL req)))) = Ok h ->
    hExpiresAt h = now + ClampHoldTTL (rTTL req) /\ Live h now = true /\
    hToken h = tok /\ MinHoldTokenLen <= slen (TrimSpace tok)).
  { rewrite require_bind_Ok. intros [Hl%negb_true_iff%Z.ltb_ge [= <-]].
    cbn. rewrite Live_spec. cbn. split_and!; (done || lia). }
  destruct current as [h0|]; [destruct (Live h0 now) eqn:El; [destruct (Owns h0 _) eqn:Eo|]|].
  - injection H as <-. cbn. apply Live_spec in El as Hl. rewrite Live_spec. cbn.
    split_and!; [done|tauto|lia|]. left. by exists h0.
  - done.
  - destruct (Hfresh H) as (? & ? & ? & ?). split_and!; [done..|]. right.
    split_and!; [done..|]. naive_solver.
  - destruct (Hfresh H) as (? & ? & ? & ?). split_and!; [done..|]. right. by split_and!.
Qed.

(** A call with a foreign token on a live hold is refused and changes nothing. *)
Lemma foreign_step now op h :
  Live h now = true -> presents op <> hToken h -> forces op = false ->
  exists e, hold_step now op (Some h) = (Some h, Err e).
Proof.
  intros Hl Hp Hf. destruct op as [req tok|t|t f|t]; cbn in *.
  - unfold Acquire. rewrite Hl, (Owns_other _ _ Hp). destruct (negb _); cbn; by eexists.
  - rewrite Hl, (Owns_other _ _ Hp). by eexists.
  - subst f. rewrite Hl, (Owns_other _ _ Hp). apply Live_spec in Hl as [-> _]. by eexists.
  - rewrite (Owns_other _ _ Hp). by eexists.
Qed.

(** Mutual exclusion of a charge.  Once a point of sale has acquired the
    hold of a document, no sequence of acquisitions, charges, releases and
    consumptions by callers that do not present its token, all before the
    hold's deadline and none a forced release, is ever granted or changes
    the hold; and the owner can charge under it and consume it all that
    time. *)
Theorem hold_exclusive current req now tok h trace :
  Acquire current req now tok = Ok h ->
  Forall (fun '(t, op) => t < hExpiresAt h /\ presents op <> hToken h /\ forces op = false) trace ->
  (hold_run trace (Some h)).1 = Some h /\
  Forall (fun r => exists e, r = Err e) (hold_run trace (Some h)).2 /\
  (hToken h <> ""%string -> forall t, t < hExpiresAt h ->
     CheckCharge (Some h) (hToken h) t = Ok tt /\
     Consume (Some h) (hToken h) t = (Some (with_Status h HoldConsumed), Ok tt)).
Proof.
  intros (Hexp & Hlive & _)%Acquire_Ok Htr. apply Live_spec in Hlive as [Hact _].
  split; [|split].
  3:{ intros Hne t Ht. assert (Owns h (hToken h) = true) as Ho by by apply Owns_spec.
      cbn. rewrite Ho, orb_true_r. assert (Live h t = true) as -> by by apply Live_spec. done. }
  all: clear Hexp; induction Htr as [|[t op] trace (Ht & Hp & Hf) Htr IH]; cbn; [done|].
  all: destruct (foreign_step t op h) as [e ->]; [by apply Live_spec|done..|];
       destruct (hold_run trace (Some h)) as [c rs]; cbn in *; [done || (constructor; eauto)].
Qed.

Definition pos_request : HoldRequest :=
  mkHoldRequest "sales_order" "so-1" "pos:1" ChannelTerminal "u1" "" 0.
Definition token_a : string := "0123456789abcdef0123456789abcdef".
Definition token_b : string := "fedcba9876543210fedcba9876543210".

Lemma hold_exclusive_witness :
  exists h, Acquire None pos_request 0 token_a = Ok h /\
  let trace := [(1, OpAcquire pos_request token_b); (2, OpCharge token_b)] in
  (hold_run trace (Some h)).1 = Some h /\
  Forall (fun r => exists e, r = Err e) (hold_run trace (Some h)).2 /\
  (hToken h <> ""%string -> forall t, t < hExpiresAt h ->
     CheckCharge (Some h) (hToken h) t = Ok tt /\
     Consume (Some h) (hToken h) t = (Some (with_Status h HoldConsumed), Ok tt)).
Proof.
  eexists. split; [vm_compute; reflexivity|].
  apply (hold_exclusive None pos_request 0 token_a); [vm_compute; reflexivity|].
  repeat constructor; vm_compute; done.
Defined.

(** ** A hold backs one recorded charge *)

(** The store of one document with the history of the tokens it issued and
    of the holds it saw consumed (ghost state). *)
Record hold_store := mkStore {
  st_hold : option Hold;
  st_issued : list string;
  st_consumed : list string
}.

Definition consumed_by (op : hold_op) (cur : option Hold) (r : result pay_error unit) : list string :=
  match op, cur, r with
  | OpConsume t, Some _, Ok _ => [t]
  | _, _, _ => []
  end.

Definition issued_by (op : hold_op) (r : result pay_error unit) : list string :=
  match op, r with
  | OpAcquire _ tok, Ok _ => [tok]
  | _, _ => []
  end.

(** One call, at any instant; the generator never repeats a token. *)
Inductive store_step : hold_store -> hold_store -> Prop :=
| store_call now op s :
    (forall req tok, op = OpAcquire req tok -> tok ∉ st_issued s) ->
    store_step s
      (let '(cur, r) := hold_step now op (st_hold s) in
       mkStore cur (issued_by op r ++ st_issued s) (consumed_by op (st_hold s) r ++ st_consumed s)).

Definition empty_store : hold_store := mkStore None [] [].

Record store_inv (s : hold_store) : Prop := {
  inv_nodup : NoDup (st_consumed s);
  inv_issued : forall t, t ∈ st_consumed s -> t ∈ st_issued s;
  inv_current : forall h, st_hold s = Some h -> hToken h ∈ st_issued s;
  inv_active : forall h, st_hold s = Some h -> hStatus h = HoldActive -> hToken h ∉ st_consumed s
}.

Lemma store_inv_empty : store_inv empty_store.
Proof. by split; cbn; [constructor|set_solver..]. Qed.

Lemma Release_hold cur t f now cur' r h' :
  Release cur t f now = (cur', r) -> cur' = Some h' ->
  exists h, cur = Some h /\ hToken h' = hToken h /\ (hStatus h' = HoldActive -> hStatus h = HoldActive).
Proof.
  intros H ->. destruct cur as [h|]; cbn in H; [|done]. exists h. split; [done|].
  destruct (negb _); [by injection H as <- _|]. destruct (negb (Live h now)); [by injection H as <- _|].
  destruct (f || _); by injection H as <- _.
Qed.

Lemma store_step_inv s s' : store_inv s -> store_step s s' -> store_inv s'.
Proof.
  intros [Hnd His Hcur Hact] Hstep. destruct Hstep as [now op s Hfresh].
  destruct op as [req tok|t|t f|t]; cbn.
  - specialize (Hfresh req tok eq_refl).
    destruct (Acquire (st_hold s) req now tok) as [h|e] eqn:E; cbn; [|by split].
    destruct (Acquire_Ok _ _ _ _ _ E) as (_ & Hl & [(h0 & E0 & Hl0 & _ & Ht)|(Ht & _)]).
    + apply Live_spec in Hl0 as [Ha0 _].
      split; cbn; [done|set_solver| |]; intros ? [= <-]; rewrite Ht; [set_solver|naive_solver].
    + split; cbn; [done|set_solver| |]; intros ? [= <-]; rewrite Ht; set_solver.
  - by split.
  - destruct (Release (st_hold s) t f now) as [cur r] eqn:E. cbn.
    split; cbn; [done|done| |]; intros h' Hh; destruct (Release_hold _ _ _ _ _ _ _ E Hh) as (h & Es & -> & Hs); eauto.
  - destruct (st_hold s) as [h|] eqn:Es; cbn; [|by split; cbn; [..|naive_solver|naive_solver]].
    destruct (Owns h t) eqn:Eo; cbn; [|by split; cbn; rewrite ?Es].
    destruct (Live h now) eqn:El; cbn; [|by split; cbn; rewrite ?Es].
    apply Live_spec in El as [Ha _]. apply Owns_spec in Eo as [_ <-].
    split; cbn.
    + constructor; eauto.
    + set_solver.
    + intros ? [= <-]. cbn. eauto.
    + intros ? [= <-]. cbn. done.
Qed.

(** Whatever the interleaving of calls by any number of points of sale,
    each hold ever issued is consumed by at most one recorded charge, and
    only issued holds are. *)
Theorem hold_consumed_once s :
  rtc store_step empty_store s ->
  NoDup (st_consumed s) /\ forall t, t ∈ st_consumed s -> t ∈ st_issued s.
Proof.
  intros Hr. assert (store_inv s) as [? ? _ _]; [|done].
  remember empty_store as s0 eqn:E0. assert (store_inv s0) as Hi by (subst; apply store_inv_empty).
  clear E0. induction Hr as [|x y z Hxy _ IH]; [done|]. apply IH. by eapply store_step_inv.
Qed.

Lemma hold_consumed_once_witness :
  exists s, st_consumed s = [token_a] /\ rtc store_step empty_store s /\
  (NoDup (st_consumed s) /\ forall t, t ∈ st_consumed s -> t ∈ st_issued s).
Proof.
  pose (s1 := let '(cur, r) := hold_step 0 (OpAcquire pos_request token_a) None in
              mkStore cur [token_a] []).
  pose (s2 := mkStore (hold_step 1 (OpConsume token_a) (st_hold s1)).1 [token_a] [token_a]).
  assert (rtc store_step empty_store s2) as Hr.
  { eapply rtc_l; [apply (store_call 0 (OpAcquire pos_request token_a)); cbn; set_solver|].
    eapply rtc_l; [apply (store_call 1 (OpConsume token_a)); by cbn|].
    vm_compute. apply rtc_refl. }
  exists s2. split; [reflexivity|]. split; [exact Hr|]. exact (hold_consumed_once s2 Hr).
Defined.
