(* ===== verification/PayModel.v ===== *)
(** * Payments: the payment record (payments/model.go, capability/commerce.go)

    The canonical [Payment] with its card, cash and seller parts, [Validate]
    with every problem it reports, [ValidateSeller], [StatusAfterRefunds]
    and [NetCaptured].  [payment_wf] is the specification [Validate]
    decides. *)

From Stdlib Require Import QArith Qminmax Lqa.
From S2P Require Import Prelude GoStrings PayStatus PayAmount.

Open Scope Z_scope.

(** ** Data *)

Record Card := mkCard {
  cdType : string; cdBrand : string; cdLast4 : string; cdAuthCode : string; cdEntryMode : string
}.
Record Seller := mkSeller {
  slAccountRef : string; slSellerID : string; slApplicationFee : string
}.
Record CashTender := mkCashTender {
  ctTendered : string; ctChange : string; ctOperationID : string; ctRounding : string
}.

Definition ProviderCash : string := "cash".

(** [time.Time] is an instant in nanoseconds. *)
Record Payment := mkPayment {
  pID : string;
  pDocumentType : string; pDocumentID : string; pOrderRef : string;
  pChannel : Channel; pProvider : string;
  pProviderRef : string; pSessionID : string; pDeviceID : string;
  pIdempotencyKey : string;
  pStatus : Status; pCancelledFrom : Status;
  pAmount : string; pCurrency : string; pAmountRefunded : string; pFee : string; pNet : string;
  pMethod : string; pInstallments : Z;
  pCard : option Card; pCash : option CashTender; pSeller : option Seller; pTestMode : bool;
  pHoldToken : string; pAnomaly : string;
  pPaidAt : option Z; pCreatedAt : Z; pUpdatedAt : Z
}.

Definition CardTypes : list string := ["credit"; "debit"; "prepaid"; "other"]%string.

Definition oneOf (s : string) (set : list string) : bool := existsb (fun v => String.eqb v s) set.

(** [last4Re]: four digits. *)
Definition last4_ok (s : string) : bool := (slen s =? 4) && str_forall is_digit s.

(** The problems [Validate] reports; the error an amount or the seller check
    returned is formatted into the message. *)
Inductive seller_error : Type :=
| SellerAccountRequired | SellerFee (e : pay_error) | SellerAmount (e : pay_error) | SellerFeeRange.

Inductive problem : Type :=
| BadDocument | BadChannel | BadProvider | BadKey | BadStatus | BadCancelledFrom | BadCurrency
| BadProviderRef | BadCashChannel
| BadAmount (e : pay_error) | AmountNotPositive
| BadRefunded (e : pay_error) | RefundedNegative | RefundedExceeds
| StatusMismatch (want : Status) | UnexpectedRefund
| BadFee (e : pay_error) | FeeRange | BadNet (e : pay_error) | NetMismatch
| BadCardType | BadLast4 | BadSeller (e : seller_error).

(** ** Operations *)

Definition StatusAfterRefunds (amount refunded : Amount) : Status :=
  if amount_Sign refunded <=? 0 then StatusPaid
  else if negb (cmp_lt refunded amount) then StatusRefunded
  else StatusPartiallyRefunded.

Definition NetCaptured (p : Payment) : result pay_error Amount :=
  if negb (Counts (pStatus p)) then Ok amount_zero else
  amount ← ParseAmount (pAmount p);
  if String.eqb (pAmountRefunded p) "" then Ok amount else
  refunded ← ParseAmount (pAmountRefunded p);
  Ok (amount_Sub amount refunded).

Definition wrap_error {E F A} (f : E -> F) (r : result E A) : result F A :=
  match r with Ok a => Ok a | Err e => Err (f e) end.

Definition ValidateSeller (s : Seller) (amount currency : string) : result seller_error unit :=
  _ ← require (negb (blank (slAccountRef s))) SellerAccountRequired;
  if String.eqb (slApplicationFee s) "" then Ok tt else
  fee ← wrap_error SellerFee (ParseMoney (slApplicationFee s) currency);
  a ← wrap_error SellerAmount (ParseAmount amount);
  require (negb ((amount_Sign fee <? 0) || cmp_gt fee a)) SellerFeeRange.

(** [bad(...)] when the condition holds. *)
Definition bad_if (b : bool) (p : problem) : list problem := if b then [p] else [].

(** The checks of [Validate] before the amounts. *)
Definition validate_fields (p : Payment) : list problem :=
  bad_if (blank (pDocumentType p) || blank (pDocumentID p)) BadDocument ++
  bad_if (negb (channel_Valid (pChannel p))) BadChannel ++
  bad_if (blank (pProvider p)) BadProvider ++
  bad_if (blank (pIdempotencyKey p)) BadKey ++
  bad_if (negb (status_Valid (pStatus p))) BadStatus ++
  bad_if (negb (bool_decide (pCancelledFrom p = StatusOther "")) &&
          (negb (Open (pCancelledFrom p)) || bool_decide (pCancelledFrom p = StatusCancelling)))
    BadCancelledFrom ++
  bad_if (negb (ValidCurrency (pCurrency p))) BadCurrency ++
  bad_if (blank (pProviderRef p) && (Captured (pStatus p) || bool_decide (pStatus p = StatusAuthorized)))
    BadProviderRef ++
  bad_if (negb (Bool.eqb (bool_decide (pChannel p = ChannelCash)) (String.eqb (pProvider p) ProviderCash)))
    BadCashChannel.

(** The [switch] on the refunded total. *)
Definition validate_refunded (p : Payment) (amount refunded : Amount) : list problem :=
  if amount_Sign refunded <? 0 then [RefundedNegative]
  else if cmp_gt refunded amount then [RefundedExceeds]
  else if status_Valid (pStatus p) then
    let want := StatusAfterRefunds amount refunded in
    bad_if (Captured (pStatus p) && negb (bool_decide (want = pStatus p))) (StatusMismatch want) ++
    bad_if (negb (Captured (pStatus p)) && negb (amount_Sign refunded =? 0)) UnexpectedRefund
  else [].

Definition validate_fee (p : Payment) (cur : string) (amount : Amount) : list problem :=
  if String.eqb (pFee p) "" then [] else
  match ParseMoney (pFee p) cur with
  | Err e => [BadFee e]
  | Ok fee =>
      if (amount_Sign fee <? 0) || cmp_gt fee amount then [FeeRange]
      else if negb (String.eqb (pNet p) "") then
        match ParseMoney (pNet p) cur with
        | Err e => [BadNet e]
        | Ok net => bad_if (cmp_ne net (amount_Sub amount fee)) NetMismatch
        end
      else []
  end.

Definition validate_card (p : Payment) : list problem :=
  match pCard p with
  | None => []
  | Some c =>
      bad_if (negb (String.eqb (cdType c) "") && negb (oneOf (cdType c) CardTypes)) BadCardType ++
      bad_if (negb (String.eqb (cdLast4 c) "") && negb (last4_ok (cdLast4 c))) BadLast4
  end.

Definition validate_seller (p : Payment) (cur : string) : list problem :=
  match pSeller p with
  | None => []
  | Some s => match ValidateSeller s (pAmount p) cur with Ok _ => [] | Err e => [BadSeller e] end
  end.

Definition validate_currency (p : Payment) : string :=
  if ValidCurrency (pCurrency p) then pCurrency p else "XXX".

(** [amount_refunded], absent reads 0. *)
Definition parse_refunded (p : Payment) (cur : string) : result pay_error Amount :=
  if String.eqb (pAmountRefunded p) "" then Ok amount_zero else ParseMoney (pAmountRefunded p) cur.

Definition payment_Validate (p : Payment) : list problem :=
  let errs := validate_fields p in
  let cur := validate_currency p in
  match ParseMoney (pAmount p) cur with
  | Err e => errs ++ [BadAmount e]
  | Ok amount =>
      let errs := errs ++ bad_if (amount_Sign amount <=? 0) AmountNotPositive in
      match parse_refunded p cur with
      | Err e => errs ++ [BadRefunded e]
      | Ok refunded =>
          errs ++ validate_refunded p amount refunded ++ validate_fee p cur amount ++
          validate_card p ++ validate_seller p cur
      end
  end.

(** ** What a valid payment is *)

(** The refunded total, within the amount, that the status stands for. *)
Definition refunds_match (s : Status) (amount refunded : Amount) : Prop :=
  match s with
  | StatusPaid => (refunded == 0)%Q
  | StatusPartiallyRefunded => (0 < refunded /\ refunded < amount)%Q
  | StatusRefunded => (refunded == amount)%Q
  | _ => (refunded == 0)%Q
  end.

Definition fee_wf (p : Payment) (amount : Amount) : Prop :=
  pFee p = ""%string \/
  exists fee, ParseMoney (pFee p) (pCurrency p) = Ok fee /\ (0 <= fee /\ fee <= amount)%Q /\
    (pNet p = ""%string \/
     exists net, ParseMoney (pNet p) (pCurrency p) = Ok net /\ (net == amount - fee)%Q).

Definition card_wf (c : Card) : Prop :=
  (cdType c = ""%string \/ cdType c ∈ CardTypes) /\
  (cdLast4 c = ""%string \/ (slen (cdLast4 c) = 4 /\ str_forall is_digit (cdLast4 c) = true)).

Definition seller_wf (s : Seller) (amount currency : string) : Prop :=
  blank (slAccountRef s) = false /\
  (slApplicationFee s = ""%string \/
   exists fee a, ParseMoney (slApplicationFee s) currency = Ok fee /\ ParseAmount amount = Ok a /\
     (0 <= fee /\ fee <= a)%Q).

Definition fields_wf (p : Payment) : Prop :=
  blank (pDocumentType p) = false /\ blank (pDocumentID p) = false /\
  (forall x, pChannel p <> ChannelOther x) /\
  blank (pProvider p) = false /\ blank (pIdempotencyKey p) = false /\
  (pStatus p ∈ Statuses) /\
  (pCancelledFrom p = StatusOther "" \/
   (Open (pCancelledFrom p) = true /\ pCancelledFrom p <> StatusCancelling)) /\
  ValidCurrency (pCurrency p) = true /\
  (Captured (pStatus p) = true \/ pStatus p = StatusAuthorized -> blank (pProviderRef p) = false) /\
  (pChannel p = ChannelCash <-> pProvider p = ProviderCash).

Record payment_wf (p : Payment) (amount refunded : Amount) : Prop := {
  wf_fields : fields_wf p;
  wf_amount : ParseMoney (pAmount p) (pCurrency p) = Ok amount /\ (0 < amount)%Q;
  wf_refunded : parse_refunded p (pCurrency p) = Ok refunded /\
    (0 <= refunded /\ refunded <= amount)%Q /\ refunds_match (pStatus p) amount refunded;
  wf_fee : fee_wf p amount;
  wf_card : forall c, pCard p = Some c -> card_wf c;
  wf_seller : forall s, pSeller p = Some s -> seller_wf s (pAmount p) (pCurrency p)
}.

Lemma bad_if_nil b x : bad_if b x = [] <-> b = false.
Proof. by destruct b. Qed.

Lemma oneOf_spec s set : oneOf s set = true <-> s ∈ set.
Proof.
  unfold oneOf. rewrite existsb_exists. setoid_rewrite String.eqb_eq.
  setoid_rewrite <- list_elem_of_In. naive_solver.
Qed.

Lemma app_nil_iff {A} (l k : list A) : l ++ k = [] <-> l = [] /\ k = [].
Proof. destruct l; cbn; naive_solver. Qed.

(** The guards of the record as propositions. *)
Create Rewrite HintDb guards.
#[export] Hint Rewrite @app_nil_iff bad_if_nil andb_false_iff orb_false_iff orb_true_iff andb_true_iff
  negb_true_iff negb_false_iff
  bool_decide_eq_true bool_decide_eq_false String.eqb_eq String.eqb_neq Z.eqb_eq : guards.

Lemma channel_Valid_spec c : channel_Valid c = true <-> forall x, c <> ChannelOther x.
Proof. destruct c; cbn; naive_solver. Qed.

Lemma validate_fields_nil p : validate_fields p = [] <-> fields_wf p.
Proof.
  unfold validate_fields, fields_wf. autorewrite with guards.
  rewrite channel_Valid_spec, status_Valid_spec.
  assert (Hcash : Bool.eqb (bool_decide (pChannel p = ChannelCash)) (String.eqb (pProvider p) ProviderCash) = true
    <-> (pChannel p = ChannelCash <-> pProvider p = ProviderCash)).
  { rewrite eqb_true_iff. case_bool_decide; destruct (String.eqb_spec (pProvider p) ProviderCash); naive_solver. }
  rewrite Hcash. clear Hcash.
  destruct (Open (pCancelledFrom p)), (blank (pProviderRef p)), (Captured (pStatus p));
    destruct (decide (pCancelledFrom p = StatusOther "")), (decide (pCancelledFrom p = StatusCancelling)),
      (decide (pStatus p = StatusAuthorized)); intuition congruence.
Qed.

Lemma StatusAfterRefunds_cases amount refunded :
  (StatusAfterRefunds amount refunded = StatusPaid /\ (refunded <= 0)%Q) \/
  (StatusAfterRefunds amount refunded = StatusRefunded /\ (0 < refunded)%Q /\ (amount <= refunded)%Q) \/
  (StatusAfterRefunds amount refunded = StatusPartiallyRefunded /\ (0 < refunded)%Q /\ (refunded < amount)%Q).
Proof.
  unfold StatusAfterRefunds. destruct (amount_Sign refunded <=? 0) eqn:E1; [left|right];
    amount_simpl; [done|].
  destruct (cmp_lt refunded amount) eqn:E2; amount_simpl; cbn; auto.
Qed.

Lemma validate_refunded_nil p amount refunded :
  (0 < amount)%Q -> pStatus p ∈ Statuses ->
  validate_refunded p amount refunded = [] <->
  (0 <= refunded /\ refunded <= amount)%Q /\ refunds_match (pStatus p) amount refunded.
Proof.
  intros Hp Hs. unfold validate_refunded. apply status_Valid_spec in Hs as Hv. rewrite Hv.
  destruct (amount_Sign refunded <? 0) eqn:E1; amount_simpl.
  { split; [done|]. intros [[? ?] _]. exfalso. lra. }
  destruct (cmp_gt refunded amount) eqn:E2; amount_simpl.
  { split; [done|]. intros [[? ?] _]. exfalso. lra. }
  autorewrite with guards. amount_simpl.
  assert (Hz : (amount_Sign refunded =? 0) = true <-> (refunded == 0)%Q) by apply sign_zero.
  rewrite Z.eqb_eq in Hz. rewrite Hz. clear Hz.
  destruct (StatusAfterRefunds_cases amount refunded) as [(-> & ?)|[(-> & ? & ?)|(-> & ? & ?)]];
    destruct (pStatus p); cbn [Captured refunds_match]; try (exfalso; set_solver); split;
    intuition (try done; try congruence; lra).
Qed.

Lemma wrap_error_Ok {E F A} (f : E -> F) (r : result E A) x : wrap_error f r = Ok x <-> r = Ok x.
Proof. destruct r; cbn; naive_solver. Qed.

Lemma ValidateSeller_Ok s amount cur u :
  ValidateSeller s amount cur = Ok u <-> seller_wf s amount cur.
Proof.
  unfold ValidateSeller, seller_wf. rewrite require_bind_Ok, negb_true_iff.
  destruct (String.eqb_spec (slApplicationFee s) ""); [destruct u; naive_solver|].
  rewrite bind_Ok. split.
  - intros (Hb & fee & Hf%wrap_error_Ok & H). split; [done|]. right.
    apply bind_Ok in H as (a & Ha%wrap_error_Ok & H). exists fee, a.
    rewrite require_Ok, negb_true_iff, orb_false_iff, sign_neg_false, cmp_gt_false in H. done.
  - intros (Hb & [?|(fee & a & Hf & Ha & Hle)]); [done|]. split; [done|]. exists fee.
    rewrite wrap_error_Ok, bind_Ok. split; [done|]. exists a.
    rewrite wrap_error_Ok, require_Ok, negb_true_iff, orb_false_iff, sign_neg_false, cmp_gt_false. done.
Qed.

Lemma validate_fee_nil p amount : validate_fee p (pCurrency p) amount = [] <-> fee_wf p amount.
Proof.
  unfold validate_fee, fee_wf. destruct (String.eqb_spec (pFee p) ""); [naive_solver|].
  destruct (ParseMoney (pFee p) _) as [fee|e].
  2:{ split; [done|]. by intros [?|(? & ? & _)]. }
  destruct (_ || _) eqn:Er.
  { apply orb_true_iff in Er. rewrite sign_neg, cmp_gt_spec in Er. split; [done|].
    intros [?|(x & [= <-] & [? ?] & _)]; [done|]. exfalso. lra. }
  apply orb_false_iff in Er. rewrite sign_neg_false, cmp_gt_false in Er.
  destruct (String.eqb_spec (pNet p) ""); cbn.
  { split; [|done]. intros _. right. exists fee. auto. }
  destruct (ParseMoney (pNet p) _) as [net|e].
  - rewrite bad_if_nil, cmp_ne_false, amount_Sub_value. split.
    + intros Hn. right. exists fee. split_and!; try tauto. right. by exists net.
    + intros [?|(x & [= <-] & _ & [?|(y & [= <-] & ?)])]; done.
  - split; [done|]. by intros [?|(x & _ & _ & [?|(? & ? & _)])].
Qed.

Lemma validate_card_nil p :
  validate_card p = [] <-> forall c, pCard p = Some c -> card_wf c.
Proof.
  unfold validate_card, card_wf. destruct (pCard p) as [c|]; [|naive_solver].
  unfold last4_ok. autorewrite with guards. rewrite oneOf_spec.
  split; [by intros H c' [= <-]|]. intros H. by apply (H c).
Qed.

Lemma validate_seller_nil p :
  validate_seller p (pCurrency p) = [] <->
  forall s, pSeller p = Some s -> seller_wf s (pAmount p) (pCurrency p).
Proof.
  unfold validate_seller. destruct (pSeller p) as [s|]; [|naive_solver].
  pose proof (ValidateSeller_Ok s (pAmount p) (pCurrency p)) as H.
  destruct (ValidateSeller s (pAmount p) (pCurrency p)) as [u|e]; split; try done.
  - intros _ s' [= <-]. by apply (H u).
  - intros Hs. specialize (Hs s eq_refl). by apply (H tt) in Hs.
Qed.

Lemma Validate_wf p :
  payment_Validate p = [] <-> exists amount refunded, payment_wf p amount refunded.
Proof.
  unfold payment_Validate. split.
  - destruct (ParseMoney (pAmount p) (validate_currency p)) as [amount|e] eqn:Ea;
      [|intros [_ ?]%app_nil_iff; done].
    destruct (parse_refunded p (validate_currency p)) as [refunded|e] eqn:Er;
      [|intros [_ ?]%app_nil_iff; done].
    rewrite !app_nil_iff, bad_if_nil, sign_nonpos_false, validate_fields_nil.
    intros ((Hf & Ha) & Hr & Hfee & Hc & Hs). exists amount, refunded.
    assert (validate_currency p = pCurrency p) as Hcur.
    { unfold validate_currency. destruct Hf as (_ & _ & _ & _ & _ & _ & _ & -> & _). done. }
    rewrite Hcur in *. rewrite validate_refunded_nil in Hr by (done || apply Hf).
    rewrite validate_fee_nil in Hfee. rewrite validate_card_nil in Hc. rewrite validate_seller_nil in Hs.
    by split.
  - intros (amount & refunded & [Hf [Ha Hp] [Hr Hm] Hfee Hc Hs]).
    assert (validate_currency p = pCurrency p) as ->.
    { unfold validate_currency. destruct Hf as (_ & _ & _ & _ & _ & _ & _ & -> & _). done. }
    rewrite Ha, Hr. rewrite !app_nil_iff, bad_if_nil, sign_nonpos_false, validate_fields_nil.
    rewrite validate_refunded_nil by (done || apply Hf).
    by rewrite validate_fee_nil, validate_card_nil, validate_seller_nil.
Qed.

(** [Payment.Validate] reports no problem exactly for the well-formed
    records: every identity field set, money quantized to the currency,
    [0 <= amount_refunded <= amount] with the refunded total the status
    stands for, fee and net consistent, card and seller well formed. *)
Theorem Validate_correct p :
  payment_Validate p = [] <-> exists amount refunded, payment_wf p amount refunded.
Proof. apply Validate_wf. Qed.

(** What a valid payment contributes to its document is computed without
    error, is the captured amount minus what was refunded, lies between zero
    and the amount, and is zero exactly when the money never arrived or went
    back in full. *)
Theorem NetCaptured_valid p amount refunded :
  payment_wf p amount refunded ->
  exists net, NetCaptured p = Ok net /\ (0 <= net /\ net <= amount)%Q /\
    (Captured (pStatus p) = true -> (net == amount - refunded)%Q) /\
    ((net == 0)%Q <-> Captured (pStatus p) = false \/ pStatus p = StatusRefunded).
Proof.
  intros [_ [[Ha [_ _]]%ParseMoney_Ok Hp] (Hr & [Hr0 Hr1] & Hm) _ _ _].
  unfold NetCaptured. destruct (Counts (pStatus p)) eqn:Ec; cbn.
  - rewrite Ha. cbn. unfold parse_refunded in Hr.
    assert (exists net, (if String.eqb (pAmountRefunded p) "" then Ok amount else
      refunded ← ParseAmount (pAmountRefunded p); Ok (amount_Sub amount refunded)) = Ok net /\
      (net == amount - refunded)%Q) as (net & -> & Hn).
    { destruct (String.eqb (pAmountRefunded p) "").
      - injection Hr as <-. exists amount. split; [done|]. unfold amount_zero. lra.
      - apply ParseMoney_Ok in Hr as [-> _]. cbn. eexists. split; [done|]. apply amount_Sub_value. }
    exists net. split; [done|]. rewrite Hn.
    destruct (pStatus p); cbn in *; try done; split_and!; try lra; try done; split; try lra;
      intros [?|?]; done.
  - exists amount_zero. split; [done|]. unfold amount_zero. split; [lra|].
    destruct (pStatus p); cbn in *; try done; split; try done; try (intros; lra);
      split; auto; intros; lra.
Qed.

Definition sample_payment : Payment :=
  mkPayment "pay-1" "sales_order" "so-1" "" ChannelTerminal "acme" "ref-1" "" "" "key-1"
    StatusPartiallyRefunded (StatusOther "") "100.00" "MXN" "30.00" "3.00" "97.00" "" 0
    None None None false "" "" None 0 0.

Lemma sample_payment_wf : payment_wf sample_payment (100 # 1)%Q (30 # 1)%Q.
Proof.
  assert (payment_Validate sample_payment = []) as H by (vm_compute; reflexivity).
  apply Validate_wf in H as (a & r & H). pose proof H as [_ [Ha _] [Hr _] _ _ _].
  vm_compute in Ha, Hr. injection Ha as <-. injection Hr as <-. exact H.
Qed.

Lemma NetCaptured_valid_witness :
  payment_wf sample_payment (100 # 1)%Q (30 # 1)%Q /\
  exists net, NetCaptured sample_payment = Ok net /\ (0 <= net /\ net <= 100 # 1)%Q /\
    (Captured (pStatus sample_payment) = true -> (net == (100 # 1) - (30 # 1))%Q) /\
    ((net == 0)%Q <-> Captured (pStatus sample_payment) = false \/ pStatus sample_payment = StatusRefunded).
Proof. split; [exact sample_payment_wf|]. apply NetCaptured_valid, sample_payment_wf. Defined.
