(* ===== verification/PayRefund.v ===== *)
(** * Payments: refunds (payments/refund.go)

    The refund record and its status table, [Refundable], [CheckRefund],
    [ApplySucceededRefunds] and [DocumentPaid].  [refund_step] is the
    lifecycle of the refunds of one payment: requests that [CheckRefund]
    admits, status moves of the table, and [ApplySucceededRefunds]. *)

From Stdlib Require Import QArith Qminmax Lqa.
From S2P Require Import Prelude GoStrings PayStatus PayAmount PayModel.

Open Scope Z_scope.

(** ** Data *)

Inductive RefundStatus : Type :=
| RefundPending | RefundSucceeded | RefundFailed | RefundManualRequired | RefundOther (s : string).
#[export] Instance RefundStatus_eq_dec : EqDecision RefundStatus.
Proof. solve_decision. Defined.

(** [refundTransitions]; a missing key reads nil. *)
Definition refundTransitions (s : RefundStatus) : list RefundStatus :=
  match s with
  | RefundPending => [RefundSucceeded; RefundFailed; RefundManualRequired]
  | RefundManualRequired => [RefundSucceeded; RefundFailed]
  | RefundSucceeded | RefundFailed | RefundOther _ => []
  end.

Definition refund_Valid (s : RefundStatus) : bool :=
  match s with RefundOther _ => false | _ => true end.

Definition CanTransitionRefund (from to : RefundStatus) : bool :=
  existsb (fun n => bool_decide (n = to)) (refundTransitions from).

Inductive RefundDestination : Type :=
| RefundToOriginal | RefundToWallet | RefundToCash | DestinationOther (s : string).
#[export] Instance RefundDestination_eq_dec : EqDecision RefundDestination.
Proof. solve_decision. Defined.

Definition destination_Valid (d : RefundDestination) : bool :=
  match d with DestinationOther _ => false | _ => true end.

Record Refund := mkRefund {
  rfID : string; rfPaymentID : string; rfDestination : RefundDestination;
  rfProvider : string; rfProviderRefundID : string;
  rfAmount : string; rfCurrency : string; rfStatus : RefundStatus; rfReason : string;
  rfIdempotencyKey : string; rfSourceType : string; rfSourceID : string;
  rfCreditNoteRequired : bool; rfCreditNoteID : string; rfAdjustsTotal : bool;
  rfCashSessionID : string; rfNeedsReview : bool; rfCreatedAt : Z; rfSettledAt : option Z
}.

Definition Complete (r : Refund) : bool :=
  bool_decide (rfStatus r = RefundSucceeded) &&
  (negb (rfCreditNoteRequired r) || negb (blank (rfCreditNoteID r))).

Definition refund_with_status (r : Refund) (s : RefundStatus) : Refund :=
  mkRefund (rfID r) (rfPaymentID r) (rfDestination r) (rfProvider r) (rfProviderRefundID r)
    (rfAmount r) (rfCurrency r) s (rfReason r) (rfIdempotencyKey r) (rfSourceType r) (rfSourceID r)
    (rfCreditNoteRequired r) (rfCreditNoteID r) (rfAdjustsTotal r) (rfCashSessionID r)
    (rfNeedsReview r) (rfCreatedAt r) (rfSettledAt r).
Definition refund_with_currency (r : Refund) (c : string) : Refund :=
  mkRefund (rfID r) (rfPaymentID r) (rfDestination r) (rfProvider r) (rfProviderRefundID r)
    (rfAmount r) c (rfStatus r) (rfReason r) (rfIdempotencyKey r) (rfSourceType r) (rfSourceID r)
    (rfCreditNoteRequired r) (rfCreditNoteID r) (rfAdjustsTotal r) (rfCashSessionID r)
    (rfNeedsReview r) (rfCreatedAt r) (rfSettledAt r).

(** [p.AmountRefunded = ...; p.Status = ...]. *)
Definition payment_with_refunds (p : Payment) (refunded : string) (s : Status) : Payment :=
  mkPayment (pID p) (pDocumentType p) (pDocumentID p) (pOrderRef p) (pChannel p) (pProvider p)
    (pProviderRef p) (pSessionID p) (pDeviceID p) (pIdempotencyKey p) s (pCancelledFrom p)
    (pAmount p) (pCurrency p) refunded (pFee p) (pNet p) (pMethod p) (pInstallments p)
    (pCard p) (pCash p) (pSeller p) (pTestMode p) (pHoldToken p) (pAnomaly p)
    (pPaidAt p) (pCreatedAt p) (pUpdatedAt p).

(** ** Operations *)

(** The inner loop of [sumRefunds]. *)
Fixpoint sum_statuses (r : Refund) (statuses : list RefundStatus) (total : Amount) :
    result pay_error Amount :=
  match statuses with
  | [] => Ok total
  | st :: statuses =>
      if bool_decide (rfStatus r = st) then
        a ← ParseAmount (rfAmount r); sum_statuses r statuses (amount_Add total a)
      else sum_statuses r statuses total
  end.

Fixpoint sum_loop (p : Payment) (refunds : list Refund) (statuses : list RefundStatus)
    (total : Amount) : result pay_error Amount :=
  match refunds with
  | [] => Ok total
  | r :: refunds =>
      if negb (String.eqb (rfPaymentID r) (pID p)) then sum_loop p refunds statuses total
      else total ← sum_statuses r statuses total; sum_loop p refunds statuses total
  end.

Definition sumRefunds (p : Payment) (refunds : list Refund) (statuses : list RefundStatus) :
    result pay_error Amount := sum_loop p refunds statuses amount_zero.

(** [p.AmountRefunded], absent reads 0. *)
Definition recorded_refunds (p : Payment) : result pay_error Amount :=
  if String.eqb (pAmountRefunded p) "" then Ok amount_zero else ParseAmount (pAmountRefunded p).

Definition Refundable (p : Payment) (refunds : list Refund) : result pay_error Amount :=
  if negb (Counts (pStatus p)) then Ok amount_zero else
  amount ← ParseAmount (pAmount p);
  recorded ← recorded_refunds p;
  done ← sumRefunds p refunds [RefundSucceeded];
  inFlight ← sumRefunds p refunds [RefundPending; RefundManualRequired];
  let left := amount_Sub (amount_Sub amount (amount_Max recorded done)) inFlight in
  if amount_Sign left <? 0 then Ok amount_zero else Ok left.

(** The loop of [CheckRefund] over the refunds that exist: the replay or
    conflict the first refund with the same key decides; [None] when there is none. *)
Fixpoint find_key (p : Payment) (refunds : list Refund) (next : Refund) (amount : Amount) :
    option (result pay_error Refund) :=
  match refunds with
  | [] => None
  | r :: refunds =>
      if negb (String.eqb (rfIdempotencyKey r) (rfIdempotencyKey next)) then find_key p refunds next amount
      else
        let conflict :=
          match ParseAmount (rfAmount r) with
          | Err _ => true
          | Ok prev =>
              negb (String.eqb (rfPaymentID r) (pID p)) || cmp_ne prev amount ||
              negb (String.eqb (rfCurrency r) (rfCurrency next)) ||
              negb (bool_decide (rfDestination r = rfDestination next))
          end in
        Some (if conflict then Err ErrIdempotencyConflict else Ok r)
  end.

(** [Ok (Some r)] is a replay of [r], [Ok None] a new refund. *)
Definition CheckRefund (p : Payment) (refunds : list Refund) (next : Refund) :
    result pay_error (option Refund) :=
  _ ← require (negb (blank (rfIdempotencyKey next))) ErrNotRefundable;
  let next := if String.eqb (rfCurrency next) "" then refund_with_currency next (pCurrency p) else next in
  amount ← ParseMoney (rfAmount next) (rfCurrency next);
  match find_key p refunds next amount with
  | Some (Ok r) => Ok (Some r)
  | Some (Err e) => Err e
  | None =>
      _ ← require (destination_Valid (rfDestination next)) ErrNotRefundable;
      _ ← require (negb (bool_decide (rfDestination next = RefundToOriginal) &&
                         negb (String.eqb (rfProvider next) "") &&
                         negb (String.eqb (rfProvider next) (pProvider p)))) ErrNotRefundable;
      _ ← require (Counts (pStatus p)) ErrNotRefundable;
      _ ← require (String.eqb (rfCurrency next) (pCurrency p)) ErrRefundCurrency;
      _ ← require (negb (amount_Sign amount <=? 0)) ErrNotRefundable;
      left ← Refundable p refunds;
      _ ← require (negb (cmp_gt amount left)) ErrRefundExceeds;
      Ok None
  end.

(** The payment the function leaves behind the pointer. *)
Definition ApplySucceededRefunds (p : Payment) (refunds : list Refund) : result pay_error Payment :=
  _ ← require (Captured (pStatus p)) ErrNotRefundable;
  amount ← ParseAmount (pAmount p);
  done ← sumRefunds p refunds [RefundSucceeded];
  _ ← require (negb (cmp_gt done amount)) ErrRefundExceeds;
  recorded ← recorded_refunds p;
  let total := amount_Max recorded done in
  Ok (payment_with_refunds p
        (if 0 <? amount_Sign total then amount_String total else pAmountRefunded p)
        (StatusAfterRefunds amount total)).

Fixpoint paid_payments (payments : list Payment) (paid : Amount) (ids : gset string) :
    result pay_error (Amount * gset string) :=
  match payments with
  | [] => Ok (paid, ids)
  | p :: payments =>
      if negb (Captured (pStatus p)) then paid_payments payments paid ids
      else a ← ParseAmount (pAmount p);
           paid_payments payments (amount_Add paid a) ({[pID p]} ∪ ids)
  end.

Fixpoint paid_refunds (refunds : list Refund) (ids : gset string) (paid : Amount) : result pay_error Amount :=
  match refunds with
  | [] => Ok paid
  | r :: refunds =>
      if negb (rfAdjustsTotal r) || negb (bool_decide (rfPaymentID r ∈ ids)) ||
         bool_decide (rfStatus r = RefundFailed)
      then paid_refunds refunds ids paid
      else a ← ParseAmount (rfAmount r); paid_refunds refunds ids (amount_Sub paid a)
  end.

Definition DocumentPaid (payments : list Payment) (refunds : list Refund) : result pay_error Amount :=
  '(paid, ids) ← paid_payments payments amount_zero ∅;
  paid_refunds refunds ids paid.

(** ** Sums of refunds *)

Definition refund_value (r : Refund) : Q :=
  match ParseAmount (rfAmount r) with Ok a => a | Err _ => 0%Q end.

Definition in_statuses (p : Payment) (sts : list RefundStatus) (r : Refund) : bool :=
  String.eqb (rfPaymentID r) (pID p) && existsb (fun st => bool_decide (rfStatus r = st)) sts.

Definition counts_for (p : Payment) (sts : list RefundStatus) (r : Refund) : Q :=
  if in_statuses p sts r then refund_value r else 0%Q.

Definition qsum : list Q -> Q := foldr Qplus 0%Q.

(** The refunds of [p] in one of the statuses, added up. *)
Definition counted (p : Payment) (sts : list RefundStatus) (rs : list Refund) : Q :=
  qsum (map (counts_for p sts) rs).

Lemma qsum_app l k : (qsum (l ++ k) == qsum l + qsum k)%Q.
Proof.
  induction l as [|x l IH]; cbn -[Qplus]; [by rewrite Qplus_0_l|]. by rewrite IH, Qplus_assoc.
Qed.

Lemma qsum_insert l i x y :
  l !! i = Some x -> (qsum (<[i:=y]> l) == qsum l - x + y)%Q.
Proof.
  revert i. induction l as [|z l IH]; intros [|i]; cbn -[Qplus Qminus]; try done.
  - intros [= ->]. ring.
  - intros H. rewrite (IH _ H). ring.
Qed.

Lemma qsum_nonneg l : Forall (fun x => 0 <= x)%Q l -> (0 <= qsum l)%Q.
Proof. induction 1; cbn -[Qplus]; lra. Qed.

Lemma sum_statuses_spec r sts t :
  NoDup sts ->
  sum_statuses r sts t =
    if existsb (fun st => bool_decide (rfStatus r = st)) sts
    then a ← ParseAmount (rfAmount r); Ok (amount_Add t a) else Ok t.
Proof.
  intros Hnd. revert t. induction Hnd as [|st sts Hn Hnd IH]; intros t; cbn [sum_statuses existsb]; [done|].
  destruct (bool_decide_reflect (rfStatus r = st)) as [E|E]; cbn [orb]; [|apply IH].
  destruct (ParseAmount (rfAmount r)); cbn; [|done]. rewrite IH.
  assert (existsb (fun st => bool_decide (rfStatus r = st)) sts = false) as ->; [|done].
  apply not_true_iff_false. rewrite existsb_exists. intros (x & Hx & Hd%bool_decide_eq_true).
  apply Hn. apply list_elem_of_In. by rewrite <- E, Hd.
Qed.

Lemma sum_loop_value p rs sts t x :
  NoDup sts -> sum_loop p rs sts t = Ok x ->
  (x == t + counted p sts rs)%Q /\ (amount_wf t -> amount_wf x).
Proof.
  intros Hnd. unfold counted. revert t. induction rs as [|r rs IH]; intros t; cbn -[Qplus].
  { intros [= ->]. split; [by rewrite Qplus_0_r|done]. }
  unfold counts_for at 1, in_statuses. destruct (String.eqb (rfPaymentID r) (pID p)); cbn -[Qplus].
  - rewrite sum_statuses_spec by done. unfold refund_value.
    destruct (existsb _ sts); cbn -[Qplus].
    + destruct (ParseAmount (rfAmount r)) as [a|e] eqn:Ea; cbn -[Qplus]; [|done].
      intros [Hx Hw]%IH. split.
      * rewrite Hx, amount_Add_value. ring.
      * intros Ht. apply Hw, amount_Add_wf; [done|]. by eapply ParseAmount_wf.
    + intros [Hx Hw]%IH. split; [rewrite Hx; ring|done].
  - intros [Hx Hw]%IH. split; [rewrite Hx; ring|done].
Qed.

Definition refund_parses (r : Refund) : Prop := exists a, ParseAmount (rfAmount r) = Ok a /\ (0 < a)%Q.

Lemma sum_loop_total p rs sts t :
  NoDup sts -> Forall refund_parses rs -> exists x, sum_loop p rs sts t = Ok x.
Proof.
  intros Hnd Hrs. revert t. induction Hrs as [|r rs (a & Ha & _) Hrs IH]; intros t; cbn; [eauto|].
  destruct (negb _); [apply IH|]. rewrite sum_statuses_spec, Ha by done.
  destruct (existsb _ sts); cbn; apply IH.
Qed.

Lemma sumRefunds_value p rs sts x :
  NoDup sts -> sumRefunds p rs sts = Ok x -> (x == counted p sts rs)%Q /\ amount_wf x.
Proof.
  intros Hnd H. apply sum_loop_value in H as [Hx Hw]; [|done]. split; [|apply Hw, amount_zero_wf].
  rewrite Hx. unfold amount_zero. ring.
Qed.

Definition done_statuses : list RefundStatus := [RefundSucceeded].
Definition open_statuses : list RefundStatus := [RefundPending; RefundManualRequired].

Lemma done_statuses_nodup : NoDup done_statuses.
Proof. by apply NoDup_singleton. Qed.
Lemma open_statuses_nodup : NoDup open_statuses.
Proof. unfold open_statuses. by repeat constructor; set_solver. Qed.

Lemma refund_value_pos r : refund_parses r -> (0 < refund_value r)%Q.
Proof. intros (a & Ha & ?). unfold refund_value. by rewrite Ha. Qed.

Lemma counts_for_nonneg p sts r : refund_parses r -> (0 <= counts_for p sts r)%Q.
Proof.
  intros H%refund_value_pos. unfold counts_for. destruct (in_statuses p sts r); lra.
Qed.

Lemma counted_nonneg p sts rs : Forall refund_parses rs -> (0 <= counted p sts rs)%Q.
Proof.
  intros H. apply qsum_nonneg, Forall_map. eapply Forall_impl; [exact H|].
  intros r. apply counts_for_nonneg.
Qed.

(** What [Refundable] computes for a counting payment. *)
Lemma Refundable_value p rs x :
  Refundable p rs = Ok x -> Counts (pStatus p) = true ->
  exists amount recorded, ParseAmount (pAmount p) = Ok amount /\ recorded_refunds p = Ok recorded /\
    (x == Qmax 0 (amount - Qmax recorded (counted p done_statuses rs) - counted p open_statuses rs))%Q.
Proof.
  unfold Refundable. intros H Hc. rewrite Hc in H. cbn [negb] in H.
  apply bind_Ok in H as (amount & Ha & H). apply bind_Ok in H as (rec & Hr & H).
  apply bind_Ok in H as (d & [Hd _]%sumRefunds_value & H); [|apply done_statuses_nodup].
  apply bind_Ok in H as (o & [Ho _]%sumRefunds_value & H); [|apply open_statuses_nodup].
  exists amount, rec. split_and!; [done..|]. fold done_statuses open_statuses in Hd, Ho.
  set (left := amount_Sub _ _) in H.
  assert (Hl : (left == amount - Qmax rec (counted p done_statuses rs) - counted p open_statuses rs)%Q).
  { subst left. rewrite !amount_Sub_value, amount_Max_value. by rewrite Hd, Ho. }
  rewrite <- Hl. destruct (amount_Sign left <? 0) eqn:E; amount_simpl; injection H as <-.
  - symmetry. unfold amount_zero. apply Q.max_l. lra.
  - symmetry. by apply Q.max_r.
Qed.

(** ** [CheckRefund] *)

Lemma find_key_None p rs next amount :
  find_key p rs next amount = None -> forall r, r ∈ rs -> rfIdempotencyKey r <> rfIdempotencyKey next.
Proof.
  induction rs as [|r rs IH]; cbn; [set_solver|].
  destruct (String.eqb_spec (rfIdempotencyKey r) (rfIdempotencyKey next)) as [|Hne]; cbn; [done|].
  intros H x [->|Hx]%elem_of_cons; auto.
Qed.

Lemma find_key_Some p rs next amount r :
  find_key p rs next amount = Some (Ok r) ->
  r ∈ rs /\ rfIdempotencyKey r = rfIdempotencyKey next /\ rfPaymentID r = pID p /\
  rfCurrency r = rfCurrency next /\ rfDestination r = rfDestination next /\
  exists prev, ParseAmount (rfAmount r) = Ok prev /\ (prev == amount)%Q.
Proof.
  induction rs as [|x rs IH]; cbn; [done|].
  destruct (String.eqb_spec (rfIdempotencyKey x) (rfIdempotencyKey next)) as [Hk|Hne]; cbn.
  - destruct (ParseAmount (rfAmount x)) as [prev|] eqn:Ea; [|done].
    destruct (_ || _) eqn:Ec; [done|]. intros [= <-].
    rewrite !orb_false_iff, !negb_false_iff, cmp_ne_false, !String.eqb_eq, bool_decide_eq_true in Ec.
    split_and!; try tauto; [set_solver|]. exists prev. tauto.
  - intros H. destruct (IH H) as (? & Hrest). split; [set_solver|done].
Qed.

Definition with_default_currency (p : Payment) (next : Refund) : Refund :=
  if String.eqb (rfCurrency next) "" then refund_with_currency next (pCurrency p) else next.

Lemma default_currency_key p next :
  rfIdempotencyKey (with_default_currency p next) = rfIdempotencyKey next /\
  rfAmount (with_default_currency p next) = rfAmount next /\
  rfDestination (with_default_currency p next) = rfDestination next.
Proof. unfold with_default_currency. by destruct (String.eqb (rfCurrency next) ""). Qed.

(** A refund [CheckRefund] admits as new. *)
Lemma CheckRefund_new p rs next :
  CheckRefund p rs next = Ok None ->
  exists amount left, ParseAmount (rfAmount next) = Ok amount /\ Refundable p rs = Ok left /\
    (0 < amount)%Q /\ (amount <= left)%Q /\ Counts (pStatus p) = true /\
    decimals (MinorUnits (pCurrency p)) amount /\
    forall r, r ∈ rs -> rfIdempotencyKey r <> rfIdempotencyKey next.
Proof.
  unfold CheckRefund. rewrite require_bind_Ok. intros [_ H].
  fold (with_default_currency p next) in H. destruct (default_currency_key p next) as (Hk & Ha & _).
  apply bind_Ok in H as (amount & Hm & H). rewrite Ha in Hm. apply ParseMoney_Ok in Hm as (Hp & _ & Hd).
  destruct (find_key p rs _ amount) as [[r|e]|] eqn:Ef; [done..|].
  rewrite !require_bind_Ok in H. destruct H as (_ & _ & Hc & Hcur & Hs & H).
  apply bind_Ok in H as (left & Hl & H). rewrite require_bind_Ok in H. destruct H as [Hle _].
  apply String.eqb_eq in Hcur. rewrite Hcur in Hd.
  apply negb_true_iff in Hs, Hle. rewrite sign_nonpos_false in Hs. rewrite cmp_gt_false in Hle.
  exists amount, left. split_and!; [done..|]. intros r Hr.
  rewrite <- Hk. by eapply find_key_None.
Qed.

(** [CheckRefund] answers a replay only with an existing refund of the
    same payment, key, amount, currency and destination; it admits a new
    refund only when its key is unused and its positive, quantized amount
    fits in what [Refundable] leaves: the amount minus the larger of the
    recorded and succeeded refunds minus those in flight. *)
Theorem CheckRefund_correct p rs next res :
  CheckRefund p rs next = Ok res ->
  exists amount, ParseAmount (rfAmount next) = Ok amount /\
  match res with
  | Some r =>
      r ∈ rs /\ rfIdempotencyKey r = rfIdempotencyKey next /\ rfPaymentID r = pID p /\
      rfDestination r = rfDestination next /\ (refund_value r == amount)%Q
  | None =>
      (forall r, r ∈ rs -> rfIdempotencyKey r <> rfIdempotencyKey next) /\ (0 < amount)%Q /\
      exists total recorded, ParseAmount (pAmount p) = Ok total /\ recorded_refunds p = Ok recorded /\
        (Qmax recorded (counted p done_statuses rs) + counted p open_statuses rs + amount <= total)%Q
  end.
Proof.
  destruct res as [r|]; intros H.
  - unfold CheckRefund in H. rewrite require_bind_Ok in H. destruct H as [_ H].
    fold (with_default_currency p next) in H. destruct (default_currency_key p next) as (Hk & Ha & Hd).
    apply bind_Ok in H as (amount & Hm & H). rewrite Ha in Hm.
    apply ParseMoney_Ok in Hm as (Hp & _). exists amount. split; [done|].
    destruct (find_key p rs _ amount) as [[r'|e]|] eqn:Ef.
    + injection H as ->. apply find_key_Some in Ef as (Hin & E1 & E2 & _ & E3 & prev & Hprev & Heq).
      rewrite E1, E3, Hk, Hd. unfold refund_value. by rewrite Hprev.
    + done.
    + rewrite !require_bind_Ok in H. destruct H as (_ & _ & _ & _ & _ & H).
      apply bind_Ok in H as (left & _ & H). rewrite require_bind_Ok in H. by destruct H as [_ ?].
  - apply CheckRefund_new in H as (amount & left & Ha & Hl & Hpos & Hle & Hc & _ & Hk).
    exists amount. split_and!; [done..|].
    apply Refundable_value in Hl as (total & rec & Ht & Hr & Hl); [|done].
    exists total, rec. split_and!; [done..|]. rewrite Hl in Hle.
    destruct (Q.max_spec 0 (total - Qmax rec (counted p done_statuses rs) - counted p open_statuses rs))
      as [[_ E]|[_ E]]; rewrite E in Hle; lra.
Qed.

Definition sample_refund : Refund :=
  mkRefund "rf-1" "pay-1" RefundToOriginal "" "" "20.00" "" RefundPending "" "rk-1" "" "" false ""
    true "" false 0 None.

Lemma CheckRefund_correct_witness :
  CheckRefund sample_payment [] sample_refund = Ok None /\
  exists amount, ParseAmount (rfAmount sample_refund) = Ok amount /\
      (forall r, r ∈ [] -> rfIdempotencyKey r <> rfIdempotencyKey sample_refund) /\ (0 < amount)%Q /\
      exists total recorded, ParseAmount (pAmount sample_payment) = Ok total /\
        recorded_refunds sample_payment = Ok recorded /\
        (Qmax recorded (counted sample_payment done_statuses []) +
         counted sample_payment open_statuses [] + amount <= total)%Q.
Proof.
  assert (CheckRefund sample_payment [] sample_refund = Ok None) as H by (vm_compute; reflexivity).
  split; [exact H|]. exact (CheckRefund_correct sample_payment [] sample_refund None H).
Defined.

(** ** The lifecycle of a payment's refunds *)

(** A refund is recorded pending, as a child of the payment and in its
    currency (ledger.CreateRefund). *)
Definition recorded_as (p : Payment) (next : Refund) : Refund :=
  refund_with_status (mkRefund (rfID next) (pID p) (rfDestination next) (rfProvider next)
    (rfProviderRefundID next) (rfAmount next) (pCurrency p) (rfStatus next) (rfReason next)
    (rfIdempotencyKey next) (rfSourceType next) (rfSourceID next) (rfCreditNoteRequired next)
    (rfCreditNoteID next) (rfAdjustsTotal next) (rfCashSessionID next) (rfNeedsReview next)
    (rfCreatedAt next) (rfSettledAt next)) RefundPending.

Inductive refund_step : Payment * list Refund -> Payment * list Refund -> Prop :=
| refund_request p rs next :
    CheckRefund p rs next = Ok None -> refund_step (p, rs) (p, rs ++ [recorded_as p next])
| refund_move p rs i r to :
    rs !! i = Some r -> CanTransitionRefund (rfStatus r) to = true ->
    refund_step (p, rs) (p, <[i := refund_with_status r to]> rs)
| refund_apply p p' rs :
    ApplySucceededRefunds p rs = Ok p' -> refund_step (p, rs) (p', rs).

Record refund_inv (amount : Amount) (s : Payment * list Refund) : Prop := {
  ri_amount : ParseAmount (pAmount s.1) = Ok amount;
  ri_recorded : exists recorded, recorded_refunds s.1 = Ok recorded /\ amount_wf recorded /\
    (0 <= recorded)%Q /\ pStatus s.1 = StatusAfterRefunds amount recorded /\
    (Qmax recorded (counted s.1 done_statuses s.2) + counted s.1 open_statuses s.2 <= amount)%Q;
  ri_parses : Forall refund_parses s.2;
  ri_owned : Forall (fun r => rfPaymentID r = pID s.1) s.2;
  ri_keys : NoDup (map rfIdempotencyKey s.2)
}.

Lemma counted_payment p p' sts rs : pID p = pID p' -> counted p sts rs = counted p' sts rs.
Proof. intros E. unfold counted, counts_for, in_statuses. by rewrite E. Qed.

Lemma counted_snoc p sts rs r : (counted p sts (rs ++ [r]) == counted p sts rs + counts_for p sts r)%Q.
Proof. unfold counted. rewrite map_app, qsum_app. cbn -[Qplus]. by rewrite Qplus_0_r. Qed.

Lemma counted_insert p sts rs i r r' :
  rs !! i = Some r ->
  (counted p sts (<[i:=r']> rs) == counted p sts rs - counts_for p sts r + counts_for p sts r')%Q.
Proof.
  intros H. unfold counted. change (@map) with (fun A B => @fmap list _ A B). cbn beta.
  rewrite list_fmap_insert. apply qsum_insert. by rewrite list_lookup_fmap, H.
Qed.

(** A move only takes money out of flight, and what it adds to the succeeded
    refunds was in flight. *)
Lemma move_counts p r to :
  refund_parses r -> rfPaymentID r = pID p -> CanTransitionRefund (rfStatus r) to = true ->
  let r' := refund_with_status r to in
  (counts_for p done_statuses r == 0)%Q /\
  (0 <= counts_for p done_statuses r' /\
   counts_for p open_statuses r' + counts_for p done_statuses r' <= counts_for p open_statuses r)%Q.
Proof.
  intros Hp%refund_value_pos Hid Ht. cbv zeta.
  assert (Hv : refund_value (refund_with_status r to) = refund_value r) by done.
  unfold counts_for, in_statuses, done_statuses, open_statuses, CanTransitionRefund in *.
  rewrite Hv. cbn [rfPaymentID refund_with_status rfStatus].
  assert (String.eqb (rfPaymentID r) (pID p) = true) as -> by by apply String.eqb_eq.
  destruct (rfStatus r); destruct to; vm_compute in Ht; try discriminate Ht; clear Ht;
    cbn -[Qplus]; decide_closed;
    cbn -[Qplus]; (split; [|split]); lra.
Qed.

Lemma max_move d rec o x y :
  (Qmax rec d + o <= x)%Q -> (0 <= y)%Q -> forall o', (o' + y <= o)%Q -> (Qmax rec (d + y) + o' <= x)%Q.
Proof.
  intros H Hy o' Ho. destruct (Q.max_spec rec d) as [[? E]|[? E]]; rewrite E in H;
    destruct (Q.max_spec rec (d + y)) as [[? E']|[? E']]; rewrite E'; lra.
Qed.

Lemma sumRefunds_total p rs sts :
  NoDup sts -> Forall refund_parses rs ->
  exists x, sumRefunds p rs sts = Ok x /\ (x == counted p sts rs)%Q /\ amount_wf x.
Proof.
  intros Hnd Hrs. destruct (sum_loop_total p rs sts amount_zero Hnd Hrs) as [x Hx].
  exists x. split; [exact Hx|]. by apply (sumRefunds_value p rs sts x).
Qed.

(** Under the invariant [ApplySucceededRefunds] succeeds, and records the
    larger of the two totals. *)
Lemma apply_inv amount p rs :
  refund_inv amount (p, rs) ->
  exists p', ApplySucceededRefunds p rs = Ok p' /\ refund_inv amount (p', rs).
Proof.
  intros [Ha (rec & Hr & Hrw & Hr0 & Hst & Hle) Hp Ho Hk]. cbn [fst snd] in *.
  destruct (sumRefunds_total p rs done_statuses done_statuses_nodup Hp) as (d & Hd & Hdv & Hdw).
  unfold ApplySucceededRefunds.
  assert (Captured (pStatus p) = true) as ->.
  { rewrite Hst. by destruct (StatusAfterRefunds_cases amount rec) as [(-> & _)|[(-> & _)|(-> & _)]]. }
  cbn. rewrite Ha. cbn. fold done_statuses. rewrite Hd, Hr. cbn.
  pose proof (counted_nonneg p open_statuses rs Hp) as Hopen.
  pose proof (Q.le_max_r rec (counted p done_statuses rs)) as Hmax.
  assert (cmp_gt d amount = false) as ->. { apply cmp_gt_false. rewrite Hdv. lra. }
  cbn. eexists. split; [done|].
  set (total := amount_Max rec d). assert (Htw : amount_wf total) by by apply amount_Max_wf.
  assert (Htv : (total == Qmax rec (counted p done_statuses rs))%Q).
  { unfold total. by rewrite amount_Max_value, Hdv. }
  pose proof (Q.le_max_l rec (counted p done_statuses rs)) as Hmax'.
  split; cbn [fst snd]; [exact Ha| |done|done|done].
  assert (Hdone : forall q, (0 <= q)%Q -> (q == total)%Q -> (Qmax q (counted p done_statuses rs) == total)%Q).
  { intros q _ Hq. rewrite Q.max_l; [done|]. rewrite Hq, Htv. done. }
  destruct (0 <? amount_Sign total) eqn:Es.
  - exists total. unfold recorded_refunds. cbn [pAmountRefunded payment_with_refunds pStatus].
    rewrite amount_String_parse by done. apply sign_pos in Es. split_and!; [|done|lra|done|].
    + destruct (String.eqb_spec (amount_String total) "") as [E|]; [|done].
      exfalso. pose proof (amount_String_parse total Htw) as Hs. by rewrite E in Hs.
    + rewrite !(counted_payment (payment_with_refunds _ _ _) p) by done.
      rewrite Hdone by (lra || done). lra.
  - apply Z.ltb_ge in Es. assert (total <= 0)%Q as Hz by (apply sign_nonpos; by apply Z.leb_le).
    exists rec. unfold recorded_refunds in *. cbn [pAmountRefunded payment_with_refunds pStatus].
    split_and!; [done..| |].
    + unfold StatusAfterRefunds. assert (amount_Sign total <=? 0 = true) as -> by by apply sign_nonpos.
      assert (amount_Sign rec <=? 0 = true) as ->; [apply sign_nonpos; lra|done].
    + by rewrite !(counted_payment (payment_with_refunds _ _ _) p) by done.
Qed.

Lemma refund_step_inv amount s s' : refund_inv amount s -> refund_step s s' -> refund_inv amount s'.
Proof.
  intros Hinv Hstep. destruct Hstep as [p rs next Hc|p rs i r to Hi Ht|p p' rs Hap].
  - destruct Hinv as [Ha (rec & Hr & Hrw & Hr0 & Hst & Hle) Hp Ho Hk]. cbn [fst snd] in *.
    apply CheckRefund_new in Hc as (a & left & Hpa & Hl & Hpos & Hal & Hcnt & _ & Hkey).
    assert (Hrp : refund_parses (recorded_as p next)) by (exists a; done).
    split; cbn [fst snd]; [done| | | |].
    + exists rec. split_and!; [done..|]. rewrite !counted_snoc.
      unfold counts_for, in_statuses. cbn [rfPaymentID recorded_as refund_with_status rfStatus].
      rewrite String.eqb_refl. cbn -[Qplus Qmax]. decide_closed. cbn -[Qplus Qmax].
      apply Refundable_value in Hl as (amount' & rec' & Ha' & Hr' & Hl); [|done].
      rewrite Ha in Ha'. injection Ha' as <-. rewrite Hr in Hr'. injection Hr' as <-.
      unfold refund_value. cbn [rfAmount recorded_as refund_with_status]. rewrite Hpa, Qplus_0_r.
      rewrite Hl in Hal.
      destruct (Q.max_spec 0 (amount - Qmax rec (counted p done_statuses rs) - counted p open_statuses rs))
        as [[_ E]|[_ E]]; rewrite E in Hal; lra.
    + apply Forall_app. split; [done|]. by constructor.
    + apply Forall_app. split; [done|]. by constructor.
    + rewrite map_app. apply NoDup_app. split_and!; [done| |by apply NoDup_singleton].
      intros k Hin Hs. apply list_elem_of_singleton in Hs as ->. apply list_elem_of_fmap in Hin as (r & E & Hr').
      by apply (Hkey r).
  - destruct Hinv as [Ha (rec & Hr & Hrw & Hr0 & Hst & Hle) Hp Ho Hk]. cbn [fst snd] in *.
    assert (refund_parses r) as Hrp by by eapply Forall_lookup_1 in Hp.
    assert (rfPaymentID r = pID p) as Hrid by by eapply Forall_lookup_1 in Ho.
    split; cbn [fst snd]; [done| | | |].
    + exists rec. split_and!; [done..|]. rewrite !(counted_insert _ _ _ _ _ _ Hi).
      destruct (move_counts p r to Hrp Hrid Ht) as (E0 & Hy & Ho'). cbv zeta in *. rewrite E0.
      set (y := counts_for p done_statuses (refund_with_status r to)) in *.
      set (o := counted p open_statuses rs) in *. set (d := counted p done_statuses rs) in *.
      assert ((d - 0 + y == d + y)%Q) as -> by ring.
      eapply max_move; [exact Hle|exact Hy|]. lra.
    + apply Forall_insert; [done|]. destruct Hrp as (a & ? & ?). by exists a.
    + by apply Forall_insert.
    + change (@map) with (fun A B => @fmap list _ A B). cbn beta. rewrite list_fmap_insert. cbn.
      rewrite list_insert_id; [done|]. by rewrite list_lookup_fmap, Hi.
  - destruct (apply_inv amount p rs Hinv) as (p1 & E & Hi). rewrite Hap in E. by injection E as <-.
Qed.

Lemma payment_wf_refund_inv p amount refunded :
  payment_wf p amount refunded -> Captured (pStatus p) = true -> refund_inv amount (p, []).
Proof.
  intros [_ [[Ha _]%ParseMoney_Ok Hpos] (Hr & [H0 H1] & Hm) _ _ _] Hc.
  split; cbn [fst snd]; [done| |constructor|constructor|constructor].
  exists refunded. unfold parse_refunded in Hr. unfold recorded_refunds.
  destruct (String.eqb (pAmountRefunded p) ""); split_and!; try done.
  - injection Hr as <-. apply amount_zero_wf.
  - injection Hr as <-. destruct (pStatus p); cbn in Hc; try done; cbn in Hm; unfold amount_zero in *; exfalso; lra.
  - unfold counted. cbn -[Qplus Qmax]. rewrite Q.max_l by done. lra.
  - by apply ParseMoney_Ok in Hr as [? _].
  - apply ParseMoney_Ok in Hr as [? _]. by eapply ParseAmount_wf.
  - destruct (StatusAfterRefunds_cases amount refunded) as [(-> & ?)|[(-> & ? & ?)|(-> & ? & ?)]];
      destruct (pStatus p); cbn in Hc, Hm; try done; exfalso; lra.
  - unfold counted. cbn -[Qplus Qmax]. rewrite Q.max_l by done. lra.
Qed.

(** From a valid captured payment without refund rows, after any sequence
    of refund requests [CheckRefund] admitted, status moves of the refunds and
    [ApplySucceededRefunds]: the money returned (recorded or succeeded) plus
    what may still return never exceeds the captured amount, no idempotency
    key has two refunds, the payment's status is the one its refunded total
    stands for, and [ApplySucceededRefunds] never fails. *)
Theorem refunds_never_exceed p0 amount refunded p rs :
  payment_wf p0 amount refunded -> Captured (pStatus p0) = true ->
  rtc refund_step (p0, []) (p, rs) ->
  ParseAmount (pAmount p) = Ok amount /\ NoDup (map rfIdempotencyKey rs) /\
  (exists p', ApplySucceededRefunds p rs = Ok p') /\
  exists recorded, recorded_refunds p = Ok recorded /\
    refunds_match (pStatus p) amount recorded /\
    (Qmax recorded (counted p done_statuses rs) + counted p open_statuses rs <= amount)%Q.
Proof.
  intros Hwf Hc Hr. pose proof (payment_wf_refund_inv _ _ _ Hwf Hc) as Hi.
  assert (refund_inv amount (p, rs)) as Hinv.
  { remember (p0, []) as s0 eqn:E0. clear E0 Hwf Hc p0 refunded. remember (p, rs) as s eqn:E. clear E.
    induction Hr as [|x y z Hxy _ IH]; [done|]. apply IH. by eapply refund_step_inv. }
  destruct (apply_inv amount p rs Hinv) as (p' & Hap & _).
  destruct Hinv as [Ha (rec & Hrec & _ & H0 & Hst & Hle) Hp _ Hk]. cbn [fst snd] in *.
  split_and!; [done..|by exists p'|]. exists rec. split_and!; [done| |done].
  pose proof (counted_nonneg p open_statuses rs Hp).
  pose proof (Q.le_max_l rec (counted p done_statuses rs)). rewrite Hst.
  destruct (StatusAfterRefunds_cases amount rec) as [(-> & ?)|[(-> & ? & ?)|(-> & ? & ?)]]; cbn; lra.
Qed.

Lemma refunds_never_exceed_witness :
  rtc refund_step (sample_payment, []) (sample_payment, [recorded_as sample_payment sample_refund]) /\
  NoDup (map rfIdempotencyKey [recorded_as sample_payment sample_refund]) /\
  (exists p', ApplySucceededRefunds sample_payment [recorded_as sample_payment sample_refund] = Ok p').
Proof.
  assert (rtc refund_step (sample_payment, [])
    (sample_payment, [recorded_as sample_payment sample_refund])) as Hr.
  { apply rtc_once. apply (refund_request sample_payment [] sample_refund). vm_compute. reflexivity. }
  split; [exact Hr|].
  destruct (refunds_never_exceed _ _ _ _ _ sample_payment_wf eq_refl Hr) as (_ & ? & ? & _). by split.
Defined.

(** ** What counts as paid *)

Definition payment_value (p : Payment) : Q :=
  match ParseAmount (pAmount p) with Ok a => a | Err _ => 0%Q end.
Definition captured_value (p : Payment) : Q := if Captured (pStatus p) then payment_value p else 0%Q.

(** A refund that lowers the document total, of one of its captured payments. *)
Definition adjusts (payments : list Payment) (r : Refund) : bool :=
  rfAdjustsTotal r && negb (bool_decide (rfStatus r = RefundFailed)) &&
  existsb (fun p => Captured (pStatus p) && String.eqb (pID p) (rfPaymentID r)) payments.
Definition adjusted_value (payments : list Payment) (r : Refund) : Q :=
  if adjusts payments r then refund_value r else 0%Q.

Lemma paid_payments_value payments paid ids paid' ids' :
  paid_payments payments paid ids = Ok (paid', ids') ->
  (paid' == paid + qsum (map captured_value payments))%Q /\
  forall x, x ∈ ids' <-> x ∈ ids \/ existsb (fun p => Captured (pStatus p) && String.eqb (pID p) x) payments = true.
Proof.
  revert paid ids. induction payments as [|p payments IH]; intros paid ids; cbn -[Qplus].
  { intros [= -> ->]. unfold Amount in *. split; [ring|]. naive_solver. }
  unfold captured_value at 1, payment_value. destruct (Captured (pStatus p)); cbn -[Qplus].
  - destruct (ParseAmount (pAmount p)) as [a|]; cbn -[Qplus]; [|done].
    intros [Hv Hids]%IH. split; [rewrite Hv, amount_Add_value; ring|].
    intros x. rewrite Hids, elem_of_union, elem_of_singleton, orb_true_iff, String.eqb_eq.
    naive_solver.
  - intros [Hv Hids]%IH. split; [rewrite Hv; ring|]. intros x. by rewrite Hids.
Qed.

Lemma paid_refunds_value payments refunds ids paid paid' :
  (forall x, x ∈ ids <-> existsb (fun p => Captured (pStatus p) && String.eqb (pID p) x) payments = true) ->
  paid_refunds refunds ids paid = Ok paid' ->
  (paid' == paid - qsum (map (adjusted_value payments) refunds))%Q.
Proof.
  intros Hids. revert paid. induction refunds as [|r refunds IH]; intros paid; cbn -[Qplus Qminus].
  { intros [= ->]. unfold Amount in *. ring. }
  unfold adjusted_value at 1, adjusts, refund_value.
  assert (bool_decide (rfPaymentID r ∈ ids) =
    existsb (fun p => Captured (pStatus p) && String.eqb (pID p) (rfPaymentID r)) payments) as ->.
  { apply eq_bool_prop_intro. rewrite !Is_true_true, bool_decide_eq_true. apply Hids. }
  destruct (rfAdjustsTotal r), (existsb _ payments), (bool_decide (rfStatus r = RefundFailed));
    cbn -[Qplus Qminus]; try (intros H%IH; rewrite H; ring).
  destruct (ParseAmount (rfAmount r)) as [a|]; cbn -[Qplus Qminus]; [|done].
  intros H%IH. rewrite H, amount_Sub_value. ring.
Qed.

(** [DocumentPaid] is the sum of the captured payments minus the refunds
    of those payments that came with a reduction of the total and have not
    failed; so a refund that does not adjust the total changes nothing,
    whatever its status: it never reopens the document's debt. *)
Theorem DocumentPaid_correct payments refunds paid :
  DocumentPaid payments refunds = Ok paid ->
  (paid == qsum (map captured_value payments) - qsum (map (adjusted_value payments) refunds))%Q /\
  forall before after r, refunds = before ++ after -> rfAdjustsTotal r = false ->
    DocumentPaid payments (before ++ r :: after) = Ok paid.
Proof.
  unfold DocumentPaid. intros H. apply bind_Ok in H as ([pd ids] & Hp & Hr).
  pose proof (paid_payments_value _ _ _ _ _ Hp) as [Hv Hids]. split.
  - rewrite (paid_refunds_value payments _ _ _ _) by
      (exact Hr || (intros x; rewrite Hids, elem_of_empty; tauto)).
    rewrite Hv. unfold amount_zero. ring.
  - intros before after r -> Hadj. rewrite Hp. cbn. rewrite <- Hr. clear Hr Hp Hv.
    revert pd. induction before as [|b before IH]; intros pd; cbn.
    + by rewrite Hadj.
    + destruct (_ || _); [apply IH|]. destruct (ParseAmount (rfAmount b)); cbn; [apply IH|done].
Qed.

Lemma DocumentPaid_correct_witness :
  exists paid, DocumentPaid [sample_payment] [recorded_as sample_payment sample_refund] = Ok paid /\
  (paid == 80)%Q /\
  (paid == qsum (map captured_value [sample_payment]) -
    qsum (map (adjusted_value [sample_payment]) [recorded_as sample_payment sample_refund]))%Q.
Proof.
  eexists. split; [vm_compute; reflexivity|]. split; [reflexivity|].
  apply (DocumentPaid_correct [sample_payment] [recorded_as sample_payment sample_refund]).
  vm_compute. reflexivity.
Defined.
