(* ===== verification/PaySettle.v ===== *)
(** * Payments: collecting and charging a document (payments/settle.go)

    [CheckTenders], [CheckLinesTotal], the cash tolerance, [Settle] (due,
    applied, change, rounding and remaining amounts of a collection) and
    [CheckReplay], the verdict on a charge request.  [charge_step] is the
    life of a document's payments under those verdicts. *)

From Stdlib Require Import QArith Qminmax Lqa.
From S2P Require Import Prelude GoStrings PayStatus PayAmount PayModel PayRefund.

Open Scope Z_scope.

(** ** Tenders and lines *)

Fixpoint tender_sum (currency : string) (tenders : list string) (sum : Amount) : result pay_error Amount :=
  match tenders with
  | [] => Ok sum
  | t :: tenders =>
      a ← ParseMoney t currency;
      _ ← require (negb (amount_Sign a <=? 0)) ErrTenderMismatch;
      tender_sum currency tenders (amount_Add sum a)
  end.

Definition CheckTenders (currency declared : string) (tenders : list string) : result pay_error unit :=
  want ← ParseMoney declared currency;
  sum ← tender_sum currency tenders amount_zero;
  require (negb (cmp_ne sum want)) ErrTenderMismatch.

Definition CheckLinesTotal (total : string) (lineTotals : list string) : result pay_error unit :=
  t ← ParseAmount total;
  sum ← Sum lineTotals;
  require (negb (cmp_ne sum t)) ErrLinesMismatch.

(** ** Settling *)

Record Settlement := mkSettlement {
  Due : Amount; Applied : Amount; Change : Amount; Rounding : Amount; Remaining : Amount;
  Settled : bool
}.

(** [MustAmount("1").Sub(MinorUnit(currency))]. *)
Definition MaxCashTolerance (currency : string) : Amount :=
  amount_Sub (amount_of 1 0) (MinorUnit currency).

Definition MaxRoundingPercent : Z := 10.
(** [MustAmount("10").Mul(MustAmount("0.01"))]. *)
Definition maxRoundingShare : Amount := amount_Mul (amount_of MaxRoundingPercent 0) (amount_of 1 2).

Definition orZero (s : string) : string := if blank s then "0" else s.

Definition CheckCashTolerance (tolerance currency : string) : result pay_error Amount :=
  tol ← wrap_error (fun _ => ErrInvalidTolerance) (ParseMoney (orZero tolerance) currency);
  _ ← require (negb ((amount_Sign tol <? 0) || cmp_gt tol (MaxCashTolerance currency))) ErrInvalidTolerance;
  Ok tol.

Record Collection := mkCollection {
  cCurrency : string; cTotal : string; cAlreadyPaid : string; cNonCash : string; cCash : string;
  cCashTolerance : string
}.

(** The closure [parse] of [Settle]. *)
Definition settle_parse (currency v : string) : result pay_error Amount :=
  a ← ParseMoney (orZero v) currency;
  _ ← require (negb (amount_Sign a <? 0)) ErrNegativeAmount;
  Ok a.

Definition Settle (c : Collection) : result pay_error Settlement :=
  total ← settle_parse (cCurrency c) (cTotal c);
  paid ← settle_parse (cCurrency c) (cAlreadyPaid c);
  nonCash ← settle_parse (cCurrency c) (cNonCash c);
  cash ← settle_parse (cCurrency c) (cCash c);
  tol ← CheckCashTolerance (cCashTolerance c) (cCurrency c);
  _ ← require (negb (amount_Sign (amount_Add nonCash cash) <=? 0)) ErrTenderMismatch;
  let due := amount_Sub total paid in
  _ ← require (negb (amount_Sign due <=? 0)) ErrNothingDue;
  _ ← require (negb (cmp_gt nonCash due)) ErrExceedsTotal;
  let rest := amount_Sub due nonCash in
  if negb (cmp_lt cash rest) then
    Ok (mkSettlement due due (amount_Sub cash rest) amount_zero amount_zero true)
  else if (0 <? amount_Sign cash) && negb (cmp_gt (amount_Sub rest cash) tol) &&
          negb (cmp_gt (amount_Sub rest cash) (amount_Mul rest maxRoundingShare)) then
    Ok (mkSettlement due (amount_Add nonCash cash) amount_zero (amount_Sub rest cash) amount_zero true)
  else
    let applied := amount_Add nonCash cash in
    Ok (mkSettlement due applied amount_zero amount_zero (amount_Sub due applied) false).

(** ** The verdict on a charge *)

Inductive Verdict : Type :=
| VerdictNew | VerdictReplay | VerdictAlreadyPaid | VerdictInProgress | VerdictRetryNewKey.
#[export] Instance Verdict_eq_dec : EqDecision Verdict.
Proof. solve_decision. Defined.

(** The first payment that satisfies a test, as both loops of [CheckReplay] look for. *)
Fixpoint first_payment (f : Payment -> bool) (payments : list Payment) : option Payment :=
  match payments with
  | [] => None
  | p :: payments => if f p then Some p else first_payment f payments
  end.

Definition CheckReplay (payments : list Payment) (refunds : list Refund) (idempotencyKey total : string) :
    result pay_error (Verdict * option Payment) :=
  _ ← require (negb (blank idempotencyKey)) ErrKeyRequired;
  match first_payment (fun p => String.eqb (pIdempotencyKey p) idempotencyKey) payments with
  | Some p =>
      if Captured (pStatus p) then Ok (VerdictReplay, Some p)
      else if Open (pStatus p) then Ok (VerdictInProgress, Some p)
      else Ok (VerdictRetryNewKey, Some p)
  | None =>
      t ← ParseAmount total;
      _ ← require (negb (amount_Sign t <=? 0)) ErrNegativeAmount;
      paid ← DocumentPaid payments refunds;
      if negb (cmp_lt paid t) then Ok (VerdictAlreadyPaid, None)
      else match first_payment (fun p => Open (pStatus p)) payments with
           | Some p => Ok (VerdictInProgress, Some p)
           | None => Ok (VerdictNew, None)
           end
  end.

Example max_tolerance_mxn : MaxCashTolerance "MXN" = (99 # 100)%Q.
Proof. vm_compute. reflexivity. Qed.
Example max_tolerance_jpy : MaxCashTolerance "JPY" = 0%Q.
Proof. vm_compute. reflexivity. Qed.
Example settle_change :
  Settle (mkCollection "MXN" "100.00" "" "40.00" "100.00" "") =
  Ok (mkSettlement (100 # 1) (100 # 1) (40 # 1) 0%Q 0%Q true).
Proof. vm_compute. reflexivity. Qed.

(** ** Tenders: theorems *)

Lemma tender_sum_Ok currency tenders s x :
  tender_sum currency tenders s = Ok x <->
  exists l, Forall2 (fun t a => ParseMoney t currency = Ok a /\ (0 < a)%Q) tenders l /\
    x = foldl amount_Add s l.
Proof.
  revert s. induction tenders as [|t tenders IH]; intros s; cbn [tender_sum].
  - split; [intros [= ->]; exists []; by split|].
    intros (l & Hl%Forall2_nil_inv_l & ->). by subst.
  - rewrite bind_Ok. setoid_rewrite require_bind_Ok. setoid_rewrite negb_true_iff.
    setoid_rewrite sign_nonpos_false. split.
    + intros (a & Ha & Hpos & (l & Hl & ->)%IH). exists (a :: l). split; [by constructor|done].
    + intros (l & Hl & ->). inversion Hl as [|? a ? l' [Ha Hpos] Hl']; subst. exists a.
      split_and!; [done..|]. apply IH. by exists l'.
Qed.

Lemma foldl_amount_Add l s : (foldl amount_Add s l == s + qsum l)%Q.
Proof.
  revert s. induction l as [|a l IH]; intros s; cbn -[Qplus]; [by rewrite Qplus_0_r|].
  rewrite IH, amount_Add_value. unfold Amount in *. ring.
Qed.

(** [CheckTenders] passes exactly when the declared amount and every
    tender are quantized money of the currency, every tender is positive,
    and the tenders add up exactly to the declared amount. *)
Theorem CheckTenders_correct currency declared tenders :
  CheckTenders currency declared tenders = Ok tt <->
  exists want l, ParseMoney declared currency = Ok want /\
    Forall2 (fun t a => ParseMoney t currency = Ok a /\ (0 < a)%Q) tenders l /\ (qsum l == want)%Q.
Proof.
  unfold CheckTenders. rewrite bind_Ok. split.
  - intros (want & Hw & H). apply bind_Ok in H as (s & (l & Hl & ->)%tender_sum_Ok & H).
    apply require_Ok, negb_true_iff, cmp_ne_false in H. exists want, l. split_and!; [done..|].
    rewrite <- H, foldl_amount_Add. unfold amount_zero. by rewrite Qplus_0_l.
  - intros (want & l & Hw & Hl & Hs). exists want. split; [done|]. apply bind_Ok.
    exists (foldl amount_Add amount_zero l). split; [apply tender_sum_Ok; by exists l|].
    apply require_Ok, negb_true_iff, cmp_ne_false. rewrite foldl_amount_Add, Hs.
    unfold amount_zero. by rewrite Qplus_0_l.
Qed.

(** ** Settle: theorems *)

Lemma settle_parse_Ok cur v a :
  settle_parse cur v = Ok a <-> ParseMoney (orZero v) cur = Ok a /\ (0 <= a)%Q.
Proof.
  unfold settle_parse. rewrite bind_Ok. split.
  - intros (x & Hx & H). rewrite require_bind_Ok, negb_true_iff, sign_neg_false in H.
    destruct H as [? [= ->]]. done.
  - intros [Ha Hn]. exists a. rewrite require_bind_Ok, negb_true_iff, sign_neg_false. done.
Qed.

Lemma CheckCashTolerance_Ok tol cur a :
  CheckCashTolerance tol cur = Ok a <->
  ParseMoney (orZero tol) cur = Ok a /\ (0 <= a <= MaxCashTolerance cur)%Q.
Proof.
  unfold CheckCashTolerance. rewrite bind_Ok. split.
  - intros (x & Hx%wrap_error_Ok & H).
    rewrite require_bind_Ok, negb_true_iff, orb_false_iff, sign_neg_false, cmp_gt_false in H.
    destruct H as [? [= ->]]. done.
  - intros [Ha Hn]. exists a. rewrite wrap_error_Ok.
    rewrite require_bind_Ok, negb_true_iff, orb_false_iff, sign_neg_false, cmp_gt_false. done.
Qed.

(** The inputs of a collection, parsed. *)
Record settle_inputs (c : Collection) (total paid nonCash cash tol : Amount) : Prop := {
  in_total : settle_parse (cCurrency c) (cTotal c) = Ok total;
  in_paid : settle_parse (cCurrency c) (cAlreadyPaid c) = Ok paid;
  in_nonCash : settle_parse (cCurrency c) (cNonCash c) = Ok nonCash;
  in_cash : settle_parse (cCurrency c) (cCash c) = Ok cash;
  in_tol : CheckCashTolerance (cCashTolerance c) (cCurrency c) = Ok tol
}.

(** What [Settle] accepts. *)
Definition settle_admissible (total paid nonCash cash : Amount) : Prop :=
  (0 < nonCash + cash /\ paid < total /\ nonCash <= total - paid)%Q.

(** What a settlement of non-cash and cash on an amount due must satisfy. *)
Record settlement_ok (total paid nonCash cash tol : Amount) (s : Settlement) : Prop := {
  ok_due : (Due s == total - paid)%Q;
  ok_collected : (nonCash + cash == Applied s + Change s)%Q;
  ok_conserved : (Due s == Applied s + Rounding s + Remaining s)%Q;
  ok_nonneg : (0 <= Applied s /\ 0 <= Change s /\ 0 <= Rounding s /\ 0 <= Remaining s)%Q;
  ok_change : (Change s <= cash)%Q;
  ok_rounding : (Rounding s <= tol /\ Rounding s * 10 <= Due s - nonCash)%Q;
  ok_settled : Settled s = true <-> (Remaining s == 0)%Q;
  ok_exclusive : (0 < Change s)%Q -> (Rounding s == 0)%Q /\ (Applied s == Due s)%Q
}.

Lemma maxRoundingShare_value : (maxRoundingShare == 1 # 10)%Q.
Proof. vm_compute. reflexivity. Qed.

Lemma amount_Mul_value a b : (amount_Mul a b == a * b)%Q.
Proof. apply Qred_correct. Qed.

Lemma Settle_run c total paid nonCash cash tol :
  settle_inputs c total paid nonCash cash tol -> settle_admissible total paid nonCash cash ->
  exists s, Settle c = Ok s /\ settlement_ok total paid nonCash cash tol s.
Proof.
  intros [Ht Hp Hn Hc Htol] (Hpos & Hdue & Hfit). unfold Settle.
  rewrite Ht, Hp, Hn, Hc, Htol. cbn [mbind result_bind].
  apply settle_parse_Ok in Ht as [_ Ht], Hp as [_ Hp], Hn as [_ Hn], Hc as [_ Hc].
  apply CheckCashTolerance_Ok in Htol as [_ [Htol0 _]].
  assert ((amount_Sign (amount_Add nonCash cash) <=? 0) = false) as ->.
  { rewrite sign_nonpos_false, amount_Add_value. done. }
  pose proof (amount_Sub_value total paid) as Edue. set (due := amount_Sub total paid) in *.
  assert ((amount_Sign due <=? 0) = false) as -> by (rewrite sign_nonpos_false; lra).
  assert (cmp_gt nonCash due = false) as -> by (rewrite cmp_gt_false; lra).
  cbn [negb require mbind result_bind].
  pose proof (amount_Sub_value due nonCash) as Erest. set (rest := amount_Sub due nonCash) in *.
  pose proof (amount_Add_value nonCash cash) as Eadd. set (coll := amount_Add nonCash cash) in *.
  destruct (cmp_lt cash rest) eqn:E1; cbn [negb].
  - apply cmp_lt_spec in E1. destruct (_ && _) eqn:E2.
    + rewrite !andb_true_iff, !negb_true_iff, sign_pos, !cmp_gt_false, amount_Mul_value,
        maxRoundingShare_value, amount_Sub_value in E2. destruct E2 as [[Hcash Hle] Hshare].
      eexists. split; [done|]. pose proof (amount_Sub_value rest cash).
      split; cbn; unfold amount_zero; try lra; try done; split; try done; lra.
    + eexists. split; [done|]. pose proof (amount_Sub_value due coll).
      split; cbn; unfold amount_zero; try lra; try done; split; try done; lra.
  - apply cmp_lt_false in E1. eexists. split; [done|]. pose proof (amount_Sub_value cash rest).
    split; cbn; unfold amount_zero; try lra; try done; split; try done; lra.
Qed.

Lemma Settle_inputs c s :
  Settle c = Ok s -> exists total paid nonCash cash tol,
    settle_inputs c total paid nonCash cash tol /\ settle_admissible total paid nonCash cash.
Proof.
  unfold Settle. intros H.
  apply bind_Ok in H as (total & Ht & H). apply bind_Ok in H as (paid & Hp & H).
  apply bind_Ok in H as (nonCash & Hn & H). apply bind_Ok in H as (cash & Hc & H).
  apply bind_Ok in H as (tol & Htol & H). cbv zeta in H. rewrite !require_bind_Ok, !negb_true_iff in H.
  destruct H as (Hpos%sign_nonpos_false & Hdue%sign_nonpos_false & Hfit%cmp_gt_false & _).
  rewrite amount_Add_value in Hpos. rewrite amount_Sub_value in Hdue. rewrite amount_Sub_value in Hfit. exists total, paid, nonCash, cash, tol.
  split; [by split|]. split_and!; [done|lra|lra].
Qed.

(** [Settle] succeeds exactly on well-formed inputs with something
    collected, something due and a non-cash part that fits in it; and then
    every cent is accounted for: what was collected is what was applied plus
    the change, what was due is what was applied plus rounding plus what
    remains, nothing is negative, the change never exceeds the cash, the
    rounding never exceeds the tolerance nor a tenth of what the cash had to
    cover, and the document is settled exactly when nothing remains. *)
Theorem Settle_correct c :
  match Settle c with
  | Ok s => exists total paid nonCash cash tol,
      settle_inputs c total paid nonCash cash tol /\ settle_admissible total paid nonCash cash /\
      settlement_ok total paid nonCash cash tol s
  | Err _ => ~ exists total paid nonCash cash tol,
      settle_inputs c total paid nonCash cash tol /\ settle_admissible total paid nonCash cash
  end.
Proof.
  destruct (Settle c) as [s|e] eqn:H.
  - destruct (Settle_inputs c s H) as (total & paid & nonCash & cash & tol & Hin & Hadm).
    exists total, paid, nonCash, cash, tol.
    destruct (Settle_run c _ _ _ _ _ Hin Hadm) as (s' & Hs & Hok). rewrite H in Hs. by injection Hs as <-.
  - intros (total & paid & nonCash & cash & tol & Hin & Hadm).
    destruct (Settle_run c _ _ _ _ _ Hin Hadm) as (s' & Hs & _). by rewrite H in Hs.
Qed.

Example settle_rounding :
  Settle (mkCollection "MXN" "100.00" "" "40.00" "59.60" "0.50") =
  Ok (mkSettlement (100 # 1) (498 # 5) 0%Q (2 # 5) 0%Q true).
Proof. vm_compute. reflexivity. Qed.

(** ** CheckReplay: theorems *)

Lemma first_payment_Some f ps p : first_payment f ps = Some p -> p ∈ ps /\ f p = true.
Proof.
  induction ps as [|q ps IH]; cbn; [done|]. destruct (f q) eqn:E.
  - intros [= ->]. split; [set_solver|done].
  - intros H. destruct (IH H). split; [set_solver|done].
Qed.

Lemma first_payment_None f ps : first_payment f ps = None <-> forall p, p ∈ ps -> f p = false.
Proof.
  induction ps as [|q ps IH]; cbn; [split; [set_solver|done]|]. destruct (f q) eqn:E.
  - split; [done|]. intros H. specialize (H q ltac:(set_solver)). congruence.
  - rewrite IH. split; [intros H p [->|?]%elem_of_cons; auto|]. intros H p Hp. apply H. set_solver.
Qed.

(** The verdict of [CheckReplay] on a charge.  New: the key was never
    used, no payment of the document is open and what counts as paid is
    below the positive total.  Replay: a captured payment has this key.
    Already paid: what counts as paid covers the total.  In progress: an
    open payment, of this key when the key was used.  Retry with a new key:
    the payment of this key neither captured nor is open. *)
Theorem CheckReplay_correct payments refunds key total :
  match CheckReplay payments refunds key total with
  | Ok (v, op) =>
      blank key = false /\
      let used := exists p, p ∈ payments /\ pIdempotencyKey p = key in
      let due := exists t paid, ParseAmount total = Ok t /\ DocumentPaid payments refunds = Ok paid /\
                   (0 < t)%Q /\ (paid < t)%Q in
      match v, op with
      | VerdictNew, None => ~ used /\ due /\ forall p, p ∈ payments -> Open (pStatus p) = false
      | VerdictReplay, Some p => p ∈ payments /\ pIdempotencyKey p = key /\ Captured (pStatus p) = true
      | VerdictAlreadyPaid, None => ~ used /\ exists t paid, ParseAmount total = Ok t /\
          DocumentPaid payments refunds = Ok paid /\ (0 < t <= paid)%Q
      | VerdictInProgress, Some p => p ∈ payments /\ Open (pStatus p) = true /\
          (pIdempotencyKey p = key \/ (~ used /\ due))
      | VerdictRetryNewKey, Some p => p ∈ payments /\ pIdempotencyKey p = key /\
          Captured (pStatus p) = false /\ Open (pStatus p) = false
      | _, _ => False
      end
  | Err e => blank key = true \/ (forall t, ParseAmount total = Ok t -> (t <= 0)%Q \/
               exists e', DocumentPaid payments refunds = Err e')
  end.
Proof.
  unfold CheckReplay. destruct (blank key); cbn; [by left|].
  destruct (first_payment (fun p => String.eqb (pIdempotencyKey p) key) payments) as [p|] eqn:E1.
  { apply first_payment_Some in E1 as [Hin Hk%String.eqb_eq].
    destruct (Captured (pStatus p)) eqn:Ec; [done|]. destruct (Open (pStatus p)) eqn:Eo; auto. }
  rewrite first_payment_None in E1.
  assert (Hun : ~ exists p, p ∈ payments /\ pIdempotencyKey p = key).
  { intros (p & Hp & Hk). specialize (E1 p Hp). apply String.eqb_neq in E1. done. }
  destruct (ParseAmount total) as [t|e]; cbn; [|by right].
  destruct (amount_Sign t <=? 0) eqn:Es; cbn.
  { right. intros t' [= <-]. left. by apply sign_nonpos. }
  apply sign_nonpos_false in Es.
  destruct (DocumentPaid payments refunds) as [paid|e] eqn:Ed; cbn; [|right; eauto].
  destruct (cmp_lt paid t) eqn:El; cbn.
  - apply cmp_lt_spec in El.
    assert (Hdue : exists t0 paid0, Ok t = (Ok t0 : result pay_error Amount) /\
      Ok paid = (Ok paid0 : result pay_error Amount) /\ (0 < t0)%Q /\ (paid0 < t0)%Q) by (by exists t, paid).
    destruct (first_payment (fun p => Open (pStatus p)) payments) as [p|] eqn:E2.
    + apply first_payment_Some in E2 as [? ?]. split_and!; [done..|]. right. done.
    + rewrite first_payment_None in E2. done.
  - apply cmp_lt_false in El. split_and!; [done|done|]. by exists t, paid.
Qed.

(** ** Charging a document *)

(** A point of sale charges when the verdict is New, for at most what is due
    (a new record starts pending); a payment moves along the transition
    table. *)
Inductive charge_step (total : string) : list Payment -> list Payment -> Prop :=
| charge_new ps p key t a paid :
    CheckReplay ps [] key total = Ok (VerdictNew, None) ->
    ParseAmount total = Ok t -> DocumentPaid ps [] = Ok paid ->
    pIdempotencyKey p = key -> pStatus p = StatusPending ->
    ParseAmount (pAmount p) = Ok a -> (0 < a)%Q -> (a <= t - paid)%Q ->
    charge_step total ps (ps ++ [p])
| charge_move ps i p s :
    ps !! i = Some p -> CanTransition (pStatus p) s = true ->
    charge_step total ps (<[i := payment_with_refunds p (pAmountRefunded p) s]> ps).

Definition payment_parses (p : Payment) : Prop := exists a, ParseAmount (pAmount p) = Ok a /\ (0 < a)%Q.

(** Money captured or that may still be captured. *)
Definition live_value (p : Payment) : Q :=
  if Captured (pStatus p) || Open (pStatus p) then payment_value p else 0%Q.

Record charge_inv (t : Amount) (ps : list Payment) : Prop := {
  ci_parses : Forall payment_parses ps;
  ci_keys : NoDup (map pIdempotencyKey ps);
  ci_live : (qsum (map live_value ps) <= t)%Q;
  ci_one : forall i j p q, ps !! i = Some p -> ps !! j = Some q ->
    Open (pStatus p) = true -> Open (pStatus q) = true -> i = j
}.

(** On the table: an open status is only reached from an open one, and a
    status that holds money only from one that does. *)
Lemma transition_monotone from to :
  CanTransition from to = true ->
  (Open to = true -> Open from = true) /\ Captured from || Open from = true.
Proof.
  intros H. apply CanTransition_elem in H as Hin. apply transition_known in Hin as [Hf Ht].
  enough (implb (CanTransition from to) (implb (Open to) (Open from) && (Captured from || Open from)) = true) as Hi.
  { rewrite H in Hi. cbn in Hi. apply andb_true_iff in Hi as [Hi ?]. split; [|done].
    intros Ho. rewrite Ho in Hi. exact Hi. }
  clear H. revert from to Hf Ht. apply forall_statuses2. vm_compute. reflexivity.
Qed.

Lemma payment_value_pos p : payment_parses p -> (0 < payment_value p)%Q.
Proof. intros (a & Ha & ?). unfold payment_value. by rewrite Ha. Qed.

Lemma qsum_map_le {A} (f g : A -> Q) l :
  Forall (fun x => (f x <= g x)%Q) l -> (qsum (map f l) <= qsum (map g l))%Q.
Proof. induction 1; cbn -[Qplus]; lra. Qed.

Lemma captured_le_live ps :
  Forall payment_parses ps -> (qsum (map captured_value ps) <= qsum (map live_value ps))%Q.
Proof.
  intros H. apply qsum_map_le. eapply Forall_impl; [exact H|]. intros p Hp%payment_value_pos.
  unfold captured_value, live_value. destruct (Captured (pStatus p)), (Open (pStatus p)); cbn; lra.
Qed.

Lemma paid_payments_total ps paid ids :
  Forall payment_parses ps -> exists paid' ids', paid_payments ps paid ids = Ok (paid', ids').
Proof.
  intros H. revert paid ids. induction H as [|p ps (a & Ha & _) Hps IH]; intros paid ids; cbn; [eauto|].
  destruct (negb _); [apply IH|]. rewrite Ha. apply IH.
Qed.

Lemma DocumentPaid_nil ps :
  Forall payment_parses ps ->
  exists paid, DocumentPaid ps [] = Ok paid /\ (paid == qsum (map captured_value ps))%Q.
Proof.
  intros H. unfold DocumentPaid. destruct (paid_payments_total ps amount_zero ∅ H) as (paid & ids & E).
  rewrite E. exists paid. split; [done|].
  destruct (paid_payments_value _ _ _ _ _ E) as [Hv _]. rewrite Hv. unfold amount_zero. by rewrite Qplus_0_l.
Qed.

Lemma live_no_open ps :
  (forall p, p ∈ ps -> Open (pStatus p) = false) ->
  (qsum (map live_value ps) == qsum (map captured_value ps))%Q.
Proof.
  induction ps as [|p ps IH]; intros H; cbn -[Qplus]; [done|].
  rewrite IH by (intros q Hq; apply H; set_solver). unfold live_value, captured_value.
  rewrite (H p) by set_solver. by rewrite orb_false_r.
Qed.

Lemma New_facts ps key total :
  CheckReplay ps [] key total = Ok (VerdictNew, None) ->
  (forall p, p ∈ ps -> pIdempotencyKey p <> key) /\ forall p, p ∈ ps -> Open (pStatus p) = false.
Proof.
  unfold CheckReplay. rewrite require_bind_Ok. intros [_ H].
  destruct (first_payment _ ps) as [p|] eqn:E1;
    [destruct (Captured (pStatus p)); [done|]; by destruct (Open (pStatus p))|].
  rewrite first_payment_None in E1. apply bind_Ok in H as (t & _ & H). rewrite require_bind_Ok in H.
  destruct H as [_ H]. apply bind_Ok in H as (paid & _ & H). destruct (negb _); [done|].
  destruct (first_payment _ ps) as [p|] eqn:E2; [done|]. rewrite first_payment_None in E2.
  split; [|done]. intros p Hp. by apply String.eqb_neq, E1.
Qed.

Lemma charge_step_inv total t ps ps' :
  ParseAmount total = Ok t -> charge_inv t ps -> charge_step total ps ps' -> charge_inv t ps'.
Proof.
  intros Ht [Hp Hk Hl Ho] Hs. destruct Hs as [ps p key t' a paid Hn Ht' Hpaid Hkey Hst Ha Hpos Hle|ps i p s Hi Hc].
  - rewrite Ht in Ht'. injection Ht' as <-. destruct (New_facts _ _ _ Hn) as [Hunused Hclosed].
    destruct (DocumentPaid_nil ps Hp) as (paid' & Hpaid' & Hv). rewrite Hpaid in Hpaid'. injection Hpaid' as <-.
    split.
    + apply Forall_app. split; [done|]. constructor; [by exists a|done].
    + rewrite map_app. apply NoDup_app. split_and!; [done| |by apply NoDup_singleton].
      intros k Hin Hx. apply list_elem_of_singleton in Hx as ->. apply list_elem_of_fmap in Hin as (q & E & Hq).
      apply (Hunused q Hq). by rewrite <- E.
    + rewrite map_app, qsum_app, (live_no_open ps Hclosed), <- Hv. cbn -[Qplus].
      unfold live_value, payment_value. rewrite Hst, Ha. cbn -[Qplus]. rewrite Qplus_0_r. lra.
    + intros i j q r Hi Hj Hqo Hro.
      apply lookup_app_Some in Hi as [Hi|[Hi1 Hi]].
      { apply list_elem_of_lookup_2, Hclosed in Hi. congruence. }
      apply lookup_app_Some in Hj as [Hj|[Hj1 Hj]].
      { apply list_elem_of_lookup_2, Hclosed in Hj. congruence. }
      apply list_lookup_singleton_Some in Hi as [? _], Hj as [? _]. lia.
  - destruct (transition_monotone _ _ Hc) as [Hopen Hfrom].
    assert (payment_parses p) as Hpp by by eapply Forall_lookup_1 in Hp.
    set (p' := payment_with_refunds p (pAmountRefunded p) s).
    split.
    + apply Forall_insert; [done|]. destruct Hpp as (a & ? & ?). by exists a.
    + change (@map) with (fun A B => @fmap list _ A B). cbn beta. rewrite list_fmap_insert. cbn.
      rewrite list_insert_id; [done|]. by rewrite list_lookup_fmap, Hi.
    + change (@map) with (fun A B => @fmap list _ A B) in *. cbn beta in *. rewrite list_fmap_insert.
      rewrite (qsum_insert _ i (live_value p)) by by rewrite list_lookup_fmap, Hi.
      pose proof (payment_value_pos p Hpp). assert (live_value p' <= live_value p)%Q; [|lra].
      unfold live_value. rewrite Hfrom. change (payment_value p') with (payment_value p).
      destruct (Captured (pStatus p') || Open (pStatus p')); lra.
    + intros j k q r Hj Hk' Hqo Hro.
      assert (Hget : forall n x, <[i:=p']> ps !! n = Some x -> Open (pStatus x) = true ->
        exists y, ps !! n = Some y /\ Open (pStatus y) = true).
      { intros n x Hx Hxo. destruct (decide (n = i)) as [->|Hne].
        - rewrite list_lookup_insert_eq in Hx by by eapply lookup_lt_Some.
          injection Hx as <-. exists p. split; [done|]. by apply Hopen.
        - rewrite list_lookup_insert_ne in Hx by done. by exists x. }
      destruct (Hget _ _ Hj Hqo) as (y & ? & ?), (Hget _ _ Hk' Hro) as (z & ? & ?). eauto.
Qed.

(** A document charged only on a New verdict, each time for at most what
    is due, is never overpaid and never charged twice at once: whatever the
    sequence of charges and status moves, what counts as paid plus what is
    still open never exceeds the total, at most one payment is open, and no
    idempotency key has two payments. *)
Theorem never_charged_twice total t ps :
  ParseAmount total = Ok t -> (0 <= t)%Q -> rtc (charge_step total) [] ps ->
  (exists paid, DocumentPaid ps [] = Ok paid /\ (paid <= t)%Q) /\
  NoDup (map pIdempotencyKey ps) /\ (qsum (map live_value ps) <= t)%Q /\
  forall i j p q, ps !! i = Some p -> ps !! j = Some q ->
    Open (pStatus p) = true -> Open (pStatus q) = true -> i = j.
Proof.
  intros Ht H0 Hr. assert (charge_inv t ps) as [Hp Hk Hl Ho].
  { assert (charge_inv t []) as Hi by (split; [constructor|constructor|done|done]).
    induction Hr as [|x y z Hxy _ IH]; [done|]. apply IH. by eapply charge_step_inv. }
  split_and!; [|done..]. destruct (DocumentPaid_nil ps Hp) as (paid & E & Hv). exists paid. split; [done|].
  rewrite Hv. pose proof (captured_le_live ps Hp). lra.
Qed.

Definition pending_payment : Payment :=
  mkPayment "pay-1" "sales_order" "so-1" "" ChannelTerminal "acme" "" "" "" "key-1"
    StatusPending (StatusOther "") "100.00" "MXN" "" "" "" "" 0 None None None false "" "" None 0 0.

Lemma never_charged_twice_witness :
  ParseAmount "100.00" = Ok (100 # 1)%Q /\ rtc (charge_step "100.00") [] [pending_payment] /\
  CheckReplay [pending_payment] [] "key-2" "100.00" = Ok (VerdictInProgress, Some pending_payment) /\
  NoDup (map pIdempotencyKey [pending_payment]).
Proof.
  assert (rtc (charge_step "100.00") [] [pending_payment]) as Hr.
  { apply rtc_once. apply (charge_new "100.00" [] pending_payment "key-1" (100 # 1)%Q (100 # 1)%Q 0%Q);
      vm_compute; done. }
  assert (ParseAmount "100.00" = Ok (100 # 1)%Q) as Ht by (vm_compute; reflexivity).
  split_and!; [exact Ht|exact Hr|vm_compute; reflexivity|].
  apply (never_charged_twice "100.00" (100 # 1)%Q); [exact Ht|done|exact Hr].
Defined.
