(* ===== verification/PayObserve.v ===== *)
(** * Payments: provider observations (payments/observe.go, payments/event.go)

    [ObserveOutcome], the classification of a provider re-read by status and
    money, and the dedupe identity of an update ([DedupeKey],
    [DerivedEventID]); [ConfirmedFor] and [DecodeConfirmed], the checks on a
    delivered confirmation. *)

From Stdlib Require Import QArith Qminmax Lqa.
From S2P Require Import Prelude GoStrings PayStatus PayAmount PayModel PayRefund.
From S2P Require MoneyIso.

Open Scope Z_scope.

(** ** Data *)

Inductive EventKind : Type := KindPayment | KindRefund | KindDispute | KindOther (s : string).
#[export] Instance EventKind_eq_dec : EqDecision EventKind.
Proof. solve_decision. Defined.
Definition kind_string (k : EventKind) : string :=
  match k with
  | KindPayment => "payment" | KindRefund => "refund" | KindDispute => "dispute" | KindOther s => s
  end.

Record Outcome := mkOutcome {
  oOrderRef : string; oStatus : Status; oAmount : string; oCurrency : string; oProviderRef : string;
  oEventID : string; oKind : EventKind; oMethod : string; oInstallments : Z;
  oPaidAt : string; oOccurredAt : string; oAmountRefunded : string; oFee : string; oNetAmount : string;
  oTestMode : bool; oChannel : Channel; oSessionID : string; oDeviceID : string;
  oCard : option Card; oCash : option CashTender; oSeller : option Seller;
  oProviderStatus : string; oStatusDetail : string
}.

Record Confirmed := mkConfirmed {
  cfProvider : string; cfEmitter : string; cfResult : Outcome; cfOrganizationID : string;
  cfOccurredAt : string; cfSource : string; cfPaymentID : string; cfDocumentType : string;
  cfDocumentID : string
}.

(** ** ObserveOutcome *)

(** [kind == ""] reads as a payment. *)
Definition outcome_kind (o : Outcome) : EventKind :=
  if bool_decide (oKind o = KindOther "") then KindPayment else oKind o.

(** The refunded total an outcome reports; [Ok None] when it says nothing. *)
Definition observedRefunded (o : Outcome) (amount storedRefunded : Amount) :
    result pay_error (option Amount) :=
  if negb (String.eqb (oAmountRefunded o) "") then
    a ← ParseAmount (oAmountRefunded o); Ok (Some a)
  else if bool_decide (oStatus o = StatusRefunded) then Ok (Some amount)
  else if bool_decide (oStatus o = StatusPaid) then Ok (Some amount_zero)
  else if bool_decide (oKind o = KindRefund) && negb (String.eqb (oAmount o) "") then
    a ← ParseAmount (oAmount o); Ok (Some (amount_Add storedRefunded a))
  else Ok None.

Definition staleAfterCancelling (stored : Payment) (observed : Status) : bool :=
  let from := pCancelledFrom stored in
  if negb (bool_decide (pStatus stored = StatusCancelling)) || negb (Open from) ||
     bool_decide (from = StatusCancelling) then false
  else Open observed && negb (bool_decide (observed = StatusCancelling)) &&
       negb (bool_decide (observed = from)) && (openRank observed <=? openRank from).

Definition anomaly (r : Reason) : Observation := mkObservation Anomaly r.

(** The check of the amount an authorization or capture reports:
    [Some] is an early return. *)
Definition check_captured_amount (o : Outcome) (amount : Amount) : option Observation :=
  if bool_decide (outcome_kind o = KindPayment) &&
     (Captured (oStatus o) || bool_decide (oStatus o = StatusAuthorized)) then
    if blank (oAmount o) then Some (anomaly ReasonInvalidOutcome) else
    match ParseAmount (oAmount o) with
    | Err _ => Some (anomaly ReasonInvalidOutcome)
    | Ok got => if cmp_ne got amount then Some (anomaly ReasonAmountMismatch) else None
    end
  else None.

(** The check of the refunded total. *)
Definition check_refunded (stored : Payment) (o : Outcome) (amount storedRefunded : Amount) :
    option Observation :=
  if Captured (oStatus o) then
    match observedRefunded o amount storedRefunded with
    | Err _ => Some (anomaly ReasonInvalidOutcome)
    | Ok None => None
    | Ok (Some observed) =>
        if (amount_Sign observed <? 0) || cmp_gt observed amount then Some (anomaly ReasonAmountMismatch)
        else if cmp_lt observed storedRefunded then Some (anomaly ReasonRefundReversed)
        else if negb (bool_decide (StatusAfterRefunds amount observed = oStatus o)) then
          Some (anomaly ReasonAmountMismatch)
        else if bool_decide (pStatus stored = StatusPartiallyRefunded) &&
                bool_decide (oStatus o = StatusPartiallyRefunded) then
          if negb (cmp_ne observed storedRefunded) then Some (mkObservation Ignore ReasonDuplicate)
          else Some (mkObservation Apply NoReason)
        else None
    end
  else None.

Definition ObserveOutcome (stored : Payment) (o : Outcome) : Observation :=
  if negb (status_Valid (oStatus o)) || negb (status_Valid (pStatus stored)) then
    anomaly ReasonUnknownStatus
  else if negb (String.eqb (oCurrency o) "") && negb (String.eqb (pCurrency stored) "") &&
          negb (String.eqb (oCurrency o) (pCurrency stored)) then
    anomaly ReasonCurrencyMismatch
  else if negb (String.eqb (pProviderRef stored) "") && negb (String.eqb (oProviderRef o) "") &&
          negb (String.eqb (TrimSpace (oProviderRef o)) (pProviderRef stored)) then
    anomaly ReasonProviderRefMismatch
  else match ParseAmount (pAmount stored) with
  | Err _ => anomaly ReasonInvalidOutcome
  | Ok amount =>
      match check_captured_amount o amount with
      | Some obs => obs
      | None =>
          match recorded_refunds stored with
          | Err _ => anomaly ReasonInvalidOutcome
          | Ok storedRefunded =>
              match check_refunded stored o amount storedRefunded with
              | Some obs => obs
              | None =>
                  if staleAfterCancelling stored (oStatus o) then mkObservation Ignore ReasonStale
                  else Observe (pStatus stored) (oStatus o)
              end
          end
      end
  end.

(** ** Dedupe identity *)

Definition unit_separator : ascii := ascii_of_N 31.
Definition DedupeKey (provider eventID : string) : string :=
  provider +:+ String unit_separator eventID.

Definition canonicalAmount (s : string) : string :=
  let s := TrimSpace s in
  if String.eqb s "" then "" else
  match ParseAmount s with Ok a => amount_String a | Err _ => s end.

Definition DerivedEventID (kind : EventKind) (providerRef : string) (status : Status)
    (currency amount amountRefunded : string) : string :=
  let kind := if bool_decide (kind = KindOther "") then KindPayment else kind in
  str_join "|" ["derived"%string; kind_string kind; TrimSpace providerRef; status_string status;
    MoneyIso.ToUpper (TrimSpace currency); canonicalAmount amount; canonicalAmount amountRefunded].

Definition DedupeEventID (o : Outcome) : string :=
  if negb (String.eqb (oEventID o) "") then oEventID o
  else DerivedEventID (oKind o) (oProviderRef o) (oStatus o) (oCurrency o) (oAmount o) (oAmountRefunded o).

(** ** Confirmations *)

Definition ConfirmedFor (c : Confirmed) (p : Payment) : result pay_error unit :=
  if negb (String.eqb (cfProvider c) (pProvider p)) then Err ErrUntrustedConfirmation
  else if negb (String.eqb (cfPaymentID c) "") && negb (String.eqb (pID p) "") &&
          negb (String.eqb (cfPaymentID c) (pID p)) then Err ErrUntrustedConfirmation
  else if negb (String.eqb (oProviderRef (cfResult c)) "") && negb (String.eqb (pProviderRef p) "") &&
          negb (String.eqb (oProviderRef (cfResult c)) (pProviderRef p)) then Err ErrUntrustedConfirmation
  else Ok tt.

(** What [DecodeConfirmed] uses of the capability registry and of
    encoding/json: the problems of the payload under the registered event
    contract ([None] when it is not registered), and the decoded value. *)
Class ConfirmedContract := {
  contract_problems : string -> option (list string);
  decode_confirmed : string -> option Confirmed
}.

Definition DecodeConfirmed `{ConfirmedContract} (raw : string) (isProvider : option (string -> bool)) :
    result pay_error Confirmed :=
  match isProvider with
  | None => Err ErrUntrustedConfirmation
  | Some isProvider =>
      match contract_problems raw with
      | None => Err ErrUntrustedConfirmation
      | Some problems =>
          if 0 <? Z.of_nat (length problems) then Err ErrUntrustedConfirmation else
          match decode_confirmed raw with
          | None => Err ErrUntrustedConfirmation
          | Some c =>
              if blank (cfEmitter c) then Err ErrUntrustedConfirmation
              else if negb (String.eqb (cfEmitter c) (cfProvider c)) then Err ErrUntrustedConfirmation
              else if negb (isProvider (cfEmitter c)) then Err ErrUntrustedConfirmation
              else Ok c
          end
      end
  end.

(** ** Applying an outcome (payments/ledger/observe.go, payments/ledger/rows.go) *)

(** The ledger's [norm]. *)
Definition norm (s : string) : string :=
  if String.eqb s "" then "" else
  match ParseAmount s with Ok a => amount_String a | Err _ => s end.

(** The amounts the ledger requires of an outcome before it looks at a
    payment ([validOutcome]; the provider_ref, session_id and order_ref
    check is about finding the payment). *)
Definition validOutcome (o : Outcome) : bool :=
  status_Valid (oStatus o) &&
  match ParseAmount (oAmount o) with Ok _ => true | Err _ => false end &&
  (String.eqb (oAmountRefunded o) "" ||
   match ParseAmount (oAmountRefunded o) with Ok _ => true | Err _ => false end) &&
  ValidCurrency (oCurrency o).

(** The refunded total [applyOutcome] writes; [None] is the panic of
    [MustAmount].  The row keeps a zero total as a decimal, which the
    payment shows as absent. *)
Definition applied_refunded (p : Payment) (o : Outcome) : option string :=
  if bool_decide (oStatus o = StatusRefunded) then Some (pAmount p)
  else if negb (String.eqb (oAmountRefunded o) "") then Some (oAmountRefunded o)
  else if bool_decide (oKind o = KindRefund) && bool_decide (oStatus o = StatusPartiallyRefunded) then
    match recorded_refunds p, ParseAmount (oAmount o) with
    | Ok a, Ok b => Some (amount_String (amount_Add a b))
    | _, _ => None
    end
  else Some (pAmountRefunded p).

Definition keep (new old : string) : string := if negb (String.eqb new "") then new else old.

(** [applyOutcome] on the fields of the payment; [paid_at] is the instant
    time.Parse reads from the outcome's [paid_at], if any. *)
Definition applyOutcome (p : Payment) (o : Outcome) (paid_at : option Z) (now : Z) : option Payment :=
  refunded ← applied_refunded p o;
  Some (mkPayment (pID p) (pDocumentType p) (pDocumentID p) (pOrderRef p) (pChannel p) (pProvider p)
    (if negb (String.eqb (oProviderRef o) "") && String.eqb (pProviderRef p) "" then oProviderRef o
     else pProviderRef p)
    (if negb (String.eqb (oSessionID o) "") && String.eqb (pSessionID p) "" then oSessionID o
     else pSessionID p)
    (keep (oDeviceID o) (pDeviceID p)) (pIdempotencyKey p)
    (oStatus o)
    (if negb (bool_decide (oStatus o = StatusCancelling)) then StatusOther "" else pCancelledFrom p)
    (pAmount p) (pCurrency p) refunded (keep (oFee o) (pFee p)) (keep (oNetAmount o) (pNet p))
    (keep (oMethod o) (pMethod p)) (if 0 <? oInstallments o then oInstallments o else pInstallments p)
    (match oCard o with Some c => Some c | None => pCard p end)
    (match oCash o with Some c => Some c | None => pCash p end)
    (pSeller p) (oTestMode o || pTestMode p) (pHoldToken p) (pAnomaly p)
    (if Captured (oStatus o) && bool_decide (pPaidAt p = None) then Some (default now paid_at) else pPaidAt p)
    (pCreatedAt p) now).

(** [paymentRow.payment]: amounts are normalized when a row is read, and a
    zero refunded total reads as absent. *)
Definition read_row (p : Payment) : Payment :=
  let refunded := norm (pAmountRefunded p) in
  mkPayment (pID p) (pDocumentType p) (pDocumentID p) (pOrderRef p) (pChannel p) (pProvider p)
    (pProviderRef p) (pSessionID p) (pDeviceID p) (pIdempotencyKey p) (pStatus p) (pCancelledFrom p)
    (norm (pAmount p)) (pCurrency p) (if String.eqb refunded "0.00" then "" else refunded)
    (norm (pFee p)) (norm (pNet p)) (pMethod p) (pInstallments p) (pCard p) (pCash p) (pSeller p)
    (pTestMode p) (pHoldToken p) (pAnomaly p) (pPaidAt p) (pCreatedAt p) (pUpdatedAt p).

(** ** Theorems: what is applied *)

Lemma orb_negb_false (a b c : bool) :
  negb a && negb b && negb c = false <-> a = true \/ b = true \/ c = true.
Proof. destruct a, b, c; cbn; naive_solver. Qed.

(** The guards of [ObserveOutcome] before the refunded total. *)
Record observe_guards (stored : Payment) (o : Outcome) (amount rec : Amount) : Prop := {
  og_valid : negb (status_Valid (oStatus o)) || negb (status_Valid (pStatus stored)) = false;
  og_currency : oCurrency o = ""%string \/ pCurrency stored = ""%string \/ oCurrency o = pCurrency stored;
  og_ref : pProviderRef stored = ""%string \/ oProviderRef o = ""%string \/
    TrimSpace (oProviderRef o) = pProviderRef stored;
  og_amount : ParseAmount (pAmount stored) = Ok amount;
  og_captured : check_captured_amount o amount = None;
  og_recorded : recorded_refunds stored = Ok rec
}.

Lemma ObserveOutcome_guards stored o amount rec :
  observe_guards stored o amount rec ->
  ObserveOutcome stored o =
    match check_refunded stored o amount rec with
    | Some obs => obs
    | None => if staleAfterCancelling stored (oStatus o) then mkObservation Ignore ReasonStale
              else Observe (pStatus stored) (oStatus o)
    end.
Proof.
  intros [Hv Hc Hr Ha Hk Hrec]. unfold ObserveOutcome. rewrite Hv.
  rewrite <- !String.eqb_eq in Hc. apply orb_negb_false in Hc. rewrite Hc.
  rewrite <- !String.eqb_eq in Hr. apply orb_negb_false in Hr. by rewrite Hr, Ha, Hk, Hrec.
Qed.

Lemma Apply_guards stored o :
  oDecision (ObserveOutcome stored o) = Apply -> exists amount rec, observe_guards stored o amount rec.
Proof.
  unfold ObserveOutcome. destruct (negb _ || negb _) eqn:Ev; [done|].
  destruct (negb (String.eqb (oCurrency o) "") && _ && _) eqn:Ecur; [done|].
  apply orb_negb_false in Ecur. rewrite !String.eqb_eq in Ecur.
  destruct (negb (String.eqb (pProviderRef stored) "") && _ && _) eqn:Eref; [done|].
  apply orb_negb_false in Eref. rewrite !String.eqb_eq in Eref.
  destruct (ParseAmount (pAmount stored)) as [amount|] eqn:Ea; [|done].
  destruct (check_captured_amount o amount) as [obs|] eqn:Eamt.
  { unfold check_captured_amount, anomaly in Eamt. intros H. exfalso. revert Eamt H.
    repeat case_match; intros [= <-]; done. }
  destruct (recorded_refunds stored) as [rec|] eqn:Er; [|done]. intros _. by exists amount, rec.
Qed.

(** The refunded total of a captured outcome that is not an anomaly. *)
Lemma check_refunded_ok stored o amount rec observed :
  oDecision (default (mkObservation Apply NoReason) (check_refunded stored o amount rec)) <> Anomaly ->
  Captured (oStatus o) = true -> observedRefunded o amount rec = Ok (Some observed) ->
  (0 <= observed <= amount)%Q /\ (rec <= observed)%Q /\ StatusAfterRefunds amount observed = oStatus o.
Proof.
  intros H Hc Ho. unfold check_refunded in H. rewrite Hc, Ho in H.
  destruct (_ || _) eqn:E1 in H; [done|].
  destruct (cmp_lt observed rec) eqn:E2; [done|].
  destruct (negb (bool_decide _)) eqn:E3 in H; [done|].
  apply orb_false_iff in E1 as [E1%sign_neg_false E1'%cmp_gt_false]. apply cmp_lt_false in E2.
  apply negb_false_iff, bool_decide_eq_true in E3. done.
Qed.

Lemma check_refunded_apply stored o amount rec obs :
  check_refunded stored o amount rec = Some obs -> oDecision obs = Apply ->
  pStatus stored = StatusPartiallyRefunded /\ oStatus o = StatusPartiallyRefunded /\
  exists observed, observedRefunded o amount rec = Ok (Some observed) /\ (rec < observed)%Q.
Proof.
  unfold check_refunded, anomaly. intros Er H. destruct (Captured (oStatus o)); [|done].
  destruct (observedRefunded o amount rec) as [[observed|]|]; [|done|by injection Er as <-].
  destruct (_ || _); [by injection Er as <-|].
  destruct (cmp_lt observed rec) eqn:E2; [by injection Er as <-|].
  destruct (negb (bool_decide _)); [by injection Er as <-|].
  destruct (bool_decide (pStatus stored = _) && _) eqn:E3; [|done].
  apply andb_true_iff in E3. rewrite !bool_decide_eq_true in E3. destruct E3.
  split_and!; [done..|]. exists observed. split; [done|]. apply cmp_lt_false in E2.
  destruct (cmp_ne observed rec) eqn:E4; cbn in Er; [|by injection Er as <-].
  apply cmp_ne_spec in E4. apply Qle_lt_or_eq in E2 as [?|E2]; [done|]. by rewrite E2 in E4.
Qed.

(** An outcome is applied only when it is about this payment and its
    money adds up: same currency and provider payment where both are known;
    an authorization or capture of exactly the payment's amount; a reported
    refunded total between the stored one and the amount, that the reported
    status stands for; no return past the status a cancellation was
    requested from; and the status is one the provider can have moved to,
    or a partial refund that grew. *)
Theorem ObserveOutcome_applied stored o :
  oDecision (ObserveOutcome stored o) = Apply ->
  exists amount recorded, ParseAmount (pAmount stored) = Ok amount /\ recorded_refunds stored = Ok recorded /\
  (oCurrency o = ""%string \/ pCurrency stored = ""%string \/ oCurrency o = pCurrency stored) /\
  (pProviderRef stored = ""%string \/ oProviderRef o = ""%string \/ TrimSpace (oProviderRef o) = pProviderRef stored) /\
  (outcome_kind o = KindPayment -> Captured (oStatus o) = true \/ oStatus o = StatusAuthorized ->
     exists got, ParseAmount (oAmount o) = Ok got /\ (got == amount)%Q) /\
  (Captured (oStatus o) = true -> forall observed, observedRefunded o amount recorded = Ok (Some observed) ->
     (0 <= observed <= amount)%Q /\ (recorded <= observed)%Q /\
     StatusAfterRefunds amount observed = oStatus o) /\
  ((staleAfterCancelling stored (oStatus o) = false /\ Reachable (pStatus stored) (oStatus o) = true) \/
   (pStatus stored = StatusPartiallyRefunded /\ oStatus o = StatusPartiallyRefunded /\
    exists observed, observedRefunded o amount recorded = Ok (Some observed) /\ (recorded < observed)%Q)).
Proof.
  intros H. destruct (Apply_guards stored o H) as (amount & rec & Hg).
  rewrite (ObserveOutcome_guards _ _ _ _ Hg) in H. destruct Hg as [_ Hcur Href Ha Hk Hr].
  exists amount, rec. split_and!; try done.
  - intros Hkind Hs. unfold check_captured_amount in Hk. rewrite bool_decide_true in Hk by done.
    assert (Captured (oStatus o) || bool_decide (oStatus o = StatusAuthorized) = true) as Hcap.
    { apply orb_true_iff. rewrite bool_decide_eq_true. done. }
    rewrite Hcap in Hk. cbn [andb] in Hk. destruct (blank (oAmount o)); [done|].
    destruct (ParseAmount (oAmount o)) as [got|]; [|done]. exists got. split; [done|].
    destruct (cmp_ne got amount) eqn:E; [done|]. by apply cmp_ne_false.
  - intros Hc observed Ho. apply (check_refunded_ok stored o); [|done..].
    destruct (check_refunded stored o amount rec) as [obs|]; cbn; congruence.
  - destruct (check_refunded stored o amount rec) as [obs|] eqn:Er.
    + right. by eapply check_refunded_apply.
    + left. destruct (staleAfterCancelling stored (oStatus o)); [done|]. split; [done|].
      by eapply Observe_Apply.
Qed.

(** ** Theorems: applying is idempotent *)

Lemma norm_Ok s a : ParseAmount s = Ok a -> norm s = amount_String a /\ ParseAmount (norm s) = Ok a.
Proof.
  intros H. unfold norm. destruct (String.eqb_spec s "") as [->|]; [done|].
  rewrite H. split; [done|]. by apply amount_String_parse, (ParseAmount_wf s).
Qed.

(** The refunded total a row shows once it was written. *)
Lemma read_row_refunded p s a :
  pAmountRefunded p = s -> ParseAmount s = Ok a -> recorded_refunds (read_row p) = Ok a.
Proof.
  intros <- H. destruct (norm_Ok _ _ H) as [E E']. unfold recorded_refunds, read_row.
  cbn [pAmountRefunded]. destruct (String.eqb_spec (norm (pAmountRefunded p)) "0.00") as [Ez|].
  - rewrite Ez in E'. vm_compute in E'. by injection E' as <-.
  - destruct (String.eqb_spec (norm (pAmountRefunded p)) "") as [Ez|]; [|done]. by rewrite Ez in E'.
Qed.

Lemma read_row_absent p : pAmountRefunded p = ""%string -> recorded_refunds (read_row p) = Ok amount_zero.
Proof. intros E. unfold recorded_refunds, read_row. cbn. by rewrite E. Qed.

Lemma read_row_recorded p a : recorded_refunds p = Ok a -> recorded_refunds (read_row p) = Ok a.
Proof.
  unfold recorded_refunds at 1. destruct (String.eqb_spec (pAmountRefunded p) "") as [E|].
  - intros [= <-]. by apply read_row_absent.
  - intros H. by eapply read_row_refunded.
Qed.

(** The outcome reports an absolute refunded total. *)
Definition absolute (o : Outcome) : Prop :=
  oAmountRefunded o <> ""%string \/ oStatus o <> StatusPartiallyRefunded.

Lemma observed_independent o amount r1 r2 :
  absolute o -> Captured (oStatus o) = true -> observedRefunded o amount r1 = observedRefunded o amount r2.
Proof.
  intros Ha Hc. unfold observedRefunded. destruct (String.eqb_spec (oAmountRefunded o) ""); [|done].
  destruct Ha as [|Hp]; [done|]. cbn.
  destruct (bool_decide_reflect (oStatus o = StatusRefunded)); [done|].
  destruct (bool_decide_reflect (oStatus o = StatusPaid)); [done|].
  by destruct (oStatus o).
Qed.

(** What a captured outcome leaves recorded, once it was applied. *)
Lemma applied_recorded p o amount rec refunded observed :
  ParseAmount (pAmount p) = Ok amount -> recorded_refunds p = Ok rec -> absolute o ->
  Captured (oStatus o) = true -> applied_refunded p o = Some refunded ->
  observedRefunded o amount rec = Ok (Some observed) ->
  (0 <= observed <= amount)%Q -> (rec <= observed)%Q -> StatusAfterRefunds amount observed = oStatus o ->
  forall q, pAmountRefunded q = refunded ->
  exists rec', recorded_refunds (read_row q) = Ok rec' /\ (rec' <= observed)%Q /\
    (oStatus o = StatusPartiallyRefunded -> (rec' == observed)%Q).
Proof.
  intros Ha Hr Habs Hc Happ Hobs [H0 H1] Hle Hst q Hq.
  unfold applied_refunded in Happ. unfold observedRefunded in Hobs.
  destruct (bool_decide_reflect (oStatus o = StatusRefunded)) as [Er|Er].
  { injection Happ as <-. exists amount. split; [by eapply read_row_refunded|].
    destruct (StatusAfterRefunds_cases amount observed) as [(E & _)|[(E & _ & ?)|(E & _)]];
      rewrite E in Hst; try congruence.
    split; [done|]. intros. congruence. }
  destruct (String.eqb_spec (oAmountRefunded o) "") as [Ee|Ee]; cbn [negb] in *.
  - destruct Habs as [?|Hnp]; [done|]. rewrite (bool_decide_false (oStatus o = StatusPartiallyRefunded)) in Happ by done.
    rewrite andb_false_r in Happ. injection Happ as <-. exists rec. split; [|split; [done|by intros]].
    unfold recorded_refunds in Hr. destruct (String.eqb_spec (pAmountRefunded p) "") as [E|E].
    + injection Hr as <-. apply read_row_absent. congruence.
    + by eapply read_row_refunded.
  - injection Happ as <-. apply bind_Ok in Hobs as (a & Hp & [= ->]). exists observed.
    split; [by eapply read_row_refunded|]. split; [apply Qle_refl|done].
Qed.

Lemma absolute_known o amount rec :
  absolute o -> Captured (oStatus o) = true -> observedRefunded o amount rec <> Ok None.
Proof.
  intros Ha Hc. unfold observedRefunded.
  destruct (String.eqb_spec (oAmountRefunded o) ""); cbn.
  - destruct Ha as [|Hp]; [done|].
    destruct (bool_decide_reflect (oStatus o = StatusRefunded)); [done|].
    destruct (bool_decide_reflect (oStatus o = StatusPaid)); [done|]. by destruct (oStatus o).
  - by destruct (ParseAmount (oAmountRefunded o)).
Qed.

Lemma validOutcome_spec o :
  validOutcome o = true ->
  (exists a, ParseAmount (oAmount o) = Ok a) /\
  (oAmountRefunded o = ""%string \/ exists a, ParseAmount (oAmountRefunded o) = Ok a).
Proof.
  unfold validOutcome. rewrite !andb_true_iff, orb_true_iff, String.eqb_eq. intros [[[_ H1] H2] _].
  destruct (ParseAmount (oAmount o)); [|done]. split; [eauto|].
  destruct (ParseAmount (oAmountRefunded o)); [eauto|]. naive_solver.
Qed.

Lemma applied_total stored o rec :
  recorded_refunds stored = Ok rec -> validOutcome o = true ->
  exists refunded, applied_refunded stored o = Some refunded.
Proof.
  intros Hr [[a Ha] _]%validOutcome_spec. unfold applied_refunded. rewrite Hr, Ha.
  repeat case_match; eauto.
Qed.

Lemma applied_uncaptured stored o refunded rec :
  recorded_refunds stored = Ok rec -> validOutcome o = true -> Captured (oStatus o) = false ->
  applied_refunded stored o = Some refunded ->
  forall q, pAmountRefunded q = refunded -> exists rec', recorded_refunds (read_row q) = Ok rec'.
Proof.
  intros Hr [_ Ho]%validOutcome_spec Hc Hre q Hq. unfold applied_refunded in Hre.
  rewrite bool_decide_false in Hre by by intros E; rewrite E in Hc.
  destruct (String.eqb_spec (oAmountRefunded o) "") as [E|E]; cbn in Hre.
  - rewrite (bool_decide_false (oStatus o = StatusPartiallyRefunded)) in Hre by by intros E'; rewrite E' in Hc.
    rewrite andb_false_r in Hre. injection Hre as Hre. exists rec.
    apply read_row_recorded. unfold recorded_refunds in *. by rewrite Hq, <- Hre.
  - destruct Ho as [|[a Ha]]; [done|]. exists a. injection Hre as Hre.
    subst refunded. by eapply read_row_refunded.
Qed.

Lemma Observe_same s :
  status_Valid s = true ->
  Observe s s = mkObservation Ignore ReasonDuplicate \/ s = StatusPartiallyRefunded.
Proof.
  intros Hv. unfold Observe. rewrite Hv. cbn. rewrite bool_decide_true by done.
  destruct (decide (s = StatusPartiallyRefunded)); [by right|left].
  by rewrite bool_decide_false.
Qed.

Lemma stale_same p : staleAfterCancelling p (pStatus p) = false.
Proof.
  unfold staleAfterCancelling. destruct (bool_decide_reflect (pStatus p = StatusCancelling)) as [E|]; [|done].
  cbn. destruct (_ || _); [done|]. by rewrite andb_false_r.
Qed.

(** The re-read of a stored refunded total that is the outcome's own. *)
Lemma recheck_duplicate p o amount rec :
  pStatus p = oStatus o -> absolute o ->
  (Captured (oStatus o) = true -> exists observed, observedRefunded o amount rec = Ok (Some observed) /\
     (0 <= observed <= amount)%Q /\ (rec <= observed)%Q /\ StatusAfterRefunds amount observed = oStatus o /\
     (oStatus o = StatusPartiallyRefunded -> (rec == observed)%Q)) ->
  (Observe (oStatus o) (oStatus o) = mkObservation Ignore ReasonDuplicate \/ oStatus o = StatusPartiallyRefunded) ->
  match check_refunded p o amount rec with
  | Some obs => obs
  | None => Observe (oStatus o) (oStatus o)
  end = mkObservation Ignore ReasonDuplicate.
Proof.
  intros Hp Habs Hf Hself. unfold check_refunded in *.
  destruct (Captured (oStatus o)) eqn:Ec.
  - destruct (Hf eq_refl) as (observed & -> & [H0 H1] & Hle & Hst & Heq). clear Hf.
    assert ((amount_Sign observed <? 0) = false) as -> by by apply sign_neg_false.
    assert (cmp_gt observed amount = false) as -> by by apply cmp_gt_false.
    assert (cmp_lt observed rec = false) as -> by by apply cmp_lt_false.
    rewrite (bool_decide_true _ Hst), Hp. cbn.
    destruct (bool_decide_reflect (oStatus o = StatusPartiallyRefunded)) as [E|E]; cbn.
    + assert (cmp_ne observed rec = false) as ->; [|done]. apply cmp_ne_false. symmetry. auto.
    + by destruct Hself.
  - destruct Hself as [|E]; [done|]. by rewrite E in Ec.
Qed.

(** Applying an outcome that reports an absolute refunded total never
    panics, and is idempotent: delivered again, in whatever way, the same
    outcome is a duplicate and is not applied a second time. *)
Theorem redelivery_is_duplicate stored o paid_at now :
  oDecision (ObserveOutcome stored o) = Apply -> validOutcome o = true -> absolute o ->
  TrimSpace (oProviderRef o) = oProviderRef o ->
  exists p', applyOutcome stored o paid_at now = Some p' /\
    ObserveOutcome (read_row p') o = mkObservation Ignore ReasonDuplicate.
Proof.
  intros Happly Hvalid Habs Htrim.
  destruct (Apply_guards stored o Happly) as (amount & rec & Hg).
  rewrite (ObserveOutcome_guards _ _ _ _ Hg) in Happly.
  destruct Hg as [Hv Hcur Href Ha Hk Hr].
  destruct (applied_total stored o rec Hr Hvalid) as [refunded Hre].
  unfold applyOutcome. rewrite Hre. cbn. eexists. split; [done|].
  set (q := mkPayment _ _ _ _ _ _ _ _ _ _ _ _ _ _ _ _ _ _ _ _ _ _ _ _ _ _ _ _).
  assert (Hrec : exists rec', recorded_refunds (read_row q) = Ok rec' /\
    (Captured (oStatus o) = true -> exists observed, observedRefunded o amount rec' = Ok (Some observed) /\
       (0 <= observed <= amount)%Q /\ (rec' <= observed)%Q /\ StatusAfterRefunds amount observed = oStatus o /\
       (oStatus o = StatusPartiallyRefunded -> (rec' == observed)%Q))).
  { destruct (Captured (oStatus o)) eqn:Ec.
    - destruct (observedRefunded o amount rec) as [[observed|]|] eqn:Eo.
      + destruct (check_refunded_ok stored o amount rec observed) as (H1 & H2 & H3); [|done..|].
        { destruct (check_refunded stored o amount rec); cbn; congruence. }
        destruct (applied_recorded stored o amount rec refunded observed Ha Hr Habs Ec Hre Eo H1 H2 H3 q eq_refl)
          as (rec' & Hrec' & Hle & Heq). exists rec'. split; [done|]. intros _. exists observed.
        by rewrite (observed_independent o amount rec' rec Habs Ec).
      + exfalso. by apply (absolute_known o amount rec Habs Ec).
      + exfalso. unfold check_refunded in Happly. by rewrite Ec, Eo in Happly.
    - destruct (applied_uncaptured stored o refunded rec Hr Hvalid Ec Hre q eq_refl) as [rec' Hrec'].
      exists rec'. by split. }
  destruct Hrec as (rec' & Hrec' & Hfacts).
  assert (observe_guards (read_row q) o amount rec') as Hg'.
  { apply orb_false_iff in Hv as [Hv _]. split; cbn; rewrite ?Hv; try done.
    - destruct (String.eqb_spec (oProviderRef o) "") as [E|E]; cbn; [by right; left|].
      destruct (String.eqb_spec (pProviderRef stored) "") as [E'|E']; cbn; [by right; right|].
      tauto.
    - by apply norm_Ok. }
  rewrite (ObserveOutcome_guards _ _ _ _ Hg').
  apply orb_false_iff in Hv as [Hv%negb_false_iff _].
  assert (Hself : Observe (oStatus o) (oStatus o) = mkObservation Ignore ReasonDuplicate \/
    oStatus o = StatusPartiallyRefunded) by by apply Observe_same.
  assert (Hstale : staleAfterCancelling (read_row q) (oStatus o) = false) by by apply (stale_same (read_row q)).
  rewrite Hstale. change (pStatus (read_row q)) with (oStatus o).
  by apply recheck_duplicate.
Qed.

Definition paid_outcome : Outcome :=
  mkOutcome "so-1" StatusPartiallyRefunded "100.00" "MXN" "ref-1" "" KindPayment "" 0 "" "" "45.00" "" ""
    false ChannelTerminal "" "" None None None "" "".

Lemma redelivery_is_duplicate_witness :
  oDecision (ObserveOutcome sample_payment paid_outcome) = Apply /\
  exists p', applyOutcome sample_payment paid_outcome None 7 = Some p' /\
    ObserveOutcome (read_row p') paid_outcome = mkObservation Ignore ReasonDuplicate.
Proof.
  assert (oDecision (ObserveOutcome sample_payment paid_outcome) = Apply) as H by (vm_compute; reflexivity).
  split; [exact H|]. apply redelivery_is_duplicate; [exact H|vm_compute; reflexivity|by left|].
  vm_compute. reflexivity.
Defined.

Lemma ObserveOutcome_applied_witness :
  oDecision (ObserveOutcome sample_payment paid_outcome) = Apply /\
  exists amount recorded, ParseAmount (pAmount sample_payment) = Ok amount /\
    recorded_refunds sample_payment = Ok recorded /\ (recorded <= amount)%Q.
Proof.
  assert (oDecision (ObserveOutcome sample_payment paid_outcome) = Apply) as H by (vm_compute; reflexivity).
  split; [exact H|].
  destruct (ObserveOutcome_applied sample_payment paid_outcome H) as (a & r & Ha & Hr & _ & _ & _ & Hobs & _).
  exists a, r. split; [exact Ha|]. split; [exact Hr|].
  vm_compute in Ha, Hr. injection Ha as <-. injection Hr as <-.
  destruct (Hobs eq_refl (45 # 1)%Q) as ([_ ?] & ? & _); [vm_compute; reflexivity|].
  by apply Qle_trans with (45 # 1)%Q.
Defined.

(** A payment that learned its provider reference from an outcome whose
    [provider_ref] has surrounding spaces keeps the untrimmed reference,
    and every later update about it is an anomaly, the same outcome
    delivered again included. *)
Lemma padded_ref_always_anomaly p o :
  status_Valid (oStatus o) = true -> status_Valid (pStatus p) = true ->
  oCurrency o = pCurrency p -> pProviderRef p = oProviderRef o -> oProviderRef o <> ""%string ->
  TrimSpace (oProviderRef o) <> oProviderRef o ->
  ObserveOutcome p o = mkObservation Anomaly ReasonProviderRefMismatch.
Proof.
  intros Hv Hv' Hc Hr Hne Ht. unfold ObserveOutcome. rewrite Hv, Hv', Hc, Hr. cbn.
  rewrite String.eqb_refl, andb_false_r.
  destruct (String.eqb_spec (oProviderRef o) ""); [done|]. cbn.
  by destruct (String.eqb_spec (TrimSpace (oProviderRef o)) (oProviderRef o)).
Qed.

(** ** Theorems: dedupe identity *)

Lemma match_decimal_form s neg int frac :
  match_decimal s = Some (neg, int, frac) ->
  s = (if neg then "-" else "") +:+ int +:+ (if String.eqb frac "" then "" else String "." frac).
Proof.
  unfold match_decimal.
  assert (Hs : exists (ng : bool) r, (match s with String c r => if Ascii.eqb c "-" then (true, r) else (false, s)
            | EmptyString => (false, s) end) = (ng, r) /\ s = (if ng then "-" else "") +:+ r).
  { destruct s as [|c r]; [by exists false, ""%string|].
    destruct (Ascii.eqb_spec c "-") as [->|]; [by exists true, r|by exists false, (String c r)]. }
  destruct Hs as (ng & rest & -> & Hs). rewrite Hs. clear Hs s.
  destruct (span is_digit rest) as [i rest'] eqn:E1. apply span_spec in E1 as (-> & _ & _).
  destruct (int_ok i); cbn [negb]; [|done]. destruct rest' as [|c r].
  - by intros [= <- <- <-].
  - destruct (Ascii.eqb_spec c ".") as [->|]; [|done].
    destruct (span is_digit r) as [f rest''] eqn:E2. apply span_spec in E2 as (-> & _ & _).
    destruct (String.eqb_spec f ""); [done|]. cbn.
    destruct (String.eqb_spec rest'' "") as [->|]; [|done]. intros [= <- <- <-]. rewrite str_app_nil_r.
    by destruct (String.eqb_spec f "").
Qed.

Lemma ParseAmount_no_bar s a : ParseAmount s = Ok a -> str_contains "|" s = false.
Proof.
  unfold ParseAmount. destruct (match_decimal s) as [[[neg int] frac]|] eqn:E; [|done]. intros _.
  apply match_decimal_sound in E as Hs. destruct Hs as (_ & Hi & Hf).
  apply match_decimal_form in E as ->. rewrite !str_contains_app.
  rewrite (str_contains_forall "|" is_digit int) by done.
  destruct neg, (String.eqb frac ""); cbn; try done; by rewrite (str_contains_forall "|" is_digit frac).
Qed.

(** A money field of an outcome: absent, or a decimal. *)
Definition money_field (s : string) (v : option Amount) : Prop :=
  match v with
  | None => TrimSpace s = ""%string
  | Some a => ParseAmount (TrimSpace s) = Ok a
  end.

Lemma canonicalAmount_spec s v :
  money_field s v ->
  str_contains "|" (canonicalAmount s) = false /\
  canonicalAmount s = match v with None => ""%string | Some a => amount_String a end.
Proof.
  unfold canonicalAmount. destruct v as [a|]; cbn.
  - intros H. destruct (String.eqb_spec (TrimSpace s) "") as [E|]; [by rewrite E in H|].
    rewrite H. split; [|done]. apply (ParseAmount_no_bar _ a), amount_String_parse.
    by eapply ParseAmount_wf.
  - intros ->. done.
Qed.

Lemma canonicalAmount_inj s s' v v' :
  money_field s v -> money_field s' v' -> canonicalAmount s = canonicalAmount s' -> v = v'.
Proof.
  intros H H'. apply canonicalAmount_spec in H as Hs, H' as Hs'. destruct Hs as [_ ->], Hs' as [_ ->].
  destruct v as [a|], v' as [b|]; cbn in *; intros E; try done.
  - apply ParseAmount_wf, amount_String_parse in H, H'. rewrite E, H' in H. congruence.
  - apply ParseAmount_wf, amount_String_parse in H. by rewrite E in H.
  - apply ParseAmount_wf, amount_String_parse in H'. by rewrite <- E in H'.
Qed.

Definition no_bar (s : string) : Prop := str_contains "|" s = false.

(** The derived event id identifies the observed state: two updates
    whose fields hold no separator get the same id exactly when kind,
    trimmed reference, status, currency and the values of both amounts are
    the same, however the amounts are written. *)
Theorem DerivedEventID_identifies k1 r1 s1 c1 a1 f1 k2 r2 s2 c2 a2 f2 va1 vf1 va2 vf2 :
  k1 <> KindOther "" -> k2 <> KindOther "" ->
  Forall no_bar [kind_string k1; TrimSpace r1; status_string s1; MoneyIso.ToUpper (TrimSpace c1)] ->
  Forall no_bar [kind_string k2; TrimSpace r2; status_string s2; MoneyIso.ToUpper (TrimSpace c2)] ->
  money_field a1 va1 -> money_field f1 vf1 -> money_field a2 va2 -> money_field f2 vf2 ->
  DerivedEventID k1 r1 s1 c1 a1 f1 = DerivedEventID k2 r2 s2 c2 a2 f2 <->
  kind_string k1 = kind_string k2 /\ TrimSpace r1 = TrimSpace r2 /\ status_string s1 = status_string s2 /\
  MoneyIso.ToUpper (TrimSpace c1) = MoneyIso.ToUpper (TrimSpace c2) /\ va1 = va2 /\ vf1 = vf2.
Proof.
  intros Hk1 Hk2 H1 H2 Ha1 Hf1 Ha2 Hf2. unfold DerivedEventID. rewrite !bool_decide_false by done.
  destruct (canonicalAmount_spec _ _ Ha1) as [Na1 Ea1], (canonicalAmount_spec _ _ Hf1) as [Nf1 Ef1].
  destruct (canonicalAmount_spec _ _ Ha2) as [Na2 Ea2], (canonicalAmount_spec _ _ Hf2) as [Nf2 Ef2].
  split.
  - intros H. apply str_join_inj in H; [|done|..].
    + injection H as E1 E2 E3 E4 E5 E6. split_and!; [done..| |]; by eapply canonicalAmount_inj.
    + constructor; [done|]. apply (Forall_app _ [_; _; _; _] [_; _]). split; [exact H1|]. by repeat constructor.
    + constructor; [done|]. apply (Forall_app _ [_; _; _; _] [_; _]). split; [exact H2|]. by repeat constructor.
  - intros (-> & -> & -> & -> & -> & ->). by rewrite Ea1, Ea2, Ef1, Ef2.
Qed.

Lemma DerivedEventID_identifies_witness :
  DerivedEventID KindRefund "r1" StatusPartiallyRefunded "mxn" "20.0" "" =
    DerivedEventID KindRefund " r1" StatusPartiallyRefunded "MXN" "20.00" "" /\
  (DerivedEventID KindRefund "r1" StatusPartiallyRefunded "MXN" "30.00" "" =
    DerivedEventID KindRefund "r1" StatusPartiallyRefunded "MXN" "20.00" "" <->
   kind_string KindRefund = kind_string KindRefund /\ TrimSpace "r1" = TrimSpace "r1" /\
   status_string StatusPartiallyRefunded = status_string StatusPartiallyRefunded /\
   MoneyIso.ToUpper (TrimSpace "MXN") = MoneyIso.ToUpper (TrimSpace "MXN") /\
   Some (30 # 1)%Q = Some (20 # 1)%Q /\ @None Amount = None).
Proof.
  split; [vm_compute; reflexivity|].
  apply DerivedEventID_identifies; try done; try (repeat constructor; done); vm_compute; reflexivity.
Defined.

(** A confirmation is accepted only when its host-stamped emitter is the
    provider it speaks for and that provider is a payments provider; and one
    that may concern a payment names the payment's own provider and, where
    both are known, its id and provider reference. *)
Theorem DecodeConfirmed_trusted `{ConfirmedContract} raw isProvider c p :
  DecodeConfirmed raw isProvider = Ok c -> ConfirmedFor c p = Ok tt ->
  (exists f, isProvider = Some f /\ f (pProvider p) = true) /\
  cfEmitter c = pProvider p /\ blank (pProvider p) = false /\
  contract_problems raw = Some [] /\ decode_confirmed raw = Some c /\
  (cfPaymentID c = ""%string \/ pID p = ""%string \/ cfPaymentID c = pID p) /\
  (oProviderRef (cfResult c) = ""%string \/ pProviderRef p = ""%string \/
   oProviderRef (cfResult c) = pProviderRef p).
Proof.
  unfold DecodeConfirmed, ConfirmedFor. destruct isProvider as [f|]; [|done].
  destruct (contract_problems raw) as [[|x problems]|]; [|done..].
  destruct (decode_confirmed raw) as [c'|]; [|done]. cbn.
  destruct (blank (cfEmitter c')) eqn:Eb; [done|].
  destruct (String.eqb_spec (cfEmitter c') (cfProvider c')) as [Ee|]; [|done].
  destruct (f (cfEmitter c')) eqn:Ef; [|done]. intros [= <-].
  destruct (String.eqb_spec (cfProvider c') (pProvider p)) as [Ep|]; [|done]. cbn.
  destruct (_ && _ && negb (String.eqb _ (pID p))) eqn:E1; [done|].
  destruct (_ && _ && negb (String.eqb _ (pProviderRef p))) eqn:E2; [done|]. intros _.
  apply orb_negb_false in E1, E2. rewrite !String.eqb_eq in E1, E2.
  rewrite <- Ep, <- Ee. split_and!; eauto; congruence.
Qed.

Definition sample_confirmed : Confirmed :=
  mkConfirmed "acme" "acme" paid_outcome "" "" "" "pay-1" "" "".
Definition sample_contract : ConfirmedContract :=
  {| contract_problems _ := Some []; decode_confirmed _ := Some sample_confirmed |}.

Lemma DecodeConfirmed_trusted_witness :
  cfEmitter sample_confirmed = pProvider sample_payment.
Proof.
  apply (@DecodeConfirmed_trusted sample_contract "{}" (Some (fun a => String.eqb a "acme"))
    sample_confirmed sample_payment); vm_compute; reflexivity.
Defined.
