(* ===== verification/LedgerStore.v ===== *)
(** * Payments ledger: rows, tables and transactions (payments/ledger/rows.go, schema.go)

    The rows of the ledger's tables with their conversion to the values of
    the payments package, the unique indexes of [Schema], and a state and
    error monad [tx] for the code that runs inside one database
    transaction.  The JSON columns are kept decoded. *)

From S2P Require Import Prelude GoStrings PayStatus PayAmount PayModel PayHold PayRefund PayObserve.

(** ** What the ledger uses of other packages *)

Record creationOutput := mkCreationOutput {
  coProviderRef : string; coSessionID : string; coStatus : Status; coDeviceID : string;
  coExpiresAt : string; coTestMode : bool
}.
(** The anonymous struct [askRefund] decodes. *)
Record refundOutput := mkRefundOutput {
  roRefundID : string; roStatus : RefundStatus; roInstructions : string
}.
(** The anonymous struct [listProvider] decodes. *)
Record pageOutput := mkPageOutput { pgPayments : list Outcome; pgNextCursor : string }.

(** [uuid.Parse] gives the canonical text of an id; SHA-256, the RFC 3339
    layout of package time and the decoding of a provider's JSON ([None]:
    an error; the outputs whose error the ledger drops are total). *)
Class LedgerEnv := {
  uuid_Parse : string -> option string;
  sha256 : string -> string;
  parse_rfc3339 : string -> option Z;
  format_rfc3339 : Z -> string;
  decode_creation : string -> creationOutput;
  decode_status : string -> option Outcome;
  decode_cancel : string -> string;
  decode_refund : string -> refundOutput;
  decode_page : string -> option pageOutput
}.

(** The reason codes (payments/status.go, payments/observe.go). *)
Definition reason_string (r : Reason) : string :=
  match r with
  | NoReason => "" | ReasonDuplicate => "duplicate" | ReasonStale => "stale"
  | ReasonLateCapture => "late_capture" | ReasonCaptureReversed => "capture_reversed"
  | ReasonRefundReversed => "refund_reversed" | ReasonUnknownStatus => "unknown_status"
  | ReasonAmountMismatch => "amount_mismatch" | ReasonCurrencyMismatch => "currency_mismatch"
  | ReasonProviderRefMismatch => "provider_ref_mismatch" | ReasonInvalidOutcome => "invalid_outcome"
  end.
Definition decision_string (d : ObserveDecision) : string :=
  match d with Apply => "apply" | Ignore => "ignore" | Anomaly => "anomaly" end.

(** ** Error codes *)

Inductive code : Type :=
| CodeInvalidInput | CodeNotFound | CodeInPayment | CodeHoldNotOwner | CodeInvalidTransition
| CodeExceedsDue | CodeNotRefundable | CodeRefundExceeds | CodeIdempotency | CodeForbidden
| CodeProvider | CodeUnavailable | CodeOther (s : string).
#[export] Instance code_eq_dec : EqDecision code.
Proof. solve_decision. Defined.

(** A coded [Error], an uncoded error of the payments package or of the
    database, or the panic of [MustAmount]. *)
Inductive lerr : Type :=
| Coded (c : code) | Uncoded (e : pay_error) | DBError | Panic.
#[export] Instance lerr_eq_dec : EqDecision lerr.
Proof. solve_decision. Defined.

(** [None] is "internal". *)
Definition ErrorCode (e : lerr) : option code := match e with Coded c => Some c | _ => None end.

(** ** Rows *)

Record paymentRow := mkPaymentRow {
  rID : string; rOrg : string; rDocumentType : string; rDocumentID : string; rOrderRef : string;
  rChannel : Channel; rProvider : string; rProviderRef : option string; rSessionID : string;
  rDeviceID : string; rIdempotencyKey : string; rStatus : Status; rAmount : string;
  rCurrency : string; rDocumentTotal : option string; rAmountRefunded : string;
  rFee : option string; rNet : option string; rMethod : string; rInstallments : Z;
  rCard : option Card; rCash : option CashTender; rSeller : option Seller; rTestMode : bool;
  rStatusDetail : string; rAnomaly : string; rAnomalyStatus : Status; rCancelledFrom : Status;
  rCreatedBy : string; rExpiresAt : option Z; rLastCheckedAt : option Z; rPaidAt : option Z;
  rCreatedAt : Z; rUpdatedAt : Z
}.

Record eventRow := mkEventRow {
  evID : string; evOrg : string; evPaymentID : option string; evProvider : string;
  evEventID : string; evKind : EventKind; evSource : string; evStatus : Status;
  evDecision : string; evReason : string; evOutcome : option Outcome; evObservedAt : Z
}.

Record refundRow := mkRefundRow {
  fID : string; fOrg : string; fPaymentID : string; fDestination : RefundDestination;
  fProvider : string; fProviderRefundID : string; fAmount : string; fCurrency : string;
  fStatus : RefundStatus; fReason : string; fIdempotencyKey : string; fSourceType : string;
  fSourceID : string; fCreditNoteRequired : bool; fRefundApplicationFee : bool;
  fRecheckAttempts : Z; fNextRecheckAt : option Z; fNeedsReview : bool; fAdjustsTotal : bool;
  fCreditNoteID : string; fCashSessionID : string; fInstructions : string; fCreatedBy : string;
  fSettledAt : option Z; fCreatedAt : Z; fUpdatedAt : Z
}.

Record holdRow := mkHoldRow {
  oID : string; oOrg : string; oDocumentType : string; oDocumentID : string; oTokenHash : string;
  oHolder : string; oHoldChannel : Channel; oUserID : string; oHoldStatus : HoldStatus;
  oCreatedBy : string; oExpiresAt : Z; oCreatedAt : Z; oUpdatedAt : Z
}.

Record leaseRow := mkLeaseRow {
  leOrg : string; leLockedBy : string; leLockedUntil : option Z; leLastRunAt : option Z
}.

(** ** Conversions *)

Definition hashToken `{LedgerEnv} (token : string) : string :=
  if String.eqb token "" then "" else hex_encode (sha256 ("metacore-payments-hold:" +:+ token)).

Definition normPtr (s : option string) : string := match s with None => "" | Some s => norm s end.

Definition strPtr (s : string) : option string := if String.eqb s "" then None else Some s.

Definition deref (s : option string) : string := default ""%string s.

Definition payment (r : paymentRow) : Payment :=
  let refunded := norm (rAmountRefunded r) in
  mkPayment (rID r) (rDocumentType r) (rDocumentID r) (rOrderRef r) (rChannel r) (rProvider r)
    (deref (rProviderRef r)) (rSessionID r) (rDeviceID r) (rIdempotencyKey r) (rStatus r)
    (rCancelledFrom r) (norm (rAmount r)) (rCurrency r)
    (if String.eqb refunded "0.00" then "" else refunded)
    (normPtr (rFee r)) (normPtr (rNet r)) (rMethod r) (rInstallments r) (rCard r) (rCash r)
    (rSeller r) (rTestMode r) "" (rAnomaly r)
    (rPaidAt r) (rCreatedAt r) (rUpdatedAt r).

Definition refund (r : refundRow) : Refund :=
  mkRefund (fID r) (fPaymentID r) (fDestination r) (fProvider r) (fProviderRefundID r)
    (norm (fAmount r)) (fCurrency r) (fStatus r) (fReason r) (fIdempotencyKey r) (fSourceType r)
    (fSourceID r) (fCreditNoteRequired r) (fCreditNoteID r) (fAdjustsTotal r) (fCashSessionID r)
    (fNeedsReview r) (fCreatedAt r) (fSettledAt r).

Definition hold (r : holdRow) : Hold :=
  mkHold (oDocumentType r) (oDocumentID r) (oTokenHash r) (oHolder r) (oHoldChannel r) (oUserID r)
    (oHoldStatus r) (oExpiresAt r).

(** ** Columns of an update

    [Updates(map[string]any{...})]: a list of assignments; a later one wins. *)

Inductive pcol : Type :=
| c_provider_ref (s : string) | c_session_id (s : string) | c_device_id (s : string)
| c_status (s : Status) | c_amount_refunded (s : string) | c_fee (s : string) | c_net (s : string)
| c_method (s : string) | c_installments (n : Z) | c_card (c : Card) | c_cash (c : CashTender)
| c_test_mode (b : bool) | c_status_detail (s : string) | c_anomaly (s : string)
| c_anomaly_status (s : Status) | c_cancelled_from (s : Status) | c_expires_at (t : Z)
| c_last_checked_at (t : Z) | c_paid_at (t : Z) | c_updated_at (t : Z).

(** The value of one column after the assignments. *)
Definition assign {C A} (get : C -> option A) (cols : list C) (old : A) : A :=
  foldl (fun acc c => default acc (get c)) old cols.

Definition update_payment (cols : list pcol) (r : paymentRow) : paymentRow :=
  mkPaymentRow (rID r) (rOrg r) (rDocumentType r) (rDocumentID r) (rOrderRef r) (rChannel r)
    (rProvider r)
    (assign (fun c => match c with c_provider_ref s => Some (Some s) | _ => None end) cols (rProviderRef r))
    (assign (fun c => match c with c_session_id s => Some s | _ => None end) cols (rSessionID r))
    (assign (fun c => match c with c_device_id s => Some s | _ => None end) cols (rDeviceID r))
    (rIdempotencyKey r)
    (assign (fun c => match c with c_status s => Some s | _ => None end) cols (rStatus r))
    (rAmount r) (rCurrency r) (rDocumentTotal r)
    (assign (fun c => match c with c_amount_refunded s => Some s | _ => None end) cols (rAmountRefunded r))
    (assign (fun c => match c with c_fee s => Some (Some s) | _ => None end) cols (rFee r))
    (assign (fun c => match c with c_net s => Some (Some s) | _ => None end) cols (rNet r))
    (assign (fun c => match c with c_method s => Some s | _ => None end) cols (rMethod r))
    (assign (fun c => match c with c_installments n => Some n | _ => None end) cols (rInstallments r))
    (assign (fun c => match c with c_card x => Some (Some x) | _ => None end) cols (rCard r))
    (assign (fun c => match c with c_cash x => Some (Some x) | _ => None end) cols (rCash r))
    (rSeller r)
    (assign (fun c => match c with c_test_mode b => Some b | _ => None end) cols (rTestMode r))
    (assign (fun c => match c with c_status_detail s => Some s | _ => None end) cols (rStatusDetail r))
    (assign (fun c => match c with c_anomaly s => Some s | _ => None end) cols (rAnomaly r))
    (assign (fun c => match c with c_anomaly_status s => Some s | _ => None end) cols (rAnomalyStatus r))
    (assign (fun c => match c with c_cancelled_from s => Some s | _ => None end) cols (rCancelledFrom r))
    (rCreatedBy r)
    (assign (fun c => match c with c_expires_at t => Some (Some t) | _ => None end) cols (rExpiresAt r))
    (assign (fun c => match c with c_last_checked_at t => Some (Some t) | _ => None end) cols (rLastCheckedAt r))
    (assign (fun c => match c with c_paid_at t => Some (Some t) | _ => None end) cols (rPaidAt r))
    (rCreatedAt r)
    (assign (fun c => match c with c_updated_at t => Some t | _ => None end) cols (rUpdatedAt r)).

Inductive fcol : Type :=
| f_status (s : RefundStatus) | f_reason (s : string) | f_provider_refund_id (s : string)
| f_instructions (s : string) | f_recheck_attempts (n : Z) | f_next_recheck_at (t : option Z)
| f_needs_review (b : bool) | f_credit_note_id (s : string) | f_cash_session_id (s : string)
| f_settled_at (t : Z) | f_updated_at (t : Z).

Definition update_refund (cols : list fcol) (r : refundRow) : refundRow :=
  mkRefundRow (fID r) (fOrg r) (fPaymentID r) (fDestination r) (fProvider r)
    (assign (fun c => match c with f_provider_refund_id s => Some s | _ => None end) cols (fProviderRefundID r))
    (fAmount r) (fCurrency r)
    (assign (fun c => match c with f_status s => Some s | _ => None end) cols (fStatus r))
    (assign (fun c => match c with f_reason s => Some s | _ => None end) cols (fReason r))
    (fIdempotencyKey r) (fSourceType r) (fSourceID r) (fCreditNoteRequired r) (fRefundApplicationFee r)
    (assign (fun c => match c with f_recheck_attempts n => Some n | _ => None end) cols (fRecheckAttempts r))
    (assign (fun c => match c with f_next_recheck_at t => Some t | _ => None end) cols (fNextRecheckAt r))
    (assign (fun c => match c with f_needs_review b => Some b | _ => None end) cols (fNeedsReview r))
    (fAdjustsTotal r)
    (assign (fun c => match c with f_credit_note_id s => Some s | _ => None end) cols (fCreditNoteID r))
    (assign (fun c => match c with f_cash_session_id s => Some s | _ => None end) cols (fCashSessionID r))
    (assign (fun c => match c with f_instructions s => Some s | _ => None end) cols (fInstructions r))
    (fCreatedBy r)
    (assign (fun c => match c with f_settled_at t => Some (Some t) | _ => None end) cols (fSettledAt r))
    (fCreatedAt r)
    (assign (fun c => match c with f_updated_at t => Some t | _ => None end) cols (fUpdatedAt r)).

Inductive ocol : Type := o_status (s : HoldStatus) | o_expires_at (t : Z) | o_updated_at (t : Z).

Definition update_hold (cols : list ocol) (r : holdRow) : holdRow :=
  mkHoldRow (oID r) (oOrg r) (oDocumentType r) (oDocumentID r) (oTokenHash r) (oHolder r)
    (oHoldChannel r) (oUserID r)
    (assign (fun c => match c with o_status s => Some s | _ => None end) cols (oHoldStatus r))
    (oCreatedBy r)
    (assign (fun c => match c with o_expires_at t => Some t | _ => None end) cols (oExpiresAt r))
    (oCreatedAt r)
    (assign (fun c => match c with o_updated_at t => Some t | _ => None end) cols (oUpdatedAt r)).

(** ** The database *)

Record db := mkDb {
  d_payments : list paymentRow; d_events : list eventRow; d_refunds : list refundRow;
  d_holds : list holdRow; d_leases : list leaseRow
}.

Definition empty_db : db := mkDb [] [] [] [] [].

(** The primary keys and unique indexes of [Schema]. *)
Definition payment_key (r : paymentRow) : string * string * string :=
  (rOrg r, rProvider r, rIdempotencyKey r).
Definition payment_ref (r : paymentRow) : option (string * string * string) :=
  ref ← rProviderRef r; Some (rOrg r, rProvider r, ref).
Definition event_key (e : eventRow) : string * string * string :=
  (evOrg e, evProvider e, evEventID e).
Definition refund_key (r : refundRow) : string * string * string :=
  (fOrg r, fPaymentID r, fIdempotencyKey r).
Definition hold_document (r : holdRow) : string * string * string :=
  (oOrg r, oDocumentType r, oDocumentID r).
Definition active_hold_key (r : holdRow) : option (string * string * string) :=
  if bool_decide (oHoldStatus r = HoldActive) then Some (hold_document r) else None.

Definition payments_ok (l : list paymentRow) : bool :=
  bool_decide (NoDup (map rID l)) && bool_decide (NoDup (map payment_key l)) &&
  bool_decide (NoDup (omap payment_ref l)).
Definition events_ok (l : list eventRow) : bool :=
  bool_decide (NoDup (map evID l)) && bool_decide (NoDup (map event_key l)).
Definition refunds_ok (l : list refundRow) : bool :=
  bool_decide (NoDup (map fID l)) && bool_decide (NoDup (map refund_key l)).
Definition holds_ok (l : list holdRow) : bool :=
  bool_decide (NoDup (map oID l)) && bool_decide (NoDup (omap active_hold_key l)).
Definition leases_ok (l : list leaseRow) : bool := bool_decide (NoDup (map leOrg l)).

(** ** Transactions

    The body of [db.Transaction]: it reads the clock and the id generators
    of [env] and the database, and commits a new database or fails, which
    rolls back.  Transactions run one at a time (SQLite has one writer; on
    Postgres the code locks the document or the row it is about). *)

Record env := mkEnv { e_now : Z; e_id : string; e_id2 : string; e_token : string }.

Definition tx (A : Type) : Type := env -> db -> result lerr (A * db).

#[export] Instance tx_ret : MRet tx := fun _ a _ d => Ok (a, d).
#[export] Instance tx_bind : MBind tx := fun _ _ f m e d =>
  match m e d with Ok (a, d) => f a e d | Err err => Err err end.

Definition throw {A} (err : lerr) : tx A := fun _ _ => Err err.
Definition tx_now : tx Z := fun e d => Ok (e_now e, d).
Definition tx_id : tx string := fun e d => Ok (e_id e, d).
Definition tx_id2 : tx string := fun e d => Ok (e_id2 e, d).
Definition tx_token : tx string := fun e d => Ok (e_token e, d).
Definition tx_db : tx db := fun _ d => Ok (d, d).
Definition lift {A} (r : result lerr A) : tx A := fun _ d =>
  match r with Ok a => Ok (a, d) | Err err => Err err end.
(** An error of the payments package, returned as it is. *)
Definition lift_pay {A} (r : result pay_error A) : tx A := fun _ d =>
  match r with Ok a => Ok (a, d) | Err err => Err (Uncoded err) end.
(** [if b { return err }]. *)
Definition throw_if (b : bool) (err : lerr) : tx unit := if b then throw err else mret tt.

(** [MustAmount]: a panic when the text is not an amount. *)
Definition MustAmount (s : string) : tx Amount :=
  match ParseAmount s with Ok a => mret a | Err _ => throw Panic end.

(** Statements: a write that breaks an index fails. *)
Definition set_payments (l : list paymentRow) : tx unit := fun _ d =>
  if payments_ok l then Ok (tt, mkDb l (d_events d) (d_refunds d) (d_holds d) (d_leases d))
  else Err DBError.
Definition set_events (l : list eventRow) : tx unit := fun _ d =>
  if events_ok l then Ok (tt, mkDb (d_payments d) l (d_refunds d) (d_holds d) (d_leases d))
  else Err DBError.
Definition set_refunds (l : list refundRow) : tx unit := fun _ d =>
  if refunds_ok l then Ok (tt, mkDb (d_payments d) (d_events d) l (d_holds d) (d_leases d))
  else Err DBError.
Definition set_holds (l : list holdRow) : tx unit := fun _ d =>
  if holds_ok l then Ok (tt, mkDb (d_payments d) (d_events d) (d_refunds d) l (d_leases d))
  else Err DBError.
Definition set_leases (l : list leaseRow) : tx unit := fun _ d =>
  if leases_ok l then Ok (tt, mkDb (d_payments d) (d_events d) (d_refunds d) (d_holds d) l)
  else Err DBError.

Definition create_payment (r : paymentRow) : tx unit :=
  d ← tx_db; set_payments (d_payments d ++ [r]).
Definition create_refund (r : refundRow) : tx unit :=
  d ← tx_db; set_refunds (d_refunds d ++ [r]).
Definition create_hold (r : holdRow) : tx unit :=
  d ← tx_db; set_holds (d_holds d ++ [r]).

(** The rows a [Where] selects are updated; the number of them is returned. *)
Definition update_where {R} (where_ : R -> bool) (f : R -> R) (l : list R) : list R :=
  map (fun r => if where_ r then f r else r) l.
Definition rows_affected {R} (where_ : R -> bool) (l : list R) : Z :=
  Z.of_nat (length (List.filter where_ l)).

Definition update_payments (where_ : paymentRow -> bool) (cols : list pcol) : tx Z :=
  d ← tx_db;
  _ ← set_payments (update_where where_ (update_payment cols) (d_payments d));
  mret (rows_affected where_ (d_payments d)).
Definition update_refunds (where_ : refundRow -> bool) (cols : list fcol) : tx Z :=
  d ← tx_db;
  _ ← set_refunds (update_where where_ (update_refund cols) (d_refunds d));
  mret (rows_affected where_ (d_refunds d)).
Definition update_holds (where_ : holdRow -> bool) (cols : list ocol) : tx Z :=
  d ← tx_db;
  _ ← set_holds (update_where where_ (update_hold cols) (d_holds d));
  mret (rows_affected where_ (d_holds d)).

(** [INSERT ... ON CONFLICT (organization_id, provider, event_id) DO NOTHING]:
    true when the event was already recorded. *)
Definition insertEvent (ev : eventRow) : tx bool :=
  d ← tx_db;
  if existsb (fun x => bool_decide (event_key x = event_key ev)) (d_events d) then mret true
  else _ ← set_events (d_events d ++ [ev]); mret false.

(** [Order("created_at")]: a stable insertion sort. *)
Fixpoint insert_by {R} (key : R -> Z) (x : R) (l : list R) : list R :=
  match l with
  | [] => [x]
  | y :: l => if key x <? key y then x :: y :: l else y :: insert_by key x l
  end.
Definition order_by {R} (key : R -> Z) (l : list R) : list R :=
  foldl (fun acc x => insert_by key x acc) [] l.

Definition select_payments (where_ : paymentRow -> bool) : tx (list paymentRow) :=
  d ← tx_db; mret (order_by rCreatedAt (List.filter where_ (d_payments d))).
Definition select_refunds (where_ : refundRow -> bool) : tx (list refundRow) :=
  d ← tx_db; mret (order_by fCreatedAt (List.filter where_ (d_refunds d))).

(** [Take]: the first row; [None] is [gorm.ErrRecordNotFound]. *)
Definition take {R} (where_ : R -> bool) (l : list R) : option R := head (List.filter where_ l).
Definition take_payment (where_ : paymentRow -> bool) : tx (option paymentRow) :=
  d ← tx_db; mret (take where_ (d_payments d)).
Definition take_refund (where_ : refundRow -> bool) : tx (option refundRow) :=
  d ← tx_db; mret (take where_ (d_refunds d)).

(** ** Queries the operations share *)

Section queries.
Context `{LedgerEnv}.

Definition of_document (org docType docID : string) (r : paymentRow) : bool :=
  String.eqb (rOrg r) org && String.eqb (rDocumentType r) docType && String.eqb (rDocumentID r) docID.

Definition activeHold (org docType docID : string) : tx (option holdRow) :=
  d ← tx_db;
  mret (take (fun h => String.eqb (oOrg h) org && String.eqb (oDocumentType h) docType &&
                       String.eqb (oDocumentID h) docID && bool_decide (oHoldStatus h = HoldActive))
          (d_holds d)).

(** [Ledger.paymentRow]; [payment_by_id] is the call on the text of an id
    of a row, which [uuid.Parse] reads back. *)
Definition payment_by_id (org pid : string) : tx paymentRow :=
  r ← take_payment (fun r => String.eqb (rOrg r) org && String.eqb (rID r) pid);
  match r with None => throw (Coded CodeNotFound) | Some r => mret r end.
Definition find_payment_row (org id : string) : tx paymentRow :=
  match uuid_Parse (TrimSpace id) with
  | None => throw (Coded CodeInvalidInput)
  | Some pid => payment_by_id org pid
  end.

Definition refundsOf (org paymentID : string) : tx (list Refund) :=
  rows ← select_refunds (fun r => String.eqb (fOrg r) org && String.eqb (fPaymentID r) paymentID);
  mret (map refund rows).

(** [outcomeOf]. *)
Definition outcomeOf (p : Payment) : Outcome :=
  mkOutcome (pOrderRef p) (pStatus p) (pAmount p) (pCurrency p) (pProviderRef p) "" KindPayment
    (pMethod p) (pInstallments p) "" "" (pAmountRefunded p) (pFee p) (pNet p) (pTestMode p)
    (pChannel p) (pSessionID p) (pDeviceID p) (pCard p) (pCash p) (pSeller p) "" "".

End queries.

Record Document := mkDocument {
  dDocumentType : string; dDocumentID : string; dPayments : list Payment; dRefunds : list Refund;
  dNetPaid : string; dPaid : string; dOpen : bool; dHold : option Hold
}.

(** The loop of [document] over the payments: the net paid, and whether one is open. *)
Fixpoint document_loop (rows : list paymentRow) (net : Amount) (open : bool) : tx (Amount * bool) :=
  match rows with
  | [] => mret (net, open)
  | r :: rows =>
      n ← lift_pay (NetCaptured (payment r));
      document_loop rows (amount_Add net n) (open || Open (rStatus r))
  end.

(** [h.Token = ""]. *)
Definition hide_token (h : Hold) : Hold :=
  mkHold (hDocumentType h) (hDocumentID h) "" (hHolder h) (hChannel h) (hUserID h) (hStatus h) (hExpiresAt h).

Definition document (org docType docID : string) : tx Document :=
  rows ← select_payments (of_document org docType docID);
  '(net, open) ← document_loop rows amount_zero false;
  let ids := map rID rows in
  refunds ← (if bool_decide (length ids = 0%nat) then mret []
             else select_refunds (fun r => String.eqb (fOrg r) org && bool_decide (fPaymentID r ∈ ids)));
  paid ← lift_pay (DocumentPaid (map payment rows) (map refund refunds));
  hold_ ← activeHold org docType docID;
  now ← tx_now;
  mret (mkDocument docType docID (map payment rows) (map refund refunds) (amount_String net)
    (amount_String paid) open
    (h ← hold_; if now <? oExpiresAt h then Some (hide_token (hold h)) else None)).

Example empty_document :
  document "org" "order" "1" (mkEnv 0 "a" "b" "t") empty_db =
  Ok (mkDocument "order" "1" [] [] "0.00" "0.00" false None, empty_db).
Proof. vm_compute. reflexivity. Qed.
