(* ===== verification/LedgerProg.v ===== *)
(** * Payments ledger: operations as programs

    An operation of the ledger is a sequence of transactions, of queries to
    the payment providers and of messages to the event bus and the anomaly
    sink.  [prog] is that sequence: the answer of a transaction or of a
    provider decides what comes next.  [run] executes one operation alone;
    [LedgerReplicas] interleaves any number of them. *)

From S2P Require Import Prelude GoStrings PayStatus PayAmount PayModel PayHold PayRefund PayObserve LedgerStore.

(** ** Configuration *)

(** [Config]: the providers are configured or not, the event bus too;
    [IsPaymentsProvider] may be absent or fail. *)
Record Config := mkConfig {
  cfgProviders : bool;
  cfgPublish : bool;
  cfgIsPaymentsProvider : option (string -> string -> result unit bool);
  cfgRefundRepostWindow : gmap string Z;
  cfgDefaultRefundRepostWindow : Z
}.

(** ** Messages *)

(** A field of a query's input. *)
Inductive value : Type :=
| VStr (s : string) | VBool (b : bool) | VInt (n : Z) | VSeller (s : Seller) | VJSON (raw : string).

Record query := mkQuery {
  q_org : string; q_capability : string; q_provider : string; q_input : gmap string value
}.

Definition CommercePaymentsSession : string := "commerce.payments.session".
Definition CommercePaymentsTerminalCreate : string := "commerce.payments.terminal.create".
Definition CommercePaymentsStatus : string := "commerce.payments.status".
Definition CommercePaymentsCancel : string := "commerce.payments.cancel".
Definition CommercePaymentsRefund : string := "commerce.payments.refund".
Definition CommercePaymentsRefundStatus : string := "commerce.payments.refund.status".
Definition CommercePaymentsReconcile : string := "commerce.payments.reconcile".

(** What [Querier.Query] answers for a capability of cardinality one: an
    error (that [errors.Is(err, ErrNoProvider)] or not), no result, a failed
    result with its [ErrorCode] and whether it is [Indeterminate], or an
    output. *)
Inductive answer : Type :=
| QueryErr (no_provider : bool) (msg : string)
| NoResults
| ResultErr (c : string) (indeterminate : bool) (msg : string)
| Output (raw : string).

(** [QueryResult.One] after the query's own error: the output or the message. *)
Definition one (a : answer) : result string string :=
  match a with
  | QueryErr _ msg => Err msg
  | NoResults => Err "no provider"%string
  | ResultErr _ _ msg => Err msg
  | Output raw => Ok raw
  end.

Definition ReasonOrphan : string := "orphan".
Definition ReasonStuck : string := "stuck".
Definition ReasonRefundNeedsReview : string := "refund_needs_review".

(** [Anomaly] of the ledger. *)
Record AnomalyReport := mkAnomalyReport {
  aOrg : string; aPaymentID : string; aDocumentType : string; aDocumentID : string;
  aProvider : string; aProviderRef : string; aOrderRef : string; aReason : string;
  aStored : Status; aObserved : Status; aAmount : string; aCurrency : string; aSource : string;
  aResolved : bool
}.

(** What leaves the ledger on the bus: a [commerce.payments.confirmed] event
    with its emitter, or an anomaly. *)
Inductive note : Type := Confirmation (c : Confirmed) | Raised (a : AnomalyReport).

(** ** Programs *)

Inductive prog (A : Type) : Type :=
| Done (a : A)
| Tx {X : Type} (t : tx X) (k : result lerr X -> prog A)
| Ask (q : query) (k : answer -> prog A)
| Say (n : note) (k : prog A).
Arguments Done {A} a.
Arguments Tx {A X} t k.
Arguments Ask {A} q k.
Arguments Say {A} n k.

Fixpoint prog_bind {A B} (f : A -> prog B) (p : prog A) : prog B :=
  match p with
  | Done a => f a
  | Tx t k => Tx t (fun r => prog_bind f (k r))
  | Ask q k => Ask q (fun a => prog_bind f (k a))
  | Say n k => Say n (prog_bind f k)
  end.

#[export] Instance prog_ret : MRet prog := fun _ a => Done a.
#[export] Instance prog_MBind : MBind prog := fun _ _ f p => prog_bind f p.

(** One transaction, one question, and the clock outside a transaction. *)
Definition transaction {X} (t : tx X) : prog (result lerr X) := Tx t Done.
Definition ask (q : query) : prog answer := Ask q Done.
Definition say (n : note) : prog unit := Say n (Done tt).
Definition prog_now : prog Z := Tx tx_now (fun r => Done (match r with Ok t => t | Err _ => 0 end)).

(** ** Running one operation alone

    Transaction number [n] runs in [envs n], question number [m] is
    answered by [answers m]; the log keeps the questions and messages. *)

Inductive logged : Type := Asked (q : query) | Said (n : note).

Fixpoint run {A} (envs : nat -> env) (answers : nat -> answer) (p : prog A)
    (n m : nat) (d : db) : A * db * list logged :=
  match p with
  | Done a => (a, d, [])
  | Tx t k =>
      match t (envs n) d with
      | Ok (x, d') => run envs answers (k (Ok x)) (S n) m d'
      | Err err => run envs answers (k (Err err)) (S n) m d
      end
  | Ask q k =>
      let '(a, d', l) := run envs answers (k (answers m)) n (S m) d in (a, d', Asked q :: l)
  | Say s k =>
      let '(a, d', l) := run envs answers k n m d in (a, d', Said s :: l)
  end.
