(* ===== verification/LedgerObserve.v ===== *)
(** * Payments ledger: observations (payments/ledger/observe.go)

    Recording one provider update: finding the payment, the event that
    dedupes it, the decision on it, the columns it changes, the anomaly or
    confirmation it leads to. *)

From S2P Require Import Prelude GoStrings PayStatus PayAmount PayModel PayHold PayRefund PaySettle PayObserve.
From S2P Require Import LedgerStore LedgerProg.

(** [Observation] of the ledger; [None] is the zero value. *)
Record LedgerObservation := mkLedgerObservation {
  loPayment : option Payment; loDecision : option ObserveDecision; loReason : string;
  loDuplicate : bool; loCorrected : bool; loOrphan : bool
}.
Definition no_observation : LedgerObservation := mkLedgerObservation None None "" false false false.

Definition SourceWebhook : string := "webhook".
Definition SourcePoll : string := "poll".
Definition SourceReconcile : string := "reconcile".
Definition SourceStaff : string := "staff".

Definition moneyMismatch (reason : string) : bool :=
  bool_decide (reason ∈ map reason_string
    [ReasonAmountMismatch; ReasonCurrencyMismatch; ReasonProviderRefMismatch; ReasonInvalidOutcome]).

(** [validOutcome]: the amounts ([PayObserve.validOutcome]) and a way to find the payment. *)
Definition validOutcome (o : Outcome) : bool :=
  PayObserve.validOutcome o && negb (blank (oProviderRef o) && blank (oSessionID o) && blank (oOrderRef o)).

Fixpoint firstNonBlank (vals : list string) : string :=
  match vals with
  | [] => ""
  | v :: vals => if negb (blank v) then v else firstNonBlank vals
  end.

Definition truncate (s : string) (n : nat) : string :=
  if slen s <=? Z.of_nat n then s else String.substring 0 n s.

(** ** The columns an outcome sets *)

Section ledger.
Context `{LedgerEnv} (cfg : Config).

Definition set_if {C} (b : bool) (c : C) : list C := if b then [c] else [].

(** The [switch] on the refunded total. *)
Definition apply_refunded (row : paymentRow) (o : Outcome) : tx (list pcol) :=
  if bool_decide (oStatus o = StatusRefunded) then mret [c_amount_refunded (rAmount row)]
  else if negb (String.eqb (oAmountRefunded o) "") then mret [c_amount_refunded (oAmountRefunded o)]
  else if bool_decide (oKind o = KindRefund) && bool_decide (oStatus o = StatusPartiallyRefunded) then
    a ← MustAmount (norm (rAmountRefunded row));
    b ← MustAmount (oAmount o);
    mret [c_amount_refunded (amount_String (amount_Add a b))]
  else mret [].

Definition applyOutcome (row : paymentRow) (o : Outcome) (now : Z) : tx (list pcol) :=
  refunded ← apply_refunded row o;
  let detail := firstNonBlank [oStatusDetail o; oProviderStatus o] in
  mret ([c_status (oStatus o)] ++
    set_if (negb (bool_decide (oStatus o = StatusCancelling))) (c_cancelled_from (StatusOther "")) ++
    set_if (negb (String.eqb (oProviderRef o) "") && String.eqb (deref (rProviderRef row)) "")
      (c_provider_ref (oProviderRef o)) ++
    set_if (negb (String.eqb (oSessionID o) "") && String.eqb (rSessionID row) "")
      (c_session_id (oSessionID o)) ++
    set_if (negb (String.eqb (oDeviceID o) "")) (c_device_id (oDeviceID o)) ++
    refunded ++
    set_if (negb (String.eqb (oFee o) "")) (c_fee (oFee o)) ++
    set_if (negb (String.eqb (oNetAmount o) "")) (c_net (oNetAmount o)) ++
    set_if (negb (String.eqb (oMethod o) "")) (c_method (oMethod o)) ++
    set_if (0 <? oInstallments o) (c_installments (oInstallments o)) ++
    (match oCard o with Some c => [c_card c] | None => [] end) ++
    (match oCash o with Some c => [c_cash c] | None => [] end) ++
    set_if (oTestMode o) (c_test_mode true) ++
    set_if (negb (String.eqb detail "")) (c_status_detail (truncate detail 500)) ++
    set_if (Captured (oStatus o) && bool_decide (rPaidAt row = None))
      (c_paid_at (default now (parse_rfc3339 (oPaidAt o))))).

(** ** Finding the payment *)

(** [Order("created_at DESC")] and [Take]. *)
Definition take_newest (where_ : paymentRow -> bool) : tx (option paymentRow) :=
  d ← tx_db; mret (head (order_by (fun r => - rCreatedAt r) (List.filter where_ (d_payments d)))).

Definition findPayment (org provider : string) (o : Outcome) : tx (option paymentRow) :=
  let base := fun r => String.eqb (rOrg r) org && String.eqb (rProvider r) provider in
  by_ref ← (if negb (String.eqb (oProviderRef o) "") then
              take_payment (fun r => base r && bool_decide (rProviderRef r = Some (oProviderRef o)))
            else mret None);
  match by_ref with
  | Some r => mret (Some r)
  | None =>
      by_session ← (if negb (String.eqb (oSessionID o) "") then
                      take_newest (fun r => base r && String.eqb (rSessionID r) (oSessionID o))
                    else mret None);
      match by_session with
      | Some r => mret (Some r)
      | None =>
          if negb (String.eqb (oOrderRef o) "") then
            take_newest (fun r => base r && String.eqb (rOrderRef r) (oOrderRef o) &&
                                  String.eqb (deref (rProviderRef r)) "")
          else mret None
      end
  end.

(** ** Closing the hold and queueing refunds *)

(** [settleDocument] (charge.go). *)
Definition settleDocument (org docType docID total : string) : tx unit :=
  if String.eqb total "" then mret tt else
  doc ← document org docType docID;
  paid ← MustAmount (dPaid doc);
  t ← MustAmount total;
  if cmp_lt paid t then mret tt else
  now ← tx_now;
  _ ← update_holds (fun h => String.eqb (oOrg h) org && String.eqb (oDocumentType h) docType &&
        String.eqb (oDocumentID h) docID && bool_decide (oHoldStatus h = HoldActive))
      [o_status HoldConsumed; o_updated_at now];
  mret tt.

(** [queueRefundRecheck] (refund.go). *)
Definition queueRefundRecheck (org paymentID : string) (now : Z) : tx unit :=
  _ ← update_refunds (fun r => String.eqb (fOrg r) org && String.eqb (fPaymentID r) paymentID &&
        bool_decide (fStatus r = RefundPending) && bool_decide (fDestination r = RefundToOriginal) &&
        negb (fNeedsReview r))
      [f_next_recheck_at (Some now)];
  mret tt.

(** ** The transaction of [observe] *)

(** The observation with what is done after the commit: the row to publish
    and the anomaly to raise. *)
Record observed := mkObserved {
  ob_obs : LedgerObservation; ob_publish : option paymentRow; ob_anomaly : option AnomalyReport
}.

Definition mk_event (id org provider eventID source : string) (o : Outcome) (now : Z)
    (paymentID : option string) (decision reason : string) : eventRow :=
  mkEventRow id org paymentID provider eventID (oKind o) source (oStatus o) decision reason (Some o) now.

Definition observe_orphan (org provider source : string) (o : Outcome) (now : Z) : tx observed :=
  id ← tx_id;
  dup ← insertEvent (mk_event id org provider (DedupeEventID o) source o now None
          (decision_string Anomaly) ReasonOrphan);
  if (dup : bool) then mret (mkObserved (mkLedgerObservation None None "" true false false) None None)
  else mret (mkObserved (mkLedgerObservation None (Some Anomaly) ReasonOrphan false false true) None
         (Some (mkAnomalyReport org "" "" "" provider (oProviderRef o) (oOrderRef o) ReasonOrphan
            (StatusOther "") (oStatus o) (oAmount o) (oCurrency o) source false))).

(** The decision and whether a second consistent read corrects it. *)
Definition correction (row : paymentRow) (decision : Observation) (o : Outcome) (source : string) : bool :=
  bool_decide (oDecision decision = Anomaly) && String.eqb source SourceReconcile &&
  String.eqb (rAnomaly row) (reason_string (oReason decision)) &&
  bool_decide (rAnomalyStatus row = oStatus o) && negb (moneyMismatch (reason_string (oReason decision))).

(** Recording the event; a derived id that was seen is tried again as its own row. *)
Definition record_event (row : paymentRow) (decision : Observation) (corrected : bool)
    (org provider source : string) (o : Outcome) (now : Z) : tx bool :=
  let eventID := DedupeEventID o in
  let reason := reason_string (oReason decision) in
  id ← tx_id;
  dup ← insertEvent
    (if corrected
     then mk_event id org provider (eventID +:+ "|corrected") source o now (Some (rID row)) "corrected" reason
     else mk_event id org provider eventID source o now (Some (rID row))
            (decision_string (oDecision decision)) reason);
  if dup && negb corrected && bool_decide (oDecision decision = Apply) && String.eqb (oEventID o) "" &&
     negb (bool_decide (rStatus row = oStatus o)) then
    id2 ← tx_id2;
    insertEvent (mk_event id2 org provider (eventID +:+ "|after|" +:+ status_string (rStatus row)) source o
      now (Some (rID row)) (decision_string (oDecision decision)) reason)
  else mret dup.

Definition same_id (row r : paymentRow) : bool := String.eqb (rID r) (rID row).

Definition observe_tx (org provider : string) (o : Outcome) (source : string) : tx observed :=
  now ← tx_now;
  found ← findPayment org provider o;
  match found with
  | None => observe_orphan org provider source o now
  | Some row =>
      let p := payment row in
      let decision := ObserveOutcome p o in
      let corrected := correction row decision o source in
      let applied := bool_decide (oDecision decision = Apply) || corrected in
      dup ← record_event row decision corrected org provider source o now;
      let updates := [c_last_checked_at now; c_updated_at now] in
      if dup && negb corrected then
        _ ← update_payments (same_id row) updates;
        mret (mkObserved (mkLedgerObservation (Some p) (Some Ignore) (reason_string ReasonDuplicate)
          true false false) None None)
      else
        changes ← (if applied then
                     cols ← applyOutcome row o now;
                     mret (cols ++ (if corrected then [c_anomaly ""; c_anomaly_status (StatusOther "")] else []))
                   else if bool_decide (oDecision decision = Anomaly) then
                     mret [c_anomaly (reason_string (oReason decision)); c_anomaly_status (oStatus o)]
                   else mret []);
        _ ← update_payments (same_id row) (updates ++ changes);
        reread ← take_payment (same_id row);
        match reread with
        | None => throw DBError
        | Some stored =>
            let publish := applied && negb (bool_decide (oStatus o = StatusPending)) &&
                           negb (bool_decide (oStatus o = StatusRequiresAction)) in
            _ ← (if applied then
                   a ← MustAmount (norm (rAmountRefunded stored));
                   b ← MustAmount (norm (rAmountRefunded row));
                   if cmp_gt a b then queueRefundRecheck org (rID stored) now else mret tt
                 else mret tt);
            _ ← (if publish && Counts (oStatus o) then
                   settleDocument org (rDocumentType row) (rDocumentID row) (normPtr (rDocumentTotal row))
                 else mret tt);
            mret (mkObserved
              (mkLedgerObservation (Some (payment stored)) (Some (oDecision decision))
                 (reason_string (oReason decision)) false corrected false)
              (if publish then Some stored else None)
              (if bool_decide (oDecision decision = Anomaly) || corrected then
                 Some (mkAnomalyReport org (rID row) (rDocumentType row) (rDocumentID row) provider
                   (firstNonBlank [oProviderRef o; pProviderRef p]) (rOrderRef row)
                   (reason_string (oReason decision)) (rStatus row) (oStatus o) (oAmount o) (oCurrency o)
                   source corrected)
               else None))
        end
  end.

(** ** Publishing *)

Definition with_kind (o : Outcome) (k : EventKind) : Outcome :=
  mkOutcome (oOrderRef o) (oStatus o) (oAmount o) (oCurrency o) (oProviderRef o) (oEventID o) k
    (oMethod o) (oInstallments o) (oPaidAt o) (oOccurredAt o) (oAmountRefunded o) (oFee o) (oNetAmount o)
    (oTestMode o) (oChannel o) (oSessionID o) (oDeviceID o) (oCard o) (oCash o) (oSeller o)
    (oProviderStatus o) (oStatusDetail o).

(** The [result] member of the event: the stored payment under the identity
    of the outcome. *)
Definition published_result (p : Payment) (o : Outcome) : Outcome :=
  let r := outcomeOf p in
  mkOutcome (oOrderRef r) (oStatus r) (if bool_decide (oKind o = KindRefund) then oAmount o else oAmount r)
    (oCurrency r) (oProviderRef r) (DedupeEventID o) (oKind o) (oMethod r) (oInstallments r)
    (oPaidAt o) (oOccurredAt o) (oAmountRefunded r) (oFee r) (oNetAmount r) (oTestMode r) (oChannel r)
    (oSessionID r) (oDeviceID r) (oCard r) (oCash r) (oSeller r) (oProviderStatus r) (oStatusDetail r).

Definition confirmation (org : string) (row : paymentRow) (o : Outcome) (source : string) (now : Z) : Confirmed :=
  let p := payment row in
  mkConfirmed (pProvider p) (pProvider p) (published_result p o) org
    (firstNonBlank [oOccurredAt o; format_rfc3339 now]) source (pID p) (pDocumentType p) (pDocumentID p).

Definition publish (org : string) (row : paymentRow) (o : Outcome) (source : string) : prog unit :=
  if negb (cfgPublish cfg) then mret tt else
  now ← prog_now;
  say (Confirmation (confirmation org row o source now)).

(** The log, the sink and the bus receive the same report. *)
Definition raise (a : AnomalyReport) : prog unit := say (Raised a).

(** ** observe and Observe *)

(** The observation beside an error is the zero one. *)
Definition observe (org provider : string) (o : Outcome) (source : string) :
    prog (LedgerObservation * option lerr) :=
  if negb (validOutcome o) then mret (no_observation, Some (Coded CodeInvalidInput)) else
  let o := with_kind o (outcome_kind o) in
  r ← transaction (observe_tx org provider o source);
  match r with
  | Err e => mret (no_observation, Some e)
  | Ok ob =>
      _ ← (match ob_anomaly ob with Some a => raise a | None => mret tt end);
      _ ← (match ob_publish ob with Some row => publish org row o source | None => mret tt end);
      mret (ob_obs ob, None)
  end.

Definition Observe (org caller provider : string) (o : Outcome) (source : string) :
    prog (LedgerObservation * option lerr) :=
  let go := fun provider =>
    if blank provider then mret (no_observation, Some (Coded CodeInvalidInput)) else
    let source := if String.eqb source "" then SourceWebhook else source in
    observe org provider o source in
  if String.eqb caller "" then go provider
  else if negb (String.eqb provider "") && negb (String.eqb provider caller) then
    mret (no_observation, Some (Coded CodeForbidden))
  else match cfgIsPaymentsProvider cfg with
  | None => mret (no_observation, Some (Coded CodeForbidden))
  | Some provides =>
      match provides org caller with
      | Err _ => mret (no_observation, Some (Coded CodeUnavailable))
      | Ok false => mret (no_observation, Some (Coded CodeForbidden))
      | Ok true => go caller
      end
  end.
End ledger.
