(* ===== verification/LedgerCharge.v ===== *)
(** * Payments ledger: holds and charges (payments/ledger/ledger.go, charge.go)

    Taking and releasing the hold of a document, reading a document,
    starting a charge and sending it to the provider, re-reading and
    cancelling a payment. *)

From S2P Require Import Prelude GoStrings PayStatus PayAmount PayModel PayHold PayRefund PaySettle PayObserve.
From S2P Require Import LedgerStore LedgerProg LedgerObserve.

Section ledger.
Context `{LedgerEnv} (cfg : Config).

(** ** Holds *)

Record HoldResult := mkHoldResult { hrHold : Hold; hrToken : string }.

Definition is_held (e : pay_error) : bool := match e with ErrHeld _ _ => true | _ => false end.

Definition with_token (req : HoldRequest) (token : string) : HoldRequest :=
  mkHoldRequest (PayHold.rDocumentType req) (PayHold.rDocumentID req) (rHolder req) (PayHold.rChannel req)
    (rUserID req) token (rTTL req).

(** The renewal by the owner: [Acquire] did not call the token generator. *)
Definition renews (current : option Hold) (token : string) (now : Z) : bool :=
  match current with Some h => Live h now && Owns h token | None => false end.

Definition same_hold (row h : holdRow) : bool := String.eqb (oID h) (oID row).

Definition acquire_tx (org : string) (req : HoldRequest) (caller : string) : tx HoldResult :=
  cur ← activeHold org (PayHold.rDocumentType req) (PayHold.rDocumentID req);
  now ← tx_now;
  raw ← tx_token;
  id ← tx_id;
  let hreq := with_token req (hashToken (rToken req)) in
  match Acquire (hold <$> cur) hreq now (hashToken raw) with
  | Err e => throw (if is_held e then Coded CodeInPayment else Coded CodeInvalidInput)
  | Ok h =>
      match cur with
      | Some row =>
          if renews (hold <$> cur) (rToken hreq) now then
            _ ← update_holds (same_hold row) [o_expires_at (hExpiresAt h); o_updated_at now];
            mret (mkHoldResult (hide_token h) (rToken req))
          else
            _ ← update_holds (same_hold row) [o_status HoldExpired; o_updated_at now];
            _ ← create_hold (mkHoldRow id org (PayHold.rDocumentType req) (PayHold.rDocumentID req) (hToken h)
                  (rHolder req) (PayHold.rChannel req) (rUserID req) HoldActive caller (hExpiresAt h) now now);
            mret (mkHoldResult (hide_token h) raw)
      | None =>
          _ ← create_hold (mkHoldRow id org (PayHold.rDocumentType req) (PayHold.rDocumentID req) (hToken h)
                (rHolder req) (PayHold.rChannel req) (rUserID req) HoldActive caller (hExpiresAt h) now now);
          mret (mkHoldResult (hide_token h) raw)
      end
  end.

Definition AcquireHold (org : string) (req : HoldRequest) (caller : string) : prog (result lerr HoldResult) :=
  if blank (PayHold.rDocumentType req) || blank (PayHold.rDocumentID req) || blank (rHolder req)
  then mret (Err (Coded CodeInvalidInput))
  else transaction (acquire_tx org req caller).

Definition release_tx (org docType docID token : string) (force : bool) : tx unit :=
  cur ← activeHold org docType docID;
  now ← tx_now;
  match cur with
  | None => mret tt
  | Some row =>
      match Release (Some (hold row)) (hashToken token) force now with
      | (Some next, Ok _) =>
          _ ← update_holds (same_hold row) [o_status (hStatus next); o_updated_at now]; mret tt
      | (_, _) => throw (Coded CodeHoldNotOwner)
      end
  end.

Definition ReleaseHold (org docType docID token : string) (force : bool) : prog (result lerr unit) :=
  transaction (release_tx org docType docID token force).

(** [Ledger.Document] and [Ledger.Payment]. *)
Definition GetDocument (org docType docID : string) : prog (result lerr Document) :=
  if blank docType || blank docID then mret (Err (Coded CodeInvalidInput))
  else transaction (document org docType docID).

Definition GetPayment (org id : string) : prog (result lerr Payment) :=
  transaction (row ← find_payment_row org id; mret (payment row)).
(** [Payment] on the id of a row. *)
Definition reread_payment (org id : string) : prog (result lerr Payment) :=
  transaction (row ← payment_by_id org id; mret (payment row)).

(** ** Starting a charge *)

Record ChargeRequest := mkChargeRequest {
  kDocumentType : string; kDocumentID : string; kOrderRef : string; kDocumentTotal : string;
  kAmount : string; kCurrency : string; kChannel : Channel; kProvider : string; kDeviceID : string;
  kIdempotencyKey : string; kHoldToken : string; kMarket : string; kCash : option CashTender;
  kSeller : option Seller; kProviderInput : gmap string value; kTestMode : bool; kCaller : string
}.

Record ChargeResult := mkChargeResult {
  crVerdict : option Verdict; crPayment : option Payment; crProvider : option string; crIndeterminate : bool
}.
Definition no_charge : ChargeResult := mkChargeResult None None None false.

Definition positive_decimal (s : string) : bool :=
  match ParseAmount s with Ok a => negb (amount_Sign a <=? 0) | Err _ => false end.

Definition validateCharge (req : ChargeRequest) : bool :=
  negb (blank (kDocumentType req) || blank (kDocumentID req)) &&
  negb (blank (kIdempotencyKey req)) &&
  channel_Valid (kChannel req) &&
  negb (blank (kProvider req)) &&
  Bool.eqb (bool_decide (kChannel req = ChannelCash)) (String.eqb (kProvider req) ProviderCash) &&
  negb (bool_decide (kChannel req = ChannelTerminal) && blank (kDeviceID req)) &&
  positive_decimal (kAmount req) && positive_decimal (kDocumentTotal req) &&
  ValidCurrency (kCurrency req).

Definition is_cash (req : ChargeRequest) : bool := bool_decide (kChannel req = ChannelCash).

(** The new row; drawer cash is captured at once. *)
Definition charge_row (id org : string) (req : ChargeRequest) (now : Z) : paymentRow :=
  mkPaymentRow id org (kDocumentType req) (kDocumentID req)
    (firstNonBlank [kOrderRef req; kDocumentID req]) (kChannel req) (kProvider req)
    (if is_cash req then Some id else None) "" (kDeviceID req) (kIdempotencyKey req)
    (if is_cash req then StatusPaid else StatusPending) (kAmount req) (kCurrency req)
    (strPtr (kDocumentTotal req)) "0" None None (if is_cash req then "cash" else "") 0 None
    (if is_cash req then kCash req else None) (kSeller req) (kTestMode req) "" "" (StatusOther "")
    (StatusOther "") (kCaller req) None None (if is_cash req then Some now else None) now now.

(** The answer, and the row when one was created. *)
Definition start_charge_tx (org : string) (req : ChargeRequest) : tx (ChargeResult * option paymentRow) :=
  hold_ ← activeHold org (kDocumentType req) (kDocumentID req);
  now ← tx_now;
  _ ← (match hold_ with
       | Some h => match CheckCharge (Some (hold h)) (hashToken (kHoldToken req)) now with
                   | Err _ => throw (Coded CodeInPayment)
                   | Ok _ => mret tt
                   end
       | None => mret tt
       end);
  doc ← document org (kDocumentType req) (kDocumentID req);
  match CheckReplay (dPayments doc) (dRefunds doc) (kIdempotencyKey req) (kDocumentTotal req) with
  | Err _ => throw (Coded CodeInvalidInput)
  | Ok (verdict, existing) =>
      if negb (bool_decide (verdict = VerdictNew)) then
        mret (mkChargeResult (Some verdict) existing None false, None)
      else
        total ← MustAmount (kDocumentTotal req);
        paid ← MustAmount (dPaid doc);
        amount ← MustAmount (kAmount req);
        _ ← throw_if (cmp_gt amount (amount_Sub total paid)) (Coded CodeExceedsDue);
        id ← tx_id;
        let row := charge_row id org req now in
        _ ← throw_if (negb (bool_decide (length (payment_Validate (payment row)) = 0%nat))) (Coded CodeInvalidInput);
        _ ← create_payment row;
        _ ← (if bool_decide (rStatus row = StatusPaid) then
               settleDocument org (kDocumentType req) (kDocumentID req) (kDocumentTotal req)
             else mret tt);
        mret (mkChargeResult (Some VerdictNew) (Some (payment row)) None false, Some row)
  end.

(** ** The provider's answer to a charge *)

Definition same_payment (org id : string) (r : paymentRow) : bool :=
  String.eqb (rOrg r) org && String.eqb (rID r) id.

Definition touch (org id detail : string) : prog (result lerr Z) :=
  transaction (now ← tx_now;
    update_payments (same_payment org id) [c_status_detail (truncate detail 500); c_updated_at now]).

Definition markFailed (org id detail : string) : prog (result lerr Z) :=
  transaction (now ← tx_now;
    update_payments (fun r => same_payment org id r && bool_decide (rStatus r = StatusPending))
      [c_status StatusFailed; c_status_detail (truncate detail 500); c_updated_at now]).

Definition is_terminal (req : ChargeRequest) : bool := bool_decide (kChannel req = ChannelTerminal).

Definition channel_string (c : Channel) : string :=
  match c with
  | ChannelTerminal => "terminal" | ChannelCash => "cash" | ChannelQR => "qr" | ChannelLink => "link"
  | ChannelOnline => "online" | ChannelOther s => s
  end.

Definition charge_input (req : ChargeRequest) (row : paymentRow) : gmap string value :=
  let input := <["order_ref"%string := VStr (rOrderRef row)]> (kProviderInput req) in
  let input := <["amount"%string := VStr (kAmount req)]> input in
  let input := <["currency"%string := VStr (kCurrency req)]> input in
  let input := <["idempotency_key"%string := VStr (kIdempotencyKey req)]> input in
  let input := if is_terminal req then <["device_id"%string := VStr (kDeviceID req)]> input
               else <["channel"%string := VStr (channel_string (kChannel req))]> input in
  match kSeller req with Some s => <["seller"%string := VSeller s]> input | None => input end.

Definition charge_query (org : string) (req : ChargeRequest) (row : paymentRow) : query :=
  mkQuery org (if is_terminal req then CommercePaymentsTerminalCreate else CommercePaymentsSession)
    (kProvider req) (charge_input req row).

(** [r.ErrorCode()], and [CodeProvider] when there is none (the query itself
    failed, or the provider returned nothing). *)
Definition answer_code (a : answer) : code :=
  match a with
  | ResultErr c _ _ => if String.eqb c "" then CodeProvider else CodeOther c
  | _ => CodeProvider
  end.
Definition answer_message (a : answer) : string :=
  match a with
  | QueryErr _ msg | ResultErr _ _ msg => msg
  | NoResults => "provider returned nothing"
  | Output _ => ""
  end.
Definition code_string (c : code) : string :=
  match c with
  | CodeProvider => "provider_error" | CodeOther s => s | CodeInvalidInput => "invalid_input"
  | CodeNotFound => "not_found" | CodeInPayment => "in_payment" | CodeHoldNotOwner => "hold_not_owner"
  | CodeInvalidTransition => "invalid_transition" | CodeExceedsDue => "exceeds_due"
  | CodeNotRefundable => "not_refundable" | CodeRefundExceeds => "refund_exceeds"
  | CodeIdempotency => "idempotency_conflict" | CodeForbidden => "forbidden"
  | CodeUnavailable => "unavailable"
  end.

(** The columns of a creation answer. *)
Definition creation_updates (req : ChargeRequest) (co : creationOutput) (now : Z) : list pcol :=
  [c_session_id (if is_terminal req then coProviderRef co else coSessionID co); c_updated_at now;
   c_test_mode (coTestMode co || kTestMode req)] ++
  set_if (negb (String.eqb (firstNonBlank [coProviderRef co]) "")) (c_provider_ref (firstNonBlank [coProviderRef co])) ++
  set_if (negb (String.eqb (coDeviceID co) "")) (c_device_id (coDeviceID co)) ++
  (match parse_rfc3339 (coExpiresAt co) with Some t => [c_expires_at t] | None => [] end).

Definition creation_status (co : creationOutput) : Status :=
  if bool_decide (coStatus co = StatusOther "created") || negb (status_Valid (coStatus co))
  then StatusPending else coStatus co.

Definition with_status (o : Outcome) (s : Status) : Outcome :=
  mkOutcome (oOrderRef o) s (oAmount o) (oCurrency o) (oProviderRef o) (oEventID o) (oKind o)
    (oMethod o) (oInstallments o) (oPaidAt o) (oOccurredAt o) (oAmountRefunded o) (oFee o) (oNetAmount o)
    (oTestMode o) (oChannel o) (oSessionID o) (oDeviceID o) (oCard o) (oCash o) (oSeller o)
    (oProviderStatus o) (oStatusDetail o).

(** [res] with the payment re-read; the error is the read's. *)
Definition reread (org id : string) (res : ChargeResult) : prog (ChargeResult * option lerr) :=
  p ← reread_payment org id;
  mret (match p with
        | Ok p => (mkChargeResult (crVerdict res) (Some p) (crProvider res) (crIndeterminate res), None)
        | Err e => (mkChargeResult (crVerdict res) None (crProvider res) (crIndeterminate res), Some e)
        end).

Definition record_creation (org : string) (req : ChargeRequest) (row : paymentRow) (raw : string) :
    prog (ChargeResult * option lerr) :=
  let res := mkChargeResult (Some VerdictNew) (Some (payment row)) (Some raw) false in
  let co := decode_creation raw in
  let status := creation_status co in
  u ← transaction (now ← tx_now;
        update_payments (same_payment org (rID row)) (creation_updates req co now));
  match u with
  | Err e => mret (res, Some e)
  | Ok _ =>
      oerr ← (if negb (bool_decide (status = StatusPending)) then
                p ← reread_payment org (rID row);
                match p with
                | Err _ => (* the zero payment's outcome is not valid *)
                    mret (Some (Coded CodeInvalidInput))
                | Ok p =>
                    '(_, err) ← observe cfg org (rProvider row) (with_status (outcomeOf p) status) SourcePoll;
                    mret err
                end
              else mret None);
      match oerr with
      | Some e => mret (res, Some e)
      | None => reread org (rID row) res
      end
  end.

Definition sendToProvider (org : string) (req : ChargeRequest) (row : paymentRow) :
    prog (ChargeResult * option lerr) :=
  let res := mkChargeResult (Some VerdictNew) (Some (payment row)) None false in
  if negb (cfgProviders cfg) then mret (res, Some (Coded CodeUnavailable)) else
  a ← ask (charge_query org req row);
  match a with
  | Output raw => record_creation org req row raw
  | ResultErr _ true msg =>
      _ ← touch org (rID row) ("indeterminate: " +:+ msg);
      mret (mkChargeResult (Some VerdictNew) (Some (payment row)) None true, None)
  | _ =>
      let code := answer_code a in
      f ← markFailed org (rID row) (code_string code +:+ ": " +:+ answer_message a);
      match f with
      | Err e => mret (res, Some e)
      | Ok _ => '(res, _) ← reread org (rID row) res; mret (res, Some (Coded code))
      end
  end.

Definition StartCharge (org : string) (req : ChargeRequest) : prog (ChargeResult * option lerr) :=
  if negb (validateCharge req) then mret (no_charge, Some (Coded CodeInvalidInput)) else
  r ← transaction (start_charge_tx org req);
  match r with
  | Err e => mret (no_charge, Some e)
  | Ok (res, None) => mret (res, None)
  | Ok (res, Some row) =>
      if is_cash req then
        _ ← publish cfg org row (outcomeOf (payment row)) SourceStaff;
        mret (res, None)
      else sendToProvider org req row
  end.

(** ** Re-reading and cancelling *)

Definition set_nonempty (k v : string) (input : gmap string value) : gmap string value :=
  if negb (String.eqb v "") then <[k := VStr v]> input else input.

Definition status_query (org : string) (p : Payment) : query :=
  mkQuery org CommercePaymentsStatus (pProvider p)
    (set_nonempty "session_id" (pSessionID p) (set_nonempty "provider_ref" (pProviderRef p)
      {["order_ref"%string := VStr (pOrderRef p)]})).

Definition readStatus (org : string) (p : Payment) : prog (result (lerr * string) Outcome) :=
  if negb (cfgProviders cfg) then
    mret (Err (Coded CodeUnavailable, "no provider querier configured"%string)) else
  a ← ask (status_query org p);
  mret (match one a with
        | Err msg => Err (Coded CodeProvider, msg)
        | Ok raw => match decode_status raw with
                    | None => Err (Coded CodeProvider, "invalid output"%string)
                    | Some o => Ok o
                    end
        end).

Definition observation_of (p : Payment) : LedgerObservation :=
  mkLedgerObservation (Some p) None "" false false false.

Definition Refresh (org paymentID source : string) : prog (LedgerObservation * option lerr) :=
  r ← transaction (find_payment_row org paymentID);
  match r with
  | Err e => mret (no_observation, Some e)
  | Ok row =>
      let p := payment row in
      if String.eqb (pProvider p) ProviderCash then
        mret (mkLedgerObservation (Some p) (Some Ignore) "no_provider_state" false false false, None)
      else
        o ← readStatus org p;
        match o with
        | Err (e, msg) =>
            _ ← transaction (now ← tx_now;
                  update_payments (same_id row)
                    [c_last_checked_at now; c_status_detail (truncate ("status: " +:+ msg) 500)]);
            mret (observation_of p, Some e)
        | Ok o => observe cfg org (pProvider p) o source
        end
  end.

Definition cancel_query (org : string) (p : Payment) (key reason : string) : query :=
  mkQuery org CommercePaymentsCancel (pProvider p)
    (set_nonempty "device_id" (pDeviceID p) (set_nonempty "session_id" (pSessionID p)
      (set_nonempty "provider_ref" (pProviderRef p)
        (<["order_ref"%string := VStr (pOrderRef p)]> (<["idempotency_key"%string := VStr key]>
          {["reason"%string := VStr reason]}))))).

(** The provider accepted to cancel: the request is recorded when the
    status still is the one that was read. *)
Definition mark_cancelling (row : paymentRow) : prog unit :=
  match Transition (rStatus row) StatusCancelling with
  | Err _ => mret tt
  | Ok _ =>
      _ ← transaction (now ← tx_now;
            update_payments (fun r => same_id row r && bool_decide (rStatus r = rStatus row))
              [c_status StatusCancelling; c_cancelled_from (rStatus row); c_updated_at now]);
      mret tt
  end.

Definition Cancel (org paymentID idempotencyKey reason : string) : prog (LedgerObservation * option lerr) :=
  r ← transaction (find_payment_row org paymentID);
  match r with
  | Err e => mret (no_observation, Some e)
  | Ok row =>
      let p := payment row in
      if blank idempotencyKey then mret (observation_of p, Some (Coded CodeInvalidInput))
      else if negb (Open (pStatus p)) then mret (observation_of p, Some (Coded CodeInvalidTransition))
      else if negb (cfgProviders cfg) then mret (observation_of p, Some (Coded CodeUnavailable))
      else
        a ← ask (cancel_query org p idempotencyKey reason);
        _ ← (match one a with
             | Ok raw =>
                 if String.eqb (decode_cancel raw) "cancelling" && negb (bool_decide (pStatus p = StatusCancelling))
                 then mark_cancelling row else mret tt
             | Err _ => mret tt
             end);
        '(obs, rerr) ← Refresh org paymentID SourcePoll;
        mret (obs, match one a with Err _ => Some (Coded CodeProvider) | Ok _ => rerr end)
  end.
End ledger.
