(* ===== verification/LedgerRefund.v ===== *)
(** * Payments ledger: refunds (payments/ledger/refund.go)

    Creating a refund, asking the provider for it, recording its answers,
    asking again about a refund left pending, and settling one by hand. *)

From S2P Require Import Prelude GoStrings PayStatus PayAmount PayModel PayHold PayRefund PaySettle PayObserve.
From S2P Require Import LedgerStore LedgerProg LedgerObserve LedgerCharge.

Section ledger.
Context `{LedgerEnv} (cfg : Config).

Record RefundRequest := mkRefundRequest {
  xPaymentID : string; xAmount : string; xDestination : RefundDestination; xIdempotencyKey : string;
  xReason : string; xSourceType : string; xSourceID : string; xCreditNoteRequired : bool;
  xAdjustsTotal : bool; xRefundApplicationFee : bool; xCaller : string
}.

Record RefundResult := mkRefundResult {
  rrRefund : option Refund; rrPayment : option Payment; rrReplay : bool; rrInstructions : string;
  rrIndeterminate : bool
}.
Definition no_refund : RefundResult := mkRefundResult None None false "" false.

(** ** The row *)

Definition same_refund (org id : string) (r : refundRow) : bool :=
  String.eqb (fOrg r) org && String.eqb (fID r) id.

(** What [CheckRefund] is asked about. *)
Definition next_refund (p : Payment) (req : RefundRequest) : Refund :=
  mkRefund "" (pID p) (xDestination req) "" "" (xAmount req) (pCurrency p) (RefundOther "") ""
    (xIdempotencyKey req) "" "" false "" false "" false 0 None.

Definition new_refund_row (id org : string) (row : paymentRow) (req : RefundRequest) (now : Z) : refundRow :=
  mkRefundRow id org (rID row) (xDestination req)
    (if bool_decide (xDestination req = RefundToOriginal) then rProvider row else "") ""
    (norm (xAmount req)) (rCurrency row) RefundPending (xReason req) (xIdempotencyKey req)
    (xSourceType req) (xSourceID req) (xCreditNoteRequired req) (xRefundApplicationFee req) 0 None false
    (xAdjustsTotal req) "" "" "" (xCaller req) None now now.

(** ** The transaction of [CreateRefund] *)

(** A refund was created, one must be asked about again, or neither. *)
Inductive refund_outcome : Type :=
| Created (pay : paymentRow) (r : refundRow)
| Recheck (pay : paymentRow) (r : refundRow)
| Answered (res : RefundResult).

Definition refund_error (e : pay_error) : lerr :=
  if bool_decide (e = ErrRefundExceeds) then Coded CodeRefundExceeds
  else if bool_decide (e = ErrIdempotencyConflict) then Coded CodeIdempotency
  else Coded CodeNotRefundable.

Definition create_refund_tx (org : string) (req : RefundRequest) : tx refund_outcome :=
  row ← find_payment_row org (xPaymentID req);
  let p := payment row in
  existing ← refundsOf org (rID row);
  match CheckRefund p existing (next_refund p req) with
  | Err e => throw (refund_error e)
  | Ok (Some replay) =>
      if bool_decide (rfStatus replay = RefundPending) && bool_decide (rfDestination replay = RefundToOriginal)
      then
        r ← take_refund (same_refund org (rfID replay));
        match r with
        | Some r => mret (Recheck row r)
        | None => throw DBError
        end
      else mret (Answered (mkRefundResult (Some replay) (Some p) true "" false))
  | Ok None =>
      if bool_decide (xDestination req = RefundToOriginal) && String.eqb (pProvider p) ProviderCash then
        throw (Coded CodeNotRefundable)
      else
        now ← tx_now;
        id ← tx_id;
        let r := new_refund_row id org row req now in
        _ ← create_refund r;
        mret (Created row r)
  end.

(** ** Recording an answer *)

(** [payments.RefundStatus]. *)
Definition refund_cols (r : refundRow) (st : RefundStatus) (providerID instructions reason : string)
    (now : Z) : list fcol :=
  let moves := negb (bool_decide (st = fStatus r)) && CanTransitionRefund (fStatus r) st in
  [f_updated_at now] ++
  (if moves then
     [f_status st] ++ set_if (bool_decide (st = RefundSucceeded)) (f_settled_at now) ++
     set_if (negb (String.eqb reason "")) (f_reason reason)
   else []) ++
  set_if (negb (String.eqb providerID "") && String.eqb (fProviderRefundID r) "") (f_provider_refund_id providerID) ++
  set_if (negb (String.eqb instructions "")) (f_instructions (truncate instructions 1000)).

Definition update_refund_tx (org id : string) (st : RefundStatus) (providerID instructions reason : string) :
    tx RefundStatus :=
  found ← take_refund (same_refund org id);
  match found with
  | None => throw DBError
  | Some r =>
      now ← tx_now;
      let moves := negb (bool_decide (st = fStatus r)) && CanTransitionRefund (fStatus r) st in
      _ ← update_refunds
            (fun x => String.eqb (fID x) (fID r) && (negb moves || bool_decide (fStatus x = fStatus r)))
            (refund_cols r st providerID instructions reason now);
      mret (if moves then st else fStatus r)
  end.

Definition updateRefund (org id : string) (st : RefundStatus) (providerID instructions reason : string) :
    prog (result lerr RefundStatus) := transaction (update_refund_tx org id st providerID instructions reason).

(** [refundResult]: the refund and its payment as they are now. *)
Definition refundResult (org id : string) (res : RefundResult) : prog (RefundResult * option lerr) :=
  r ← transaction (found ← take_refund (same_refund org id);
                   match found with Some r => mret r | None => throw DBError end);
  match r with
  | Err e => mret (res, Some e)
  | Ok r =>
      p ← reread_payment org (fPaymentID r);
      mret (mkRefundResult (Some (refund r)) (match p with Ok p => Some p | Err _ => None end)
              (rrReplay res) (rrInstructions res) (rrIndeterminate res),
            match p with Ok _ => None | Err e => Some e end)
  end.

(** ** The refunded total of the payment *)

(** The row when it changed. *)
Definition apply_refunds_tx (org paymentID : string) : tx (option paymentRow) :=
  row ← payment_by_id org paymentID;
  refunds ← refundsOf org (rID row);
  let p := payment row in
  match ApplySucceededRefunds p refunds with
  | Err _ => throw (Coded CodeRefundExceeds)
  | Ok p' =>
      if negb (negb (bool_decide (pStatus p' = pStatus p)) ||
               negb (String.eqb (norm (rAmountRefunded row)) (pAmountRefunded p'))) then mret None
      else
        now ← tx_now;
        _ ← update_payments (same_id row)
              [c_status (pStatus p'); c_amount_refunded (pAmountRefunded p'); c_updated_at now];
        stored ← take_payment (same_id row);
        match stored with Some stored => mret (Some stored) | None => throw DBError end
  end.

Definition with_amount (o : Outcome) (amount : string) : Outcome :=
  mkOutcome (oOrderRef o) (oStatus o) amount (oCurrency o) (oProviderRef o) (oEventID o) (oKind o)
    (oMethod o) (oInstallments o) (oPaidAt o) (oOccurredAt o) (oAmountRefunded o) (oFee o) (oNetAmount o)
    (oTestMode o) (oChannel o) (oSessionID o) (oDeviceID o) (oCard o) (oCash o) (oSeller o)
    (oProviderStatus o) (oStatusDetail o).

Definition applyRefunds (org paymentID : string) : prog (option lerr) :=
  r ← transaction (apply_refunds_tx org paymentID);
  match r with
  | Err e => mret (Some e)
  | Ok None => mret None
  | Ok (Some stored) =>
      let o := with_amount (with_kind (outcomeOf (payment stored)) KindRefund) (norm (rAmountRefunded stored)) in
      _ ← publish cfg org stored o SourceStaff;
      mret None
  end.

(** ** Asking the provider *)

Definition refund_input (p : Payment) (r : refundRow) : gmap string value :=
  let input := list_to_map [("provider_ref"%string, VStr (pProviderRef p)); ("amount"%string, VStr (fAmount r));
    ("currency"%string, VStr (fCurrency r)); ("order_ref"%string, VStr (pOrderRef p));
    ("reason"%string, VStr (fReason r)); ("idempotency_key"%string, VStr (fIdempotencyKey r))] in
  match pSeller p with
  | Some s => <["refund_application_fee"%string := VBool (fRefundApplicationFee r)]> (<["seller"%string := VSeller s]> input)
  | None => input
  end.

Definition refund_query (org : string) (pay : paymentRow) (r : refundRow) : query :=
  mkQuery org CommercePaymentsRefund (rProvider pay) (refund_input (payment pay) r).

Definition refund_status_query (org : string) (pay : paymentRow) (r : refundRow) : query :=
  mkQuery org CommercePaymentsRefundStatus (rProvider pay)
    (list_to_map [("refund_id"%string, VStr (fProviderRefundID r));
                  ("provider_ref"%string, VStr (pProviderRef (payment pay)));
                  ("idempotency_key"%string, VStr (fIdempotencyKey r))]).

Definition askRefund (org : string) (pay : paymentRow) (r : refundRow) (q : query) (first : bool) :
    prog (RefundResult * option lerr) :=
  let res := mkRefundResult (Some (refund r)) (Some (payment pay)) false "" false in
  if negb (cfgProviders cfg) then mret (res, Some (Coded CodeUnavailable)) else
  a ← ask q;
  match a with
  | Output raw =>
      let out := decode_refund raw in
      let st := if refund_Valid (roStatus out) then roStatus out else RefundPending in
      u ← updateRefund org (fID r) st (roRefundID out) (roInstructions out) "";
      match u with
      | Err e => mret (res, Some e)
      | Ok st =>
          let res := mkRefundResult (rrRefund res) (rrPayment res) false (roInstructions out) false in
          err ← (if bool_decide (st = RefundSucceeded) then applyRefunds org (rID pay) else mret None);
          match err with
          | Some e => mret (res, Some e)
          | None => refundResult org (fID r) res
          end
      end
  | _ =>
      let indeterminate := match a with ResultErr _ i _ => i | _ => false end in
      if indeterminate || negb first then
        mret (mkRefundResult (rrRefund res) (rrPayment res) false "" true,
              if first then None else Some (Coded CodeProvider))
      else
        u ← updateRefund org (fID r) RefundFailed "" "" (truncate (answer_message a) 500);
        match u with
        | Err e => mret (res, Some e)
        | Ok st =>
            let res := mkRefundResult (Some (refund_with_status (refund r) st)) (rrPayment res) false "" false in
            if bool_decide (st = RefundFailed) then mret (res, Some (Coded CodeProvider))
            else refundResult org (fID r) res
        end
  end.

Definition refundAtProvider (org : string) (pay : paymentRow) (r : refundRow) (first : bool) :=
  askRefund org pay r (refund_query org pay r) first.

Definition refundStatusAtProvider (org : string) (pay : paymentRow) (r : refundRow) :=
  askRefund org pay r (refund_status_query org pay r) false.

(** ** Asking again *)

Definition minute : Z := 60 * second.
Definition hour : Z := 3600 * second.
Definition refundInFlight : Z := minute.
Definition DefaultRefundRepostWindow : Z := 12 * hour.

Definition refundBackoff (attempt : Z) : Z :=
  if 6 <=? attempt then hour else Z.shiftl minute attempt.

Definition repostWindow (provider : string) : Z :=
  let fallback := if 0 <? cfgDefaultRefundRepostWindow cfg then cfgDefaultRefundRepostWindow cfg
                  else DefaultRefundRepostWindow in
  match cfgRefundRepostWindow cfg !! provider with
  | Some w => if 0 <? w then w else fallback
  | None => fallback
  end.

Definition result_status (res : RefundResult) : option RefundStatus := rfStatus <$> rrRefund res.

(** The window bounds re-POSTs only: a numbered refund is read. *)
Definition past_window (r : refundRow) (now : Z) : bool :=
  String.eqb (fProviderRefundID r) "" && (repostWindow (fProvider r) <? now - fCreatedAt r).

(** The statement that ends a re-query left pending. *)
Definition reschedule (r : refundRow) (now : Z) : prog (result lerr Z) :=
  let expired := past_window r now in
  transaction (update_refunds
    (fun x => String.eqb (fID x) (fID r) && bool_decide (fStatus x = RefundPending) &&
              (negb expired || String.eqb (fProviderRefundID x) ""))
    (if expired then [f_needs_review true; f_next_recheck_at None]
     else [f_recheck_attempts (fRecheckAttempts r + 1);
           f_next_recheck_at (Some (now + refundBackoff (fRecheckAttempts r)))])).

Definition review_report (org : string) (pay : paymentRow) (r : refundRow) : AnomalyReport :=
  let p := payment pay in
  mkAnomalyReport org (pID p) (pDocumentType p) (pDocumentID p) (fProvider r) (pProviderRef p) (pOrderRef p)
    ReasonRefundNeedsReview (pStatus p) (pStatus p) (norm (fAmount r)) (fCurrency r) SourceReconcile false.

Definition mark_review (res : RefundResult) : RefundResult :=
  mkRefundResult (x ← rrRefund res;
      Some (mkRefund (rfID x) (rfPaymentID x) (rfDestination x) (rfProvider x) (rfProviderRefundID x)
        (rfAmount x) (rfCurrency x) (rfStatus x) (rfReason x) (rfIdempotencyKey x) (rfSourceType x)
        (rfSourceID x) (rfCreditNoteRequired x) (rfCreditNoteID x) (rfAdjustsTotal x) (rfCashSessionID x)
        true (rfCreatedAt x) (rfSettledAt x)))
    (rrPayment res) (rrReplay res) (rrInstructions res) (rrIndeterminate res).

Definition recheckRefund (org : string) (pay : paymentRow) (r : refundRow) : prog (RefundResult * option lerr) :=
  let res := mkRefundResult (Some (refund r)) (Some (payment pay)) false "" false in
  if fNeedsReview r || negb (bool_decide (fStatus r = RefundPending)) then mret (res, None) else
  now ← prog_now;
  let expired := past_window r now in
  '(res, err) ← (if negb (String.eqb (fProviderRefundID r) "") then refundStatusAtProvider org pay r
                 else if negb expired then refundAtProvider org pay r false
                 else mret (res, None));
  if negb (bool_decide (result_status res = Some RefundPending)) then mret (res, err) else
  u ← reschedule r now;
  match u with
  | Err e => mret (res, Some e)
  | Ok n =>
      if expired && (n =? 0) then refundResult org (fID r) res
      else if expired then
        _ ← raise (review_report org pay r);
        mret (mark_review res, err)
      else mret (res, err)
  end.

(** [Limit] bounds the rows when it is positive. *)
Definition limit_rows {R} (limit : Z) (l : list R) : list R :=
  if 0 <? limit then firstn (Z.to_nat limit) l else l.

Definition due_for_recheck (org : string) (now : Z) (r : refundRow) : bool :=
  String.eqb (fOrg r) org && bool_decide (fStatus r = RefundPending) &&
  bool_decide (fDestination r = RefundToOriginal) && negb (String.eqb (fProvider r) "") &&
  negb (fNeedsReview r) &&
  match fNextRecheckAt r with None => true | Some t => t <=? now end &&
  (negb (String.eqb (fProviderRefundID r) "") || (fCreatedAt r <? now - refundInFlight)).

(** The loop over the due refunds; true when one failed. *)
Fixpoint recheck_loop (org : string) (rows : list refundRow) (failed : bool) : prog bool :=
  match rows with
  | [] => mret failed
  | r :: rows =>
      pay ← transaction (payment_by_id org (fPaymentID r));
      err ← (match pay with
             | Ok pay => '(_, err) ← recheckRefund org pay r; mret err
             | Err e => mret (Some e)
             end);
      recheck_loop org rows (failed || bool_decide (err <> None))
  end.

(** How many refunds were looked at, and whether one failed. *)
Definition recheckRefunds (org : string) (limit : Z) : prog (Z * bool) :=
  rows ← transaction (now ← tx_now; rows ← select_refunds (due_for_recheck org now); mret (limit_rows limit rows));
  match rows with
  | Err _ => mret (0, true)
  | Ok rows => failed ← recheck_loop org rows false; mret (Z.of_nat (length rows), failed)
  end.

(** ** CreateRefund *)

Definition CreateRefund (org : string) (req : RefundRequest) : prog (RefundResult * option lerr) :=
  r ← transaction (create_refund_tx org req);
  match r with
  | Err e => mret (no_refund, Some e)
  | Ok (Answered res) => mret (res, None)
  | Ok (Recheck pay r) =>
      '(out, err) ← recheckRefund org pay r;
      let out := mkRefundResult (rrRefund out) (rrPayment out) true (rrInstructions out) (rrIndeterminate out) in
      mret (out, if bool_decide (err = Some (Coded CodeProvider)) then None else err)
  | Ok (Created pay r) =>
      if negb (bool_decide (xDestination req = RefundToOriginal)) then
        mret (mkRefundResult (Some (refund r)) (Some (payment pay)) false "" false, None)
      else refundAtProvider org pay r true
  end.

(** ** SettleRefund *)

Record SettleRequest := mkSettleRequest {
  sRefundID : string; sStatus : RefundStatus; sCashSessionID : string; sCreditNoteID : string
}.

(** The payment, and whether the refund succeeded now. *)
Definition settle_refund_tx (org rid : string) (req : SettleRequest) : tx (string * bool) :=
  found ← take_refund (same_refund org rid);
  match found with
  | None => throw (Coded CodeNotFound)
  | Some r =>
      now ← tx_now;
      let moves := negb (bool_decide (sStatus req = RefundOther "")) && negb (bool_decide (sStatus req = fStatus r)) in
      _ ← throw_if (moves && negb (CanTransitionRefund (fStatus r) (sStatus req))) (Coded CodeInvalidTransition);
      let succeeded := moves && bool_decide (sStatus req = RefundSucceeded) in
      _ ← update_refunds (fun x => String.eqb (fID x) (fID r))
            ([f_updated_at now] ++
             (if moves then [f_status (sStatus req); f_needs_review false] else []) ++
             set_if succeeded (f_settled_at now) ++
             set_if (negb (String.eqb (sCashSessionID req) "")) (f_cash_session_id (sCashSessionID req)) ++
             set_if (negb (String.eqb (sCreditNoteID req) "")) (f_credit_note_id (sCreditNoteID req)));
      mret (fPaymentID r, succeeded)
  end.

Definition SettleRefund (org : string) (req : SettleRequest) : prog (RefundResult * option lerr) :=
  match uuid_Parse (TrimSpace (sRefundID req)) with
  | None => mret (no_refund, Some (Coded CodeInvalidInput))
  | Some rid =>
      r ← transaction (settle_refund_tx org rid req);
      match r with
      | Err e => mret (no_refund, Some e)
      | Ok (paymentID, succeeded) =>
          err ← (if (succeeded : bool) then applyRefunds org paymentID else mret None);
          match err with
          | Some e => mret (no_refund, Some e)
          | None => refundResult org rid no_refund
          end
      end
  end.
End ledger.
