(* ===== verification/LedgerReconcile.v ===== *)
(** * Payments ledger: the reconciliation job (payments/ledger/reconcile.go)

    One run over an organization: the lease, the re-reads of open, stale and
    flagged payments, the provider listings and the refunds asked again.
    The texts of the run's errors are not kept, only their number; the
    columns of the lease that report the last run are kept as its time. *)

From S2P Require Import Prelude GoStrings PayStatus PayAmount PayModel PayHold PayRefund PaySettle PayObserve.
From S2P Require Import LedgerStore LedgerProg LedgerObserve LedgerCharge LedgerRefund.

Record Reconciler := mkReconciler {
  rcMinAge : Z; rcStuckAfter : Z; rcWindow : Z; rcBatch : Z; rcLease : Z; rcOwner : string
}.

Record Report := mkReport {
  rpRefreshed : Z; rpApplied : Z; rpCancelled : Z; rpStuck : Z; rpAnomalies : Z; rpCorrected : Z;
  rpListed : Z; rpOrphans : Z; rpRefunds : Z; rpErrors : Z; rpSkipped : bool
}.
Definition empty_report : Report := mkReport 0 0 0 0 0 0 0 0 0 0 false.

(** [defaults]; the owner is a fresh id when blank. *)
Definition defaults (fresh : string) (r : Reconciler) : Reconciler :=
  mkReconciler
    (if rcMinAge r <=? 0 then 30 * second else rcMinAge r)
    (if rcStuckAfter r <=? 0 then 30 * minute else rcStuckAfter r)
    (if rcWindow r <=? 0 then 2 * hour else rcWindow r)
    (if rcBatch r <=? 0 then 200 else rcBatch r)
    (if rcLease r <=? 0 then 5 * minute else rcLease r)
    (if String.eqb (rcOwner r) "" then fresh else rcOwner r).

Definition openStatuses : list Status :=
  [StatusPending; StatusRequiresAction; StatusAtDevice; StatusAuthorized; StatusCancelling].

(** ** The lease *)

Definition lease_of (org : string) (l : leaseRow) : bool := String.eqb (leOrg l) org.

(** [INSERT ... ON CONFLICT DO NOTHING]. *)
Definition create_lease (org : string) : tx unit :=
  d ← tx_db;
  if existsb (lease_of org) (d_leases d) then mret tt
  else set_leases (d_leases d ++ [mkLeaseRow org "" None None]).

Definition update_leases (where_ : leaseRow -> bool) (f : leaseRow -> leaseRow) : tx Z :=
  d ← tx_db;
  _ ← set_leases (update_where where_ f (d_leases d));
  mret (rows_affected where_ (d_leases d)).

Definition claimable (owner : string) (now : Z) (l : leaseRow) : bool :=
  match leLockedUntil l with None => true | Some t => t <? now end || String.eqb (leLockedBy l) owner.

Definition claim_tx (r : Reconciler) (org : string) (now : Z) : tx bool :=
  n ← update_leases (fun l => lease_of org l && claimable (rcOwner r) now l)
        (fun l => mkLeaseRow (leOrg l) (rcOwner r) (Some (now + rcLease r)) (leLastRunAt l));
  mret (n =? 1).

Definition claim (r : Reconciler) (org : string) : prog (result lerr bool) :=
  now ← prog_now;
  c ← transaction (create_lease org);
  match c with
  | Err e => mret (Err e)
  | Ok _ => transaction (claim_tx r org now)
  end.

Definition held_by (r : Reconciler) (org : string) (l : leaseRow) : bool :=
  lease_of org l && String.eqb (leLockedBy l) (rcOwner r).

Definition renew (r : Reconciler) (org : string) : prog (result lerr bool) :=
  transaction (now ← tx_now;
    n ← update_leases (held_by r org)
          (fun l => mkLeaseRow (leOrg l) (leLockedBy l) (Some (now + rcLease r)) (leLastRunAt l));
    mret (n =? 1)).

Definition release (r : Reconciler) (org : string) : prog unit :=
  _ ← transaction (now ← tx_now;
        update_leases (held_by r org) (fun l => mkLeaseRow (leOrg l) (leLockedBy l) None (Some now)));
  mret tt.

(** ** The state of a run: the closures' variables *)

Record run_state := mkRun { ru_renewed : Z; ru_lost : bool; ru_report : Report }.

Definition with_report (st : run_state) (f : Report -> Report) : run_state :=
  mkRun (ru_renewed st) (ru_lost st) (f (ru_report st)).

Definition add_error (rep : Report) : Report :=
  mkReport (rpRefreshed rep) (rpApplied rep) (rpCancelled rep) (rpStuck rep) (rpAnomalies rep)
    (rpCorrected rep) (rpListed rep) (rpOrphans rep) (rpRefunds rep) (rpErrors rep + 1) (rpSkipped rep).
(** [note(err)]. *)
Definition note_error (err : option lerr) (st : run_state) : run_state :=
  match err with Some _ => with_report st add_error | None => st end.

(** [count(o)]. *)
Definition count (o : LedgerObservation) (rep : Report) : Report :=
  let corrected := loCorrected o in
  let applied := negb corrected && bool_decide (loDecision o = Some Apply) in
  let anomaly := negb corrected && bool_decide (loDecision o = Some Anomaly) in
  mkReport (rpRefreshed rep + 1) (rpApplied rep + Z.b2z applied) (rpCancelled rep) (rpStuck rep)
    (rpAnomalies rep + Z.b2z anomaly) (rpCorrected rep + Z.b2z corrected) (rpListed rep) (rpOrphans rep)
    (rpRefunds rep) (rpErrors rep) (rpSkipped rep).

Definition count_cancel (stuck : bool) (rep : Report) : Report :=
  mkReport (rpRefreshed rep) (rpApplied rep) (rpCancelled rep + 1) (rpStuck rep + Z.b2z stuck) (rpAnomalies rep)
    (rpCorrected rep) (rpListed rep) (rpOrphans rep) (rpRefunds rep) (rpErrors rep) (rpSkipped rep).

(** The counters of one listed payment. *)
Definition count_listed (obs : LedgerObservation) (rep : Report) : Report :=
  let orphan := loOrphan obs in
  let corrected := negb orphan && loCorrected obs in
  let rest := negb orphan && negb (loCorrected obs) && negb (loDuplicate obs) in
  mkReport (rpRefreshed rep) (rpApplied rep + Z.b2z (rest && bool_decide (loDecision obs = Some Apply)))
    (rpCancelled rep) (rpStuck rep)
    (rpAnomalies rep + Z.b2z (rest && bool_decide (loDecision obs = Some Anomaly)))
    (rpCorrected rep + Z.b2z corrected) (rpListed rep) (rpOrphans rep + Z.b2z orphan)
    (rpRefunds rep) (rpErrors rep) (rpSkipped rep).

Definition add_listed (rep : Report) : Report :=
  mkReport (rpRefreshed rep) (rpApplied rep) (rpCancelled rep) (rpStuck rep) (rpAnomalies rep)
    (rpCorrected rep) (rpListed rep + 1) (rpOrphans rep) (rpRefunds rep) (rpErrors rep) (rpSkipped rep).
Definition add_refunds (n : Z) (rep : Report) : Report :=
  mkReport (rpRefreshed rep) (rpApplied rep) (rpCancelled rep) (rpStuck rep) (rpAnomalies rep)
    (rpCorrected rep) (rpListed rep) (rpOrphans rep) (rpRefunds rep + n) (rpErrors rep) (rpSkipped rep).

Section ledger.
Context `{LedgerEnv} (cfg : Config) (r : Reconciler) (org : string).

(** [alive]: renew once half of the lease went by; false once it is lost. *)
Definition alive (st : run_state) : prog (bool * run_state) :=
  if ru_lost st then mret (false, st) else
  t ← prog_now;
  if Z.quot (rcLease r) 2 <=? t - ru_renewed st then
    ok ← renew r org;
    match ok with
    | Ok true => mret (true, mkRun t false (ru_report st))
    | _ => mret (false, mkRun (ru_renewed st) true (add_error (ru_report st)))
    end
  else mret (true, st).

(** Steps 1 and 3: re-read each payment; false when the lease was lost. *)
Fixpoint refresh_loop (rows : list paymentRow) (st : run_state) : prog (bool * run_state) :=
  match rows with
  | [] => mret (true, st)
  | p :: rows =>
      '(go, st) ← alive st;
      if negb go then mret (false, st) else
      '(o, err) ← Refresh cfg org (rID p) SourceReconcile;
      refresh_loop rows (match err with
                         | None => with_report st (count o)
                         | Some _ => note_error err st
                         end)
  end.

Definition stuck_report (p : paymentRow) (observed : Status) : AnomalyReport :=
  mkAnomalyReport org (rID p) (rDocumentType p) (rDocumentID p) (rProvider p) (deref (rProviderRef p))
    (rOrderRef p) ReasonStuck (rStatus p) observed (norm (rAmount p)) (rCurrency p) SourceReconcile false.

(** Step 2: cancel the stale payments and report those still open. *)
Fixpoint stale_loop (rows : list paymentRow) (st : run_state) : prog (bool * run_state) :=
  match rows with
  | [] => mret (true, st)
  | p :: rows =>
      '(go, st) ← alive st;
      if negb go then mret (false, st) else
      '(o, err) ← Cancel cfg org (rID p) ("reconcile-expire:" +:+ rID p) "expired";
      let status := match loPayment o with Some q => pStatus q | None => StatusOther "" end in
      let st := note_error err (with_report st (count_cancel (Open status))) in
      _ ← (if Open status then raise (stuck_report p status) else mret tt);
      stale_loop rows st
  end.

(** The payments of one page. *)
Fixpoint page_loop (provider : string) (payments : list Outcome) (st : run_state) : prog run_state :=
  match payments with
  | [] => mret st
  | o :: payments =>
      let st := with_report st add_listed in
      '(obs, err) ← observe cfg org provider o SourceReconcile;
      page_loop provider payments (match err with
                                   | Some _ => note_error err st
                                   | None => with_report st (count_listed obs)
                                   end)
  end.

Definition list_query (provider : string) (now : Z) (cursor : string) : query :=
  mkQuery org CommercePaymentsReconcile provider
    (set_nonempty "cursor" cursor
      (list_to_map [("from"%string, VStr (format_rfc3339 (now - rcWindow r)));
                    ("to"%string, VStr (format_rfc3339 now)); ("limit"%string, VInt (rcBatch r))])).

(** The loop over the pages, at most [pages] of them. *)
Fixpoint list_loop (pages : nat) (provider : string) (now : Z) (cursor : string) (st : run_state) :
    prog run_state :=
  match pages with
  | O => mret st
  | S pages =>
      '(go, st) ← alive st;
      if negb go then mret st else
      a ← ask (list_query provider now cursor);
      match a with
      | QueryErr no_provider _ => mret (if (no_provider : bool) then st else with_report st add_error)
      | Output raw =>
          match decode_page raw with
          | None => mret (with_report st add_error)
          | Some page =>
              st ← page_loop provider (pgPayments page) st;
              if String.eqb (pgNextCursor page) "" || String.eqb (pgNextCursor page) cursor then mret st
              else list_loop pages provider now (pgNextCursor page) st
          end
      | _ => mret (with_report st add_error)
      end
  end.

Definition listProvider (provider : string) (now : Z) (st : run_state) : prog run_state :=
  if negb (cfgProviders cfg) then mret st else list_loop 50 provider now "" st.

Fixpoint providers_loop (providers : list string) (now : Z) (st : run_state) : prog (bool * run_state) :=
  match providers with
  | [] => mret (true, st)
  | p :: providers =>
      '(go, st) ← alive st;
      if negb go then mret (false, st) else
      st ← listProvider p now st;
      providers_loop providers now st
  end.

(** ** The queries of a run *)

Definition in_provider (p : paymentRow) : bool :=
  String.eqb (rOrg p) org && negb (String.eqb (rProvider p) ProviderCash).
Definition is_open (p : paymentRow) : bool := bool_decide (rStatus p ∈ openStatuses).

Definition due_for_reread (now : Z) (p : paymentRow) : bool :=
  in_provider p && is_open p &&
  match rLastCheckedAt p with None => true | Some t => t <? now - rcMinAge r end.
Definition is_stale (now : Z) (p : paymentRow) : bool :=
  in_provider p && is_open p &&
  match rExpiresAt p with Some t => t <? now | None => rCreatedAt p <? now - rcStuckAfter r end.
Definition is_flagged (p : paymentRow) : bool := in_provider p && negb (String.eqb (rAnomaly p) "").

Definition select_by (key : paymentRow -> Z) (where_ : paymentRow -> bool) : prog (list paymentRow) :=
  rows ← transaction (d ← tx_db; mret (limit_rows (rcBatch r) (order_by key (List.filter where_ (d_payments d)))));
  mret (match rows with Ok rows => rows | Err _ => [] end).

(** [Distinct("provider")]. *)
Definition select_providers : prog (list string) :=
  ps ← transaction (d ← tx_db; mret (list.remove_dups (map rProvider (List.filter in_provider (d_payments d)))));
  mret (match ps with Ok ps => ps | Err _ => [] end).

(** The five steps after the claim; a lost lease ends the run. *)
Definition run_steps (now : Z) (st : run_state) : prog run_state :=
  open ← select_by rCreatedAt (due_for_reread now);
  '(go, st) ← refresh_loop open st;
  if negb go then mret st else
  stale ← select_by rCreatedAt (is_stale now);
  '(go, st) ← stale_loop stale st;
  if negb go then mret st else
  flagged ← select_by rUpdatedAt is_flagged;
  '(go, st) ← refresh_loop flagged st;
  if negb go then mret st else
  providers ← select_providers;
  '(go, st) ← providers_loop providers now st;
  if negb go then mret st else
  '(go, st) ← alive st;
  if negb go then mret st else
  '(n, failed) ← recheckRefunds cfg org (rcBatch r);
  let st := with_report st (add_refunds n) in
  mret (if (failed : bool) then with_report st add_error else st).

Definition skipped_report : Report := mkReport 0 0 0 0 0 0 0 0 0 0 true.

(** The run once the defaults are set. *)
Definition run_org : prog (Report * option lerr) :=
  ok ← claim r org;
  match ok with
  | Err e => mret (empty_report, Some e)
  | Ok false => mret (skipped_report, None)
  | Ok true =>
      now ← prog_now;
      st ← run_steps now (mkRun now false empty_report);
      _ ← release r org;
      mret (ru_report st, None)
  end.
End ledger.

(** [fresh] is the owner id when the reconciler has none. *)
Definition RunOrg `{LedgerEnv} (cfg : Config) (r : Reconciler) (fresh org : string) : prog (Report * option lerr) :=
  run_org cfg (defaults fresh r) org.

(** [Orgs]: those with open or flagged payments, or a payment updated in the window. *)
Definition Orgs (r : Reconciler) (fresh : string) : tx (list string) :=
  now ← tx_now;
  d ← tx_db;
  let r := defaults fresh r in
  mret (list.remove_dups (map rOrg (List.filter
    (fun p => is_open p || negb (String.eqb (rAnomaly p) "") || (now - rcWindow r <? rUpdatedAt p)) (d_payments d)))).
