(* ===== verification/LedgerInv.v ===== *)
(** * Payments ledger: the order on databases and the invariant

    [ledger_le]: rows are never deleted, the columns that identify a payment
    or a refund never change, events are only appended, and a status moves
    along the lifecycle or by an audited correction.  [db_inv] is the
    invariant of the tables; [moves_ok], [new_payment_ok] and
    [new_refund_ok] are the three ways a transaction keeps it. *)

From Stdlib Require Import QArith Lqa.
From S2P Require Import Prelude GoStrings PayStatus PayAmount PayModel PayHold PayRefund PaySettle PayObserve.
From S2P Require Import LedgerStore LedgerProg LedgerObserve LedgerCharge LedgerRefund.

Open Scope Z_scope.

(** ** Tables that only grow *)

Definition ext {R} (rel : R -> R -> Prop) (l l' : list R) : Prop :=
  exists l1 l2, l' = l1 ++ l2 /\ Forall2 rel l l1.

Section ext.
Context {R : Type}.
Implicit Types (rel : R -> R -> Prop) (l : list R).

Lemma ext_refl rel l : (forall x, rel x x) -> ext rel l l.
Proof. intros Hr. exists l, []. split; [by rewrite app_nil_r|]. by apply Forall2_same_length_lookup_2; [|intros; simplify_eq]. Qed.

Lemma ext_app rel l k : (forall x, rel x x) -> ext rel l (l ++ k).
Proof. intros Hr. exists l, k. split; [done|]. by apply Forall2_same_length_lookup_2; [|intros; simplify_eq]. Qed.

Lemma ext_mono rel rel' l l' : (forall x y, rel x y -> rel' x y) -> ext rel l l' -> ext rel' l l'.
Proof. intros Hr (l1 & l2 & -> & H). exists l1, l2. split; [done|]. by eapply Forall2_impl. Qed.

Lemma ext_trans (rel1 rel2 rel : R -> R -> Prop) l1 l2 l3 :
  (forall x y z, rel1 x y -> rel2 y z -> rel x z) -> ext rel1 l1 l2 -> ext rel2 l2 l3 -> ext rel l1 l3.
Proof.
  intros Hr (a & b & -> & H1) (c & k & -> & H2).
  apply Forall2_app_inv_l in H2 as (c1 & c2 & H2 & H3 & ->).
  exists c1, (c2 ++ k). split; [by rewrite app_assoc|].
  revert c1 H2. induction H1 as [|x y xs ys Hxy _ IH]; intros c1 H2; inversion H2; subst; constructor; eauto.
Qed.

Lemma ext_in rel l l' x : ext rel l l' -> x ∈ l -> exists y, y ∈ l' /\ rel x y.
Proof.
  intros (l1 & l2 & -> & H) Hx. apply list_elem_of_lookup in Hx as [i Hi].
  destruct (Forall2_lookup_l _ _ _ _ _ H Hi) as (y & Hy & ?). exists y. split; [|done].
  apply elem_of_app. left. by eapply list_elem_of_lookup_2.
Qed.

Lemma ext_update rel (w : R -> bool) (f : R -> R) l :
  (forall x, rel x x) -> (forall x, x ∈ l -> w x = true -> rel x (f x)) -> ext rel l (update_where w f l).
Proof.
  intros Hr Hf. exists (update_where w f l), []. split; [by rewrite app_nil_r|].
  unfold update_where. induction l as [|x l IH]; cbn; constructor.
  - destruct (w x) eqn:E; [apply Hf; [set_solver|done]|done].
  - apply IH. intros y Hy. apply Hf. set_solver.
Qed.

Lemma elem_of_update_where (w : R -> bool) (f : R -> R) l y :
  y ∈ update_where w f l <-> exists x, x ∈ l /\ y = if w x then f x else x.
Proof.
  unfold update_where. rewrite list_elem_of_In, in_map_iff. setoid_rewrite <- list_elem_of_In. naive_solver.
Qed.

Lemma map_update_where {B} (g : R -> B) (w : R -> bool) (f : R -> R) l :
  (forall x, g (f x) = g x) -> map g (update_where w f l) = map g l.
Proof.
  intros Hg. unfold update_where. rewrite map_map. apply map_ext. intros x. by destruct (w x).
Qed.
End ext.

Lemma filter_update_where {R} (p w : R -> bool) (f : R -> R) l :
  (forall x, x ∈ l -> w x = true -> p x = false /\ p (f x) = false) ->
  List.filter p (update_where w f l) = List.filter p l.
Proof.
  induction l as [|x l IH]; intros H; [done|].
  change (update_where w f (x :: l)) with ((if w x then f x else x) :: update_where w f l). cbn [List.filter].
  rewrite IH by (intros y Hy; apply H; set_solver).
  destruct (w x) eqn:E; [|done]. destruct (H x) as [H1 H2]; [set_solver|done|]. by rewrite H1, H2.
Qed.

Lemma elem_of_insert_by {R} (key : R -> Z) x l y : y ∈ insert_by key x l <-> y = x \/ y ∈ l.
Proof.
  induction l as [|z l IH]; cbn; [set_solver|]. destruct (key x <? key z); set_solver.
Qed.

Lemma row_insert_perm {R} (key : R -> Z) x l : insert_by key x l ≡ₚ x :: l.
Proof.
  induction l as [|z l IH]; cbn; [done|]. destruct (key x <? key z); [done|].
  rewrite IH. apply Permutation_swap.
Qed.

Lemma order_by_perm {R} (key : R -> Z) l : order_by key l ≡ₚ l.
Proof.
  unfold order_by. enough (forall acc, foldl (fun acc x => insert_by key x acc) acc l ≡ₚ l ++ acc) as H.
  { by rewrite H, app_nil_r. }
  induction l as [|x l IH]; intros acc; cbn; [done|].
  rewrite IH, row_insert_perm. by rewrite <- Permutation_middle.
Qed.

Lemma elem_of_select_rows {R} (key : R -> Z) (w : R -> bool) l x :
  x ∈ order_by key (List.filter w l) <-> x ∈ l /\ w x = true.
Proof.
  rewrite (order_by_perm key). rewrite !list_elem_of_In, filter_In. done.
Qed.

Lemma take_Some {R} (w : R -> bool) (l : list R) x : take w l = Some x -> x ∈ l /\ w x = true.
Proof.
  unfold take. intros H. rewrite !list_elem_of_In, <- filter_In. destruct (List.filter w l); [done|].
  injection H as ->. by left.
Qed.

(** ** The order on databases *)

(** The columns no statement writes after the insert. *)
Definition payment_fixed (r : paymentRow) :=
  (rID r, rOrg r, (rDocumentType r, rDocumentID r, rOrderRef r), rChannel r, rProvider r, rIdempotencyKey r,
   (rAmount r, rCurrency r, rDocumentTotal r), rSeller r, (rCreatedBy r, rCreatedAt r)).
Definition refund_fixed (r : refundRow) :=
  (fID r, fOrg r, fPaymentID r, fDestination r, fProvider r, (fAmount r, fCurrency r), fIdempotencyKey r,
   fRefundApplicationFee r, fCreatedAt r).

Lemma update_payment_fixed cols r : payment_fixed (update_payment cols r) = payment_fixed r.
Proof. done. Qed.
Lemma update_refund_fixed cols r : refund_fixed (update_refund cols r) = refund_fixed r.
Proof. done. Qed.

(** A correction of a payment of this organization and provider is on record. *)
Definition was_corrected (evs : list eventRow) (org provider : string) : Prop :=
  exists ev x, ev ∈ evs /\ evOrg ev = org /\ evProvider ev = provider /\ evEventID ev = x +:+ "|corrected".

(** One move of a payment's status: along the lifecycle as a provider
    reports it, among the captured statuses (the refunded total), or a
    correction that is on record. *)
Inductive audited (evs : list eventRow) (org provider : string) (s s' : Status) : Prop :=
| audited_lifecycle : Reachable s s' = true -> audited evs org provider s s'
| audited_refunds : Captured s = true -> Captured s' = true -> audited evs org provider s s'
| audited_correction : was_corrected evs org provider -> audited evs org provider s s'.

Lemma was_corrected_mono evs evs' org provider :
  (forall ev, ev ∈ evs -> ev ∈ evs') -> was_corrected evs org provider -> was_corrected evs' org provider.
Proof. intros Hi (ev & x & ? & ?). exists ev, x. auto. Qed.

Lemma audited_mono evs evs' org provider s s' :
  (forall ev, ev ∈ evs -> ev ∈ evs') -> audited evs org provider s s' -> audited evs' org provider s s'.
Proof.
  intros Hi []; [by apply audited_lifecycle|by apply audited_refunds|].
  apply audited_correction. by eapply was_corrected_mono.
Qed.

Lemma audited_rtc_mono evs evs' org provider s s' :
  (forall ev, ev ∈ evs -> ev ∈ evs') ->
  rtc (audited evs org provider) s s' -> rtc (audited evs' org provider) s s'.
Proof. intros Hi. apply rtc_subrel. intros ? ?. by apply audited_mono. Qed.

(** [evs] are the events on record when the row reads [r']. *)
Definition payment_le (evs : list eventRow) (r r' : paymentRow) : Prop :=
  payment_fixed r' = payment_fixed r /\ rtc (audited evs (rOrg r) (rProvider r)) (rStatus r) (rStatus r').

(** A refund moves along its table; its number is written once, its reason
    only with its status, and it stays in review until it is settled. *)
Definition refund_le (r r' : refundRow) : Prop :=
  refund_fixed r' = refund_fixed r /\
  (fStatus r' = fStatus r /\ fReason r' = fReason r \/ CanTransitionRefund (fStatus r) (fStatus r') = true) /\
  (fProviderRefundID r = ""%string \/ fProviderRefundID r' = fProviderRefundID r) /\
  (fNeedsReview r = true -> fNeedsReview r' = true \/ fStatus r' <> RefundPending).

Definition ledger_le (d d' : db) : Prop :=
  exists evs, d_events d' = d_events d ++ evs /\
    ext (payment_le (d_events d')) (d_payments d) (d_payments d') /\
    ext refund_le (d_refunds d) (d_refunds d').

Lemma refund_transition_trans a b c :
  CanTransitionRefund a b = true -> CanTransitionRefund b c = true -> CanTransitionRefund a c = true.
Proof.
  unfold CanTransitionRefund, refundTransitions.
  destruct a, b; cbn; try done; destruct c; cbn; done.
Qed.

Lemma refund_transition_final a b : CanTransitionRefund a b = true -> a <> b.
Proof. intros H ->. revert H. unfold CanTransitionRefund, refundTransitions. by destruct b. Qed.

Lemma refund_transition_pending a b : CanTransitionRefund a b = true -> b <> RefundPending.
Proof. intros H ->. revert H. unfold CanTransitionRefund, refundTransitions. by destruct a. Qed.

Lemma payment_le_refl evs r : payment_le evs r r.
Proof. split; [done|apply rtc_refl]. Qed.
Lemma refund_le_refl r : refund_le r r.
Proof. split_and!; [done|by left|by right|by left]. Qed.

Lemma payment_le_trans evs evs' x y z :
  payment_le evs x y -> payment_le (evs ++ evs') y z -> payment_le (evs ++ evs') x z.
Proof.
  intros [F1 M1] [F2 M2]. split; [congruence|].
  assert (rOrg y = rOrg x /\ rProvider y = rProvider x) as [E1 E2] by (unfold payment_fixed in F1; split; congruence).
  rewrite E1, E2 in M2. etrans; [eapply audited_rtc_mono; [|exact M1]; set_solver|exact M2].
Qed.

Lemma refund_le_trans x y z : refund_le x y -> refund_le y z -> refund_le x z.
Proof.
  intros (F1 & S1 & N1 & V1) (F2 & S2 & N2 & V2). split_and!; [congruence|..].
  - destruct S1 as [[Es1 Er1]|S1], S2 as [[Es2 Er2]|S2].
    + left. split; congruence.
    + right. congruence.
    + right. congruence.
    + right. by eapply refund_transition_trans.
  - destruct N1 as [?|N1], N2 as [N2|N2]; try (by left); [left|right]; congruence.
  - intros Hv. destruct (V1 Hv) as [Hy|Hy]; [auto|]. right.
    destruct S2 as [[-> _]|S2%refund_transition_pending]; done.
Qed.

#[export] Instance ledger_le_preorder : PreOrder ledger_le.
Proof.
  split.
  - intros d. exists []. rewrite app_nil_r. split_and!; [done|..].
    + apply ext_refl. intros. apply payment_le_refl.
    + apply ext_refl. intros. apply refund_le_refl.
  - intros a b c (e1 & E1 & P1 & R1) (e2 & E2 & P2 & R2). exists (e1 ++ e2). split_and!.
    + by rewrite E2, E1, app_assoc.
    + rewrite E2 in *. eapply ext_trans; [|exact P1|exact P2]. intros ? ? ?. apply payment_le_trans.
    + eapply ext_trans; [|exact R1|exact R2]. intros ? ? ?. apply refund_le_trans.
Qed.

(** ** The invariant of the tables *)

Definition indexes_ok (d : db) : bool :=
  payments_ok (d_payments d) && events_ok (d_events d) && refunds_ok (d_refunds d) &&
  holds_ok (d_holds d) && leases_ok (d_leases d).

Definition refund_live (s : RefundStatus) : bool :=
  match s with RefundPending | RefundManualRequired | RefundSucceeded => true | _ => false end.

(** What the refunds of payment [id] hold of its amount: those not failed. *)
Definition held_value (id : string) (f : refundRow) : Q :=
  if String.eqb (fPaymentID f) id && refund_live (fStatus f) then refund_value (refund f) else 0%Q.
Definition reserved (id : string) (l : list refundRow) : Q := qsum (map (held_value id) l).

Definition same_document (r1 r2 : paymentRow) : Prop :=
  rOrg r1 = rOrg r2 /\ rDocumentType r1 = rDocumentType r2 /\ rDocumentID r1 = rDocumentID r2.

Record db_inv (d : db) : Prop := {
  inv_indexes : indexes_ok d = true;
  inv_payments : forall r, r ∈ d_payments d -> exists a, ParseAmount (rAmount r) = Ok a /\ (0 < a)%Q;
  inv_refunds : forall f, f ∈ d_refunds d ->
    refund_parses (refund f) /\
    exists r, r ∈ d_payments d /\ rID r = fPaymentID f /\ rOrg r = fOrg f;
  inv_bound : forall r a, r ∈ d_payments d -> ParseAmount (rAmount r) = Ok a ->
    (reserved (rID r) (d_refunds d) <= a)%Q;
  inv_one_open : forall r1 r2, r1 ∈ d_payments d -> r2 ∈ d_payments d -> same_document r1 r2 ->
    Open (rStatus r1) = true -> Open (rStatus r2) = true -> rID r1 <> rID r2 ->
    was_corrected (d_events d) (rOrg r1) (rProvider r1) \/ was_corrected (d_events d) (rOrg r2) (rProvider r2)
}.

(** A property of the known statuses, checked on every pair. *)
Lemma reachable_check (P : Status -> Status -> bool) s s' :
  forallb (fun a => forallb (fun b => implb (Reachable a b) (P a b)) Statuses) Statuses = true ->
  Reachable s s' = true -> P s s' = true.
Proof.
  intros HP H. assert (s ∈ Statuses /\ s' ∈ Statuses) as [Hs Hs'].
  { apply Reachable_sound in H. clear HP. induction H as [x y E%advances_transition%transition_known|x m y _ IH _ E%advances_transition%transition_known]; tauto. }
  pose proof (forall_statuses2 (fun a b => implb (Reachable a b) (P a b)) HP s s' Hs Hs') as Hi.
  cbn beta in Hi. by rewrite H in Hi.
Qed.

Lemma reachable_open s s' : Reachable s s' = true -> Open s' = true -> Open s = true.
Proof.
  intros H. pose proof (reachable_check (fun a b => implb (Open b) (Open a)) s s' ltac:(by vm_compute) H) as Hi.
  cbn beta in Hi. intros Ho. by rewrite Ho in Hi.
Qed.

Lemma reachable_captured s s' : Reachable s s' = true -> Captured s = true -> Captured s' = true.
Proof.
  intros H. pose proof (reachable_check (fun a b => implb (Captured a) (Captured b)) s s' ltac:(by vm_compute) H) as Hi.
  cbn beta in Hi. intros Ho. by rewrite Ho in Hi.
Qed.

Definition dead (s : Status) : bool :=
  match s with StatusFailed | StatusCancelled | StatusExpired => true | _ => false end.

Lemma reachable_dead s s' : Reachable s s' = true -> dead s = false.
Proof.
  intros H. by pose proof (reachable_check (fun a _ => negb (dead a)) s s' ltac:(by vm_compute) H) as Hi%negb_true_iff.
Qed.

(** A payment is open only when it was, or after a correction. *)
Lemma audited_open evs org provider s s' :
  rtc (audited evs org provider) s s' -> Open s' = true -> Open s = true \/ was_corrected evs org provider.
Proof.
  induction 1 as [|x y z [H|_ H|Hc]]; intros Ho.
  - by left.
  - destruct IHrtc as [IH|]; [done| |by right]. left. by eapply reachable_open.
  - destruct IHrtc as [IH|]; [done| |by right]. by destruct y.
  - by right.
Qed.

(** What never changes without a correction. *)
Lemma audited_kept evs org provider s s' :
  rtc (audited evs org provider) s s' ->
  was_corrected evs org provider \/
  (Captured s = true -> Captured s' = true) /\ (dead s = true -> s' = s).
Proof.
  induction 1 as [x|x y z [H|Hx Hy|Hc] _ IH].
  - by right.
  - destruct IH as [?|[IH _]]; [by left|]. right. split.
    + intros Hx. by eapply IH, reachable_captured.
    + intros Hx. apply reachable_dead in H. congruence.
  - destruct IH as [?|[IH _]]; [by left|]. right. split; [intros _; by apply IH|]. by destruct x.
  - by left.
Qed.

(** ** Moves of the rows keep the invariant *)

(** The rows of the other organizations are the same. *)
Definition others (org : string) (d : db) :=
  (List.filter (fun r => negb (String.eqb (rOrg r) org)) (d_payments d),
   List.filter (fun r => negb (String.eqb (evOrg r) org)) (d_events d),
   List.filter (fun r => negb (String.eqb (fOrg r) org)) (d_refunds d),
   List.filter (fun r => negb (String.eqb (oOrg r) org)) (d_holds d),
   List.filter (fun r => negb (String.eqb (leOrg r) org)) (d_leases d)).

(** What a committed transaction of organization [org] did. *)
Definition tx_ok (org : string) (d d' : db) : Prop :=
  db_inv d' /\ ledger_le d d' /\ others org d' = others org d.

Lemma refund_le_live x y : refund_le x y -> refund_live (fStatus y) = true -> refund_live (fStatus x) = true.
Proof.
  intros (_ & [[-> _]|H] & _ & _); [done|]. revert H. unfold CanTransitionRefund, refundTransitions.
  by destruct (fStatus x), (fStatus y).
Qed.

Lemma refund_le_value x y id :
  refund_le x y -> refund_parses (refund x) -> (held_value id y <= held_value id x)%Q.
Proof.
  intros Hle Hp%refund_value_pos. pose proof (refund_le_live x y Hle) as Hl. destruct Hle as (F & _).
  assert (fPaymentID y = fPaymentID x /\ fAmount y = fAmount x) as [E1 E2] by (unfold refund_fixed in F; split; congruence).
  unfold held_value. rewrite E1. assert (refund_value (refund y) = refund_value (refund x)) as ->.
  { unfold refund_value, refund. cbn. by rewrite E2. }
  destruct (String.eqb (fPaymentID x) id); cbn; [|lra].
  destruct (refund_live (fStatus y)), (refund_live (fStatus x)); cbn; lra || by specialize (Hl eq_refl).
Qed.

Lemma reserved_le l l' id :
  Forall2 refund_le l l' -> Forall (fun f => refund_parses (refund f)) l ->
  (reserved id l' <= reserved id l)%Q.
Proof.
  unfold reserved. induction 1 as [|x y l l' Hxy _ IH]; intros Hp; cbn -[Qplus]; [lra|].
  inversion Hp; subst. pose proof (refund_le_value x y id Hxy ltac:(done)). specialize (IH ltac:(done)). lra.
Qed.

Lemma filter_moves {R} (p : R -> bool) (rel : R -> R -> Prop) l l' :
  Forall2 rel l l' -> (forall x y, rel x y -> p y = p x /\ (p x = true -> y = x)) ->
  List.filter p l' = List.filter p l.
Proof.
  intros H Hr. induction H as [|x y l l' Hxy _ IH]; cbn; [done|].
  destruct (Hr x y Hxy) as [-> Heq]. rewrite IH. destruct (p x); [by rewrite Heq|done].
Qed.

(** The rows move, one by one, inside the organization; events are added. *)
Record moves (org : string) (d d' : db) (evs : list eventRow) : Prop := {
  mv_events : d_events d' = d_events d ++ evs;
  mv_event_org : Forall (fun ev => evOrg ev = org) evs;
  mv_payments : Forall2 (fun r r' => payment_le (d_events d') r r' /\ (rOrg r <> org -> r' = r))
    (d_payments d) (d_payments d');
  mv_refunds : Forall2 (fun f f' => refund_le f f' /\ (fOrg f <> org -> f' = f)) (d_refunds d) (d_refunds d');
  mv_holds : List.filter (fun r => negb (String.eqb (oOrg r) org)) (d_holds d') =
             List.filter (fun r => negb (String.eqb (oOrg r) org)) (d_holds d);
  mv_leases : List.filter (fun r => negb (String.eqb (leOrg r) org)) (d_leases d') =
              List.filter (fun r => negb (String.eqb (leOrg r) org)) (d_leases d);
  mv_indexes : indexes_ok d' = true
}.

Lemma Forall2_in_r {A B} (P : A -> B -> Prop) l l' y : Forall2 P l l' -> y ∈ l' -> exists x, x ∈ l /\ P x y.
Proof.
  intros H Hy. apply list_elem_of_lookup in Hy as [i Hi].
  destruct (Forall2_lookup_r _ _ _ _ _ H Hi) as (x & Hx & ?). exists x. split; [|done].
  by eapply list_elem_of_lookup_2.
Qed.
Lemma Forall2_in_l {A B} (P : A -> B -> Prop) l l' x : Forall2 P l l' -> x ∈ l -> exists y, y ∈ l' /\ P x y.
Proof.
  intros H Hy. apply list_elem_of_lookup in Hy as [i Hi].
  destruct (Forall2_lookup_l _ _ _ _ _ H Hi) as (y & Hx & ?). exists y. split; [|done].
  by eapply list_elem_of_lookup_2.
Qed.

Lemma payment_fixed_fields r r' :
  payment_fixed r' = payment_fixed r ->
  rID r' = rID r /\ rOrg r' = rOrg r /\ rDocumentType r' = rDocumentType r /\ rDocumentID r' = rDocumentID r /\
  rProvider r' = rProvider r /\ rIdempotencyKey r' = rIdempotencyKey r /\ rAmount r' = rAmount r /\
  rCurrency r' = rCurrency r /\ rOrderRef r' = rOrderRef r /\ rSeller r' = rSeller r.
Proof. unfold payment_fixed. intros E. injection E. intros. by split_and!. Qed.

Lemma refund_fixed_fields f f' :
  refund_fixed f' = refund_fixed f ->
  fID f' = fID f /\ fOrg f' = fOrg f /\ fPaymentID f' = fPaymentID f /\ fAmount f' = fAmount f /\
  fCurrency f' = fCurrency f /\ fIdempotencyKey f' = fIdempotencyKey f /\ fDestination f' = fDestination f /\
  fProvider f' = fProvider f /\ fRefundApplicationFee f' = fRefundApplicationFee f /\ fCreatedAt f' = fCreatedAt f.
Proof. unfold refund_fixed. intros E. injection E. intros. by split_and!. Qed.

Lemma moves_inv org d d' evs : db_inv d -> moves org d d' evs -> db_inv d'.
Proof.
  intros [Hx Hp Hr Hb Ho] [Me _ Mp Mr _ _ Mi].
  assert (Forall (fun f => refund_parses (refund f)) (d_refunds d)) as Hfp.
  { apply Forall_forall. intros f Hf. by apply Hr. }
  split; [done|..].
  - intros r' Hr'. destruct (Forall2_in_r _ _ _ _ Mp Hr') as (r & Hin & [[F _] _]).
    apply payment_fixed_fields in F as (_ & _ & _ & _ & _ & _ & -> & _). by apply Hp.
  - intros f' Hf'. destruct (Forall2_in_r _ _ _ _ Mr Hf') as (f & Hin & [[F _] _]).
    apply refund_fixed_fields in F as (_ & Eo & Ei & Ea & _).
    destruct (Hr f Hin) as (Hpar & r & Hrin & E1 & E2). split.
    { destruct Hpar as (a & Hv & ?). exists a. cbn in *. by rewrite Ea. }
    destruct (Forall2_in_l _ _ _ _ Mp Hrin) as (r' & Hr' & [[F' _] _]).
    apply payment_fixed_fields in F' as (G1 & G2 & _). exists r'. split; [done|]. split; congruence.
  - intros r' a Hr' Ha. destruct (Forall2_in_r _ _ _ _ Mp Hr') as (r & Hin & [[F _] _]).
    apply payment_fixed_fields in F as (E & _ & _ & _ & _ & _ & Ea & _). rewrite E.
    eapply Qle_trans; [apply (reserved_le (d_refunds d))|apply Hb; [done|congruence]]; [|done].
    eapply Forall2_impl; [exact Mr|]. by intros ? ? [? _].
  - intros r1' r2' H1 H2 Hdoc O1 O2 Hne.
    destruct (Forall2_in_r _ _ _ _ Mp H1) as (r1 & Hin1 & [[F1 M1] _]).
    destruct (Forall2_in_r _ _ _ _ Mp H2) as (r2 & Hin2 & [[F2 M2] _]).
    apply payment_fixed_fields in F1 as (E1 & Eo1 & Et1 & Ed1 & Ep1 & _).
    apply payment_fixed_fields in F2 as (E2 & Eo2 & Et2 & Ed2 & Ep2 & _).
    rewrite E1, E2, Eo1, Eo2, Ep1, Ep2 in *.
    assert (Hw : forall o p, was_corrected (d_events d) o p -> was_corrected (d_events d') o p).
    { intros o p. apply was_corrected_mono. rewrite Me. set_solver. }
    destruct (audited_open _ _ _ _ _ M1 O1) as [P1|]; [|by left].
    destruct (audited_open _ _ _ _ _ M2 O2) as [P2|]; [|by right].
    destruct (Ho r1 r2 Hin1 Hin2) as [?|?]; try done; [|left; by apply Hw|right; by apply Hw].
    destruct Hdoc as (?&?&?). split_and!; congruence.
Qed.

Lemma filter_none {R} (p : R -> bool) l : Forall (fun x => p x = false) l -> List.filter p l = [].
Proof. induction 1 as [|x l Hx _ IH]; cbn; [done|]. by rewrite Hx, IH. Qed.

Lemma moves_ok org d d' evs : db_inv d -> moves org d d' evs -> tx_ok org d d'.
Proof.
  intros Hd Hm. split; [by eapply moves_inv|]. destruct Hm as [Me Mo Mp Mr Mh Ml _]. split.
  - exists evs. split_and!; [done|..].
    + exists (d_payments d'), []. split; [by rewrite app_nil_r|]. eapply Forall2_impl; [exact Mp|]. by intros ? ? [? _].
    + exists (d_refunds d'), []. split; [by rewrite app_nil_r|]. eapply Forall2_impl; [exact Mr|]. by intros ? ? [? _].
  - unfold others. rewrite Mh, Ml, Me, List.filter_app, (filter_none _ evs), app_nil_r.
    2: { eapply Forall_impl; [exact Mo|]. intros ev ->. by rewrite String.eqb_refl. }
    erewrite (filter_moves _ _ (d_payments d) (d_payments d')); [|exact Mp|].
    2: { intros r r' [[F _] Hsame]. apply payment_fixed_fields in F as (_ & -> & _). split; [done|].
         intros E%negb_true_iff%String.eqb_neq. by apply Hsame. }
    erewrite (filter_moves _ _ (d_refunds d) (d_refunds d')); [done|exact Mr|].
    intros f f' [[F _] Hsame]. apply refund_fixed_fields in F as (_ & -> & _). split; [done|].
    intros E%negb_true_iff%String.eqb_neq. by apply Hsame.
Qed.

(** ** New rows keep the invariant *)

Lemma others_snoc {R} (p : R -> bool) l x : p x = false -> List.filter p (l ++ [x]) = List.filter p l.
Proof. intros H. rewrite List.filter_app. cbn. by rewrite H, app_nil_r. Qed.

Lemma reserved_none id l : Forall (fun f => fPaymentID f <> id) l -> (reserved id l == 0)%Q.
Proof.
  unfold reserved. induction 1 as [|f l Hf _ IH]; cbn -[Qplus]; [done|]. rewrite IH. unfold held_value.
  apply String.eqb_neq in Hf. rewrite Hf. cbn. lra.
Qed.

Lemma reserved_snoc id l f : (reserved id (l ++ [f]) == reserved id l + held_value id f)%Q.
Proof. unfold reserved. rewrite map_app, qsum_app. cbn -[Qplus]. lra. Qed.

Lemma payments_ok_spec l :
  payments_ok l = true <-> NoDup (map rID l) /\ NoDup (map payment_key l) /\ NoDup (omap payment_ref l).
Proof. unfold payments_ok. rewrite !andb_true_iff, !bool_decide_eq_true. tauto. Qed.
Lemma refunds_ok_spec l : refunds_ok l = true <-> NoDup (map fID l) /\ NoDup (map refund_key l).
Proof. unfold refunds_ok. rewrite !andb_true_iff, !bool_decide_eq_true. tauto. Qed.

Lemma indexes_ok_spec d :
  indexes_ok d = true <-> payments_ok (d_payments d) = true /\ events_ok (d_events d) = true /\
    refunds_ok (d_refunds d) = true /\ holds_ok (d_holds d) = true /\ leases_ok (d_leases d) = true.
Proof. unfold indexes_ok. rewrite !andb_true_iff. tauto. Qed.

Lemma unique_payment d r1 r2 :
  db_inv d -> r1 ∈ d_payments d -> r2 ∈ d_payments d -> rID r1 = rID r2 -> r1 = r2.
Proof.
  intros [Hx _ _ _ _]. apply indexes_ok_spec in Hx as (Hp & _). apply payments_ok_spec in Hp as (Hn & _).
  intros ? ? ?. by eapply NoDup_map_inj.
Qed.
Lemma unique_refund d f1 f2 :
  db_inv d -> f1 ∈ d_refunds d -> f2 ∈ d_refunds d -> fID f1 = fID f2 -> f1 = f2.
Proof.
  intros [Hx _ _ _ _]. apply indexes_ok_spec in Hx as (_ & _ & Hp & _). apply refunds_ok_spec in Hp as (Hn & _).
  intros ? ? ?. by eapply NoDup_map_inj.
Qed.

Lemma snoc_fresh {A B} (g : A -> B) l x y : NoDup (map g (l ++ [x])) -> y ∈ l -> g y <> g x.
Proof.
  rewrite map_app. intros (_ & H & _)%NoDup_app Hy E. eapply H; [|cbn; left].
  rewrite <- E. apply list_elem_of_fmap. eauto.
Qed.

Definition with_payments (d : db) (l : list paymentRow) : db :=
  mkDb l (d_events d) (d_refunds d) (d_holds d) (d_leases d).
Definition with_refunds (d : db) (l : list refundRow) : db :=
  mkDb (d_payments d) (d_events d) l (d_holds d) (d_leases d).

Lemma new_payment_ok org d row a :
  db_inv d -> rOrg row = org -> ParseAmount (rAmount row) = Ok a -> (0 < a)%Q ->
  (Open (rStatus row) = true -> forall r, r ∈ d_payments d -> same_document r row -> Open (rStatus r) = false) ->
  payments_ok (d_payments d ++ [row]) = true ->
  tx_ok org d (with_payments d (d_payments d ++ [row])).
Proof.
  intros [Hx Hp Hr Hb Ho] Horg Ha Hpos Hnone Hk. unfold with_payments.
  apply payments_ok_spec in Hk as Hnd. destruct Hnd as (Hid & _).
  split; [split; cbn [d_payments d_refunds d_events]|split].
  - apply indexes_ok_spec in Hx. apply indexes_ok_spec. tauto.
  - intros r [Hin| ->%list_elem_of_singleton]%elem_of_app; [by apply Hp|by exists a].
  - intros f Hf. destruct (Hr f Hf) as (? & r & ? & ?). split; [done|]. exists r. split; [set_solver|done].
  - intros r a' [Hin| ->%list_elem_of_singleton]%elem_of_app Ha'; [by apply Hb|].
    rewrite Ha in Ha'. injection Ha' as <-. rewrite reserved_none; [lra|].
    apply Forall_forall. intros f Hf E. destruct (Hr f Hf) as (_ & r & Hin & E2 & _).
    apply (snoc_fresh rID _ row r Hid Hin). congruence.
  - intros r1 r2 [H1| ->%list_elem_of_singleton]%elem_of_app [H2| ->%list_elem_of_singleton]%elem_of_app Hdoc O1 O2 Hne.
    + by apply Ho.
    + rewrite (Hnone O2 r1) in O1; done.
    + rewrite (Hnone O1 r2) in O2; try done. destruct Hdoc as (?&?&?). by split_and!.
    + done.
  - exists []. rewrite app_nil_r. split_and!; [done|apply ext_app, payment_le_refl|apply ext_refl, refund_le_refl].
  - unfold others. cbn [d_payments d_events d_refunds d_holds d_leases].
    rewrite others_snoc; [done|]. by rewrite Horg, String.eqb_refl.
Qed.

Lemma new_refund_ok org d f r a :
  db_inv d -> fOrg f = org -> r ∈ d_payments d -> rID r = fPaymentID f -> rOrg r = org ->
  refund_parses (refund f) -> ParseAmount (rAmount r) = Ok a ->
  (reserved (rID r) (d_refunds d) + refund_value (refund f) <= a)%Q ->
  refunds_ok (d_refunds d ++ [f]) = true ->
  tx_ok org d (with_refunds d (d_refunds d ++ [f])).
Proof.
  intros Hd Horg Hin Hid Hro Hpar Ha Hle Hk. pose proof Hd as [Hx Hp Hr Hb Ho]. unfold with_refunds.
  split; [split; cbn [d_payments d_refunds d_events]|split]; [..|].
  - apply indexes_ok_spec in Hx. apply indexes_ok_spec. tauto.
  - done.
  - intros g [Hg| ->%list_elem_of_singleton]%elem_of_app; [by apply Hr|]. split; [done|].
    exists r. split_and!; [done..|congruence].
  - intros r' a' Hin' Ha'. rewrite reserved_snoc. unfold held_value.
    destruct (String.eqb_spec (fPaymentID f) (rID r')) as [E|E]; cbn.
    + assert (r' = r) as -> by (apply (unique_payment d); congruence).
      rewrite Ha in Ha'. injection Ha' as <-. pose proof (refund_value_pos _ Hpar). destruct (refund_live _); lra.
    + specialize (Hb r' a' Hin' Ha'). lra.
  - done.
  - exists []. rewrite app_nil_r. split_and!; [done|apply ext_refl, payment_le_refl|apply ext_app, refund_le_refl].
  - unfold others. cbn [d_payments d_events d_refunds d_holds d_leases].
    rewrite (others_snoc _ (d_refunds d)); [done|]. by rewrite Horg, String.eqb_refl.
Qed.
