(* ===== verification/LedgerSafe.v ===== *)
(** * Payments ledger: every operation is safe

    [txp], the weakest precondition of a transaction, and the proof that
    each transaction of the ledger satisfies [tx_ok]; [safe], the
    precondition of a program that other programs interleave with, and the
    proof that every operation of the ledger satisfies it. *)

From Stdlib Require Import QArith Qminmax Lqa.
From S2P Require Import Prelude GoStrings PayStatus PayAmount PayModel PayHold PayRefund PaySettle PayObserve.
From S2P Require Import LedgerStore LedgerProg LedgerObserve LedgerCharge LedgerRefund LedgerInv.

Open Scope Z_scope.

(** ** Preconditions of transactions *)

Definition txp {A} (t : tx A) (e : env) (d : db) (Q : A -> db -> Prop) : Prop :=
  match t e d with Ok (a, d') => Q a d' | Err _ => True end.

Lemma txp_mono {A} (t : tx A) e d (Q Q' : A -> db -> Prop) :
  (forall a d', Q a d' -> Q' a d') -> txp t e d Q -> txp t e d Q'.
Proof. unfold txp. intros H. destruct (t e d) as [[a d']|]; auto. Qed.

Lemma txp_ret {A} (a : A) e d (Q : A -> db -> Prop) : Q a d -> txp (mret a) e d Q.
Proof. done. Qed.

Lemma txp_bind {A B} (t : tx A) (f : A -> tx B) e d (Q : B -> db -> Prop) :
  txp t e d (fun a d' => txp (f a) e d' Q) -> txp (t ≫= f) e d Q.
Proof.
  unfold txp. unfold mbind, tx_bind. destruct (t e d) as [[a d']|] eqn:E; done.
Qed.

(** The reads of the monad. *)
Lemma txp_throw {A} err e d (Q : A -> db -> Prop) : txp (throw err) e d Q.
Proof. done. Qed.
Lemma txp_now e d Q : Q (e_now e) d -> txp tx_now e d Q.
Proof. done. Qed.
Lemma txp_id e d Q : Q (e_id e) d -> txp tx_id e d Q.
Proof. done. Qed.
Lemma txp_id2 e d Q : Q (e_id2 e) d -> txp tx_id2 e d Q.
Proof. done. Qed.
Lemma txp_token e d Q : Q (e_token e) d -> txp tx_token e d Q.
Proof. done. Qed.
Lemma txp_db e d Q : Q d d -> txp tx_db e d Q.
Proof. done. Qed.
Lemma txp_throw_if b err e d Q : (b = false -> Q tt d) -> txp (throw_if b err) e d Q.
Proof. unfold throw_if. destruct b; [done|]. intros H. apply txp_ret. by apply H. Qed.
Lemma txp_MustAmount s e d (Q : Amount -> db -> Prop) :
  (forall a, ParseAmount s = Ok a -> Q a d) -> txp (MustAmount s) e d Q.
Proof. unfold MustAmount. destruct (ParseAmount s); [|done]. intros H. apply txp_ret. by apply H. Qed.
Lemma txp_lift_pay {A} (r : result pay_error A) e d (Q : A -> db -> Prop) :
  (forall a, r = Ok a -> Q a d) -> txp (lift_pay r) e d Q.
Proof. unfold txp, lift_pay. destruct r; [|done]. intros H. by apply H. Qed.

(** A read gives any rows with a property that the query guarantees. *)
Lemma txp_take_payment w e d Q :
  (forall o, (forall r, o = Some r -> r ∈ d_payments d /\ w r = true) -> Q o d) -> txp (take_payment w) e d Q.
Proof. intros H. apply H. intros r. apply take_Some. Qed.
Lemma txp_take_refund w e d Q :
  (forall o, (forall r, o = Some r -> r ∈ d_refunds d /\ w r = true) -> Q o d) -> txp (take_refund w) e d Q.
Proof. intros H. apply H. intros r. apply take_Some. Qed.
Lemma txp_select_payments w e d Q :
  (forall rows, (forall r, r ∈ rows <-> r ∈ d_payments d /\ w r = true) -> Q rows d) ->
  txp (select_payments w) e d Q.
Proof. intros H. apply H. intros r. apply elem_of_select_rows. Qed.
Lemma txp_select_refunds w e d Q :
  (forall rows, rows ≡ₚ List.filter w (d_refunds d) -> Q rows d) -> txp (select_refunds w) e d Q.
Proof. intros H. apply H. apply order_by_perm. Qed.
Lemma txp_activeHold org t i e d Q :
  (forall o, (forall h, o = Some h -> h ∈ d_holds d /\ oOrg h = org) -> Q o d) -> txp (activeHold org t i) e d Q.
Proof.
  intros H. apply H. intros h Hh%take_Some. destruct Hh as [? Hw]. split; [done|].
  rewrite !andb_true_iff, !String.eqb_eq in Hw. tauto.
Qed.

Lemma txp_document org t i e d Q :
  (forall doc rows, (forall r, r ∈ rows <-> r ∈ d_payments d /\ of_document org t i r = true) ->
     dPayments doc = map payment rows -> Q doc d) ->
  txp (document org t i) e d Q.
Proof.
  intros H. unfold document. apply txp_bind, txp_select_payments. intros rows Hrows.
  apply txp_bind. enough (forall net open, txp (document_loop rows net open) e d (fun _ d' => d' = d)) as Hl.
  { eapply txp_mono; [|apply Hl]. intros [net open] d' ->.
    apply txp_bind. assert (forall fs, txp (paid ← lift_pay (DocumentPaid (map payment rows) (map refund fs));
      hold_ ← activeHold org t i; now ← tx_now;
      mret (mkDocument t i (map payment rows) (map refund fs) (amount_String net) (amount_String paid) open
        (h ← hold_; if now <? oExpiresAt h then Some (hide_token (hold h)) else None))) e d Q) as Hrest.
    { intros fs. apply txp_bind, txp_lift_pay. intros paid _. apply txp_bind, txp_activeHold. intros ho _.
      apply txp_bind, txp_now, txp_ret. by apply (H _ rows). }
    destruct (bool_decide (length (map rID rows) = 0%nat)); [apply txp_ret, Hrest|].
    apply txp_select_refunds. intros fs _. apply Hrest. }
  clear. induction rows as [|r rows IH]; intros net open; cbn [document_loop]; [by apply txp_ret|].
  apply txp_bind, txp_lift_pay. intros n _. apply IH.
Qed.

Lemma txp_payment_by_id org id e d Q :
  (forall r, r ∈ d_payments d -> rOrg r = org -> rID r = id -> Q r d) -> txp (payment_by_id org id) e d Q.
Proof.
  intros HQ. unfold payment_by_id. apply txp_bind, txp_take_payment. intros [r|] Hr; [|done]. apply txp_ret.
  destruct (Hr r eq_refl) as [? Hw]. apply andb_true_iff in Hw as [?%String.eqb_eq ?%String.eqb_eq]. auto.
Qed.

Lemma txp_find_payment_row `{LedgerEnv} org id e d Q :
  (forall r, r ∈ d_payments d -> rOrg r = org -> uuid_Parse (TrimSpace id) = Some (rID r) -> Q r d) ->
  txp (find_payment_row org id) e d Q.
Proof.
  intros HQ. unfold find_payment_row. destruct (uuid_Parse (TrimSpace id)) as [pid|] eqn:E; [|done].
  apply txp_payment_by_id. intros r ? ? <-. auto.
Qed.

Lemma txp_refundsOf org id e d Q :
  (forall rows, rows ≡ₚ List.filter (fun r => String.eqb (fOrg r) org && String.eqb (fPaymentID r) id) (d_refunds d) ->
     Q (map refund rows) d) ->
  txp (refundsOf org id) e d Q.
Proof. intros H. unfold refundsOf. apply txp_bind, txp_select_refunds. intros rows Hr. by apply txp_ret, H. Qed.

(** ** Statements keep the invariant *)

Lemma tx_ok_refl org d : db_inv d -> tx_ok org d d.
Proof. intros H. split_and!; [done|reflexivity|done]. Qed.

Lemma tx_ok_trans org a b c : tx_ok org a b -> tx_ok org b c -> tx_ok org a c.
Proof. intros (? & ? & E1) (? & ? & E2). split_and!; [done|by etrans|congruence]. Qed.

Lemma Forall2_refl_rel {R} (rel : R -> R -> Prop) l : (forall x, rel x x) -> Forall2 rel l l.
Proof. intros H. induction l; constructor; auto. Qed.

Lemma Forall2_update_where {R} (rel : R -> R -> Prop) (w : R -> bool) f l :
  (forall x, rel x x) -> (forall x, x ∈ l -> w x = true -> rel x (f x)) -> Forall2 rel l (update_where w f l).
Proof.
  intros Hr Hf. unfold update_where. induction l as [|x l IH]; cbn; constructor.
  - destruct (w x) eqn:E; [apply Hf; [set_solver|done]|done].
  - apply IH. intros y Hy. apply Hf. set_solver.
Qed.

(** The rows an update selects are of the organization, and each moves as it may. *)
Definition payments_move (org : string) (evs : list eventRow) (d : db) (w : paymentRow -> bool) (cols : list pcol) : Prop :=
  forall r, r ∈ d_payments d -> w r = true ->
    rOrg r = org /\ rtc (audited evs org (rProvider r)) (rStatus r) (rStatus (update_payment cols r)).
Definition refunds_move (org : string) (d : db) (w : refundRow -> bool) (cols : list fcol) : Prop :=
  forall f, f ∈ d_refunds d -> w f = true -> fOrg f = org /\ refund_le f (update_refund cols f).
Definition holds_move (org : string) (d : db) (w : holdRow -> bool) : Prop :=
  forall h, h ∈ d_holds d -> w h = true -> oOrg h = org.

Definition other_holds (org : string) (d : db) : list holdRow :=
  List.filter (fun r => negb (String.eqb (oOrg r) org)) (d_holds d).

Lemma payments_Forall2 org evs d w cols :
  payments_move org evs d w cols ->
  Forall2 (fun r r' => payment_le evs r r' /\ (rOrg r <> org -> r' = r)) (d_payments d)
    (update_where w (update_payment cols) (d_payments d)).
Proof.
  intros H. apply Forall2_update_where.
  - intros r. split; [apply payment_le_refl|done].
  - intros r Hin Hw. destruct (H r Hin Hw) as [Ho Hm]. split; [split; [done|by rewrite Ho]|done].
Qed.
Lemma refunds_Forall2 org d w cols :
  refunds_move org d w cols ->
  Forall2 (fun f f' => refund_le f f' /\ (fOrg f <> org -> f' = f)) (d_refunds d)
    (update_where w (update_refund cols) (d_refunds d)).
Proof.
  intros H. apply Forall2_update_where.
  - intros r. split; [apply refund_le_refl|done].
  - intros r Hin Hw. by destruct (H r Hin Hw).
Qed.
Lemma holds_filter org d w cols :
  holds_move org d w ->
  List.filter (fun r => negb (String.eqb (oOrg r) org)) (update_where w (update_hold cols) (d_holds d)) =
  other_holds org d.
Proof.
  intros H. apply filter_update_where. intros h Hin Hw. cbn. by rewrite (H h Hin Hw), String.eqb_refl.
Qed.
Lemma same_payments org evs d :
  Forall2 (fun r r' => payment_le evs r r' /\ (rOrg r <> org -> r' = r)) (d_payments d) (d_payments d).
Proof. apply Forall2_refl_rel. intros r. split; [apply payment_le_refl|done]. Qed.
Lemma same_refunds org d :
  Forall2 (fun f f' => refund_le f f' /\ (fOrg f <> org -> f' = f)) (d_refunds d) (d_refunds d).
Proof. apply Forall2_refl_rel. intros r. split; [apply refund_le_refl|done]. Qed.

(** A statement committed; its own database afterwards. *)
Lemma txp_update_payments w cols e d Q :
  (payments_ok (update_where w (update_payment cols) (d_payments d)) = true ->
   Q (rows_affected w (d_payments d)) (with_payments d (update_where w (update_payment cols) (d_payments d)))) ->
  txp (update_payments w cols) e d Q.
Proof.
  intros H. unfold update_payments. apply txp_bind, txp_db. apply txp_bind. unfold txp at 1, set_payments.
  destruct (payments_ok _) eqn:E; [|done]. apply txp_ret, H. done.
Qed.
Definition with_holds (d : db) (l : list holdRow) : db :=
  mkDb (d_payments d) (d_events d) (d_refunds d) l (d_leases d).
Definition with_events (d : db) (l : list eventRow) : db :=
  mkDb (d_payments d) l (d_refunds d) (d_holds d) (d_leases d).

Lemma txp_update_refunds w cols e d Q :
  (refunds_ok (update_where w (update_refund cols) (d_refunds d)) = true ->
   Q (rows_affected w (d_refunds d)) (with_refunds d (update_where w (update_refund cols) (d_refunds d)))) ->
  txp (update_refunds w cols) e d Q.
Proof.
  intros H. unfold update_refunds. apply txp_bind, txp_db. apply txp_bind. unfold txp at 1, set_refunds.
  destruct (refunds_ok _) eqn:E; [|done]. apply txp_ret, H. done.
Qed.
Lemma txp_update_holds w cols e d Q :
  (holds_ok (update_where w (update_hold cols) (d_holds d)) = true ->
   Q (rows_affected w (d_holds d)) (with_holds d (update_where w (update_hold cols) (d_holds d)))) ->
  txp (update_holds w cols) e d Q.
Proof.
  intros H. unfold update_holds. apply txp_bind, txp_db. apply txp_bind. unfold txp at 1, set_holds.
  destruct (holds_ok _) eqn:E; [|done]. apply txp_ret, H. done.
Qed.
Lemma txp_create_hold h e d Q :
  (holds_ok (d_holds d ++ [h]) = true -> Q tt (with_holds d (d_holds d ++ [h]))) -> txp (create_hold h) e d Q.
Proof.
  intros H. unfold create_hold. apply txp_bind, txp_db. unfold txp, set_holds.
  destruct (holds_ok _) eqn:E; [|done]. by apply H.
Qed.
Lemma txp_create_payment r e d Q :
  (payments_ok (d_payments d ++ [r]) = true -> Q tt (with_payments d (d_payments d ++ [r]))) ->
  txp (create_payment r) e d Q.
Proof.
  intros H. unfold create_payment. apply txp_bind, txp_db. unfold txp, set_payments.
  destruct (payments_ok _) eqn:E; [|done]. by apply H.
Qed.
Lemma txp_create_refund r e d Q :
  (refunds_ok (d_refunds d ++ [r]) = true -> Q tt (with_refunds d (d_refunds d ++ [r]))) ->
  txp (create_refund r) e d Q.
Proof.
  intros H. unfold create_refund. apply txp_bind, txp_db. unfold txp, set_refunds.
  destruct (refunds_ok _) eqn:E; [|done]. by apply H.
Qed.
(** Either the event was known and nothing changed, or it was appended. *)
Lemma txp_insertEvent ev e d Q :
  (forall dup evs, Forall (fun x => x = ev) evs ->
     (exists x, x ∈ d_events d ++ evs /\ event_key x = event_key ev) ->
     (events_ok (d_events d) = true -> events_ok (d_events d ++ evs) = true) ->
     Q dup (with_events d (d_events d ++ evs))) ->
  txp (insertEvent ev) e d Q.
Proof.
  intros H. unfold insertEvent. apply txp_bind, txp_db. destruct (existsb _ _) eqn:Ex.
  - apply existsb_exists in Ex as (x & Hx%list_elem_of_In & E%bool_decide_eq_true).
    apply txp_ret. specialize (H true []). rewrite app_nil_r in H. destruct d. apply H; eauto.
  - apply txp_bind. unfold txp at 1, set_events. destruct (events_ok (d_events d ++ [ev])) eqn:E; [|done].
    apply txp_ret, (H false); [by constructor| |done]. exists ev. split; [set_solver|done].
Qed.

Lemma indexes_of d : db_inv d -> payments_ok (d_payments d) = true /\ events_ok (d_events d) = true /\
  refunds_ok (d_refunds d) = true /\ holds_ok (d_holds d) = true /\ leases_ok (d_leases d) = true.
Proof. intros [Hx _ _ _ _]. by apply indexes_ok_spec. Qed.

(** Build [moves] from what changed in each table. *)
Ltac moves_from Hd :=
  pose proof (indexes_of _ Hd);
  split; cbn [with_payments with_refunds with_holds with_events d_payments d_events d_refunds d_holds d_leases];
  try rewrite app_nil_r;
  try (apply same_payments || apply same_refunds || by constructor || done
       || (apply indexes_ok_spec; cbn [d_payments d_events d_refunds d_holds d_leases]; by intuition)).

Lemma ok_update_payments org d w cols :
  db_inv d -> payments_move org (d_events d) d w cols ->
  payments_ok (update_where w (update_payment cols) (d_payments d)) = true ->
  tx_ok org d (with_payments d (update_where w (update_payment cols) (d_payments d))).
Proof.
  intros Hd Hm Hk. apply (moves_ok _ _ _ []); [done|]. moves_from Hd. by apply payments_Forall2.
Qed.
Lemma ok_update_refunds org d w cols :
  db_inv d -> refunds_move org d w cols ->
  refunds_ok (update_where w (update_refund cols) (d_refunds d)) = true ->
  tx_ok org d (with_refunds d (update_where w (update_refund cols) (d_refunds d))).
Proof.
  intros Hd Hm Hk. apply (moves_ok _ _ _ []); [done|]. moves_from Hd. by apply refunds_Forall2.
Qed.
Lemma ok_update_holds org d w cols :
  db_inv d -> holds_move org d w ->
  holds_ok (update_where w (update_hold cols) (d_holds d)) = true ->
  tx_ok org d (with_holds d (update_where w (update_hold cols) (d_holds d))).
Proof.
  intros Hd Hm Hk. apply (moves_ok _ _ _ []); [done|]. moves_from Hd. by apply holds_filter.
Qed.
Lemma ok_create_hold org d h :
  db_inv d -> oOrg h = org -> holds_ok (d_holds d ++ [h]) = true -> tx_ok org d (with_holds d (d_holds d ++ [h])).
Proof.
  intros Hd Ho Hk. apply (moves_ok _ _ _ []); [done|]. moves_from Hd.
  apply others_snoc. by rewrite Ho, String.eqb_refl.
Qed.

Definition committed {A} (org : string) (d0 : db) (t : tx A) (e : env) (d : db) : Prop :=
  txp t e d (fun _ d' => tx_ok org d0 d').

Lemma holds_unique d h h' :
  db_inv d -> h ∈ d_holds d -> h' ∈ d_holds d -> oID h = oID h' -> h = h'.
Proof.
  intros Hd. apply indexes_of in Hd as (_ & _ & _ & Hh & _). unfold holds_ok in Hh.
  apply andb_true_iff in Hh as [Hn%bool_decide_eq_true _]. intros. by eapply NoDup_map_inj.
Qed.

Lemma same_hold_move org d row :
  db_inv d -> row ∈ d_holds d -> oOrg row = org -> holds_move org d (same_hold row).
Proof.
  intros Hd Hin Ho h Hh E%String.eqb_eq. by rewrite (holds_unique d h row).
Qed.

Section ledger.
Context `{LedgerEnv} (cfg : Config).

(** ** Holds *)

Lemma acquire_tx_ok org req caller e d :
  db_inv d -> txp (acquire_tx org req caller) e d (fun _ d' => tx_ok org d d').
Proof.
  intros Hd. unfold acquire_tx. apply txp_bind, txp_activeHold. intros cur Hcur.
  apply txp_bind, txp_now, txp_bind, txp_token, txp_bind, txp_id.
  destruct (Acquire _ _ _ _) as [h|err]; [|done]. destruct cur as [row|].
  - destruct (Hcur row eq_refl) as [Hin Ho]. pose proof (same_hold_move org d row Hd Hin Ho) as Hm.
    destruct (renews _ _ _).
    + apply txp_bind, txp_update_holds. intros Hk. by apply txp_ret, ok_update_holds.
    + apply txp_bind, txp_update_holds. intros Hk. pose proof (ok_update_holds org d _ _ Hd Hm Hk) as Hok.
      apply txp_bind, txp_create_hold. intros Hk'. apply txp_ret. eapply tx_ok_trans; [exact Hok|].
      apply ok_create_hold; [apply Hok|done|done].
  - apply txp_bind, txp_create_hold. intros Hk. by apply txp_ret, ok_create_hold.
Qed.

Lemma release_tx_ok org t i token force e d :
  db_inv d -> txp (release_tx org t i token force) e d (fun _ d' => tx_ok org d d').
Proof.
  intros Hd. unfold release_tx. apply txp_bind, txp_activeHold. intros cur Hcur.
  apply txp_bind, txp_now. destruct cur as [row|]; [|by apply txp_ret, tx_ok_refl].
  destruct (Hcur row eq_refl) as [Hin Ho]. pose proof (same_hold_move org d row Hd Hin Ho) as Hm.
  destruct (Release _ _ _ _) as [[next|] [u|err]]; try done.
  apply txp_bind, txp_update_holds. intros Hk. by apply txp_ret, ok_update_holds.
Qed.

Lemma settleDocument_ok org t i total e d :
  db_inv d -> txp (settleDocument org t i total) e d
    (fun _ d' => tx_ok org d d' /\ exists l, d' = with_holds d l).
Proof.
  intros Hd. assert (exists l, d = with_holds d l) as Hsame by (exists (d_holds d); by destruct d).
  unfold settleDocument. destruct (String.eqb total ""); [apply txp_ret; auto using tx_ok_refl|].
  apply txp_bind, txp_document. intros doc rows _ _. apply txp_bind, txp_MustAmount. intros paid _.
  apply txp_bind, txp_MustAmount. intros amt _. destruct (cmp_lt paid amt); [apply txp_ret; auto using tx_ok_refl|].
  apply txp_bind, txp_now. apply txp_bind, txp_update_holds. intros Hk. apply txp_ret. split; [|by eexists].
  apply ok_update_holds; [done| |done].
  intros h Hin Hw. rewrite !andb_true_iff, !String.eqb_eq in Hw. tauto.
Qed.

(** ** Charges *)

Lemma New_closed ps rs key total x :
  CheckReplay ps rs key total = Ok (VerdictNew, x) ->
  (forall p, p ∈ ps -> pIdempotencyKey p <> key) /\ forall p, p ∈ ps -> Open (pStatus p) = false.
Proof.
  unfold CheckReplay. rewrite require_bind_Ok. intros [_ Hr].
  destruct (first_payment _ ps) as [p|] eqn:E1;
    [destruct (Captured (pStatus p)); [done|]; by destruct (Open (pStatus p))|].
  rewrite first_payment_None in E1. apply bind_Ok in Hr as (t & _ & Hr). rewrite require_bind_Ok in Hr.
  destruct Hr as [_ Hr]. apply bind_Ok in Hr as (paid & _ & Hr). destruct (negb _); [done|].
  destruct (first_payment _ ps) as [p|] eqn:E2; [done|]. rewrite first_payment_None in E2.
  split; [|done]. intros p Hp. by apply String.eqb_neq, E1.
Qed.

Definition key : Type := string * string * string.
Definition keys (d : db) : gset key := list_to_set (map payment_key (d_payments d)).

Lemma elem_of_keys d k : k ∈ keys d <-> exists r, r ∈ d_payments d /\ payment_key r = k.
Proof.
  unfold keys. rewrite elem_of_list_to_set, list_elem_of_fmap. naive_solver.
Qed.

Definition charge_created (org : string) (req : ChargeRequest) (d d' : db) (row : paymentRow) : Prop :=
  row ∈ d_payments d' /\ rOrg row = org /\ rProvider row = kProvider req /\
  rIdempotencyKey row = kIdempotencyKey req /\ rAmount row = kAmount req /\ rCurrency row = kCurrency req /\
  payment_key row ∉ keys d.

Lemma start_charge_tx_ok org req e d :
  db_inv d -> validateCharge req = true ->
  txp (start_charge_tx org req) e d (fun out d' => tx_ok org d d' /\
    forall row, out.2 = Some row -> charge_created org req d d' row).
Proof.
  intros Hd Hv. unfold start_charge_tx. apply txp_bind, txp_activeHold. intros ho _.
  apply txp_bind, txp_now. apply txp_bind.
  assert (forall Q : unit -> db -> Prop, Q tt d -> txp (match ho with
    | Some h => match CheckCharge (Some (hold h)) (hashToken (kHoldToken req)) (e_now e) with
                | Err _ => throw (Coded CodeInPayment) | Ok _ => mret tt end
    | None => mret tt end) e d Q) as Hcheck.
  { intros Q HQ. destruct ho as [h|]; [|by apply txp_ret]. by destruct (CheckCharge _ _ _); [apply txp_ret|]. }
  apply Hcheck. clear Hcheck. apply txp_bind, txp_document. intros doc rows Hrows Hdoc.
  destruct (CheckReplay _ _ _ _) as [[verdict existing]|] eqn:Hr; [|done].
  destruct (bool_decide_reflect (verdict = VerdictNew)) as [->|]; cbn [negb].
  2: { apply txp_ret. split; [by apply tx_ok_refl|done]. }
  apply txp_bind, txp_MustAmount. intros total Ht. apply txp_bind, txp_MustAmount. intros paid Hpd.
  apply txp_bind, txp_MustAmount. intros amount Ha. apply txp_bind, txp_throw_if. intros _.
  apply txp_bind, txp_id. apply txp_bind, txp_throw_if. intros _.
  set (row := charge_row (e_id e) org req (e_now e)).
  apply txp_bind, txp_create_payment. intros Hk.
  destruct (New_closed _ _ _ _ _ Hr) as [_ Hclosed].
  assert (tx_ok org d (with_payments d (d_payments d ++ [row]))) as Hok.
  { apply (new_payment_ok _ _ _ amount); try done.
    - unfold validateCharge, positive_decimal in Hv. rewrite Ha in Hv. rewrite !andb_true_iff in Hv.
      apply sign_nonpos_false, negb_true_iff. tauto.
    - intros _ r Hin Hsame. change (rStatus r) with (pStatus (payment r)). apply Hclosed.
      rewrite Hdoc. apply list_elem_of_fmap. exists r. split; [done|]. apply Hrows. split; [done|].
      destruct Hsame as (E1 & E2 & E3). unfold of_document. rewrite E1, E2, E3. cbn. by rewrite !String.eqb_refl. }
  assert (charge_created org req d (with_payments d (d_payments d ++ [row])) row) as Hc.
  { split_and!; [cbn; set_solver|done..|]. rewrite elem_of_keys. intros (r & Hin & E).
    apply payments_ok_spec in Hk as (_ & Hn & _). by apply (snoc_fresh payment_key _ row r Hn Hin). }
  apply txp_bind. destruct (bool_decide _).
  - eapply txp_mono; [|apply settleDocument_ok, Hok]. intros [] d' [Hok' [l ->]]. apply txp_ret.
    split; [by eapply tx_ok_trans|]. intros ? [= <-]. exact Hc.
  - apply txp_ret. split; [done|]. by intros ? [= <-].
Qed.

(** ** Observations *)

Lemma txp_take_newest w e d Q :
  (forall o, (forall r, o = Some r -> r ∈ d_payments d /\ w r = true) -> Q o d) -> txp (take_newest w) e d Q.
Proof.
  intros HQ. apply HQ. intros r Hr.
  apply (elem_of_select_rows (fun r => - rCreatedAt r)). destruct (order_by _ _); [done|]. injection Hr as ->. by left.
Qed.

Definition found_in (org provider : string) (d : db) (f : option paymentRow) : Prop :=
  forall r, f = Some r -> r ∈ d_payments d /\ rOrg r = org /\ rProvider r = provider.

Lemma found_read org provider d e (b : bool) (t : tx (option paymentRow)) (w : paymentRow -> bool) :
  (forall Q : option paymentRow -> db -> Prop,
     (forall o, (forall r, o = Some r -> r ∈ d_payments d /\ w r = true) -> Q o d) -> txp t e d Q) ->
  (forall r, w r = true -> rOrg r = org /\ rProvider r = provider) ->
  txp (if b then t else mret None) e d (fun f d' => d' = d /\ found_in org provider d f).
Proof.
  intros Ht Hw. destruct b; [|apply txp_ret; split; done].
  apply Ht. intros o Ho. split; [done|]. intros r Hr. destruct (Ho r Hr). auto.
Qed.

Lemma txp_findPayment org provider o e d Q :
  (forall f, found_in org provider d f -> Q f d) -> txp (findPayment org provider o) e d Q.
Proof.
  intros HQ. unfold findPayment.
  assert (Hw : forall r b, String.eqb (rOrg r) org && String.eqb (rProvider r) provider && b = true ->
    rOrg r = org /\ rProvider r = provider).
  { intros r b. rewrite !andb_true_iff, !String.eqb_eq. tauto. }
  apply txp_bind. eapply txp_mono; [|eapply found_read; [intros ?; apply txp_take_payment|intros r; apply Hw]].
  intros [r|] ? [-> Hf]; [by apply txp_ret, HQ|].
  apply txp_bind. eapply txp_mono; [|eapply found_read; [intros ?; apply txp_take_newest|intros r; apply Hw]].
  intros [r|] ? [-> Hf']; [by apply txp_ret, HQ|].
  eapply txp_mono; [|eapply found_read; [intros ?; apply txp_take_newest|]].
  - intros f ? [-> Hf'']. by apply HQ.
  - intros r E. cbn beta in E. rewrite <- andb_assoc in E. by eapply Hw.
Qed.

Lemma txp_record_event row decision corrected org provider source o now e d Q :
  (forall dup evs, Forall (fun x => evOrg x = org) evs ->
     (corrected = true -> was_corrected (d_events d ++ evs) org provider) ->
     (events_ok (d_events d) = true -> events_ok (d_events d ++ evs) = true) ->
     Q dup (with_events d (d_events d ++ evs))) ->
  txp (record_event row decision corrected org provider source o now) e d Q.
Proof.
  intros HQ. unfold record_event. apply txp_bind, txp_id, txp_bind, txp_insertEvent.
  intros dup evs Hevs (x & Hx & Ex) Hk.
  assert (Forall (fun x => evOrg x = org) evs) as Ho.
  { eapply Forall_impl; [exact Hevs|]. intros y ->. by destruct corrected. }
  assert (corrected = true -> was_corrected (d_events d ++ evs) org provider) as Hc.
  { intros ->. exists x, (DedupeEventID o). unfold event_key in Ex. cbn in Ex. injection Ex as -> -> ->. by split_and!. }
  destruct (_ && _) eqn:Eb; [|apply txp_ret; by apply HQ].
  apply txp_bind, txp_id2, txp_insertEvent. cbn [with_events d_events].
  intros dup' evs' Hevs' _ Hk'. rewrite <- app_assoc.
  change (with_events (with_events d (d_events d ++ evs)) ?l) with (with_events d l).
  apply HQ.
  - apply Forall_app. split; [done|]. eapply Forall_impl; [exact Hevs'|]. by intros y ->.
  - rewrite !andb_true_iff in Eb. destruct Eb as ((((_ & E%negb_true_iff) & _) & _) & _). congruence.
  - intros E. rewrite app_assoc. auto.
Qed.

(** The decision Apply is a move of the lifecycle, or another partial refund. *)
Lemma Apply_audited evs org provider p o :
  oDecision (ObserveOutcome p o) = Apply -> audited evs org provider (pStatus p) (oStatus o).
Proof.
  intros Ha. destruct (Apply_guards _ _ Ha) as (amount & rec & Hg). rewrite (ObserveOutcome_guards _ _ _ _ Hg) in Ha.
  destruct (check_refunded p o amount rec) as [obs|] eqn:Er.
  - destruct (check_refunded_apply _ _ _ _ _ Er Ha) as (-> & -> & _). by apply audited_refunds.
  - destruct (staleAfterCancelling _ _); [done|]. apply Observe_Apply in Ha as (_ & _ & ?). by apply audited_lifecycle.
Qed.

Definition col_status (c : pcol) : option Status := match c with c_status s => Some s | _ => None end.

Lemma assign_none {C A} (get : C -> option A) cols old :
  Forall (fun c => get c = None) cols -> assign get cols old = old.
Proof. unfold assign. intros Hc. revert old. induction Hc as [|c cols E _ IH]; intros old; cbn; [done|]. by rewrite E, IH. Qed.
Lemma assign_app {C A} (get : C -> option A) l k old : assign get (l ++ k) old = assign get k (assign get l old).
Proof. apply foldl_app. Qed.

Lemma update_status cols r : rStatus (update_payment cols r) = assign col_status cols (rStatus r).
Proof. done. Qed.

Lemma set_if_none {C A} (get : C -> option A) b c : get c = None -> Forall (fun c => get c = None) (set_if b c).
Proof. intros E. destruct b; cbn; by constructor. Qed.

Lemma txp_apply_refunded row o e d Q :
  (forall cols, Forall (fun c => col_status c = None) cols -> Q cols d) -> txp (apply_refunded row o) e d Q.
Proof.
  intros HQ. unfold apply_refunded.
  destruct (bool_decide _); [apply txp_ret, HQ; by constructor|].
  destruct (negb _); [apply txp_ret, HQ; by constructor|].
  destruct (_ && _); [|apply txp_ret, HQ; by constructor].
  apply txp_bind, txp_MustAmount. intros a _. apply txp_bind, txp_MustAmount. intros b _.
  apply txp_ret, HQ. by constructor.
Qed.

Lemma txp_applyOutcome row o now e d Q :
  (forall rest, Forall (fun c => col_status c = None) rest -> Q (c_status (oStatus o) :: rest) d) ->
  txp (applyOutcome row o now) e d Q.
Proof.
  intros HQ. unfold applyOutcome. apply txp_bind, txp_apply_refunded. intros cols Hc.
  apply txp_ret. cbn [app]. apply HQ. rewrite !Forall_app.
  split_and!; try apply set_if_none; try done; [destruct (oCard o)|destruct (oCash o)]; by constructor.
Qed.

Lemma same_id_eq d row r : db_inv d -> row ∈ d_payments d -> r ∈ d_payments d -> same_id row r = true -> r = row.
Proof. intros Hd ? ? E%String.eqb_eq. by apply (unique_payment d). Qed.

Lemma queueRefundRecheck_ok org id now e d :
  db_inv d -> txp (queueRefundRecheck org id now) e d (fun _ d' => tx_ok org d d' /\ exists l, d' = with_refunds d l).
Proof.
  intros Hd. unfold queueRefundRecheck. apply txp_bind, txp_update_refunds. intros Hk. apply txp_ret.
  split; [|by eexists]. apply ok_update_refunds; [done| |done]. intros f Hin Hw.
  rewrite !andb_true_iff, !String.eqb_eq in Hw. split; [tauto|]. split_and!; [done|by left|by right|by left].
Qed.

(** What [observe_tx] returns is about the committed database. *)
Record observed_ok (org provider : string) (d' : db) (ob : observed) : Prop := {
  oo_publish : forall row, ob_publish ob = Some row ->
    row ∈ d_payments d' /\ rOrg row = org /\ rProvider row = provider;
  oo_anomaly : forall a, ob_anomaly ob = Some a -> aOrg a = org
}.

Lemma observe_orphan_ok org provider source o now e d :
  db_inv d -> txp (observe_orphan org provider source o now) e d (fun ob d' => tx_ok org d d' /\ observed_ok org provider d' ob).
Proof.
  intros Hd. unfold observe_orphan. apply txp_bind, txp_id, txp_bind, txp_insertEvent.
  intros dup evs Hevs _ Hk. assert (tx_ok org d (with_events d (d_events d ++ evs))) as Hok.
  { apply (moves_ok _ _ _ evs); [done|]. moves_from Hd. eapply Forall_impl; [exact Hevs|]. by intros x ->. }
  destruct dup; apply txp_ret; (split; [done|]); split; cbn; try done. by intros a [= <-].
Qed.

Lemma recorded_update_ok org d evs w cols :
  db_inv d -> Forall (fun x => evOrg x = org) evs ->
  (events_ok (d_events d) = true -> events_ok (d_events d ++ evs) = true) ->
  payments_move org (d_events d ++ evs) d w cols ->
  payments_ok (update_where w (update_payment cols) (d_payments d)) = true ->
  tx_ok org d (with_payments (with_events d (d_events d ++ evs)) (update_where w (update_payment cols) (d_payments d))).
Proof.
  intros Hd Ho Hk Hm Hp. apply (moves_ok _ _ _ evs); [done|]. moves_from Hd. by apply payments_Forall2.
Qed.

(** The columns an observation writes move the status as the decision says. *)
Definition observed_columns (row : paymentRow) (o : Outcome) (applied : bool) (cols : list pcol) : Prop :=
  assign col_status cols (rStatus row) = if applied then oStatus o else rStatus row.

Lemma txp_changes row decision corrected o now e d Q :
  let applied := bool_decide (oDecision decision = Apply) || corrected in
  (forall cols, observed_columns row o applied cols -> Q cols d) ->
  txp (if applied then
         cols ← applyOutcome row o now;
         mret (cols ++ (if corrected then [c_anomaly ""; c_anomaly_status (StatusOther "")] else []))
       else if bool_decide (oDecision decision = Anomaly) then
         mret [c_anomaly (reason_string (oReason decision)); c_anomaly_status (oStatus o)]
       else mret []) e d Q.
Proof.
  intros applied HQ. clearbody applied. destruct applied.
  - apply txp_bind, txp_applyOutcome. intros rest Hrest. apply txp_ret, HQ. unfold observed_columns.
    rewrite assign_app. cbn [assign foldl]. change (foldl ?g ?x rest) with (assign col_status rest x).
    rewrite (assign_none col_status rest) by done. by destruct corrected.
  - destruct (bool_decide (oDecision decision = Anomaly)); by apply txp_ret, HQ.
Qed.

(** Queueing the refunds and closing the hold, in the same transaction. *)
Lemma observe_rest_ok (b1 b2 : bool) org row stored o now e d0 d (ob : observed) :
  tx_ok org d0 d -> observed_ok org (rProvider row) d ob ->
  txp (_ ← (if b1 then
              a ← MustAmount (norm (rAmountRefunded stored));
              b ← MustAmount (norm (rAmountRefunded row));
              if cmp_gt a b then queueRefundRecheck org (rID stored) now else mret tt
            else mret tt);
       _ ← (if b2 && Counts (oStatus o) then
              settleDocument org (rDocumentType row) (rDocumentID row) (normPtr (rDocumentTotal row))
            else mret tt);
       mret ob) e d (fun ob d' => tx_ok org d0 d' /\ observed_ok org (rProvider row) d' ob).
Proof.
  intros Hok [Hp Ha]. apply txp_bind.
  assert (forall d1, tx_ok org d0 d1 -> d_payments d1 = d_payments d ->
    txp (_ ← (if b2 && Counts (oStatus o) then
              settleDocument org (rDocumentType row) (rDocumentID row) (normPtr (rDocumentTotal row))
            else mret tt); mret ob) e d1 (fun ob d' => tx_ok org d0 d' /\ observed_ok org (rProvider row) d' ob)) as Hrest.
  { intros d1 Hok1 E. apply txp_bind. destruct (b2 && _).
    - eapply txp_mono; [|apply settleDocument_ok, Hok1]. intros [] d' [Hok' [l ->]]. apply txp_ret.
      split; [by eapply tx_ok_trans|]. split; [|done]. cbn. by rewrite E.
    - apply txp_ret. split; [done|]. split; [|done]. by rewrite E. }
  destruct b1; [|by apply txp_ret, Hrest].
  apply txp_bind, txp_MustAmount. intros a _. apply txp_bind, txp_MustAmount. intros b _.
  destruct (cmp_gt a b); [|by apply txp_ret, Hrest].
  eapply txp_mono; [|apply queueRefundRecheck_ok, Hok]. intros [] d' [Hok' [l ->]].
  apply Hrest; [by eapply tx_ok_trans|done].
Qed.

Lemma observe_tx_ok org provider o source e d :
  db_inv d -> txp (observe_tx org provider o source) e d (fun ob d' => tx_ok org d d' /\ observed_ok org provider d' ob).
Proof.
  intros Hd. unfold observe_tx. apply txp_bind, txp_now. apply txp_bind, txp_findPayment.
  intros [row|] Hrow; [|by apply observe_orphan_ok]. destruct (Hrow row eq_refl) as (Hin & Ho & <-).
  set (decision := ObserveOutcome (payment row) o). set (corrected := correction row decision o source).
  apply txp_bind, txp_record_event. intros dup evs Hevs Hcorr Hk.
  assert (Hsame : forall r, r ∈ d_payments d -> same_id row r = true -> r = row) by (intros; by apply (same_id_eq d)).
  assert (Hmove : forall cols applied, observed_columns row o applied cols ->
    (applied = true -> bool_decide (oDecision decision = Apply) || corrected = true) ->
    payments_move org (d_events d ++ evs) d (same_id row) cols).
  { intros cols applied Hc Happ r Hr Hw. rewrite (Hsame r Hr Hw). split; [done|].
    rewrite update_status. unfold observed_columns in Hc. rewrite Hc. destruct applied; [|apply rtc_refl].
    apply rtc_once. specialize (Happ eq_refl). apply orb_true_iff in Happ as [E%bool_decide_eq_true|E].
    - by apply (Apply_audited _ _ _ (payment row)).
    - by apply audited_correction, Hcorr. }
  destruct (dup && negb corrected).
  - apply txp_bind, txp_update_payments. intros Hp. apply txp_ret. split; [|by split].
    apply (recorded_update_ok org d evs); [done..|by apply (Hmove _ false)|done].
  - apply txp_bind, txp_changes. intros cols Hc. apply txp_bind, txp_update_payments. intros Hp.
    assert (Hok : tx_ok org d (with_payments (with_events d (d_events d ++ evs))
      (update_where (same_id row) (update_payment ([c_last_checked_at (e_now e); c_updated_at (e_now e)] ++ cols)) (d_payments d)))).
    { apply (recorded_update_ok org d evs); [done..|by eapply Hmove|done]. }
    apply txp_bind, txp_take_payment. intros [stored|] Hst; [|done].
    destruct (Hst stored eq_refl) as [Hsin Hsid].
    apply observe_rest_ok; [exact Hok|]. split; cbn.
    + intros r. destruct (_ && _ : bool); [|done]. intros [= <-]. split; [done|].
      cbn in Hsin. apply elem_of_update_where in Hsin as (x & Hx & ->).
      destruct (same_id row x) eqn:Ex; [by rewrite (Hsame x)|].
      exfalso. unfold same_id in *. congruence.
    + intros a. destruct (bool_decide (oDecision decision = Anomaly) || corrected); [|done]. by intros [= <-].
Qed.

(** ** Refunds *)

Lemma qsum_Permutation l k : l ≡ₚ k -> (qsum l == qsum k)%Q.
Proof. induction 1; cbn -[Qplus]; lra. Qed.

Lemma qsum_plus {A} (f g h : A -> Q) l :
  (forall x, x ∈ l -> (f x + g x == h x)%Q) -> (qsum (map f l) + qsum (map g l) == qsum (map h l))%Q.
Proof.
  induction l as [|x l IH]; intros Hx; cbn -[Qplus]; [lra|].
  specialize (IH ltac:(intros; apply Hx; set_solver)). specialize (Hx x ltac:(set_solver)). lra.
Qed.

Lemma qsum_filter {A} (w : A -> bool) (f : A -> Q) l :
  (forall x, x ∈ l -> w x = false -> (f x == 0)%Q) -> (qsum (map f (List.filter w l)) == qsum (map f l))%Q.
Proof.
  induction l as [|x l IH]; intros Hx; cbn -[Qplus]; [done|].
  specialize (IH ltac:(intros; apply Hx; [set_solver|done])). specialize (Hx x ltac:(set_solver)).
  destruct (w x); cbn -[Qplus]; [lra|]. specialize (Hx eq_refl). lra.
Qed.

(** What [Refundable] counts is what the tables reserve. *)
Lemma counted_reserved org d r rows :
  db_inv d -> r ∈ d_payments d -> rOrg r = org ->
  rows ≡ₚ List.filter (fun f => String.eqb (fOrg f) org && String.eqb (fPaymentID f) (rID r)) (d_refunds d) ->
  (counted (payment r) done_statuses (map refund rows) + counted (payment r) open_statuses (map refund rows) ==
   reserved (rID r) (d_refunds d))%Q.
Proof.
  intros Hd Hin Ho Hrows. unfold counted, reserved. rewrite !map_map.
  rewrite (qsum_plus _ _ (held_value (rID r))).
  - rewrite (qsum_Permutation _ _ (Permutation_map _ Hrows)). apply qsum_filter.
    intros f Hf. unfold held_value. destruct (String.eqb_spec (fPaymentID f) (rID r)) as [E|]; [|done].
    destruct (inv_refunds _ Hd f Hf) as (_ & r' & Hin' & E1 & E2).
    assert (r' = r) as -> by (apply (unique_payment d); congruence). rewrite <- E2, Ho, String.eqb_refl. done.
  - intros f _. unfold counts_for, in_statuses, held_value. cbn -[Qplus].
    destruct (String.eqb (fPaymentID f) (rID r)); cbn -[Qplus]; [|lra].
    destruct (fStatus f); cbn -[Qplus]; decide_closed; cbn -[Qplus]; try lra.
Qed.

Lemma CheckRefund_replay p rs next r : CheckRefund p rs next = Ok (Some r) -> r ∈ rs.
Proof.
  unfold CheckRefund. rewrite require_bind_Ok. intros [_ Hc]. apply bind_Ok in Hc as (amount & _ & Hc).
  destruct (find_key _ _ _ _) as [[x|]|] eqn:Ef; [|done|].
  - injection Hc as <-. by apply find_key_Some in Ef as [? _].
  - rewrite !require_bind_Ok in Hc. destruct Hc as (_ & _ & _ & _ & _ & Hc).
    apply bind_Ok in Hc as (left & _ & Hc). rewrite require_bind_Ok in Hc. by destruct Hc.
Qed.

(** A refund row and its payment, as they were read. *)
Record refund_of (org : string) (d : db) (pay : paymentRow) (f : refundRow) : Prop := {
  ro_payment : pay ∈ d_payments d;
  ro_refund : f ∈ d_refunds d;
  ro_org : rOrg pay = org /\ fOrg f = org;
  ro_of : fPaymentID f = rID pay;
  ro_pending : fStatus f = RefundPending
}.

Definition refund_outcome_ok (org : string) (req : RefundRequest) (d' : db) (out : refund_outcome) : Prop :=
  match out with
  | Created pay f => refund_of org d' pay f /\ fDestination f = xDestination req
  | Recheck pay f => refund_of org d' pay f /\ fDestination f = RefundToOriginal
  | Answered _ => True
  end.

Lemma create_refund_tx_ok org req e d :
  db_inv d -> txp (create_refund_tx org req) e d (fun out d' => tx_ok org d d' /\ refund_outcome_ok org req d' out).
Proof.
  intros Hd. unfold create_refund_tx. apply txp_bind, txp_find_payment_row. intros row Hin Ho _.
  apply txp_bind, txp_refundsOf. intros rows Hrows.
  assert (Hrow : forall x, x ∈ rows -> x ∈ d_refunds d /\ fOrg x = org /\ fPaymentID x = rID row).
  { intros x. rewrite Hrows, !list_elem_of_In, filter_In, andb_true_iff, !String.eqb_eq. done. }
  destruct (CheckRefund _ _ _) as [[replay|]|] eqn:Hc; [| |done].
  - apply CheckRefund_replay, list_elem_of_fmap in Hc as (x & -> & Hx).
    destruct (Hrow x Hx) as (Hxin & Hxo & Hxp). cbn [rfStatus rfDestination rfID refund].
    destruct (bool_decide_reflect (fStatus x = RefundPending)) as [Hs|]; cbn [andb];
      [|apply txp_ret; by split; [apply tx_ok_refl|]].
    destruct (bool_decide_reflect (fDestination x = RefundToOriginal)) as [Hdst|]; cbn [andb];
      [|apply txp_ret; by split; [apply tx_ok_refl|]].
    apply txp_bind, txp_take_refund. intros [f|] Hf; [|done]. destruct (Hf f eq_refl) as [Hfin Hw].
    unfold same_refund in Hw. rewrite andb_true_iff, !String.eqb_eq in Hw. destruct Hw as [_ Hid].
    assert (f = x) as -> by (by apply (unique_refund d)).
    apply txp_ret. split; [by apply tx_ok_refl|]. split; [|done]. by split.
  - destruct (bool_decide _ && _) eqn:Ecash; [done|].
    apply txp_bind, txp_now, txp_bind, txp_id, txp_bind, txp_create_refund. intros Hk. apply txp_ret.
    set (f := new_refund_row (e_id e) org row req (e_now e)) in *.
    apply CheckRefund_new in Hc as (amount & left & Ha & Hl & Hpos & Hle & Hcnt & _ & _).
    destruct (Refundable_value _ _ _ Hl Hcnt) as (total & rec & Ht & _ & Hlv).
    pose proof (counted_reserved org d row rows Hd Hin Ho Hrows) as Hres.
    destruct (norm_Ok (xAmount req) amount Ha) as (_ & Hn1). destruct (norm_Ok _ _ Hn1) as (_ & Hn2).
    destruct (inv_payments _ Hd row Hin) as (a & Hpa & Hapos).
    assert (total = a) as ->. { destruct (norm_Ok _ _ Hpa) as (_ & Hp). cbn in Ht. congruence. }
    split.
    + apply (new_refund_ok org d f row a); try done.
      * exists amount. split; [exact Hn2|done].
      * unfold refund_value. change (rfAmount (refund f)) with (norm (norm (xAmount req))). rewrite Hn2.
        pose proof (Q.le_max_r rec (counted (payment row) done_statuses (map refund rows))).
        destruct (Q.max_spec 0 (a - Qmax rec (counted (payment row) done_statuses (map refund rows)) -
          counted (payment row) open_statuses (map refund rows))) as [[? E]|[? E]]; rewrite E in Hlv; lra.
    + split; [|done]. split; cbn; try done. set_solver.
Qed.

(** Matching by primary key selects the row that was read, as it is now. *)
Lemma refund_id_move org d f cols (w : refundRow -> bool) :
  db_inv d -> f ∈ d_refunds d -> fOrg f = org -> (forall x, w x = true -> fID x = fID f) ->
  (w f = true -> refund_le f (update_refund cols f)) -> refunds_move org d w cols.
Proof.
  intros Hd Hin Ho Hw Hle x Hx E. assert (x = f) as -> by (apply (unique_refund d); auto). auto.
Qed.

Ltac set_ifs := unfold set_if; repeat match goal with |- context [if ?b then _ else _] => destruct b eqn:? end.

Lemma refund_cols_le r st providerID instructions reason now :
  refund_le r (update_refund (refund_cols r st providerID instructions reason now) r).
Proof.
  assert (fNeedsReview (update_refund (refund_cols r st providerID instructions reason now) r) = fNeedsReview r) as Hv.
  { unfold refund_cols. by destruct (_ && CanTransitionRefund _ _); set_ifs. }
  split; [done|]. split_and!; [..|rewrite Hv; auto]; unfold refund_cols.
  - destruct (negb (bool_decide (st = fStatus r)) && CanTransitionRefund (fStatus r) st) eqn:Em; [right|left; by set_ifs].
    apply andb_true_iff in Em as [_ Em]. set_ifs; exact Em.
  - destruct (String.eqb_spec (fProviderRefundID r) "") as [|Hne]; [by left|]. right. rewrite andb_false_r.
    by destruct (_ && CanTransitionRefund _ _); set_ifs.
Qed.

Lemma update_refund_tx_ok org id st providerID instructions reason e d :
  db_inv d -> txp (update_refund_tx org id st providerID instructions reason) e d (fun _ d' => tx_ok org d d').
Proof.
  intros Hd. unfold update_refund_tx. apply txp_bind, txp_take_refund. intros [r|] Hr; [|done].
  destruct (Hr r eq_refl) as [Hin Hw]. unfold same_refund in Hw. rewrite andb_true_iff, !String.eqb_eq in Hw.
  apply txp_bind, txp_now, txp_bind, txp_update_refunds. intros Hk. apply txp_ret.
  apply ok_update_refunds; [done| |done]. apply (refund_id_move _ _ r); [done..|tauto| |].
  - intros x Hx. apply andb_true_iff in Hx as [Hx%String.eqb_eq _]. done.
  - intros _. apply refund_cols_le.
Qed.

Lemma settle_refund_tx_ok org rid req e d :
  db_inv d -> txp (settle_refund_tx org rid req) e d (fun _ d' => tx_ok org d d').
Proof.
  intros Hd. unfold settle_refund_tx. apply txp_bind, txp_take_refund. intros [r|] Hr; [|done].
  destruct (Hr r eq_refl) as [Hin Hw]. unfold same_refund in Hw. rewrite andb_true_iff, !String.eqb_eq in Hw.
  apply txp_bind, txp_now. set (moves := negb (bool_decide (sStatus req = RefundOther "")) && _).
  apply txp_bind, txp_throw_if. intros Hcan. apply txp_bind, txp_update_refunds. intros Hk. apply txp_ret.
  apply ok_update_refunds; [done| |done]. apply (refund_id_move _ _ r); [done..|tauto| |].
  - intros x Hx%String.eqb_eq. done.
  - intros _. split; [done|]. destruct moves.
    + cbn [andb] in Hcan. apply negb_false_iff in Hcan.
      split_and!; [right; set_ifs; done..|]. intros _. right. apply refund_transition_pending in Hcan. set_ifs; exact Hcan.
    + split_and!; [left; set_ifs; done|right; set_ifs; done|]. intros Hv. left. rewrite <- Hv. by set_ifs.
Qed.

Lemma StatusAfterRefunds_captured a b : Captured (StatusAfterRefunds a b) = true.
Proof. unfold StatusAfterRefunds. by repeat case_match. Qed.

Lemma ApplySucceededRefunds_captured p rs p' :
  ApplySucceededRefunds p rs = Ok p' -> Captured (pStatus p) = true /\ Captured (pStatus p') = true.
Proof.
  unfold ApplySucceededRefunds. rewrite require_bind_Ok. intros [Hc Hr]. split; [done|].
  apply bind_Ok in Hr as (a & _ & Hr). apply bind_Ok in Hr as (x & _ & Hr).
  rewrite require_bind_Ok in Hr. destruct Hr as [_ Hr]. apply bind_Ok in Hr as (rec & _ & Hr).
  injection Hr as <-. apply StatusAfterRefunds_captured.
Qed.

Lemma apply_refunds_tx_ok org id e d :
  db_inv d -> txp (apply_refunds_tx org id) e d (fun out d' => tx_ok org d d' /\
    forall row, out = Some row -> row ∈ d_payments d' /\ rOrg row = org).
Proof.
  intros Hd. unfold apply_refunds_tx. apply txp_bind, txp_payment_by_id. intros row Hin Ho _.
  apply txp_bind, txp_refundsOf. intros rows _. destruct (ApplySucceededRefunds _ _) as [p'|] eqn:Ea; [|done].
  destruct (negb (_ || _)); [apply txp_ret; split; [by apply tx_ok_refl|done]|].
  apply txp_bind, txp_now, txp_bind, txp_update_payments. intros Hk.
  apply ApplySucceededRefunds_captured in Ea as [Hc1 Hc2].
  apply txp_bind, txp_take_payment. intros [stored|] Hst; [|done]. apply txp_ret.
  destruct (Hst stored eq_refl) as [Hsin Hsid]. split.
  - apply ok_update_payments; [done| |done]. intros r Hr Hw. rewrite (same_id_eq d row r) by done.
    split; [done|]. by apply rtc_once, audited_refunds.
  - intros r [= <-]. split; [done|]. cbn in Hsin. apply elem_of_update_where in Hsin as (x & Hx & ->).
    destruct (same_id row x) eqn:Ex; [by rewrite (same_id_eq d row x)|]. exfalso. unfold same_id in *. congruence.
Qed.
End ledger.
