(* ===== verification/LedgerWorld.v ===== *)
(** * Payments ledger: replicas running operations at once

    [safe org own d0 p Q]: started when the database is any [d] with
    [ledger_le d0 d], the program [p] of organization [org] keeps [tx_ok] in
    each transaction, asks a provider to collect only for the payments
    [own] it created and has not sent yet, and to refund only what a refund
    row holds; [Q] is what it returns.  [world_step] interleaves the
    transactions, questions and crashes of any number of operations, and
    the theorems hold in every reachable world. *)

From Stdlib Require Import QArith Qminmax Lqa.
From S2P Require Import Prelude GoStrings PayStatus PayAmount PayModel PayHold PayRefund PaySettle PayObserve.
From S2P Require Import LedgerStore LedgerProg LedgerObserve LedgerCharge LedgerRefund LedgerReconcile LedgerInv LedgerSafe.

Open Scope Z_scope.

(** ** What an operation knows of the tables *)

Definition known_payment (org : string) (d : db) (pay : paymentRow) : Prop :=
  rOrg pay = org /\ exists r, r ∈ d_payments d /\ payment_fixed r = payment_fixed pay.
Definition known_refund (org : string) (d : db) (f : refundRow) : Prop :=
  fOrg f = org /\ exists g, g ∈ d_refunds d /\ refund_fixed g = refund_fixed f.

Lemma known_payment_mono org d d' pay : ledger_le d d' -> known_payment org d pay -> known_payment org d' pay.
Proof.
  intros (evs & _ & Hp & _) (Ho & r & Hr & E). split; [done|].
  destruct (ext_in _ _ _ _ Hp Hr) as (r' & Hr' & [F _]). exists r'. split; [done|congruence].
Qed.
Lemma known_refund_mono org d d' f : ledger_le d d' -> known_refund org d f -> known_refund org d' f.
Proof.
  intros (evs & _ & _ & Hp) (Ho & r & Hr & E). split; [done|].
  destruct (ext_in _ _ _ _ Hp Hr) as (r' & Hr' & [F _]). exists r'. split; [done|congruence].
Qed.
Lemma known_payment_in org d r : r ∈ d_payments d -> rOrg r = org -> known_payment org d r.
Proof. intros ? ?. split; [done|]. by exists r. Qed.
Lemma known_refund_in org d r : r ∈ d_refunds d -> fOrg r = org -> known_refund org d r.
Proof. intros ? ?. split; [done|]. by exists r. Qed.

(** ** Questions and messages *)

Definition is_charge (q : query) : bool :=
  String.eqb (q_capability q) CommercePaymentsSession || String.eqb (q_capability q) CommercePaymentsTerminalCreate.

(** The payment a collection is about: its organization, provider and key. *)
Definition charge_key (q : query) : option key :=
  if is_charge q then
    match q_input q !! "idempotency_key"%string with
    | Some (VStr k) => Some (q_org q, q_provider q, k)
    | _ => None
    end
  else None.

(** A refund request is backed by a refund row of a payment row: the provider
    is the payment's, the amount, currency and key are the refund's. *)
Definition refund_backed (org : string) (d : db) (q : query) : Prop :=
  exists pay f, known_payment org d pay /\ known_refund org d f /\ fPaymentID f = rID pay /\
    fDestination f = RefundToOriginal /\ q_provider q = rProvider pay /\
    q_input q !! "amount"%string = Some (VStr (fAmount f)) /\
    q_input q !! "currency"%string = Some (VStr (fCurrency f)) /\
    q_input q !! "idempotency_key"%string = Some (VStr (fIdempotencyKey f)).

(** A collection is for a payment row: its provider, key, amount and currency. *)
Definition charge_backed (org : string) (d : db) (q : query) : Prop :=
  exists pay, known_payment org d pay /\ charge_key q = Some (payment_key pay) /\
    q_input q !! "amount"%string = Some (VStr (rAmount pay)) /\
    q_input q !! "currency"%string = Some (VStr (rCurrency pay)).

Definition ask_ok (org : string) (d : db) (q : query) : Prop :=
  q_org q = org /\ (q_capability q = CommercePaymentsRefund -> refund_backed org d q) /\
  (is_charge q = true -> charge_backed org d q).

(** A confirmation is about a payment of the organization, under its
    provider's name. *)
Definition say_ok (org : string) (d : db) (n : note) : Prop :=
  match n with
  | Confirmation c => cfOrganizationID c = org /\
      exists r, known_payment org d r /\ cfProvider c = rProvider r /\ cfEmitter c = rProvider r /\
        cfPaymentID c = rID r /\ cfDocumentType c = rDocumentType r /\ cfDocumentID c = rDocumentID r
  | Raised a => aOrg a = org
  end.

Lemma ask_ok_mono org d d' q : ledger_le d d' -> ask_ok org d q -> ask_ok org d' q.
Proof.
  intros Hle (Ho & Hr & Hc). split_and!; [done|..]; intros E.
  - destruct (Hr E) as (pay & f & Hp & Hf & ?).
    exists pay, f. split_and!; try tauto; [by eapply known_payment_mono|by eapply known_refund_mono].
  - destruct (Hc E) as (pay & Hp & ?). exists pay. split; [by eapply known_payment_mono|done].
Qed.
Lemma say_ok_mono org d d' n : ledger_le d d' -> say_ok org d n -> say_ok org d' n.
Proof.
  intros Hle. destruct n as [c|a]; [|done]. intros (Ho & r & Hr & ?). split; [done|].
  exists r. split; [by eapply known_payment_mono|done].
Qed.

(** ** Safe programs *)

Fixpoint safe {A : Type} (org : string) (own : gset key) (d0 : db) (p : prog A)
    (Q : gset key -> db -> A -> Prop) {struct p} : Prop :=
  match p with
  | Done a => Q own d0 a
  | Tx t k => forall e d, db_inv d -> ledger_le d0 d ->
      match t e d with
      | Ok (x, d') => tx_ok org d d' /\ safe org (own ∪ (keys d' ∖ keys d)) d' (k (Ok x)) Q
      | Err err => safe org own d (k (Err err)) Q
      end
  | Ask q k => ask_ok org d0 q /\
      match charge_key q with
      | Some c => c ∈ own /\ forall a, safe org (own ∖ {[c]}) d0 (k a) Q
      | None => forall a, safe org own d0 (k a) Q
      end
  | Say n k => say_ok org d0 n /\ safe org own d0 k Q
  end.

Lemma safe_mono {A : Type} (org : string) (p : prog A) (own : gset key) (d0 : db) (Q Q' : gset key -> db -> A -> Prop) :
  (forall own' d a, Q own' d a -> Q' own' d a) -> safe org own d0 p Q -> safe org own d0 p Q'.
Proof.
  intros HQ. revert own d0. induction p as [a|X t k IH|q k IH|n k IH]; intros own d0; cbn [safe].
  - apply HQ.
  - intros H e d Hd Hle. specialize (H e d Hd Hle). destruct (t e d) as [[x d']|err]; [|by apply IH].
    destruct H as [? H]. split; [done|]. by apply IH.
  - intros [Ha H]. split; [done|]. destruct (charge_key q); [|intros a; by apply IH].
    destruct H as [? H]. split; [done|]. intros a. by apply IH.
  - intros [? H]. split; [done|]. by apply IH.
Qed.

Lemma safe_bind {A B : Type} (org : string) (p : prog A) (f : A -> prog B) (own : gset key) (d0 : db) Q :
  safe org own d0 p (fun own d a => safe org own d (f a) Q) -> safe org own d0 (p ≫= f) Q.
Proof.
  unfold mbind, prog_MBind. revert own d0.
  induction p as [a|X t k IH|q k IH|n k IH]; intros own d0; cbn [safe prog_bind].
  - done.
  - intros H e d Hd Hle. specialize (H e d Hd Hle). destruct (t e d) as [[x d']|err]; [|by apply IH].
    destruct H as [? H]. split; [done|]. by apply IH.
  - intros [Ha H]. split; [done|]. destruct (charge_key q); [|intros a; by apply IH].
    destruct H as [? H]. split; [done|]. intros a. by apply IH.
  - intros [? H]. split; [done|]. by apply IH.
Qed.

Lemma safe_ret {A : Type} (org : string) (own : gset key) (d0 : db) (a : A) (Q : gset key -> db -> A -> Prop) : Q own d0 a -> safe org own d0 (mret a) Q.
Proof. done. Qed.

Lemma safe_transaction {X : Type} (org : string) (own : gset key) (d0 : db) (t : tx X) (Q : gset key -> db -> result lerr X -> Prop) :
  (forall e d, db_inv d -> ledger_le d0 d -> txp t e d (fun x d' => tx_ok org d d' /\
     forall own', own ∪ (keys d' ∖ keys d) ⊆ own' -> Q own' d' (Ok x))) ->
  (forall d err, db_inv d -> ledger_le d0 d -> Q own d (Err err)) ->
  safe org own d0 (transaction t) Q.
Proof.
  intros Hok Herr e d Hd Hle. specialize (Hok e d Hd Hle). unfold txp in Hok.
  destruct (t e d) as [[x d']|err]; [|by apply Herr]. destruct Hok as [? HQ]. split; [done|]. by apply HQ.
Qed.

Lemma safe_now (org : string) (own : gset key) (d0 : db) (Q : gset key -> db -> Z -> Prop) :
  (forall d now own', db_inv d -> ledger_le d0 d -> own ⊆ own' -> Q own' d now) -> safe org own d0 prog_now Q.
Proof.
  intros HQ e d Hd Hle. cbn. split; [by apply tx_ok_refl|]. apply HQ; set_solver.
Qed.

Lemma safe_say (org : string) (own : gset key) (d0 : db) (n : note) (Q : gset key -> db -> unit -> Prop) :
  say_ok org d0 n -> Q own d0 tt -> safe org own d0 (say n) Q.
Proof. done. Qed.

(** A question that is not a collection. *)
Lemma safe_ask (org : string) (own : gset key) (d0 : db) (q : query) (Q : gset key -> db -> answer -> Prop) :
  ask_ok org d0 q -> is_charge q = false -> (forall a, Q own d0 a) -> safe org own d0 (ask q) Q.
Proof.
  intros Ha Hc HQ. cbn [safe ask]. split; [done|]. unfold charge_key. rewrite Hc. done.
Qed.

(** ** The operations *)

Section ledger.
Context `{LedgerEnv} (cfg : Config).
Implicit Types (own : gset key) (d : db) (org : string).

(** The database only grows along a program. *)
Definition grows {A : Type} (d0 : db) : gset key -> db -> A -> Prop := fun _ d _ => ledger_le d0 d.

(** Return: the database grew. *)
Ltac growing := unfold grows in *; repeat first [assumption | reflexivity | etrans; [eassumption|]].
Ltac grown := intros; apply safe_ret; growing.

Lemma tx_ok_le org d0 d d' : ledger_le d0 d -> tx_ok org d d' -> ledger_le d0 d'.
Proof. intros ? (_ & ? & _). by etrans. Qed.

Lemma safe_commit {X : Type} org own d0 (t : tx X) :
  (forall e d, db_inv d -> ledger_le d0 d -> txp t e d (fun _ d' => tx_ok org d d')) ->
  safe org own d0 (transaction t) (grows d0).
Proof.
  intros Ht. apply safe_transaction; [|by intros].
  intros e d Hd Hle. eapply txp_mono; [|by apply Ht]. intros x d' Hok. split; [done|].
  intros own' _. exact (tx_ok_le _ _ _ _ Hle Hok).
Qed.

(** A bind whose first part needs nothing more than [grows]. *)
Lemma safe_then {A B : Type} org own d0 (p : prog A) (f : A -> prog B) (Q : gset key -> db -> B -> Prop) :
  safe org own d0 p (grows d0) ->
  (forall own' d a, ledger_le d0 d -> safe org own' d (f a) Q) ->
  safe org own d0 (p ≫= f) Q.
Proof. intros Hp Hf. apply safe_bind. eapply safe_mono; [|exact Hp]. intros own' d a Hle. by apply Hf. Qed.

Lemma grows_from {A : Type} d0 d own d' (a : A) : ledger_le d0 d -> grows d own d' a -> grows d0 own d' a.
Proof. unfold grows. intros ? ?. by etrans. Qed.

(** Continue from a grown database. *)
Lemma safe_grown {A : Type} org own d0 d (p : prog A) :
  ledger_le d0 d -> safe org own d p (grows d) -> safe org own d p (grows d0).
Proof. intros Hle. apply safe_mono. intros own' d' a. by apply grows_from. Qed.

Lemma publish_safe org own d0 row o source :
  known_payment org d0 row -> safe org own d0 (publish cfg org row o source) (grows d0).
Proof.
  intros Hk. unfold publish. destruct (negb _); [grown|].
  apply safe_bind, safe_now. intros d now own' _ Hle _. apply safe_say; [|growing].
  split; [done|]. exists row. split; [by eapply known_payment_mono|done].
Qed.

Lemma observe_safe org own d0 provider o source :
  safe org own d0 (observe cfg org provider o source) (grows d0).
Proof.
  unfold observe. destruct (negb _); [grown|].
  apply safe_bind, safe_transaction; [|grown].
  intros e d Hd Hle. eapply txp_mono; [|by apply observe_tx_ok]. intros ob d' [Hok [Hp Ha]]. split; [done|].
  intros own' _. pose proof (tx_ok_le _ _ _ _ Hle Hok) as Hle'. clear own. rename own' into own.
  apply safe_then.
  { destruct (ob_anomaly ob) as [a|]; [|grown]. apply safe_say; [by apply Ha|growing]. }
  clear own. intros own d2 _ Hle2. apply safe_then.
  { destruct (ob_publish ob) as [row|]; [|grown].
    destruct (Hp row eq_refl) as (Hin & Ho & _). apply publish_safe. eapply known_payment_mono; [exact Hle2|]. by apply known_payment_in. }
  grown.
Qed.

Lemma Observe_safe org own d0 caller provider o source :
  safe org own d0 (Observe cfg org caller provider o source) (grows d0).
Proof.
  unfold Observe. assert (forall p, safe org own d0
    (if blank p then mret (no_observation, Some (Coded CodeInvalidInput))
     else observe cfg org p o (if String.eqb source "" then SourceWebhook else source)) (grows d0)) as Hgo.
  { intros p. destruct (blank p); [grown|]. apply observe_safe. }
  destruct (String.eqb caller ""); [apply Hgo|]. destruct (_ && _); [grown|].
  destruct (cfgIsPaymentsProvider cfg) as [f|]; [|grown].
  destruct (f org caller) as [[]|]; [apply Hgo|grown..].
Qed.

(** ** Holds and reads *)

Lemma AcquireHold_safe org own d0 req caller : safe org own d0 (AcquireHold org req caller) (grows d0).
Proof.
  unfold AcquireHold. destruct (_ || _); [grown|]. apply safe_commit. intros. by apply acquire_tx_ok.
Qed.
Lemma ReleaseHold_safe org own d0 t i token force : safe org own d0 (ReleaseHold org t i token force) (grows d0).
Proof. apply safe_commit. intros. by apply release_tx_ok. Qed.
Lemma GetDocument_safe org own d0 t i : safe org own d0 (GetDocument org t i) (grows d0).
Proof.
  unfold GetDocument. destruct (_ || _); [grown|]. apply safe_commit. intros e d Hd _.
  apply txp_document. intros. by apply tx_ok_refl.
Qed.
Lemma GetPayment_safe org own d0 id : safe org own d0 (GetPayment org id) (grows d0).
Proof.
  apply safe_commit. intros e d Hd _. apply txp_bind, txp_find_payment_row. intros. by apply txp_ret, tx_ok_refl.
Qed.

Lemma reread_payment_safe org own d0 id : safe org own d0 (reread_payment org id) (grows d0).
Proof.
  apply safe_commit. intros e d Hd _. apply txp_bind, txp_payment_by_id. intros. by apply txp_ret, tx_ok_refl.
Qed.

(** ** Updates of a payment that was read *)

Lemma known_same_id org d row r :
  db_inv d -> known_payment org d row -> r ∈ d_payments d -> rID r = rID row -> rOrg r = org.
Proof.
  intros Hd (Ho & x & Hx & F) Hr E. apply payment_fixed_fields in F as (E1 & E2 & _).
  assert (r = x) as -> by (apply (unique_payment d); congruence). congruence.
Qed.

(** A statement on the payments of the organization that moves no status
    but along the lifecycle. *)
Lemma safe_update_payments org own d0 (w : paymentRow -> bool) (cols : Z -> list pcol) :
  (forall d r now, db_inv d -> ledger_le d0 d -> r ∈ d_payments d -> w r = true ->
     rOrg r = org /\
     (rStatus (update_payment (cols now) r) = rStatus r \/
      Reachable (rStatus r) (rStatus (update_payment (cols now) r)) = true)) ->
  safe org own d0 (transaction (now ← tx_now; update_payments w (cols now))) (grows d0).
Proof.
  intros Hw. apply safe_commit. intros e d Hd Hle. apply txp_bind, txp_now, txp_update_payments. intros Hk.
  apply ok_update_payments; [done| |done]. intros r Hr E. destruct (Hw d r (e_now e) Hd Hle Hr E) as [Ho Hs].
  split; [done|]. destruct Hs as [->|Hs]; [apply rtc_refl|]. by apply rtc_once, audited_lifecycle.
Qed.

Lemma same_payment_org org id r : same_payment org id r = true -> rOrg r = org.
Proof. unfold same_payment. rewrite andb_true_iff, !String.eqb_eq. tauto. Qed.

Lemma touch_safe org own d0 id detail : safe org own d0 (touch org id detail) (grows d0).
Proof. apply safe_update_payments. intros d r now _ _ _ E. split; [by eapply same_payment_org|by left]. Qed.

Lemma markFailed_safe org own d0 id detail : safe org own d0 (markFailed org id detail) (grows d0).
Proof.
  apply safe_update_payments. intros d r now _ _ _ E. apply andb_true_iff in E as [E Es%bool_decide_eq_true].
  split; [by eapply same_payment_org|]. right. rewrite Es. by vm_compute.
Qed.

Lemma mark_cancelling_safe org own d0 row :
  known_payment org d0 row -> safe org own d0 (mark_cancelling row) (grows d0).
Proof.
  intros Hk. unfold mark_cancelling. destruct (Transition _ _) as [[]|] eqn:Et; [|grown].
  apply safe_then; [|grown].
  apply (safe_update_payments org own d0 _ (fun now => [c_status StatusCancelling; c_cancelled_from (rStatus row); c_updated_at now])).
  intros d r now Hd Hle Hr E. apply andb_true_iff in E as [E%String.eqb_eq Es%bool_decide_eq_true].
  split; [eapply known_same_id; [done|by eapply known_payment_mono|done..]|]. right. rewrite Es. cbn.
  revert Et. destruct (rStatus row); vm_compute; done.
Qed.

(** ** Re-reading and cancelling *)

Lemma readStatus_safe org own d0 p :
  safe org own d0 (readStatus cfg org p) (grows d0).
Proof.
  unfold readStatus. destruct (negb _); [grown|]. apply safe_bind, safe_ask; [by split_and!|done|].
  grown.
Qed.

Lemma Refresh_safe org own d0 id source : safe org own d0 (Refresh cfg org id source) (grows d0).
Proof.
  unfold Refresh. apply safe_bind, safe_transaction; [|grown].
  intros e d Hd Hle. apply txp_find_payment_row. intros row Hin Ho _. split; [by apply tx_ok_refl|].
  intros own' _. destruct (String.eqb _ _); [grown|].
  apply safe_then; [apply readStatus_safe|]. intros own2 d2 [o|[err msg]] Hle2.
  - eapply safe_grown; [|apply observe_safe]. by etrans.
  - apply safe_then; [|grown].
    apply (safe_update_payments org own2 d2 (same_id row) (fun now => [c_last_checked_at now; c_status_detail (truncate ("status: " +:+ msg) 500)])).
    intros d3 r now Hd3 Hle3 Hr E%String.eqb_eq. split; [|by left].
    eapply known_same_id; [done| |done..]. apply (known_payment_mono _ d); [growing|]. by apply known_payment_in.
Qed.

Lemma Cancel_safe org own d0 id k reason : safe org own d0 (Cancel cfg org id k reason) (grows d0).
Proof.
  unfold Cancel. apply safe_bind, safe_transaction; [|grown].
  intros e d Hd Hle. apply txp_find_payment_row. intros row Hin Ho _. split; [by apply tx_ok_refl|].
  intros own' _. destruct (blank k); [grown|]. destruct (negb _); [grown|].
  destruct (negb _); [grown|]. apply safe_bind, safe_ask; [by split_and!|done|]. intros a.
  apply safe_then.
  { destruct (one a) as [raw|]; [|grown]. destruct (_ && _); [|grown].
    apply mark_cancelling_safe. by apply known_payment_in. }
  intros own2 d2 _ Hle2. apply safe_then; [apply Refresh_safe|].
  intros own3 d3 [obs rerr] Hle3. grown.
Qed.

(** ** Refunds *)

Lemma updateRefund_safe org own d0 id st providerID instructions reason :
  safe org own d0 (updateRefund org id st providerID instructions reason) (grows d0).
Proof. apply safe_commit. intros. by apply update_refund_tx_ok. Qed.

Lemma refundResult_safe org own d0 id res : safe org own d0 (refundResult org id res) (grows d0).
Proof.
  unfold refundResult. apply safe_then.
  { apply safe_commit. intros e d Hd Hle. apply txp_bind, txp_take_refund. intros [r|] _; [|done].
    by apply txp_ret, tx_ok_refl. }
  intros own' d [r|err] Hle; [|grown]. apply safe_then; [apply reread_payment_safe|]. grown.
Qed.

Lemma applyRefunds_safe org own d0 id : safe org own d0 (applyRefunds cfg org id) (grows d0).
Proof.
  unfold applyRefunds. apply safe_bind, safe_transaction; [|grown].
  intros e d Hd Hle. eapply txp_mono; [|by apply apply_refunds_tx_ok]. intros out d' [Hok Hout]. split; [done|].
  intros own' _. pose proof (tx_ok_le _ _ _ _ Hle Hok) as Hle'. destruct out as [row|]; [|grown].
  destruct (Hout row eq_refl) as [Hin Ho]. apply safe_then; [by apply publish_safe, known_payment_in|]. grown.
Qed.

Lemma askRefund_safe org own d0 pay r q first :
  ask_ok org d0 q -> is_charge q = false -> safe org own d0 (askRefund cfg org pay r q first) (grows d0).
Proof.
  intros Hq Hc. unfold askRefund. destruct (negb _); [grown|].
  apply safe_bind, safe_ask; [done..|]. intros a.
  destruct a as [b msg| |c b msg|raw].
  1-3: destruct (_ || _); [grown|]; apply safe_then; [apply updateRefund_safe|];
    intros own' d [st|err] Hle; [|grown]; (destruct (bool_decide _); [grown|]);
    (eapply safe_grown; [exact Hle|apply refundResult_safe]).
  apply safe_then; [apply updateRefund_safe|]. intros own' d [st|err] Hle; [|grown].
  apply safe_then. { destruct (bool_decide _); [apply applyRefunds_safe|grown]. }
  intros own2 d2 [err|] Hle2; [grown|]. eapply safe_grown; [by etrans|apply refundResult_safe].
Qed.

Lemma refund_input_money p f :
  refund_input p f !! "amount"%string = Some (VStr (fAmount f)) /\
  refund_input p f !! "currency"%string = Some (VStr (fCurrency f)) /\
  refund_input p f !! "idempotency_key"%string = Some (VStr (fIdempotencyKey f)).
Proof. unfold refund_input. destruct (pSeller p); rewrite ?lookup_insert_ne by done; by split_and!. Qed.

Lemma refund_query_ok org d0 pay f :
  known_payment org d0 pay -> known_refund org d0 f -> fPaymentID f = rID pay -> fDestination f = RefundToOriginal ->
  ask_ok org d0 (refund_query org pay f) /\ is_charge (refund_query org pay f) = false.
Proof.
  intros. split; [|done]. split_and!; [done| |done]. intros _. exists pay, f.
  destruct (refund_input_money (payment pay) f) as (? & ? & ?). by split_and!.
Qed.

Lemma recheckRefund_safe org own d0 pay f :
  known_payment org d0 pay -> known_refund org d0 f -> fPaymentID f = rID pay -> fDestination f = RefundToOriginal ->
  safe org own d0 (recheckRefund cfg org pay f) (grows d0).
Proof.
  intros Hp Hf Hid Hdst. unfold recheckRefund. destruct (_ || _); [grown|].
  apply safe_bind, safe_now. intros d now own1 _ Hle _.
  pose proof (known_payment_mono _ _ _ _ Hle Hp) as Hp1. pose proof (known_refund_mono _ _ _ _ Hle Hf) as Hf1.
  apply safe_then.
  { destruct (negb _); [by apply askRefund_safe|]. destruct (negb _); [|grown].
    destruct (refund_query_ok org d pay f) as [? ?]; [done..|]. by apply askRefund_safe. }
  intros own2 d2 [res err] Hle2. destruct (negb _); [grown|]. apply safe_then.
  { apply safe_commit. intros e d3 Hd3 Hle3. apply txp_update_refunds. intros Hk. apply ok_update_refunds; [done| |done].
    assert (known_refund org d3 f) as (Ho & g & Hg & Fg) by (apply (known_refund_mono _ d); [growing|done]).
    apply refund_fixed_fields in Fg as (Eid & Eo & _).
    apply (refund_id_move _ _ g); [done..|congruence| |].
    - intros x Hx. rewrite !andb_true_iff, String.eqb_eq in Hx. destruct Hx as [[Hx _] _]. congruence.
    - intros _. unfold reschedule. destruct (past_window cfg f now); (split_and!; [done|by left|by right|by left]). }
  intros own3 d3 [n|err'] Hle3; [|grown]. destruct (_ && _); [eapply safe_grown; [growing|apply refundResult_safe]|].
  destruct (past_window cfg f now); [|grown]. apply safe_then; [apply safe_say; [|growing]|grown]. done.
Qed.

Lemma refund_of_known org d pay f :
  refund_of org d pay f -> known_payment org d pay /\ known_refund org d f /\ fPaymentID f = rID pay.
Proof. intros [? ? [? ?] ? _]. split_and!; [by apply known_payment_in|by apply known_refund_in|done]. Qed.

Lemma CreateRefund_safe org own d0 req : safe org own d0 (CreateRefund cfg org req) (grows d0).
Proof.
  unfold CreateRefund. apply safe_bind, safe_transaction; [|grown].
  intros e d Hd Hle. eapply txp_mono; [|by apply create_refund_tx_ok]. intros out d' [Hok Hout]. split; [done|].
  intros own' _. pose proof (tx_ok_le _ _ _ _ Hle Hok) as Hle'.
  destruct out as [pay f|pay f|res]; [| |grown]; destruct Hout as [Hof Hdst];
    apply refund_of_known in Hof as (Hp & Hf & Hid).
  - destruct (bool_decide_reflect (xDestination req = RefundToOriginal)) as [E|]; cbn [negb]; [|grown].
    rewrite E in Hdst. destruct (refund_query_ok org d' pay f) as [? ?]; [done..|].
    eapply safe_grown; [exact Hle'|]. by apply askRefund_safe.
  - apply safe_then; [by apply recheckRefund_safe|]. intros own2 d2 [out err] Hle2. grown.
Qed.

Lemma recheck_loop_safe org own d0 rows failed :
  (forall f, f ∈ rows -> known_refund org d0 f /\ fDestination f = RefundToOriginal) ->
  safe org own d0 (recheck_loop cfg org rows failed) (grows d0).
Proof.
  revert own d0 failed. induction rows as [|f rows IH]; intros own d0 failed Hrows; cbn [recheck_loop]; [grown|].
  destruct (Hrows f ltac:(set_solver)) as [Hf Hdst].
  assert (forall own d failed, ledger_le d0 d -> safe org own d (recheck_loop cfg org rows failed) (grows d0)) as Hrest.
  { intros own' d failed' Hle. eapply safe_grown; [exact Hle|]. apply IH. intros g Hg.
    destruct (Hrows g ltac:(set_solver)). split; [by eapply known_refund_mono|done]. }
  apply safe_bind, safe_transaction.
  - intros e d Hd Hle. apply txp_payment_by_id. intros pay Hin Ho Hid. split; [by apply tx_ok_refl|].
    intros own' _. apply safe_then; [|intros own2 d2 err Hle2; apply Hrest; by etrans].
    apply safe_then; [|intros own2 d2 [res err] Hle2; grown].
    apply recheckRefund_safe; [by apply known_payment_in|by eapply known_refund_mono|done..].
  - intros d err Hd Hle. apply safe_then; [grown|]. intros own2 d2 err2 Hle2. apply Hrest. by etrans.
Qed.

Lemma elem_of_limit {R} limit (l : list R) x : x ∈ limit_rows limit l -> x ∈ l.
Proof.
  unfold limit_rows. destruct (0 <? limit); [|done]. intros Hx. rewrite <- (firstn_skipn (Z.to_nat limit) l). set_solver.
Qed.

Lemma recheckRefunds_safe org own d0 limit : safe org own d0 (recheckRefunds cfg org limit) (grows d0).
Proof.
  unfold recheckRefunds. apply safe_bind, safe_transaction; [|grown].
  intros e d Hd Hle. apply txp_bind, txp_now, txp_bind, txp_select_refunds. intros rows Hrows. apply txp_ret.
  split; [by apply tx_ok_refl|]. intros own' _. apply safe_then; [|grown]. apply recheck_loop_safe.
  intros f Hf%elem_of_limit. rewrite Hrows, list_elem_of_In, filter_In, <- list_elem_of_In in Hf.
  destruct Hf as [Hin Hdue]. unfold due_for_recheck in Hdue.
  rewrite !andb_true_iff, String.eqb_eq, !bool_decide_eq_true in Hdue. split; [apply known_refund_in|]; tauto.
Qed.

Lemma SettleRefund_safe org own d0 req : safe org own d0 (SettleRefund cfg org req) (grows d0).
Proof.
  unfold SettleRefund. destruct (uuid_Parse _) as [rid|]; [|grown]. apply safe_then.
  { apply safe_commit. intros. by apply settle_refund_tx_ok. }
  intros own1 d1 [[id succeeded]|err] Hle1; [|grown]. apply safe_then.
  { destruct succeeded; [apply applyRefunds_safe|grown]. }
  intros own2 d2 [err|] Hle2; [grown|]. eapply safe_grown; [by etrans|apply refundResult_safe].
Qed.

(** ** Charges *)

Lemma charge_input_money req row :
  charge_input req row !! "amount"%string = Some (VStr (kAmount req)) /\
  charge_input req row !! "currency"%string = Some (VStr (kCurrency req)).
Proof.
  unfold charge_input. destruct (kSeller req) as [s|]; [rewrite !(lookup_insert_ne _ "seller"%string) by done|];
    (destruct (is_terminal req);
     [rewrite !(lookup_insert_ne _ "device_id"%string) by done|rewrite !(lookup_insert_ne _ "channel"%string) by done];
     rewrite !(lookup_insert_ne _ "idempotency_key"%string) by done;
     rewrite lookup_insert_eq, (lookup_insert_ne _ "currency"%string) by done; by rewrite lookup_insert_eq).
Qed.

Lemma charge_query_key org req row :
  charge_key (charge_query org req row) = Some (org, kProvider req, kIdempotencyKey req).
Proof.
  unfold charge_key. assert (is_charge (charge_query org req row) = true) as ->.
  { unfold charge_query. by destruct (is_terminal req). }
  assert (q_input (charge_query org req row) !! "idempotency_key"%string = Some (VStr (kIdempotencyKey req))) as ->; [|done].
  cbn [q_input charge_query]. unfold charge_input.
  destruct (kSeller req) as [s|]; [rewrite lookup_insert_ne by done|];
    (destruct (is_terminal req); rewrite lookup_insert_ne by done; by rewrite lookup_insert_eq).
Qed.

Lemma reread_safe org own d0 id res : safe org own d0 (reread org id res) (grows d0).
Proof. unfold reread. apply safe_then; [apply reread_payment_safe|grown]. Qed.

Lemma creation_status_kept req co now r : rStatus (update_payment (creation_updates req co now) r) = rStatus r.
Proof.
  rewrite update_status. unfold creation_updates. rewrite !assign_app. cbn [assign foldl col_status default].
  rewrite (assign_none _ (set_if _ (c_provider_ref _))) by (by apply set_if_none).
  rewrite (assign_none _ (set_if _ (c_device_id _))) by (by apply set_if_none).
  by destruct (parse_rfc3339 _).
Qed.

Lemma record_creation_safe org own d0 req row raw : safe org own d0 (record_creation cfg org req row raw) (grows d0).
Proof.
  unfold record_creation. apply safe_then.
  { apply (safe_update_payments _ _ _ _ (creation_updates req (decode_creation raw))).
    intros d r now _ _ _ E. split; [by eapply same_payment_org|]. left. apply creation_status_kept. }
  intros own1 d1 [n|err] Hle1; [|grown]. apply safe_then.
  { destruct (negb _); [|grown]. apply safe_then; [apply reread_payment_safe|]. intros own2 d2 [p|err] Hle2; [|grown].
    apply safe_then; [eapply safe_grown; [reflexivity|apply observe_safe]|]. intros own3 d3 [obs err] Hle3. grown. }
  intros own2 d2 [err|] Hle2; [grown|]. eapply safe_grown; [by etrans|apply reread_safe].
Qed.

Lemma sendToProvider_safe org own d0 req row :
  (org, kProvider req, kIdempotencyKey req) ∈ own -> charge_created org req empty_db d0 row ->
  safe org own d0 (sendToProvider cfg org req row) (grows d0).
Proof.
  intros Hown (Hin & Ho & Hp & Hk & Ha & Hc & _). unfold sendToProvider. destruct (negb _); [grown|]. apply safe_bind.
  cbn [safe ask]. rewrite charge_query_key. split; [|split; [done|]].
  { split_and!; [done|cbn; by destruct (is_terminal req)|]. intros _. exists row. split; [by apply known_payment_in|].
    rewrite charge_query_key. cbn [q_input charge_query]. destruct (charge_input_money req row) as [-> ->].
    unfold payment_key. by rewrite Ho, Hp, Hk, Ha, Hc. }
  intros a. set (own1 := own ∖ _). clearbody own1.
  assert (forall code, safe org own1 d0
    (f ← markFailed org (rID row) (code_string code +:+ ": " +:+ answer_message a);
     match f with
     | Err e => mret (mkChargeResult (Some VerdictNew) (Some (payment row)) None false, Some e)
     | Ok _ => '(res, _) ← reread org (rID row) (mkChargeResult (Some VerdictNew) (Some (payment row)) None false);
               mret (res, Some (Coded code))
     end) (grows d0)) as Hfail.
  { intros code. apply safe_then; [apply markFailed_safe|]. intros own2 d2 [n|err] Hle2; [|grown].
    apply safe_then; [apply reread_safe|]. intros own3 d3 [res err] Hle3. grown. }
  destruct a as [b msg| |c [] msg|raw]; [apply Hfail|apply Hfail| |apply Hfail|apply record_creation_safe].
  apply safe_then; [apply touch_safe|]. grown.
Qed.

Lemma StartCharge_safe org own d0 req : safe org own d0 (StartCharge cfg org req) (grows d0).
Proof.
  unfold StartCharge. destruct (validateCharge req) eqn:Hv; cbn [negb]; [|grown].
  apply safe_bind, safe_transaction; [|grown].
  intros e d Hd Hle. eapply txp_mono; [|by apply start_charge_tx_ok].
  intros [res [row|]] d' [Hok Hrow]; (split; [done|]); intros own' Hown; pose proof (tx_ok_le _ _ _ _ Hle Hok) as Hle'; [|grown].
  destruct (Hrow row eq_refl) as (Hin & Ho & Hp & Hk & Ha & Hc & Hnew). destruct (is_cash req).
  - apply safe_then; [by apply publish_safe, known_payment_in|]. grown.
  - eapply safe_grown; [exact Hle'|]. apply sendToProvider_safe; [|by split_and!]. apply Hown.
    assert (payment_key row = (org, kProvider req, kIdempotencyKey req)) as E by (unfold payment_key; congruence).
    rewrite <- E. apply elem_of_union_r, elem_of_difference. split; [|done]. apply elem_of_keys. eauto.
Qed.

(** ** Reconciliation *)

Lemma ok_leases org d l :
  db_inv d -> leases_ok l = true ->
  List.filter (fun r => negb (String.eqb (leOrg r) org)) l =
    List.filter (fun r => negb (String.eqb (leOrg r) org)) (d_leases d) ->
  tx_ok org d (mkDb (d_payments d) (d_events d) (d_refunds d) (d_holds d) l).
Proof. intros Hd Hk Hf. apply (moves_ok _ _ _ []); [done|]. moves_from Hd. Qed.

Lemma update_leases_ok org (w : leaseRow -> bool) f e d :
  db_inv d -> (forall l, w l = true -> leOrg l = org /\ leOrg (f l) = org) ->
  txp (update_leases w f) e d (fun _ d' => tx_ok org d d').
Proof.
  intros Hd Hw. unfold update_leases. apply txp_bind, txp_db, txp_bind. unfold txp at 1, set_leases.
  destruct (leases_ok _) eqn:Hk; [|done]. apply txp_ret. apply ok_leases; [done..|].
  apply filter_update_where. intros l _ E. destruct (Hw l E) as [-> ->]. by rewrite String.eqb_refl.
Qed.

Lemma claim_safe org own d0 r : safe org own d0 (claim r org) (grows d0).
Proof.
  unfold claim. apply safe_bind, safe_now. intros d1 now own1 _ Hle1 _. apply safe_then.
  { apply safe_commit. intros e d Hd Hle. unfold create_lease. apply txp_bind, txp_db.
    destruct (existsb _ _); [by apply txp_ret, tx_ok_refl|]. unfold txp, set_leases.
    destruct (leases_ok _) eqn:Hk; [|done]. apply ok_leases; [done..|]. apply others_snoc. cbn. by rewrite String.eqb_refl. }
  intros own2 d2 [[]|err] Hle2; [|grown]. eapply safe_grown; [by etrans|].
  apply safe_commit. intros e d Hd Hle. apply txp_bind. eapply txp_mono; [|apply (update_leases_ok org); [done|]].
  - intros n d' Hok. exact Hok.
  - intros l E. apply andb_true_iff in E as [E%String.eqb_eq _]. done.
Qed.

Lemma held_by_org r org l : held_by r org l = true -> leOrg l = org.
Proof. intros E. by apply andb_true_iff in E as [E%String.eqb_eq _]. Qed.

Lemma alive_safe org own d0 r st : safe org own d0 (alive r org st) (grows d0).
Proof.
  unfold alive. destruct (ru_lost st); [grown|]. apply safe_bind, safe_now. intros d1 now own1 _ Hle1 _.
  destruct (_ <=? _); [|grown]. apply safe_then; [|intros own2 d2 [[]|] Hle2; grown].
  apply safe_commit. intros e d Hd Hle. apply txp_bind, txp_now, txp_bind.
  eapply txp_mono; [|apply (update_leases_ok org); [done|]].
  - intros n d' Hok. exact Hok.
  - intros l E%held_by_org. done.
Qed.

Lemma release_safe org own d0 r : safe org own d0 (release r org) (grows d0).
Proof.
  unfold release. apply safe_then; [|grown]. apply safe_commit. intros e d Hd Hle. apply txp_bind, txp_now.
  apply (update_leases_ok org); [done|]. intros l E%held_by_org. done.
Qed.

(** Each loop starts with [alive] and goes on with the rest. *)
Ltac step_alive := apply safe_then; [apply alive_safe|];
  let own := fresh "own" in let d := fresh "d" in let go := fresh "go" in let st := fresh "st" in let Hle := fresh "Hle" in
  intros own d [go st] Hle; destruct go; cbn [negb]; [|grown].

Lemma refresh_loop_safe org own d0 r rows st : safe org own d0 (refresh_loop cfg r org rows st) (grows d0).
Proof.
  revert own d0 st. induction rows as [|p rows IH]; intros own d0 st; cbn [refresh_loop]; [grown|]. step_alive.
  apply safe_then; [apply Refresh_safe|]. intros own2 d2 [o err] Hle2. eapply safe_grown; [by etrans|apply IH].
Qed.

Lemma stale_loop_safe org own d0 r rows st : safe org own d0 (stale_loop cfg r org rows st) (grows d0).
Proof.
  revert own d0 st. induction rows as [|p rows IH]; intros own d0 st; cbn [stale_loop]; [grown|]. step_alive.
  apply safe_then; [apply Cancel_safe|]. intros own2 d2 [o err] Hle2. apply safe_then.
  { destruct (Open _); [apply safe_say; [done|growing]|grown]. }
  intros own3 d3 _ Hle3. eapply safe_grown; [growing|apply IH].
Qed.

Lemma page_loop_safe org own d0 provider ps st : safe org own d0 (page_loop cfg org provider ps st) (grows d0).
Proof.
  revert own d0 st. induction ps as [|o ps IH]; intros own d0 st; cbn [page_loop]; [grown|].
  apply safe_then; [apply observe_safe|]. intros own2 d2 [obs err] Hle2. eapply safe_grown; [exact Hle2|apply IH].
Qed.

Lemma list_loop_safe org own d0 r pages provider now cursor st :
  safe org own d0 (list_loop cfg r org pages provider now cursor st) (grows d0).
Proof.
  revert own d0 cursor st. induction pages as [|pages IH]; intros own d0 cursor st; cbn [list_loop]; [grown|]. step_alive.
  apply safe_bind, safe_ask; [by split_and!|done|]. intros [[] msg| |c b msg|raw]; [grown..|].
  destruct (decode_page raw) as [page|]; [|grown]. apply safe_then; [apply page_loop_safe|].
  intros own2 d2 st2 Hle2. destruct (_ || _); [grown|]. eapply safe_grown; [by etrans|apply IH].
Qed.

Lemma providers_loop_safe org own d0 r ps now st : safe org own d0 (providers_loop cfg r org ps now st) (grows d0).
Proof.
  revert own d0 st. induction ps as [|p ps IH]; intros own d0 st; cbn [providers_loop]; [grown|]. step_alive.
  apply safe_then. { unfold listProvider. destruct (negb _); [grown|apply list_loop_safe]. }
  intros own2 d2 st2 Hle2. eapply safe_grown; [by etrans|apply IH].
Qed.

Lemma read_safe {X A : Type} org own d0 (t : tx X) (f : result lerr X -> A) :
  (forall e d, txp t e d (fun _ d' => d' = d)) -> safe org own d0 (x ← transaction t; mret (f x)) (grows d0).
Proof.
  intros Ht. apply safe_then; [|grown]. apply safe_commit. intros e d Hd _. eapply txp_mono; [|apply Ht].
  intros x d' ->. by apply tx_ok_refl.
Qed.

Lemma run_steps_safe org own d0 r now st : safe org own d0 (run_steps cfg r org now st) (grows d0).
Proof.
  unfold run_steps. apply safe_then; [by apply read_safe|]. intros own1 d1 open Hle1.
  apply safe_then; [apply refresh_loop_safe|]. intros own2 d2 [[] st2] Hle2; cbn [negb]; [|grown].
  apply safe_then; [by apply read_safe|]. intros own3 d3 stale Hle3.
  apply safe_then; [apply stale_loop_safe|]. intros own4 d4 [[] st4] Hle4; cbn [negb]; [|grown].
  apply safe_then; [by apply read_safe|]. intros own5 d5 flagged Hle5.
  apply safe_then; [apply refresh_loop_safe|]. intros own6 d6 [[] st6] Hle6; cbn [negb]; [|grown].
  apply safe_then; [by apply read_safe|]. intros own7 d7 providers Hle7.
  apply safe_then; [apply providers_loop_safe|]. intros own8 d8 [[] st8] Hle8; cbn [negb]; [|grown].
  step_alive. apply safe_then; [apply recheckRefunds_safe|]. intros own9 d9 [n failed] Hle9. grown.
Qed.

Lemma run_org_safe org own d0 r : safe org own d0 (run_org cfg r org) (grows d0).
Proof.
  unfold run_org. apply safe_then; [apply claim_safe|]. intros own1 d1 [[]|err] Hle1; [|grown..].
  apply safe_bind, safe_now. intros d2 now own2 _ Hle2 _. apply safe_then; [apply run_steps_safe|].
  intros own3 d3 st Hle3. apply safe_then; [apply release_safe|]. grown.
Qed.

Lemma RunOrg_safe org own d0 r fresh : safe org own d0 (RunOrg cfg r fresh org) (grows d0).
Proof. apply run_org_safe. Qed.
End ledger.
