(* ===== verification/LedgerReplicas.v ===== *)
(** * Payments ledger: the theorems over any interleaving

    A [world] is the database, the operations in progress on any number of
    replicas, and the log of what was asked of the providers and announced.
    A step starts an operation, runs one transaction, gets one answer from
    a provider, sends one message, or crashes an operation for good. *)

From Stdlib Require Import QArith Qminmax Lqa.
From S2P Require Import Prelude GoStrings PayStatus PayAmount PayModel PayHold PayRefund PaySettle PayObserve.
From S2P Require Import LedgerStore LedgerProg LedgerObserve LedgerCharge LedgerRefund LedgerReconcile.
From S2P Require Import LedgerInv LedgerSafe LedgerWorld.

Open Scope Z_scope.

Section ledger.
Context `{LedgerEnv} (cfg : Config).

(** ** Worlds *)

(** The calls of the ledger's interface, and one run of the reconciliation. *)
Inductive operation : Type :=
| OpAcquireHold (req : HoldRequest) (caller : string)
| OpReleaseHold (docType docID token : string) (force : bool)
| OpDocument (docType docID : string)
| OpPayment (id : string)
| OpStartCharge (req : ChargeRequest)
| OpRefresh (id source : string)
| OpCancel (id idempotencyKey reason : string)
| OpObserve (caller provider : string) (o : Outcome) (source : string)
| OpCreateRefund (req : RefundRequest)
| OpSettleRefund (req : SettleRequest)
| OpReconcile (r : Reconciler) (fresh : string).

Definition forget {A : Type} (p : prog A) : prog unit := _ ← p; mret tt.

Definition op_prog (org : string) (op : operation) : prog unit :=
  match op with
  | OpAcquireHold req caller => forget (AcquireHold org req caller)
  | OpReleaseHold t i token force => forget (ReleaseHold org t i token force)
  | OpDocument t i => forget (GetDocument org t i)
  | OpPayment id => forget (GetPayment org id)
  | OpStartCharge req => forget (StartCharge cfg org req)
  | OpRefresh id source => forget (Refresh cfg org id source)
  | OpCancel id k reason => forget (Cancel cfg org id k reason)
  | OpObserve caller provider o source => forget (Observe cfg org caller provider o source)
  | OpCreateRefund req => forget (CreateRefund cfg org req)
  | OpSettleRefund req => forget (SettleRefund cfg org req)
  | OpReconcile r fresh => forget (RunOrg cfg r fresh org)
  end.

Record world := mkWorld {
  w_db : db; w_procs : list (string * prog unit); w_log : list (string * logged)
}.

Definition empty_world : world := mkWorld empty_db [] [].

(** A step of an operation of organization [org]. *)
Inductive world_step (org : string) : world -> world -> Prop :=
| step_start d ps log op :
    world_step org (mkWorld d ps log) (mkWorld d (ps ++ [(org, op_prog org op)]) log)
| step_commit d d' ps log i X (t : tx X) k x e :
    ps !! i = Some (org, Tx t k) -> t e d = Ok (x, d') ->
    world_step org (mkWorld d ps log) (mkWorld d' (<[i := (org, k (Ok x))]> ps) log)
| step_rollback d ps log i X (t : tx X) k err e :
    ps !! i = Some (org, Tx t k) -> t e d = Err err ->
    world_step org (mkWorld d ps log) (mkWorld d (<[i := (org, k (Err err))]> ps) log)
| step_answer d ps log i q k a :
    ps !! i = Some (org, Ask q k) ->
    world_step org (mkWorld d ps log) (mkWorld d (<[i := (org, k a)]> ps) (log ++ [(org, Asked q)]))
| step_say d ps log i n k :
    ps !! i = Some (org, Say n k) ->
    world_step org (mkWorld d ps log) (mkWorld d (<[i := (org, k)]> ps) (log ++ [(org, Said n)]))
| step_crash d ps log i p :
    ps !! i = Some (org, p) ->
    world_step org (mkWorld d ps log) (mkWorld d (<[i := (org, Done tt)]> ps) log).

Definition any_step (w w' : world) : Prop := exists org, world_step org w w'.
Definition reachable (w : world) : Prop := rtc any_step empty_world w.

(** ** Every operation is safe *)

Definition anything : gset key -> db -> unit -> Prop := fun _ _ _ => True.

Lemma forget_safe {A : Type} (org : string) (own : gset key) (d0 : db) (p : prog A) :
  safe org own d0 p (grows d0) -> safe org own d0 (forget p) anything.
Proof. intros Hp. unfold forget. apply safe_bind. eapply safe_mono; [|exact Hp]. done. Qed.

Lemma op_safe (org : string) (op : operation) (d0 : db) : safe org ∅ d0 (op_prog org op) anything.
Proof.
  destruct op; apply forget_safe.
  - apply AcquireHold_safe.
  - apply ReleaseHold_safe.
  - apply GetDocument_safe.
  - apply GetPayment_safe.
  - apply StartCharge_safe.
  - apply Refresh_safe.
  - apply Cancel_safe.
  - apply Observe_safe.
  - apply CreateRefund_safe.
  - apply SettleRefund_safe.
  - apply RunOrg_safe.
Qed.

(** ** The invariant of worlds *)

Definition charged (l : string * logged) : option key :=
  match l.2 with Asked q => charge_key q | Said _ => None end.
Definition charges (log : list (string * logged)) : list key := omap charged log.

Definition entry_ok (d : db) (l : string * logged) : Prop :=
  match l.2 with Asked q => ask_ok l.1 d q | Said n => say_ok l.1 d n end.

Definition proc_ok (d : db) (proc : string * prog unit) (own : gset key) : Prop :=
  own ⊆ keys d /\ exists d0, ledger_le d0 d /\ safe proc.1 own d0 proc.2 anything.

(** [owns] are the payments each operation created and has not sent. *)
Record world_inv_with (w : world) (owns : list (gset key)) : Prop := {
  wi_db : db_inv (w_db w);
  wi_procs : Forall2 (proc_ok (w_db w)) (w_procs w) owns;
  wi_disjoint : forall i j a b, owns !! i = Some a -> owns !! j = Some b -> i <> j -> a ## b;
  wi_unsent : forall i a k, owns !! i = Some a -> k ∈ a -> k ∉ charges (w_log w);
  wi_charges : NoDup (charges (w_log w)) /\ forall k, k ∈ charges (w_log w) -> k ∈ keys (w_db w);
  wi_entries : Forall (entry_ok (w_db w)) (w_log w)
}.
Definition world_inv (w : world) : Prop := exists owns, world_inv_with w owns.

Lemma keys_mono d d' : ledger_le d d' -> keys d ⊆ keys d'.
Proof.
  intros (evs & _ & Hp & _) k Hk%elem_of_keys. destruct Hk as (r & Hr & <-). apply elem_of_keys.
  destruct (ext_in _ _ _ _ Hp Hr) as (r' & Hr' & [F _]). exists r'. split; [done|].
  apply payment_fixed_fields in F as (_ & E1 & _ & _ & E2 & E3 & _). unfold payment_key. congruence.
Qed.

Lemma entry_ok_mono d d' l : ledger_le d d' -> entry_ok d l -> entry_ok d' l.
Proof. unfold entry_ok. destruct l as [org [q|n]]; [apply ask_ok_mono|apply say_ok_mono]. Qed.

Lemma proc_ok_mono d d' proc own : ledger_le d d' -> proc_ok d proc own -> proc_ok d' proc own.
Proof.
  intros Hle [Hk (d0 & Hle0 & Hs)]. split; [etrans; [exact Hk|by apply keys_mono]|]. exists d0. split; [by etrans|done].
Qed.

Lemma charges_snoc log l : charges (log ++ [l]) = charges log ++ match charged l with Some k => [k] | None => [] end.
Proof. unfold charges. rewrite omap_app. by destruct (charged l) eqn:E; cbn; rewrite E. Qed.

(** Replacing one operation by its continuation. *)
Lemma inv_replace w owns i org p own d' p' own' :
  world_inv_with w owns -> w_procs w !! i = Some (org, p) -> owns !! i = Some own ->
  db_inv d' -> ledger_le (w_db w) d' -> proc_ok d' (org, p') own' ->
  (forall k, k ∈ own' -> k ∈ own \/ k ∉ keys (w_db w)) ->
  world_inv_with (mkWorld d' (<[i := (org, p')]> (w_procs w)) (w_log w)) (<[i := own']> owns).
Proof.
  intros [Hd Hp Hdis Hun [Hnd Hch] He] Hi Ho Hd' Hle Hok Hnew.
  assert (Hlt : (i < length owns)%nat) by by eapply lookup_lt_Some.
  assert (Hkeys : forall j b k, owns !! j = Some b -> k ∈ b -> k ∈ keys (w_db w)).
  { intros j b k Hj Hk. destruct (Forall2_lookup_r _ _ _ _ _ Hp Hj) as (q & _ & [Hs _]). by apply Hs. }
  split; cbn [w_db w_procs w_log].
  - done.
  - apply Forall2_insert; [|done]. eapply Forall2_impl; [exact Hp|]. intros ? ?. by apply proc_ok_mono.
  - assert (Hnd' : forall j b, j <> i -> owns !! j = Some b -> own' ## b).
    { intros j b Hne Hj k Hk1 Hk2. destruct (Hnew k Hk1) as [Hk|Hk]; [by eapply (Hdis i j)|]. by eapply Hk, Hkeys. }
    intros j1 j2 a b H1 H2 Hne. destruct (decide (j1 = i)) as [->|Hn1], (decide (j2 = i)) as [->|Hn2]; [done|..].
    + rewrite list_lookup_insert_eq in H1 by done. injection H1 as <-.
      rewrite list_lookup_insert_ne in H2 by done. by eapply Hnd'.
    + rewrite list_lookup_insert_eq in H2 by done. injection H2 as <-.
      rewrite list_lookup_insert_ne in H1 by done. symmetry. by eapply Hnd'.
    + rewrite list_lookup_insert_ne in H1, H2 by done. by eapply Hdis.
  - intros j a k Hj Hk. destruct (decide (j = i)) as [->|Hn].
    + rewrite list_lookup_insert_eq in Hj by done. injection Hj as <-.
      destruct (Hnew k Hk) as [Hin|Hout]; [by eapply Hun|]. intros Hc. by apply Hout, Hch.
    + rewrite list_lookup_insert_ne in Hj by done. by eapply Hun.
  - split; [done|]. intros k Hk. by apply (keys_mono _ _ Hle), Hch.
  - eapply Forall_impl; [exact He|]. intros l. by apply entry_ok_mono.
Qed.

(** The log gains an entry. *)
Lemma inv_snoc w owns l :
  world_inv_with w owns -> entry_ok (w_db w) l ->
  (forall k, charged l = Some k -> k ∈ keys (w_db w) /\ k ∉ charges (w_log w) /\
     forall j a, owns !! j = Some a -> k ∉ a) ->
  world_inv_with (mkWorld (w_db w) (w_procs w) (w_log w ++ [l])) owns.
Proof.
  intros [Hd Hp Hdis Hun [Hnd Hch] He] Hl Hk.
  split; cbn [w_db w_procs w_log]; rewrite ?charges_snoc; try done.
  - intros j a k Hj Ha [Hc|Hc]%elem_of_app; [by eapply Hun|].
    destruct (charged l) as [c|] eqn:E; [|by apply not_elem_of_nil in Hc].
    apply list_elem_of_singleton in Hc as ->. destruct (Hk c eq_refl) as (_ & _ & Hn). by eapply Hn.
  - destruct (charged l) as [c|] eqn:E; [|by rewrite app_nil_r].
    destruct (Hk c eq_refl) as (Hin & Hnew & _). split.
    + apply NoDup_app. split_and!; [done| |apply NoDup_singleton]. intros x Hx ->%list_elem_of_singleton. done.
    + intros k [?| ->%list_elem_of_singleton]%elem_of_app; [by apply Hch|done].
  - apply Forall_app. split; [done|]. by apply Forall_singleton.
Qed.

(** One operation starts. *)
Lemma inv_start d ps log owns org op :
  world_inv_with (mkWorld d ps log) owns -> world_inv_with (mkWorld d (ps ++ [(org, op_prog org op)]) log) (owns ++ [∅]).
Proof.
  intros [Hd Hp Hdis Hun Hch He]. cbn [w_db w_procs w_log] in *.
  assert (Hold : forall j a k, (owns ++ [∅]) !! j = Some a -> k ∈ a -> owns !! j = Some a).
  { intros j a k [?|[_ Hj]]%lookup_app_Some Hk; [done|].
    apply list_lookup_singleton_Some in Hj as [_ <-]. by apply not_elem_of_empty in Hk. }
  split; cbn [w_db w_procs w_log]; try done.
  - apply Forall2_app; [done|]. constructor; [|constructor]. split; [set_solver|].
    exists d. split; [done|apply op_safe].
  - intros i j a b Hi Hj Hne k Hk1 Hk2. by eapply (Hdis i j); eauto.
  - intros j a k Hj Hk. by eapply Hun; eauto.
Qed.

Lemma world_step_inv org w w' : world_step org w w' -> world_inv w -> world_inv w'.
Proof.
  intros Hstep [owns Hw]. pose proof (wi_procs _ _ Hw) as Hp.
  destruct Hstep as [d ps log op|d d' ps log i X t k x e Hi Ht|d ps log i X t k err e Hi Ht
    |d ps log i q k a Hi|d ps log i n k Hi|d ps log i p Hi]; cbn [w_db w_procs w_log] in *.
  { eexists. by apply inv_start. }
  all: destruct (Forall2_lookup_l _ _ _ _ _ Hp Hi) as (own & Ho & [Hk (d0 & Hle & Hs)]); cbn [fst snd safe] in Hk, Hs.
  - specialize (Hs e d (wi_db _ _ Hw) Hle). rewrite Ht in Hs. destruct Hs as [(Hd' & Hle' & _) Hs].
    eexists. eapply (inv_replace _ _ _ _ _ own d' _ (own ∪ (keys d' ∖ keys d)) Hw); try done; [|set_solver].
    split; [|by exists d']. pose proof (keys_mono _ _ Hle'). set_solver.
  - specialize (Hs e d (wi_db _ _ Hw) Hle). rewrite Ht in Hs.
    eexists. eapply (inv_replace _ _ _ _ _ own d _ own Hw); try done; [apply Hw| |by left].
    split; [done|by exists d].
  - destruct Hs as [Ha Hs]. pose proof (ask_ok_mono _ _ _ _ Hle Ha) as Ha'.
    destruct (charge_key q) as [c|] eqn:Ec.
    + destruct Hs as [Hc Hs]. eexists.
      eapply (inv_snoc (mkWorld d _ log) _ (org, Asked q)).
      * eapply (inv_replace _ _ _ _ _ own d _ (own ∖ {[c]}) Hw); try done; [apply Hw| |set_solver].
        split; [set_solver|]. exists d0. split; [done|apply Hs].
      * exact Ha'.
      * intros k' Hk'. cbn in Hk'. rewrite Ec in Hk'. injection Hk' as <-. cbn [w_db w_log].
        split_and!; [by apply Hk|by eapply (wi_unsent _ _ Hw)|].
        intros j b Hj Hb. destruct (decide (j = i)) as [->|Hn].
        -- rewrite list_lookup_insert_eq in Hj by (by eapply lookup_lt_Some). injection Hj as <-. set_solver.
        -- rewrite list_lookup_insert_ne in Hj by done. by eapply (wi_disjoint _ _ Hw j i).
    + eexists. eapply (inv_snoc (mkWorld d _ log) _ (org, Asked q)).
      * eapply (inv_replace _ _ _ _ _ own d _ own Hw); try done; [apply Hw| |by left].
        split; [done|]. exists d0. split; [done|apply Hs].
      * exact Ha'.
      * intros k' Hk'. cbn in Hk'. by rewrite Ec in Hk'.
  - destruct Hs as [Hn Hs]. eexists. eapply (inv_snoc (mkWorld d _ log) _ (org, Said n)).
    + eapply (inv_replace _ _ _ _ _ own d _ own Hw); try done; [apply Hw| |by left].
        split; [done|]. exists d0. split; [done|apply Hs].
    + by eapply say_ok_mono.
    + done.
  - eexists. eapply (inv_replace _ _ _ _ _ own d _ own Hw); try done; [apply Hw| |by left].
    split; [done|]. by exists d0.
Qed.

Lemma empty_world_inv : world_inv empty_world.
Proof.
  exists []. split; cbn; try done.
  - split; [by vm_compute|..]; cbn; intros; by try apply not_elem_of_nil in H0.
  - split; [constructor|]. intros k Hk. by apply not_elem_of_nil in Hk.
Qed.

Lemma world_reachable_inv w : reachable w -> world_inv w.
Proof.
  unfold reachable. intros Hr. apply (rtc_ind_r (R:=any_step) world_inv empty_world); [apply empty_world_inv| |exact Hr].
  intros y z _ [org Hs]. by apply (world_step_inv org).
Qed.

(** ** A step only moves the database forward, inside its organization *)

Lemma step_tx_ok org w w' : world_inv w -> world_step org w w' -> tx_ok org (w_db w) (w_db w').
Proof.
  intros [owns Hw] Hstep. pose proof (wi_procs _ _ Hw) as Hp. pose proof (wi_db _ _ Hw) as Hd.
  destruct Hstep as [d ps log op|d d' ps log i X t k x e Hi Ht| | | |]; cbn [w_db w_procs] in *;
    try by apply tx_ok_refl.
  destruct (Forall2_lookup_l _ _ _ _ _ Hp Hi) as (own & _ & [_ (d0 & Hle & Hs)]). cbn [fst snd safe] in Hs.
  specialize (Hs e d Hd Hle). rewrite Ht in Hs. by destruct Hs.
Qed.

Lemma steps_le w w' : reachable w -> rtc any_step w w' -> ledger_le (w_db w) (w_db w').
Proof.
  intros Hr Hs. revert Hr. induction Hs as [w|w w1 w2 [org Hstep] _ IH]; intros Hr; [done|].
  destruct (step_tx_ok org w w1) as (_ & Hle & _); [by apply world_reachable_inv|done|].
  etrans; [exact Hle|]. apply IH. eapply rtc_r; [exact Hr|]. by exists org.
Qed.

(** ** Operations run one after the other *)

(** A script: each operation with the clock and ids of its transactions and
    the answers the providers give it. *)
Record scripted := mkScripted {
  sc_org : string; sc_op : operation; sc_envs : nat -> env; sc_answers : nat -> answer
}.

Definition play (w : world) (s : scripted) : world :=
  let '(a, d, l) := run (sc_envs s) (sc_answers s) (op_prog (sc_org s) (sc_op s)) 0 0 (w_db w) in
  mkWorld d (w_procs w ++ [(sc_org s, Done a)]) (w_log w ++ map (pair (sc_org s)) l).

Lemma snoc_cons_map (log : list (string * logged)) org x l :
  log ++ map (pair org) (x :: l) = (log ++ [(org, x)]) ++ map (pair org) l.
Proof. by rewrite <- app_assoc. Qed.

Lemma run_any_steps envs answers org (p : prog unit) n m d a d' l ps log i :
  run envs answers p n m d = (a, d', l) -> ps !! i = Some (org, p) ->
  rtc any_step (mkWorld d ps log) (mkWorld d' (<[i := (org, Done a)]> ps) (log ++ map (pair org) l)).
Proof.
  revert n m d a d' l ps log. induction p as [b|X t k IH|q k IH|s k IH]; intros n m d a d' l ps log; cbn [run].
  - intros [= <- <- <-] Hi. rewrite app_nil_r, list_insert_id by done. apply rtc_refl.
  - intros Hrun Hi. assert (Hlt : (i < length ps)%nat) by by eapply lookup_lt_Some.
    destruct (t (envs n) d) as [[x d1]|err] eqn:Et.
    + eapply rtc_l; [exists org; by eapply step_commit|].
      rewrite <- (list_insert_insert_eq ps i (org, Done a) (org, k (Ok x))).
      eapply IH; [exact Hrun|]. by rewrite list_lookup_insert_eq.
    + eapply rtc_l; [exists org; by eapply step_rollback|].
      rewrite <- (list_insert_insert_eq ps i (org, Done a) (org, k (Err err))).
      eapply IH; [exact Hrun|]. by rewrite list_lookup_insert_eq.
  - destruct (run envs answers (k (answers m)) n (S m) d) as [[a1 d1] l1] eqn:Er.
    intros [= <- <- <-] Hi. assert (Hlt : (i < length ps)%nat) by by eapply lookup_lt_Some.
    eapply rtc_l; [exists org; by eapply (step_answer _ _ _ _ _ _ _ (answers m))|].
    rewrite <- (list_insert_insert_eq ps i (org, Done a1) (org, k (answers m))).
    rewrite (snoc_cons_map log org (Asked q)).
    eapply IH; [exact Er|]. by rewrite list_lookup_insert_eq.
  - destruct (run envs answers k n m d) as [[a1 d1] l1] eqn:Er.
    intros [= <- <- <-] Hi. assert (Hlt : (i < length ps)%nat) by by eapply lookup_lt_Some.
    eapply rtc_l; [exists org; by eapply step_say|].
    rewrite <- (list_insert_insert_eq ps i (org, Done a1) (org, k)).
    rewrite (snoc_cons_map log org (Said s)).
    eapply IH; [exact Er|]. by rewrite list_lookup_insert_eq.
Qed.

Lemma play_steps w s : rtc any_step w (play w s).
Proof.
  destruct w as [d ps log]. unfold play. cbn [w_db w_procs w_log].
  destruct (run _ _ _ 0 0 d) as [[a d'] l] eqn:Er.
  eapply rtc_l; [exists (sc_org s); apply (step_start _ _ _ _ (sc_op s))|].
  replace (ps ++ [(sc_org s, Done a)])
    with (<[length ps := (sc_org s, Done a)]> (ps ++ [(sc_org s, op_prog (sc_org s) (sc_op s))])).
  - eapply run_any_steps; [exact Er|]. by rewrite lookup_app_r, Nat.sub_diag by done.
  - by rewrite insert_app_r_alt, Nat.sub_diag by done.
Qed.

Lemma script_steps w script : rtc any_step w (foldl play w script).
Proof.
  revert w. induction script as [|s script IH]; intros w; [apply rtc_refl|]. etrans; [apply play_steps|apply IH].
Qed.

Lemma script_reachable w script : reachable w -> reachable (foldl play w script).
Proof. intros Hw. unfold reachable. etrans; [exact Hw|apply script_steps]. Qed.
End ledger.
