(* ===== verification/LedgerTheorems.v ===== *)
(** * Payments ledger: what holds whatever the interleaving

    Theorems about every reachable [world] of [LedgerReplicas]: any number
    of replicas running any operations of the ledger, in any order, with
    crashes, failed transactions and any answer of the providers; and about
    one operation run alone.  The witnesses play a small [script]. *)

From Stdlib Require Import QArith.
From S2P Require Import Prelude GoStrings PayStatus PayAmount PayModel PayHold PayRefund PaySettle PayObserve.
From S2P Require Import LedgerStore LedgerProg LedgerObserve LedgerCharge LedgerRefund LedgerReconcile.
From S2P Require Import LedgerInv LedgerSafe LedgerWorld LedgerReplicas.

Open Scope Z_scope.

(** ** An example: a charge, its confirmation, a partial refund *)

#[export] Instance demo_env : LedgerEnv := {|
  uuid_Parse := Some;
  sha256 := fun s => s;
  parse_rfc3339 := fun _ => None;
  format_rfc3339 := fun _ => "2026-01-01T00:00:00Z"%string;
  decode_creation := fun raw => mkCreationOutput raw "session" StatusPending "" "" false;
  decode_status := fun _ => None;
  decode_cancel := fun raw => raw;
  decode_refund := fun raw => mkRefundOutput raw RefundSucceeded "";
  decode_page := fun _ => None
|}.

Definition demo_cfg : Config := mkConfig true true (Some (fun _ _ => Ok true)) ∅ 0.

(** Transaction [n] of step [s] runs at second [s] with fresh ids. *)
Definition demo_envs (s : string) (now : Z) (n : nat) : env :=
  let id := s +:+ "-" +:+ str_repeat "i" n in mkEnv (now * second) id (id +:+ "b") (id +:+ "t").

Definition demo_charge (key docID : string) : ChargeRequest :=
  mkChargeRequest "invoice" docID "" "100.00" "100.00" "MXN" ChannelLink "acme" "" key "" "" None None ∅ false "ana".
Definition demo_paid : Outcome :=
  mkOutcome "inv-1" StatusPaid "100.00" "MXN" "pr-1" "evt-1" KindPayment "card" 0 "" "" "" "" "" false
    ChannelLink "session" "" None None None "" "".
Definition demo_refund : RefundRequest :=
  mkRefundRequest "a-i" "40.00" RefundToOriginal "refund-1" "returned" "" "" false false false "ana".

Definition demo_start : scripted :=
  mkScripted "org" (OpStartCharge (demo_charge "key-1" "inv-1")) (fun n => demo_envs "a" 1 (S n)) (fun _ => Output "pr-1").
Definition demo_rest : list scripted :=
  [ mkScripted "org" (OpObserve "" "acme" demo_paid "") (demo_envs "b" 2) (fun _ => NoResults);
    mkScripted "org" (OpStartCharge (demo_charge "key-1" "inv-1")) (demo_envs "c" 3) (fun _ => NoResults);
    mkScripted "org" (OpCreateRefund demo_refund) (demo_envs "d" 4) (fun _ => Output "rf-1") ].
Definition demo_half : world := foldl (play demo_cfg) empty_world [demo_start].
Definition demo_world : world := foldl (play demo_cfg) demo_half demo_rest.

Lemma demo_half_reachable : reachable demo_cfg demo_half.
Proof. apply script_reachable, rtc_refl. Qed.
Lemma demo_half_world : rtc (any_step demo_cfg) demo_half demo_world.
Proof. apply script_steps. Qed.
Lemma demo_reachable : reachable demo_cfg demo_world.
Proof. unfold reachable. etrans; [exact demo_half_reachable|exact demo_half_world]. Qed.

Lemma filter_coarser {R} (p q : R -> bool) l l' :
  (forall x, p x = true -> q x = true) -> List.filter q l = List.filter q l' -> List.filter p l = List.filter p l'.
Proof.
  intros Hpq E. assert (forall k, List.filter p k = List.filter p (List.filter q k)) as Hf.
  { induction k as [|x k IH]; cbn; [done|]. specialize (Hpq x). destruct (q x) eqn:Eq; cbn; rewrite IH; [done|].
    by destruct (p x) eqn:Ep; [specialize (Hpq eq_refl)|]. }
  by rewrite (Hf l), (Hf l'), E.
Qed.

Section ledger.
Context `{LedgerEnv} (cfg : Config).

Notation reachable := (reachable cfg).

(** ** Charges *)

(** C1: however the operations of any number of replicas interleave, crash
    and are answered, at most one request to collect is ever sent for an
    idempotency key of a provider: the collections in the log have pairwise
    different (organization, provider, key); and each is about a payment on
    record, with its key, amount and currency. *)
Theorem charge_sent_once w :
  reachable w ->
  NoDup (charges (w_log w)) /\
  forall org q, (org, Asked q) ∈ w_log w -> is_charge q = true -> charge_backed org (w_db w) q.
Proof.
  intros [owns Hw]%world_reachable_inv. split; [apply Hw|]. intros org q Hin Hc.
  pose proof (wi_entries _ _ Hw) as He. rewrite Forall_forall in He.
  destruct (He _ Hin) as (_ & _ & Hb). by apply Hb.
Qed.

(** C3: one document never has two payments that could still collect while no
    correction is on record for the organization and provider of either: an
    event of that provider whose id ends in |corrected counts as one, whatever
    payment it is about. *)
Theorem one_open_payment w r1 r2 :
  reachable w -> r1 ∈ d_payments (w_db w) -> r2 ∈ d_payments (w_db w) -> same_document r1 r2 ->
  Open (rStatus r1) = true -> Open (rStatus r2) = true ->
  (forall r, r = r1 \/ r = r2 -> ~ was_corrected (d_events (w_db w)) (rOrg r) (rProvider r)) ->
  r1 = r2.
Proof.
  intros [owns Hw]%world_reachable_inv H1 H2 Hs O1 O2 Hc. pose proof (wi_db _ _ Hw) as Hd.
  destruct (decide (rID r1 = rID r2)) as [E|E]; [by apply (unique_payment (w_db w))|].
  destruct (inv_one_open _ Hd r1 r2) as [?|?]; try done; [destruct (Hc r1)|destruct (Hc r2)]; auto.
Qed.

(** ** Refunds *)

(** C2: in every reachable state the refunds of a payment that are pending,
    wait for the desk or succeeded never add up to more than was charged;
    and each refund a provider was asked for is a refund on record of a
    payment on record, asked with its amount, currency and key. *)
Theorem refund_requests_backed w :
  reachable w ->
  (forall r a, r ∈ d_payments (w_db w) -> ParseAmount (rAmount r) = Ok a ->
     (reserved (rID r) (d_refunds (w_db w)) <= a)%Q) /\
  (forall org q, (org, Asked q) ∈ w_log w -> q_capability q = CommercePaymentsRefund ->
     refund_backed org (w_db w) q).
Proof.
  intros [owns Hw]%world_reachable_inv. split; [apply Hw|]. intros org q Hin Hc.
  pose proof (wi_entries _ _ Hw) as He. rewrite Forall_forall in He.
  destruct (He _ Hin) as (_ & Hb & _). by apply Hb.
Qed.

(** ** Rows *)

(** C6: the tables are well formed in every reachable state: the primary keys
    and unique indexes hold, every payment has a positive amount, every
    refund a positive amount and a payment of its own organization. *)
Theorem tables_well_formed w :
  reachable w ->
  indexes_ok (w_db w) = true /\
  (forall r, r ∈ d_payments (w_db w) -> exists a, ParseAmount (rAmount r) = Ok a /\ (0 < a)%Q) /\
  (forall f, f ∈ d_refunds (w_db w) -> refund_parses (refund f) /\
     exists r, r ∈ d_payments (w_db w) /\ rID r = fPaymentID f /\ rOrg r = fOrg f).
Proof. intros [owns Hw]%world_reachable_inv. destruct (wi_db _ _ Hw) as [Hx Hp Hr _ _]. by split_and!. Qed.

(** C5: nothing is ever deleted or rewritten: from any reachable state to any
    later one, a payment keeps its row with the document, provider, key,
    amount, currency, total and seller it was created with; unless a
    correction of its organization and provider is on record, money received stays received and a
    failed, cancelled or expired payment stays so; and a refund keeps its
    row, amount and number, moves only along its table and leaves the review only settled. *)
Theorem rows_audited w w' :
  reachable w -> rtc (any_step cfg) w w' ->
  (forall r, r ∈ d_payments (w_db w) -> exists r', r' ∈ d_payments (w_db w') /\
     payment_fixed r' = payment_fixed r /\
     (was_corrected (d_events (w_db w')) (rOrg r) (rProvider r) \/
      ((Captured (rStatus r) = true -> Captured (rStatus r') = true) /\
       (dead (rStatus r) = true -> rStatus r' = rStatus r)))) /\
  (forall f, f ∈ d_refunds (w_db w) -> exists f', f' ∈ d_refunds (w_db w') /\ refund_le f f') /\
  exists evs, d_events (w_db w') = d_events (w_db w) ++ evs.
Proof.
  intros Hr Hs. destruct (steps_le cfg w w' Hr Hs) as (evs & He & Hp & Hf). split_and!; [..|by exists evs].
  - intros r Hin. destruct (ext_in _ _ _ _ Hp Hin) as (r' & Hin' & [F M]). exists r'. split_and!; [done..|].
    by apply audited_kept.
  - intros f Hin. by apply (ext_in _ _ _ _ Hf).
Qed.

(** A step of one organization's operation leaves every other
    organization's payments, events, refunds, holds and leases untouched, in
    every reachable state. *)
Theorem organizations_isolated w w' org other :
  reachable w -> world_step cfg org w w' -> other <> org ->
  List.filter (fun r => String.eqb (rOrg r) other) (d_payments (w_db w')) =
    List.filter (fun r => String.eqb (rOrg r) other) (d_payments (w_db w)) /\
  List.filter (fun r => String.eqb (evOrg r) other) (d_events (w_db w')) =
    List.filter (fun r => String.eqb (evOrg r) other) (d_events (w_db w)) /\
  List.filter (fun r => String.eqb (fOrg r) other) (d_refunds (w_db w')) =
    List.filter (fun r => String.eqb (fOrg r) other) (d_refunds (w_db w)) /\
  List.filter (fun r => String.eqb (oOrg r) other) (d_holds (w_db w')) =
    List.filter (fun r => String.eqb (oOrg r) other) (d_holds (w_db w)) /\
  List.filter (fun r => String.eqb (leOrg r) other) (d_leases (w_db w')) =
    List.filter (fun r => String.eqb (leOrg r) other) (d_leases (w_db w)).
Proof.
  intros Hr%world_reachable_inv Hs Hne. destruct (step_tx_ok cfg org w w' Hr Hs) as (_ & _ & Ho).
  unfold others in Ho. injection Ho as H1 H2 H3 H4 H5.
  split_and!; eapply filter_coarser; try eassumption; 
    intros x E%String.eqb_eq; cbn beta; rewrite E; by apply negb_true_iff, String.eqb_neq.
Qed.

(** ** Confirmations *)

(** Every confirmation the ledger put on the bus is about a payment of its
    organization, under the name of that payment's provider (so the
    modules' check of the emitter passes), with the payment's own id and
    document. *)
Theorem confirmations_genuine w org c :
  reachable w -> (org, Said (Confirmation c)) ∈ w_log w ->
  cfOrganizationID c = org /\
  exists r, r ∈ d_payments (w_db w) /\ rOrg r = org /\ cfEmitter c = rProvider r /\ cfProvider c = rProvider r /\
    cfPaymentID c = rID r /\ cfDocumentType c = rDocumentType r /\ cfDocumentID c = rDocumentID r.
Proof.
  intros [owns Hw]%world_reachable_inv Hin. pose proof (wi_entries _ _ Hw) as He. rewrite Forall_forall in He.
  destruct (He _ Hin) as (Ho & r & (Hro & r' & Hr' & F) & E1 & E2 & E3 & E4 & E5). split; [done|].
  exists r'. apply payment_fixed_fields in F as (F1 & F2 & F3 & F4 & F5 & _). cbn [fst] in *. split_and!; congruence.
Qed.
End ledger.

(** ** Witnesses *)

Lemma charge_sent_once_witness :
  NoDup (charges (w_log demo_world)) /\ charges (w_log demo_world) = [("org", "acme", "key-1")]%string.
Proof. split; [|by vm_compute]. apply (charge_sent_once demo_cfg demo_world demo_reachable). Defined.

Definition demo_row : paymentRow := charge_row "x" "org" (demo_charge "key-1" "inv-1") 0.
Definition stored_demo : paymentRow := default demo_row (head (d_payments (w_db demo_world))).

Definition half_row : paymentRow := default demo_row (head (d_payments (w_db demo_half))).

Lemma one_open_payment_witness :
  d_payments (w_db demo_half) = [half_row] /\ Open (rStatus half_row) = true /\
  forall r, r ∈ d_payments (w_db demo_half) -> Open (rStatus r) = true -> r = half_row.
Proof.
  assert (d_payments (w_db demo_half) = [half_row]) as Hd by by vm_compute.
  assert (d_events (w_db demo_half) = []) as He by by vm_compute.
  split_and!; [done|by vm_compute|]. intros r Hr Ho.
  apply (one_open_payment demo_cfg demo_half); [exact demo_half_reachable|exact Hr|..].
  - rewrite Hd. by left.
  - rewrite Hd in Hr. apply list_elem_of_singleton in Hr as ->. by split_and!.
  - exact Ho.
  - by vm_compute.
  - intros r' _ (ev & x & Hev & _). rewrite He in Hev. by apply not_elem_of_nil in Hev.
Defined.

Lemma refund_requests_backed_witness :
  (reserved (rID stored_demo) (d_refunds (w_db demo_world)) <= 100 # 1)%Q /\
  reserved (rID stored_demo) (d_refunds (w_db demo_world)) == (40 # 1)%Q /\
  map (fun l => match l.2 with Asked q => q_capability q | Said _ => ""%string end) (w_log demo_world) =
    [CommercePaymentsSession; ""; CommercePaymentsRefund; ""]%string.
Proof.
  split_and!; [|by vm_compute..].
  apply (proj1 (refund_requests_backed demo_cfg demo_world demo_reachable) stored_demo); [|by vm_compute].
  assert (d_payments (w_db demo_world) = [stored_demo]) as -> by by vm_compute. by left.
Defined.

Lemma tables_well_formed_witness : indexes_ok (w_db demo_world) = true.
Proof. apply (tables_well_formed demo_cfg demo_world demo_reachable). Defined.

Lemma rows_audited_witness :
  map rStatus (d_payments (w_db demo_half)) = [StatusPending] /\
  map rStatus (d_payments (w_db demo_world)) = [StatusPartiallyRefunded] /\
  forall r, r ∈ d_payments (w_db demo_half) -> exists r', r' ∈ d_payments (w_db demo_world) /\
    payment_fixed r' = payment_fixed r.
Proof.
  split_and!; [by vm_compute..|]. intros r Hin.
  destruct (rows_audited demo_cfg demo_half demo_world demo_half_reachable demo_half_world) as (Hp & _).
  destruct (Hp r Hin) as (r' & Hr' & F & _). exact (ex_intro _ r' (conj Hr' F)).
Defined.

Lemma start_step w org op :
  world_step demo_cfg org w (mkWorld (w_db w) (w_procs w ++ [(org, op_prog demo_cfg org op)]) (w_log w)).
Proof. destruct w. apply step_start. Qed.

Lemma organizations_isolated_witness :
  let w := mkWorld (w_db demo_world) (w_procs demo_world ++ [("them", op_prog demo_cfg "them" (OpPayment "a-i"))]%string)
    (w_log demo_world) in
  List.filter (fun r => String.eqb (rOrg r) "org") (d_payments (w_db w)) =
    List.filter (fun r => String.eqb (rOrg r) "org") (d_payments (w_db demo_world)).
Proof.
  intros w. apply (organizations_isolated demo_cfg demo_world w "them" "org").
  - apply demo_reachable.
  - apply start_step.
  - done.
Defined.

Lemma confirmations_genuine_witness :
  match w_log demo_world !! 1%nat with
  | Some (org, Said (Confirmation c)) => cfOrganizationID c = org /\ cfPaymentID c = "a-i"%string /\
      exists r, r ∈ d_payments (w_db demo_world) /\ rID r = cfPaymentID c /\ cfEmitter c = rProvider r
  | _ => False
  end.
Proof.
  destruct (w_log demo_world !! 1%nat) as [[org [q|[c|a]]]|] eqn:E; try by vm_compute in E.
  destruct (confirmations_genuine demo_cfg demo_world org c demo_reachable) as (Ho & r & Hr & _ & He & _ & Hi & _).
  { by eapply list_elem_of_lookup_2. }
  split_and!; [exact Ho| |exact (ex_intro _ r (conj Hr (conj (eq_sym Hi) He)))]. vm_compute in E. by injection E as _ <-.
Defined.
