(* ===== verification/LedgerRuns.v ===== *)
(** * Payments ledger: one operation run alone

    [holds E p d Q]: started on [d], with any clock and ids that satisfy [E]
    and any answers of the providers, the program [p] ends with [Q].  It
    gives what a replay of a charge, a held document, a lease and a refund
    re-query past its window lead to. *)

From Stdlib Require Import QArith.
From S2P Require Import Prelude GoStrings PayStatus PayAmount PayModel PayHold PayRefund PaySettle PayObserve.
From S2P Require Import LedgerStore LedgerProg LedgerObserve LedgerCharge LedgerRefund LedgerReconcile.
From S2P Require Import LedgerInv LedgerSafe LedgerWorld LedgerReplicas LedgerTheorems.

Open Scope Z_scope.

(** ** What a program run alone leads to *)

Fixpoint holds {A : Type} (E : env -> Prop) (p : prog A) (d : db) (Q : A -> db -> Prop) {struct p} : Prop :=
  match p with
  | Done a => Q a d
  | Tx t k => forall e, E e ->
      match t e d with
      | Ok (x, d') => holds E (k (Ok x)) d' Q
      | Err err => holds E (k (Err err)) d Q
      end
  | Ask q k => forall a, holds E (k a) d Q
  | Say n k => holds E k d Q
  end.

Lemma holds_mono {A : Type} (E : env -> Prop) (p : prog A) (d : db) (Q Q' : A -> db -> Prop) :
  (forall a d', Q a d' -> Q' a d') -> holds E p d Q -> holds E p d Q'.
Proof.
  intros HQ. revert d. induction p as [a|X t k IH|q k IH|n k IH]; intros d; cbn [holds].
  - apply HQ.
  - intros H e He. specialize (H e He). destruct (t e d) as [[x d']|err]; by apply IH.
  - intros H a. by apply IH.
  - apply IH.
Qed.

Lemma holds_bind_iff {A B : Type} (E : env -> Prop) (p : prog A) (f : A -> prog B) (d : db) (Q : B -> db -> Prop) :
  holds E (p ≫= f) d Q <-> holds E p d (fun a d' => holds E (f a) d' Q).
Proof.
  unfold mbind, prog_MBind. revert d. induction p as [a|X t k IH|q k IH|n k IH]; intros d; cbn [holds prog_bind].
  - done.
  - split; intros H e He; specialize (H e He); destruct (t e d) as [[x d']|err]; by apply IH.
  - split; intros H a; by apply IH.
  - apply IH.
Qed.
Lemma holds_bind {A B : Type} (E : env -> Prop) (p : prog A) (f : A -> prog B) (d : db) (Q : B -> db -> Prop) :
  holds E p d (fun a d' => holds E (f a) d' Q) -> holds E (p ≫= f) d Q.
Proof. apply holds_bind_iff. Qed.

Lemma holds_run {A : Type} (E : env -> Prop) envs answers (p : prog A) n m (d : db) (Q : A -> db -> Prop) :
  (forall i, E (envs i)) -> holds E p d Q ->
  let '(a, d', _) := run envs answers p n m d in Q a d'.
Proof.
  intros HE. revert n m d. induction p as [a|X t k IH|q k IH|s k IH]; intros n m d; cbn [holds run].
  - done.
  - intros H. specialize (H (envs n) (HE n)). destruct (t (envs n) d) as [[x d']|err]; by apply IH.
  - intros H. specialize (IH (answers m) n (S m) d (H _)). by destruct (run _ _ (k (answers m)) n (S m) d) as [[? ?] ?].
  - intros H. specialize (IH n m d H). by destruct (run _ _ k n m d) as [[? ?] ?].
Qed.

Lemma holds_and {A : Type} (E : env -> Prop) (p : prog A) (P Q : A -> db -> Prop) (d : db) :
  holds E p d P -> holds E p d Q -> holds E p d (fun a d' => P a d' /\ Q a d').
Proof.
  revert d. induction p as [a|X t k IH|q k IH|n k IH]; intros d; cbn [holds].
  - done.
  - intros H1 H2 e He. specialize (H1 e He). specialize (H2 e He).
    destruct (t e d) as [[x d']|err]; by apply IH.
  - intros H1 H2 a. by apply IH.
  - apply IH.
Qed.

Lemma payment_by_id_found (org : string) (d : db) (id : string) (e : env) (pay : paymentRow) :
  payment_by_id org id e d = Ok (pay, d) -> pay ∈ d_payments d /\ rOrg pay = org /\ rID pay = id.
Proof.
  intros Hp. assert (txp (payment_by_id org id) e d (fun pay _ => pay ∈ d_payments d /\ rOrg pay = org /\ rID pay = id)) as Ht.
  { apply txp_payment_by_id. auto. }
  unfold txp in Ht. by rewrite Hp in Ht.
Qed.

(** A safe program run alone keeps the invariant and only grows the database. *)
Lemma safe_holds {A : Type} (E : env -> Prop) (org : string) (own : gset key) (d0 : db) (p : prog A)
    (Q : gset key -> db -> A -> Prop) (d : db) :
  safe org own d0 p Q -> db_inv d -> ledger_le d0 d ->
  holds E p d (fun _ d' => db_inv d' /\ ledger_le d d').
Proof.
  revert own d0 d. induction p as [a|X t k IH|q k IH|n k IH]; intros own d0 d; cbn [safe holds].
  - done.
  - intros H Hd Hle e _. specialize (H e d Hd Hle). destruct (t e d) as [[x d']|err].
    + destruct H as [(Hd' & Hle' & _) H]. eapply holds_mono; [|by eapply IH].
      intros _ d2 [? ?]. split; [done|]. by etrans.
    + by eapply IH.
  - intros [_ H] Hd Hle a. destruct (charge_key q); [destruct H as [_ H]|]; by eapply IH.
  - intros [_ H] Hd Hle. by eapply IH.
Qed.

Section ledger.
Context `{LedgerEnv} (cfg : Config).
Implicit Types (d : db) (org : string) (E : env -> Prop) (r f g : refundRow) (pay : paymentRow).

(** ** Refunds asked again *)

(** Nothing more is asked for the refund on its own: it is final, a provider
    numbered it, or a person has it. *)
Definition out_of_repost (f : refundRow) : Prop :=
  fStatus f <> RefundPending \/ fProviderRefundID f <> ""%string \/ fNeedsReview f = true.

Lemma out_of_repost_mono f f' : refund_le f f' -> out_of_repost f -> out_of_repost f'.
Proof.
  intros (_ & Hs & Hn & Hv) [Hp|[Hp|Hp]]; unfold out_of_repost.
  - left. destruct Hs as [[-> _]|Hs%refund_transition_pending]; done.
  - right; left. destruct Hn as [|Hn]; congruence.
  - destruct (Hv Hp); auto.
Qed.

Definition refund_out (r : refundRow) (d : db) : Prop :=
  exists f, f ∈ d_refunds d /\ refund_le r f /\ out_of_repost f.

Lemma refund_out_mono r d d' : ledger_le d d' -> refund_out r d -> refund_out r d'.
Proof.
  intros (evs & _ & _ & Hr) (f & Hf & Hle & Ho). destruct (ext_in _ _ _ _ Hr Hf) as (f' & Hf' & Hle').
  exists f'. split_and!; [done|by eapply refund_le_trans|by eapply out_of_repost_mono].
Qed.

(** Every clock reading is past the refund's window, and it is due. *)
Definition late (org : string) (r : refundRow) (e : env) : Prop :=
  past_window cfg r (e_now e) = true /\ due_for_recheck org (e_now e) r = true.

Lemma due_fields org now r :
  due_for_recheck org now r = true ->
  fOrg r = org /\ fStatus r = RefundPending /\ fDestination r = RefundToOriginal /\ fNeedsReview r = false.
Proof.
  unfold due_for_recheck. rewrite !andb_true_iff, String.eqb_eq, !bool_decide_eq_true, !negb_true_iff. tauto.
Qed.

Lemma refund_update_keeps_indexes d (w : refundRow -> bool) cols :
  db_inv d -> refunds_ok (update_where w (update_refund cols) (d_refunds d)) = true.
Proof.
  intros [Hx _ _ _ _]. apply indexes_ok_spec in Hx as (_ & _ & Hk & _).
  apply refunds_ok_spec in Hk. apply refunds_ok_spec. by rewrite !map_update_where.
Qed.

(** The statement that takes a late refund out of the repeated requests. *)
Lemma reschedule_late org r g now E d :
  db_inv d -> g ∈ d_refunds d -> refund_le r g -> past_window cfg r now = true ->
  holds E (reschedule cfg r now) d (fun out d' => exists n, out = Ok n /\ refund_out r d').
Proof.
  intros Hd Hg Hle Hw e _. unfold reschedule. rewrite Hw. cbn [negb orb].
  set (w := fun x => String.eqb (fID x) (fID r) && bool_decide (fStatus x = RefundPending) && String.eqb (fProviderRefundID x) "").
  set (cols := [f_needs_review true; f_next_recheck_at None]).
  pose proof (refund_update_keeps_indexes d w cols Hd) as Hk.
  unfold update_refunds, mbind, tx_bind, tx_db, set_refunds. rewrite Hk. cbn. eexists. split; [done|].
  exists (if w g then update_refund cols g else g). split_and!.
  - cbn. apply elem_of_update_where. by exists g.
  - destruct (w g); [|done]. eapply refund_le_trans; [exact Hle|]. split_and!; [done|by left|by right|by left].
  - destruct (w g) eqn:Ew; [by right; right|]. unfold w in Ew.
    assert (fID g = fID r) as Eid by (destruct Hle as [F%refund_fixed_fields _]; tauto).
    rewrite Eid, String.eqb_refl in Ew. cbn [andb] in Ew.
    apply andb_false_iff in Ew as [Ew%bool_decide_eq_false|Ew%String.eqb_neq]; [by left|by right; left].
Qed.

(** Transactions that only read leave the database as it is. *)
Lemma reads_holds {X : Type} E (t : tx X) d (Q : result lerr X -> db -> Prop) :
  (forall e, txp t e d (fun _ d' => d' = d)) -> (forall out, Q out d) -> holds E (transaction t) d Q.
Proof.
  intros Ht HQ e _. specialize (Ht e). unfold txp in Ht. destruct (t e d) as [[x d']|err]; [subst|]; apply HQ.
Qed.

Lemma reread_payment_reads E org id d (Q : result lerr Payment -> db -> Prop) :
  (forall out, Q out d) -> holds E (reread_payment org id) d Q.
Proof. apply reads_holds. intros e. apply txp_bind, txp_payment_by_id. intros. by apply txp_ret. Qed.

Lemma refundResult_reads E org id res d : holds E (refundResult org id res) d (fun _ d' => d' = d).
Proof.
  unfold refundResult. apply holds_bind, reads_holds.
  - intros e. apply txp_bind, txp_take_refund. by intros [f|] _.
  - intros [f|err]; [|done]. apply holds_bind, reread_payment_reads. done.
Qed.

(** Past its window a refund without a number is not asked for again. *)
Lemma recheck_late org pay r g d :
  db_inv d -> g ∈ d_refunds d -> refund_le r g ->
  fNeedsReview r = false -> fStatus r = RefundPending -> fProviderRefundID r = ""%string ->
  holds (late org r) (recheckRefund cfg org pay r) d (fun _ d' => refund_out r d').
Proof.
  intros Hd Hg Hle Hv Hs Hn. unfold recheckRefund. rewrite Hv, Hs. cbn [orb negb bool_decide].
  rewrite bool_decide_true by done. cbn [negb]. apply holds_bind. intros e [Hw _].
  change (tx_now e d) with (Ok (e_now e, d) : result lerr (Z * db)). cbv iota beta. cbn [holds].
  rewrite Hw, Hn. cbn [String.eqb negb]. apply holds_bind. cbn [holds mret prog_ret]. 
  cbn [result_status rrRefund fmap option_fmap option_map refund rfStatus]. rewrite Hs, bool_decide_true by done. cbn [negb].
  apply holds_bind. eapply holds_mono; [|by eapply reschedule_late]. intros out d' (n & -> & Ho). cbv iota beta.
  destruct (true && (n =? 0)); [|exact Ho].
  eapply holds_mono; [|apply refundResult_reads]. by intros _ ? ->.
Qed.

Lemma recheck_loop_app E org rows1 rows2 failed d (Q : bool -> db -> Prop) :
  holds E (recheck_loop cfg org rows1 failed) d (fun failed' d' => holds E (recheck_loop cfg org rows2 failed') d' Q) ->
  holds E (recheck_loop cfg org (rows1 ++ rows2) failed) d Q.
Proof.
  revert failed d. induction rows1 as [|x rows1 IH]; intros failed d; [done|]. cbn [recheck_loop app].
  intros Hr. apply holds_bind. apply (proj1 (holds_bind_iff _ _ _ _ _)) in Hr. eapply holds_mono; [|exact Hr].
  intros pay d1 Hr1. apply holds_bind. apply (proj1 (holds_bind_iff _ _ _ _ _)) in Hr1. eapply holds_mono; [|exact Hr1].
  intros err d2. apply IH.
Qed.

Definition rechecked (org : string) d (rows : list refundRow) : Prop :=
  forall f, f ∈ rows -> known_refund org d f /\ fDestination f = RefundToOriginal.

Lemma recheck_loop_grows E org rows failed d :
  db_inv d -> rechecked org d rows ->
  holds E (recheck_loop cfg org rows failed) d (fun _ d' => db_inv d' /\ ledger_le d d').
Proof. intros Hd Hr. eapply safe_holds; [by apply (recheck_loop_safe cfg org ∅ d)|done..]. Qed.

Lemma take_found {R} (w : R -> bool) (l : list R) x : x ∈ l -> w x = true -> exists y, take w l = Some y.
Proof.
  intros Hx Hw. unfold take. assert (x ∈ List.filter w l) as Hf.
  { by rewrite list_elem_of_In, filter_In, <- list_elem_of_In. }
  destruct (List.filter w l) as [|y k]; [by apply not_elem_of_nil in Hf|]. by exists y.
Qed.

Lemma payment_of_refund org d f e :
  db_inv d -> f ∈ d_refunds d -> fOrg f = org -> exists pay, payment_by_id org (fPaymentID f) e d = Ok (pay, d).
Proof.
  intros Hd Hf Ho. destruct (inv_refunds _ Hd f Hf) as (_ & r & Hr & Eid & Eo).
  destruct (take_found (fun p => String.eqb (rOrg p) org && String.eqb (rID p) (fPaymentID f)) (d_payments d) r) as [x Hx].
  - done.
  - by rewrite Eid, Eo, Ho, !String.eqb_refl.
  - exists x. unfold payment_by_id, take_payment, mbind, tx_bind, tx_db, mret, tx_ret. cbv beta iota. by rewrite Hx.
Qed.

Lemma recheck_loop_late org rows r failed d :
  db_inv d -> rechecked org d rows -> r ∈ rows -> r ∈ d_refunds d ->
  fOrg r = org -> fNeedsReview r = false -> fStatus r = RefundPending -> fProviderRefundID r = ""%string ->
  holds (late org r) (recheck_loop cfg org rows failed) d (fun _ d' => refund_out r d').
Proof.
  intros Hd Hrows (rows1 & rows2 & ->)%list_elem_of_split Hin Ho Hv Hs Hn.
  apply recheck_loop_app. eapply holds_mono.
  2: { apply recheck_loop_grows; [done|]. intros f Hf. apply Hrows. set_solver. }
  intros failed1 d1 [Hd1 Hle1].
  assert (exists g, g ∈ d_refunds d1 /\ refund_le r g) as (g & Hg & Hrg).
  { destruct Hle1 as (evs & _ & _ & Hr). by apply (ext_in _ _ _ _ Hr). }
  assert (fOrg g = org /\ fPaymentID g = fPaymentID r) as [Hgo Hgp].
  { destruct Hrg as [F%refund_fixed_fields _]. split; [rewrite <- Ho|]; tauto. }
  cbn [recheck_loop]. apply holds_bind. intros e _.
  destruct (payment_of_refund org d1 g e) as [pay Hpay]; [done..|]. rewrite <- Hgp, Hpay. cbn [holds].
  apply holds_bind, holds_bind. pose proof (payment_by_id_found org d1 _ e pay Hpay) as [Hpin [Hpo Hpid]].
  eapply holds_mono.
  2: { apply (holds_and _ _ (fun _ d' => db_inv d' /\ ledger_le d1 d') (fun _ d' => refund_out r d')).
       - eapply (safe_holds _ org ∅ d1); [|done..]. apply recheckRefund_safe.
         + by apply known_payment_in.
         + eapply known_refund_mono; [exact Hle1|]. apply Hrows. set_solver.
         + congruence.
         + apply Hrows. set_solver.
       - by eapply recheck_late. }
  intros [res err] d2 [[Hd2 Hle2] Hout]. cbn [holds mret prog_ret].
  eapply holds_mono; [|apply recheck_loop_grows; [done|]].
  - intros failed3 d3 [_ Hle3]. by eapply refund_out_mono.
  - intros f Hf. destruct (Hrows f ltac:(set_solver)) as [Hk ?]. split; [|done].
    eapply known_refund_mono; [|exact Hk]. by etrans.
Qed.

(** C4: a refund that a provider was asked for and never numbered is not asked
    for forever: once every clock reads past its window, one run of the
    re-query over the organization (the batch large enough) leaves it
    final, numbered, or in the hands of a person, whatever the providers
    answer about it or about the other refunds. *)
Theorem refund_recheck_settles org limit envs answers d r :
  db_inv d -> r ∈ d_refunds d -> fProviderRefundID r = ""%string ->
  (limit <= 0 \/ Z.of_nat (length (d_refunds d)) <= limit) ->
  (forall i, past_window cfg r (e_now (envs i)) = true /\ due_for_recheck org (e_now (envs i)) r = true) ->
  let '(_, d', _) := run envs answers (recheckRefunds cfg org limit) 0 0 d in
  exists f, f ∈ d_refunds d' /\ refund_le r f /\
    (fStatus f <> RefundPending \/ fProviderRefundID f <> ""%string \/ fNeedsReview f = true).
Proof.
  intros Hd Hin Hn Hlim Hlate. apply (holds_run (late org r)); [exact Hlate|].
  destruct (due_fields _ _ _ (proj2 (Hlate 0%nat))) as (Ho & Hs & Hdst & Hv).
  unfold recheckRefunds. apply holds_bind. intros e [_ Hdue]. cbn [holds]. unfold mbind at 1, tx_bind at 1.
  set (rows := order_by fCreatedAt (List.filter (due_for_recheck org (e_now e)) (d_refunds d))).
  change (holds (late org r) (failed ← recheck_loop cfg org (limit_rows limit rows) false;
    mret (Z.of_nat (length (limit_rows limit rows)), failed)) d (fun _ d' => refund_out r d')).
  assert (length rows <= length (d_refunds d))%nat as Hlen.
  { unfold rows. rewrite (order_by_perm fCreatedAt). apply List.filter_length_le. }
  assert (limit_rows limit rows = rows) as ->.
  { unfold limit_rows. destruct (Z.ltb_spec 0 limit); [|done]. apply firstn_all2. lia. }
  apply holds_bind, recheck_loop_late; try done.
  - intros f Hf%elem_of_select_rows. destruct Hf as [Hf Hdf]. destruct (due_fields _ _ _ Hdf) as (? & _ & ? & _).
    split; [by apply known_refund_in|done].
  - by apply elem_of_select_rows.
Qed.
End ledger.

(** ** Charges *)

Section charges.
Context `{LedgerEnv} (cfg : Config).
Implicit Types (d : db) (org : string) (r : paymentRow).

Lemma used_key ps rs key total v p0 :
  CheckReplay ps rs key total = Ok (v, p0) -> (exists p, p ∈ ps /\ pIdempotencyKey p = key) ->
  v <> VerdictNew /\ exists p, p0 = Some p /\ p ∈ ps /\ pIdempotencyKey p = key.
Proof.
  unfold CheckReplay. rewrite require_bind_Ok. intros [_ Hr] (q & Hq & Hk).
  destruct (first_payment _ ps) as [p|] eqn:E.
  - apply first_payment_Some in E as [Hp Hpk%String.eqb_eq].
    destruct (Captured (pStatus p)); [|destruct (Open (pStatus p))]; injection Hr as <- <-; (split; [done|by exists p]).
  - rewrite first_payment_None in E. specialize (E q Hq). by apply String.eqb_neq in E.
Qed.

Lemma start_charge_used org req e d r :
  r ∈ d_payments d -> of_document org (kDocumentType req) (kDocumentID req) r = true ->
  rIdempotencyKey r = kIdempotencyKey req ->
  txp (start_charge_tx org req) e d (fun out d' => d' = d /\ out.2 = None /\
    crVerdict out.1 <> Some VerdictNew /\ exists r', r' ∈ d_payments d /\
      of_document org (kDocumentType req) (kDocumentID req) r' = true /\
      rIdempotencyKey r' = kIdempotencyKey req /\ crPayment out.1 = Some (payment r')).
Proof.
  intros Hr Hof Hk. unfold start_charge_tx. apply txp_bind, txp_activeHold. intros ho _.
  apply txp_bind, txp_now, txp_bind.
  enough (forall Q : unit -> db -> Prop, Q tt d -> txp (match ho with
    | Some h => match CheckCharge (Some (hold h)) (hashToken (kHoldToken req)) (e_now e) with
                | Err _ => throw (Coded CodeInPayment) | Ok _ => mret tt end
    | None => mret tt end) e d Q) as Hcheck.
  - apply Hcheck. apply txp_bind, txp_document. intros doc rows Hrows Hdoc.
    destruct (CheckReplay _ _ _ _) as [[verdict existing]|] eqn:Hc; [|done].
    destruct (used_key _ _ _ _ _ _ Hc) as (Hv & p & -> & Hp & Hpk).
    { exists (payment r). split; [|done]. rewrite Hdoc. apply list_elem_of_fmap. exists r. split; [done|]. by apply Hrows. }
    rewrite bool_decide_false by done. cbn [negb]. apply txp_ret. split_and!; [done..|cbn; congruence|].
    rewrite Hdoc in Hp. apply list_elem_of_fmap in Hp as (r' & -> & Hr'%Hrows). exists r'. tauto.
  - intros Q HQ. destruct ho as [h|]; [|by apply txp_ret]. by destruct (CheckCharge _ _ _); [apply txp_ret|].
Qed.

(** A charge sent again with a key the document already used never
    creates a payment, never asks a provider and never announces anything:
    the database stays as it is, and the answer is an error or the payment
    that has this key. *)
Theorem StartCharge_replay org req envs answers d r :
  r ∈ d_payments d -> of_document org (kDocumentType req) (kDocumentID req) r = true ->
  rIdempotencyKey r = kIdempotencyKey req ->
  exists res err, run envs answers (StartCharge cfg org req) 0 0 d = (res, err, d, []) /\
    (err = None -> crVerdict res <> Some VerdictNew /\ exists r', r' ∈ d_payments d /\
       of_document org (kDocumentType req) (kDocumentID req) r' = true /\
       rIdempotencyKey r' = kIdempotencyKey req /\ crPayment res = Some (payment r')).
Proof.
  intros Hr Hof Hk. unfold StartCharge. destruct (negb (validateCharge req)).
  { eexists _, _. split; [reflexivity|done]. }
  pose proof (start_charge_used org req (envs 0%nat) d r Hr Hof Hk) as Ht. unfold txp in Ht.
  unfold mbind, prog_MBind, transaction. cbn [prog_bind run].
  destruct (start_charge_tx org req (envs 0%nat) d) as [[[res o] d']|err].
  - cbn [fst snd] in Ht. destruct Ht as (-> & -> & Hv & Hp). eexists _, _. split; [reflexivity|]. by intros _.
  - eexists _, _. split; [reflexivity|done].
Qed.

(** While somebody else's live hold is on the document a valid charge is
    refused as in payment, and nothing is stored, asked or announced. *)
Theorem StartCharge_held org req envs answers d h :
  validateCharge req = true ->
  take (fun h => String.eqb (oOrg h) org && String.eqb (oDocumentType h) (kDocumentType req) &&
    String.eqb (oDocumentID h) (kDocumentID req) && bool_decide (oHoldStatus h = HoldActive)) (d_holds d) = Some h ->
  e_now (envs 0%nat) < oExpiresAt h -> oTokenHash h <> hashToken (kHoldToken req) ->
  run envs answers (StartCharge cfg org req) 0 0 d = (no_charge, Some (Coded CodeInPayment), d, []).
Proof.
  intros Hv Hh Hnow Htok. unfold StartCharge. rewrite Hv. cbn [negb].
  assert (start_charge_tx org req (envs 0%nat) d = Err (Coded CodeInPayment)) as Ht; [|by cbn; rewrite Ht].
  unfold start_charge_tx, activeHold, mbind, tx_bind, tx_db, mret, tx_ret, tx_now. rewrite Hh.
  assert (exists e, CheckCharge (Some (hold h)) (hashToken (kHoldToken req)) (e_now (envs 0%nat)) = Err e) as [err ->]; [|done].
  assert (oHoldStatus h = HoldActive) as Ha.
  { apply take_Some in Hh as [_ Hw]. rewrite !andb_true_iff, bool_decide_eq_true in Hw. tauto. }
  unfold CheckCharge, Live, Owns, hold. cbn. rewrite Ha, bool_decide_true by done.
  destruct (Z.ltb_spec (e_now (envs 0%nat)) (oExpiresAt h)); [|lia]. cbn.
  apply String.eqb_neq in Htok. rewrite Htok, andb_false_r. by eexists.
Qed.

(** ** The reconciliation's lease *)

Lemma update_where_none {R} (w : R -> bool) (f : R -> R) l :
  (forall x, x ∈ l -> w x = false) -> update_where w f l = l /\ rows_affected w l = 0.
Proof.
  intros Hw. split.
  - unfold update_where. induction l as [|x l IH]; cbn; [done|].
    rewrite (Hw x) by set_solver. rewrite IH; [done|]. intros y Hy. apply Hw. set_solver.
  - unfold rows_affected. rewrite filter_none; [done|]. by apply Forall_forall.
Qed.

(** The lease row of the organization after a successful claim. *)
Lemma claimed_row rc org now e d d1 :
  claim_tx rc org now e d = Ok (true, d1) ->
  leases_ok (d_leases d1) = true /\
  forall l, l ∈ d_leases d1 -> leOrg l = org -> leLockedBy l = rcOwner rc /\ leLockedUntil l = Some (now + rcLease rc).
Proof.
  unfold claim_tx, update_leases, set_leases, mbind, tx_bind, tx_db, mret, tx_ret.
  set (f := fun l => mkLeaseRow (leOrg l) (rcOwner rc) (Some (now + rcLease rc)) (leLastRunAt l)).
  set (w := fun l => lease_of org l && claimable (rcOwner rc) now l).
  destruct (leases_ok (update_where w f (d_leases d))) eqn:Hk; [|done]. intros [= Hn <-]. cbn [d_leases].
  split; [done|]. apply Z.eqb_eq in Hn. unfold rows_affected in Hn.
  destruct (List.filter w (d_leases d)) as [|x k] eqn:E; [done|].
  assert (x ∈ List.filter w (d_leases d)) as Hx by (rewrite E; by left).
  rewrite list_elem_of_In, filter_In, <- list_elem_of_In in Hx. destruct Hx as [Hx Hw].
  intros l Hl Ho. assert (l = f x) as ->; [|done].
  unfold leases_ok in Hk. apply bool_decide_eq_true in Hk. apply (NoDup_map_inj leOrg _ l (f x) Hk Hl).
  - apply elem_of_update_where. exists x. by rewrite Hw.
  - rewrite Ho. unfold w, lease_of in Hw. apply andb_true_iff in Hw as [Hw%String.eqb_eq _]. done.
Qed.

(** Two reconciliations of an organization never run at once: after one
    claimed the lease, a claim by another owner before it runs out fails and
    changes nothing. *)
Theorem reconcile_lease_exclusive (rc1 rc2 : Reconciler) org now1 now2 e1 e2 d d1 :
  claim_tx rc1 org now1 e1 d = Ok (true, d1) -> rcOwner rc2 <> rcOwner rc1 -> now2 <= now1 + rcLease rc1 ->
  claim_tx rc2 org now2 e2 d1 = Ok (false, d1).
Proof.
  intros [Hk Hrow]%claimed_row Hne Hnow. unfold claim_tx, update_leases, set_leases, mbind, tx_bind, tx_db, mret, tx_ret.
  match goal with |- context [update_where ?w ?f ?l] => destruct (update_where_none w f l) as [-> ->] end.
  - intros l Hl. unfold lease_of. destruct (String.eqb_spec (leOrg l) org) as [E|]; [|done].
    destruct (Hrow l Hl E) as [Eb Eu]. unfold claimable. rewrite Eb, Eu.
    destruct (Z.ltb_spec (now1 + rcLease rc1) now2); [lia|]. cbn. by apply String.eqb_neq.
  - rewrite Hk. by destruct d1.
Qed.
End charges.

(** ** Witnesses *)

Definition late_refund : refundRow :=
  mkRefundRow "rf" "org" "pay" RefundToOriginal "acme" "" "40.00" "MXN" RefundPending "" "refund-9" "" "" false false
    3 (Some 0) false false "" "" "" "ana" None 0 0.
Definition late_db : db :=
  mkDb [update_payment [c_status StatusPaid] (charge_row "pay" "org" (demo_charge "key-1" "inv-1") 0)] [] [late_refund] [] [].

Lemma late_db_inv : db_inv late_db.
Proof.
  split.
  - by vm_compute.
  - intros r ->%list_elem_of_singleton. exists (100 # 1)%Q. split; by vm_compute.
  - intros f ->%list_elem_of_singleton. split; [exists (40 # 1)%Q; split; by vm_compute|].
    eexists. split; [by left|done].
  - intros r a ->%list_elem_of_singleton Ha. vm_compute in Ha. injection Ha as <-. by vm_compute.
  - intros r1 r2 ->%list_elem_of_singleton ->%list_elem_of_singleton _ Ho. by vm_compute in Ho.
Qed.

Lemma refund_recheck_settles_witness :
  let '(_, d', l) := run (fun _ => mkEnv (13 * hour) "i" "i2" "t") (fun _ => NoResults)
    (recheckRefunds demo_cfg "org" 10) 0 0 late_db in
  map fNeedsReview (d_refunds d') = [true] /\ length l = 1%nat /\
  exists f, f ∈ d_refunds d' /\ refund_le late_refund f /\
    (fStatus f <> RefundPending \/ fProviderRefundID f <> ""%string \/ fNeedsReview f = true).
Proof.
  pose proof (refund_recheck_settles demo_cfg "org" 10 (fun _ => mkEnv (13 * hour) "i" "i2" "t") (fun _ => NoResults)
    late_db late_refund late_db_inv ltac:(by left) ltac:(done) ltac:(right; vm_compute; done)
    ltac:(intros i; split; by vm_compute)) as H.
  assert (match run (fun _ => mkEnv (13 * hour) "i" "i2" "t") (fun _ => NoResults)
    (recheckRefunds demo_cfg "org" 10) 0 0 late_db with (_, d', l) =>
      map fNeedsReview (d_refunds d') = [true] /\ length l = 1%nat end) as Hc by by vm_compute.
  destruct (run _ _ _ _ _ _) as [[? ?] ?]. tauto.
Defined.

Lemma StartCharge_replay_witness :
  exists res err, run (demo_envs "z" 9) (fun _ => Output "again") (StartCharge demo_cfg "org" (demo_charge "key-1" "inv-1"))
      0 0 late_db = (res, err, late_db, []) /\
    (err = None -> crVerdict res <> Some VerdictNew /\ exists r', r' ∈ d_payments late_db /\
       of_document "org" "invoice" "inv-1" r' = true /\
       rIdempotencyKey r' = "key-1"%string /\ crPayment res = Some (payment r')).
Proof.
  apply (StartCharge_replay demo_cfg "org" (demo_charge "key-1" "inv-1") _ _ late_db
    (update_payment [c_status StatusPaid] (charge_row "pay" "org" (demo_charge "key-1" "inv-1") 0)));
    [by left|by vm_compute..].
Defined.

Definition other_hold : holdRow :=
  mkHoldRow "h" "org" "invoice" "inv-1" "somebody" "till 2" ChannelCash "" HoldActive "" (60 * second) 0 0.

Lemma StartCharge_held_witness :
  run (demo_envs "z" 9) (fun _ => NoResults) (StartCharge demo_cfg "org" (demo_charge "key-1" "inv-1")) 0 0
    (mkDb [] [] [] [other_hold] []) = (no_charge, Some (Coded CodeInPayment), mkDb [] [] [] [other_hold] [], []).
Proof. apply (StartCharge_held demo_cfg "org" _ _ _ _ other_hold); by vm_compute. Defined.

Definition owner (o : string) : Reconciler := mkReconciler 0 0 0 0 (5 * minute) o.

Lemma reconcile_lease_exclusive_witness :
  let d := mkDb [] [] [] [] [mkLeaseRow "org" "" None None] in
  exists d1, claim_tx (owner "a") "org" 0 (demo_envs "a" 0 0) d = Ok (true, d1) /\
    claim_tx (owner "b") "org" (4 * minute) (demo_envs "b" 240 0) d1 = Ok (false, d1) /\
    claim_tx (owner "b") "org" (6 * minute) (demo_envs "b" 360 0) d1 <> Ok (false, d1).
Proof.
  eexists. split; [by vm_compute|]. split; [|by vm_compute].
  apply (reconcile_lease_exclusive (owner "a") (owner "b") "org" 0 (4 * minute) (demo_envs "a" 0 0) (demo_envs "b" 240 0)
    (mkDb [] [] [] [] [mkLeaseRow "org" "" None None])); by vm_compute.
Defined.

(** ** A derived event id names a state, not a move *)

(** The provider refuses two cancellations of an authorized payment: each
    time it reports, without an event id, that the payment still is
    authorized.  The first report takes the payment back to authorized; the
    second has the derived id and the ["|after|"] id of the first, is taken
    for a repeat, and the payment stays cancelling. *)
Definition authorized : Outcome :=
  mkOutcome "inv-1" StatusAuthorized "100.00" "MXN" "pr-1" "" KindPayment "card" 0 "" "" "" "" "" false
    ChannelLink "session" "" None None None "" "".
Definition cancel_refused (s : string) (now : Z) : list scripted :=
  [ mkScripted "org" (OpCancel "a-i" ("cancel-" +:+ s) "changed") (demo_envs s now) (fun _ => Output "cancelling");
    mkScripted "org" (OpObserve "" "acme" authorized "") (demo_envs (s +:+ "'") (now + 1)) (fun _ => NoResults) ].
Definition statuses_after (script : list scripted) : list Status :=
  map rStatus (d_payments (w_db (foldl (play demo_cfg) demo_half script))).

Example second_refusal_dropped :
  let first := mkScripted "org" (OpObserve "" "acme" authorized "") (demo_envs "b" 2) (fun _ => NoResults) in
  statuses_after [first] = [StatusAuthorized] /\
  statuses_after (first :: cancel_refused "c" 3) = [StatusAuthorized] /\
  statuses_after (first :: cancel_refused "c" 3 ++ cancel_refused "d" 5) = [StatusCancelling].
Proof. by vm_compute. Qed.
