(* ===== verification/IdemMemory.v ===== *)
(** * Idempotency: the in-memory store and the plain flow (idempotency/store.go,
    idempotency/middleware.go)

    [InMemoryStore]: the map of entries with the insertion order beside it,
    and its refinement of a bounded queue of entries ([fifo]); the
    middleware's flow for a store without [Locker], and the composite key.
    Instants are nanoseconds. *)

From S2P Require Import Prelude GoStrings.

(** ** Data *)

Record Stored := mkStored {
  sStatusCode : Z; sBody : string; sContentType : string; sExpiresAt : Z
}.
#[export] Instance Stored_eq_dec : EqDecision Stored.
Proof. solve_decision. Defined.

(** The entry no longer replays: [time.Now().After(v.ExpiresAt)]. *)
Definition expired (now : Z) (v : Stored) : bool := sExpiresAt v <? now.

Record InMemoryStore := mkMemory {
  entries : gmap string Stored;
  order : list string;
  maxEntries : nat
}.

(** [room]: the capacities [make] finds memory for; it panics on the others
    ([None]). *)
Definition NewInMemoryStore (room : Z -> bool) (maxEntries : Z) : option InMemoryStore :=
  let maxEntries := if maxEntries <=? 0 then 10000 else maxEntries in
  if room maxEntries then Some (mkMemory ∅ [] (Z.to_nat maxEntries)) else None.

(** ** Operations *)

Fixpoint removeFromOrder (key : string) (order : list string) : list string :=
  match order with
  | [] => []
  | k :: order => if String.eqb k key then order else k :: removeFromOrder key order
  end.

Definition Get (now : Z) (key : string) (s : InMemoryStore) : option Stored * InMemoryStore :=
  match entries s !! key with
  | None => (None, s)
  | Some v =>
      if expired now v then
        (None, mkMemory (delete key (entries s)) (removeFromOrder key (order s)) (maxEntries s))
      else (Some v, s)
  end.

(** [None] is the panic of [s.order[0]] on an empty order, which
    [Put_total] rules out. *)
Definition Put (key : string) (value : Stored) (s : InMemoryStore) : option InMemoryStore :=
  match entries s !! key with
  | Some _ => Some (mkMemory (<[key := value]> (entries s)) (order s) (maxEntries s))
  | None =>
      if (maxEntries s <=? length (order s))%nat then
        match order s with
        | [] => None
        | oldest :: rest =>
            Some (mkMemory (<[key := value]> (delete oldest (entries s))) (rest ++ [key]) (maxEntries s))
        end
      else Some (mkMemory (<[key := value]> (entries s)) (order s ++ [key]) (maxEntries s))
  end.

(** ** The abstract store: a bounded queue of entries *)

(** Entries by age, oldest first, at most [n] of them. *)
Definition fifo : Type := list (string * Stored).

Definition fifo_lookup (key : string) (q : fifo) : option Stored :=
  snd <$> List.find (fun p => String.eqb p.1 key) q.
Definition fifo_remove (key : string) (q : fifo) : fifo :=
  List.filter (fun p => negb (String.eqb p.1 key)) q.
Definition fifo_update (key : string) (v : Stored) (q : fifo) : fifo :=
  map (fun p => if String.eqb p.1 key then (key, v) else p) q.

Definition fifo_get (now : Z) (key : string) (q : fifo) : option Stored * fifo :=
  match fifo_lookup key q with
  | Some v => if expired now v then (None, fifo_remove key q) else (Some v, q)
  | None => (None, q)
  end.
Definition fifo_put (n : nat) (key : string) (v : Stored) (q : fifo) : fifo :=
  match fifo_lookup key q with
  | Some _ => fifo_update key v q
  | None => (if (n <=? length q)%nat then tail q else q) ++ [(key, v)]
  end.

(** The queue a store stands for. *)
Definition abs (s : InMemoryStore) : fifo :=
  omap (fun k => pair k <$> entries s !! k) (order s).

Record memory_wf (s : InMemoryStore) : Prop := {
  mw_nodup : NoDup (order s);
  mw_dom : forall k, k ∈ order s <-> is_Some (entries s !! k);
  mw_bound : (length (order s) <= maxEntries s)%nat;
  mw_positive : (0 < maxEntries s)%nat
}.

(** ** Lemmas *)

Lemma new_memory_wf room n s : NewInMemoryStore room n = Some s -> memory_wf s /\ abs s = [].
Proof.
  unfold NewInMemoryStore. cbv zeta. destruct (room _); [|done]. intros [= <-].
  split; [|done]. split; cbn; [constructor| |lia|].
  - intros k. rewrite lookup_empty. split; [set_solver|by intros [? ?]].
  - destruct (Z.leb_spec n 0); lia.
Qed.

Lemma removeFromOrder_spec key l :
  NoDup l -> removeFromOrder key l = List.filter (fun k => negb (String.eqb k key)) l.
Proof.
  induction 1 as [|k l Hk Hl IH]; cbn; [done|].
  destruct (String.eqb_spec k key) as [->|Hne]; cbn; [|by rewrite IH].
  clear IH Hl. induction l as [|x l IH]; cbn; [done|].
  destruct (String.eqb_spec x key) as [->|]; [set_solver|]. cbn. f_equal. apply IH. set_solver.
Qed.

Lemma elem_of_list_filter_neq key (l : list string) k :
  k ∈ List.filter (fun k => negb (String.eqb k key)) l <-> k ∈ l /\ k <> key.
Proof.
  rewrite !list_elem_of_In, filter_In, negb_true_iff, String.eqb_neq. done.
Qed.

Lemma NoDup_list_filter {A} (f : A -> bool) l : NoDup l -> NoDup (List.filter f l).
Proof.
  intros H. apply NoDup_ListNoDup, List.NoDup_filter. by apply NoDup_ListNoDup.
Qed.

Section abs_lemmas.
Context (s : InMemoryStore) (Hwf : memory_wf s).

(** Every key of the order has an entry, so nothing is lost in [abs]. *)
Lemma abs_map : map fst (abs s) = order s.
Proof.
  destruct Hwf as [_ Hdom _ _]. unfold abs.
  assert (forall l, (forall k, k ∈ l -> is_Some (entries s !! k)) ->
    map fst (omap (fun k => pair k <$> entries s !! k) l) = l) as H.
  { induction l as [|k l IH]; intros Hl; cbn; [done|].
    destruct (Hl k ltac:(set_solver)) as [v Hv]. rewrite Hv. cbn. f_equal. apply IH. set_solver. }
  apply H. intros k. apply Hdom.
Qed.

Lemma abs_length : length (abs s) = length (order s).
Proof. by rewrite <- abs_map, length_map. Qed.

Lemma abs_lookup key : fifo_lookup key (abs s) = entries s !! key.
Proof.
  destruct Hwf as [_ Hdom _ _]. unfold abs, fifo_lookup.
  assert (forall l, (forall k, k ∈ l -> is_Some (entries s !! k)) ->
    snd <$> List.find (fun p => String.eqb p.1 key) (omap (fun k => pair k <$> entries s !! k) l) =
    if bool_decide (key ∈ l) then entries s !! key else None) as H.
  { induction l as [|k l IH]; intros Hl; cbn; [done|].
    destruct (Hl k ltac:(set_solver)) as [v Hv]. rewrite Hv. cbn.
    destruct (String.eqb_spec k key) as [->|Hne]; cbn.
    - rewrite bool_decide_true by set_solver. done.
    - rewrite IH by set_solver. do 2 case_bool_decide; try done; set_solver. }
  rewrite H by (intros k; apply Hdom). case_bool_decide as Hk; [done|].
  rewrite Hdom in Hk. symmetry. by apply eq_None_not_Some.
Qed.
End abs_lemmas.

Lemma omap_filter_entries (m m' : gmap string Stored) key l :
  (forall k, k <> key -> m' !! k = m !! k) ->
  omap (fun k => pair k <$> m' !! k) (List.filter (fun k => negb (String.eqb k key)) l) =
  fifo_remove key (omap (fun k => pair k <$> m !! k) l).
Proof.
  intros Hm. induction l as [|k l IH]; cbn; [done|].
  destruct (String.eqb_spec k key) as [->|Hne]; cbn.
  - destruct (m !! key); cbn; [|done]. by rewrite String.eqb_refl.
  - rewrite Hm by done. destruct (m !! k); cbn; [|done].
    destruct (String.eqb_spec k key); [done|]. cbn. by rewrite IH.
Qed.

Lemma omap_update_entries (m : gmap string Stored) key v v0 l :
  m !! key = Some v0 ->
  omap (fun k => pair k <$> <[key:=v]> m !! k) l =
  fifo_update key v (omap (fun k => pair k <$> m !! k) l).
Proof.
  intros Hm. induction l as [|k l IH]; cbn; [done|].
  destruct (String.eqb_spec k key) as [->|Hne].
  - rewrite lookup_insert_eq, Hm. cbn. rewrite String.eqb_refl. by rewrite IH.
  - rewrite lookup_insert_ne by done. destruct (m !! k); cbn; [|done].
    destruct (String.eqb_spec k key); [done|]. by rewrite IH.
Qed.

Lemma omap_ext_entries (m m' : gmap string Stored) (l : list string) :
  (forall k, k ∈ l -> m' !! k = m !! k) ->
  omap (fun k => pair k <$> m' !! k) l = omap (fun k => pair k <$> m !! k) l.
Proof.
  induction l as [|k l IH]; intros H; cbn; [done|]. rewrite H by set_solver. rewrite IH by set_solver. done.
Qed.

(** ** Refinement *)

Lemma Get_refines now key s :
  memory_wf s ->
  memory_wf (Get now key s).2 /\
  (Get now key s).1 = (fifo_get now key (abs s)).1 /\ abs (Get now key s).2 = (fifo_get now key (abs s)).2.
Proof.
  intros Hwf. unfold Get, fifo_get. rewrite (abs_lookup s Hwf).
  destruct (entries s !! key) as [v|] eqn:E; [|done]. destruct (expired now v); [|done].
  destruct Hwf as [Hnd Hdom Hb Hpos]. cbn [fst snd].
  split; [|split; [done|]].
  - rewrite removeFromOrder_spec by done. split; cbn [entries order maxEntries]; [| | |done].
    + by apply NoDup_list_filter.
    + intros k. rewrite elem_of_list_filter_neq, Hdom.
      destruct (decide (k = key)) as [->|Hne].
      * rewrite lookup_delete_eq. split; [by intros [_ ?]|by intros [? ?]].
      * rewrite lookup_delete_ne by done. naive_solver.
    + etrans; [apply filter_length_le|done].
  - unfold abs at 1. cbn [entries order]. rewrite removeFromOrder_spec by done.
    apply omap_filter_entries. intros k Hk. by rewrite lookup_delete_ne.
Qed.

Lemma Put_refines key v s :
  memory_wf s ->
  exists s', Put key v s = Some s' /\ memory_wf s' /\ maxEntries s' = maxEntries s /\
    abs s' = fifo_put (maxEntries s) key v (abs s).
Proof.
  intros Hwf. unfold Put, fifo_put. rewrite (abs_lookup s Hwf), (abs_length s Hwf).
  destruct Hwf as [Hnd Hdom Hb Hpos].
  destruct (entries s !! key) as [v0|] eqn:E.
  { eexists. split; [done|]. split_and!; [|done|].
    - split; cbn; [done| |done|done]. intros k. rewrite Hdom.
      destruct (decide (k = key)) as [->|]; [rewrite lookup_insert_eq, E; naive_solver|].
      by rewrite lookup_insert_ne.
    - unfold abs. cbn. by eapply omap_update_entries. }
  assert (Hk : key ∉ order s) by (rewrite Hdom, E; by intros [? ?]).
  destruct (Nat.leb_spec (maxEntries s) (length (order s))) as [Hfull|Hroom].
  - destruct (order s) as [|oldest rest] eqn:Eo; [cbn in *; lia|].
    eexists. split; [done|]. apply NoDup_cons in Hnd as [Hold Hrest].
    assert (oldest <> key) by set_solver. assert (key ∉ rest) by set_solver.
    split_and!; [|done|].
    + split; cbn; [| |rewrite length_app; cbn in *; lia|done].
      * apply NoDup_app. split_and!; [done|set_solver|by apply NoDup_singleton].
      * intros k. rewrite elem_of_app, list_elem_of_singleton.
        destruct (decide (k = key)) as [->|]; [rewrite lookup_insert_eq; naive_solver|].
        rewrite lookup_insert_ne by done. specialize (Hdom k). rewrite elem_of_cons in Hdom.
        destruct (decide (k = oldest)) as [->|]; [rewrite lookup_delete_eq; split; [naive_solver|by intros [? ?]]|].
        rewrite lookup_delete_ne by done. naive_solver.
    + unfold abs. cbn [entries order]. rewrite Eo, omap_app. cbn.
      rewrite lookup_insert_eq. cbn. assert (is_Some (entries s !! oldest)) as [w Hw] by (apply Hdom; set_solver).
      rewrite Hw. cbn. f_equal. apply omap_ext_entries. intros k Hin.
      rewrite lookup_insert_ne, lookup_delete_ne by set_solver. done.
  - eexists. split; [done|]. split_and!; [|done|].
    + split; cbn; [| |rewrite length_app; cbn; lia|done].
      * apply NoDup_app. split_and!; [done|set_solver|by apply NoDup_singleton].
      * intros k. rewrite elem_of_app, list_elem_of_singleton.
        destruct (decide (k = key)) as [->|]; [rewrite lookup_insert_eq; naive_solver|].
        rewrite lookup_insert_ne by done. rewrite Hdom. naive_solver.
    + unfold abs. cbn [entries order]. rewrite omap_app. cbn. rewrite lookup_insert_eq. cbn. f_equal.
      apply omap_ext_entries. intros k Hin. by rewrite lookup_insert_ne by set_solver.
Qed.

Lemma Get_kept now key s : maxEntries (Get now key s).2 = maxEntries s.
Proof. unfold Get. destruct (entries s !! key); [|done]. by destruct (expired now _). Qed.

(** A call of the store, and a run of calls on the store and on the queue:
    the store answers what a queue that evicts its oldest entry answers. *)
Inductive store_call : Type :=
| CallGet (now : Z) (key : string)
| CallPut (key : string) (value : Stored).

Fixpoint run_memory (calls : list store_call) (s : InMemoryStore) : option (list (option Stored) * InMemoryStore) :=
  match calls with
  | [] => Some ([], s)
  | CallGet now key :: calls =>
      let '(r, s) := Get now key s in
      '(rs, s) ← run_memory calls s; Some (r :: rs, s)
  | CallPut key v :: calls => s ← Put key v s; run_memory calls s
  end.

Fixpoint run_fifo (n : nat) (calls : list store_call) (q : fifo) : list (option Stored) * fifo :=
  match calls with
  | [] => ([], q)
  | CallGet now key :: calls =>
      let '(r, q) := fifo_get now key q in let '(rs, q) := run_fifo n calls q in (r :: rs, q)
  | CallPut key v :: calls => run_fifo n calls (fifo_put n key v q)
  end.

Lemma run_refines calls s :
  memory_wf s ->
  exists rs s', run_memory calls s = Some (rs, s') /\ memory_wf s' /\ maxEntries s' = maxEntries s /\
    run_fifo (maxEntries s) calls (abs s) = (rs, abs s').
Proof.
  revert s. induction calls as [|[now key|key v] calls IH]; intros s Hwf; cbn.
  - by exists [], s.
  - destruct (Get_refines now key s Hwf) as (Hwf' & Hr & Ha).
    pose proof (Get_kept now key s) as Hm.
    destruct (Get now key s) as [r s1]. destruct (fifo_get now key (abs s)) as [r' q]. cbn in *. subst.
    destruct (IH s1 Hwf') as (rs & s' & -> & Hw & Hm' & Hf). rewrite Hm in Hf, Hm'. rewrite Hf.
    cbn. by exists (r' :: rs), s'.
  - destruct (Put_refines key v s Hwf) as (s1 & -> & Hwf' & Hm & Ha). cbn.
    destruct (IH s1 Hwf') as (rs & s' & -> & Hw & Hm' & Hf). rewrite Hm, Ha in Hf. rewrite Hm in Hm'. by exists rs, s'.
Qed.

(** ** How long an entry is kept *)

(** The entry of [key] is [v], and at most [m] keys are younger. *)
Definition young (key : string) (v : Stored) (m : nat) (s : InMemoryStore) : Prop :=
  memory_wf s /\ entries s !! key = Some v /\ exists l1 l2, order s = l1 ++ key :: l2 /\ (length l2 <= m)%nat.

Lemma young_put_new key v s s' :
  memory_wf s -> entries s !! key = None -> Put key v s = Some s' -> young key v 0 s' /\ maxEntries s' = maxEntries s.
Proof.
  intros Hwf Hk Hput. destruct (Put_refines key v s Hwf) as (s0 & Hp & Hwf' & Hm & _).
  assert (s0 = s') as -> by congruence. unfold Put in Hput. rewrite Hk in Hput.
  split; [|done]. split; [done|].
  destruct (_ <=? _)%nat; [destruct (order s) as [|o rest]; [done|]|]; injection Hput as <-;
    (split; [apply lookup_insert_eq|]); cbn [order]; [exists rest, []|exists (order s), []]; done.
Qed.

Lemma young_put key v m k x s s' :
  young key v m s -> k <> key -> (S m < maxEntries s)%nat -> Put k x s = Some s' -> young key v (S m) s'.
Proof.
  intros (Hwf & Hv & l1 & l2 & Ho & Hl) Hne Hm Hput. destruct (Put_refines k x s Hwf) as (s0 & Hp & Hwf' & _).
  assert (s0 = s') as -> by congruence. split; [done|]. unfold Put in Hput. destruct (entries s !! k).
  { injection Hput as <-. cbn. split; [by rewrite lookup_insert_ne|]. exists l1, l2. split; [done|lia]. }
  destruct (Nat.leb_spec (maxEntries s) (length (order s))) as [Hfull|Hroom].
  - destruct l1 as [|o l1]; [rewrite Ho in Hfull; cbn in Hfull; lia|]. rewrite Ho in Hput. cbn in Hput. injection Hput as <-.
    destruct Hwf as [Hnd _ _ _]. rewrite Ho in Hnd. cbn in Hnd. apply NoDup_cons in Hnd as [Hnd _].
    cbn. split; [rewrite lookup_insert_ne, lookup_delete_ne; [done|set_solver|done]|].
    exists l1, (l2 ++ [k]). rewrite <- app_assoc. split; [done|]. rewrite length_app. cbn. lia.
  - injection Hput as <-. cbn. split; [by rewrite lookup_insert_ne|]. exists l1, (l2 ++ [k]). rewrite Ho, <- app_assoc.
    split; [done|]. rewrite length_app. cbn. lia.
Qed.

Lemma young_get key v m now k s :
  young key v m s -> expired now v = false -> young key v m (Get now k s).2.
Proof.
  intros (Hwf & Hv & l1 & l2 & Ho & Hl) He. destruct (Get_refines now k s Hwf) as (Hwf' & _). split; [done|].
  unfold Get in *. destruct (entries s !! k) as [x|] eqn:Ek; [|by eauto 6]. destruct (expired now x) eqn:Ex; [|by eauto 6].
  cbn [snd entries order] in *. assert (k <> key) as Hne by congruence. split; [by rewrite lookup_delete_ne|].
  rewrite removeFromOrder_spec by apply Hwf. rewrite Ho, List.filter_app. cbn. destruct (String.eqb_spec key k) as [->|]; [done|].
  eexists _, _. split; [done|]. etrans; [apply filter_length_le|done].
Qed.

Definition puts (calls : list store_call) : nat := length (List.filter (fun c => match c with CallPut _ _ => true | _ => false end) calls).
(** No call stores under [key] again, and none is made after [now]. *)
Definition others_until (now : Z) (key : string) (c : store_call) : Prop :=
  match c with CallGet t _ => t <= now | CallPut k _ => k <> key end.

Lemma young_run key v now calls m s :
  young key v m s -> Forall (others_until now key) calls -> now <= sExpiresAt v -> (m + puts calls < maxEntries s)%nat ->
  exists rs s', run_memory calls s = Some (rs, s') /\ young key v (m + puts calls) s'.
Proof.
  intros Hy Hc Hn. revert m s Hy. induction Hc as [|c calls Hc Hcs IH]; intros m s Hy Hm; cbn [run_memory].
  { exists [], s. unfold puts. cbn. by rewrite Nat.add_0_r. }
  destruct c as [t k|k x]; cbn in Hc.
  - assert (young key v m (Get t k s).2) as Hy'. { apply young_get; [done|]. unfold expired. lia. }
    pose proof (Get_kept t k s) as Hk. destruct (Get t k s) as [r s1]. cbn in Hk, Hy'.
    destruct (IH m s1 Hy' ltac:(rewrite Hk; exact Hm)) as (rs & s' & -> & Hy''). cbn. by exists (r :: rs), s'.
  - unfold puts in *. cbn [List.filter length] in *. destruct (Put_refines k x s) as (s1 & Hp & _ & Hm1 & _); [apply Hy|].
    rewrite Hp. cbn [mbind option_bind]. rewrite Nat.add_succ_r in *.
    apply (IH (S m) s1); [by apply (young_put _ _ _ _ _ _ _ Hy Hc ltac:(lia) Hp)|rewrite Hm1; lia].
Qed.


(** A store of two entries: "a" is kept until a second key is put after it,
    and then evicted although it was read last. *)
Definition sample_value (body : string) : Stored := mkStored 200 body "" 60.
Definition small_store : InMemoryStore := mkMemory ∅ [] 2.
Example oldest_evicted :
  (fst <$> run_memory [CallPut "a" (sample_value "a"); CallGet 1 "a"; CallPut "b" (sample_value "b"); CallGet 2 "a";
                       CallPut "c" (sample_value "c"); CallGet 3 "a"] small_store) =
  Some [Some (sample_value "a"); Some (sample_value "a"); None].
Proof. vm_compute. reflexivity. Qed.


(** ** The middleware without a lock *)

(** What the wrapped handler did: it returned an error, or left a response. *)
Inductive handler_result : Type :=
| HandlerError
| HandlerResponse (status : Z) (body contentType : string).

(** What the client gets; the handler's own response or error, or a replay. *)
Inductive served : Type :=
| ServedHandler (r : handler_result)
| ServedReplay (hit : Stored).

Definition defaultCacheStatus (status : Z) : bool := (200 <=? status) && (status <? 300).

(** The flow for a plain store: [get_at] and [put_at] are the instants of the
    lookup and of the store.  [None] is a panic of the store. *)
Definition serve_plain (cache : Z -> bool) (ttl get_at put_at : Z) (key : string) (h : handler_result)
    (s : InMemoryStore) : option (served * InMemoryStore) :=
  match Get get_at key s with
  | (Some hit, s) => Some (ServedReplay hit, s)
  | (None, s) =>
      match h with
      | HandlerError => Some (ServedHandler h, s)
      | HandlerResponse status body contentType =>
          if cache status then
            s ← Put key (mkStored status body contentType (put_at + ttl)) s; Some (ServedHandler h, s)
          else Some (ServedHandler h, s)
      end
  end.

(** A retry that arrives within the TTL of a stored response, before other
    keys, replays it whatever its own handler would have answered. *)
Lemma plain_retry cache ttl t0 t1 t2 t3 key status body ctype h s s1 :
  memory_wf s -> cache status = true -> t2 <= t1 + ttl ->
  serve_plain cache ttl t0 t1 key (HandlerResponse status body ctype) s =
    Some (ServedHandler (HandlerResponse status body ctype), s1) ->
  serve_plain cache ttl t2 t3 key h s1 =
    Some (ServedReplay (mkStored status body ctype (t1 + ttl)), s1).
Proof.
  intros Hwf Hc Ht. unfold serve_plain. destruct (Get t0 key s) as [[hit|] s0] eqn:Eg; [done|].
  rewrite Hc. destruct (Get_refines t0 key s Hwf) as (Hwf0 & _). rewrite Eg in Hwf0. cbn in Hwf0.
  destruct (Put_refines key (mkStored status body ctype (t1 + ttl)) s0 Hwf0) as (s2 & E & Hwf2 & _).
  rewrite E. cbn. intros [= <-].
  assert (entries s2 !! key = Some (mkStored status body ctype (t1 + ttl))) as Hk.
  { unfold Put in E. destruct (entries s0 !! key); [|destruct (_ <=? _)%nat; [destruct (order s0); [done|]|]];
      injection E as <-; cbn; apply lookup_insert_eq. }
  unfold Get. rewrite Hk. unfold expired. cbn.
  destruct (Z.ltb_spec (t1 + ttl) t2); [lia|done].
Qed.

(** ** The composite key *)

Definition nul : ascii := zero.
Definition key_material (ns method path clientKey : string) : string :=
  ns +:+ String nul (method +:+ String nul (path +:+ String nul clientKey)).

Section composite_key.
Context (sha256 : string -> string).

Definition compositeKey (ns method path clientKey : string) : string :=
  hex_encode (sha256 (key_material ns method path clientKey)).

(** Two requests that share a composite key have the same namespace, method,
    path and client key, or their materials are a collision of the hash: users
    and endpoints cannot see each other's replays otherwise.  The namespace,
    the method and the path hold no NUL byte. *)
Theorem compositeKey_binds ns1 m1 p1 k1 ns2 m2 p2 k2 :
  Forall (fun s => str_contains nul s = false) [ns1; m1; p1] ->
  Forall (fun s => str_contains nul s = false) [ns2; m2; p2] ->
  compositeKey ns1 m1 p1 k1 = compositeKey ns2 m2 p2 k2 ->
  (ns1 = ns2 /\ m1 = m2 /\ p1 = p2 /\ k1 = k2) \/
  (key_material ns1 m1 p1 k1 <> key_material ns2 m2 p2 k2 /\
   sha256 (key_material ns1 m1 p1 k1) = sha256 (key_material ns2 m2 p2 k2)).
Proof.
  intros H1 H2 H%hex_encode_inj. destruct (decide (key_material ns1 m1 p1 k1 = key_material ns2 m2 p2 k2)) as [E|Hne]; [left|by right].
  unfold key_material in E. rewrite !Forall_cons in H1, H2. destruct H1 as (? & ? & ? & _), H2 as (? & ? & ? & _).
  apply str_cut_inj in E as [-> E]; [|done..]. apply str_cut_inj in E as [-> E]; [|done..].
  by apply str_cut_inj in E as [-> ->].
Qed.
End composite_key.
