(* ===== verification/IdemStore.v ===== *)
(** * Idempotency: the durable store and the locking flow
    (idempotency/gorm_store.go, idempotency/locker.go, idempotency/middleware.go)

    The table of [GormStore] as a map from key hash to row, with the effect
    of each SQL statement; [Reserve] as the statements it runs; and
    [serveLocked] as a process that takes one statement at a time, so any
    number of requests on any number of replicas interleave.  The clock is
    shared and never goes back. *)

From S2P Require Import Prelude GoStrings IdemMemory.

(** ** The table *)

Inductive row_status : Type := rowPending | rowDone.
#[export] Instance row_status_eq_dec : EqDecision row_status.
Proof. solve_decision. Defined.

(** [created_at] and [updated_at] are not read by the store. *)
Record row := mkRow {
  row_state : row_status; row_code : Z; row_content_type : string; row_body : string;
  row_token : string; row_expires : Z
}.
#[export] Instance row_eq_dec : EqDecision row.
Proof. solve_decision. Defined.

Abbreviation table := (gmap string row).

Definition stored (r : row) : Stored := mkStored (row_code r) (row_body r) (row_content_type r) (row_expires r).

(** [GormStore.Get]. *)
Definition gorm_Get (now : Z) (key : string) (t : table) : option Stored :=
  r ← t !! key;
  if bool_decide (row_state r = rowDone) && (now <? row_expires r) then Some (stored r) else None.

(** [GormStore.Put]: the upsert. *)
Definition gorm_Put (key : string) (v : Stored) (t : table) : table :=
  <[key := mkRow rowDone (sStatusCode v) (sContentType v) (sBody v) "" (sExpiresAt v)]> t.

(** The [INSERT ... ON CONFLICT DO UPDATE ... WHERE expires_at <= now] of
    [Reserve]: whether a row came back, and the table. *)
Definition claim (now : Z) (key token : string) (lease : Z) (t : table) : bool * table :=
  let fresh := mkRow rowPending 0 "" "" token (now + lease) in
  match t !! key with
  | None => (true, <[key := fresh]> t)
  | Some r => if row_expires r <=? now then (true, <[key := fresh]> t) else (false, t)
  end.

(** What the [SELECT] after a lost claim decides, with the instant of the
    claim: a replay, in flight, or try again. *)
Inductive lookup_answer : Type := AnswerReplay (s : Stored) | AnswerInFlight | AnswerRetry.

Definition lookup_row (now : Z) (key : string) (t : table) : lookup_answer :=
  match t !! key with
  | None => AnswerRetry
  | Some r =>
      if bool_decide (row_state r = rowDone) && (now <? row_expires r) then AnswerReplay (stored r)
      else if bool_decide (row_state r = rowPending) && (now <? row_expires r) then AnswerInFlight
      else AnswerRetry
  end.

Definition gorm_Release (key token : string) (t : table) : table :=
  match t !! key with
  | Some r => if bool_decide (row_state r = rowPending) && String.eqb (row_token r) token
              then delete key t else t
  | None => t
  end.

(** The rows removed and the table left. *)
Definition gorm_Cleanup (now : Z) (t : table) : Z * table :=
  let kept := filter (fun p : string * row => now < row_expires p.2) t in
  (Z.of_nat (size t) - Z.of_nat (size kept), kept).

Definition DefaultLockTimeout : Z := 60 * 1000000000.
Definition lease_or_default (lease : Z) : Z := if lease <=? 0 then DefaultLockTimeout else lease.

(** [Reservation]: acquired with a token, a replay, or in flight. *)
Inductive reservation : Type :=
| Acquired (token : string) (expires : Z)
| Replay (s : Stored)
| InFlight.

(** [Reserve] with no other statement in between: the loop runs at most
    three times; [toks] are the tokens drawn, the instants do not advance. *)
Fixpoint reserve_loop (tries : nat) (now : Z) (key : string) (lease : Z) (toks : list string) (t : table) :
    reservation * table :=
  match tries, toks with
  | S tries, token :: toks =>
      match claim now key token lease t with
      | (true, t) => (Acquired token (now + lease), t)
      | (false, t) =>
          match lookup_row now key t with
          | AnswerReplay s => (Replay s, t)
          | AnswerInFlight => (InFlight, t)
          | AnswerRetry => reserve_loop tries now key lease toks t
          end
      end
  | _, _ => (InFlight, t)
  end.
Definition Reserve (now : Z) (key : string) (lease : Z) (toks : list string) (t : table) : reservation * table :=
  reserve_loop 3 now key (lease_or_default lease) toks t.

(** ** The requests as processes *)

Record config := mkConfig {
  cfg_lease : Z;
  cfg_ttl : Z;
  cfg_wait : Z;
  cfg_cache : Z -> bool
}.

(** How a request ends. *)
Inductive outcome : Type :=
| EndReplay (s : Stored)
| EndConflict
| EndUnavailable
| EndCancelled
| EndFailed
| EndResponse (status : Z) (body contentType : string).

(** Where a request is in [serveLocked].  [waiting] is the polling deadline
    once it waits for the request in flight. *)
Inductive proc : Type :=
| AtClaim (tries : nat) (waiting : option Z)
| AtLookup (tries : nat) (waiting : option Z) (claimed_at : Z)
| AtInFlight (waiting : option Z)
| AtHandler (token : string) (expires : Z)
| AtPut (token : string) (expires : Z) (status : Z) (body contentType : string)
| AtRelease (token : string) (o : outcome)
| AtEnd (o : outcome).

Record system := mkSystem {
  sys_now : Z;
  sys_table : table;
  sys_procs : gmap nat (string * proc);
  sys_tokens : gset string
}.

Definition set_proc (i : nat) (key : string) (p : proc) (s : system) : system :=
  mkSystem (sys_now s) (sys_table s) (<[i := (key, p)]> (sys_procs s)) (sys_tokens s).
Definition set_table (t : table) (s : system) : system :=
  mkSystem (sys_now s) t (sys_procs s) (sys_tokens s).
Definition use_token (token : string) (s : system) : system :=
  mkSystem (sys_now s) (sys_table s) (sys_procs s) ({[token]} ∪ sys_tokens s).

(** Another round of the loop of [Reserve], or its [Reservation{}] when the
    rounds are over. *)
Definition after_lookup (tries : nat) (waiting : option Z) (a : lookup_answer) : proc :=
  match a with
  | AnswerReplay s => AtEnd (EndReplay s)
  | AnswerInFlight => AtInFlight waiting
  | AnswerRetry => match tries with O => AtInFlight waiting | S _ => AtClaim tries waiting end
  end.

Section system.
Context (cfg : config).
Let lease := lease_or_default (cfg_lease cfg).

(** One statement of one request, a clock tick, a cleanup, or a new request.
    [timely] restricts to the runs where a handler stores its response
    before its lease ends. *)
Inductive step (timely : bool) : system -> system -> Prop :=
| step_tick s dt : 0 <= dt ->
    step timely s (mkSystem (sys_now s + dt) (sys_table s) (sys_procs s) (sys_tokens s))
| step_cleanup s : step timely s (set_table (gorm_Cleanup (sys_now s) (sys_table s)).2 s)
| step_request s i key :
    sys_procs s !! i = None -> step timely s (set_proc i key (AtClaim 3 None) s)
| step_claim s i key n w token :
    sys_procs s !! i = Some (key, AtClaim (S n) w) -> token ∉ sys_tokens s ->
    step timely s
      (let '(won, t) := claim (sys_now s) key token lease (sys_table s) in
       set_proc i key (if won then AtHandler token (sys_now s + lease) else AtLookup n w (sys_now s))
         (use_token token (set_table t s)))
| step_lookup s i key n w at_ :
    sys_procs s !! i = Some (key, AtLookup n w at_) ->
    step timely s (set_proc i key (after_lookup n w (lookup_row at_ key (sys_table s))) s)
| step_store_error s i key n w p :
    sys_procs s !! i = Some (key, p) -> (p = AtClaim n w \/ exists a, p = AtLookup n w a) ->
    step timely s (set_proc i key (AtEnd EndUnavailable) s)
| step_wait s i key w deadline :
    sys_procs s !! i = Some (key, AtInFlight w) -> 0 < cfg_wait cfg ->
    deadline = default (sys_now s + cfg_wait cfg) w -> sys_now s < deadline ->
    step timely s (set_proc i key (AtClaim 3 (Some deadline)) s)
| step_cancel s i key w :
    sys_procs s !! i = Some (key, AtInFlight w) -> 0 < cfg_wait cfg ->
    step timely s (set_proc i key (AtEnd EndCancelled) s)
| step_conflict s i key w :
    sys_procs s !! i = Some (key, AtInFlight w) ->
    (cfg_wait cfg <= 0 \/ exists d, w = Some d /\ d <= sys_now s) ->
    step timely s (set_proc i key (AtEnd EndConflict) s)
| step_handler_fails s i key token e :
    sys_procs s !! i = Some (key, AtHandler token e) ->
    step timely s (set_proc i key (AtRelease token EndFailed) s)
| step_handler_done s i key token e status body ctype :
    sys_procs s !! i = Some (key, AtHandler token e) ->
    step timely s (set_proc i key
      (if cfg_cache cfg status then AtPut token e status body ctype
       else AtRelease token (EndResponse status body ctype)) s)
| step_put s i key token e status body ctype :
    sys_procs s !! i = Some (key, AtPut token e status body ctype) ->
    (timely = true -> sys_now s < e) ->
    step timely s (set_proc i key (AtEnd (EndResponse status body ctype))
      (set_table (gorm_Put key (mkStored status body ctype (sys_now s + cfg_ttl cfg)) (sys_table s)) s))
| step_put_error s i key token e status body ctype :
    sys_procs s !! i = Some (key, AtPut token e status body ctype) ->
    step timely s (set_proc i key (AtEnd (EndResponse status body ctype)) s)
| step_release s i key token o :
    sys_procs s !! i = Some (key, AtRelease token o) ->
    step timely s (set_proc i key (AtEnd o) (set_table (gorm_Release key token (sys_table s)) s))
| step_release_error s i key token o :
    sys_procs s !! i = Some (key, AtRelease token o) -> step timely s (set_proc i key (AtEnd o) s).

End system.

Definition empty_system : system := mkSystem 0 ∅ ∅ ∅.

(** The token and lease end of a request that runs its handler or is about
    to store its response. *)
Definition holds (p : proc) : option (string * Z) :=
  match p with
  | AtHandler token e | AtPut token e _ _ _ => Some (token, e)
  | _ => None
  end.

(** ** Lemmas on the statements *)

(** The token of a request that holds its key or is about to release it. *)
Definition owns (p : proc) : option string :=
  match p with
  | AtHandler token _ | AtPut token _ _ _ _ | AtRelease token _ => Some token
  | _ => None
  end.

Lemma holds_owns p token e : holds p = Some (token, e) -> owns p = Some token.
Proof. by destruct p; cbn; intros [= -> ->]. Qed.

Definition live_row (now : Z) (r : row) : Prop := now < row_expires r.

(** No statement but a claim on a free key, a put or the owner's release
    touches a live row. *)
Lemma claim_live now key token lease t k r :
  t !! k = Some r -> live_row now r -> (claim now key token lease t).2 !! k = Some r /\
  (k = key -> (claim now key token lease t).1 = false).
Proof.
  unfold claim, live_row. intros Hk Hl. destruct (decide (k = key)) as [->|Hne].
  - rewrite Hk. destruct (Z.leb_spec (row_expires r) now); [lia|]. done.
  - split; [|done]. destruct (t !! key) as [r'|]; [destruct (_ <=? _)|]; cbn; by rewrite ?lookup_insert_ne by done.
Qed.

Lemma claim_won now key token lease t :
  (claim now key token lease t).1 = true ->
  (claim now key token lease t).2 !! key = Some (mkRow rowPending 0 "" "" token (now + lease)) /\
  forall r, t !! key = Some r -> row_expires r <= now.
Proof.
  unfold claim. destruct (t !! key) as [r|] eqn:E; [destruct (Z.leb_spec (row_expires r) now); [|done]|];
    cbn; intros _; rewrite lookup_insert_eq; (split; [done|]); naive_solver.
Qed.

Lemma claim_other now key token lease t k :
  k <> key -> (claim now key token lease t).2 !! k = t !! k.
Proof.
  intros Hk. unfold claim. destruct (t !! key) as [r|]; [destruct (_ <=? _)|]; cbn;
    by rewrite ?lookup_insert_ne by done.
Qed.

Lemma cleanup_live now t k r : t !! k = Some r -> live_row now r -> (gorm_Cleanup now t).2 !! k = Some r.
Proof. intros Hk Hl. unfold gorm_Cleanup. cbn. by apply map_lookup_filter_Some. Qed.

Lemma release_other key token t k r :
  t !! k = Some r -> (k = key -> row_state r = rowPending -> row_token r <> token) ->
  gorm_Release key token t !! k = Some r.
Proof.
  intros Hk Hne. unfold gorm_Release. destruct (t !! key) as [r'|] eqn:E; [|done].
  destruct (bool_decide (row_state r' = rowPending) && String.eqb (row_token r') token) eqn:Eb; [|done].
  apply andb_true_iff in Eb as [Ep%bool_decide_eq_true Et%String.eqb_eq].
  destruct (decide (k = key)) as [->|Hk']; [|by rewrite lookup_delete_ne].
  rewrite Hk in E. injection E as <-. by destruct (Hne eq_refl Ep).
Qed.

(** [Reserve] left alone decides in its first round: it acquires exactly
    the keys that are free or whose row has expired, replays exactly the
    completed rows, finds in flight exactly the live reservations, and
    changes the table only to take the key for the lease. *)
Theorem Reserve_correct now key lease token toks t :
  let l := lease_or_default lease in
  0 < l /\
  match t !! key with
  | Some r =>
      if row_expires r <=? now then
        Reserve now key lease (token :: toks) t =
          (Acquired token (now + l), <[key := mkRow rowPending 0 "" "" token (now + l)]> t)
      else Reserve now key lease (token :: toks) t =
        (match row_state r with rowDone => Replay (stored r) | rowPending => InFlight end, t)
  | None => Reserve now key lease (token :: toks) t =
      (Acquired token (now + l), <[key := mkRow rowPending 0 "" "" token (now + l)]> t)
  end.
Proof.
  cbv zeta. split.
  { unfold lease_or_default, DefaultLockTimeout. destruct (Z.leb_spec lease 0); lia. }
  unfold Reserve. cbn [reserve_loop]. unfold claim, lookup_row.
  destruct (t !! key) as [r|] eqn:E; [|done].
  destruct (Z.leb_spec (row_expires r) now) as [|Hl]; [done|].
  cbn. rewrite E. destruct (row_state r); decide_closed; cbn;
    by destruct (Z.ltb_spec now (row_expires r)); [|lia].
Qed.

(** ** The invariant of the locking flow *)

Record lock_inv (s : system) : Prop := {
  li_tokens : forall i key p token, sys_procs s !! i = Some (key, p) -> owns p = Some token ->
    token ∈ sys_tokens s;
  li_unique : forall i j key key' p q token, sys_procs s !! i = Some (key, p) ->
    sys_procs s !! j = Some (key', q) -> owns p = Some token -> owns q = Some token -> i = j;
  li_row : forall i key p token e, sys_procs s !! i = Some (key, p) -> holds p = Some (token, e) ->
    sys_now s < e -> exists r, sys_table s !! key = Some r /\ row_state r = rowPending /\
      row_token r = token /\ row_expires r = e
}.

Lemma lock_inv_empty : lock_inv empty_system.
Proof. by split; cbn; intros *; rewrite ?lookup_empty. Qed.

(** A step that moves request [i] to [p'], with the table [t'] and at most
    the token of [i] new. *)
Lemma lock_inv_move s i key p' t' toks' :
  lock_inv s ->
  sys_tokens s ⊆ toks' ->
  (forall token, owns p' = Some token -> token ∈ toks' /\
     forall j key' q, j <> i -> sys_procs s !! j = Some (key', q) -> owns q <> Some token) ->
  (forall token e, holds p' = Some (token, e) -> sys_now s < e -> exists r, t' !! key = Some r /\
     row_state r = rowPending /\ row_token r = token /\ row_expires r = e) ->
  (forall j k q token r, j <> i -> sys_procs s !! j = Some (k, q) -> holds q = Some (token, row_expires r) ->
     sys_table s !! k = Some r -> row_state r = rowPending -> row_token r = token -> live_row (sys_now s) r ->
     t' !! k = Some r) ->
  lock_inv (mkSystem (sys_now s) t' (<[i := (key, p')]> (sys_procs s)) toks').
Proof.
  intros [Htok Huniq Hrow] Hsub Hown Hnew Hkeep. split; cbn [sys_procs sys_tokens sys_table sys_now].
  - intros j k q token [[<- [= <- <-]]|[Hne Hj]]%lookup_insert_Some Ho; [by apply Hown|eauto].
  - intros j j' k k' q q' token [[<- [= <- <-]]|[Hne Hj]]%lookup_insert_Some
      [[<- [= <- <-]]|[Hne' Hj']]%lookup_insert_Some Ho Ho'; [done|..|eauto].
    + exfalso. by destruct (proj2 (Hown _ Ho) j' k' q').
    + exfalso. by destruct (proj2 (Hown _ Ho') j k q).
  - intros j k q token e [[<- [= <- <-]]|[Hne Hj]]%lookup_insert_Some Hh Hl; [by apply Hnew|].
    destruct (Hrow j k q token e Hj Hh Hl) as (r & Hr & Hp & Ht & He). exists r.
    split_and!; [|done..]. subst. by eapply Hkeep.
Qed.

(** A step of request [i] that leaves the table alone and takes no token. *)
Lemma lock_inv_local s i key p p' :
  lock_inv s -> sys_procs s !! i = Some (key, p) ->
  (forall token, owns p' = Some token -> owns p = Some token) ->
  (forall h, holds p' = Some h -> holds p = Some h) ->
  lock_inv (set_proc i key p' s).
Proof.
  intros Hinv Hi Ho Hh. apply (lock_inv_move s i key _ (sys_table s) (sys_tokens s)); [done|done| | |done]; destruct Hinv as [Htok Huniq Hrow].
  - intros token H%Ho. split; [eauto|]. intros j key' q Hne Hj Hq. apply Hne. eauto.
  - intros token e H%Hh. eauto.
Qed.

Lemma lock_inv_request s i key :
  lock_inv s -> sys_procs s !! i = None -> lock_inv (set_proc i key (AtClaim 3 None) s).
Proof. intros Hinv Hi. by apply (lock_inv_move s i key _ (sys_table s) (sys_tokens s)). Qed.

Section lock.
Context (cfg : config).

Lemma lock_inv_claim s i key n w token lease :
  lock_inv s -> sys_procs s !! i = Some (key, AtClaim (S n) w) -> token ∉ sys_tokens s ->
  lock_inv
    (let '(won, t) := claim (sys_now s) key token lease (sys_table s) in
     set_proc i key (if won then AtHandler token (sys_now s + lease) else AtLookup n w (sys_now s))
       (use_token token (set_table t s))).
Proof.
  intros Hinv Hi Hfresh.
  destruct (claim (sys_now s) key token lease (sys_table s)) as [won t] eqn:Ec.
  assert (Ht : (claim (sys_now s) key token lease (sys_table s)).2 = t) by by rewrite Ec.
  assert (Hw : (claim (sys_now s) key token lease (sys_table s)).1 = won) by by rewrite Ec.
  apply (lock_inv_move s i key _ t ({[token]} ∪ sys_tokens s)); [done|set_solver|..].
  - intros tok Ho. assert (tok = token) as -> by (destruct won; [by injection Ho|done]).
    split; [set_solver|]. intros j key' q _ Hj Hq. apply Hfresh. by eapply li_tokens.
  - intros tok e Hh _. destruct won; [|done]. injection Hh as <- <-.
    destruct (claim_won _ _ _ _ _ Hw) as [Hr _]. rewrite Ht in Hr. by eexists.
  - intros j k q tok r _ _ _ Hr _ _ Hl. rewrite <- Ht. by apply claim_live.
Qed.

Lemma lock_inv_put s i key token e status body ctype v :
  lock_inv s -> sys_procs s !! i = Some (key, AtPut token e status body ctype) -> sys_now s < e ->
  lock_inv (set_proc i key (AtEnd (EndResponse status body ctype))
    (set_table (gorm_Put key v (sys_table s)) s)).
Proof.
  intros Hinv Hi He. apply (lock_inv_move s i key _ _ (sys_tokens s)); try done.
  intros j k q tok r Hne Hj Hh Hr Hp Ht Hl. cbn. unfold gorm_Put.
  rewrite lookup_insert_ne; [done|]. intros <-. apply Hne.
  destruct (li_row s Hinv i key _ token e Hi eq_refl He) as (r' & Hr' & _ & Ht' & _).
  rewrite Hr in Hr'. injection Hr' as <-.
  eapply (li_unique s Hinv); [exact Hj|exact Hi|by eapply holds_owns|]. cbn. congruence.
Qed.

Lemma lock_inv_release s i key token o :
  lock_inv s -> sys_procs s !! i = Some (key, AtRelease token o) ->
  lock_inv (set_proc i key (AtEnd o) (set_table (gorm_Release key token (sys_table s)) s)).
Proof.
  intros Hinv Hi. apply (lock_inv_move s i key _ _ (sys_tokens s)); try done.
  intros j k q tok r Hne Hj Hh Hr Hp Ht Hl. apply release_other; [done|]. intros -> _ Htok. apply Hne.
  eapply (li_unique s Hinv); [exact Hj|exact Hi|by eapply holds_owns|]. cbn. congruence.
Qed.

Lemma step_inv s s' : lock_inv s -> step cfg true s s' -> lock_inv s'.
Proof.
  intros Hinv Hstep. destruct Hstep.
  - destruct Hinv as [? ? Hrow]. split; cbn; eauto. intros i k p tok e Hi Hh Hl. eapply Hrow; [done..|lia].
  - destruct Hinv as [? ? Hrow]. split; cbn; eauto. intros i k p tok e Hi Hh Hl.
    destruct (Hrow i k p tok e Hi Hh Hl) as (r & Hr & Hp & Ht & <-). exists r.
    split_and!; [by apply cleanup_live|done..].
  - by apply lock_inv_request.
  - by eapply lock_inv_claim.
  - eapply lock_inv_local; [done..| |]; unfold after_lookup;
      destruct (lookup_row _ _ _); try done; by destruct n.
  - eapply lock_inv_local; done.
  - eapply lock_inv_local; done.
  - eapply lock_inv_local; done.
  - eapply lock_inv_local; done.
  - eapply lock_inv_local; [done..| |]; cbn; [naive_solver|done].
  - eapply lock_inv_local; [done..| |]; destruct (cfg_cache cfg status); cbn; naive_solver.
  - eapply lock_inv_put; eauto.
  - eapply lock_inv_local; done.
  - by eapply lock_inv_release.
  - eapply lock_inv_local; done.
Qed.

Lemma reachable_inv s : rtc (step cfg true) empty_system s -> lock_inv s.
Proof.
  intros H. remember empty_system as s0 eqn:E. assert (lock_inv s0) as Hi by (subst; apply lock_inv_empty).
  clear E. induction H as [|x y z Hxy _ IH]; [done|]. apply IH. by eapply step_inv.
Qed.

End lock.

(** C33: while the replicas share one clock and every response that is stored
    is stored within its handler's lease ([step cfg true]): a request that
    holds a key under a live lease (it runs the handler or is about to store
    its response) has its own pending row on record, and no other request
    holds the key under a live lease, whatever the number of requests and
    replicas and the interleaving of their statements, of cleanups, of store
    failures and of the clock. *)
Theorem handler_exclusive cfg s i key p token e :
  rtc (step cfg true) empty_system s ->
  sys_procs s !! i = Some (key, p) -> holds p = Some (token, e) -> sys_now s < e ->
  (exists r, sys_table s !! key = Some r /\ row_state r = rowPending /\ row_token r = token /\ row_expires r = e) /\
  forall j q token' e', j <> i -> sys_procs s !! j = Some (key, q) -> holds q = Some (token', e') -> e' <= sys_now s.
Proof.
  intros [_ Huniq Hrow]%reachable_inv Hi Hp He. pose proof (Hrow _ _ _ _ _ Hi Hp He) as Hown. split; [done|].
  intros j q token' e' Hne Hj Hq. destruct (Z.le_gt_cases e' (sys_now s)) as [Hle|Hgt]; [done|]. exfalso.
  destruct Hown as (r & Hr & _ & Ht & _). destruct (Hrow _ _ _ _ _ Hj Hq Hgt) as (r' & Hr' & _ & Ht' & _).
  rewrite Hr in Hr'. injection Hr' as <-. subst. apply holds_owns in Hp, Hq. apply Hne. eauto.
Qed.

Definition sample_config : config := mkConfig 60 3600 0 defaultCacheStatus.

(** Request 0 holds its key; request 1 with the same key finds it in flight. *)
Definition busy_system : system :=
  mkSystem 0 {["k" := mkRow rowPending 0 "" "" "t0" 60]}
    {[0%nat := ("k"%string, AtHandler "t0" 60); 1%nat := ("k"%string, AtInFlight None)]} {["t0"; "t1"]}.

Lemma busy_system_reachable : rtc (step sample_config true) empty_system busy_system.
Proof.
  eapply rtc_l. { by apply (step_request sample_config true empty_system 0 "k"). }
  eapply rtc_l. { apply (step_claim _ _ _ 0 "k" 2 None "t0"); [by vm_compute|cbn; set_solver]. }
  eapply rtc_l. { by apply (step_request _ _ _ 1 "k"). }
  eapply rtc_l. { apply (step_claim _ _ _ 1 "k" 2 None "t1"); [by vm_compute|].
    apply not_elem_of_union; split; [set_solver|by vm_compute]. }
  eapply rtc_l. { apply (step_lookup _ _ _ 1 "k" 2 None 0). by vm_compute. }
  assert (forall x y : system, sys_now x = sys_now y -> sys_table x = sys_table y ->
    sys_procs x = sys_procs y -> sys_tokens x = sys_tokens y -> x = y) as Heq.
  { intros [] []; cbn. congruence. }
  match goal with |- rtc _ ?x _ => assert (x = busy_system) as -> end; [|apply rtc_refl].
  apply Heq; [reflexivity|vm_compute; reflexivity|vm_compute; reflexivity|].
  apply set_eq. intros x. cbn. set_solver.
Qed.

(** Request 0 still runs its handler when its lease has run out; request 1
    took the key over. *)
Definition taken_over : system :=
  mkSystem 61 {["k" := mkRow rowPending 0 "" "" "t1" 121]}
    {[0%nat := ("k"%string, AtHandler "t0" 60); 1%nat := ("k"%string, AtHandler "t1" 121)]} {["t0"; "t1"]}.

Lemma taken_over_reachable : rtc (step sample_config true) empty_system taken_over.
Proof.
  eapply rtc_l. { by apply (step_request sample_config true empty_system 0 "k"). }
  eapply rtc_l. { apply (step_claim _ _ _ 0 "k" 2 None "t0"); [by vm_compute|cbn; set_solver]. }
  eapply rtc_l. { by apply (step_tick _ _ _ 61). }
  eapply rtc_l. { by apply (step_request _ _ _ 1 "k"). }
  eapply rtc_l. { apply (step_claim _ _ _ 1 "k" 2 None "t1"); [by vm_compute|].
    apply not_elem_of_union; split; [set_solver|by vm_compute]. }
  assert (forall x y : system, sys_now x = sys_now y -> sys_table x = sys_table y ->
    sys_procs x = sys_procs y -> sys_tokens x = sys_tokens y -> x = y) as Heq.
  { intros [] []; cbn. congruence. }
  match goal with |- rtc _ ?x _ => assert (x = taken_over) as -> end; [|apply rtc_refl].
  apply Heq; [by vm_compute..|]. vm_compute. set_solver.
Qed.

(** Two requests of one key run handlers; only request 1 holds it. *)
Lemma handler_exclusive_witness :
  exists s r, rtc (step sample_config true) empty_system s /\
    sys_procs s !! 0%nat = Some ("k"%string, AtHandler "t0" 60) /\ sys_procs s !! 1%nat = Some ("k"%string, AtHandler "t1" 121) /\
    sys_table s !! "k"%string = Some r /\ row_token r = "t1"%string /\ 60 <= sys_now s.
Proof.
  destruct (handler_exclusive sample_config taken_over 1 "k" (AtHandler "t1" 121) "t1" 121) as [(r & Hr & _ & Ht & _) Hothers];
    [exact taken_over_reachable|vm_compute; reflexivity..|].
  exists taken_over, r. split_and!; [exact taken_over_reachable|vm_compute; reflexivity..|exact Hr|exact Ht|].
  apply (Hothers 0%nat (AtHandler "t0" 60) "t0"%string); [discriminate|vm_compute; reflexivity..].
Defined.

(** ** A stored response is what every retry gets *)

Section replay.
Context (cfg : config) (key : string) (r : row) (Hdone : row_state r = rowDone).

(** The requests that run a handler for the key are among those that did. *)
Definition no_new_handler (s s' : system) : Prop :=
  forall i p', sys_procs s' !! i = Some (key, p') -> is_Some (holds p') ->
  exists p, sys_procs s !! i = Some (key, p) /\ holds p = holds p'.

Lemma no_new_handler_refl s : no_new_handler s s.
Proof. intros i p H _. by exists p. Qed.

Lemma no_new_handler_trans s1 s2 s3 :
  no_new_handler s1 s2 -> no_new_handler s2 s3 -> no_new_handler s1 s3.
Proof.
  intros H1 H2 i p3 Hi Hh. destruct (H2 i p3 Hi Hh) as (p2 & Hp2 & E2).
  rewrite <- E2 in Hh. destruct (H1 i p2 Hp2 Hh) as (p1 & Hp1 & E1). exists p1. split; [done|]. congruence.
Qed.

Lemma no_new_handler_move s i k p p' t toks now :
  sys_procs s !! i = Some (k, p) -> (k = key -> is_Some (holds p') -> holds p = holds p') ->
  no_new_handler s (mkSystem now t (<[i := (k, p')]> (sys_procs s)) toks).
Proof.
  intros Hi Hh j q. cbn [sys_procs].
  intros [[<- [= -> ->]]|[Hne Hj]]%lookup_insert_Some Hq; [|by exists q].
  exists p. split; [done|]. auto.
Qed.

Lemma replay_step s s' :
  lock_inv s -> sys_table s !! key = Some r -> live_row (sys_now s) r -> step cfg true s s' ->
  sys_table s' !! key = Some r /\ no_new_handler s s'.
Proof.
  intros Hinv Hr Hl Hstep.
  assert (Hmv : forall i k p p' t toks now, sys_procs s !! i = Some (k, p) ->
    (k = key -> is_Some (holds p') -> holds p = holds p') ->
    no_new_handler s (mkSystem now t (<[i := (k, p')]> (sys_procs s)) toks))
    by (intros; by eapply no_new_handler_move).
  destruct Hstep; cbn; try (split; [exact Hr|]);
    try (eapply Hmv; [eassumption|by intros _ [? ?]]).
  - intros i p Hi _. by exists p.
  - split; [by apply cleanup_live|]. intros i p Hi _. by exists p.
  - intros j q. cbn. intros [[<- [= -> <-]]|[Hne Hj]]%lookup_insert_Some Hq; [by destruct Hq|by exists q].
  - destruct (claim_live (sys_now s) key0 token (lease_or_default (cfg_lease cfg)) _ _ _ Hr Hl) as [Hk Hlost].
    destruct (claim _ _ _ _ _) as [won t]. cbn in *. split; [done|].
    eapply Hmv; [eassumption|]. intros ->. rewrite (Hlost eq_refl). by intros [? ?].
  - eapply Hmv; [eassumption|]. intros _. unfold after_lookup.
    destruct (lookup_row _ _ _); try (by intros [? ?]). destruct n; by intros [? ?].
  - eapply Hmv; [eassumption|]. destruct (cfg_cache cfg status); [done|by intros _ [? ?]].
  - match goal with H : sys_procs s !! _ = Some (key0, AtPut _ _ _ _ _) |- _ => rename H into Hi end.
    split; [|eapply Hmv; [eassumption|by intros _ [? ?]]].
    unfold gorm_Put. rewrite lookup_insert_ne; [done|]. intros ->.
    destruct (li_row s Hinv i key _ token e Hi eq_refl ltac:(auto)) as (r' & Hr' & Hp & _).
    congruence.
  - split; [|eapply Hmv; [eassumption|by intros _ [? ?]]].
    apply release_other; [done|]. intros _ Hp. congruence.
Qed.
End replay.

Lemma lookup_done_live now key t r :
  t !! key = Some r -> row_state r = rowDone -> live_row now r ->
  lookup_row now key t = AnswerReplay (stored r).
Proof.
  unfold lookup_row, live_row. intros -> Hd Hl. rewrite Hd. decide_closed.
  by destruct (Z.ltb_spec now (row_expires r)); [|lia].
Qed.

(** Exactly once.  Once a response is stored for a key, then until its
    TTL ends the row stays as it is whatever happens, no request begins to
    run its handler for that key, a claim of the key is lost, and a request
    that looks it up replays the stored response. *)
Theorem stored_response_replays cfg s s' key r :
  rtc (step cfg true) empty_system s ->
  sys_table s !! key = Some r -> row_state r = rowDone ->
  rtc (step cfg true) s s' -> sys_now s' < row_expires r ->
  sys_table s' !! key = Some r /\ no_new_handler key s s' /\
  (forall token lease, (claim (sys_now s') key token lease (sys_table s')).1 = false) /\
  lookup_row (sys_now s') key (sys_table s') = AnswerReplay (stored r).
Proof.
  intros Hreach%reachable_inv Hr Hd Hrun Hnow.
  assert (Hmono : forall x y, step cfg true x y -> sys_now x <= sys_now y).
  { intros x y []; cbn; try lia. by destruct (claim _ _ _ _ _). }
  assert (sys_table s' !! key = Some r /\ no_new_handler key s s') as [Hr' Hnn].
  { induction Hrun as [x|x y z Hxy Hyz IH].
    - split; [done|apply no_new_handler_refl].
    - assert (sys_now y <= sys_now z).
      { clear -Hmono Hyz. induction Hyz as [|a b c Hab _ IH]; [lia|]. specialize (Hmono _ _ Hab). lia. }
      pose proof (Hmono _ _ Hxy).
      destruct (replay_step cfg key r Hd x y Hreach Hr) as [Hry Hn]; [unfold live_row; lia|done|].
      destruct IH as [? Hn']; [by eapply step_inv|done|done|]. split; [done|].
      by eapply no_new_handler_trans. }
  split_and!; [done..| |by apply lookup_done_live].
  intros token lease. by apply (claim_live _ _ _ _ _ key r).
Qed.

Definition done_system : system :=
  mkSystem 5 {["k" := mkRow rowDone 201 "application/json" "{}" "" 3605]}
    {[0%nat := ("k"%string, AtEnd (EndResponse 201 "{}" "application/json"))]} {["t0"]}.

Lemma done_system_reachable : rtc (step sample_config true) empty_system done_system.
Proof.
  eapply rtc_l. { by apply (step_request sample_config true empty_system 0 "k"). }
  eapply rtc_l. { apply (step_claim _ _ _ 0 "k" 2 None "t0"); [by vm_compute|cbn; set_solver]. }
  eapply rtc_l. { by apply (step_tick _ _ _ 5). }
  eapply rtc_l. { apply (step_handler_done _ _ _ 0 "k" "t0" 60 201 "{}" "application/json"). by vm_compute. }
  eapply rtc_l. { apply (step_put _ _ _ 0 "k" "t0" 60 201 "{}" "application/json"); [by vm_compute|by intros _]. }
  assert (forall x y : system, sys_now x = sys_now y -> sys_table x = sys_table y ->
    sys_procs x = sys_procs y -> sys_tokens x = sys_tokens y -> x = y) as Heq.
  { intros [] []; cbn. congruence. }
  match goal with |- rtc _ ?x _ => assert (x = done_system) as -> end; [|apply rtc_refl].
  apply Heq; [reflexivity|vm_compute; reflexivity|vm_compute; reflexivity|].
  apply set_eq. intros x. cbn. set_solver.
Qed.

Lemma stored_response_replays_witness :
  rtc (step sample_config true) empty_system done_system /\
  lookup_row 5 "k" (sys_table done_system) =
    AnswerReplay (mkStored 201 "{}" "application/json" 3605).
Proof.
  split; [exact done_system_reachable|].
  apply (stored_response_replays sample_config done_system done_system "k"
    (mkRow rowDone 201 "application/json" "{}" "" 3605)); try exact done_system_reachable;
    [vm_compute; reflexivity|reflexivity|apply rtc_refl|vm_compute; reflexivity].
Defined.
