(* ===== verification/Outbox.v ===== *)
(** * Outbox: the job table (outbox/job.go, outbox/service.go, outbox/worker.go)

    The rows of [metacore_outbox_jobs] and the SQL statements the service
    runs on them: enqueue with its dedupe index, claim, heartbeat, the four
    outcomes of [finish], [ReapStuck], [Retry] and [Cleanup]; and
    [ExponentialBackoff].  The table invariant and what each statement does
    to a row.  Instants and durations are nanoseconds. *)

From S2P Require Import Prelude GoStrings Tables.

(** ** Data *)

Inductive JobStatus : Type := JobPending | JobRunning | JobDone | JobDead.
#[export] Instance JobStatus_eq_dec : EqDecision JobStatus.
Proof. solve_decision. Defined.

(** A row; [locked_by] is the lease token. *)
Record Job := mkJob {
  jOrg : option string; jKind : string; jPayload : string;
  jStatus : JobStatus; jAttempts : Z; jMaxAttempts : Z; jRunAt : Z; jLastError : string;
  jDedupeKey : option string; jLockedUntil : option Z; jLockedBy : option string;
  jCreatedAt : Z; jUpdatedAt : Z
}.

Abbreviation jobs := (gmap string Job).

(** An UPDATE of the mutable columns. *)
Definition update (r : Job) (s : JobStatus) (attempts run_at : Z) (last_error : string)
    (lock : option (Z * string)) (now : Z) : Job :=
  mkJob (jOrg r) (jKind r) (jPayload r) s attempts (jMaxAttempts r) run_at last_error (jDedupeKey r)
    (fst <$> lock) (snd <$> lock) (jCreatedAt r) now.

Inductive outbox_error : Type :=
| ErrDuplicate | ErrNotFound | ErrNotRetryable | ErrKindRequired | ErrKeptConflicting | ErrNoRow.
#[export] Instance outbox_error_eq_dec : EqDecision outbox_error.
Proof. solve_decision. Defined.

(** The configuration after the defaults of [New]. *)
Record outbox_config := mkOutboxConfig {
  oc_lease : Z; oc_max_attempts : Z; oc_retain_done : Z; oc_retain_dead : Z
}.
Definition DefaultLeaseTimeout : Z := 300 * 1000000000.
Definition DefaultMaxAttempts : Z := 10.
Definition DefaultRetainDone : Z := 7 * 24 * 3600 * 1000000000.
Definition New_config (lease max_attempts retain_done retain_dead : Z) : outbox_config :=
  mkOutboxConfig (if lease <=? 0 then DefaultLeaseTimeout else lease)
    (if max_attempts <=? 0 then DefaultMaxAttempts else max_attempts)
    (if retain_done =? 0 then DefaultRetainDone else retain_done) retain_dead.

Definition maxErrorLen : nat := 4096.
Definition truncate (s : string) : string := to_valid_utf8 (str_take maxErrorLen s).
#[global] Opaque truncate.

Definition live (r : Job) : bool :=
  match jStatus r with JobPending | JobRunning => true | _ => false end.

(** The partial unique index on (kind, dedupe_key) over the live rows: [r]
    collides with another row of the table. *)
Definition same_key (r q : Job) : bool :=
  String.eqb (jKind r) (jKind q) &&
  match jDedupeKey r, jDedupeKey q with Some a, Some b => String.eqb a b | _, _ => false end.
Definition violates (id : string) (r : Job) (t : jobs) : bool :=
  live r && bool_decide (map_Exists (fun i q => i <> id /\ live q = true /\ same_key r q = true) t).

(** ** Enqueue *)

Record enqueueOptions := mkEnqueueOptions {
  eo_org : option string; eo_dedupe : option string; eo_run_at : option Z; eo_delay : Z;
  eo_max_attempts : Z
}.

(** INSERT ... ON CONFLICT DO NOTHING: [None] is no row returned. *)
Definition enqueue_insert (id : string) (r : Job) (t : jobs) : option Job * jobs :=
  match t !! id with
  | Some _ => (None, t)
  | None => if violates id r t then (None, t) else (Some r, <[id := r]> t)
  end.

Definition enqueue_row (cfg : outbox_config) (kind payload : string) (o : enqueueOptions) (now : Z) : Job :=
  let max_attempts := if eo_max_attempts o <=? 0 then oc_max_attempts cfg else eo_max_attempts o in
  let run_at := default (now + eo_delay o) (eo_run_at o) in
  mkJob (eo_org o) kind payload JobPending 0 max_attempts run_at "" (eo_dedupe o) None None now now.

(** The SELECT of a live row with the same kind and key, LIMIT 1. *)
Definition dedupe_lookup (kind key : string) (t : jobs) : option (string * Job) :=
  head (map_to_list (filter (fun p : string * Job =>
    live p.2 = true /\ jKind p.2 = kind /\ jDedupeKey p.2 = Some key) t)).

(** [enqueue] with no other statement in between; [ids] are the uuids drawn.
    On [ErrDuplicate] the existing job is returned too. *)
Fixpoint enqueue_loop (tries : nat) (ids : list string) (r : Job) (t : jobs) :
    result outbox_error (string * Job) * option (string * Job) * jobs :=
  match tries, ids with
  | S tries, id :: ids =>
      match enqueue_insert id r t with
      | (Some r, t) => (Ok (id, r), None, t)
      | (None, t) =>
          match jDedupeKey r with
          | None => (Err ErrNoRow, None, t)
          | Some key =>
              match dedupe_lookup (jKind r) key t with
              | Some existing => (Err ErrDuplicate, Some existing, t)
              | None => enqueue_loop tries ids r t
              end
          end
      end
  | _, _ => (Err ErrKeptConflicting, None, t)
  end.

Definition Enqueue (cfg : outbox_config) (now : Z) (kind payload : string) (o : enqueueOptions)
    (ids : list string) (t : jobs) : result outbox_error (string * Job) * option (string * Job) * jobs :=
  if String.eqb kind "" then (Err ErrKindRequired, None, t)
  else enqueue_loop 3 ids (enqueue_row cfg kind payload o now) t.

(** ** Claim *)

(** Due: pending and its time has come, or running with an expired lease and
    attempts left. *)
Definition due (now : Z) (kinds : list string) (r : Job) : bool :=
  bool_decide (jKind r ∈ kinds) &&
  ((bool_decide (jStatus r = JobPending) && (jRunAt r <=? now)) ||
   (bool_decide (jStatus r = JobRunning) &&
    match jLockedUntil r with Some u => u <? now | None => false end &&
    (jAttempts r <? jMaxAttempts r))).

(** ORDER BY run_at, created_at. *)
Definition before (a b : string * Job) : bool :=
  (jRunAt a.2 <? jRunAt b.2) || ((jRunAt a.2 =? jRunAt b.2) && (jCreatedAt a.2 <=? jCreatedAt b.2)).
Definition sort_jobs (l : list (string * Job)) : list (string * Job) := sort_by before l.

Definition claimed_row (now : Z) (lease : Z) (token : string) (r : Job) : Job :=
  update r JobRunning (jAttempts r + 1) (jRunAt r) (jLastError r) (Some (now + lease, token)) now.

(** The candidates: due rows that no concurrent statement has locked
    (SKIP LOCKED), first [n] of them. *)
Definition candidates (now : Z) (kinds : list string) (locked : gset string) (n : nat) (t : jobs) :
    list (string * Job) :=
  take n (sort_jobs (List.filter (fun p => due now kinds p.2 && negb (bool_decide (p.1 ∈ locked)))
    (map_to_list t))).

Definition claim (cfg : outbox_config) (now : Z) (kinds : list string) (locked : gset string) (n : nat)
    (token : string) (t : jobs) : list (string * Job) * jobs :=
  let claimed := map (fun p => (p.1, claimed_row now (oc_lease cfg) token p.2)) (candidates now kinds locked n t) in
  (claimed, write_all claimed t).

(** ** While a job runs, and after *)

(** WHERE id = ? AND status = 'running' AND locked_by = ? *)
Definition owned (id token : string) (t : jobs) : option Job :=
  r ← t !! id;
  if bool_decide (jStatus r = JobRunning) && bool_decide (jLockedBy r = Some token) then Some r else None.

(** The flag is false when no row was affected: the lease is lost. *)
Definition heartbeat (cfg : outbox_config) (now : Z) (id token : string) (t : jobs) : bool * jobs :=
  match owned id token t with
  | None => (false, t)
  | Some r =>
      (true, <[id := update r JobRunning (jAttempts r) (jRunAt r) (jLastError r)
                       (Some (now + oc_lease cfg, token)) now]> t)
  end.

(** How an attempt ended: the handler's error, if any, with what
    [IsPermanent] and [retryDelay] say of it, and the cause its context was
    cancelled with. *)
Inductive cause : Type := CauseNone | CauseLeaseLost | CauseShutdown.
#[export] Instance cause_eq_dec : EqDecision cause.
Proof. solve_decision. Defined.
Record handler_error := mkHandlerError { he_message : string; he_permanent : bool; he_retry_after : option Z }.

Section finish.
Context (backoff : Z -> Z).

(** The columns [finish] writes, for the job as claimed ([attempts] and
    [max_attempts] of the row returned by the claim). *)
Definition finish_row (now attempts max_attempts : Z) (herr : option handler_error) (c : cause) (r : Job) : Job :=
  match herr with
  | None => update r JobDone (jAttempts r) (jRunAt r) "" None now
  | Some e =>
      if bool_decide (c = CauseShutdown) then
        update r JobPending (if 0 <? jAttempts r then jAttempts r - 1 else 0) now (jLastError r) None now
      else if he_permanent e || (max_attempts <=? attempts) then
        update r JobDead (jAttempts r) (jRunAt r) (truncate (he_message e)) None now
      else
        let delay := default (backoff attempts) (he_retry_after e) in
        update r JobPending (jAttempts r) (now + delay) (truncate (he_message e)) None now
  end.

Definition finish (now : Z) (id token : string) (attempts max_attempts : Z) (herr : option handler_error)
    (c : cause) (t : jobs) : jobs :=
  if bool_decide (c = CauseLeaseLost) then t else
  match owned id token t with
  | None => t
  | Some r => <[id := finish_row now attempts max_attempts herr c r]> t
  end.
End finish.

Definition stuck (now : Z) (r : Job) : bool :=
  bool_decide (jStatus r = JobRunning) &&
  match jLockedUntil r with Some u => u <? now | None => false end && (jMaxAttempts r <=? jAttempts r).

Definition reap_message : string :=
  "outbox: lease expired on the final attempt (worker crashed or timed out)".
Definition ReapStuck (now : Z) (t : jobs) : jobs :=
  (fun r => if stuck now r then
     update r JobDead (jAttempts r) (jRunAt r)
       (if String.eqb (jLastError r) "" then reap_message else jLastError r) None now
   else r) <$> t.

Definition Retry (now : Z) (id : string) (t : jobs) : result outbox_error Job * jobs :=
  match t !! id with
  | None => (Err ErrNotFound, t)
  | Some r =>
      match jStatus r with
      | JobPending | JobDead =>
          let r' := update r JobPending (if bool_decide (jStatus r = JobDead) then 0 else jAttempts r) now
                      (jLastError r) None now in
          if violates id r' t then (Err ErrDuplicate, t) else (Ok r', <[id := r']> t)
      | _ => (Err ErrNotRetryable, t)
      end
  end.

(** The rows retention deletes; a retention that is not positive keeps them. *)
Definition expired (cfg : outbox_config) (now : Z) (r : Job) : bool :=
  match jStatus r with
  | JobDone => (0 <? oc_retain_done cfg) && (jUpdatedAt r <? now - oc_retain_done cfg)
  | JobDead => (0 <? oc_retain_dead cfg) && (jUpdatedAt r <? now - oc_retain_dead cfg)
  | _ => false
  end.
Definition Cleanup (cfg : outbox_config) (now : Z) (t : jobs) : jobs :=
  filter (fun p : string * Job => expired cfg now p.2 = false) t.

(** ** ExponentialBackoff *)

(** The doubling loop on int64 durations. [fuel] bounds its iterations. *)
Fixpoint double_until (fuel : nat) (i attempt d max : Z) : option Z :=
  if (i <? attempt) && (d <? max) then
    match fuel with
    | O => None
    | S fuel => double_until fuel (i + 1) attempt (wrap64 (d * 2)) max
    end
  else Some d.

(** [jitter n] is the number [rand.N(n)] returns, in [0, n). *)
Definition ExponentialBackoff (jitter : Z -> Z) (base max attempt : Z) : option Z :=
  let attempt := if attempt <? 1 then 1 else attempt in
  d ← double_until 64 1 attempt base max;
  let d := Z.min d max in
  let half := Z.quot d 2 in
  Some (if half <=? 0 then d else half + jitter (half + 1)).

(** ** Rows and table invariant *)

Record job_wf (r : Job) : Prop := {
  jw_attempts : 0 <= jAttempts r <= jMaxAttempts r;
  jw_positive : 0 < jMaxAttempts r;
  jw_pending : jStatus r = JobPending -> jAttempts r < jMaxAttempts r;
  jw_running : jStatus r = JobRunning -> 0 < jAttempts r;
  jw_lock : jStatus r = JobRunning <-> is_Some (jLockedBy r);
  jw_locks : is_Some (jLockedBy r) <-> is_Some (jLockedUntil r)
}.

Record table_inv (t : jobs) : Prop := {
  ti_wf : forall i r, t !! i = Some r -> job_wf r;
  ti_dedupe : forall i j r q, t !! i = Some r -> t !! j = Some q ->
    live r = true -> live q = true -> same_key r q = true -> i = j
}.

Lemma same_key_sym r q : same_key r q = same_key q r.
Proof.
  unfold same_key. rewrite (String.eqb_sym (jKind r)).
  destruct (jDedupeKey r), (jDedupeKey q); try done. by rewrite (String.eqb_sym s).
Qed.

Lemma same_key_update r q s a ru e l n s' a' ru' e' l' n' :
  same_key (update r s a ru e l n) (update q s' a' ru' e' l' n') = same_key r q.
Proof. done. Qed.

Lemma live_running r : jStatus r = JobRunning -> live r = true.
Proof. unfold live. by intros ->. Qed.

(** A change that keeps kinds and keys and brings no row to life. *)
Lemma table_inv_rows t t' :
  table_inv t ->
  (forall i r', t' !! i = Some r' -> job_wf r' /\ exists r, t !! i = Some r /\
     jKind r' = jKind r /\ jDedupeKey r' = jDedupeKey r /\ (live r' = true -> live r = true)) ->
  table_inv t'.
Proof.
  intros [Hwf Hd] H. split.
  - intros i r' Hr. by apply H in Hr as [? _].
  - intros i j r' q' Hr Hq Hlr Hlq Hk.
    apply H in Hr as (_ & r & Hr & Er & Er' & Hl). apply H in Hq as (_ & q & Hq & Eq & Eq' & Hl').
    apply (Hd i j r q); auto. unfold same_key in *. by rewrite <- Er, <- Er', <- Eq, <- Eq'.
Qed.

Lemma violates_spec id r t :
  violates id r t = false <->
  (live r = true -> forall i q, t !! i = Some q -> i <> id -> live q = true -> same_key r q = false).
Proof.
  unfold violates. rewrite andb_false_iff, bool_decide_eq_false. split.
  - intros [H|H] Hl i q Hq Hi Hlq; [congruence|]. apply not_true_iff_false. intros Hk. apply H.
    exists i, q. done.
  - intros H. destruct (live r); [right|by left]. intros (i & q & Hq & Hi & Hlq & Hk).
    specialize (H eq_refl i q Hq Hi Hlq). congruence.
Qed.

(** Writing one row that collides with no other. *)
Lemma table_inv_insert t id r :
  table_inv t -> job_wf r -> violates id r t = false -> table_inv (<[id := r]> t).
Proof.
  intros [Hwf Hd] Hr Hv. rewrite violates_spec in Hv. split.
  - intros i q [[<- <-]|[_ Hq]]%lookup_insert_Some; eauto.
  - intros i j q q' [[<- <-]|[Hi Hq]]%lookup_insert_Some [[<- <-]|[Hj Hq']]%lookup_insert_Some Hl Hl' Hk; auto.
    + exfalso. rewrite (Hv Hl j q') in Hk; done.
    + exfalso. rewrite same_key_sym in Hk. rewrite (Hv Hl' i q) in Hk; done.
    + eauto.
Qed.

Lemma enqueue_row_wf cfg kind payload o now :
  0 < oc_max_attempts cfg -> job_wf (enqueue_row cfg kind payload o now).
Proof.
  intros H. unfold enqueue_row.
  assert (0 < (if eo_max_attempts o <=? 0 then oc_max_attempts cfg else eo_max_attempts o)).
  { destruct (Z.leb_spec (eo_max_attempts o) 0); lia. }
  split; cbn; try lia; try done; split; try done; by intros [? ?].
Qed.

Lemma enqueue_insert_inv id r t :
  table_inv t -> job_wf r -> table_inv (enqueue_insert id r t).2.
Proof.
  intros Ht Hr. unfold enqueue_insert. destruct (t !! id); [done|].
  destruct (violates id r t) eqn:E; [done|]. by apply table_inv_insert.
Qed.

(** ** Claim *)

Lemma sort_jobs_perm l : sort_jobs l ≡ₚ l.
Proof. apply sort_by_perm. Qed.

Lemma before_trans a b c : before a b = true -> before b c = true -> before a c = true.
Proof.
  unfold before. rewrite !orb_true_iff, !andb_true_iff, !Z.ltb_lt, !Z.eqb_eq, !Z.leb_le. lia.
Qed.

Lemma before_total a b : before a b = false -> before b a = true.
Proof.
  unfold before. rewrite orb_false_iff, andb_false_iff, orb_true_iff, andb_true_iff.
  rewrite Z.ltb_ge, Z.eqb_neq, Z.leb_gt, Z.ltb_lt, Z.eqb_eq, Z.leb_le. lia.
Qed.

Lemma sort_jobs_sorted l : StronglySorted (fun a b => before a b = true) (sort_jobs l).
Proof. apply sort_by_sorted; [exact before_trans|exact before_total]. Qed.

Lemma elem_of_due now kinds locked t p :
  p ∈ List.filter (fun p => due now kinds p.2 && negb (bool_decide (p.1 ∈ (locked : gset string))))
        (map_to_list t) <->
  t !! p.1 = Some p.2 /\ due now kinds p.2 = true /\ p.1 ∉ locked.
Proof.
  destruct p as [i r]. rewrite list_elem_of_In, filter_In, <- list_elem_of_In, elem_of_map_to_list.
  rewrite andb_true_iff, negb_true_iff, bool_decide_eq_false. done.
Qed.

Lemma NoDup_due now kinds (locked : gset string) (t : jobs) :
  NoDup (map fst (sort_jobs (List.filter (fun p => due now kinds p.2 && negb (bool_decide (p.1 ∈ locked)))
    (map_to_list t)))).
Proof.
  rewrite sort_jobs_perm.
  assert (NoDup (map fst (map_to_list t))) as H by apply NoDup_fst_map_to_list.
  induction (map_to_list t) as [|p l IH]; cbn in *; [done|]. apply NoDup_cons in H as [Hp Hl].
  destruct (_ && _); cbn; [|auto]. constructor; [|auto].
  intros Hin. apply Hp. apply list_elem_of_fmap in Hin as (q & -> & Hq). apply list_elem_of_fmap.
  exists q. split; [done|]. apply list_elem_of_In, filter_In in Hq as [Hq _]. by apply list_elem_of_In.
Qed.

Section claim.
Context (cfg : outbox_config) (now : Z) (kinds : list string) (locked : gset string) (n : nat)
  (token : string) (t : jobs).

Let claimed := (claim cfg now kinds locked n token t).1.
Let after := (claim cfg now kinds locked n token t).2.
Let all := sort_jobs (List.filter (fun p => due now kinds p.2 && negb (bool_decide (p.1 ∈ locked)))
  (map_to_list t)).

Lemma claimed_ids : map fst claimed = take n (map fst all).
Proof.
  unfold claimed, claim. cbn [fst]. rewrite map_map. cbn. unfold candidates. fold all.
  by rewrite firstn_map.
Qed.

Lemma claimed_nodup : NoDup (map fst claimed).
Proof.
  rewrite claimed_ids. pose proof (NoDup_due now kinds locked t) as H. fold all in H.
  rewrite <- (take_drop n (map fst all)) in H. by apply NoDup_app in H as [? _].
Qed.

Lemma claimed_spec i r' :
  (i, r') ∈ claimed -> exists r, (i, r) ∈ candidates now kinds locked n t /\ t !! i = Some r /\
    due now kinds r = true /\ i ∉ locked /\ r' = claimed_row now (oc_lease cfg) token r.
Proof.
  unfold claimed, claim. cbn [fst]. intros ([j r] & [= -> ->] & Hin)%list_elem_of_fmap.
  exists r. assert (Hin' := Hin). unfold candidates in Hin.
  apply elem_of_take in Hin as (k & Hk & _). apply list_elem_of_lookup_2 in Hk.
  rewrite sort_jobs_perm in Hk. apply elem_of_due in Hk as (? & ? & ?). done.
Qed.

Lemma claim_lookup i :
  match after !! i with
  | Some r' => ((i, r') ∈ claimed \/ (i ∉ map fst claimed /\ t !! i = Some r'))
  | None => i ∉ map fst claimed /\ t !! i = None
  end.
Proof.
  unfold after, claim. cbn [snd].
  change (map (fun p => (p.1, claimed_row now (oc_lease cfg) token p.2)) (candidates now kinds locked n t))
    with claimed. rewrite write_all_lookup by apply claimed_nodup.
  destruct (List.find (fun p => String.eqb p.1 i) claimed) as [[k r]|] eqn:E.
  - apply find_some in E as [Hin Hk%String.eqb_eq]. cbn in *. subst. left. by apply list_elem_of_In.
  - assert (i ∉ map fst claimed) as Hni.
    { intros ([k r] & -> & Hin)%list_elem_of_fmap. apply list_elem_of_In in Hin.
      pose proof (find_none _ _ E _ Hin) as Hf. cbn in Hf. by rewrite String.eqb_refl in Hf. }
    destruct (t !! i); auto.
Qed.

Lemma claim_inv : table_inv t -> table_inv after.
Proof.
  intros Ht. eapply table_inv_rows; [exact Ht|]. intros i r' Hr. pose proof (claim_lookup i) as H.
  rewrite Hr in H. destruct H as [(r & _ & Hi & Hdue & _ & ->)%claimed_spec|[_ Hi]].
  - destruct (ti_wf t Ht i r Hi) as [Ha Hp Hpend Hrun Hlock Hlocks].
    unfold due in Hdue. rewrite !andb_true_iff, orb_true_iff, !andb_true_iff, !bool_decide_eq_true in Hdue.
    destruct Hdue as [_ Hdue]. split.
    + assert (jAttempts r < jMaxAttempts r).
      { destruct Hdue as [[Hs _]|[_ Hl%Z.ltb_lt]]; [auto|done]. }
      split; cbn; try lia; try done; eauto.
    + exists r. split_and!; try done. intros _. unfold live.
      destruct Hdue as [[-> _]|[[-> _] _]]; done.
  - split; [by eapply ti_wf|]. by exists r'.
Qed.
End claim.

Lemma sorted_take_drop {A} (R : A -> A -> Prop) n l x y :
  StronglySorted R l -> x ∈ take n l -> y ∈ drop n l -> R x y.
Proof.
  intros Hs Hx Hy. rewrite <- (take_drop n l) in Hs. by eapply StronglySorted_app_elim.
Qed.

(** A claim takes distinct due jobs that no concurrent statement holds,
    at most [n], the earliest first; each is now running under the new
    lease with one attempt more and nothing else changes; and a due job is
    left behind only when [n] earlier ones were taken. *)
Theorem claim_correct cfg now kinds locked n token t :
  let claimed := (claim cfg now kinds locked n token t).1 in
  let after := (claim cfg now kinds locked n token t).2 in
  NoDup (map fst claimed) /\ (length claimed <= n)%nat /\
  (forall i, i ∉ map fst claimed -> after !! i = t !! i) /\
  (forall i r', (i, r') ∈ claimed -> after !! i = Some r' /\
     exists r, t !! i = Some r /\ due now kinds r = true /\ i ∉ locked /\
       r' = claimed_row now (oc_lease cfg) token r /\ jAttempts r' = jAttempts r + 1) /\
  (forall j q, t !! j = Some q -> due now kinds q = true -> j ∉ locked -> j ∉ map fst claimed ->
     length claimed = n /\
     forall i r, (i, r) ∈ candidates now kinds locked n t -> before (i, r) (j, q) = true).
Proof.
  cbv zeta. set (claimed := (claim cfg now kinds locked n token t).1).
  pose proof (claimed_nodup cfg now kinds locked n token t) as Hnd. fold claimed in Hnd.
  pose proof (claimed_ids cfg now kinds locked n token t) as Hids. fold claimed in Hids.
  set (all := sort_jobs _) in Hids.
  assert (Hlen : length claimed = length (take n (map fst all))) by (rewrite <- Hids; by rewrite length_map).
  split_and!; [done|rewrite Hlen, length_take; lia| | |].
  - intros i Hi. pose proof (claim_lookup cfg now kinds locked n token t i) as H.
    destruct ((claim cfg now kinds locked n token t).2 !! i) as [r|] eqn:E; fold claimed in H.
    + destruct H as [Hin|[_ ->]]; [|done]. exfalso. apply Hi. apply list_elem_of_fmap. by exists (i, r).
    + by destruct H as [_ ->].
  - intros i r' Hin. split.
    + pose proof (claim_lookup cfg now kinds locked n token t i) as H. fold claimed in H.
      destruct ((claim cfg now kinds locked n token t).2 !! i) as [r|] eqn:E.
      * destruct H as [Hin'|[Hn _]].
        -- f_equal. eapply NoDup_fst_functional; eauto.
        -- exfalso. apply Hn, list_elem_of_fmap. by exists (i, r').
      * exfalso. apply (proj1 H), list_elem_of_fmap. by exists (i, r').
    + destruct (claimed_spec cfg now kinds locked n token t i r' Hin) as (r & _ & ? & ? & ? & ->).
      by exists r.
  - intros j q Hj Hdue Hl Hn. rewrite Hids in Hn.
    assert (Hjall : (j, q) ∈ all).
    { unfold all. rewrite sort_jobs_perm. by apply elem_of_due. }
    assert (Hdrop : (j, q) ∈ drop n all).
    { rewrite <- (take_drop n all) in Hjall. apply elem_of_app in Hjall as [Hin|?]; [|done].
      exfalso. apply Hn. rewrite firstn_map. apply list_elem_of_fmap. by exists (j, q). }
    split.
    + rewrite Hlen, length_take, length_map. apply list_elem_of_lookup_1 in Hdrop as [k Hk].
      rewrite lookup_drop in Hk. apply lookup_lt_Some in Hk. lia.
    + intros i r Hin. apply (sorted_take_drop (fun a b => before a b = true) n all); [apply sort_jobs_sorted|done|done].
Qed.

(** ** The other statements *)

Lemma owned_Some id token t r :
  owned id token t = Some r <->
  t !! id = Some r /\ jStatus r = JobRunning /\ jLockedBy r = Some token.
Proof.
  unfold owned. destruct (t !! id) as [q|]; cbn; [|naive_solver].
  destruct (bool_decide_reflect (jStatus q = JobRunning)), (bool_decide_reflect (jLockedBy q = Some token));
    cbn; naive_solver.
Qed.

(** One running row replaced. *)
Lemma table_inv_running t id r r' :
  table_inv t -> t !! id = Some r -> jStatus r = JobRunning -> job_wf r' ->
  jKind r' = jKind r -> jDedupeKey r' = jDedupeKey r -> table_inv (<[id := r']> t).
Proof.
  intros Ht Hr Hs Hwf Hk Hd. eapply table_inv_rows; [exact Ht|].
  intros i q [[<- <-]|[_ Hq]]%lookup_insert_Some.
  - split; [done|]. exists r. split_and!; try done. intros _. by apply live_running.
  - split; [by eapply ti_wf|]. by exists q.
Qed.

Lemma heartbeat_inv cfg now id token t : table_inv t -> table_inv (heartbeat cfg now id token t).2.
Proof.
  intros Ht. unfold heartbeat. destruct (owned id token t) as [r|] eqn:E; [|done].
  apply owned_Some in E as (Hr & Hs & Hl). cbn. eapply table_inv_running; [done..| |done|done].
  destruct (ti_wf t Ht id r Hr). split; cbn; try lia; try done; eauto.
Qed.

(** [finish] keeps the invariant when the worker's copy of the counters is
    the row's. *)
Lemma finish_inv backoff now id token attempts max_attempts herr c t :
  table_inv t ->
  (forall r, owned id token t = Some r -> jAttempts r = attempts /\ jMaxAttempts r = max_attempts) ->
  table_inv (finish backoff now id token attempts max_attempts herr c t).
Proof.
  intros Ht Hcopy. unfold finish. destruct (bool_decide _); [done|].
  destruct (owned id token t) as [r|] eqn:E; [|done]. destruct (Hcopy r eq_refl) as [<- <-].
  apply owned_Some in E as (Hr & Hs & Hl). destruct (ti_wf t Ht id r Hr) as [Ha Hp Hpe Hru Hlo Hls].
  specialize (Hru Hs).
  eapply table_inv_running; [done..| | |]; unfold finish_row.
  - destruct herr as [e|]; [|split; cbn; try lia; try done; split; try done; by intros [? ?]].
    destruct (bool_decide (c = CauseShutdown)).
    { destruct (Z.ltb_spec 0 (jAttempts r)); split; cbn; try lia; try done; split; try done; by intros [? ?]. }
    destruct (he_permanent e || (jMaxAttempts r <=? jAttempts r)) eqn:Em.
    { split; cbn; try lia; try done; split; try done; by intros [? ?]. }
    apply orb_false_iff in Em as [_ Em%Z.leb_gt].
    split; cbn; try lia; try done; split; try done; by intros [? ?].
  - destruct herr as [e|]; [|done]. destruct (bool_decide (c = CauseShutdown)); [done|]. by destruct (_ || _).
  - destruct herr as [e|]; [|done]. destruct (bool_decide (c = CauseShutdown)); [done|]. by destruct (_ || _).
Qed.

Lemma ReapStuck_lookup now t i : ReapStuck now t !! i =
  (fun r => if stuck now r then
     update r JobDead (jAttempts r) (jRunAt r)
       (if String.eqb (jLastError r) "" then reap_message else jLastError r) None now
   else r) <$> t !! i.
Proof. unfold ReapStuck. apply lookup_fmap. Qed.

Lemma ReapStuck_inv now t : table_inv t -> table_inv (ReapStuck now t).
Proof.
  intros Ht. eapply table_inv_rows; [exact Ht|]. intros i r'. rewrite ReapStuck_lookup.
  destruct (t !! i) as [r|] eqn:Hr; cbn; [|done]. intros [= <-].
  pose proof (ti_wf t Ht i r Hr) as Hwf. destruct (stuck now r) eqn:Es.
  - split; [|exists r; split_and!; done].
    destruct Hwf. split; cbn; try lia; try done; split; try done; by intros [? ?].
  - split; [done|]. by exists r.
Qed.

Lemma Retry_inv now id t : table_inv t -> table_inv (Retry now id t).2.
Proof.
  intros Ht. unfold Retry. destruct (t !! id) as [r|] eqn:Hr; [|done].
  pose proof (ti_wf t Ht id r Hr) as [Ha Hp Hpe Hru Hlo Hls].
  destruct (jStatus r) eqn:Es; try done; destruct (violates _ _ _) eqn:Ev; try done;
    apply table_inv_insert; try done; decide_closed; split; cbn; try lia; try done; try (intros; auto);
    split; try done; by intros [? ?].
Qed.

Lemma Cleanup_lookup cfg now t i r :
  Cleanup cfg now t !! i = Some r <-> t !! i = Some r /\ expired cfg now r = false.
Proof. unfold Cleanup. rewrite map_lookup_filter_Some. done. Qed.

Lemma Cleanup_inv cfg now t : table_inv t -> table_inv (Cleanup cfg now t).
Proof.
  intros Ht. eapply table_inv_rows; [exact Ht|]. intros i r [Hr _]%Cleanup_lookup.
  split; [by eapply ti_wf|]. by exists r.
Qed.

(** [Enqueue] inserts exactly when no live job has the kind and dedupe
    key; otherwise it reports [ErrDuplicate] with that job and changes
    nothing. The new row is pending with a full attempt budget. *)
Theorem Enqueue_correct cfg now kind payload o id ids t :
  kind <> ""%string -> t !! id = None ->
  let r := enqueue_row cfg kind payload o now in
  match eo_dedupe o with
  | None => Enqueue cfg now kind payload o (id :: ids) t = (Ok (id, r), None, <[id := r]> t)
  | Some key =>
      match dedupe_lookup kind key t with
      | None => Enqueue cfg now kind payload o (id :: ids) t = (Ok (id, r), None, <[id := r]> t)
      | Some existing => Enqueue cfg now kind payload o (id :: ids) t = (Err ErrDuplicate, Some existing, t) /\
          t !! existing.1 = Some existing.2 /\ live existing.2 = true /\ same_key r existing.2 = true
      end
  end.
Proof.
  intros Hk Hid r. unfold Enqueue. destruct (String.eqb_spec kind ""); [done|]. fold r.
  cbn [enqueue_loop]. unfold enqueue_insert. rewrite Hid.
  assert (Hv : violates id r t = match eo_dedupe o with None => false | Some key =>
    match dedupe_lookup kind key t with None => false | Some _ => true end end).
  { apply eq_bool_prop_intro. rewrite !Is_true_true. unfold violates. cbn [live jStatus r enqueue_row].
    cbn. rewrite bool_decide_eq_true. unfold map_Exists, same_key. cbn.
    destruct (eo_dedupe o) as [key|].
    - unfold dedupe_lookup.
      destruct (map_to_list _) as [|[i q] l] eqn:El; cbn; split; try done.
      + intros (i & q & Hq & _ & Hl & [Hkk Hkey]%andb_true_iff).
        destruct (jDedupeKey q) as [key'|] eqn:Eq; [|done].
        assert ((i, q) ∈ @nil (string * Job)) as Hin; [|by apply not_elem_of_nil in Hin].
        rewrite <- El. apply elem_of_map_to_list, map_lookup_filter_Some. cbn.
        apply String.eqb_eq in Hkk, Hkey. split_and!; congruence.
      + intros _. assert ((i, q) ∈ (i, q) :: l) as Hin by set_solver.
        rewrite <- El in Hin. apply elem_of_map_to_list, map_lookup_filter_Some in Hin as (Hq & Hl & Hkk & Hkey).
        cbn in *. exists i, q. rewrite Hkey, Hkk, !String.eqb_refl. split_and!; try done. intros ->. congruence.
    - split; [|done]. intros (i & q & _ & _ & _ & [_ Hf]%andb_true_iff). done. }
  rewrite Hv. cbn [jDedupeKey enqueue_row r jKind].
  destruct (eo_dedupe o) as [key|] eqn:Eo; [|done].
  destruct (dedupe_lookup kind key t) as [[i q]|] eqn:El; [|done].
  rewrite El. split; [done|].
  unfold dedupe_lookup in El. destruct (map_to_list _) as [|p l] eqn:Em; [done|]. injection El as ->.
  assert ((i, q) ∈ (i, q) :: l) as Hin by set_solver.
  rewrite <- Em in Hin. apply elem_of_map_to_list, map_lookup_filter_Some in Hin as (Hq & Hl & Hkk & Hkey).
  cbn in *. unfold same_key. cbn. rewrite Eo, Hkey, Hkk, !String.eqb_refl. done.
Qed.

(** What the attempt's result makes of the row. *)
Definition finish_outcome (backoff : Z -> Z) (now attempts max_attempts : Z) (herr : option handler_error)
    (c : cause) (r r' : Job) : Prop :=
  jLockedBy r' = None /\ jLockedUntil r' = None /\ jUpdatedAt r' = now /\
  match herr with
  | None => jStatus r' = JobDone /\ jAttempts r' = jAttempts r
  | Some e =>
      match c with
      | CauseShutdown => jStatus r' = JobPending /\ jRunAt r' = now /\ jAttempts r' = Z.max 0 (jAttempts r - 1)
      | _ => if he_permanent e || (max_attempts <=? attempts)
             then jStatus r' = JobDead /\ jLastError r' = truncate (he_message e)
             else jStatus r' = JobPending /\ jAttempts r' = jAttempts r /\
                  jRunAt r' = now + default (backoff attempts) (he_retry_after e)
      end
  end.

Lemma finish_row_outcome backoff now attempts max_attempts herr c r :
  c <> CauseLeaseLost ->
  finish_outcome backoff now attempts max_attempts herr c r (finish_row backoff now attempts max_attempts herr c r).
Proof.
  intros Hc. unfold finish_outcome, finish_row. destruct herr as [e|]; [|done].
  destruct c; decide_closed; cbn; try done.
  - by destruct (_ || _).
  - split_and!; try done. cbn. destruct (Z.ltb_spec 0 (jAttempts r)); lia.
Qed.

Lemma owned_None id token t :
  owned id token t = None <->
  forall r, t !! id = Some r -> ~ (jStatus r = JobRunning /\ jLockedBy r = Some token).
Proof.
  rewrite eq_None_not_Some. split.
  - intros H r Hr [Hs Hl]. apply H. exists r. by apply owned_Some.
  - intros H [r (Hr & Hs & Hl)%owned_Some]. by apply (H r).
Qed.

(** An attempt's result is recorded only by the worker that holds the
    job's current lease, and as the handler's error says: success is done;
    an error after shutdown gives the attempt back and requeues; a permanent
    error or the last attempt is dead-lettered; any other error requeues
    after the handler's delay or the backoff.  A worker that lost the lease
    changes nothing. *)
Theorem finish_correct backoff now id token attempts max_attempts herr c t :
  let t' := finish backoff now id token attempts max_attempts herr c t in
  (forall i, i <> id -> t' !! i = t !! i) /\
  ((exists r, t !! id = Some r /\ jStatus r = JobRunning /\ jLockedBy r = Some token /\ c <> CauseLeaseLost /\
     exists r', t' !! id = Some r' /\ finish_outcome backoff now attempts max_attempts herr c r r') \/
   ((c = CauseLeaseLost \/
     forall r, t !! id = Some r -> ~ (jStatus r = JobRunning /\ jLockedBy r = Some token)) /\ t' = t)).
Proof.
  cbv zeta. unfold finish. destruct (bool_decide_reflect (c = CauseLeaseLost)) as [Hc|Hc].
  { split; [done|]. right. split; [by left|done]. }
  destruct (owned id token t) as [r|] eqn:E.
  - split; [intros i Hi; by apply lookup_insert_ne|]. left.
    apply owned_Some in E as (Hr & Hs & Hl). exists r. split_and!; try done.
    eexists. split; [apply lookup_insert_eq|]. by apply finish_row_outcome.
  - split; [done|]. right. split; [|done]. right. by apply owned_None.
Qed.

(** ** Backoff *)

Lemma double_until_spec fuel i attempt d max :
  0 < d -> 0 < max <= 2 ^ 62 -> i <= attempt -> max <= d * 2 ^ Z.of_nat fuel ->
  exists d', double_until fuel i attempt d max = Some d' /\
    Z.min d' max = Z.min (d * 2 ^ (attempt - i)) max.
Proof.
  revert i d. induction fuel as [|fuel IH]; intros i d Hd Hm Hi Hf; cbn [double_until].
  - change (2 ^ Z.of_nat 0) with 1 in Hf. destruct (Z.ltb_spec d max); [lia|]. rewrite andb_false_r.
    exists d. split; [done|]. assert (0 < 2 ^ (attempt - i)) by (apply Z.pow_pos_nonneg; lia). nia.
  - destruct (Z.ltb_spec i attempt), (Z.ltb_spec d max); cbn.
    + rewrite wrap64_small by lia. rewrite Nat2Z.inj_succ, Z.pow_succ_r in Hf by lia.
      destruct (IH (i + 1) (d * 2)) as (d' & -> & E); [lia..|]. exists d'. split; [done|].
      rewrite E. f_equal. rewrite <- Z.mul_assoc, <- Z.pow_succ_r by lia. do 2 f_equal. lia.
    + exists d. split; [done|]. assert (0 < 2 ^ (attempt - i)) by (apply Z.pow_pos_nonneg; lia). nia.
    + exists d. split; [done|]. replace (attempt - i) with 0 by lia. f_equal. lia.
    + exists d. split; [done|]. replace (attempt - i) with 0 by lia. f_equal. lia.
Qed.

(** The default backoff never overflows and always terminates: attempt
    [n] waits a positive time in the upper half of the capped exponential
    [min (base * 2^(n-1)) max], however large [n] is. *)
Theorem ExponentialBackoff_bounds jitter base max attempt :
  0 < base -> 0 < max <= 2 ^ 62 -> (forall n, 0 < n -> 0 <= jitter n < n) ->
  let cap := Z.min (base * 2 ^ (Z.max attempt 1 - 1)) max in
  exists d, ExponentialBackoff jitter base max attempt = Some d /\ cap / 2 <= d <= cap /\ 0 < d.
Proof.
  intros Hb Hm Hj cap. unfold ExponentialBackoff.
  assert ((if attempt <? 1 then 1 else attempt) = Z.max attempt 1) as ->.
  { destruct (Z.ltb_spec attempt 1); lia. }
  destruct (double_until_spec 64 1 (Z.max attempt 1) base max) as (d & -> & E); [lia|lia|lia| |].
  { change (2 ^ Z.of_nat 64) with (2 ^ 64). lia. }
  cbn. fold cap in E. rewrite E. eexists. split; [done|].
  assert (Hcap : 0 < cap).
  { subst cap. assert (0 < 2 ^ (Z.max attempt 1 - 1)) by (apply Z.pow_pos_nonneg; lia). nia. }
  rewrite Z.quot_div_nonneg by lia.
  destruct (Z.leb_spec (cap / 2) 0); [zlia|].
  specialize (Hj (cap / 2 + 1) ltac:(zlia)). zlia.
Qed.

Lemma ExponentialBackoff_bounds_witness :
  exists d, ExponentialBackoff (fun n => n - 1) (10 * 10 ^ 9) (3600 * 10 ^ 9) 1000000 = Some d /\
    (3600 * 10 ^ 9) / 2 <= d <= 3600 * 10 ^ 9 /\ 0 < d.
Proof.
  destruct (ExponentialBackoff_bounds (fun n => n - 1) (10 * 10 ^ 9) (3600 * 10 ^ 9) 1000000) as (d & Hd & Hb & Hp);
    [lia|lia|intros; lia|].
  exists d. split; [exact Hd|]. split; [|exact Hp].
  clear Hb Hp. vm_compute in Hd. injection Hd as <-. split; vm_compute; discriminate.
Defined.

Definition sample_outbox : outbox_config := New_config 0 0 0 0.
Definition sample_options : enqueueOptions := mkEnqueueOptions None None None 0 0.

Lemma Enqueue_correct_witness :
  Enqueue sample_outbox 5 "erp.post" "{}" sample_options ["id1"%string] ∅ =
    (Ok ("id1"%string, enqueue_row sample_outbox "erp.post" "{}" sample_options 5), None,
     <["id1" := enqueue_row sample_outbox "erp.post" "{}" sample_options 5]> ∅).
Proof.
  exact (Enqueue_correct sample_outbox 5 "erp.post" "{}" sample_options "id1" [] ∅
    ltac:(discriminate) (lookup_empty "id1"%string)).
Defined.
