(* ===== verification/OutboxWorker.v ===== *)
(** * Outbox workers (outbox/worker.go, outbox/service.go)

    Any number of replicas on one job table: each has a poller that fills its
    free slots ([pollOnce]), a goroutine per claimed job ([run], with its
    [heartbeat] and [finish]), and the maintenance loop; clients enqueue,
    retry and clean up.  [exec] performs one event on the whole system.  Each
    statement reads the clock of the replica that runs it, so instants are
    arbitrary: no theorem here assumes the clocks agree. *)

From S2P Require Import Prelude GoStrings Tables Outbox.

(** ** State and events *)

(** A claimed job in a worker's slot: [run(job, token)].  The cause is the
    one its context was cancelled with so far; the first one wins. *)
Record attempt := mkAttempt {
  at_worker : string; at_id : string; at_token : string;
  at_attempts : Z; at_max : Z; at_cause : cause
}.

(** Tokens and job ids are drawn at random: [sys_used] holds those drawn. *)
Record system := mkSystem {
  sys_jobs : jobs; sys_attempts : list attempt; sys_used : gset string
}.

Inductive event : Type :=
| EvEnqueue (now : Z) (kind payload : string) (o : enqueueOptions) (ids : list string)
| EvPoll (w : string) (now : Z) (locked : gset string) (token : string)
| EvBeat (k : nat) (now : Z)
| EvShutdown (k : nat)
| EvEnd (k : nat) (now : Z) (herr : option handler_error)
| EvCrash (k : nat)
| EvReap (now : Z)
| EvRetry (now : Z) (id : string)
| EvCleanup (now : Z).

(** [context.WithCancelCause]: the first cancellation decides the cause. *)
Definition cancel (c : cause) (a : attempt) : attempt :=
  mkAttempt (at_worker a) (at_id a) (at_token a) (at_attempts a) (at_max a)
    (if bool_decide (at_cause a = CauseNone) then c else at_cause a).

Definition start (w token : string) (p : string * Job) : attempt :=
  mkAttempt w p.1 token (jAttempts p.2) (jMaxAttempts p.2) CauseNone.

Definition inflight (w : string) (s : system) : nat :=
  length (List.filter (fun a => String.eqb (at_worker a) w) (sys_attempts s)).

Section exec.
Context (cfg : outbox_config) (backoff : Z -> Z) (kinds : string -> list string) (workers batch : nat).

(** [pollOnce]: claim up to the number of free slots and run each claimed
    job in a slot of its own. *)
Definition pollOnce (w : string) (now : Z) (locked : gset string) (token : string) (s : system) : system :=
  let free := (workers - inflight w s)%nat in
  if (free =? 0)%nat then s else
  let '(claimed, t) := claim cfg now (kinds w) locked (free `min` batch) token (sys_jobs s) in
  mkSystem t (sys_attempts s ++ map (start w token) claimed) (sys_used s).

(** One tick of [heartbeat]. *)
Definition beat (now : Z) (a : attempt) (t : jobs) : attempt * jobs :=
  let '(ok, t) := heartbeat cfg now (at_id a) (at_token a) t in
  (if ok then a else cancel CauseLeaseLost a, t).

(** [None]: the event is not possible in this state. *)
Definition exec (e : event) (s : system) : option system :=
  match e with
  | EvEnqueue now kind payload o ids =>
      guard (Forall (fun i => i ∉ sys_used s) ids);;
      Some (mkSystem (Enqueue cfg now kind payload o ids (sys_jobs s)).2 (sys_attempts s)
              (list_to_set ids ∪ sys_used s))
  | EvPoll w now locked token =>
      guard (token ∉ sys_used s);;
      let s' := pollOnce w now locked token s in
      Some (mkSystem (sys_jobs s') (sys_attempts s') ({[token]} ∪ sys_used s))
  | EvBeat k now =>
      a ← sys_attempts s !! k;
      let '(a', t) := beat now a (sys_jobs s) in
      Some (mkSystem t (<[k := a']> (sys_attempts s)) (sys_used s))
  | EvShutdown k =>
      a ← sys_attempts s !! k;
      Some (mkSystem (sys_jobs s) (<[k := cancel CauseShutdown a]> (sys_attempts s)) (sys_used s))
  | EvEnd k now herr =>
      a ← sys_attempts s !! k;
      Some (mkSystem (finish backoff now (at_id a) (at_token a) (at_attempts a) (at_max a) herr (at_cause a) (sys_jobs s))
              (delete k (sys_attempts s)) (sys_used s))
  | EvCrash k =>
      a ← sys_attempts s !! k;
      Some (mkSystem (sys_jobs s) (delete k (sys_attempts s)) (sys_used s))
  | EvReap now => Some (mkSystem (ReapStuck now (sys_jobs s)) (sys_attempts s) (sys_used s))
  | EvRetry now id => Some (mkSystem (Retry now id (sys_jobs s)).2 (sys_attempts s) (sys_used s))
  | EvCleanup now => Some (mkSystem (Cleanup cfg now (sys_jobs s)) (sys_attempts s) (sys_used s))
  end.

Fixpoint run (es : list event) (s : system) : option system :=
  match es with [] => Some s | e :: es => s ← exec e s; run es s end.

Definition empty_system : system := mkSystem ∅ [] ∅.

End exec.

(** ** The invariant *)

(** An attempt without the cause of its cancellation. *)
Definition ident (a : attempt) : attempt :=
  mkAttempt (at_worker a) (at_id a) (at_token a) (at_attempts a) (at_max a) CauseNone.
Definition idents (s : system) : list attempt := map ident (sys_attempts s).

(** The row is locked under the token. *)
Definition locked_row (t : jobs) (id token : string) (r : Job) : Prop :=
  t !! id = Some r /\ jLockedBy r = Some token.

Section inv.
Context (workers : nat).

Record sys_inv (s : system) : Prop := {
  si_table : table_inv (sys_jobs s);
  si_tokens : forall a, a ∈ idents s -> at_token a ∈ sys_used s;
  si_locks : forall i token r, locked_row (sys_jobs s) i token r -> token ∈ sys_used s;
  si_ids : forall i r, sys_jobs s !! i = Some r -> i ∈ sys_used s;
  si_unique : NoDup (map (fun a => (at_id a, at_token a)) (idents s));
  si_copy : forall a r, a ∈ idents s -> locked_row (sys_jobs s) (at_id a) (at_token a) r ->
    jAttempts r = at_attempts a /\ jMaxAttempts r = at_max a;
  si_slots : forall w, (inflight w s <= workers)%nat
}.

(** Every lock of [t'] is a lock of [t], with the same counters. *)
Definition locks_from (t t' : jobs) : Prop :=
  forall i token r', locked_row t' i token r' ->
    exists r, locked_row t i token r /\ jAttempts r = jAttempts r' /\ jMaxAttempts r = jMaxAttempts r'.

Lemma inflight_idents w s :
  inflight w s = length (List.filter (fun a => String.eqb (at_worker a) w) (idents s)).
Proof.
  unfold inflight, idents. induction (sys_attempts s) as [|a l IH]; cbn; [done|].
  destruct (String.eqb _ _); cbn; auto.
Qed.

Lemma filter_sublist {A} (f : A -> bool) (l k : list A) :
  l `sublist_of` k -> (length (List.filter f l) <= length (List.filter f k))%nat.
Proof. induction 1 as [|x l k _ IH|x l k _ IH]; cbn; [lia| |]; destruct (f x); cbn; lia. Qed.

Lemma sys_inv_move s t' l' used' :
  sys_inv s -> table_inv t' -> locks_from (sys_jobs s) t' ->
  (forall i r, t' !! i = Some r -> i ∈ used') -> sys_used s ⊆ used' ->
  map ident l' `sublist_of` idents s -> sys_inv (mkSystem t' l' used').
Proof.
  intros [Ht Htok Hl Hi Hu Hc Hs] Ht' Hf Hi' Hsub Hsl.
  assert (Hin : forall a, a ∈ map ident l' -> a ∈ idents s).
  { intros a Ha. by eapply elem_of_sublist. }
  split; cbn [sys_jobs sys_used]; [done| | |done| | |].
  - intros a Ha. apply Hsub, Htok, Hin, Ha.
  - intros i tok r (q & Hq & _)%Hf. apply Hsub. eauto.
  - unfold idents at 1. cbn [sys_attempts]. eapply sublist_NoDup; [exact Hu|]. by apply (fmap_sublist (fun a => (at_id a, at_token a))).
  - intros a r Ha (q & Hq & <- & <-)%Hf. apply Hc; auto.
  - intros w. specialize (Hs w). rewrite inflight_idents in *. unfold idents at 1. cbn [sys_attempts].
    pose proof (filter_sublist (fun a => String.eqb (at_worker a) w) _ _ Hsl). lia.
Qed.

Lemma locks_from_refl t : locks_from t t.
Proof. intros i tok r H. by exists r. Qed.

(** A statement that only keeps or clears locks. *)
Lemma locks_from_rows t t' :
  (forall i r', t' !! i = Some r' -> t !! i = Some r' \/ jLockedBy r' = None) -> locks_from t t'.
Proof.
  intros H i tok r' [Hr Hl]. destruct (H i r' Hr) as [?|?]; [by exists r'|congruence].
Qed.

Lemma locks_from_insert t id r :
  jLockedBy r = None -> locks_from t (<[id := r]> t).
Proof.
  intros Hr. apply locks_from_rows. intros i q [[<- <-]|[_ ?]]%lookup_insert_Some; auto.
Qed.

(** ** Each event keeps the invariant *)

Context (cfg : outbox_config) (Hcfg : 0 < oc_max_attempts cfg).

(** What [Enqueue] may do to the table. *)
Lemma enqueue_loop_table tries ids r t :
  (enqueue_loop tries ids r t).2 = t \/
  exists id, id ∈ ids /\ t !! id = None /\ violates id r t = false /\
    (enqueue_loop tries ids r t).2 = <[id := r]> t.
Proof.
  revert ids. induction tries as [|tries IH]; intros [|id ids]; cbn [enqueue_loop]; auto.
  unfold enqueue_insert. destruct (t !! id) as [q|] eqn:Eq; [|destruct (violates id r t) eqn:Ev].
  3: { right. exists id. split_and!; [set_solver|done..]. }
  all: destruct (jDedupeKey r) as [key|]; [|by left];
    destruct (dedupe_lookup (jKind r) key t); [by left|];
    destruct (IH ids) as [->|(j & Hj & ? & ? & ->)]; [by left|];
    right; exists j; split_and!; [set_solver|done..].
Qed.

Lemma Enqueue_table now kind payload o ids t :
  (Enqueue cfg now kind payload o ids t).2 = t \/
  exists id, let r := enqueue_row cfg kind payload o now in
    id ∈ ids /\ t !! id = None /\ violates id r t = false /\
    (Enqueue cfg now kind payload o ids t).2 = <[id := r]> t.
Proof. unfold Enqueue. destruct (String.eqb kind ""); [by left|]. apply enqueue_loop_table. Qed.

Lemma inv_enqueue s now kind payload o ids :
  sys_inv s ->
  sys_inv (mkSystem (Enqueue cfg now kind payload o ids (sys_jobs s)).2 (sys_attempts s)
             (list_to_set ids ∪ sys_used s)).
Proof.
  intros Hinv. assert (Ht := si_table s Hinv). assert (Hi := si_ids s Hinv).
  destruct (Enqueue_table now kind payload o ids (sys_jobs s)) as [->|(id & Hid & Hn & Hv & ->)].
  - apply (sys_inv_move s); [done|done|apply locks_from_refl|set_solver|set_solver|done].
  - apply (sys_inv_move s); [done| |by apply locks_from_insert| |set_solver|done].
    + apply table_inv_insert; [done|by apply enqueue_row_wf|done].
    + intros i r [[<- _]|[_ Hr]]%lookup_insert_Some; set_solver.
Qed.

(** A statement on existing rows that keeps or clears locks. *)
Lemma inv_rows s t' l' :
  sys_inv s -> table_inv t' ->
  (forall i r', t' !! i = Some r' -> is_Some (sys_jobs s !! i) /\ (sys_jobs s !! i = Some r' \/ jLockedBy r' = None)) ->
  map ident l' `sublist_of` idents s -> sys_inv (mkSystem t' l' (sys_used s)).
Proof.
  intros Hinv Ht' H Hsl. apply (sys_inv_move s); [done|done| |..|done|done].
  - apply locks_from_rows. intros i r' Hr. by apply H.
  - intros i r' [[r Hr] _]%H. by eapply si_ids.
Qed.

Lemma map_ident_insert k a a' l :
  l !! k = Some a -> ident a' = ident a -> map ident (<[k := a']> l) = map ident l.
Proof.
  intros Hk Ha. transitivity (<[k := ident a']> (ident <$> l)); [apply list_fmap_insert|].
  rewrite Ha. apply list_insert_id. by rewrite list_lookup_fmap, Hk.
Qed.

Lemma map_ident_delete k l : map ident (delete k l) `sublist_of` map ident l.
Proof. apply (fmap_sublist ident), sublist_delete. Qed.

Lemma lookup_ident s k a : sys_attempts s !! k = Some a -> ident a ∈ idents s.
Proof. intros H%list_elem_of_lookup_2. apply list_elem_of_fmap. by exists a. Qed.

Lemma inv_beat s k a now :
  sys_inv s -> sys_attempts s !! k = Some a ->
  let '(a', t) := beat cfg now a (sys_jobs s) in
  sys_inv (mkSystem t (<[k := a']> (sys_attempts s)) (sys_used s)).
Proof.
  intros Hinv Hk. assert (Ht := si_table s Hinv).
  pose proof (heartbeat_inv cfg now (at_id a) (at_token a) (sys_jobs s) Ht) as Ht'.
  unfold beat. unfold heartbeat in *. destruct (owned _ _ _) as [r|] eqn:E; cbn in Ht' |- *.
  - apply owned_Some in E as (Hr & Hs & Hl). apply (sys_inv_move s); [done|done| |..|set_solver|].
    + intros i tok q [[[<- <-]|[Hne Hq]]%lookup_insert_Some Htok]; [|by exists q].
      cbn in Htok. injection Htok as <-. by exists r.
    + intros i q [[<- _]|[_ Hq]]%lookup_insert_Some; by eapply si_ids.
    + by rewrite list_insert_id.
  - apply inv_rows; [done..| |].
    + intros i r' Hr. split; [by eexists|by left].
    + by rewrite (map_ident_insert k a).
Qed.

Lemma inv_end s k a now backoff herr :
  sys_inv s -> sys_attempts s !! k = Some a ->
  sys_inv (mkSystem
    (finish backoff now (at_id a) (at_token a) (at_attempts a) (at_max a) herr (at_cause a) (sys_jobs s))
    (delete k (sys_attempts s)) (sys_used s)).
Proof.
  intros Hinv Hk. apply inv_rows; [done| | |apply map_ident_delete].
  - apply finish_inv; [by apply si_table|]. intros r (Hr & _ & Hl)%owned_Some.
    by apply (si_copy s Hinv (ident a)); [by eapply lookup_ident|].
  - intros i r'. unfold finish. destruct (bool_decide _); [by eauto|].
    destruct (owned _ _ _) as [r|] eqn:E; [|by eauto].
    apply owned_Some in E as (Hr & _ & _).
    intros [[<- <-]|[_ Hq]]%lookup_insert_Some; [|by eauto]. split; [by eexists|]. right.
    unfold finish_row. destruct herr as [e|]; [|done]. destruct (bool_decide _); [done|].
    by destruct (_ || _).
Qed.

Lemma inv_reap s now :
  sys_inv s -> sys_inv (mkSystem (ReapStuck now (sys_jobs s)) (sys_attempts s) (sys_used s)).
Proof.
  intros Hinv. apply inv_rows; [done|by apply ReapStuck_inv, si_table| |done].
  intros i r'. rewrite ReapStuck_lookup. destruct (sys_jobs s !! i) as [r|]; cbn; [|done].
  intros [= <-]. destruct (stuck now r); eauto.
Qed.

Lemma inv_retry s now id :
  sys_inv s -> sys_inv (mkSystem (Retry now id (sys_jobs s)).2 (sys_attempts s) (sys_used s)).
Proof.
  intros Hinv. apply inv_rows; [done|by apply Retry_inv, si_table| |done].
  intros i r'. unfold Retry. destruct (sys_jobs s !! id) as [r|] eqn:Hr; [|by eauto].
  destruct (jStatus r); try by eauto.
  all: destruct (violates _ _ _); [by eauto|]; cbn;
    intros [[<- <-]|[_ Hq]]%lookup_insert_Some; [rewrite Hr|]; eauto.
Qed.

Lemma inv_cleanup s now :
  sys_inv s -> sys_inv (mkSystem (Cleanup cfg now (sys_jobs s)) (sys_attempts s) (sys_used s)).
Proof.
  intros Hinv. apply inv_rows; [done|by apply Cleanup_inv, si_table| |done].
  intros i r' [Hr _]%Cleanup_lookup. eauto.
Qed.

(** *** Polling *)

Lemma claim_length now ks locked n token t : (length (claim cfg now ks locked n token t).1 <= n)%nat.
Proof. unfold claim, candidates. cbn [fst]. rewrite length_map, length_take. lia. Qed.

Lemma claim_row now ks locked n token t i r' :
  (claim cfg now ks locked n token t).2 !! i = Some r' ->
  is_Some (t !! i) /\
  ((i, r') ∈ (claim cfg now ks locked n token t).1 /\ jLockedBy r' = Some token \/
   i ∉ map fst (claim cfg now ks locked n token t).1 /\ t !! i = Some r').
Proof.
  intros H. pose proof (claim_lookup cfg now ks locked n token t i) as Hl. rewrite H in Hl.
  destruct Hl as [Hin|[Hn Hi]]; [|eauto].
  destruct (claimed_spec _ _ _ _ _ _ _ _ _ Hin) as (r & _ & Hr & _ & _ & ->). eauto.
Qed.

Lemma start_other w w' token l :
  w' <> w -> List.filter (fun a => String.eqb (at_worker a) w') (map (start w token) l) = [].
Proof.
  intros Hne. induction l as [|p l IH]; cbn; [done|]. destruct (String.eqb_spec w w'); [congruence|done].
Qed.

Section poll.
Context (s : system) (w token : string) (now : Z) (ks : list string) (locked : gset string) (n : nat).
Context (Hinv : sys_inv s) (Hfresh : token ∉ sys_used s) (Hn : (inflight w s + n <= workers)%nat).

Let claimed := (claim cfg now ks locked n token (sys_jobs s)).1.
Let t' := (claim cfg now ks locked n token (sys_jobs s)).2.
Let started := map (start w token) claimed.

Lemma poll_started a : a ∈ map ident started ->
  at_token a = token /\ exists r, (at_id a, r) ∈ claimed /\ jAttempts r = at_attempts a /\ jMaxAttempts r = at_max a.
Proof.
  intros (b & -> & ([i r] & -> & Hin)%list_elem_of_fmap)%list_elem_of_fmap. split; [done|]. by exists r.
Qed.

Lemma poll_unique : NoDup (map (fun a => (at_id a, at_token a)) (idents s ++ map ident started)).
Proof.
  rewrite map_app. apply NoDup_app. split_and!; [by apply si_unique| |].
  - intros p (a & -> & Ha)%list_elem_of_fmap (b & E & Hb)%list_elem_of_fmap.
    apply poll_started in Hb as [Hb _]. apply Hfresh. apply (si_tokens s Hinv) in Ha. congruence.
  - unfold started. rewrite !map_map.
    apply (NoDup_pair token claimed), claimed_nodup.
Qed.

Lemma poll_copy a r :
  a ∈ idents s ++ map ident started -> locked_row t' (at_id a) (at_token a) r ->
  jAttempts r = at_attempts a /\ jMaxAttempts r = at_max a.
Proof.
  intros Ha [Hr Hl]. apply claim_row in Hr as [_ [[Hin Htok]|[Hnin Hr]]].
  - fold claimed in Hin. apply elem_of_app in Ha as [Ha|Ha].
    + exfalso. apply Hfresh. apply (si_tokens s Hinv) in Ha. congruence.
    + apply poll_started in Ha as (_ & q & Hq & <- & <-).
      rewrite (NoDup_fst_functional claimed (at_id a) r q); auto. apply claimed_nodup.
  - apply elem_of_app in Ha as [Ha|Ha].
    + by apply (si_copy s Hinv a).
    + exfalso. apply poll_started in Ha as (_ & q & Hq & _). apply Hnin, list_elem_of_fmap. by exists (at_id a, q).
Qed.

Lemma poll_slots w' : (inflight w' (mkSystem t' (sys_attempts s ++ started) ({[token]} ∪ sys_used s)) <= workers)%nat.
Proof.
  pose proof (si_slots s Hinv w') as Hw. unfold inflight in *. cbn [sys_attempts].
  rewrite List.filter_app, length_app.
  destruct (decide (w' = w)) as [->|Hne].
  - pose proof (filter_length_le (fun a => String.eqb (at_worker a) w) started) as H.
    pose proof (claim_length now ks locked n token (sys_jobs s)) as Hc. fold claimed in Hc.
    unfold started at 2 in H. rewrite length_map in H. lia.
  - unfold started. rewrite start_other by done. cbn. lia.
Qed.

Lemma inv_claim : sys_inv (mkSystem t' (sys_attempts s ++ started) ({[token]} ∪ sys_used s)).
Proof.
  assert (Hids : idents (mkSystem t' (sys_attempts s ++ started) ({[token]} ∪ sys_used s)) =
    idents s ++ map ident started) by (unfold idents; cbn; apply map_app).
  split; rewrite ?Hids; cbn [sys_jobs sys_used].
  - by apply claim_inv, si_table.
  - intros a [Ha|Ha]%elem_of_app; [apply (si_tokens s Hinv) in Ha; set_solver|].
    apply poll_started in Ha as [-> _]. set_solver.
  - intros i tok r [[_ [[_ Htok]|[_ Hr]]]%claim_row Hl]; [set_solver|].
    assert (tok ∈ sys_used s) by (by apply (si_locks s Hinv i tok r)). set_solver.
  - intros i r [[q Hq] _]%claim_row. apply (si_ids s Hinv) in Hq. set_solver.
  - apply poll_unique.
  - apply poll_copy.
  - apply poll_slots.
Qed.
End poll.

Context (backoff : Z -> Z) (kinds : string -> list string) (batch : nat).

Lemma sys_inv_used s used : sys_inv s -> sys_used s ⊆ used -> sys_inv (mkSystem (sys_jobs s) (sys_attempts s) used).
Proof.
  intros Hinv Hsub. apply (sys_inv_move s); [done|by apply si_table|apply locks_from_refl| |done|done].
  intros i r Hr. apply Hsub. by eapply si_ids.
Qed.

Lemma inv_poll s w now locked token :
  sys_inv s -> token ∉ sys_used s ->
  let s' := pollOnce cfg kinds workers batch w now locked token s in
  sys_inv (mkSystem (sys_jobs s') (sys_attempts s') ({[token]} ∪ sys_used s)).
Proof.
  intros Hinv Hfresh. cbv zeta. unfold pollOnce.
  destruct (Nat.eqb_spec (workers - inflight w s) 0) as [|Hfree]; [apply sys_inv_used; set_solver|].
  pose proof (si_slots s Hinv w).
  destruct (claim _ _ _ _ _ _ _) as [claimed t] eqn:E.
  pose proof (inv_claim s w token now (kinds w) locked ((workers - inflight w s) `min` batch) Hinv Hfresh) as H'.
  rewrite E in H'. apply H'. lia.
Qed.

Lemma exec_inv e s s' :
  sys_inv s -> exec cfg backoff kinds workers batch e s = Some s' -> sys_inv s'.
Proof.
  intros Hinv. destruct e; cbn [exec].
  - intros (_ & _ & [= <-])%bind_Some. by apply inv_enqueue.
  - intros (Hf & _ & [= <-])%bind_Some. by apply inv_poll.
  - intros (a & Ha & Hs)%bind_Some. pose proof (inv_beat s k a now Hinv Ha) as Hb.
    destruct (beat _ _ _ _) as [a' t]. by injection Hs as <-.
  - intros (a & Ha & [= <-])%bind_Some. apply inv_rows; [done|by apply si_table|eauto|].
    by rewrite (map_ident_insert k a).
  - intros (a & Ha & [= <-])%bind_Some. by apply inv_end.
  - intros (a & Ha & [= <-])%bind_Some. apply inv_rows; [done|by apply si_table|eauto|apply map_ident_delete].
  - intros [= <-]. by apply inv_reap.
  - intros [= <-]. by apply inv_retry.
  - intros [= <-]. by apply inv_cleanup.
Qed.

Lemma run_inv es s s' :
  sys_inv s -> run cfg backoff kinds workers batch es s = Some s' -> sys_inv s'.
Proof.
  revert s. induction es as [|e es IH]; intros s Hinv; cbn [run]; [by intros [= <-]|].
  intros (s1 & H1 & H2)%bind_Some. eapply IH; [by eapply exec_inv|done].
Qed.

Lemma sys_inv_empty : sys_inv empty_system.
Proof.
  split; cbn; try set_solver.
  - split; intros *; by rewrite lookup_empty.
  - intros i tok r [H _]. by rewrite lookup_empty in H.
  - constructor.
  - intros w. cbn. lia.
Qed.
End inv.

(** ** What an event may do to a row *)

Section rows.
Context (cfg : outbox_config) (Hcfg : 0 < oc_max_attempts cfg).
Context (backoff : Z -> Z) (kinds : string -> list string) (workers batch : nat).

Inductive row_step (s : system) (id : string) (r : Job) : event -> Job -> Prop :=
| RowClaim w now locked token :
    due now (kinds w) r = true ->
    row_step s id r (EvPoll w now locked token) (claimed_row now (oc_lease cfg) token r)
| RowBeat k now r' :
    jStatus r = JobRunning -> r' = update r JobRunning (jAttempts r) (jRunAt r) (jLastError r)
      (match jLockedBy r with Some token => Some (now + oc_lease cfg, token) | None => None end) now ->
    row_step s id r (EvBeat k now) r'
| RowEnd k now herr a :
    sys_attempts s !! k = Some a -> at_id a = id -> jStatus r = JobRunning ->
    jLockedBy r = Some (at_token a) -> at_cause a <> CauseLeaseLost ->
    row_step s id r (EvEnd k now herr) (finish_row backoff now (at_attempts a) (at_max a) herr (at_cause a) r)
| RowReap now e :
    stuck now r = true ->
    row_step s id r (EvReap now) (update r JobDead (jAttempts r) (jRunAt r) e None now)
| RowRetry now attempts :
    jStatus r = JobPending /\ attempts = jAttempts r \/ jStatus r = JobDead /\ attempts = 0 ->
    row_step s id r (EvRetry now id) (update r JobPending attempts now (jLastError r) None now).

Lemma exec_row e s s' id r :
  sys_inv workers s -> sys_jobs s !! id = Some r -> exec cfg backoff kinds workers batch e s = Some s' ->
  match sys_jobs s' !! id with
  | Some r' => r' = r \/ row_step s id r e r'
  | None => live r = false
  end.
Proof.
  intros Hinv Hr. destruct e; cbn [exec].
  - intros (Hf & _ & [= <-])%bind_Some. cbn [sys_jobs].
    destruct (Enqueue_table cfg Hcfg now kind payload o ids (sys_jobs s)) as [->|(j & Hj & Hn & _ & ->)].
    + rewrite Hr. by left.
    + rewrite lookup_insert_ne, Hr by congruence. by left.
  - intros (Hf & _ & [= <-])%bind_Some. cbn [sys_jobs]. unfold pollOnce.
    destruct (Nat.eqb _ 0); [rewrite Hr; by left|].
    pose proof (claim_lookup cfg now (kinds w) locked ((workers - inflight w s) `min` batch) token (sys_jobs s) id) as H.
    destruct (claim _ _ _ _ _ _ _) as [claimed t] eqn:E. cbn in *.
    destruct (t !! id) as [r'|]; [|destruct H; congruence].
    destruct H as [Hin|[_ Hi]]; [|left; congruence]. right.
    pose proof (claimed_spec cfg now (kinds w) locked ((workers - inflight w s) `min` batch) token (sys_jobs s) id r') as Hc.
    rewrite E in Hc. destruct (Hc Hin) as (q & _ & Hq & Hdue & _ & ->).
    rewrite Hr in Hq. injection Hq as <-. by constructor.
  - intros (a & Ha & Hs)%bind_Some. unfold beat, heartbeat in Hs.
    destruct (owned _ _ _) as [q|] eqn:E; injection Hs as <-; cbn; [|rewrite Hr; by left].
    apply owned_Some in E as (Hq & Hst & Hl). destruct (decide (at_id a = id)) as [<-|].
    + rewrite lookup_insert_eq. rewrite Hr in Hq. injection Hq as <-. right. constructor; [done|]. by rewrite Hl.
    + rewrite lookup_insert_ne, Hr by done. by left.
  - intros (a & Ha & [= <-])%bind_Some. cbn. rewrite Hr. by left.
  - intros (a & Ha & [= <-])%bind_Some. cbn [sys_jobs]. unfold finish.
    destruct (bool_decide_reflect (at_cause a = CauseLeaseLost)); [rewrite Hr; by left|].
    destruct (owned _ _ _) as [q|] eqn:E; [|rewrite Hr; by left].
    apply owned_Some in E as (Hq & Hst & Hl). destruct (decide (at_id a = id)) as [<-|].
    + rewrite lookup_insert_eq. rewrite Hr in Hq. injection Hq as <-. right. by econstructor.
    + rewrite lookup_insert_ne, Hr by done. by left.
  - intros (a & Ha & [= <-])%bind_Some. cbn. rewrite Hr. by left.
  - intros [= <-]. cbn [sys_jobs]. rewrite ReapStuck_lookup, Hr. cbn.
    destruct (stuck now r) eqn:Es; [right; by constructor|by left].
  - intros [= <-]. cbn [sys_jobs]. unfold Retry.
    destruct (sys_jobs s !! id0) as [q|] eqn:Hq; [|cbn; rewrite Hr; by left].
    destruct (decide (id0 = id)) as [->|Hne].
    + rewrite Hr in Hq. injection Hq as <-.
      destruct (jStatus r) eqn:Es; try (cbn; rewrite Hr; by left).
      all: destruct (violates _ _ _); cbn; [rewrite Hr; by left|].
      all: rewrite lookup_insert_eq; right; constructor; decide_closed; auto.
    + destruct (jStatus q); try (cbn; rewrite Hr; by left).
      all: destruct (violates _ _ _); cbn; [|rewrite lookup_insert_ne by done]; rewrite Hr; by left.
  - intros [= <-]. cbn [sys_jobs]. destruct (Cleanup cfg now (sys_jobs s) !! id) as [r'|] eqn:E.
    + apply Cleanup_lookup in E as [E _]. left. congruence.
    + destruct (live r) eqn:Hl; [|done]. exfalso.
      assert (Cleanup cfg now (sys_jobs s) !! id = Some r) as H; [|congruence].
      apply Cleanup_lookup. split; [done|]. unfold expired. unfold live in Hl. by destruct (jStatus r).
Qed.

(** A deleted job stays deleted: its id is never drawn again. *)
Lemma exec_gone e s s' id :
  sys_inv workers s -> sys_jobs s !! id = None -> id ∈ sys_used s ->
  exec cfg backoff kinds workers batch e s = Some s' -> sys_jobs s' !! id = None.
Proof.
  intros Hinv Hr Hu. destruct e; cbn [exec].
  - intros (Hf & _ & [= <-])%bind_Some. cbn [sys_jobs].
    destruct (Enqueue_table cfg Hcfg now kind payload o ids (sys_jobs s)) as [->|(j & Hj & Hn & _ & ->)]; [done|].
    rewrite lookup_insert_ne; [done|]. intros ->. rewrite Forall_forall in Hf. by apply (Hf id).
  - intros (Hf & _ & [= <-])%bind_Some. cbn [sys_jobs]. unfold pollOnce.
    destruct (Nat.eqb _ 0); [done|].
    destruct (claim _ _ _ _ _ _ _) as [claimed t] eqn:E. cbn.
    destruct (t !! id) as [r'|] eqn:Et; [|done].
    pose proof (claim_row cfg now (kinds w) locked ((workers - inflight w s) `min` batch) token (sys_jobs s) id r') as Hc.
    rewrite E in Hc. destruct (Hc Et) as [[q Hq] _]. congruence.
  - intros (a & Ha & Hs)%bind_Some. unfold beat, heartbeat in Hs.
    destruct (owned _ _ _) as [q|] eqn:E; injection Hs as <-; cbn; [|done].
    apply owned_Some in E as (Hq & _). rewrite lookup_insert_ne; [done|congruence].
  - by intros (a & Ha & [= <-])%bind_Some.
  - intros (a & Ha & [= <-])%bind_Some. cbn [sys_jobs]. unfold finish. destruct (bool_decide _); [done|].
    destruct (owned _ _ _) as [q|] eqn:E; [|done].
    apply owned_Some in E as (Hq & _). rewrite lookup_insert_ne; [done|congruence].
  - by intros (a & Ha & [= <-])%bind_Some.
  - intros [= <-]. cbn [sys_jobs]. by rewrite ReapStuck_lookup, Hr.
  - intros [= <-]. cbn [sys_jobs]. unfold Retry.
    destruct (sys_jobs s !! id0) as [q|] eqn:Hq; [|done].
    destruct (jStatus q); try done.
    all: destruct (violates _ _ _); cbn; [done|]; rewrite lookup_insert_ne; [done|congruence].
  - intros [= <-]. cbn [sys_jobs]. destruct (Cleanup cfg now (sys_jobs s) !! id) as [r'|] eqn:E; [|done].
    apply Cleanup_lookup in E as [E _]. congruence.
Qed.

Lemma exec_used e s s' :
  exec cfg backoff kinds workers batch e s = Some s' -> sys_used s ⊆ sys_used s'.
Proof.
  destruct e; cbn [exec]; try (intros [= <-]; done);
    try (intros (a & Ha & Hs)%bind_Some; try (destruct (beat _ _ _ _)); injection Hs as <-; cbn; set_solver).
Qed.
End rows.

(** ** Theorems *)

Lemma reachable_sys_inv cfg backoff kinds workers batch es s :
  0 < oc_max_attempts cfg -> run cfg backoff kinds workers batch es empty_system = Some s -> sys_inv workers s.
Proof.
  intros Hc. apply (run_inv workers cfg Hc), (sys_inv_empty workers cfg Hc).
Qed.

Lemma row_step_status backoff cfg kinds s id r e r' :
  row_step cfg backoff kinds s id r e r' -> jStatus r <> JobDone.
Proof.
  destruct 1 as [w now locked token H| | |? ? H|? ? [[H _]|[H _]]]; try congruence.
  - unfold due in H. intros E. rewrite E in H. decide_closed. by rewrite andb_false_r in H.
  - apply andb_true_iff in H as [[H%bool_decide_eq_true _]%andb_true_iff _]. congruence.
Qed.

(** The columns no statement changes. *)
Lemma row_step_frame backoff cfg kinds s id r e r' :
  row_step cfg backoff kinds s id r e r' ->
  jOrg r' = jOrg r /\ jKind r' = jKind r /\ jPayload r' = jPayload r /\ jDedupeKey r' = jDedupeKey r /\
  jMaxAttempts r' = jMaxAttempts r /\ jCreatedAt r' = jCreatedAt r.
Proof.
  destruct 1; subst; try done. unfold finish_row.
  destruct herr as [h|]; [|done]. destruct (bool_decide _); [done|]. by destruct (_ || _).
Qed.

(** C34: no two attempts hold the same job: among all replicas' slots at most
    one attempt owns the lease of a job, its copy of the counters is the
    row's, and it is within the attempt budget; whatever the interleaving of
    polls, heartbeats, crashes, retries and reaps, and however much the
    replicas' clocks disagree. *)
Theorem lease_exclusive cfg backoff kinds workers batch es s j k a b id r q :
  0 < oc_max_attempts cfg ->
  run cfg backoff kinds workers batch es empty_system = Some s ->
  sys_attempts s !! j = Some a -> at_id a = id -> owned id (at_token a) (sys_jobs s) = Some r ->
  sys_attempts s !! k = Some b -> at_id b = id -> owned id (at_token b) (sys_jobs s) = Some q ->
  j = k /\ jAttempts r = at_attempts a /\ jMaxAttempts r = at_max a /\ 1 <= jAttempts r <= jMaxAttempts r.
Proof.
  intros Hc Hrun Hj Ha (Hr & Hs & Hl)%owned_Some Hk Hb (Hq & _ & Hl')%owned_Some.
  pose proof (reachable_sys_inv _ _ _ _ _ _ _ Hc Hrun) as Hinv.
  rewrite Hr in Hq. injection Hq as <-. split.
  - assert (forall i x, sys_attempts s !! i = Some x ->
      map (fun a => (at_id a, at_token a)) (idents s) !! i = Some (at_id x, at_token x)) as Hx.
    { intros i x Hi. unfold idents. rewrite map_map.
      etrans; [apply (list_lookup_fmap (fun x => (at_id (ident x), at_token (ident x))))|]. by rewrite Hi. }
    eapply NoDup_lookup; [by eapply si_unique|by apply Hx|]. rewrite (Hx k b Hk). congruence.
  - destruct (si_copy workers s Hinv (ident a) r) as [H1 H2]; [by eapply lookup_ident|cbn; by subst|].
    split; [done|]. split; [done|]. destruct (ti_wf _ (si_table _ _ Hinv) id r Hr) as [? ? ? Hp]. specialize (Hp Hs). lia.
Qed.

(** In every state the replicas can reach, every job's attempts are
    within its budget and its lock columns are set exactly while it runs, at
    most one live job has a given kind and dedupe key, and no replica runs
    more jobs than its [Workers]. *)
Theorem outbox_invariant cfg backoff kinds workers batch es s :
  0 < oc_max_attempts cfg ->
  run cfg backoff kinds workers batch es empty_system = Some s ->
  table_inv (sys_jobs s) /\ forall w, (inflight w s <= workers)%nat.
Proof.
  intros Hc Hrun.
  pose proof (reachable_sys_inv _ _ _ _ _ _ _ Hc Hrun) as Hinv.
  split; [by eapply si_table|by apply si_slots].
Qed.

(** How a live job leaves the queue. *)
Inductive settled (s : system) (id : string) (r : Job) : event -> Job -> Prop :=
| SettledDone k now a r' :
    sys_attempts s !! k = Some a -> at_id a = id -> jLockedBy r = Some (at_token a) -> jStatus r' = JobDone ->
    settled s id r (EvEnd k now None) r'
| SettledDead k now h a r' :
    sys_attempts s !! k = Some a -> at_id a = id -> jLockedBy r = Some (at_token a) -> jStatus r' = JobDead ->
    he_permanent h = true \/ jMaxAttempts r <= jAttempts r ->
    settled s id r (EvEnd k now (Some h)) r'
| SettledReaped now r' :
    jStatus r' = JobDead -> jMaxAttempts r <= jAttempts r -> settled s id r (EvReap now) r'.

(** An accepted job is never lost: whatever happens next, a live job
    keeps its payload and stays live, unless the worker that holds its lease
    reports the handler's success (done), a permanent error or the failure
    of the last attempt (dead), or its lease expired on the last attempt. *)
Theorem job_never_lost cfg backoff kinds workers batch es s e s' id r :
  0 < oc_max_attempts cfg ->
  run cfg backoff kinds workers batch es empty_system = Some s ->
  exec cfg backoff kinds workers batch e s = Some s' ->
  sys_jobs s !! id = Some r -> live r = true ->
  exists r', sys_jobs s' !! id = Some r' /\
    jOrg r' = jOrg r /\ jKind r' = jKind r /\ jPayload r' = jPayload r /\
    (live r' = true \/ settled s id r e r').
Proof.
  intros Hc Hrun He Hr Hlive.
  pose proof (reachable_sys_inv _ _ _ _ _ _ _ Hc Hrun) as Hinv.
  pose proof (exec_row cfg Hc backoff kinds workers batch e s s' id r Hinv Hr He) as H.
  destruct (sys_jobs s' !! id) as [r'|]; [|congruence]. exists r'. split; [done|].
  destruct H as [->|Hstep]; [split_and!; auto|].
  destruct (row_step_frame _ _ _ _ _ _ _ _ Hstep) as (-> & -> & -> & _). split_and!; [done..|].
  destruct Hstep as [w now locked token H|k now r' H ->|k now herr a Ha Hid Hs Hl Hcause|now msg H|now n H]; auto.
  - destruct (si_copy workers s Hinv (ident a) r) as [H1 H2]; [by eapply lookup_ident|cbn; by subst|].
    unfold finish_row. destruct herr as [h|]; [|right; by econstructor].
    destruct (bool_decide _); [by left|]. destruct (_ || _) eqn:E; [|by left]. right.
    econstructor; [done..|]. apply orb_true_iff in E as [->|E%Z.leb_le]; [by left|]. right. cbn in *. lia.
  - right. constructor; [done|]. apply andb_true_iff in H as [_ H%Z.leb_le]. done.
Qed.

(** The attempts on a job that an event starts. *)
Definition claims (backoff : Z -> Z) (cfg : outbox_config) (kinds : string -> list string) (workers batch : nat)
    (id : string) (e : event) (s : system) : Z :=
  match e with
  | EvPoll w now locked token =>
      let started := drop (length (sys_attempts s))
        (sys_attempts (pollOnce cfg kinds workers batch w now locked token s)) in
      Z.of_nat (length (List.filter (fun a => String.eqb (at_id a) id) started))
  | _ => 0
  end.

(** The attempts an event gives back: a handler interrupted by shutdown. *)
Definition credit (id : string) (e : event) (s : system) : Z :=
  match e with
  | EvEnd k _ (Some _) =>
      match sys_attempts s !! k with
      | Some a => if String.eqb (at_id a) id && bool_decide (at_cause a = CauseShutdown) then 1 else 0
      | None => 0
      end
  | _ => 0
  end.

Definition budget (id : string) (s : system) : Z :=
  match sys_jobs s !! id with Some r => jMaxAttempts r - jAttempts r | None => 0 end.

Section budget.
Context (cfg : outbox_config) (Hcfg : 0 < oc_max_attempts cfg).
Context (backoff : Z -> Z) (kinds : string -> list string) (workers batch : nat).

Fixpoint totals (id : string) (es : list event) (s : system) : Z * Z :=
  match es with
  | [] => (0, 0)
  | e :: es =>
      match exec cfg backoff kinds workers batch e s with
      | Some s' => let '(n, c) := totals id es s' in
          (claims backoff cfg kinds workers batch id e s + n, credit id e s + c)
      | None => (0, 0)
      end
  end.

Lemma filter_id_unique (id : string) l :
  NoDup (map at_id l) ->
  length (List.filter (fun a => String.eqb (at_id a) id) l) = if bool_decide (id ∈ map at_id l) then 1%nat else 0%nat.
Proof.
  induction l as [|a l IH]; cbn; [done|]. intros [Ha Hl]%NoDup_cons. specialize (IH Hl).
  destruct (String.eqb_spec (at_id a) id) as [<-|Hne]; cbn; rewrite IH.
  - rewrite (bool_decide_false (at_id a ∈ map at_id l)) by done. by rewrite bool_decide_true by set_solver.
  - do 2 case_bool_decide; set_solver.
Qed.

(** A poll starts at most one attempt on a job, and only by claiming it. *)
Lemma claims_spec id e s s' r :
  sys_jobs s !! id = Some r -> exec cfg backoff kinds workers batch e s = Some s' ->
  claims backoff cfg kinds workers batch id e s = 0 \/
  claims backoff cfg kinds workers batch id e s = 1 /\
    exists q, sys_jobs s' !! id = Some q /\ jAttempts q = jAttempts r + 1 /\ jMaxAttempts q = jMaxAttempts r.
Proof.
  intros Hr. destruct e; cbn [exec claims]; try (intros _; by left).
  intros (Hf & _ & [= <-])%bind_Some. cbn [sys_jobs]. unfold pollOnce.
  destruct (Nat.eqb _ 0); [left; by rewrite drop_all|].
  set (n := ((workers - inflight w s) `min` batch)%nat).
  pose proof (claimed_spec cfg now (kinds w) locked n token (sys_jobs s) id) as Hc.
  pose proof (claimed_nodup cfg now (kinds w) locked n token (sys_jobs s)) as Hnd.
  pose proof (claim_lookup cfg now (kinds w) locked n token (sys_jobs s) id) as Hl.
  destruct (claim _ _ _ _ _ _ _) as [claimed t]. cbn in *. rewrite drop_app_length.
  assert (map at_id (map (start w token) claimed) = map fst claimed) as Hm by (rewrite map_map; done).
  rewrite filter_id_unique by (by rewrite Hm). rewrite Hm.
  case_bool_decide as Hin; [|by left]. right. split; [done|].
  destruct (t !! id) as [q|]; [|by destruct Hl].
  destruct Hl as [Hq|[? _]]; [|done]. exists q. split; [done|].
  destruct (Hc q Hq) as (r' & _ & Hr' & _ & _ & ->). rewrite Hr in Hr'. by injection Hr' as <-.
Qed.

Lemma claims_gone id e s s' :
  sys_jobs s !! id = None -> exec cfg backoff kinds workers batch e s = Some s' ->
  claims backoff cfg kinds workers batch id e s = 0.
Proof.
  intros Hr. destruct e; cbn [exec claims]; try done.
  intros (Hf & _ & [= <-])%bind_Some. unfold pollOnce.
  destruct (Nat.eqb _ 0); [by rewrite drop_all|].
  set (n := ((workers - inflight w s) `min` batch)%nat).
  pose proof (claimed_spec cfg now (kinds w) locked n token (sys_jobs s) id) as Hc.
  pose proof (claimed_nodup cfg now (kinds w) locked n token (sys_jobs s)) as Hnd.
  destruct (claim _ _ _ _ _ _ _) as [claimed t]. cbn in *. rewrite drop_app_length.
  assert (map at_id (map (start w token) claimed) = map fst claimed) as Hm by (rewrite map_map; done).
  rewrite filter_id_unique by (by rewrite Hm). rewrite Hm.
  case_bool_decide as Hin; [|done]. apply list_elem_of_fmap in Hin as ([i q] & E & Hin). cbn in E. subst.
  destruct (Hc q Hin) as (r' & _ & Hr' & _). congruence.
Qed.

Lemma credit_nonneg id e s : 0 <= credit id e s.
Proof.
  destruct e; cbn; try lia. destruct herr; [|lia]. destruct (sys_attempts s !! k); [|lia].
  destruct (_ && _); lia.
Qed.

Lemma budget_step id e s s' :
  sys_inv workers s -> id ∈ sys_used s -> (forall now, e <> EvRetry now id) ->
  exec cfg backoff kinds workers batch e s = Some s' ->
  claims backoff cfg kinds workers batch id e s + budget id s' <= budget id s + credit id e s.
Proof.
  intros Hinv Hu Hne He. pose proof (credit_nonneg id e s) as Hcr. unfold budget.
  destruct (sys_jobs s !! id) as [r|] eqn:Hr.
  2: { rewrite (exec_gone cfg Hcfg backoff kinds workers batch e s s' id), (claims_gone id e s s') by done. lia. }
  pose proof (ti_wf _ (si_table workers s Hinv) id r Hr) as Hwf.
  pose proof (exec_row cfg Hcfg backoff kinds workers batch e s s' id r Hinv Hr He) as H.
  destruct (claims_spec id e s s' r Hr He) as [->|(-> & q & Hq & E & E')].
  2: { rewrite Hq, E, E'. lia. }
  destruct (sys_jobs s' !! id) as [r'|] eqn:Hr'; [|destruct Hwf; lia].
  destruct H as [->|H]; [lia|].
  destruct H as [w now locked token H|k now r' H ->|k now herr a Ha Hid Hs Hl Hcause|now msg H|now n H]; cbn; try lia.
  - cbn [credit]. rewrite Ha, Hid, String.eqb_refl. unfold finish_row.
    destruct herr as [h|]; cbn; [|lia]. destruct (bool_decide (at_cause a = CauseShutdown)); cbn.
    + destruct (Z.ltb_spec 0 (jAttempts r)); destruct Hwf; lia.
    + destruct (_ || _); cbn; lia.
  - by destruct (Hne now).
Qed.
End budget.

(** No poison job: over any run in which nobody retries it by hand, a
    job is started at most as often as its remaining attempt budget, plus
    the attempts that shutdowns interrupted and gave back. *)
Theorem runs_bounded cfg backoff kinds workers batch es0 es s s' id :
  0 < oc_max_attempts cfg ->
  run cfg backoff kinds workers batch es0 empty_system = Some s -> id ∈ sys_used s ->
  run cfg backoff kinds workers batch es s = Some s' ->
  Forall (fun e => forall now, e <> EvRetry now id) es ->
  let '(starts, interrupted) := totals cfg backoff kinds workers batch id es s in
  starts <= budget id s + interrupted.
Proof.
  intros Hc Hrun Hu. pose proof (reachable_sys_inv _ _ _ _ _ _ _ Hc Hrun) as Hinv. clear Hrun.
  revert s Hu Hinv. induction es as [|e es IH]; intros s Hu Hinv; cbn [run totals]; intros Hr Hes.
  - unfold budget. destruct (sys_jobs s !! id) as [r|] eqn:E; [|done].
    destruct (ti_wf _ (si_table workers s Hinv) id r E). lia.
  - apply bind_Some in Hr as (s1 & He & Hr). rewrite He. apply Forall_cons in Hes as [Hne Hes].
    pose proof (budget_step cfg Hc backoff kinds workers batch id e s s1 Hinv Hu Hne He) as Hb.
    assert (Hu1 : id ∈ sys_used s1) by (eapply exec_used; [exact Hc|exact He|done]).
    specialize (IH s1 Hu1 (exec_inv workers cfg Hc backoff kinds batch e s s1 Hinv He) Hr Hes).
    destruct (totals _ _ _ _ _ _ es s1) as [n c]. lia.
Qed.

(** A recorded success is final: no poll, late result of a worker that
    lost its lease, retry or reap changes a done job; it only goes away by
    retention, and is never started again. *)
Theorem done_final cfg backoff kinds workers batch es0 es s s' id r :
  0 < oc_max_attempts cfg ->
  run cfg backoff kinds workers batch es0 empty_system = Some s ->
  sys_jobs s !! id = Some r -> jStatus r = JobDone ->
  run cfg backoff kinds workers batch es s = Some s' ->
  (sys_jobs s' !! id = Some r \/ sys_jobs s' !! id = None) /\
  (totals cfg backoff kinds workers batch id es s).1 = 0.
Proof.
  intros Hc Hrun Hr Hd. pose proof (reachable_sys_inv _ _ _ _ _ _ _ Hc Hrun) as Hinv. clear Hrun.
  assert (Hu : id ∈ sys_used s) by by eapply si_ids.
  assert (sys_jobs s !! id = Some r \/ sys_jobs s !! id = None) as Hrow by by left. clear Hr.
  revert s Hinv Hu Hrow. induction es as [|e es IH]; intros s Hinv Hu Hrow; cbn [run totals]; intros Hes.
  - by injection Hes as <-.
  - apply bind_Some in Hes as (s1 & He & Hes). rewrite He.
    assert (Hu1 : id ∈ sys_used s1) by (eapply exec_used; [exact Hc|exact He|done]).
    assert (Hinv1 := exec_inv workers cfg Hc backoff kinds batch e s s1 Hinv He).
    assert ((sys_jobs s1 !! id = Some r \/ sys_jobs s1 !! id = None) /\
      claims backoff cfg kinds workers batch id e s = 0) as [Hrow1 Hcl].
    { destruct Hrow as [Hr|Hr].
      - pose proof (exec_row cfg Hc backoff kinds workers batch e s s1 id r Hinv Hr He) as H.
        assert (forall q, sys_jobs s1 !! id = Some q -> q = r) as Hq.
        { intros q Hq. rewrite Hq in H. destruct H as [|H%row_step_status]; done. }
        split.
        + destruct (sys_jobs s1 !! id) as [q|] eqn:E; [left; by rewrite (Hq q)|by right].
        + destruct (claims_spec cfg Hc backoff kinds workers batch id e s s1 r Hr He) as [->|(_ & q & E & E' & _)]; [done|].
          apply Hq in E. subst. lia.
      - split; [right; by eapply (exec_gone cfg Hc backoff kinds workers batch e s s1)|]. by eapply (claims_gone cfg Hc backoff kinds workers batch id e s s1). }
    destruct (IH s1 Hinv1 Hu1 Hrow1 Hes) as [? Ht]. split; [done|].
    destruct (totals _ _ _ _ _ _ es s1) as [n c]. cbn in *. lia.
Qed.

(** ** A sample run *)

Definition sample_kinds (w : string) : list string := ["erp.post"%string].
Definition sample_backoff (n : Z) : Z := n.

(** A job is claimed by [w1], whose lease expires; [w2] takes it over. *)
Definition takeover : list event :=
  [EvEnqueue 0 "erp.post" "{}" sample_options ["id1"%string];
   EvPoll "w1" 1 ∅ "t1"; EvPoll "w2" 400000000000 ∅ "t2"; EvBeat 0 400000000001].

Definition run_sample (es : list event) : option system :=
  run sample_outbox sample_backoff sample_kinds 2 2 es empty_system.

Definition sample_state : system := default empty_system (run_sample takeover).
Definition sample_row : Job :=
  mkJob None "erp.post" "{}" JobRunning 2 10 0 "" None (Some 700000000000) (Some "t2"%string) 0 400000000000.

Lemma run_takeover : run_sample takeover = Some sample_state.
Proof. by vm_compute. Qed.

Lemma lease_exclusive_witness :
  owned "id1" "t2" (sys_jobs sample_state) = Some sample_row /\ jAttempts sample_row = 2.
Proof.
  split; [by vm_compute|].
  apply (lease_exclusive sample_outbox sample_backoff sample_kinds 2 2 takeover sample_state 1 1
    (mkAttempt "w2" "id1" "t2" 2 10 CauseNone) (mkAttempt "w2" "id1" "t2" 2 10 CauseNone) "id1" sample_row sample_row);
    first [exact run_takeover|by vm_compute].
Defined.

Lemma outbox_invariant_witness : table_inv (sys_jobs sample_state) /\ (inflight "w2" sample_state <= 2)%nat.
Proof.
  destruct (outbox_invariant sample_outbox sample_backoff sample_kinds 2 2 takeover sample_state) as [H1 H2];
    [by vm_compute|exact run_takeover|].
  split; [exact H1|apply H2].
Defined.

(** The worker that lost the lease reports success: nothing changes; then
    the owner does. *)
Lemma job_never_lost_witness :
  exists s' r', exec sample_outbox sample_backoff sample_kinds 2 2 (EvEnd 1 500000000000 None) sample_state = Some s' /\
    sys_jobs s' !! "id1"%string = Some r' /\ jPayload r' = "{}"%string.
Proof.
  eexists. 
  destruct (job_never_lost sample_outbox sample_backoff sample_kinds 2 2 takeover sample_state (EvEnd 1 500000000000 None)
    _ "id1" sample_row ltac:(by vm_compute) run_takeover eq_refl ltac:(by vm_compute) ltac:(by vm_compute))
    as (r' & Hr & _ & _ & Hp & _).
  exists r'. split; [reflexivity|]. split; [exact Hr|exact Hp].
Defined.

Lemma runs_bounded_witness :
  exists s', run sample_outbox sample_backoff sample_kinds 2 2 [EvPoll "w2" 800000000000 ∅ "t3"] sample_state = Some s' /\
    totals sample_outbox sample_backoff sample_kinds 2 2 "id1" [EvPoll "w2" 800000000000 ∅ "t3"] sample_state = (1, 0) /\
    1 <= budget "id1" sample_state + 0.
Proof.
  eexists. split; [reflexivity|]. split; [by vm_compute|].
  exact (runs_bounded sample_outbox sample_backoff sample_kinds 2 2 takeover [EvPoll "w2" 800000000000 ∅ "t3"]
    sample_state _ "id1" ltac:(by vm_compute) run_takeover ltac:(by vm_compute) eq_refl
    ltac:(repeat constructor; discriminate)).
Defined.

Definition done_run : list event := takeover ++ [EvEnd 1 500000000000 None].
Definition done_state : system := default empty_system (run_sample done_run).
Definition done_row : Job :=
  mkJob None "erp.post" "{}" JobDone 2 10 0 "" None None None 0 500000000000.

Lemma run_done : run_sample done_run = Some done_state.
Proof. by vm_compute. Qed.

(** The late failure of the first worker does not undo the success. *)
Lemma done_final_witness :
  exists s', run sample_outbox sample_backoff sample_kinds 2 2
      [EvEnd 0 600000000000 (Some (mkHandlerError "late" true None)); EvPoll "w1" 900000000000 ∅ "t3"] done_state = Some s' /\
    (sys_jobs s' !! "id1"%string = Some done_row \/ sys_jobs s' !! "id1"%string = None).
Proof.
  eexists. split; [reflexivity|].
  apply (done_final sample_outbox sample_backoff sample_kinds 2 2 done_run
    [EvEnd 0 600000000000 (Some (mkHandlerError "late" true None)); EvPoll "w1" 900000000000 ∅ "t3"]
    done_state _ "id1" done_row); first [exact run_done|reflexivity|by vm_compute].
Defined.
