(* ===== verification/Permission.v ===== *)
(** * Permissions (permission/*.go without model_grants.go)

    Capabilities and roles, the store interface ([PermissionStore]) with its
    in-memory and SQL implementations, the per-user TTL cache, the service's
    [Check], [CheckAny], [CheckAll] and [GetUserCapabilities], the provider
    variants and the gate.  Instants are nanoseconds. *)

From S2P Require Import Prelude GoStrings.

(** ** Capabilities and roles (capability.go, roles.go) *)

Definition Wildcard : string := "*".

Section names.
Context `{UnicodeLower}.

Definition Cap (resource action : string) : string :=
  let r := ToLower (TrimSpace resource) in
  let a := TrimSpace action in
  if String.eqb r "" then a else
  if String.eqb a "" then r else
  r +:+ String "." a.

Definition Resource (c : string) : string :=
  if String.eqb c Wildcard then "" else match cut "." c with Some (r, _) => r | None => c end.
Definition Action (c : string) : string :=
  match cut "." c with Some (_, a) => a | None => "" end.

Definition Matches (c want : string) : bool :=
  if String.eqb c Wildcard then true else String.eqb c want.

Definition NormalizeRole (r : string) : string := ToLower (TrimSpace r).
Definition RoleOwner : string := "owner".
Definition DefaultSuperRoles : list string := [RoleOwner].
End names.

(** ** Errors (errors.go) *)

(** [StoreFailure] is any other error of a store. *)
Inductive perm_error : Type :=
| ErrPermissionDenied | ErrUnknownRole | ErrNoUser | StoreFailure (msg : string).
#[export] Instance perm_error_eq_dec : EqDecision perm_error.
Proof. solve_decision. Defined.

(** ** The store interface (store.go) *)

Class PermissionStore (S : Type) := {
  GetRolePermissions : S -> string -> result perm_error (list string);
  GetUserPermissions : S -> string -> result perm_error (list string)
}.

(** What a store promises: its answers are the grants it stands for, and an
    unknown role has none. *)
Class PermissionStoreLaws (S : Type) `{PermissionStore S} := {
  role_grants : S -> string -> gset string;
  user_grants : S -> string -> gset string;
  store_role_ok s r l : GetRolePermissions s r = Ok l -> list_to_set l = role_grants s r;
  store_role_unknown s r : GetRolePermissions s r = Err ErrUnknownRole -> role_grants s r = ∅;
  store_user_ok s u l : GetUserPermissions s u = Ok l -> list_to_set l = user_grants s u
}.

(** *** InMemoryStore *)

Record InMemoryStore := mkInMemory {
  roleCaps : gmap string (list string); userCaps : gmap string (list string)
}.

Section memory.
Context `{UnicodeLower}.

Definition SetRole (role : string) (caps : list string) (s : InMemoryStore) : InMemoryStore :=
  mkInMemory (<[NormalizeRole role := caps]> (roleCaps s)) (userCaps s).
Definition SetUser (u : string) (caps : list string) (s : InMemoryStore) : InMemoryStore :=
  mkInMemory (roleCaps s) (<[u := caps]> (userCaps s)).

(** The maps passed in, in the order their iteration visits them. *)
Definition NewInMemoryStore (roles users : list (string * list string)) : InMemoryStore :=
  let s := fold_left (fun s p => SetRole p.1 p.2 s) roles (mkInMemory ∅ ∅) in
  fold_left (fun s p => SetUser p.1 p.2 s) users s.

Definition memory_GetRolePermissions (s : InMemoryStore) (role : string) : result perm_error (list string) :=
  match roleCaps s !! NormalizeRole role with Some caps => Ok caps | None => Err ErrUnknownRole end.
Definition memory_GetUserPermissions (s : InMemoryStore) (u : string) : result perm_error (list string) :=
  Ok (default [] (userCaps s !! u)).

#[export] Instance InMemoryStore_store : PermissionStore InMemoryStore := {
  GetRolePermissions := memory_GetRolePermissions;
  GetUserPermissions := memory_GetUserPermissions
}.

#[export] Program Instance InMemoryStore_laws : PermissionStoreLaws InMemoryStore := {
  role_grants s r := list_to_set (default [] (roleCaps s !! NormalizeRole r));
  user_grants s u := list_to_set (default [] (userCaps s !! u))
}.
Next Obligation.
  intros s r l. cbn. unfold memory_GetRolePermissions. destruct (roleCaps s !! _); [|done]. by intros [= ->].
Qed.
Next Obligation.
  intros s r. cbn. unfold memory_GetRolePermissions. by destruct (roleCaps s !! _).
Qed.
Next Obligation. intros s u l. cbn. by intros [= ->]. Qed.
End memory.

(** *** GormStore *)

(** A row of either grant table: the role or the user, and the capability.
    [BaseUUIDModel] has a [DeletedAt] column, so a DELETE marks the row and
    queries skip marked rows; the unique index covers every row. *)
Record grant_row := mkGrant { gr_key : string; gr_cap : string; gr_deleted : bool }.
Abbreviation grants := (list grant_row).
Record GormStore := mkGorm { role_rows : grants; user_rows : grants }.

Definition same_pair (key cap : string) (r : grant_row) : bool :=
  String.eqb (gr_key r) key && String.eqb (gr_cap r) cap.

(** [Where(key = ?).Find]. *)
Definition find_grants (key : string) (t : grants) : list string :=
  map gr_cap (List.filter (fun r => String.eqb (gr_key r) key && negb (gr_deleted r)) t).

(** The answer of the database to an INSERT that breaks the unique index. *)
Definition duplicate_key : perm_error := StoreFailure "duplicate key value violates unique constraint".

(** [Where(key, capability).FirstOrCreate]. *)
Definition first_or_create (key cap : string) (t : grants) : result perm_error unit * grants :=
  if existsb (fun r => same_pair key cap r && negb (gr_deleted r)) t then (Ok tt, t)
  else if existsb (same_pair key cap) t then (Err duplicate_key, t)
  else (Ok tt, t ++ [mkGrant key cap false]).

(** [Where(key, capability).Delete]. *)
Definition soft_delete (key cap : string) (t : grants) : grants :=
  map (fun r => if same_pair key cap r then mkGrant (gr_key r) (gr_cap r) true else r) t.

Section gorm.
Context `{UnicodeLower}.

Definition gorm_GetRolePermissions (s : GormStore) (role : string) : result perm_error (list string) :=
  match find_grants (NormalizeRole role) (role_rows s) with [] => Err ErrUnknownRole | l => Ok l end.
Definition gorm_GetUserPermissions (s : GormStore) (u : string) : result perm_error (list string) :=
  Ok (find_grants u (user_rows s)).

Definition GrantRole (role cap : string) (s : GormStore) : result perm_error unit * GormStore :=
  let '(res, t) := first_or_create (NormalizeRole role) cap (role_rows s) in (res, mkGorm t (user_rows s)).
Definition GrantUser (u cap : string) (s : GormStore) : result perm_error unit * GormStore :=
  let '(res, t) := first_or_create u cap (user_rows s) in (res, mkGorm (role_rows s) t).
Definition RevokeRole (role cap : string) (s : GormStore) : GormStore :=
  mkGorm (soft_delete (NormalizeRole role) cap (role_rows s)) (user_rows s).
Definition RevokeUser (u cap : string) (s : GormStore) : GormStore :=
  mkGorm (role_rows s) (soft_delete u cap (user_rows s)).

#[export] Instance GormStore_store : PermissionStore GormStore := {
  GetRolePermissions := gorm_GetRolePermissions;
  GetUserPermissions := gorm_GetUserPermissions
}.

#[export] Program Instance GormStore_laws : PermissionStoreLaws GormStore := {
  role_grants s r := list_to_set (find_grants (NormalizeRole r) (role_rows s));
  user_grants s u := list_to_set (find_grants u (user_rows s))
}.
Next Obligation.
  intros s r l. cbn. unfold gorm_GetRolePermissions. by destruct (find_grants _ _); [|intros [= <-]].
Qed.
Next Obligation.
  intros s r. cbn. unfold gorm_GetRolePermissions. by destruct (find_grants _ _).
Qed.
Next Obligation. intros s u l. cbn. by intros [= ->]. Qed.
End gorm.

(** ** The cache (cache.go) *)

Definition uuid_Nil : string := "00000000-0000-0000-0000-000000000000".

Record cacheEntry := mkEntry { ce_caps : list string; ce_expiresAt : Z }.
Abbreviation capCache := (gmap string cacheEntry).

Definition cache_get (ttl now : Z) (u : string) (c : capCache) : option (list string) :=
  if ttl <=? 0 then None else
  match c !! u with
  | Some e => if ce_expiresAt e <? now then None else Some (ce_caps e)
  | None => None
  end.
Definition cache_put (ttl now : Z) (u : string) (caps : list string) (c : capCache) : capCache :=
  if (ttl <=? 0) || String.eqb u uuid_Nil then c else <[u := mkEntry caps (now + ttl)]> c.
Definition invalidate (u : string) (c : capCache) : capCache := delete u c.
Definition invalidateAll (c : capCache) : capCache := ∅.

(** ** The service (service.go) *)

Record Service := mkService { svc_ttl : Z; svc_superRoles : gset string }.
Definition DefaultCacheTTL : Z := 5 * 60 * 1000000000.

Record AuthUser := mkUser { u_id : string; u_role : string }.

(** The loops that append the capabilities not seen yet. *)
Fixpoint append_new (seen : list string) (caps : list string) : list string :=
  match caps with
  | [] => seen
  | c :: caps => append_new (if bool_decide (c ∈ seen) then seen else seen ++ [c]) caps
  end.

Section service.
Context `{UnicodeLower}.

Definition New (ttl : Z) (superRoles : option (list string)) : Service :=
  mkService (if ttl =? 0 then DefaultCacheTTL else ttl)
    (list_to_set (map NormalizeRole (default DefaultSuperRoles superRoles))).

Definition isSuperRole (svc : Service) (role : string) : bool :=
  if String.eqb role "" then false else bool_decide (NormalizeRole role ∈ svc_superRoles svc).

Context {S : Type} `{PermissionStore S}.

(** The reads of the store, in order. *)
Definition resolve (s : S) (u : AuthUser) : result perm_error (list string) :=
  let role := NormalizeRole (u_role u) in
  out ← (if String.eqb role "" then Ok [] else
    match GetRolePermissions s role with
    | Ok l => Ok (append_new [] l)
    | Err ErrUnknownRole => Ok []
    | Err e => Err e
    end);
  if String.eqb (u_id u) uuid_Nil then Ok out else
  l ← GetUserPermissions s (u_id u); Ok (append_new out l).

(** One call at the instant [now]. *)
Definition GetUserCapabilities (svc : Service) (now : Z) (s : S) (user : option AuthUser) (c : capCache) :
    result perm_error (list string) * capCache :=
  match user with
  | None => (Err ErrNoUser, c)
  | Some u =>
      match cache_get (svc_ttl svc) now (u_id u) c with
      | Some cached => (Ok cached, c)
      | None =>
          if isSuperRole svc (u_role u) then
            (Ok [Wildcard], cache_put (svc_ttl svc) now (u_id u) [Wildcard] c)
          else
            match resolve s u with
            | Ok out => (Ok out, cache_put (svc_ttl svc) now (u_id u) out c)
            | Err e => (Err e, c)
            end
      end
  end.

Definition denied {A} : result perm_error A := Err ErrPermissionDenied.

Definition Check (svc : Service) (now : Z) (s : S) (user : option AuthUser) (cap : string) (c : capCache) :
    result perm_error unit * capCache :=
  match user with
  | None => (Err ErrNoUser, c)
  | Some u =>
      if isSuperRole svc (u_role u) then (Ok tt, c) else
      let '(r, c) := GetUserCapabilities svc now s user c in
      (caps ← r; if existsb (fun h => Matches h cap) caps then Ok tt else denied, c)
  end.

Definition CheckAny (svc : Service) (now : Z) (s : S) (user : option AuthUser) (wants : list string) (c : capCache) :
    result perm_error unit * capCache :=
  match user with
  | None => (Err ErrNoUser, c)
  | Some u =>
      if (length wants =? 0)%nat then (Ok tt, c) else
      if isSuperRole svc (u_role u) then (Ok tt, c) else
      let '(r, c) := GetUserCapabilities svc now s user c in
      (caps ← r; if existsb (fun want => existsb (fun h => Matches h want) caps) wants then Ok tt else denied, c)
  end.

Definition CheckAll (svc : Service) (now : Z) (s : S) (user : option AuthUser) (wants : list string) (c : capCache) :
    result perm_error unit * capCache :=
  match user with
  | None => (Err ErrNoUser, c)
  | Some u =>
      if (length wants =? 0)%nat then (Ok tt, c) else
      if isSuperRole svc (u_role u) then (Ok tt, c) else
      let '(r, c) := GetUserCapabilities svc now s user c in
      (caps ← r;
       if bool_decide (Wildcard ∈ caps) then Ok tt
       else if forallb (fun want => bool_decide (want ∈ caps)) wants then Ok tt else denied, c)
  end.

(** ** Providers (provider.go) *)

(** An [AuthUserProvider]: the user it wraps, and [HasPermission] when it
    implements [PermissionChecker]. *)
Record AuthUserProvider := mkProvider { pr_user : AuthUser; pr_checker : option (string -> bool) }.

Definition CheckProvider (svc : Service) (now : Z) (s : S) (p : option AuthUserProvider) (cap : string)
    (c : capCache) : result perm_error unit * capCache :=
  match p with
  | None => (Err ErrNoUser, c)
  | Some p =>
      if match pr_checker p with Some has => has cap | None => false end then (Ok tt, c)
      else Check svc now s (Some (pr_user p)) cap c
  end.
Definition CheckProviderAny (svc : Service) (now : Z) (s : S) (p : option AuthUserProvider) (caps : list string)
    (c : capCache) : result perm_error unit * capCache :=
  match p with
  | None => (Err ErrNoUser, c)
  | Some p =>
      if match pr_checker p with Some has => existsb has caps | None => false end then (Ok tt, c)
      else CheckAny svc now s (Some (pr_user p)) caps c
  end.
Definition CheckProviderAll (svc : Service) (now : Z) (s : S) (p : option AuthUserProvider) (caps : list string)
    (c : capCache) : result perm_error unit * capCache :=
  match p with
  | None => (Err ErrNoUser, c)
  | Some p =>
      if match pr_checker p with Some has => forallb has caps | None => false end then (Ok tt, c)
      else CheckAll svc now s (Some (pr_user p)) caps c
  end.

(** ** The gate (middleware.go) *)

Inductive CheckMode : Type := ModeAll | ModeAny.
#[export] Instance CheckMode_eq_dec : EqDecision CheckMode.
Proof. solve_decision. Defined.

(** What the middleware does with the request. *)
Inductive gate_outcome : Type := GateNext | GateUnauthenticated | GateDenied.

Definition gateWith (svc : Service) (now : Z) (s : S) (mode : CheckMode) (caps : list string)
    (user : option AuthUser) (c : capCache) : gate_outcome * capCache :=
  match user with
  | None => (GateUnauthenticated, c)
  | Some u =>
      let '(err, c) :=
        match caps with
        | [] => (Ok tt, c)
        | [cap] => Check svc now s user cap c
        | _ => if bool_decide (mode = ModeAny) then CheckAny svc now s user caps c else CheckAll svc now s user caps c
        end in
      (match err with Ok _ => GateNext | Err ErrNoUser => GateUnauthenticated | Err _ => GateDenied end, c)
  end.
End service.

(** ** Lemmas *)

Lemma append_new_elem x seen caps : x ∈ append_new seen caps <-> x ∈ seen \/ x ∈ caps.
Proof.
  revert seen. induction caps as [|c caps IH]; intros seen; cbn; [set_solver|].
  rewrite IH. case_bool_decide; set_solver.
Qed.

Lemma append_new_NoDup seen caps : NoDup seen -> NoDup (append_new seen caps).
Proof.
  revert seen. induction caps as [|c caps IH]; intros seen Hs; cbn; [done|].
  apply IH. case_bool_decide; [done|]. apply NoDup_app. split_and!; [done|set_solver|by apply NoDup_singleton].
Qed.

Lemma Matches_spec h cap : Matches h cap = true <-> h = Wildcard \/ h = cap.
Proof. unfold Matches. destruct (String.eqb_spec h Wildcard); [naive_solver|]. rewrite String.eqb_eq. naive_solver. Qed.

(** A capability list grants [cap]. *)
Definition grants_cap (X : gset string) (cap : string) : Prop := Wildcard ∈ X \/ cap ∈ X.

Lemma existsb_Matches caps cap :
  existsb (fun h => Matches h cap) caps = true <-> grants_cap (list_to_set caps) cap.
Proof.
  rewrite existsb_exists. unfold grants_cap. rewrite !elem_of_list_to_set. split.
  - intros (h & Hin%list_elem_of_In & [->| ->]%Matches_spec); auto.
  - intros [Hin|Hin]; eexists; (split; [by apply list_elem_of_In|]); apply Matches_spec; auto.
Qed.

Section service_theorems.
Context `{UnicodeLower} {S : Type} `{PermissionStoreLaws S}.

(** The capabilities the store grants a user: the role's and the user's own. *)
Definition effective (s : S) (u : AuthUser) : gset string :=
  (if String.eqb (NormalizeRole (u_role u)) "" then ∅ else role_grants s (NormalizeRole (u_role u))) ∪
  (if String.eqb (u_id u) uuid_Nil then ∅ else user_grants s (u_id u)).

Lemma resolve_Ok s u out :
  resolve s u = Ok out -> list_to_set out = effective s u /\ NoDup out.
Proof.
  unfold resolve, effective. intros (l & Hl & Hu)%bind_Ok.
  assert (list_to_set l = (if String.eqb (NormalizeRole (u_role u)) "" then ∅
    else role_grants s (NormalizeRole (u_role u)) : gset string) /\ NoDup l) as [El Hnd].
  { destruct (String.eqb _ _); [injection Hl as <-; split; [done|constructor]|].
    destruct (GetRolePermissions s _) as [caps|e] eqn:E.
    - injection Hl as <-. split; [|apply append_new_NoDup; constructor].
      rewrite <- (store_role_ok s _ caps E). apply set_eq. intros x.
      rewrite !elem_of_list_to_set, append_new_elem. set_solver.
    - destruct e; try done. injection Hl as <-. rewrite (store_role_unknown s _ E). split; [done|constructor]. }
  rewrite <- El. destruct (String.eqb (u_id u) uuid_Nil).
  - injection Hu as <-. split; [set_solver|done].
  - apply bind_Ok in Hu as (k & Hk & [= <-]). rewrite <- (store_user_ok s _ k Hk).
    split; [|by apply append_new_NoDup]. apply set_eq. intros x.
    rewrite elem_of_union, !elem_of_list_to_set, append_new_elem. done.
Qed.

(** What the service answers from: a live cache entry, or the store. *)
Definition answer (svc : Service) (now : Z) (s : S) (u : AuthUser) (c : capCache) : result perm_error (list string) :=
  match cache_get (svc_ttl svc) now (u_id u) c with
  | Some l => Ok l
  | None => if isSuperRole svc (u_role u) then Ok [Wildcard] else resolve s u
  end.

Lemma GetUserCapabilities_answer svc now s u c :
  GetUserCapabilities svc now s (Some u) c =
    (answer svc now s u c,
     match cache_get (svc_ttl svc) now (u_id u) c, answer svc now s u c with
     | None, Ok l => cache_put (svc_ttl svc) now (u_id u) l c
     | _, _ => c
     end).
Proof.
  unfold GetUserCapabilities, answer. destruct (cache_get _ _ _ _); [done|].
  destruct (isSuperRole _ _); [done|]. by destruct (resolve s u).
Qed.

Lemma Check_answer svc now s u cap c :
  (Check svc now s (Some u) cap c).1 = Ok tt <->
  isSuperRole svc (u_role u) = true \/
  exists l, answer svc now s u c = Ok l /\ grants_cap (list_to_set l) cap.
Proof.
  unfold Check. destruct (isSuperRole svc (u_role u)) eqn:Es; [naive_solver|].
  rewrite GetUserCapabilities_answer. destruct (answer svc now s u c) as [l|e]; cbn.
  - split.
    + destruct (existsb _ _) eqn:E; [|done]. intros _. right. exists l. split; [done|]. by apply existsb_Matches.
    + intros [?|(l' & [= <-] & Hg)]; [done|]. apply existsb_Matches in Hg. by rewrite Hg.
  - naive_solver.
Qed.

(** [Check] decides exactly by the grants: with no stale cache entry for
    the user, it allows a super role, and otherwise exactly the users whose
    role or own grants contain the capability or the wildcard; anyone else is
    denied, and a store failure is never an allowance. *)
Theorem Check_correct svc now s u cap c :
  (forall l, cache_get (svc_ttl svc) now (u_id u) c = Some l -> list_to_set l = effective s u) ->
  match (Check svc now s (Some u) cap c).1 with
  | Ok _ => isSuperRole svc (u_role u) = true \/ grants_cap (effective s u) cap
  | Err e => isSuperRole svc (u_role u) = false /\
      (resolve s u = Err e \/ e = ErrPermissionDenied /\ ~ grants_cap (effective s u) cap)
  end.
Proof.
  intros Hc. unfold Check. destruct (isSuperRole svc (u_role u)) eqn:Es; [by left|].
  rewrite GetUserCapabilities_answer. unfold answer. rewrite Es.
  destruct (cache_get _ _ _ _) as [l|] eqn:Eg; cbn.
  - rewrite <- (Hc l eq_refl). destruct (existsb _ _) eqn:E; cbn.
    + right. by apply existsb_Matches.
    + split; [done|]. right. split; [done|]. intros Hg%existsb_Matches. congruence.
  - destruct (resolve s u) as [l|e] eqn:Er; cbn; [|by auto].
    apply resolve_Ok in Er as [<- _]. destruct (existsb _ _) eqn:E; cbn.
    + right. by apply existsb_Matches.
    + split; [done|]. right. split; [done|]. intros Hg%existsb_Matches. congruence.
Qed.

(** [CheckAny] and [CheckAll] agree with [Check]: on the same cache and
    store, [CheckAny] allows exactly when some listed capability (or none is
    listed) passes [Check], and [CheckAll] exactly when all of them do. *)
Theorem CheckAny_CheckAll_Check svc now s u wants c :
  ((CheckAny svc now s (Some u) wants c).1 = Ok tt <->
     wants = [] \/ exists cap, cap ∈ wants /\ (Check svc now s (Some u) cap c).1 = Ok tt) /\
  ((CheckAll svc now s (Some u) wants c).1 = Ok tt <->
     forall cap, cap ∈ wants -> (Check svc now s (Some u) cap c).1 = Ok tt).
Proof.
  setoid_rewrite Check_answer. unfold CheckAny, CheckAll. rewrite GetUserCapabilities_answer.
  destruct wants as [|w ws]; cbn [length Nat.eqb]; [split; [naive_solver|set_solver]|].
  destruct (isSuperRole svc (u_role u)) eqn:Es.
  { split; [|naive_solver]. split; [|done]. intros _. right. exists w. set_solver. }
  remember (w :: ws) as wants eqn:Ew. destruct (answer svc now s u c) as [l|e]; cbn [fst mbind result_bind].
  - split.
    + assert (existsb (fun want => existsb (fun h => Matches h want) l) wants = true <->
        exists cap, cap ∈ wants /\ grants_cap (list_to_set l) cap) as Ht.
      { rewrite existsb_exists. setoid_rewrite <- list_elem_of_In. by setoid_rewrite existsb_Matches. }
      split.
      * destruct (existsb _ wants); [|done]. intros _. destruct (proj1 Ht eq_refl) as (cap & ? & ?). right.
        exists cap. split; [done|]. right. by exists l.
      * intros [?|(cap & Hin & [?|(l' & [= <-] & Hg)])]; [by subst|done|]. rewrite (proj2 Ht); [done|]. by exists cap.
    + case_bool_decide as Hw.
      { split; [|done]. intros _ cap _. right. exists l. split; [done|]. left. by apply elem_of_list_to_set. }
      assert (forallb (fun want => bool_decide (want ∈ l)) wants = true <->
        forall cap, cap ∈ wants -> cap ∈ l) as Ht.
      { rewrite forallb_forall. setoid_rewrite <- list_elem_of_In. by setoid_rewrite bool_decide_eq_true. }
      split.
      * destruct (forallb _ wants); [|done]. intros _ cap Hin. right. exists l. split; [done|]. right.
        apply elem_of_list_to_set. by apply (proj1 Ht).
      * intros Hall. rewrite (proj2 Ht); [done|]. intros cap Hin.
        destruct (Hall cap Hin) as [?|(l' & [= <-] & [Hg|Hg])]; [done|..]; apply elem_of_list_to_set in Hg; done.
  - split; split; try done.
    + intros [?|(cap & _ & [?|(l & ? & _)])]; [by subst|done|done].
    + intros Hall. destruct (Hall w) as [?|(l & ? & _)]; [subst; set_solver|done|done].
Qed.
End service_theorems.

(** ** How stale an answer may be *)

(** Calls one after the other, with grants changing between them. *)
Inductive perm_event (S : Type) : Type :=
| EvCall (now : Z) (u : AuthUser)
| EvStore (s : S)
| EvInvalidate (u : string)
| EvInvalidateAll.
Arguments EvCall {S}. Arguments EvStore {S}. Arguments EvInvalidate {S}. Arguments EvInvalidateAll {S}.

Section staleness.
Context `{UnicodeLower} {S : Type} `{PermissionStoreLaws S} (svc : Service).

Definition perm_step (e : perm_event S) (w : S * capCache) : S * capCache :=
  match e with
  | EvCall now u => (w.1, (GetUserCapabilities svc now w.1 (Some u) w.2).2)
  | EvStore s => (s, w.2)
  | EvInvalidate u => (w.1, invalidate u w.2)
  | EvInvalidateAll => (w.1, invalidateAll w.2)
  end.
Definition perm_run (evs : list (perm_event S)) (w : S * capCache) : S * capCache :=
  fold_left (fun w e => perm_step e w) evs w.

Definition invalidates (u : string) (e : perm_event S) : bool :=
  match e with EvInvalidate v => String.eqb v u | EvInvalidateAll => true | _ => false end.

(** The user could do it at that moment. *)
Definition may (s : S) (u : AuthUser) (cap : string) : Prop :=
  isSuperRole svc (u_role u) = true \/ grants_cap (effective s u) cap.

(** The entry was resolved by a call of [evs] that no invalidation followed. *)
Definition origin (s0 : S) (evs : list (perm_event S)) (u : string) (e : cacheEntry) : Prop :=
  exists evs1 evs2 t1 u1,
    evs = evs1 ++ EvCall t1 u1 :: evs2 /\ u_id u1 = u /\ ce_expiresAt e = t1 + svc_ttl svc /\
    Forall (fun x => invalidates u x = false) evs2 /\
    forall cap, grants_cap (list_to_set (ce_caps e)) cap -> may (perm_run evs1 (s0, ∅)).1 u1 cap.

Lemma origin_snoc s0 evs u e x :
  origin s0 evs u e -> invalidates u x = false -> origin s0 (evs ++ [x]) u e.
Proof.
  intros (evs1 & evs2 & t1 & u1 & -> & Hu & He & Hinv & Hcap) Hx.
  exists evs1, (evs2 ++ [x]), t1, u1. split_and!; try done.
  - by rewrite <- app_assoc.
  - apply Forall_app. split; [done|]. by repeat constructor.
Qed.

Lemma answer_may now s u c l cap :
  cache_get (svc_ttl svc) now (u_id u) c = None -> answer svc now s u c = Ok l ->
  grants_cap (list_to_set l) cap -> may s u cap.
Proof.
  unfold answer. intros ->. destruct (isSuperRole svc (u_role u)) eqn:E; [by left|].
  intros [Heq _]%resolve_Ok Hg. right. by rewrite <- Heq.
Qed.

Lemma cache_origin s0 evs u e :
  (perm_run evs (s0, ∅)).2 !! u = Some e -> origin s0 evs u e.
Proof.
  revert u e. induction evs as [|x evs IH] using rev_ind; intros u e; cbn; [by rewrite lookup_empty|].
  unfold perm_run. rewrite fold_left_app. cbn [fold_left]. fold (perm_run evs (s0, ∅)).
  destruct (perm_run evs (s0, ∅)) as [s c] eqn:Ew. cbn in IH.
  destruct x as [now v|s'|v|]; cbn [perm_step fst snd].
  - rewrite GetUserCapabilities_answer. cbn [snd].
    destruct (cache_get _ now _ c) as [l|] eqn:Eg; [intros He; by apply origin_snoc; [apply IH|]|].
    destruct (answer svc now s v c) as [l|] eqn:Ea; [|intros He; by apply origin_snoc; [apply IH|]].
    unfold cache_put. destruct (_ || _); [intros He; by apply origin_snoc; [apply IH|]|].
    intros [[<- <-]|[_ He]]%lookup_insert_Some; [|by apply origin_snoc; [apply IH|]].
    exists evs, [], now, v. split_and!; try done. rewrite Ew. cbn. intros cap. by eapply answer_may.
  - intros He. apply origin_snoc; [by apply IH|done].
  - unfold invalidate. intros [Hne He]%lookup_delete_Some. apply origin_snoc; [by apply IH|].
    cbn. by apply String.eqb_neq.
  - unfold invalidateAll. by rewrite lookup_empty.
Qed.
End staleness.

(** Bounded staleness: after any sequence of calls, grant changes and
    invalidations, a call that allows a capability is justified by the grants
    now, or by the grants of a call for the same user at most the TTL ago
    after which neither that user nor everybody was invalidated.  So a
    revocation followed by an invalidation takes effect at the next call. *)
Theorem stale_grant_bounded `{UnicodeLower} {S} `{PermissionStoreLaws S} svc s0 evs now u cap :
  let w := perm_run svc evs (s0, ∅) in
  (Check svc now w.1 (Some u) cap w.2).1 = Ok tt ->
  may svc w.1 u cap \/
  exists evs1 evs2 t1 u1, evs = evs1 ++ EvCall t1 u1 :: evs2 /\ u_id u1 = u_id u /\ now <= t1 + svc_ttl svc /\
    Forall (fun x => invalidates (u_id u) x = false) evs2 /\ may svc (perm_run svc evs1 (s0, ∅)).1 u1 cap.
Proof.
  cbv zeta. intros [Hs|(l & Ha & Hg)]%Check_answer; [left; by left|].
  destruct (cache_get (svc_ttl svc) now (u_id u) (perm_run svc evs (s0, ∅)).2) as [k|] eqn:Eg.
  - right. unfold answer in Ha. rewrite Eg in Ha. injection Ha as ->.
    unfold cache_get in Eg. destruct (svc_ttl svc <=? 0); [done|].
    destruct ((perm_run svc evs (s0, ∅)).2 !! u_id u) as [e|] eqn:Ee; [|done].
    destruct (Z.ltb_spec (ce_expiresAt e) now); [done|]. injection Eg as <-.
    destruct (cache_origin svc s0 evs (u_id u) e Ee) as (evs1 & evs2 & t1 & u1 & -> & Hu & Hx & Hinv & Hcap).
    exists evs1, evs2, t1, u1. split_and!; [done|done|lia|done|by apply Hcap].
  - left. by eapply answer_may.
Qed.

(** The middleware runs the handler exactly for an authenticated user
    that passes [Check] for every listed capability, or in [ModeAny] for one
    of several; without a user it answers 401, and it never lets a store
    failure through. *)
Theorem gate_correct `{UnicodeLower} {S} `{PermissionStoreLaws S} svc now (s : S) mode caps user c :
  (gateWith svc now s mode caps user c).1 = GateNext <->
  exists u, user = Some u /\
    (caps = [] \/
     if bool_decide (mode = ModeAny)
     then exists cap, cap ∈ caps /\ (Check svc now s user cap c).1 = Ok tt
     else forall cap, cap ∈ caps -> (Check svc now s user cap c).1 = Ok tt).
Proof.
  destruct user as [u|]; [|cbn; naive_solver]. unfold gateWith.
  assert (forall p : result perm_error unit * capCache,
    (let '(err, c) := p in
     (match err with Ok _ => GateNext | Err ErrNoUser => GateUnauthenticated | Err _ => GateDenied end, c)).1 = GateNext
    <-> p.1 = Ok tt) as Hp.
  { intros [[[]|[]] ?]; cbn; naive_solver. }
  rewrite Hp. clear Hp.
  assert (forall P : Prop, (exists v, Some u = Some v /\ P) <-> P) as Hu by naive_solver.
  rewrite Hu. clear Hu. destruct (CheckAny_CheckAll_Check svc now s u caps c) as [Hany Hall].
  destruct caps as [|cap [|cap' caps]]; [naive_solver| |].
  - case_bool_decide; set_solver.
  - case_bool_decide; [rewrite Hany|rewrite Hall]; naive_solver.
Qed.

(** ** The SQL store *)

Lemma find_grants_elem key t cap :
  cap ∈ find_grants key t <-> mkGrant key cap false ∈ t.
Proof.
  unfold find_grants. rewrite list_elem_of_fmap. setoid_rewrite list_elem_of_In at 1. setoid_rewrite filter_In. split.
  - intros ([k x d] & -> & Hin & Hk). cbn in *. apply andb_true_iff in Hk as [->%String.eqb_eq Hd%negb_true_iff].
    subst. by apply list_elem_of_In.
  - intros Hin. exists (mkGrant key cap false). cbn. rewrite String.eqb_refl. by apply list_elem_of_In in Hin.
Qed.

Lemma same_pair_spec key cap r : same_pair key cap r = true <-> gr_key r = key /\ gr_cap r = cap.
Proof. unfold same_pair. by rewrite andb_true_iff, !String.eqb_eq. Qed.

Lemma live_pair key cap t :
  existsb (fun r => same_pair key cap r && negb (gr_deleted r)) t = true <-> cap ∈ find_grants key t.
Proof.
  rewrite existsb_exists, find_grants_elem. split.
  - intros ([k x d] & Hin & [[E1 E2]%same_pair_spec Hd%negb_true_iff]%andb_true_iff). cbn in *. subst.
    by apply list_elem_of_In.
  - intros Hin. eexists. split; [by apply list_elem_of_In|]. apply andb_true_iff. split; [by apply same_pair_spec|done].
Qed.

Lemma first_or_create_find key cap t k x :
  let '(res, t') := first_or_create key cap t in
  match res with
  | Ok _ => x ∈ find_grants k t' <-> x ∈ find_grants k t \/ (k = key /\ x = cap)
  | Err _ => t' = t /\ cap ∉ find_grants key t
  end.
Proof.
  unfold first_or_create. destruct (existsb (fun r => _ && _) t) eqn:E1.
  { apply live_pair in E1. naive_solver. }
  destruct (existsb (same_pair key cap) t) eqn:E2.
  { split; [done|]. rewrite <- live_pair. congruence. }
  rewrite !find_grants_elem, elem_of_app, list_elem_of_singleton. naive_solver.
Qed.

Lemma soft_delete_find key cap t k x :
  x ∈ find_grants k (soft_delete key cap t) <-> x ∈ find_grants k t /\ ~ (k = key /\ x = cap).
Proof.
  rewrite !find_grants_elem. unfold soft_delete. rewrite list_elem_of_fmap. split.
  - intros ([k' x' d] & E & Hin). destruct (same_pair key cap _) eqn:Es; [done|].
    injection E as -> -> ->. split; [done|]. intros Hk. apply not_true_iff_false in Es. by apply Es, same_pair_spec.
  - intros [Hin Hne]. exists (mkGrant k x false). split; [|done].
    destruct (same_pair key cap _) eqn:Es; [|done]. apply same_pair_spec in Es. naive_solver.
Qed.

(** A grant that reports success gives exactly that role that capability
    and changes no other grant, a grant that fails changes nothing, and a
    revocation takes away exactly that one. *)
Theorem GormStore_grants `{UnicodeLower} role cap s r x :
  (let '(res, s') := GrantRole role cap s in
   match res with
   | Ok _ => x ∈ role_grants s' r <-> x ∈ role_grants s r \/ (NormalizeRole r = NormalizeRole role /\ x = cap)
   | Err _ => s' = s /\ cap ∉ role_grants s role
   end) /\
  (x ∈ role_grants (RevokeRole role cap s) r <->
     x ∈ role_grants s r /\ ~ (NormalizeRole r = NormalizeRole role /\ x = cap)) /\
  user_grants (RevokeRole role cap s) r = user_grants s r.
Proof.
  cbn [role_grants GormStore_laws]. rewrite !elem_of_list_to_set. split_and!.
  - unfold GrantRole.
    pose proof (first_or_create_find (NormalizeRole role) cap (role_rows s) (NormalizeRole r) x) as H'.
    destruct (first_or_create _ _ _) as [[u|e] t]; cbn [role_rows].
    + by rewrite !elem_of_list_to_set.
    + destruct H' as [-> Hn]. split; [by destruct s|]. by rewrite elem_of_list_to_set.
  - unfold RevokeRole. cbn [role_rows]. rewrite !elem_of_list_to_set; by rewrite soft_delete_find.
  - done.
Qed.

(** A revoked capability cannot be granted again: the revoked row is only
    marked deleted, the unique index still counts it, and [FirstOrCreate]
    does not see it, so granting the pair again fails and the role stays
    without the capability. *)
Theorem regrant_after_revoke_fails `{UnicodeLower} role cap s s1 :
  GrantRole role cap s = (Ok tt, s1) ->
  GrantRole role cap (RevokeRole role cap s1) = (Err duplicate_key, RevokeRole role cap s1) /\
  cap ∉ role_grants (RevokeRole role cap s1) role.
Proof.
  intros Hg. assert (Hin : mkGrant (NormalizeRole role) cap false ∈ role_rows s1).
  { unfold GrantRole in Hg.
    pose proof (first_or_create_find (NormalizeRole role) cap (role_rows s) (NormalizeRole role) cap) as H'.
    destruct (first_or_create _ _ _) as [[u|e] t]; [|done]. injection Hg as _ <-. cbn.
    apply find_grants_elem, H'. by right. }
  assert (Hno : cap ∉ find_grants (NormalizeRole role) (role_rows (RevokeRole role cap s1))).
  { unfold RevokeRole. cbn [role_rows]. rewrite soft_delete_find. naive_solver. }
  split; [|cbn; by rewrite elem_of_list_to_set].
  unfold GrantRole, first_or_create. rewrite <- live_pair in Hno. apply not_true_is_false in Hno. rewrite Hno.
  rewrite (proj2 (existsb_exists (same_pair (NormalizeRole role) cap) _)); [done|].
  exists (mkGrant (NormalizeRole role) cap true). split; [|by apply same_pair_spec].
  apply list_elem_of_In, list_elem_of_fmap. exists (mkGrant (NormalizeRole role) cap false).
  split; [|done]. destruct (same_pair _ _ _) eqn:E; [done|].
  apply not_true_iff_false in E. destruct E. by apply same_pair_spec.
Qed.

(** ** Witnesses *)

(** An instance of the Unicode tables for ASCII inputs. *)
#[local] Instance no_unicode : UnicodeLower := fun s => s.

Definition sample_service : Service := New 0 None.
Definition sample_store : InMemoryStore :=
  NewInMemoryStore [("Admin"%string, ["users.create"%string])] [].
Definition sample_admin : AuthUser := mkUser "u1" " ADMIN ".

Lemma Check_correct_witness :
  isSuperRole sample_service " ADMIN " = true \/ grants_cap (effective sample_store sample_admin) "users.create".
Proof.
  assert (Hc : forall l, cache_get (svc_ttl sample_service) 7 (u_id sample_admin) ∅ = Some l ->
    list_to_set l = effective sample_store sample_admin).
  { intros l Hl. exfalso. assert (cache_get (svc_ttl sample_service) 7 (u_id sample_admin) ∅ = None) as E
      by (vm_compute; reflexivity). congruence. }
  assert (E : (Check sample_service 7 sample_store (Some sample_admin) "users.create" ∅).1 = Ok tt)
    by (vm_compute; reflexivity).
  pose proof (Check_correct sample_service 7 sample_store sample_admin "users.create" ∅ Hc) as H.
  rewrite E in H. exact H.
Defined.

(** A minute after the role lost the capability, the cache still allows it. *)
Definition sample_events : list (perm_event InMemoryStore) :=
  [EvCall 0 sample_admin; EvStore (NewInMemoryStore [] [])].

Lemma stale_grant_bounded_witness :
  let w := perm_run sample_service sample_events (sample_store, ∅) in
  may sample_service w.1 sample_admin "users.create" \/
  exists evs1 evs2 t1 u1, sample_events = evs1 ++ EvCall t1 u1 :: evs2 /\ u_id u1 = u_id sample_admin /\
    60000000000 <= t1 + svc_ttl sample_service /\
    Forall (fun x => invalidates (u_id sample_admin) x = false) evs2 /\
    may sample_service (perm_run sample_service evs1 (sample_store, ∅)).1 u1 "users.create".
Proof.
  apply (stale_grant_bounded sample_service sample_store sample_events 60000000000 sample_admin "users.create").
  vm_compute. reflexivity.
Defined.

Lemma regrant_after_revoke_fails_witness :
  GrantRole "admin" "users.create" (mkGorm [mkGrant "admin" "users.create" true] []) =
    (Err duplicate_key, mkGorm [mkGrant "admin" "users.create" true] []).
Proof.
  exact (proj1 (regrant_after_revoke_fails "admin" "users.create" (mkGorm [] [])
    (mkGorm [mkGrant "admin" "users.create" false] []) ltac:(vm_compute; reflexivity))).
Defined.
