(* ===== verification/PermModels.v ===== *)
(** * Capability to model mapping (permission/model_grants.go)

    [ModelGrants]: the index of the manifests' [rbac.permissions[].models],
    per addon, and [Allows].  Its refinement of the declared mapping: the
    permissions of the addons registered last. *)

From S2P Require Import Prelude GoStrings.

(** ** Data *)

(** [v3.PermissionModel] and the fields of [v3.PermissionDef] used here. *)
Record PermissionModel := mkPermissionModel { pm_model : string; pm_actions : list string }.
Record PermissionDef := mkPermissionDef { pd_key : string; pd_models : list PermissionModel }.

Record modelGrant := mkModelGrant { mg_model : string; mg_actions : gset string }.

Abbreviation addon_index := (gmap string (list modelGrant)).
Abbreviation ModelGrants := (gmap string addon_index).

Definition NewModelGrants : ModelGrants := ∅.

Section model_grants.
Context `{UnicodeLower}.

(** ** Operations *)

Definition normModel (s : string) : string :=
  let s := TrimSpace s in
  str_remove "_" (ToLower (default s (after_last "." s))).

Definition normAction (a : string) : string := TrimPrefix (ToLower (TrimSpace a)) "action.".

Definition capKey (s : string) : string := ToLower (TrimSpace s).

Definition index_model (key : string) (idx : addon_index) (pm : PermissionModel) : addon_index :=
  if String.eqb (normModel (pm_model pm)) "" || (length (pm_actions pm) =? 0)%nat then idx
  else
    let g := mkModelGrant (normModel (pm_model pm)) (list_to_set (map normAction (pm_actions pm))) in
    <[key := default [] (idx !! key) ++ [g]]> idx.
Definition index_permission (idx : addon_index) (p : PermissionDef) : addon_index :=
  fold_left (index_model (capKey (pd_key p))) (pd_models p) idx.

Definition Register (addonKey : string) (perms : list PermissionDef) (g : ModelGrants) : ModelGrants :=
  let idx := fold_left index_permission perms ∅ in
  if bool_decide (idx = ∅) then delete addonKey g else <[addonKey := idx]> g.

Definition Unregister (addonKey : string) (g : ModelGrants) : ModelGrants := delete addonKey g.

(** The two inner loops of [Allows] for one grant. *)
Definition grant_allows (g : ModelGrants) (actions : list string) (names : gset string) (grant : string) : bool :=
  existsb (fun p : string * addon_index =>
    existsb (fun mg => bool_decide (mg_model mg ∈ names) &&
        existsb (fun a => bool_decide (normAction a ∈ mg_actions mg)) actions)
      (default [] (p.2 !! capKey grant))) (map_to_list g).

(** The first grant that authorizes, if any. *)
Definition Allows (g : ModelGrants) (grants actions modelNames : list string) : option string :=
  let names := list_to_set (List.filter (fun k => negb (String.eqb k "")) (map normModel modelNames)) in
  List.find (grant_allows g actions names) grants.

(** ** The declared mapping *)

(** The declaration authorizes the action on the model. *)
Definition declares (perms : list PermissionDef) (grant action model : string) : Prop :=
  exists p pm a, p ∈ perms /\ pm ∈ pd_models p /\ a ∈ pm_actions pm /\
    capKey (pd_key p) = capKey grant /\ normModel (pm_model pm) = normModel model /\
    normModel model <> ""%string /\ normAction a = normAction action.

(** The declarations in force: each addon's last registration. *)
Inductive registry_call : Type :=
| CallRegister (addonKey : string) (perms : list PermissionDef)
| CallUnregister (addonKey : string).

Definition run_call (g : ModelGrants) (c : registry_call) : ModelGrants :=
  match c with CallRegister k perms => Register k perms g | CallUnregister k => Unregister k g end.
Definition declare_call (d : gmap string (list PermissionDef)) (c : registry_call) : gmap string (list PermissionDef) :=
  match c with CallRegister k perms => <[k := perms]> d | CallUnregister k => delete k d end.

Definition authorized (d : gmap string (list PermissionDef)) (actions modelNames : list string) (grant : string) : Prop :=
  exists k perms action model, d !! k = Some perms /\ action ∈ actions /\ model ∈ modelNames /\
    declares perms grant action model.

(** ** Lemmas *)

Lemma index_model_elem key idx pm k mg :
  mg ∈ default [] (index_model key idx pm !! k) <->
  mg ∈ default [] (idx !! k) \/
  k = key /\ normModel (pm_model pm) <> ""%string /\ pm_actions pm <> [] /\
    mg = mkModelGrant (normModel (pm_model pm)) (list_to_set (map normAction (pm_actions pm))).
Proof.
  unfold index_model. destruct (String.eqb_spec (normModel (pm_model pm)) ""); cbn; [naive_solver|].
  destruct (pm_actions pm) as [|a l]; cbn; [naive_solver|].
  destruct (decide (k = key)) as [->|Hne].
  - rewrite lookup_insert_eq. cbn. rewrite elem_of_app, list_elem_of_singleton. naive_solver.
  - rewrite lookup_insert_ne by done. naive_solver.
Qed.

Lemma index_models_elem key pms idx k mg :
  mg ∈ default [] (fold_left (index_model key) pms idx !! k) <->
  mg ∈ default [] (idx !! k) \/
  k = key /\ exists pm, pm ∈ pms /\ normModel (pm_model pm) <> ""%string /\ pm_actions pm <> [] /\
    mg = mkModelGrant (normModel (pm_model pm)) (list_to_set (map normAction (pm_actions pm))).
Proof.
  revert idx. induction pms as [|pm pms IH]; intros idx; cbn [fold_left].
  - split; [by left|]. intros [?|(_ & pm & Hpm & _)]; [done|]. by apply not_elem_of_nil in Hpm.
  - rewrite IH, index_model_elem. setoid_rewrite elem_of_cons. naive_solver.
Qed.

Lemma index_elem perms idx k mg :
  mg ∈ default [] (fold_left index_permission perms idx !! k) <->
  mg ∈ default [] (idx !! k) \/
  exists p pm, p ∈ perms /\ pm ∈ pd_models p /\ k = capKey (pd_key p) /\
    normModel (pm_model pm) <> ""%string /\ pm_actions pm <> [] /\
    mg = mkModelGrant (normModel (pm_model pm)) (list_to_set (map normAction (pm_actions pm))).
Proof.
  revert idx. induction perms as [|p perms IH]; intros idx; cbn [fold_left].
  - split; [by left|]. intros [?|(p & _ & Hp & _)]; [done|]. by apply not_elem_of_nil in Hp.
  - rewrite IH. unfold index_permission. rewrite index_models_elem. setoid_rewrite elem_of_cons. naive_solver.
Qed.

(** The index of a registration answers what it declares. *)
Lemma index_declares perms grant (actions modelNames : list string) :
  let names : gset string := list_to_set (List.filter (fun k => negb (String.eqb k "")) (map normModel modelNames)) in
  (exists mg action, mg ∈ default [] (fold_left index_permission perms ∅ !! capKey grant) /\
     mg_model mg ∈ names /\ action ∈ actions /\ normAction action ∈ mg_actions mg) <->
  exists action model, action ∈ actions /\ model ∈ modelNames /\ declares perms grant action model.
Proof.
  cbv zeta.
  assert (forall x : string, x ∈ (list_to_set (List.filter (fun k => negb (String.eqb k "")) (map normModel modelNames)) : gset string) <->
    x <> ""%string /\ exists m, m ∈ modelNames /\ x = normModel m) as Hnames.
  { intros x. rewrite elem_of_list_to_set, list_elem_of_In, filter_In, in_map_iff, negb_true_iff, String.eqb_neq.
    setoid_rewrite list_elem_of_In. naive_solver. }
  setoid_rewrite index_elem. setoid_rewrite Hnames. rewrite lookup_empty. cbn. split.
  - intros (mg & action & [Hn|(p & pm & Hp & Hpm & Hk & Hm & Ha & ->)] & [_ (m & Hmn & Em)] & Hact & Hin);
      [by apply not_elem_of_nil in Hn|]. cbn in *.
    apply elem_of_list_to_set, list_elem_of_fmap in Hin as (a & Ea & Hain).
    exists action, m. split_and!; [done..|]. exists p, pm, a. split_and!; congruence || done.
  - intros (action & m & Hact & Hm & p & pm & a & Hp & Hpm & Ha & Hk & Emod & Hne & Ea).
    eexists _, action. split_and!; [right; exists p, pm; split_and!; [done|done|by rewrite Hk|congruence| |done]|..|done|]; cbn.
    + destruct (pm_actions pm); [by apply not_elem_of_nil in Ha|done].
    + congruence.
    + by exists m.
    + rewrite <- Ea. apply elem_of_list_to_set, list_elem_of_fmap. by exists a.
Qed.

Definition indexes (g : ModelGrants) (d : gmap string (list PermissionDef)) : Prop :=
  forall k, default ∅ (g !! k) = match d !! k with Some perms => fold_left index_permission perms ∅ | None => ∅ end.

Lemma run_call_indexes g d c : indexes g d -> indexes (run_call g c) (declare_call d c).
Proof.
  intros Hi k. destruct c as [key perms|key]; cbn.
  - unfold Register. destruct (decide (k = key)) as [->|Hne].
    + rewrite lookup_insert_eq. case_bool_decide as E; [by rewrite lookup_delete_eq, E|by rewrite lookup_insert_eq].
    + rewrite lookup_insert_ne by done.
      case_bool_decide; [rewrite lookup_delete_ne by done|rewrite lookup_insert_ne by done]; apply Hi.
  - unfold Unregister. destruct (decide (k = key)) as [->|Hne].
    + by rewrite !lookup_delete_eq.
    + rewrite !lookup_delete_ne by done. apply Hi.
Qed.

Lemma grant_allows_spec g d actions modelNames grant :
  indexes g d ->
  grant_allows g actions (list_to_set (List.filter (fun k => negb (String.eqb k "")) (map normModel modelNames))) grant = true <->
  authorized d actions modelNames grant.
Proof.
  intros Hi. unfold grant_allows, authorized. rewrite existsb_exists. split.
  - intros ([k idx] & Hin & Hex). apply list_elem_of_In, elem_of_map_to_list in Hin.
    specialize (Hi k). rewrite Hin in Hi. cbn in Hi, Hex.
    apply existsb_exists in Hex as (mg & Hmg & [Hm%bool_decide_eq_true (a & Ha & Hact%bool_decide_eq_true)%existsb_exists]%andb_true_iff).
    apply list_elem_of_In in Hmg, Ha.
    destruct (d !! k) as [perms|] eqn:Ed; [|subst; rewrite lookup_empty in Hmg; by apply not_elem_of_nil in Hmg].
    subst idx. destruct (proj1 (index_declares perms grant actions modelNames)) as (act & m & ? & ? & ?).
    { exists mg, a. done. }
    by exists k, perms, act, m.
  - intros (k & perms & act & m & Hd & Hact & Hm & Hdec).
    destruct (proj2 (index_declares perms grant actions modelNames)) as (mg & a & Hmg & Hmm & Ha & Hin).
    { by exists act, m. }
    specialize (Hi k). rewrite Hd in Hi.
    destruct (g !! k) as [idx|] eqn:Eg; cbn in Hi.
    2: { rewrite <- Hi, lookup_empty in Hmg. by apply not_elem_of_nil in Hmg. }
    exists (k, idx). split; [by apply list_elem_of_In, elem_of_map_to_list|]. subst idx. cbn.
    apply existsb_exists. exists mg. split; [by apply list_elem_of_In|].
    apply andb_true_iff. split; [by apply bool_decide_eq_true|].
    apply existsb_exists. exists a. split; [by apply list_elem_of_In|]. by apply bool_decide_eq_true.
Qed.

(** A capability never authorizes a model it does not list: after any
    registrations, upgrades and uninstalls, [Allows] names the first grant
    some addon's current declaration maps to one of the models for one of the
    actions, and denies when there is none. *)
Theorem Allows_declared calls (grants actions modelNames : list string) :
  let g := fold_left run_call calls NewModelGrants in
  let d := fold_left declare_call calls ∅ in
  match Allows g grants actions modelNames with
  | Some grant => exists before after, grants = before ++ grant :: after /\
      authorized d actions modelNames grant /\ forall x, x ∈ before -> ~ authorized d actions modelNames x
  | None => forall x, x ∈ grants -> ~ authorized d actions modelNames x
  end.
Proof.
  cbv zeta.
  assert (Hi : forall g d, indexes g d -> indexes (fold_left run_call calls g) (fold_left declare_call calls d)).
  { induction calls as [|c calls IH]; cbn; [done|]. intros g d Hgd. by apply IH, run_call_indexes. }
  specialize (Hi NewModelGrants ∅ ltac:(by intros k; rewrite !lookup_empty)).
  set (g := fold_left run_call _ _) in *. set (d := fold_left declare_call _ _) in *.
  unfold Allows. pose proof (fun x => grant_allows_spec g d actions modelNames x Hi) as Hspec.
  set (names := list_to_set _) in *.
  induction grants as [|x grants IH]; cbn.
  - intros x Hx. by apply not_elem_of_nil in Hx.
  - destruct (grant_allows g actions names x) eqn:E.
    + exists [], grants. split_and!; [done|by apply Hspec|]. intros y Hy. by apply not_elem_of_nil in Hy.
    + assert (Hx : ~ authorized d actions modelNames x) by (rewrite <- Hspec; congruence).
      destruct (List.find _ grants) as [y|].
      * destruct IH as (b & a & -> & Hy & Hb). exists (x :: b), a. split_and!; [done|done|].
        intros z [->|Hz]%elem_of_cons; auto.
      * intros z [->|Hz]%elem_of_cons; auto.
Qed.
End model_grants.
