(* ===== verification/ComputeExpr.v ===== *)
(** * Compute expressions (manifest/computeexpr/expr.go)

    The arithmetic expressions of computed columns: the lexer with its
    allowlist, the recursive-descent parser, evaluation in float64, rendering
    to SQL and validation.  Proved: the parser is the grammar, rendering
    parses back to the same tree and cannot open a comment, evaluation is
    total.  A float64 is [spec_float] with Go's binary64 format. *)

From Stdlib Require Import SpecFloat.
From S2P Require Import Prelude GoStrings.

(** ** float64 *)

Abbreviation float64 := spec_float.
Definition fadd : float64 -> float64 -> float64 := SFadd 53 1024.
Definition fsub : float64 -> float64 -> float64 := SFsub 53 1024.
Definition fmul : float64 -> float64 -> float64 := SFmul 53 1024.
Definition fdiv : float64 -> float64 -> float64 := SFdiv 53 1024.
Definition fneg : float64 -> float64 := SFopp.
Definition fzero : float64 := S754_zero false.
(** [r == 0], for either zero. *)
Definition fis_zero (x : float64) : bool := match x with S754_zero _ => true | _ => false end.

(** [m / 10^k] correctly rounded. *)
Definition float_of_decimal (m k : Z) : float64 :=
  match m with
  | Zpos p => fdiv (S754_finite false p 0) (S754_finite false (Z.to_pos (10 ^ k)) 0)
  | _ => fzero
  end.

(** The literals the lexer cuts: digits with at most one point. *)
Definition split_literal (s : string) : string * string :=
  let '(a, r) := span is_digit s in
  match r with String c r => if Ascii.eqb c "." then (a, r) else (a, "") | EmptyString => (a, "") end.

(** [strconv.ParseFloat(s, 64)] of such a literal; [None] is its range error. *)
Definition ParseFloat (s : string) : option float64 :=
  let '(a, b) := split_literal s in
  match float_of_decimal (digits_Z (a +:+ b)) (slen b) with
  | S754_infinity _ => None
  | v => Some v
  end.

(** ** Tokens *)

Inductive token : Type :=
| TNumber (text : string) | TIdent (text : string)
| TPlus | TMinus | TStar | TSlash | TLParen | TRParen.
#[export] Instance token_eq_dec : EqDecision token.
Proof. solve_decision. Defined.

(** [ErrUnexpected None] is the end of the input. *)
Inductive expr_error : Type :=
| ErrIllegal (c : ascii) | ErrNumber (s : string) | ErrEmpty
| ErrUnexpected (t : option token) | ErrExpectedParen
| ErrUnknown (cols : list string) | OutOfFuel.
#[export] Instance expr_error_eq_dec : EqDecision expr_error.
Proof. solve_decision. Defined.

Definition is_blank (c : ascii) : bool :=
  (byte c =? 32) || (byte c =? 9) || (byte c =? 10) || (byte c =? 13).
Definition ident_start (c : ascii) : bool := (byte c =? 95) || is_upper c || is_lower c.
Definition ident_char (c : ascii) : bool := ident_start c || is_digit c.
Definition punct (c : ascii) : option token :=
  match byte c with
  | 43 => Some TPlus | 45 => Some TMinus | 42 => Some TStar | 47 => Some TSlash
  | 40 => Some TLParen | 41 => Some TRParen | _ => None
  end.

(** The number that starts [s]: digits, with at most one point. *)
Definition span_number (s : string) : string * string :=
  let '(a, r) := span is_digit s in
  match r with
  | String c r' =>
      if Ascii.eqb c "." then let '(b, r'') := span is_digit r' in (a +:+ String "." b, r'') else (a, r)
  | EmptyString => (a, r)
  end.

(** [lexArith] without the EOF token: the end of the list stands for it. *)
Fixpoint lex (fuel : nat) (s : string) : result expr_error (list token) :=
  match s with
  | EmptyString => Ok []
  | String c r =>
      match fuel with
      | O => Err OutOfFuel
      | S fuel =>
          if is_blank c then lex fuel r else
          match punct c with
          | Some t => ts ← lex fuel r; Ok (t :: ts)
          | None =>
              if is_digit c || Ascii.eqb c "." then
                let '(num, r) := span_number s in
                if String.eqb num "." then Err (ErrNumber num) else
                match ParseFloat num with
                | None => Err (ErrNumber num)
                | Some _ => ts ← lex fuel r; Ok (TNumber num :: ts)
                end
              else if ident_start c then
                let '(name, r) := span ident_char s in
                ts ← lex fuel r; Ok (TIdent name :: ts)
              else Err (ErrIllegal c)
          end
      end
  end.
Definition lexArith (src : string) : result expr_error (list token) := lex (String.length src) src.

(** ** The tree and the parser *)

Inductive binop : Type := Add | Sub | Mul | Div.
Inductive node : Type :=
| NumNode (val : float64) (lit : string)
| IdentNode (name : string)
| UnaryNode (minus : bool) (child : node)
| BinNode (op : binop) (l r : node).

Definition num_node (text : string) : node := NumNode (default fzero (ParseFloat text)) text.

Definition add_op (t : token) : option binop :=
  match t with TPlus => Some Add | TMinus => Some Sub | _ => None end.
Definition mul_op (t : token) : option binop :=
  match t with TStar => Some Mul | TSlash => Some Div | _ => None end.

(** The parser's functions on the tokens left; every call spends fuel. *)
Fixpoint parseExpr (fuel : nat) (toks : list token) : result expr_error (node * list token) :=
  match fuel with
  | O => Err OutOfFuel
  | S fuel => '(l, toks) ← parseTerm fuel toks; expr_loop fuel l toks
  end
with expr_loop (fuel : nat) (l : node) (toks : list token) : result expr_error (node * list token) :=
  match fuel with
  | O => Err OutOfFuel
  | S fuel =>
      match toks with
      | t :: rest =>
          match add_op t with
          | Some op => '(r, rest) ← parseTerm fuel rest; expr_loop fuel (BinNode op l r) rest
          | None => Ok (l, toks)
          end
      | [] => Ok (l, toks)
      end
  end
with parseTerm (fuel : nat) (toks : list token) : result expr_error (node * list token) :=
  match fuel with
  | O => Err OutOfFuel
  | S fuel => '(l, toks) ← parseFactor fuel toks; term_loop fuel l toks
  end
with term_loop (fuel : nat) (l : node) (toks : list token) : result expr_error (node * list token) :=
  match fuel with
  | O => Err OutOfFuel
  | S fuel =>
      match toks with
      | t :: rest =>
          match mul_op t with
          | Some op => '(r, rest) ← parseFactor fuel rest; term_loop fuel (BinNode op l r) rest
          | None => Ok (l, toks)
          end
      | [] => Ok (l, toks)
      end
  end
with parseFactor (fuel : nat) (toks : list token) : result expr_error (node * list token) :=
  match fuel with
  | O => Err OutOfFuel
  | S fuel =>
      match toks with
      | TNumber text :: rest => Ok (num_node text, rest)
      | TIdent name :: rest => Ok (IdentNode name, rest)
      | TLParen :: rest =>
          '(inner, rest) ← parseExpr fuel rest;
          match rest with TRParen :: rest => Ok (inner, rest) | _ => Err ErrExpectedParen end
      | TMinus :: rest => '(child, rest) ← parseFactor fuel rest; Ok (UnaryNode true child, rest)
      | TPlus :: rest => '(child, rest) ← parseFactor fuel rest; Ok (UnaryNode false child, rest)
      | t :: _ => Err (ErrUnexpected (Some t))
      | [] => Err (ErrUnexpected None)
      end
  end.

(** Fuel that always suffices for so many tokens. *)
Definition parse_fuel (toks : list token) : nat := 4 * length toks + 3.

Fixpoint collectIdents (n : node) : list string :=
  match n with
  | NumNode _ _ => []
  | IdentNode name => [name]
  | UnaryNode _ c => collectIdents c
  | BinNode _ l r => collectIdents l ++ collectIdents r
  end.

Definition parse_tokens (toks : list token) : result expr_error node :=
  '(n, rest) ← parseExpr (parse_fuel toks) toks;
  match rest with [] => Ok n | t :: _ => Err (ErrUnexpected (Some t)) end.

Definition parseArith (src : string) : result expr_error (node * list string) :=
  toks ← lexArith src;
  match toks with
  | [] => Err ErrEmpty
  | _ => n ← parse_tokens toks; Ok (n, collectIdents n)
  end.

(** ** Evaluation, rendering, validation *)

Fixpoint evalNode (n : node) (env : gmap string float64) : float64 :=
  match n with
  | NumNode v _ => v
  | IdentNode name => default fzero (env !! name)
  | UnaryNode minus c => let x := evalNode c env in if minus then fneg x else x
  | BinNode op l r =>
      let l := evalNode l env in
      let r := evalNode r env in
      match op with
      | Add => fadd l r
      | Sub => fsub l r
      | Mul => fmul l r
      | Div => if fis_zero r then fzero else fdiv l r
      end
  end.

Definition Eval (src : string) (env : gmap string float64) : result expr_error float64 :=
  '(n, _) ← parseArith src; Ok (evalNode n env).

Definition quote : ascii := ascii_of_N 34.
Definition op_char (op : binop) : ascii :=
  match op with Add => "+" | Sub => "-" | Mul => "*" | Div => "/" end%char.

(** The literal of a parsed number is never empty, so the other branch of the
    code's [numNode] case is not reached. *)
Fixpoint renderNode (n : node) : string :=
  match n with
  | NumNode _ lit => lit
  | IdentNode name => String quote (name +:+ String quote "")
  | UnaryNode minus c => String (if minus then "-" else "+")%char (String "(" (renderNode c +:+ ")"))
  | BinNode op l r =>
      String "(" (renderNode l +:+ String " " (String (op_char op) (String " " (renderNode r +:+ ")"))))
  end.

Definition RenderSQL (src : string) : result expr_error string :=
  '(n, _) ← parseArith src; Ok (renderNode n).

Definition Validate (src : string) (allowed : option (gset string)) : result expr_error unit :=
  '(_, idents) ← parseArith src;
  match allowed with
  | None => Ok tt
  | Some cols =>
      match List.filter (fun id => negb (bool_decide (id ∈ cols))) idents with
      | [] => Ok tt
      | unknown => Err (ErrUnknown unknown)
      end
  end.

Definition Idents (src : string) : result expr_error (list string) :=
  '(_, ids) ← parseArith src; Ok ids.

(** ** The grammar of the package comment *)

Inductive g_expr : list token -> node -> Prop :=
| GTerm ts n : g_term ts n -> g_expr ts n
| GAdd op t ts us l r : add_op t = Some op -> g_expr ts l -> g_term us r -> g_expr (ts ++ t :: us) (BinNode op l r)
with g_term : list token -> node -> Prop :=
| GFactor ts n : g_factor ts n -> g_term ts n
| GMul op t ts us l r : mul_op t = Some op -> g_term ts l -> g_factor us r -> g_term (ts ++ t :: us) (BinNode op l r)
with g_factor : list token -> node -> Prop :=
| GNumber text : g_factor [TNumber text] (num_node text)
| GIdent name : g_factor [TIdent name] (IdentNode name)
| GParen ts n : g_expr ts n -> g_factor (TLParen :: ts ++ [TRParen]) n
| GMinus ts n : g_factor ts n -> g_factor (TMinus :: ts) (UnaryNode true n)
| GPlus ts n : g_factor ts n -> g_factor (TPlus :: ts) (UnaryNode false n).

Scheme g_expr_ind' := Induction for g_expr Sort Prop
with g_term_ind' := Induction for g_term Sort Prop
with g_factor_ind' := Induction for g_factor Sort Prop.
Combined Scheme g_mutind from g_expr_ind', g_term_ind', g_factor_ind'.

(** ** The parser is the grammar *)

(** More fuel does not change a result. *)
Lemma parse_mono f :
  (forall toks r f', parseExpr f toks = r -> r <> Err OutOfFuel -> (f <= f')%nat -> parseExpr f' toks = r) /\
  (forall l toks r f', expr_loop f l toks = r -> r <> Err OutOfFuel -> (f <= f')%nat -> expr_loop f' l toks = r) /\
  (forall toks r f', parseTerm f toks = r -> r <> Err OutOfFuel -> (f <= f')%nat -> parseTerm f' toks = r) /\
  (forall l toks r f', term_loop f l toks = r -> r <> Err OutOfFuel -> (f <= f')%nat -> term_loop f' l toks = r) /\
  (forall toks r f', parseFactor f toks = r -> r <> Err OutOfFuel -> (f <= f')%nat -> parseFactor f' toks = r).
Proof.
  induction f as [|f (IHe & IHel & IHt & IHtl & IHf)]; [split_and!; cbn; intros; by subst|].
  assert (forall (m m' : result expr_error (node * list token)) k k' r,
    (forall x, m = x -> x <> Err OutOfFuel -> m' = x) ->
    (forall n rest x, k (n, rest) = x -> x <> Err OutOfFuel -> k' (n, rest) = x) ->
    (m ≫= k) = r -> r <> (Err OutOfFuel : result expr_error (node * list token)) -> (m' ≫= k') = r) as Hb.
  { intros m m' k k' r Hm Hk Hr Hne. destruct m as [[n rest]|e].
    - rewrite (Hm _ eq_refl) by done. cbn in *. auto.
    - cbn in Hr. subst. rewrite (Hm _ eq_refl) by congruence. done. }
  split_and!; [intros toks r [|f'] H Hne Hle|intros l toks r [|f'] H Hne Hle|intros toks r [|f'] H Hne Hle
    |intros l toks r [|f'] H Hne Hle|intros toks r [|f'] H Hne Hle]; try lia; cbn in *.
  - eapply Hb; [| |exact H|done]; [intros; eapply IHt; [eassumption|eassumption|lia]|intros; eapply IHel; [eassumption|eassumption|lia]].
  - destruct toks as [|t rest]; [done|]. destruct (add_op t); [|done].
    eapply Hb; [| |exact H|done]; [intros; eapply IHt; [eassumption|eassumption|lia]|intros; eapply IHel; [eassumption|eassumption|lia]].
  - eapply Hb; [| |exact H|done]; [intros; eapply IHf; [eassumption|eassumption|lia]|intros; eapply IHtl; [eassumption|eassumption|lia]].
  - destruct toks as [|t rest]; [done|]. destruct (mul_op t); [|done].
    eapply Hb; [| |exact H|done]; [intros; eapply IHf; [eassumption|eassumption|lia]|intros; eapply IHtl; [eassumption|eassumption|lia]].
  - destruct toks as [|[] rest]; try done;
      (eapply Hb; [| |exact H|done]; [intros; first [eapply IHe|eapply IHf]; [eassumption|eassumption|lia]|intros; cbn in *; assumption]).
Qed.

(** What a successful call has read is a phrase of the grammar. *)
Lemma parse_sound f :
  (forall toks n rest, parseExpr f toks = Ok (n, rest) -> exists ts, toks = ts ++ rest /\ g_expr ts n) /\
  (forall l ls toks n rest, g_expr ls l -> expr_loop f l toks = Ok (n, rest) ->
     exists ts, toks = ts ++ rest /\ g_expr (ls ++ ts) n) /\
  (forall toks n rest, parseTerm f toks = Ok (n, rest) -> exists ts, toks = ts ++ rest /\ g_term ts n) /\
  (forall l ls toks n rest, g_term ls l -> term_loop f l toks = Ok (n, rest) ->
     exists ts, toks = ts ++ rest /\ g_term (ls ++ ts) n) /\
  (forall toks n rest, parseFactor f toks = Ok (n, rest) -> exists ts, toks = ts ++ rest /\ g_factor ts n).
Proof.
  induction f as [|f (IHe & IHel & IHt & IHtl & IHf)]; [by split_and!|]. split_and!.
  - intros toks n rest ([l r] & (ts & -> & Hl)%IHt & H)%bind_Ok.
    destruct (IHel l ts r n rest (GTerm _ _ Hl) H) as (us & -> & Hn). exists (ts ++ us). by rewrite app_assoc.
  - intros l ls toks n rest Hl. cbn.
    destruct toks as [|t toks]; [intros [= <- <-]; exists []; by rewrite (app_nil_r ls)|].
    destruct (add_op t) as [op|] eqn:Eo; [|intros [= <- <-]; exists []; by rewrite (app_nil_r ls)].
    intros ([r r'] & (ts & -> & Hr)%IHt & H)%bind_Ok.
    destruct (IHel _ _ _ n rest (GAdd op t ls ts l r Eo Hl Hr) H) as (us & -> & Hn).
    exists (t :: ts ++ us). split; [cbn; by rewrite app_assoc|]. by rewrite <- app_assoc in Hn.
  - intros toks n rest ([l r] & (ts & -> & Hl)%IHf & H)%bind_Ok.
    destruct (IHtl l ts r n rest (GFactor _ _ Hl) H) as (us & -> & Hn). exists (ts ++ us). by rewrite app_assoc.
  - intros l ls toks n rest Hl. cbn.
    destruct toks as [|t toks]; [intros [= <- <-]; exists []; by rewrite (app_nil_r ls)|].
    destruct (mul_op t) as [op|] eqn:Eo; [|intros [= <- <-]; exists []; by rewrite (app_nil_r ls)].
    intros ([r r'] & (ts & -> & Hr)%IHf & H)%bind_Ok.
    destruct (IHtl _ _ _ n rest (GMul op t ls ts l r Eo Hl Hr) H) as (us & -> & Hn).
    exists (t :: ts ++ us). split; [cbn; by rewrite app_assoc|]. by rewrite <- app_assoc in Hn.
  - intros toks n rest. cbn. destruct toks as [|[] toks]; try done.
    + intros [= <- <-]. exists [TNumber text]. split; [done|constructor].
    + intros [= <- <-]. exists [TIdent text]. split; [done|constructor].
    + intros ([c r] & (ts & -> & Hc)%IHf & [= <- <-])%bind_Ok. exists (TPlus :: ts). split; [done|by constructor].
    + intros ([c r] & (ts & -> & Hc)%IHf & [= <- <-])%bind_Ok. exists (TMinus :: ts). split; [done|by constructor].
    + intros ([c r] & (ts & -> & Hc)%IHe & H)%bind_Ok. destruct r as [|[] r]; try done. injection H as <- <-.
      exists (TLParen :: ts ++ [TRParen]). split; [cbn; by rewrite <- app_assoc|by constructor].
Qed.

(** Every phrase is read, whatever follows that does not continue it. *)
Definition no_mul (rest : list token) : Prop :=
  match rest with t :: _ => mul_op t = None | [] => True end.

Lemma term_loop_stop f l rest : no_mul rest -> term_loop (S f) l rest = Ok (l, rest).
Proof. destruct rest as [|t rest]; cbn; [done|]. by intros ->. Qed.

Lemma add_no_mul t op rest : add_op t = Some op -> no_mul (t :: rest).
Proof. by destruct t. Qed.

Lemma parse_complete :
  (forall ts n, g_expr ts n -> forall rest f r, no_mul rest -> expr_loop f n rest = Ok r ->
     exists f', parseExpr f' (ts ++ rest) = Ok r) /\
  (forall ts n, g_term ts n -> forall rest f r, term_loop f n rest = Ok r ->
     exists f', parseTerm f' (ts ++ rest) = Ok r) /\
  (forall ts n, g_factor ts n -> forall rest, exists f', parseFactor f' (ts ++ rest) = Ok (n, rest)).
Proof.
  assert (forall f1 f2, (f1 <= f1 `max` f2)%nat /\ (f2 <= f1 `max` f2)%nat) as Hmax by lia.
  apply g_mutind.
  - intros ts n _ IH rest f r Hrest Hl. destruct (IH rest 1%nat (n, rest)) as [f' Hf'].
    { by apply term_loop_stop. }
    exists (S (f' `max` f)). cbn. rewrite (proj1 (proj2 (proj2 (parse_mono f'))) _ _ _ Hf') by (done || lia).
    cbn. rewrite (proj1 (proj2 (parse_mono f)) _ _ _ _ Hl) by (done || lia). done.
  - intros op t ts us l r Ho _ IHl _ IHr rest f x Hrest Hl. rewrite <- app_assoc. cbn.
    destruct (IHr rest 1%nat (r, rest)) as [f' Hf']; [by apply term_loop_stop|].
    apply (IHl _ (S (f' `max` f))); [by eapply add_no_mul|]. cbn. rewrite Ho.
    rewrite (proj1 (proj2 (proj2 (parse_mono f'))) _ _ _ Hf') by (done || lia). cbn.
    by rewrite (proj1 (proj2 (parse_mono f)) _ _ _ _ Hl) by (done || lia).
  - intros ts n _ IH rest f r Hl. destruct (IH rest) as [f' Hf'].
    exists (S (f' `max` f)). cbn.
    rewrite (proj2 (proj2 (proj2 (proj2 (parse_mono f')))) _ _ _ Hf') by (done || lia). cbn.
    by rewrite (proj1 (proj2 (proj2 (proj2 (parse_mono f)))) _ _ _ _ Hl) by (done || lia).
  - intros op t ts us l r Ho _ IHl _ IHr rest f x Hl. rewrite <- app_assoc. cbn.
    destruct (IHr rest) as [f' Hf'].
    apply (IHl _ (S (f' `max` f))). cbn. rewrite Ho.
    rewrite (proj2 (proj2 (proj2 (proj2 (parse_mono f')))) _ _ _ Hf') by (done || lia). cbn.
    by rewrite (proj1 (proj2 (proj2 (proj2 (parse_mono f)))) _ _ _ _ Hl) by (done || lia).
  - intros text rest. by exists 1%nat.
  - intros name rest. by exists 1%nat.
  - intros ts n _ IH rest. destruct (IH (TRParen :: rest) 1%nat (n, TRParen :: rest)) as [f' Hf']; [done|done|].
    exists (S f'). cbn. rewrite <- app_assoc. cbn. by rewrite Hf'.
  - intros ts n _ IH rest. destruct (IH rest) as [f' Hf']. exists (S f'). cbn. by rewrite Hf'.
  - intros ts n _ IH rest. destruct (IH rest) as [f' Hf']. exists (S f'). cbn. by rewrite Hf'.
Qed.

(** *** Enough fuel *)

Lemma g_nonempty :
  (forall ts n, g_expr ts n -> ts <> []) /\ (forall ts n, g_term ts n -> ts <> []) /\
  (forall ts n, g_factor ts n -> ts <> []).
Proof. apply g_mutind; intros; try done; by destruct ts. Qed.

Lemma parseTerm_shorter f toks n rest :
  parseTerm f toks = Ok (n, rest) -> (length rest < length toks)%nat.
Proof.
  intros (ts & -> & Hg)%parse_sound. rewrite length_app. apply g_nonempty in Hg. destruct ts; cbn; [done|lia].
Qed.
Lemma parseFactor_shorter f toks n rest :
  parseFactor f toks = Ok (n, rest) -> (length rest < length toks)%nat.
Proof.
  intros (ts & -> & Hg)%parse_sound. rewrite length_app. apply g_nonempty in Hg. destruct ts; cbn; [done|lia].
Qed.

Lemma parse_fuel_ok f :
  (forall toks, (4 * length toks + 3 <= f)%nat -> parseExpr f toks <> Err OutOfFuel) /\
  (forall l toks, (4 * length toks + 1 <= f)%nat -> expr_loop f l toks <> Err OutOfFuel) /\
  (forall toks, (4 * length toks + 2 <= f)%nat -> parseTerm f toks <> Err OutOfFuel) /\
  (forall l toks, (4 * length toks + 1 <= f)%nat -> term_loop f l toks <> Err OutOfFuel) /\
  (forall toks, (4 * length toks + 1 <= f)%nat -> parseFactor f toks <> Err OutOfFuel).
Proof.
  induction f as [|f (IHe & IHel & IHt & IHtl & IHf)]; [split_and!; lia|].
  split_and!; [intros toks Hf|intros l toks Hf|intros toks Hf|intros l toks Hf|intros toks Hf]; cbn [parseExpr expr_loop parseTerm term_loop parseFactor].
  - intros [H|([n r] & H & H')]%bind_Err; [by apply IHt in H; [|lia]|].
    apply parseTerm_shorter in H. by apply IHel in H'; [|lia].
  - destruct toks as [|t toks]; [done|]. cbn in Hf. destruct (add_op t); [|done].
    intros [H|([n r] & H & H')]%bind_Err; [by apply IHt in H; [|lia]|].
    apply parseTerm_shorter in H. by apply IHel in H'; [|lia].
  - intros [H|([n r] & H & H')]%bind_Err; [by apply IHf in H; [|lia]|].
    apply parseFactor_shorter in H. by apply IHtl in H'; [|lia].
  - destruct toks as [|t toks]; [done|]. cbn in Hf. destruct (mul_op t); [|done].
    intros [H|([n r] & H & H')]%bind_Err; [by apply IHf in H; [|lia]|].
    apply parseFactor_shorter in H. by apply IHtl in H'; [|lia].
  - destruct toks as [|[] toks]; try done; cbn in Hf;
      intros [H|([n r] & H & H')]%bind_Err;
      first [by apply IHe in H; [|lia] | by apply IHf in H; [|lia] | done | by destruct r as [|[] r]].
Qed.

Lemma parse_tokens_fuel toks : parse_tokens toks <> Err OutOfFuel.
Proof.
  unfold parse_tokens. intros [H|([n r] & H & H')]%bind_Err; [|by destruct r].
  by apply (proj1 (parse_fuel_ok _)) in H; [|unfold parse_fuel; lia].
Qed.

Lemma parse_tokens_iff toks n : parse_tokens toks = Ok n <-> g_expr toks n.
Proof.
  unfold parse_tokens. split.
  - intros ([m r] & (ts & -> & Hg)%parse_sound & H)%bind_Ok. destruct r as [|t r]; [|done].
    injection H as <-. by rewrite app_nil_r.
  - intros Hg. destruct (proj1 parse_complete toks n Hg [] 1%nat (n, [])) as [f Hf]; [done|done|].
    rewrite app_nil_r in Hf.
    assert (parseExpr (parse_fuel toks) toks = Ok (n, [])) as ->; [|done].
    apply (proj1 (parse_mono f) _ _ (f `max` parse_fuel toks)%nat) in Hf; [|done|lia].
    rewrite <- Hf. symmetry. apply (proj1 (parse_mono (parse_fuel toks))); [done| |lia].
    apply parse_fuel_ok. unfold parse_fuel. lia.
Qed.

(** *** The lexer *)

Lemma span_length p s : (String.length (span p s).2 <= String.length s)%nat.
Proof.
  destruct (span p s) as [a b] eqn:E. apply span_spec in E as (-> & _). cbn. rewrite str_length_app. lia.
Qed.

Lemma span_number_shorter c r :
  is_digit c || Ascii.eqb c "." = true -> (String.length (span_number (String c r)).2 <= String.length r)%nat.
Proof.
  unfold span_number. cbn. destruct (is_digit c) eqn:Ed.
  - intros _. pose proof (span_length is_digit r) as H. destruct (span is_digit r) as [a [|d b]]; cbn in *; [lia|].
    destruct (Ascii.eqb d "."); cbn; [|lia].
    pose proof (span_length is_digit b) as H'. destruct (span is_digit b). cbn in *. lia.
  - intros ->%Ascii.eqb_eq. cbn. pose proof (span_length is_digit r) as H. by destruct (span is_digit r).
Qed.

Lemma span_ident_shorter c r :
  ident_start c = true -> (String.length (span ident_char (String c r)).2 <= String.length r)%nat.
Proof.
  intros Hc. cbn. unfold ident_char at 1. rewrite Hc. cbn. pose proof (span_length ident_char r) as H.
  by destruct (span ident_char r).
Qed.

(** More fuel than bytes does not matter. *)
Lemma lex_fuel f s : (String.length s <= f)%nat -> lex f s = lexArith s.
Proof.
  unfold lexArith. assert (forall n f s, (String.length s <= n)%nat -> (String.length s <= f)%nat ->
    lex f s = lex (String.length s) s) as H; [|by intros; eapply H].
  clear. intros n. induction n as [|n IH]; intros f s Hn Hf; (destruct s as [|c r]; [by destruct f|]); cbn in Hn; [lia|].
  destruct f as [|f]; cbn in Hf; [lia|].
  assert (forall s', (String.length s' <= String.length r)%nat -> lex f s' = lex (String.length r) s') as Hr.
  { intros s' Hs'. rewrite (IH f s'), (IH (String.length r) s') by lia. done. }
  cbn [lex String.length]. destruct (is_blank c); [by apply Hr|].
  destruct (punct c); [by rewrite (Hr r)|].
  destruct (is_digit c || _) eqn:Ed.
  - pose proof (span_number_shorter c r Ed) as Hs. destruct (span_number _) as [num r']. cbn in Hs.
    destruct (String.eqb num "."); [done|]. destruct (ParseFloat num); [|done]. by rewrite (Hr r').
  - destruct (ident_start c) eqn:Es; [|done].
    pose proof (span_ident_shorter c r Es) as Hs. destruct (span ident_char _) as [name r']. cbn in Hs.
    by rewrite (Hr r').
Qed.

Lemma lexArith_eq c r :
  lexArith (String c r) =
    if is_blank c then lexArith r else
    match punct c with
    | Some t => ts ← lexArith r; Ok (t :: ts)
    | None =>
        if is_digit c || Ascii.eqb c "." then
          let '(num, r) := span_number (String c r) in
          if String.eqb num "." then Err (ErrNumber num) else
          match ParseFloat num with
          | None => Err (ErrNumber num)
          | Some _ => ts ← lexArith r; Ok (TNumber num :: ts)
          end
        else if ident_start c then
          let '(name, r) := span ident_char (String c r) in
          ts ← lexArith r; Ok (TIdent name :: ts)
        else Err (ErrIllegal c)
    end.
Proof.
  unfold lexArith at 1. cbn [lex String.length].
  destruct (is_blank c); [done|]. destruct (punct c); [done|]. destruct (is_digit c || _) eqn:Ed.
  - pose proof (span_number_shorter c r Ed) as Hs. destruct (span_number _) as [num r']. cbn in Hs.
    by rewrite (lex_fuel _ r').
  - destruct (ident_start c) eqn:Es; [|done].
    pose proof (span_ident_shorter c r Es) as Hs. destruct (span ident_char _) as [name r']. cbn in Hs.
    by rewrite (lex_fuel _ r').
Qed.

Lemma lex_punct c t r :
  is_blank c = false -> punct c = Some t -> lexArith (String c r) = (ts ← lexArith r; Ok (t :: ts)).
Proof. intros Hb Hp. by rewrite lexArith_eq, Hb, Hp. Qed.

Lemma lex_blank c r : is_blank c = true -> lexArith (String c r) = lexArith r.
Proof. intros Hb. by rewrite lexArith_eq, Hb. Qed.

(** *** Tokens and trees the lexer and parser can produce *)

Definition literal (s : string) : Prop :=
  exists a b, str_forall is_digit a = true /\ str_forall is_digit b = true /\ (s = a \/ s = a +:+ String "." b).
Definition number_ok (s : string) : Prop :=
  literal s /\ s <> ""%string /\ s <> "."%string /\ is_Some (ParseFloat s).
Definition ident_ok (s : string) : Prop :=
  match s with String c r => ident_start c = true /\ str_forall ident_char r = true | EmptyString => False end.
Definition token_wf (t : token) : Prop :=
  match t with TNumber s => number_ok s | TIdent s => ident_ok s | _ => True end.

Fixpoint node_wf (n : node) : Prop :=
  match n with
  | NumNode v lit => number_ok lit /\ ParseFloat lit = Some v
  | IdentNode name => ident_ok name
  | UnaryNode _ c => node_wf c
  | BinNode _ l r => node_wf l /\ node_wf r
  end.

(** What may follow a number or an identifier. *)
Definition delim (rest : string) : Prop := stops (fun c => ident_char c || Ascii.eqb c ".") rest.

Lemma number_head c : is_digit c || Ascii.eqb c "." = true -> is_blank c = false /\ punct c = None.
Proof. destruct c as [[] [] [] [] [] [] [] []]; vm_compute; done. Qed.
Lemma ident_head c :
  ident_start c = true -> is_blank c = false /\ punct c = None /\ is_digit c || Ascii.eqb c "." = false.
Proof. destruct c as [[] [] [] [] [] [] [] []]; vm_compute; done. Qed.

Lemma span_number_spec s num r : span_number s = (num, r) -> s = num +:+ r /\ literal num.
Proof.
  unfold span_number. destruct (span is_digit s) as [a x] eqn:E. apply span_spec in E as (-> & Ha & _).
  destruct x as [|c x].
  - intros [= <- <-]. split; [done|]. exists a, "". auto.
  - destruct (Ascii.eqb_spec c ".") as [->|].
    + destruct (span is_digit x) as [b y] eqn:E. apply span_spec in E as (-> & Hb & _).
      intros [= <- <-]. split; [by rewrite str_app_assoc|]. exists a, b. auto.
    + intros [= <- <-]. split; [done|]. exists a, "". auto.
Qed.

Lemma delim_digit rest : delim rest -> stops is_digit rest.
Proof. destruct rest as [|c r]; cbn; [done|]. unfold ident_char. intros H. by destruct (is_digit c); [rewrite orb_true_r in H|]. Qed.
Lemma delim_ident rest : delim rest -> stops ident_char rest.
Proof. destruct rest as [|c r]; cbn; [done|]. by intros [? _]%orb_false_iff. Qed.

Lemma span_number_app num rest : literal num -> delim rest -> span_number (num +:+ rest) = (num, rest).
Proof.
  intros (a & b & Ha & Hb & Hn) Hd. unfold span_number. assert (Hdd := delim_digit rest Hd).
  destruct Hn as [->| ->].
  - rewrite (span_app is_digit a rest Ha Hdd). destruct rest as [|c r]; [done|]. cbn in Hd.
    apply orb_false_iff in Hd as [_ ->]. done.
  - rewrite str_app_assoc. rewrite (span_app is_digit a _ Ha) by done. cbn. by rewrite (span_app is_digit b rest Hb Hdd).
Qed.

Lemma lex_number num rest :
  number_ok num -> delim rest ->
  lexArith (num +:+ rest) = (ts ← lexArith rest; Ok (TNumber num :: ts)).
Proof.
  intros (Hl & Hne & Hdot & [v Hv]) Hd. pose proof (span_number_app num rest Hl Hd) as Hs.
  destruct num as [|c r]; [done|]. cbn [String.append] in *.
  assert (Hc : is_digit c || Ascii.eqb c "." = true).
  { destruct Hl as (a & b & Ha & _ & [E|E]); destruct a as [|d a]; cbn in *; try done; injection E as -> ->; cbn; try done.
    all: by apply andb_true_iff in Ha as [-> _]. }
  destruct (number_head c Hc) as [Hb Hp]. rewrite lexArith_eq, Hb, Hp, Hc, Hs, Hv.
  destruct (String.eqb_spec (String c r) "."); done.
Qed.

Lemma lex_ident name rest :
  ident_ok name -> stops ident_char rest ->
  lexArith (name +:+ rest) = (ts ← lexArith rest; Ok (TIdent name :: ts)).
Proof.
  destruct name as [|c r]; [done|]. intros [Hc Hr] Hd. cbn [String.append].
  destruct (ident_head c Hc) as (Hb & Hp & Hn).
  rewrite lexArith_eq, Hb, Hp, Hn, Hc. change (String c (r +:+ rest)) with (String c r +:+ rest).
  rewrite (span_app ident_char (String c r) rest); [done| |done].
  cbn. unfold ident_char at 1. by rewrite Hc.
Qed.

Lemma lex_wf s ts : lexArith s = Ok ts -> Forall token_wf ts.
Proof.
  assert (forall n s ts, (String.length s <= n)%nat -> lexArith s = Ok ts -> Forall token_wf ts) as H;
    [|by intros; eapply H].
  clear. intros n. induction n as [|n IH]; intros [|c r] ts Hn; cbn in Hn; try lia; try (intros [= <-]; constructor).
  rewrite lexArith_eq. destruct (is_blank c); [apply IH; lia|].
  destruct (punct c) as [t|] eqn:Ep.
  { intros (us & Hu & [= <-])%bind_Ok. constructor; [|eapply IH; [|exact Hu]; lia].
    destruct t; try exact I; unfold punct in Ep; repeat case_match; discriminate. }
  destruct (is_digit c || _) eqn:Ed.
  - pose proof (span_number_shorter c r Ed) as Hs.
    destruct (span_number (String c r)) as [num r'] eqn:E. apply span_number_spec in E as [E Hl]. cbn in Hs.
    destruct (String.eqb_spec num "."); [done|]. destruct (ParseFloat num) eqn:Ev; [|done].
    intros (us & Hu & [= <-])%bind_Ok. constructor; [|eapply IH; [|exact Hu]; lia].
    split_and!; [done| |done|by rewrite Ev]. intros ->. cbn in E. subst r'. cbn in Hs. lia.
  - destruct (ident_start c) eqn:Es; [|done].
    pose proof (span_ident_shorter c r Es) as Hs.
    destruct (span ident_char (String c r)) as [name r'] eqn:E. apply span_spec in E as (E & Hf & _). cbn in Hs.
    intros (us & Hu & [= <-])%bind_Ok. constructor; [|eapply IH; [|exact Hu]; lia].
    destruct name as [|d name]; cbn in *; [subst r'; cbn in Hs; lia|].
    injection E as <- _. by apply andb_true_iff in Hf as [_ ?].
Qed.

Lemma g_wf :
  (forall ts n, g_expr ts n -> Forall token_wf ts -> node_wf n) /\
  (forall ts n, g_term ts n -> Forall token_wf ts -> node_wf n) /\
  (forall ts n, g_factor ts n -> Forall token_wf ts -> node_wf n).
Proof.
  apply g_mutind; cbn; auto.
  - intros op t ts us l r _ _ IHl _ IHr [? [_ ?]%Forall_cons]%Forall_app. auto.
  - intros op t ts us l r _ _ IHl _ IHr [? [_ ?]%Forall_cons]%Forall_app. auto.
  - intros text [Hn _]%Forall_cons. destruct Hn as (? & ? & ? & [v Hv]). unfold num_node. rewrite Hv.
    split; [|done]. split_and!; [done..|]. by rewrite Hv.
  - intros name [? _]%Forall_cons. done.
  - intros ts n _ IH [_ [? _]%Forall_app]%Forall_cons. auto.
  - intros ts n _ IH [_ ?]%Forall_cons. auto.
  - intros ts n _ IH [_ ?]%Forall_cons. auto.
Qed.

Lemma parseArith_Ok src n ids :
  parseArith src = Ok (n, ids) <->
  exists toks, lexArith src = Ok toks /\ g_expr toks n /\ ids = collectIdents n.
Proof.
  unfold parseArith. rewrite bind_Ok. split.
  - intros (toks & Hl & H). exists toks. split; [done|]. destruct toks as [|t toks]; [done|].
    apply bind_Ok in H as (m & Hm & [= <- <-]). by apply parse_tokens_iff in Hm.
  - intros (toks & Hl & Hg & ->). exists toks. split; [done|].
    destruct toks as [|t toks]; [by apply g_nonempty in Hg|].
    apply parse_tokens_iff in Hg. by rewrite Hg.
Qed.

Lemma parseArith_wf src n ids : parseArith src = Ok (n, ids) -> node_wf n.
Proof. intros (toks & Hl%lex_wf & Hg & _)%parseArith_Ok. by apply (proj1 g_wf toks). Qed.

Lemma parse_tokens_total toks : (exists n, parse_tokens toks = Ok n) \/ exists e, parse_tokens toks = Err e /\ e <> OutOfFuel.
Proof.
  pose proof (parse_tokens_fuel toks). destruct (parse_tokens toks) as [n|e]; [left; by exists n|right].
  exists e. split; [done|congruence].
Qed.

Lemma lexArith_fuel s : lexArith s <> Err OutOfFuel.
Proof.
  assert (forall n s, (String.length s <= n)%nat -> lexArith s <> Err OutOfFuel) as H; [|by eapply H].
  clear. intros n. induction n as [|n IH]; intros [|c r] Hn; cbn in Hn; try lia; try done.
  rewrite lexArith_eq. destruct (is_blank c); [apply IH; lia|].
  destruct (punct c) as [t|] eqn:Ep.
  { intros [H|(us & _ & ?)]%bind_Err; [by apply IH in H; [|lia]|done]. }
  destruct (is_digit c || _) eqn:Ed.
  - pose proof (span_number_shorter c r Ed) as Hs. destruct (span_number (String c r)) as [num r'].
    destruct (String.eqb_spec num "."); [done|]. destruct (ParseFloat num); [|done]. cbn in Hs.
    intros [H|(us & _ & ?)]%bind_Err; [by apply IH in H; [|lia]|done].
  - destruct (ident_start c) eqn:Es; [|done].
    pose proof (span_ident_shorter c r Es) as Hs. destruct (span ident_char (String c r)) as [name r']. cbn in Hs.
    intros [H|(us & _ & ?)]%bind_Err; [by apply IH in H; [|lia]|done].
Qed.

(** ** Rendering *)

Definition op_token (op : binop) : token :=
  match op with Add => TPlus | Sub => TMinus | Mul => TStar | Div => TSlash end.

(** The tokens of the rendering, without the quotes. *)
Fixpoint tokens_of (n : node) : list token :=
  match n with
  | NumNode _ lit => [TNumber lit]
  | IdentNode name => [TIdent name]
  | UnaryNode minus c => (if minus then TMinus else TPlus) :: TLParen :: tokens_of c ++ [TRParen]
  | BinNode op l r => TLParen :: (tokens_of l ++ op_token op :: tokens_of r) ++ [TRParen]
  end.

(** The rendering with its identifiers bare. *)
Definition unquote (s : string) : string := str_remove quote s.

Lemma unquote_app a b : unquote (a +:+ b) = unquote a +:+ unquote b.
Proof.
  unfold unquote. induction a as [|c a IH]; cbn [String.append str_remove]; [done|].
  destruct (Ascii.eqb quote c); [exact IH|]. rewrite IH. reflexivity.
Qed.

Lemma unquote_cons c s : Ascii.eqb quote c = false -> unquote (String c s) = String c (unquote s).
Proof. unfold unquote. cbn [str_remove]. by intros ->. Qed.

Lemma unquote_id s : str_forall (fun c => negb (Ascii.eqb quote c)) s = true -> unquote s = s.
Proof.
  unfold unquote. induction s as [|c s IH]; cbn [str_forall str_remove]; [done|].
  intros [H ?]%andb_true_iff. destruct (Ascii.eqb quote c); [done|]. f_equal. auto.
Qed.

Lemma str_forall_impl (p q : ascii -> bool) s :
  (forall c, p c = true -> q c = true) -> str_forall p s = true -> str_forall q s = true.
Proof. intros H. induction s as [|c s IH]; cbn; [done|]. rewrite !andb_true_iff. naive_solver. Qed.

Definition number_char (c : ascii) : bool := is_digit c || Ascii.eqb c ".".

Lemma number_ok_chars s : number_ok s -> str_forall number_char s = true.
Proof.
  assert (forall a, str_forall is_digit a = true -> str_forall number_char a = true) as H.
  { intros a. apply str_forall_impl. intros c Hc. unfold number_char. by rewrite Hc. }
  intros [(a & b & Ha & Hb & [->| ->]) _]; [auto|]. rewrite str_forall_app, (H a) by done. cbn. by rewrite (H b).
Qed.

Lemma ident_ok_chars s : ident_ok s -> str_forall ident_char s = true.
Proof. destruct s as [|c r]; [done|]. cbn. intros [Hc ->]. unfold ident_char. by rewrite Hc. Qed.

Lemma unquote_number s : number_ok s -> unquote s = s.
Proof.
  intros H%number_ok_chars. apply unquote_id. eapply str_forall_impl; [|exact H].
  intros c. destruct c as [[] [] [] [] [] [] [] []]; vm_compute; done.
Qed.
Lemma unquote_ident s : ident_ok s -> unquote s = s.
Proof.
  intros H%ident_ok_chars. apply unquote_id. eapply str_forall_impl; [|exact H].
  intros c. destruct c as [[] [] [] [] [] [] [] []]; vm_compute; done.
Qed.

Lemma lex_render n rest :
  node_wf n -> delim rest ->
  lexArith (unquote (renderNode n) +:+ rest) = (ts ← lexArith rest; Ok (tokens_of n ++ ts)).
Proof.
  revert rest. induction n as [v lit|name|minus c IH|op l IHl r IHr]; intros rest Hwf Hd; cbn [renderNode node_wf tokens_of] in *.
  - destruct Hwf as [Hwf _]. rewrite unquote_number by done. by rewrite lex_number.
  - change (unquote (String quote (name +:+ String quote ""))) with (unquote (name +:+ String quote "")).
    rewrite unquote_app, unquote_ident by done. cbn. rewrite str_app_nil_r.
    rewrite lex_ident by (done || by apply delim_ident). done.
  - assert (unquote (String (if minus then "-" else "+") (String "(" (renderNode c +:+ ")"))) +:+ rest =
      String (if minus then "-" else "+") (String "(" (unquote (renderNode c) +:+ String ")" rest))) as ->.
    { rewrite !unquote_cons, unquote_app by (by destruct minus). cbn. by rewrite str_app_assoc. }
    rewrite (lex_punct _ (if minus then TMinus else TPlus)) by (by destruct minus).
    rewrite (lex_punct "(" TLParen), IH, (lex_punct ")" TRParen) by done.
    destruct (lexArith rest); cbn; [|done]. by rewrite <- app_assoc.
  - destruct Hwf as [Hl Hr].
    assert (unquote (String "(" (renderNode l +:+ String " " (String (op_char op) (String " " (renderNode r +:+ ")"))))) +:+ rest =
      String "(" (unquote (renderNode l) +:+ String " " (String (op_char op) (String " " (unquote (renderNode r) +:+ String ")" rest))))) as ->.
    { rewrite unquote_cons, unquote_app, !unquote_cons, unquote_app by (by destruct op). cbn.
      rewrite str_app_assoc. cbn. by rewrite str_app_assoc. }
    rewrite (lex_punct "(" TLParen), IHl, lex_blank by done.
    rewrite (lex_punct (op_char op) (op_token op)), lex_blank by (by destruct op).
    rewrite IHr, (lex_punct ")" TRParen) by done.
    destruct (lexArith rest); cbn; [|done]. by rewrite <- !app_assoc.
Qed.

Lemma tokens_of_grammar n : node_wf n -> g_factor (tokens_of n) n.
Proof.
  induction n as [v lit|name|minus c IH|op l IHl r IHr]; cbn.
  - intros [_ Hv]. assert (num_node lit = NumNode v lit) as <- by (unfold num_node; by rewrite Hv). constructor.
  - constructor.
  - intros Hwf. destruct minus; constructor; constructor; by repeat constructor; apply IH.
  - intros [Hl Hr]. constructor. destruct op; cbn.
    1,2: apply GAdd; [done|by constructor; constructor; apply IHl|by constructor; apply IHr].
    1,2: constructor; apply GMul; [done|by constructor; apply IHl|by apply IHr].
Qed.

(** ** Theorems *)

Definition op_byte (c : ascii) : bool :=
  Ascii.eqb c "+" || Ascii.eqb c "-" || Ascii.eqb c "*" || Ascii.eqb c "/".
(** Every operator character is followed by a parenthesis or a space: no
    [--] and no [/*] can occur. *)
Fixpoint ops_guarded (s : string) : bool :=
  match s with
  | EmptyString => true
  | String c r =>
      (if op_byte c then match r with String d _ => Ascii.eqb d "(" || Ascii.eqb d " " | EmptyString => false end
       else true) && ops_guarded r
  end.
Definition sql_char (c : ascii) : bool :=
  ident_char c || op_byte c || Ascii.eqb c "." || Ascii.eqb c quote || Ascii.eqb c "(" || Ascii.eqb c ")" || Ascii.eqb c " ".

Lemma ops_guarded_app a b : ops_guarded a = true -> ops_guarded b = true -> ops_guarded (a +:+ b) = true.
Proof.
  intros Ha Hb. induction a as [|c a IH]; cbn in *; [done|]. apply andb_true_iff in Ha as [Hc Ha].
  rewrite IH by done. destruct (op_byte c); [|done]. destruct a as [|d a]; cbn in *; [done|]. by rewrite Hc.
Qed.

Lemma ops_guarded_forall (p : ascii -> bool) s :
  (forall c, p c = true -> op_byte c = false) -> str_forall p s = true -> ops_guarded s = true.
Proof.
  intros Hp. induction s as [|c s IH]; cbn; [done|]. intros [Hc Hs]%andb_true_iff.
  rewrite (Hp c Hc). by rewrite IH.
Qed.

Lemma number_ok_safe s : number_ok s -> ops_guarded s = true /\ str_forall sql_char s = true.
Proof.
  intros H%number_ok_chars. split; [eapply ops_guarded_forall|eapply str_forall_impl]; try exact H;
    intros c; destruct c as [[] [] [] [] [] [] [] []]; vm_compute; done.
Qed.
Lemma ident_ok_safe s : ident_ok s -> ops_guarded s = true /\ str_forall sql_char s = true.
Proof.
  intros H%ident_ok_chars. split; [eapply ops_guarded_forall|eapply str_forall_impl]; try exact H;
    intros c; destruct c as [[] [] [] [] [] [] [] []]; vm_compute; done.
Qed.

Lemma renderNode_safe n :
  node_wf n -> ops_guarded (renderNode n) = true /\ str_forall sql_char (renderNode n) = true.
Proof.
  induction n as [v lit|name|minus c IH|op l IHl r IHr]; cbn [node_wf renderNode].
  - intros [? _]. by apply number_ok_safe.
  - intros [Hg Hc]%ident_ok_safe.
    change (String quote (name +:+ String quote "")) with (String quote "" +:+ (name +:+ String quote "")).
    rewrite !str_forall_app, Hc. split; [|done]. by repeat apply ops_guarded_app.
  - intros [Hg Hc]%IH.
    change (String ?a (String "(" (renderNode c +:+ ")"))) with (String a "(" +:+ (renderNode c +:+ ")")).
    rewrite !str_forall_app, Hc. split; [|by destruct minus]. repeat apply ops_guarded_app; by destruct minus.
  - intros [[Hgl Hcl]%IHl [Hgr Hcr]%IHr].
    change (String "(" (renderNode l +:+ String " " (String (op_char op) (String " " (renderNode r +:+ ")"))))) with
      ("(" +:+ (renderNode l +:+ (String " " (String (op_char op) " ") +:+ (renderNode r +:+ ")")))).
    rewrite !str_forall_app, Hcl, Hcr. split; [|by destruct op]. repeat apply ops_guarded_app; by destruct op.
Qed.

(** The parser is the grammar of the package comment: it returns a tree
    exactly for the token strings the grammar derives, the tree is the only
    one, and on every other input it stops with an error (the fuel of the
    recursion always suffices). *)
Theorem parseArith_grammar src :
  match parseArith src with
  | Ok (n, ids) => exists toks, lexArith src = Ok toks /\ g_expr toks n /\ ids = collectIdents n /\
      forall m, g_expr toks m -> m = n
  | Err e => e <> OutOfFuel /\ forall toks n, lexArith src = Ok toks -> ~ g_expr toks n
  end.
Proof.
  destruct (parseArith src) as [[n ids]|e] eqn:E.
  - apply parseArith_Ok in E as (toks & Hl & Hg & ->). exists toks. split_and!; try done.
    intros m Hm. apply parse_tokens_iff in Hg, Hm. congruence.
  - split.
    + intros ->. unfold parseArith in E.
      apply bind_Err in E as [E|(toks & _ & E)]; [by apply lexArith_fuel in E|].
      destruct toks as [|t toks]; [done|].
      apply bind_Err in E as [E|(n & _ & E)]; [by apply parse_tokens_fuel in E|done].
    + intros toks n Hl Hg. assert (parseArith src = Ok (n, collectIdents n)) as H; [|congruence].
      apply parseArith_Ok. by exists toks.
Qed.

(** C37: the SQL fragment means what is evaluated and cannot escape: with the
    quotes removed it parses back to the very tree of the expression, it has
    only identifiers, numbers, operators, parentheses, quotes and spaces, and
    every operator is followed by a parenthesis or a space, so no comment can
    start in it. *)
Theorem RenderSQL_faithful src sql :
  RenderSQL src = Ok sql ->
  (exists n ids, parseArith src = Ok (n, ids) /\ parseArith (unquote sql) = Ok (n, ids)) /\
  str_forall sql_char sql = true /\ ops_guarded sql = true.
Proof.
  intros ([n ids] & Hp & [= <-])%bind_Ok. assert (Hwf := parseArith_wf _ _ _ Hp).
  destruct (renderNode_safe n Hwf) as [Hg Hc]. split_and!; [|done..].
  exists n, ids. split; [done|]. apply parseArith_Ok in Hp as (_ & _ & _ & ->). apply parseArith_Ok.
  exists (tokens_of n). split_and!; [|by constructor; constructor; apply tokens_of_grammar|done].
  rewrite <- (str_app_nil_r (unquote _)), lex_render by done. cbn. by rewrite app_nil_r.
Qed.

Definition sample_sql : string := match RenderSQL "-(a + 2.50) * --b" with Ok s => s | Err _ => "" end.

Lemma RenderSQL_faithful_witness :
  unquote sample_sql = "(-((a + 2.50)) * -(-(b)))"%string /\ ops_guarded sample_sql = true.
Proof.
  split; [by vm_compute|].
  apply (RenderSQL_faithful "-(a + 2.50) * --b" sample_sql). by vm_compute.
Defined.

Lemma evalNode_agree n env1 env2 :
  (forall c, c ∈ collectIdents n -> env1 !! c = env2 !! c) -> evalNode n env1 = evalNode n env2.
Proof.
  induction n as [v lit|name|minus c IH|op l IHl r IHr]; cbn; intros H; [done|..].
  - rewrite H by set_solver. done.
  - by rewrite IH.
  - rewrite IHl, IHr by set_solver. done.
Qed.

(** An expression that validates against a table's columns always
    evaluates, references only those columns, and its value depends on
    nothing else in the row. *)
Theorem Validate_Eval src cols env1 env2 :
  Validate src (Some cols) = Ok tt -> (forall c, c ∈ cols -> env1 !! c = env2 !! c) ->
  exists v ids, Eval src env1 = Ok v /\ Eval src env2 = Ok v /\ Idents src = Ok ids /\
    forall c, c ∈ ids -> c ∈ cols.
Proof.
  intros ([n ids] & Hp & H)%bind_Ok Henv.
  assert (Hsub : forall c, c ∈ ids -> c ∈ cols).
  { intros c Hc. destruct (decide (c ∈ cols)) as [|Hn]; [done|exfalso].
    destruct (List.filter _ ids) as [|x l] eqn:E; [|done].
    assert (c ∈ List.filter (fun id => negb (bool_decide (id ∈ cols))) ids) as Hin.
    { apply list_elem_of_In, filter_In. split; [by apply list_elem_of_In|]. by rewrite bool_decide_false. }
    rewrite E in Hin. by apply not_elem_of_nil in Hin. }
  exists (evalNode n env1), ids. unfold Eval, Idents. rewrite Hp. split_and!; try done.
  cbn. f_equal. symmetry. apply evalNode_agree. apply parseArith_Ok in Hp as (_ & _ & _ & ->). auto.
Qed.

Lemma Validate_Eval_witness :
  Validate "qty * price / 0" (Some {["qty"; "price"]}) = Ok tt /\
  exists v ids, Eval "qty * price / 0" {["qty" := S754_finite false 3 0]} = Ok v /\
    Eval "qty * price / 0" {["qty" := S754_finite false 3 0; "other" := S754_nan]} = Ok v /\
    Idents "qty * price / 0" = Ok ids /\ forall c, c ∈ ids -> c ∈ ({["qty"; "price"]} : gset string).
Proof.
  assert (Validate "qty * price / 0" (Some {["qty"; "price"]}) = Ok tt) as H by (vm_compute; reflexivity).
  split; [exact H|].
  apply (Validate_Eval "qty * price / 0" {["qty"; "price"]}); [exact H|].
  intros c Hc. destruct (decide (c = "other"%string)) as [->|Hne].
  - exfalso. revert Hc. rewrite elem_of_union, !elem_of_singleton. by intros [|].
  - destruct (decide (c = "qty"%string)) as [->|]; [reflexivity|].
    rewrite lookup_insert_ne by congruence. by rewrite !lookup_singleton_ne by congruence.
Defined.
