(* ===== verification/Civil.v ===== *)
(** * Go times in a location (package time, as automation/cron.go uses it)

    The proleptic Gregorian calendar, zone offsets as a list of transitions,
    the field accessors, [time.Date] with its choice of offset, [Truncate]
    and [AddDate].  An instant is nanoseconds since the Unix epoch. *)

From S2P Require Import Prelude.

(** ** The calendar *)

Definition leap (y : Z) : bool := (y mod 4 =? 0) && (negb (y mod 100 =? 0) || (y mod 400 =? 0)).

(** Days from 1970-01-01 to January 1 of year [y]. *)
Definition days_to_year (y : Z) : Z :=
  365 * (y - 1) + (y - 1) / 4 - (y - 1) / 100 + (y - 1) / 400 - 719162.

(** Days of the year before month [m] (1 to 12; 13 is the year's length). *)
Definition days_to_month (lp : bool) (m : Z) : Z :=
  let extra := if lp then 1 else 0 in
  match m with
  | 1 => 0 | 2 => 31 | 3 => 59 + extra | 4 => 90 + extra | 5 => 120 + extra | 6 => 151 + extra
  | 7 => 181 + extra | 8 => 212 + extra | 9 => 243 + extra | 10 => 273 + extra | 11 => 304 + extra
  | 12 => 334 + extra | _ => 365 + extra
  end.

(** The day number of a date; out-of-range months and days overflow into the
    neighbouring years and months. *)
Definition day_number (y m d : Z) : Z :=
  let y' := y + (m - 1) / 12 in
  let m' := (m - 1) mod 12 + 1 in
  days_to_year y' + days_to_month (leap y') m' + (d - 1).

Definition year_of (n : Z) : Z :=
  let y := (n + 719162) * 400 / 146097 + 1 in
  if n <? days_to_year y then y - 1 else if days_to_year (y + 1) <=? n then y + 1 else y.

Definition month_of_day (lp : bool) (doy : Z) : Z :=
  let before (m : Z) := days_to_month lp m <=? doy in
  if before 12 then 12 else if before 11 then 11 else if before 10 then 10 else if before 9 then 9
  else if before 8 then 8 else if before 7 then 7 else if before 6 then 6 else if before 5 then 5
  else if before 4 then 4 else if before 3 then 3 else if before 2 then 2 else 1.

Definition month_of (n : Z) : Z := month_of_day (leap (year_of n)) (n - days_to_year (year_of n)).
Definition mday_of (n : Z) : Z :=
  n - days_to_year (year_of n) - days_to_month (leap (year_of n)) (month_of n) + 1.
(** Sunday is 0; 1970-01-01 was a Thursday. *)
Definition weekday_of (n : Z) : Z := (n + 4) mod 7.

(** ** Locations *)

(** The offset before the first transition, and the transitions (Unix second,
    offset from then on) in order. *)
Record Location := mkLocation { loc_base : Z; loc_transitions : list (Z * Z) }.
Definition UTC : Location := mkLocation 0 [].

(** [Location.lookup]: the offset in force at a Unix second, with the
    interval in which it is. *)
Fixpoint lookup_from (off : Z) (from : option Z) (l : list (Z * Z)) (s : Z) : Z * option Z * option Z :=
  match l with
  | [] => (off, from, None)
  | (at_, off') :: l => if s <? at_ then (off, from, Some at_) else lookup_from off' (Some at_) l s
  end.
Definition loc_lookup (loc : Location) (s : Z) : Z * option Z * option Z :=
  lookup_from (loc_base loc) None (loc_transitions loc) s.
Definition offset_at (loc : Location) (s : Z) : Z := (loc_lookup loc s).1.1.

(** ** Times *)

Definition second : Z := 1000000000.
Definition minute : Z := 60 * second.
Definition hour : Z := 60 * minute.

(** The seconds the wall clock shows, counted from 1970-01-01 00:00. *)
Definition local_seconds (loc : Location) (t : Z) : Z :=
  let s := t / second in s + offset_at loc s.
Definition local_day (loc : Location) (t : Z) : Z := local_seconds loc t / 86400.

Definition t_Year (loc : Location) (t : Z) : Z := year_of (local_day loc t).
Definition t_Month (loc : Location) (t : Z) : Z := month_of (local_day loc t).
Definition t_Day (loc : Location) (t : Z) : Z := mday_of (local_day loc t).
Definition t_Weekday (loc : Location) (t : Z) : Z := weekday_of (local_day loc t).
Definition t_Hour (loc : Location) (t : Z) : Z := local_seconds loc t mod 86400 / 3600.
Definition t_Minute (loc : Location) (t : Z) : Z := local_seconds loc t mod 3600 / 60.
Definition t_Second (loc : Location) (t : Z) : Z := local_seconds loc t mod 60.

(** [time.Date]: the offset is looked up at the wall-clock seconds read as
    UTC, and once more when the instant found is outside that zone. *)
Definition time_Date (y m d h mi s ns : Z) (loc : Location) : Z :=
  let local := day_number y m d * 86400 + h * 3600 + mi * 60 + s in
  let '(off, from, to) := loc_lookup loc local in
  let unix :=
    if off =? 0 then local else
    let utc := local - off in
    if match from with Some a => utc <? a | None => false end ||
       match to with Some b => b <=? utc | None => false end
    then local - offset_at loc utc else utc in
  unix * second + ns.

(** [t.Truncate(d)] for a [d] that divides the distance from year 1. *)
Definition Truncate (t d : Z) : Z := t - t mod d.

Definition AddYears (loc : Location) (t n : Z) : Z :=
  time_Date (t_Year loc t + n) (t_Month loc t) (t_Day loc t) (t_Hour loc t) (t_Minute loc t) (t_Second loc t)
    (t mod second) loc.

(** ** The calendar counts days *)

Lemma days_to_month_step lp m :
  1 <= m <= 12 -> 28 <= days_to_month lp (m + 1) - days_to_month lp m <= 31.
Proof.
  intros H. assert (m = 1 \/ m = 2 \/ m = 3 \/ m = 4 \/ m = 5 \/ m = 6 \/ m = 7 \/ m = 8 \/ m = 9 \/ m = 10 \/ m = 11 \/ m = 12)
    as Hm by lia. destruct lp; repeat destruct Hm as [->|Hm]; subst; vm_compute; split; discriminate.
Qed.

Lemma days_to_month_1 lp : days_to_month lp 1 = 0.
Proof. done. Qed.
Lemma days_to_month_13 lp : days_to_month lp 13 = if lp then 366 else 365.
Proof. by destruct lp. Qed.

Lemma leap_spec y : leap y = true <-> y mod 4 = 0 /\ (y mod 100 <> 0 \/ y mod 400 = 0).
Proof.
  unfold leap. rewrite andb_true_iff, orb_true_iff, negb_true_iff, !Z.eqb_eq, Z.eqb_neq. done.
Qed.

Lemma days_to_year_step y : days_to_year (y + 1) = days_to_year y + days_to_month (leap y) 13.
Proof.
  rewrite days_to_month_13. unfold days_to_year. replace (y + 1 - 1) with (y - 1 + 1) by lia.
  pose proof (leap_spec y) as H. destruct (leap y).
  - destruct (proj1 H eq_refl) as [H4 H100]. zlia.
  - assert (~ (y mod 4 = 0 /\ (y mod 100 <> 0 \/ y mod 400 = 0))) as Hn by (intros Hx; by apply H in Hx).
    zlia.
Qed.

Lemma days_to_year_mono a b : a < b -> days_to_year (a + 1) <= days_to_year b.
Proof. unfold days_to_year. intros H. zlia. Qed.

Lemma year_of_spec n : days_to_year (year_of n) <= n < days_to_year (year_of n + 1).
Proof.
  unfold year_of. set (y := (n + 719162) * 400 / 146097 + 1).
  assert (days_to_year (y - 1) <= n < days_to_year (y + 2)) as Hb.
  { subst y. unfold days_to_year. zlia. }
  destruct (Z.ltb_spec n (days_to_year y)); [replace (y - 1 + 1) with y by lia; lia|].
  destruct (Z.leb_spec (days_to_year (y + 1)) n); [replace (y + 1 + 1) with (y + 2) by lia; lia|lia].
Qed.

Lemma year_of_unique n y : days_to_year y <= n < days_to_year (y + 1) -> year_of n = y.
Proof.
  intros H. pose proof (year_of_spec n) as Hs.
  destruct (Z.lt_trichotomy (year_of n) y) as [Hl|[E|Hl]]; [|done|].
  - apply days_to_year_mono in Hl. lia.
  - apply days_to_year_mono in Hl. lia.
Qed.

Lemma month_of_day_spec lp doy :
  0 <= doy < days_to_month lp 13 ->
  1 <= month_of_day lp doy <= 12 /\
  days_to_month lp (month_of_day lp doy) <= doy < days_to_month lp (month_of_day lp doy + 1).
Proof.
  intros H. unfold month_of_day. destruct lp; cbn in *;
    repeat match goal with |- context [if ?a <=? ?b then _ else _] => destruct (Z.leb_spec a b) end;
    repeat match goal with |- context [days_to_month ?b ?m] =>
      let v := eval vm_compute in (days_to_month b m) in change (days_to_month b m) with v end; lia.
Qed.

Lemma days_to_month_mono lp a b : 1 <= a -> a < b -> b <= 13 -> days_to_month lp (a + 1) <= days_to_month lp b.
Proof.
  intros Ha Hab Hb. replace b with (a + 1 + (b - a - 1)) by lia.
  assert (0 <= b - a - 1) as Hk by lia. assert (a + 1 + (b - a - 1) <= 13) as Hle by lia.
  revert Hk Hle. generalize (b - a - 1) as k. clear Hab Hb b. intros k Hk.
  pattern k. apply natlike_ind; [|intros x Hx IH Hle|done].
  - intros. replace (a + 1 + 0) with (a + 1) by lia. lia.
  - replace (a + 1 + Z.succ x) with (a + 1 + x + 1) in * by lia.
    pose proof (days_to_month_step lp (a + 1 + x) ltac:(lia)). lia.
Qed.

Lemma days_to_month_range lp m :
  1 <= m <= 12 -> 0 <= days_to_month lp m /\ days_to_month lp (m + 1) <= days_to_month lp 13.
Proof.
  intros Hm. pose proof (days_to_month_1 lp) as H1. split.
  - destruct (decide (m = 1)) as [->|]; [lia|].
    pose proof (days_to_month_mono lp 1 m ltac:(lia) ltac:(lia) ltac:(lia)).
    pose proof (days_to_month_step lp 1 ltac:(lia)). lia.
  - destruct (decide (m = 12)) as [->|]; [done|].
    pose proof (days_to_month_mono lp (m + 1) 13 ltac:(lia) ltac:(lia) ltac:(lia)).
    pose proof (days_to_month_step lp (m + 1) ltac:(lia)). lia.
Qed.

Lemma month_of_day_unique lp doy m :
  1 <= m <= 12 -> days_to_month lp m <= doy < days_to_month lp (m + 1) -> month_of_day lp doy = m.
Proof.
  intros Hm H.
  assert (0 <= doy < days_to_month lp 13) as Hd by (pose proof (days_to_month_range lp m Hm); lia).
  destruct (month_of_day_spec lp doy Hd) as [Hr Hs].
  destruct (Z.lt_trichotomy (month_of_day lp doy) m) as [Hl|[E|Hl]]; [|done|].
  - apply (days_to_month_mono lp) in Hl; lia.
  - apply (days_to_month_mono lp) in Hl; lia.
Qed.

Lemma month_of_spec n :
  let y := year_of n in let m := month_of n in
  1 <= m <= 12 /\
  days_to_year y + days_to_month (leap y) m <= n < days_to_year y + days_to_month (leap y) (m + 1).
Proof.
  cbv zeta. unfold month_of. pose proof (year_of_spec n) as Hy. rewrite days_to_year_step in Hy.
  pose proof (month_of_day_spec (leap (year_of n)) (n - days_to_year (year_of n)) ltac:(lia)). lia.
Qed.

Lemma mday_of_spec n : 1 <= mday_of n <= 31.
Proof.
  unfold mday_of. destruct (month_of_spec n) as [Hm H].
  pose proof (days_to_month_step (leap (year_of n)) (month_of n) Hm). lia.
Qed.

(** A date's fields give back its day number, and any day of the month. *)
Lemma day_number_fields n d : day_number (year_of n) (month_of n) d = n + (d - mday_of n).
Proof.
  unfold day_number, mday_of. destruct (month_of_spec n) as [Hm _].
  rewrite (Z.div_small (month_of n - 1)), (Z.mod_small (month_of n - 1)) by lia.
  replace (year_of n + 0) with (year_of n) by lia.
  replace (month_of n - 1 + 1) with (month_of n) by lia. lia.
Qed.

(** The first day of the next month: the days up to it have the same month. *)
Lemma day_number_next_month n :
  let n' := day_number (year_of n) (month_of n + 1) 1 in
  n < n' /\ forall x, n <= x < n' -> year_of x = year_of n /\ month_of x = month_of n.
Proof.
  cbv zeta. destruct (month_of_spec n) as [Hm Hn].
  set (y := year_of n) in *. set (m := month_of n) in *.
  assert (day_number y (m + 1) 1 = days_to_year y + days_to_month (leap y) (m + 1)) as ->.
  { unfold day_number. destruct (decide (m = 12)) as [->|].
    - change ((12 + 1 - 1) / 12) with 1. change ((12 + 1 - 1) mod 12 + 1) with 1. change (12 + 1) with 13.
      rewrite days_to_year_step, days_to_month_1. lia.
    - rewrite (Z.div_small (m + 1 - 1)), (Z.mod_small (m + 1 - 1)) by lia.
      replace (y + 0) with y by lia. replace (m + 1 - 1 + 1) with (m + 1) by lia. lia. }
  split; [lia|]. intros x Hx.
  assert (year_of x = y) as Ey.
  { apply year_of_unique. rewrite days_to_year_step.
    pose proof (days_to_month_range (leap y) m Hm). lia. }
  split; [done|]. unfold month_of. rewrite Ey. apply month_of_day_unique; lia.
Qed.

(** Later days have a later date. *)
Definition date_key (n : Z) : Z := year_of n * 10000 + month_of n * 100 + mday_of n.
Lemma date_key_mono a b : a < b -> date_key a < date_key b.
Proof.
  intros H. unfold date_key.
  pose proof (year_of_spec a). pose proof (year_of_spec b).
  pose proof (mday_of_spec a). pose proof (mday_of_spec b).
  destruct (month_of_spec a) as [Hma Hna], (month_of_spec b) as [Hmb Hnb].
  assert (year_of a <= year_of b).
  { destruct (decide (year_of b < year_of a)) as [Hl|]; [|lia]. apply days_to_year_mono in Hl. lia. }
  destruct (decide (year_of a = year_of b)) as [E|]; [|nia].
  unfold mday_of in *. rewrite E in *.
  assert (month_of a <= month_of b).
  { destruct (decide (month_of b < month_of a)) as [Hl|]; [|lia].
    apply (days_to_month_mono (leap (year_of b))) in Hl; lia. }
  destruct (decide (month_of a = month_of b)) as [Em|]; [|lia]. rewrite Em in *. lia.
Qed.
