(* ===== verification/Cron.v ===== *)
(** * Cron expressions (automation/cron.go)

    [ParseCron] with its field grammar as bit sets, and [Next] on the times
    of a location.  Proved: what a field selects; in a zone without
    transitions [Next] terminates at the first match; and in a zone whose
    clock skips midnight it need not terminate. *)

From S2P Require Import Prelude GoStrings Civil.

(** ** Data *)

Record Cron := mkCron {
  c_expr : string; c_minute : Z; c_hour : Z; c_dom : Z; c_month : Z; c_dow : Z;
  c_domStar : bool; c_dowStar : bool
}.

Inductive cron_cause : Type := CauseEmpty | CauseStep | CauseRange | CauseValue | CauseOutOfRange.
Inductive cron_field : Type := FieldMinute | FieldHour | FieldDom | FieldMonth | FieldDow.
#[export] Instance cron_cause_eq_dec : EqDecision cron_cause.
Proof. solve_decision. Defined.
#[export] Instance cron_field_eq_dec : EqDecision cron_field.
Proof. solve_decision. Defined.
Inductive cron_error : Type := ErrFieldCount | ErrField (f : cron_field) (c : cron_cause).
#[export] Instance cron_error_eq_dec : EqDecision cron_error.
Proof. solve_decision. Defined.

(** ** Parsing *)

(** One element of a field's list: first and last value, step, and whether
    it is a bare star. *)
Definition cron_part (lo hi : Z) (part : string) : result cron_cause (Z * Z * Z * bool) :=
  let '(rng, stepS) := match cut "/" part with Some (r, s) => (r, Some s) | None => (part, None) end in
  step ← match stepS with
    | None => Ok 1
    | Some s => match Atoi s with
        | Some n => if (n <=? 0) || (hi <? n) then Err CauseStep else Ok n
        | None => Err CauseStep
        end
    end;
  '(a, b) ←
    (if String.eqb rng "*" then Ok (lo, hi)
     else match cut "-" rng with
     | Some (x, y) =>
         match Atoi x, Atoi y with Some a, Some b => Ok (a, b) | _, _ => Err CauseRange end
     | None =>
         match Atoi rng with
         | Some a => Ok (a, if stepS then hi else a)
         | None => Err CauseValue
         end
     end);
  if (a <? lo) || (hi <? b) || (b <? a) then Err CauseOutOfRange
  else Ok (a, b, step, String.eqb rng "*" && negb (bool_decide (is_Some stepS))).

(** [for v := a; v <= b; v += step { bits |= 1 << v }]. *)
Fixpoint set_bits (fuel : nat) (v b step bits : Z) : Z :=
  match fuel with
  | O => bits
  | S fuel => if v <=? b then set_bits fuel (v + step) b step (Z.lor bits (Z.shiftl 1 v)) else bits
  end.

Fixpoint cron_parts (lo hi : Z) (parts : list string) (bits : Z) (star : bool) : result cron_cause (Z * bool) :=
  match parts with
  | [] => Ok (bits, star)
  | part :: parts =>
      '(a, b, step, s) ← cron_part lo hi part;
      cron_parts lo hi parts (set_bits (Z.to_nat (b - a + 1)) a b step bits) (star || s)
  end.

Definition cronField (s : string) (lo hi : Z) : result cron_cause (Z * bool) :=
  if String.eqb s "" then Err CauseEmpty else cron_parts lo hi (str_split "," s) 0 false.

Definition in_field (f : cron_field) {A} (r : result cron_cause A) : result cron_error A :=
  match r with Ok a => Ok a | Err c => Err (ErrField f c) end.

Definition cron_macro (e : string) : string :=
  if String.eqb e "@hourly" then "0 * * * *"
  else if String.eqb e "@daily" || String.eqb e "@midnight" then "0 0 * * *"
  else if String.eqb e "@weekly" then "0 0 * * 0"
  else if String.eqb e "@monthly" then "0 0 1 * *"
  else e.

Definition ParseCron (expr : string) : result cron_error Cron :=
  match Fields (cron_macro (TrimSpace expr)) with
  | [f0; f1; f2; f3; f4] =>
      '(minute, _) ← in_field FieldMinute (cronField f0 0 59);
      '(hour, _) ← in_field FieldHour (cronField f1 0 23);
      '(dom, domStar) ← in_field FieldDom (cronField f2 1 31);
      '(month, _) ← in_field FieldMonth (cronField f3 1 12);
      '(dow, dowStar) ← in_field FieldDow (cronField f4 0 7);
      let dow := if Z.testbit dow 7 then Z.ldiff (Z.lor dow 1) (Z.shiftl 1 7) else dow in
      Ok (mkCron expr minute hour dom month dow domStar dowStar)
  | _ => Err ErrFieldCount
  end.

(** ** Matching and the next instant *)

Section next.
Context (c : Cron) (loc : Location).

Definition dayMatches (t : Z) : bool :=
  let d := Z.testbit (c_dom c) (t_Day loc t) in
  let w := Z.testbit (c_dow c) (t_Weekday loc t) in
  if c_domStar c || c_dowStar c then d && w else d || w.

Definition wall (t : Z) : Z :=
  t_Year loc t * 100000000 + t_Month loc t * 1000000 + t_Day loc t * 10000 + t_Hour loc t * 100 + t_Minute loc t.

(** One round of the loop: the next candidate, or the answer. *)
Definition next_step (after t : Z) : Z + Z :=
  if negb (Z.testbit (c_month c) (t_Month loc t)) then
    inl (time_Date (t_Year loc t) (t_Month loc t + 1) 1 0 0 0 0 loc)
  else if negb (dayMatches t) then
    inl (time_Date (t_Year loc t) (t_Month loc t) (t_Day loc t + 1) 0 0 0 0 loc)
  else if negb (Z.testbit (c_hour c) (t_Hour loc t)) then
    let n := time_Date (t_Year loc t) (t_Month loc t) (t_Day loc t) (t_Hour loc t + 1) 0 0 0 loc in
    inl (if n <=? t then Truncate (t + hour) hour else n)
  else if negb (Z.testbit (c_minute c) (t_Minute loc t)) then inl (t + minute)
  else if (after <? t) && (wall after <? wall t) then inr t
  else inl (t + minute).

(** [Some None] is the zero time; [None] is a loop that is still running. *)
Fixpoint next_loop (fuel : nat) (after limit t : Z) : option (option Z) :=
  match fuel with
  | O => None
  | S fuel =>
      if t <? limit then
        match next_step after t with inl t => next_loop fuel after limit t | inr r => Some (Some r) end
      else Some None
  end.

Definition next_start (after : Z) : Z := Truncate after minute + minute.
Definition next_limit (after : Z) : Z := AddYears loc (next_start after) 5.

Definition Next (fuel : nat) (after : Z) : option (option Z) :=
  next_loop fuel after (next_limit after) (next_start after).

(** [MinGap]'s loop over the next occurrences. *)
Fixpoint gap_loop (fuel samples : nat) (prev min : Z) : option Z :=
  match samples with
  | O => Some min
  | S samples =>
      n ← Next fuel prev;
      match n with
      | None => Some min
      | Some n => gap_loop fuel samples n (if n - prev <? min then n - prev else min)
      end
  end.
Definition MinGap (fuel : nat) (from : Z) (samples : nat) : option Z :=
  prev ← Next fuel from;
  match prev with None => Some 0 | Some prev => gap_loop fuel samples prev int64_max end.

(** The instant's wall clock satisfies the expression. *)
Definition cron_match (t : Z) : bool :=
  Z.testbit (c_month c) (t_Month loc t) && dayMatches t && Z.testbit (c_hour c) (t_Hour loc t) &&
  Z.testbit (c_minute c) (t_Minute loc t).
End next.

(** ** Fields *)

Lemma set_bits_spec fuel v b step bits x :
  0 <= v -> 0 < step -> b < v + Z.of_nat fuel -> 0 <= x ->
  Z.testbit (set_bits fuel v b step bits) x = true <->
  Z.testbit bits x = true \/ v <= x <= b /\ (step | x - v).
Proof.
  revert v bits. induction fuel as [|fuel IH]; intros v bits Hv Hs Hb Hx; cbn [set_bits].
  - split; [by left|]. intros [?|[? _]]; [done|lia].
  - destruct (Z.leb_spec v b) as [Hle|Hle].
    + rewrite IH by lia. rewrite Z.lor_spec, Z.shiftl_spec, orb_true_iff by lia.
      assert (Z.testbit 1 (x - v) = true <-> x = v) as ->.
      { destruct (Z.lt_trichotomy (x - v) 0) as [?|[?|?]].
        - rewrite Z.testbit_neg_r by lia. split; [done|lia].
        - replace (x - v) with 0 by lia. split; [lia|done].
        - rewrite (Z.bits_above_log2 1) by (cbn; lia). split; [done|lia]. }
      split.
      * intros [[?| ->]|[? [k Hk]]]; [by left|right|right].
        -- split; [lia|]. exists 0. lia.
        -- split; [lia|]. exists (k + 1). lia.
      * intros [?|[? [k Hk]]]; [by left; left|]. destruct (decide (x = v)) as [->|]; [by left; right|].
        right. assert (1 <= k) by nia. split; [nia|]. exists (k - 1). lia.
    + split; [by left|]. intros [?|[? _]]; [done|lia].
Qed.

Lemma cron_part_range lo hi part a b step s :
  cron_part lo hi part = Ok (a, b, step, s) -> lo <= a <= b /\ b <= hi /\ 1 <= step.
Proof.
  unfold cron_part. destruct (match cut "/" part with Some _ => _ | None => _ end) as [rng stepS].
  intros (st & Hst & ([x y] & _ & H)%bind_Ok)%bind_Ok.
  destruct ((x <? lo) || (hi <? y) || (y <? x)) eqn:E; [done|]. injection H as <- <- <- _.
  apply orb_false_iff in E as [[?%Z.ltb_ge ?%Z.ltb_ge]%orb_false_iff ?%Z.ltb_ge].
  assert (1 <= st); [|lia]. destruct stepS as [w|]; [|by injection Hst as <-].
  destruct (Atoi w) as [n|]; [|done]. destruct ((n <=? 0) || (hi <? n)) eqn:E; [done|]. injection Hst as <-.
  apply orb_false_iff in E as [?%Z.leb_gt _]. lia.
Qed.

(** The element selects the value. *)
Definition selects (lo hi : Z) (part : string) (v : Z) : Prop :=
  exists a b step s, cron_part lo hi part = Ok (a, b, step, s) /\ a <= v <= b /\ (step | v - a).

Lemma cron_parts_spec lo hi parts bits star bits' star' v :
  0 <= lo -> 0 <= v -> cron_parts lo hi parts bits star = Ok (bits', star') ->
  Z.testbit bits' v = true <-> Z.testbit bits v = true \/ exists part, part ∈ parts /\ selects lo hi part v.
Proof.
  intros Hlo Hv. revert bits star. induction parts as [|part parts IH]; intros bits star; cbn.
  - intros [= <- <-]. split; [by left|]. intros [?|(p & Hp & _)]; [done|]. by apply not_elem_of_nil in Hp.
  - intros ([[[a b] step] s] & Hp & H)%bind_Ok. rewrite (IH _ _ H).
    pose proof (cron_part_range _ _ _ _ _ _ _ Hp) as Hr.
    rewrite set_bits_spec by (rewrite ?Z2Nat.id; lia). setoid_rewrite elem_of_cons. split.
    + intros [[?|[? ?]]|(p & ? & ?)]; [by left| |right; exists p; auto].
      right. exists part. split; [by left|]. by exists a, b, step, s.
    + intros [?|(p & [ -> |?] & Hsel)]; [by left; left| |right; by exists p].
      destruct Hsel as (a' & b' & step' & s' & Hp' & ? & ?). rewrite Hp in Hp'. injection Hp' as -> -> -> ->.
      left. right. done.
Qed.

Lemma cron_parts_Err lo hi parts bits star e :
  cron_parts lo hi parts bits star = Err e <->
  exists l part r, parts = l ++ part :: r /\ cron_part lo hi part = Err e /\
    Forall (fun p => exists x, cron_part lo hi p = Ok x) l.
Proof.
  revert bits star. induction parts as [|part parts IH]; intros bits star; cbn.
  - split; [done|]. by intros ([|] & ? & ? & ? & _).
  - destruct (cron_part lo hi part) as [[[[a b] step] s]|e'] eqn:Ep; cbn.
    + rewrite IH. split.
      * intros (l & p & r & -> & He & Hl). exists (part :: l), p, r. split_and!; [done..|]. constructor; [eauto|done].
      * intros ([|q l] & p & r & E & He & Hl); cbn in E; injection E as -> ->; [congruence|].
        inversion Hl; subst. by exists l, p, r.
    + split.
      * intros [= ->]. by exists [], part, parts.
      * intros ([|q l] & p & r & E & He & Hl); cbn in E; injection E as -> ->; [congruence|].
        inversion Hl as [|? ? [x Hx] _]; subst. congruence.
Qed.

(** A field stands for the values its elements select, each within the
    field's range: a step from the first to the last value of the element.
    It is rejected exactly when it is empty or has a malformed or
    out-of-range element, with that element's error. *)
Theorem cronField_correct s lo hi :
  0 <= lo ->
  match cronField s lo hi with
  | Ok (bits, _) => s <> ""%string /\
      (forall v, 0 <= v -> Z.testbit bits v = true <-> exists part, part ∈ str_split "," s /\ selects lo hi part v) /\
      (forall v, 0 <= v -> Z.testbit bits v = true -> lo <= v <= hi) /\ exists v, Z.testbit bits v = true
  | Err e => s = ""%string /\ e = CauseEmpty \/
      exists l part r, str_split "," s = l ++ part :: r /\ cron_part lo hi part = Err e
  end.
Proof.
  intros Hlo. unfold cronField. destruct (String.eqb_spec s "") as [->|Hs]; [by left|].
  destruct (cron_parts lo hi (str_split "," s) 0 false) as [[bits star]|e] eqn:E.
  - assert (Hspec : forall v, 0 <= v -> Z.testbit bits v = true <-> exists part, part ∈ str_split "," s /\ selects lo hi part v).
    { intros v Hv. rewrite (cron_parts_spec _ _ _ _ _ _ _ v Hlo Hv E), Z.bits_0. naive_solver. }
    split_and!; [done|done| |].
    + intros v Hv (part & _ & a & b & step & st & Hp & ? & _)%Hspec; [|done].
      apply cron_part_range in Hp. lia.
    + destruct (str_split "," s) as [|part parts] eqn:Ep; [by apply str_split_nonempty in Ep|].
      cbn in E. apply bind_Ok in E as ([[[a b] step] st] & Hp & _).
      pose proof (cron_part_range _ _ _ _ _ _ _ Hp) as Hr. exists a. apply Hspec; [lia|].
      exists part. split; [by left|]. exists a, b, step, st. split_and!; [done|lia|lia|]. exists 0. lia.
  - right. apply cron_parts_Err in E as (l & part & r & ? & ? & _). by exists l, part, r.
Qed.

(** ** Next in a zone without transitions *)

(** A zone [o] minutes east of UTC. *)
Definition fixed_zone (o : Z) : Location := mkLocation (60 * o) [].

Section fixed.
Context (o : Z).

Lemma fixed_local k : local_seconds (fixed_zone o) (minute * k) = 60 * (k + o).
Proof.
  unfold local_seconds, offset_at, loc_lookup, minute, second. cbn -[Z.mul Z.div Z.add]. zlia.
Qed.

Lemma fixed_day k : local_day (fixed_zone o) (minute * k) = (k + o) / 1440.
Proof. unfold local_day. rewrite fixed_local. zlia. Qed.
Lemma fixed_hour k : t_Hour (fixed_zone o) (minute * k) = (k + o) mod 1440 / 60.
Proof. unfold t_Hour. rewrite fixed_local. zlia. Qed.
Lemma fixed_minute k : t_Minute (fixed_zone o) (minute * k) = (k + o) mod 60.
Proof. unfold t_Minute. rewrite fixed_local. zlia. Qed.

Lemma fixed_Date y m d h :
  time_Date y m d h 0 0 0 (fixed_zone o) = minute * (day_number y m d * 1440 + h * 60 - o).
Proof.
  unfold time_Date, loc_lookup, minute, second. cbn -[Z.mul Z.add day_number Z.sub].
  destruct (Z.eqb_spec (60 * o) 0); lia.
Qed.

(** The fields of an instant depend on its minute. *)
Lemma match_eq c k k' :
  month_of ((k + o) / 1440) = month_of ((k' + o) / 1440) -> 
  dayMatches c (fixed_zone o) (minute * k) = dayMatches c (fixed_zone o) (minute * k') ->
  (k + o) mod 1440 / 60 = (k' + o) mod 1440 / 60 -> (k + o) mod 60 = (k' + o) mod 60 ->
  cron_match c (fixed_zone o) (minute * k) = cron_match c (fixed_zone o) (minute * k').
Proof.
  intros Hm Hd Hh Hi. unfold cron_match, t_Month. rewrite !fixed_day, !fixed_hour, !fixed_minute. congruence.
Qed.

Lemma dayMatches_day c k k' :
  (k + o) / 1440 = (k' + o) / 1440 ->
  dayMatches c (fixed_zone o) (minute * k) = dayMatches c (fixed_zone o) (minute * k').
Proof. intros H. unfold dayMatches, t_Day, t_Weekday. by rewrite !fixed_day, H. Qed.

Lemma wall_mono k k' : k < k' -> wall (fixed_zone o) (minute * k) < wall (fixed_zone o) (minute * k').
Proof.
  intros H. unfold wall, t_Year, t_Month, t_Day. rewrite !fixed_day, !fixed_hour, !fixed_minute.
  destruct (decide ((k + o) / 1440 = (k' + o) / 1440)) as [E|Hne].
  - rewrite E. zlia.
  - pose proof (date_key_mono ((k + o) / 1440) ((k' + o) / 1440) ltac:(zlia)) as Hk. unfold date_key in Hk.
    assert (0 <= (k + o) mod 1440 / 60 * 100 + (k + o) mod 60 < 10000) by zlia.
    assert (0 <= (k' + o) mod 1440 / 60 * 100 + (k' + o) mod 60 < 10000) by zlia. lia.
Qed.

Lemma wall_floor t : wall (fixed_zone o) t = wall (fixed_zone o) (minute * (t / minute)).
Proof.
  assert (local_seconds (fixed_zone o) t / 60 = t / minute + o) as Hs.
  { unfold local_seconds, offset_at, loc_lookup, minute, second. cbn -[Z.mul Z.div Z.add]. zlia. }
  unfold wall, t_Year, t_Month, t_Day. rewrite fixed_day, fixed_hour, fixed_minute.
  unfold local_day, t_Hour, t_Minute. rewrite <- Hs.
  replace (local_seconds (fixed_zone o) t / 86400) with (local_seconds (fixed_zone o) t / 60 / 1440) by zlia.
  replace (local_seconds (fixed_zone o) t mod 86400 / 3600) with (local_seconds (fixed_zone o) t / 60 mod 1440 / 60) by zlia.
  replace (local_seconds (fixed_zone o) t mod 3600 / 60) with (local_seconds (fixed_zone o) t / 60 mod 60) by zlia.
  done.
Qed.

(** One round: it moves on and passes no match, or it is at the match. *)
Lemma next_step_fixed c after k :
  after < minute * k ->
  match next_step c (fixed_zone o) after (minute * k) with
  | inl t' => exists k', t' = minute * k' /\ k < k' /\
      forall j, k <= j < k' -> cron_match c (fixed_zone o) (minute * j) = false
  | inr r => r = minute * k /\ cron_match c (fixed_zone o) (minute * k) = true
  end.
Proof.
  intros Hafter. unfold next_step, t_Year, t_Month, t_Day. rewrite fixed_day, fixed_hour, fixed_minute.
  set (n := (k + o) / 1440). pose proof (mday_of_spec n) as Hmd.
  destruct (Z.testbit (c_month c) (month_of n)) eqn:Em; cbn [negb].
  2: { rewrite fixed_Date. destruct (day_number_next_month n) as [Hn Hsame].
    eexists. split; [done|]. split; [subst n; zlia|]. intros j Hj. unfold cron_match, t_Month.
    rewrite fixed_day. destruct (Hsame ((j + o) / 1440)) as [_ ->]; [subst n; zlia|]. by rewrite Em. }
  destruct (dayMatches c (fixed_zone o) (minute * k)) eqn:Ed; cbn [negb].
  2: { rewrite fixed_Date, day_number_fields. eexists. split; [done|]. split; [subst n; zlia|].
    intros j Hj. unfold cron_match. rewrite (dayMatches_day c j k) by (subst n; zlia). rewrite Ed. by rewrite andb_false_r. }
  destruct (Z.testbit (c_hour c) ((k + o) mod 1440 / 60)) eqn:Eh; cbn [negb].
  2: { rewrite fixed_Date, day_number_fields.
    replace (n + (mday_of n - mday_of n)) with n by lia.
    assert (k < n * 1440 + ((k + o) mod 1440 / 60 + 1) * 60 - o) as Hlt by (subst n; zlia).
    destruct (Z.leb_spec (minute * (n * 1440 + ((k + o) mod 1440 / 60 + 1) * 60 - o)) (minute * k)) as [Hle|_].
    { unfold minute, second in Hle. lia. }
    eexists. split; [done|]. split; [done|]. intros j Hj. unfold cron_match. rewrite fixed_hour.
    replace ((j + o) mod 1440 / 60) with ((k + o) mod 1440 / 60) by (subst n; zlia).
    rewrite Eh. by rewrite andb_false_r. }
  destruct (Z.testbit (c_minute c) ((k + o) mod 60)) eqn:Ei; cbn [negb].
  2: { exists (k + 1). split; [unfold minute; lia|]. split; [lia|]. intros j Hj. replace j with k by lia.
    unfold cron_match. rewrite fixed_minute, Ei. apply andb_false_r. }
  assert ((after <? minute * k) && (wall (fixed_zone o) after <? wall (fixed_zone o) (minute * k)) = true) as ->.
  { apply andb_true_iff. rewrite !Z.ltb_lt. split; [done|]. rewrite wall_floor. apply wall_mono.
    unfold minute, second in *. zlia. }
  split; [done|]. unfold cron_match, t_Month. rewrite fixed_day, fixed_hour, fixed_minute. fold n. by rewrite Em, Ed, Eh, Ei.
Qed.

Lemma next_loop_fixed c after limit fuel k :
  after < minute * k -> (0 < fuel)%nat -> limit <= minute * (k + Z.of_nat fuel - 1) ->
  exists r, next_loop c (fixed_zone o) fuel after limit (minute * k) = Some r /\
    match r with
    | Some t => exists j, t = minute * j /\ k <= j /\ t < limit /\ cron_match c (fixed_zone o) t = true /\
        forall i, k <= i < j -> cron_match c (fixed_zone o) (minute * i) = false
    | None => forall i, k <= i -> minute * i < limit -> cron_match c (fixed_zone o) (minute * i) = false
    end.
Proof.
  assert (0 < minute) as Hpos by done.
  revert k. induction fuel as [|fuel IH]; intros k Ha Hf0 Hf; cbn [next_loop]; [lia|].
  destruct (Z.ltb_spec (minute * k) limit) as [Hlt|Hge].
  2: { exists None. split; [done|]. intros i Hi Hil. nia. }
  pose proof (next_step_fixed c after k Ha) as Hstep.
  destruct (next_step _ _ _ _) as [t'|r].
  - destruct Hstep as (k' & -> & Hk & Hno).
    destruct (IH k') as (r & Hr & Hspec); [nia|nia|nia|]. exists r. split; [done|].
    destruct r as [t|].
    + destruct Hspec as (j & -> & Hj & Hjl & Hm & Hi). exists j. split_and!; [done|lia|done|done|].
      intros i Hi'. destruct (decide (i < k')); [apply Hno; lia|apply Hi; lia].
    + intros i Hi Hil. destruct (decide (i < k')); [apply Hno; lia|apply Hspec; lia].
  - destruct Hstep as [-> Hm]. exists (Some (minute * k)). split; [done|]. exists k.
    split_and!; [done|lia|done|done|]. intros i Hi. lia.
Qed.
End fixed.

(** C36: in a zone without transitions whose offset is a whole number [o] of
    minutes, such as UTC, [Next] always terminates
    and returns the first whole minute after [after] whose wall clock
    satisfies the expression, or the zero time exactly when no minute before
    the five-year limit does; one round per minute of that span is enough
    fuel. *)
Theorem Next_first c o after fuel :
  let loc := fixed_zone o in
  let limit := next_limit loc after in
  Z.max 0 (limit - after) / minute + 2 <= Z.of_nat fuel ->
  exists r, Next c loc fuel after = Some r /\
    match r with
    | Some t => after < t < limit /\ t mod minute = 0 /\ cron_match c loc t = true /\
        forall u, u mod minute = 0 -> after < u < t -> cron_match c loc u = false
    | None => forall u, u mod minute = 0 -> after < u < limit -> cron_match c loc u = false
    end.
Proof.
  cbv zeta. intros Hf. unfold Next. set (limit := next_limit _ _) in *.
  assert (next_start after = minute * (after / minute + 1)) as Hs.
  { unfold next_start, Truncate. pose proof (Z.div_mod after minute ltac:(done)). lia. }
  pose proof (Z.mod_pos_bound after minute ltac:(done)) as Hmod.
  pose proof (Z.div_mod after minute ltac:(done)) as Hdiv.
  assert (0 < minute) as Hpos by done.
  assert (Hk : forall u, u mod minute = 0 -> after < u -> exists i, u = minute * i /\ after / minute + 1 <= i).
  { intros u Hu Hau. exists (u / minute). pose proof (Z.div_mod u minute ltac:(done)). split; [lia|]. nia. }
  rewrite Hs. destruct (next_loop_fixed o c after limit fuel (after / minute + 1)) as (r & Hr & Hspec).
  - nia.
  - assert (0 <= Z.max 0 (limit - after) / minute) by (apply Z.div_pos; lia). lia.
  - pose proof (Z.div_mod (Z.max 0 (limit - after)) minute ltac:(done)).
    pose proof (Z.mod_pos_bound (Z.max 0 (limit - after)) minute ltac:(done)). nia.
  - exists r. split; [done|]. destruct r as [t|].
    + destruct Hspec as (j & -> & Hj & Hjl & Hm & Hi). split_and!; [nia|done| |done|].
      * rewrite Z.mul_comm. apply Z.mod_mul. done.
      * intros u Hu [Hau Hut]. destruct (Hk u Hu Hau) as (i & -> & Hi'). apply Hi. nia.
    + intros u Hu [Hau Hul]. destruct (Hk u Hu Hau) as (i & -> & Hi'). by apply Hspec.
Qed.

(** ** A zone whose clock skips midnight *)

(** A candidate the loop returns to keeps it forever. *)
Lemma next_loop_stuck c loc after limit t :
  next_step c loc after t = inl t -> t < limit -> forall fuel, next_loop c loc fuel after limit t = None.
Proof.
  intros Hs Ht fuel. induction fuel as [|fuel IH]; cbn [next_loop]; [done|].
  destruct (Z.ltb_spec t limit); [|lia]. by rewrite Hs.
Qed.

(** America/Santiago around 2025-09-07: standard time is UTC-4, and at
    04:00 UTC the clocks go from 00:00 to 01:00, UTC-3. *)
Definition santiago : Location := mkLocation (-14400) [(day_number 2025 9 7 * 86400 + 14400, -10800)].
Definition mondays_at_noon : Cron := mkCron "0 12 * * 1" 1 4096 4294967294 8190 2 true false.
(** Friday 2025-09-05, 12:00 UTC. *)
Definition friday_noon : Z := (day_number 2025 9 5 * 86400 + 43200) * second.
(** Saturday 2025-09-06, 23:00 in Santiago. *)
Definition saturday_night : Z := (day_number 2025 9 7 * 86400 + 10800) * second.

(** [Next] does not terminate for every location: for the valid
    expression of Mondays at noon, from a Friday in the week Chile's clocks
    skip Sunday's midnight, [time.Date] resolves Sunday 00:00 to Saturday
    23:00, the loop comes back to the same candidate, and no number of rounds
    returns. *)
Theorem Next_never_returns :
  ParseCron "0 12 * * 1" = Ok mondays_at_noon /\
  forall fuel, Next mondays_at_noon santiago fuel friday_noon = None.
Proof.
  split; [by vm_compute|]. intros fuel.
  assert (forall n, next_loop mondays_at_noon santiago n friday_noon (next_limit santiago friday_noon) saturday_night = None)
    as Hstuck by (apply next_loop_stuck; by vm_compute).
  unfold Next.
  assert (exists t1, next_start friday_noon < next_limit santiago friday_noon /\
    next_step mondays_at_noon santiago friday_noon (next_start friday_noon) = inl t1 /\
    t1 < next_limit santiago friday_noon /\
    next_step mondays_at_noon santiago friday_noon t1 = inl saturday_night) as (t1 & H0 & H1 & H2 & H3).
  { eexists. split_and!; [by vm_compute|vm_compute; reflexivity|by vm_compute|by vm_compute]. }
  destruct fuel as [|[|fuel]]; [done| |]; cbn [next_loop].
  - destruct (Z.ltb_spec (next_start friday_noon) (next_limit santiago friday_noon)); [|lia]. by rewrite H1.
  - destruct (Z.ltb_spec (next_start friday_noon) (next_limit santiago friday_noon)); [|lia]. rewrite H1.
    destruct (Z.ltb_spec t1 (next_limit santiago friday_noon)); [|lia]. rewrite H3. apply Hstuck.
Qed.

(** ** Witnesses *)

Lemma cronField_correct_witness :
  exists bits star, cronField "*/15,7" 0 59 = Ok (bits, star) /\ Z.testbit bits 45 = true /\
    exists part, part ∈ str_split "," "*/15,7" /\ selects 0 59 part 45.
Proof.
  pose proof (cronField_correct "*/15,7" 0 59 ltac:(lia)) as H.
  destruct (cronField "*/15,7" 0 59) as [[bits star]|e] eqn:E; [|vm_compute in E; discriminate].
  exists bits, star. destruct H as (_ & Hspec & _). split; [reflexivity|].
  assert (Hb : Z.testbit bits 45 = true) by (vm_compute in E; injection E as <- _; reflexivity).
  split; [exact Hb|]. apply Hspec; [lia|exact Hb].
Defined.

(** From 2025-09-05 12:00 UTC, the next Monday at noon is 2025-09-08. *)
Lemma Next_first_witness :
  exists r, Next mondays_at_noon (fixed_zone 0) (Z.to_nat 3000000) friday_noon = Some r.
Proof.
  destruct (Next_first mondays_at_noon 0 friday_noon (Z.to_nat 3000000)) as (r & Hr & _).
  - rewrite Z2Nat.id by done. vm_compute. discriminate.
  - exists r. exact Hr.
Defined.
