(* ===== verification/StageMachine.v ===== *)
(** * Stage machines (dynamic/stage_machine.go, manifest/validate.go)

    A model may declare the stages of its records, the moves allowed between
    them and the hooks of a move.  The gate every write passes, the columns a
    hook stamps, the lock of a stage, the hooks' dispatch, the validation of
    a declaration, and the life of one record under creates and updates. *)

From Stdlib Require Import Floats.SpecFloat.
From stdpp Require Import gmap.
From S2P Require Import Prelude GoStrings.

(** ** Values *)

(** A value of [map[string]any]: nil, a string, a [[]byte], a
    [json.RawMessage], a Stringer with its text, a [[]string], a [[]any], a
    bool, a float64. *)
Inductive gval : Type :=
| GNil | GStr (s : string) | GBytes (s : string) | GRaw (s : string) | GStringer (s : string)
| GStrs (l : list string) | GAnys (l : list gval) | GBool (b : bool) | GFloat (f : spec_float).

(** What the code uses of fmt, strconv and encoding/json: the [%v] text of a
    value, [ParseFloat], [FormatFloat(f, 'f', -1, 64)] and the decoding of a
    JSON array of strings.  Nothing is assumed of them. *)
Class GoFormat := {
  sprint_v : gval -> string;
  parse_float : string -> option spec_float;
  format_float : spec_float -> string;
  unmarshal_strings : string -> option (list string)
}.

(** [reflect.DeepEqual]. *)
Fixpoint deep_equal (a b : gval) : bool :=
  match a, b with
  | GNil, GNil => true
  | GStr s, GStr t | GBytes s, GBytes t | GRaw s, GRaw t | GStringer s, GStringer t => String.eqb s t
  | GStrs l, GStrs k => bool_decide (l = k)
  | GAnys l, GAnys k =>
      (fix go (l k : list gval) : bool :=
         match l, k with
         | [], [] => true
         | x :: l, y :: k => deep_equal x y && go l k
         | _, _ => false
         end) l k
  | GBool x, GBool y => Bool.eqb x y
  | GFloat x, GFloat y => SFeqb x y
  | _, _ => false
  end.

(** A row or an input; [record[key]] of a missing key is nil. *)
Abbreviation row := (gmap string gval).
Definition get (r : row) (key : string) : gval := default GNil (r !! key).

Section values.
Context `{GoFormat}.

Definition stringifyStatus (v : gval) : string :=
  match v with
  | GNil => ""
  | GStr s | GBytes s | GStringer s => s
  | _ => sprint_v v
  end.
Definition StageValue (v : gval) : string := stringifyStatus v.

Definition decodeJSONStringArray (b : string) : option (list string) :=
  if String.eqb b "" then Some [] else unmarshal_strings b.

Fixpoint strings_of (l : list gval) : option (list string) :=
  match l with
  | [] => Some []
  | GStr s :: l => k ← strings_of l; Some (s :: k)
  | _ :: _ => None
  end.

Definition asStringSlice (v : gval) : option (list string) :=
  match v with
  | GNil => Some []
  | GStrs l => Some l
  | GAnys l => strings_of l
  | GRaw b | GBytes b => decodeJSONStringArray b
  | _ => None
  end.

(** ** Unchanged values (dynamic/validate.go) *)

Definition isNumeric (v : gval) : bool :=
  match v with
  | GFloat _ => true
  | GStr s => match parse_float (TrimSpace s) with Some _ => true | None => false end
  | _ => false
  end.

Definition valueToString (v : gval) : string :=
  match v with
  | GStr s => TrimSpace s
  | GFloat f => format_float f
  | GBool b => if b then "true" else "false"
  | GNil => ""
  | _ => TrimSpace (sprint_v v)
  end.

(** Values carry no pointers here, so [derefRaw] is the identity. *)
Definition unchangedFromPersisted (raw : gval) (before : row) (name : string) : bool :=
  match before !! name with
  | None => false
  | Some prev =>
      match raw, prev with
      | GNil, GNil => true
      | GNil, _ | _, GNil => false
      | _, _ =>
          let texts := String.eqb (valueToString raw) (valueToString prev) in
          if isNumeric raw && isNumeric prev then
            match parse_float (valueToString raw), parse_float (valueToString prev) with
            | Some a, Some b => SFeqb a b
            | _, _ => texts
            end
          else texts
      end
  end.

Definition managedColumns : gset string :=
  {["id"; "created_at"; "updated_at"; "deleted_at"; "organization_id"; "created_by_id"; "updated_by_id";
    "deleted_by_id"]}%string.

(** ** The machine *)

Record StageDef := mkStageDef {
  sKey : string; sLabel : string; sColor : string; sOrder : Z; sIsFinal : bool; sLocked : bool
}.
Record TransitionDef := mkTransitionDef { tFrom : string; tTo : string }.
Record TransitionHookDef := mkTransitionHookDef {
  hFrom : string; hTo : string; hSet : row; hDo : string; hRequired : bool
}.
Record StageMachine := mkStageMachine {
  smField : string; smStages : list StageDef; smTransitions : list TransitionDef;
  smOnTransition : list TransitionHookDef
}.

Definition active (sm : option StageMachine) : bool :=
  match sm with
  | None => false
  | Some sm => negb (String.eqb (smField sm) "") && negb (bool_decide (length (smStages sm) = 0%nat))
  end.

Definition hasStage (sm : StageMachine) (key : string) : bool :=
  if String.eqb key "" then false else existsb (fun s => String.eqb (sKey s) key) (smStages sm).

Definition Allows (sm : StageMachine) (from to : string) : bool :=
  if String.eqb from to then true
  else if negb (hasStage sm from) then hasStage sm to
  else existsb (fun t => String.eqb (tFrom t) from && String.eqb (tTo t) to) (smTransitions sm).

Definition stageBoundMatches (bound stage : string) : bool :=
  String.eqb bound "*" || String.eqb bound "" || String.eqb bound stage.

Definition MatchingHooks (sm : StageMachine) (from to : string) : list TransitionHookDef :=
  List.filter (fun h => stageBoundMatches (hFrom h) from && stageBoundMatches (hTo h) to) (smOnTransition sm).

(** ** Stamping columns *)

(** The tag of a ["+tag"] or ["-tag"] string, with its sign. *)
Definition tag_of (val : gval) : option (bool * string) :=
  match val with
  | GStr (String c tag) =>
      if Ascii.eqb c "+" then Some (true, tag) else if Ascii.eqb c "-" then Some (false, tag) else None
  | _ => None
  end.

Definition assign_value (record : row) (key : string) (val : gval) : row * bool :=
  if deep_equal (get record key) val then (record, false) else (<[key := val]> record, true).

Definition applySetValue (record : row) (key : string) (val : gval) : row * bool :=
  match tag_of val with
  | Some (plus, tag) =>
      match asStringSlice (get record key) with
      | Some cur =>
          if (plus : bool) then
            if existsb (fun e => String.eqb e tag) cur then (record, false)
            else (<[key := GStrs (cur ++ [tag])]> record, true)
          else
            if existsb (fun e => String.eqb e tag) cur then
              (<[key := GStrs (List.filter (fun e => negb (String.eqb e tag)) cur)]> record, true)
            else (record, false)
      | None => assign_value record key val
      end
  | None => assign_value record key val
  end.

(** The entries of one [set] block, in the order the map is ranged over. *)
Fixpoint apply_set (entries : list (string * gval)) (st : row * bool) : row * bool :=
  match entries with
  | [] => st
  | (key, val) :: entries =>
      let '(record, changed) := st in
      let '(record, c) := applySetValue record key val in
      apply_set entries (record, changed || c)
  end.

(** The loop over the hooks; [orders] gives each map's order. *)
Fixpoint apply_hooks (orders : list (list (string * gval))) (st : row * bool) : row * bool :=
  match orders with
  | [] => st
  | entries :: orders => apply_hooks orders (apply_set entries st)
  end.

(** The order of [map_to_list] stands for the one Go draws. *)
Definition ApplyTransitionSets (sm : option StageMachine) (from to : string) (record : row) : row * bool :=
  match sm with
  | None => (record, false)
  | Some sm => apply_hooks (map (fun h => map_to_list (hSet h)) (MatchingHooks sm from to)) (record, false)
  end.

(** ** The gate *)

Inductive stage_error : Type :=
| ErrInvalidTransition (from to : string)
| ErrIncremented
| ErrRecordLocked (columns : gset string) (stage : string)
| ErrHook (do_ : string).

(** [fromStage, toStage, changed]; the error carries the first two. *)
Definition GateTransition (sm : option StageMachine) (before : option row) (input : row) :
    result stage_error (string * string * bool) :=
  match sm with
  | Some m =>
      if negb (active sm) then Ok (""%string, ""%string, false) else
      let fromStage := match before with Some b => stringifyStatus (get b (smField m)) | None => ""%string end in
      let toStage := match input !! smField m with Some v => stringifyStatus v | None => fromStage end in
      if String.eqb toStage fromStage then Ok (fromStage, toStage, false)
      else if negb (Allows m fromStage toStage) then Err (ErrInvalidTransition fromStage toStage)
      else Ok (fromStage, toStage, true)
  | None => Ok (""%string, ""%string, false)
  end.

Definition GateWrite (sm : option StageMachine) (before : option row) (data inc : row) : result stage_error unit :=
  match sm with
  | Some m =>
      if negb (active sm) then Ok tt
      else match inc !! smField m with
           | Some _ => Err ErrIncremented
           | None => _ ← GateTransition sm before data; Ok tt
           end
  | None => Ok tt
  end.

(** ** The lock of a stage *)

Fixpoint first_stage (stages : list StageDef) (stage : string) : option StageDef :=
  match stages with
  | [] => None
  | s :: stages => if String.eqb (sKey s) stage then Some s else first_stage stages stage
  end.

Definition LockedAt (sm : StageMachine) (stage : string) : bool :=
  if negb (active (Some sm)) || String.eqb stage "" then false
  else match first_stage (smStages sm) stage with Some s => sLocked s | None => false end.

(** The columns of [input] that change a locked row. *)
Definition lock_broken (sm : StageMachine) (before input : row) : gset string :=
  dom (filter (fun e : string * gval =>
    negb (String.eqb e.1 (smField sm) || String.eqb e.1 "id" || bool_decide (e.1 ∈ managedColumns) ||
          unchangedFromPersisted e.2 before e.1) = true) input).

Definition CheckStageLock (sm : option StageMachine) (before : option row) (input : row) : result stage_error unit :=
  match sm, before with
  | Some m, Some b =>
      let from := StageValue (get b (smField m)) in
      if negb (LockedAt m from) then Ok tt
      else if bool_decide (lock_broken m b input = ∅) then Ok tt
      else Err (ErrRecordLocked (lock_broken m b input) from)
  | _, _ => Ok tt
  end.

Definition CheckStageLockDelete (sm : option StageMachine) (before : option row) : result stage_error unit :=
  match sm, before with
  | Some m, Some b =>
      let from := StageValue (get b (smField m)) in
      if negb (LockedAt m from) then Ok tt else Err (ErrRecordLocked {[smField m]} from)
  | _, _ => Ok tt
  end.

(** ** requires_state (dynamic/action.go) *)

Definition rowLifecycleState (r : row) (field : string) : string :=
  if negb (String.eqb field "") then stringifyStatus (get r field)
  else if negb (String.eqb (stringifyStatus (get r "status")) "") then stringifyStatus (get r "status")
  else stringifyStatus (get r "state").

Definition checkRequiresState (r : row) (field : string) (allowed : list string) : bool :=
  existsb (fun s => String.eqb s (rowLifecycleState r field)) allowed.

(** ** Dispatching the hooks *)

(** [dispatchers] are the prefixes with an [ActionDispatcher]; [answers n] is
    what the [n]-th dispatch returns: an error, or whether it succeeded.
    The hooks dispatched come first. *)
Fixpoint run_hooks (dispatchers : gset string) (answers : nat -> result unit bool) (n : nat)
    (hooks : list TransitionHookDef) : list TransitionHookDef * result stage_error unit :=
  match hooks with
  | [] => ([], Ok tt)
  | h :: hooks =>
      let rest := run_hooks dispatchers answers in
      let failed := if hRequired h then ([], Err (ErrHook (hDo h))) else rest n hooks in
      match cut ":" (hDo h) with
      | None => failed
      | Some (prefix, _) =>
          if negb (bool_decide (prefix ∈ dispatchers)) then failed
          else
            let '(l, r) := match answers n with
                           | Ok true => rest (S n) hooks
                           | _ => if hRequired h then ([], Err (ErrHook (hDo h))) else rest (S n) hooks
                           end in
            (h :: l, r)
      end
  end.

Definition runTransitionHooks (dispatchers : gset string) (answers : nat -> result unit bool)
    (sm : StageMachine) (from to : string) : list TransitionHookDef * result stage_error unit :=
  run_hooks dispatchers answers 0 (MatchingHooks sm from to).

(** ** The stage machine's part of Service.Update (dynamic/service.go) *)

(** [for k := range h.Set { input[k] = merged[k] }] over the hooks. *)
Definition fold_back (hooks : list TransitionHookDef) (merged input : row) : row :=
  foldl (fun acc k => <[k := get merged k]> acc) input (concat (map (fun h => elements (dom (hSet h))) hooks)).

(** The input to persist and the move; [resolveStageMachine] gave [sm]. *)
Definition Update_stage (sm : option StageMachine) (before input : row) :
    result stage_error (row * (string * string * bool)) :=
  _ ← CheckStageLock sm (Some before) input;
  match sm with
  | None => Ok (input, (""%string, ""%string, false))
  | Some m =>
      '(from, to, changed) ← GateTransition sm (Some before) input;
      if (changed : bool) then
        let '(merged, stamped) := ApplyTransitionSets sm from to (input ∪ before) in
        Ok (if (stamped : bool) then fold_back (MatchingHooks m from to) merged input else input, (from, to, changed))
      else Ok (input, (from, to, changed))
  end.
End values.

(** ** Validating a declaration (manifest/validate.go) *)

Definition validHookPrefixes : gset string := {["wasm"; "webhook"; "compiled"]}%string.

Definition stage_bound_ok (keys : list string) (bound : string) : bool :=
  String.eqb bound "*" || bool_decide (bound ∈ keys).

Definition hook_ok (keys columns : list string) (h : TransitionHookDef) : bool :=
  (String.eqb (hFrom h) "" || stage_bound_ok keys (hFrom h)) && stage_bound_ok keys (hTo h) &&
  negb (String.eqb (hDo h) "" && bool_decide (hSet h = ∅)) &&
  forallb (fun c => bool_decide (c ∈ columns)) (elements (dom (hSet h))) &&
  (String.eqb (hDo h) "" ||
   match cut ":" (hDo h) with Some (prefix, _) => bool_decide (prefix ∈ validHookPrefixes) | None => false end).

(** [columns] are the model's; true when the Go function returns nil. *)
Definition validateStageMachine (columns : list string) (sm : StageMachine) : bool :=
  let keys := map sKey (smStages sm) in
  if bool_decide (length (smStages sm) = 0%nat) && String.eqb (smField sm) "" &&
     bool_decide (length (smTransitions sm) = 0%nat) && bool_decide (length (smOnTransition sm) = 0%nat)
  then true
  else
    negb (String.eqb (smField sm) "") && bool_decide (smField sm ∈ columns) &&
    negb (bool_decide (length (smStages sm) = 0%nat)) &&
    forallb (fun k => negb (String.eqb k "")) keys && bool_decide (NoDup keys) &&
    forallb (fun t => bool_decide (tFrom t ∈ keys) && bool_decide (tTo t ∈ keys)) (smTransitions sm) &&
    forallb (hook_ok keys columns) (smOnTransition sm).

(** ** Facts *)

Section theorems.
Context `{GoFormat}.

Lemma hasStage_spec sm key : hasStage sm key = true <-> key <> ""%string /\ key ∈ map sKey (smStages sm).
Proof.
  unfold hasStage. destruct (String.eqb_spec key "") as [->|Hne]; [naive_solver|].
  rewrite existsb_exists, list_elem_of_fmap. setoid_rewrite <- list_elem_of_In.
  setoid_rewrite String.eqb_eq. naive_solver.
Qed.

(** Over non-empty stage keys the rule reads: no move, a placement of a row
    that has no declared stage, or a declared transition. *)
Lemma Allows_spec sm from to :
  Allows sm from to = true <->
  from = to \/ (hasStage sm from = false /\ hasStage sm to = true) \/
  (hasStage sm from = true /\ mkTransitionDef from to ∈ smTransitions sm).
Proof.
  unfold Allows. destruct (String.eqb_spec from to) as [->|Hne]; [naive_solver|].
  destruct (hasStage sm from) eqn:Ef; cbn [negb].
  - rewrite existsb_exists. setoid_rewrite andb_true_iff. setoid_rewrite String.eqb_eq.
    split; [intros ([f t] & Hin%list_elem_of_In & [Hf Ht]); cbn in *; subst; auto|].
    intros [?|[[? _]|[_ Hin]]]; try done. exists (mkTransitionDef from to). by rewrite <- list_elem_of_In.
  - naive_solver.
Qed.

(** *** Stamping *)

(** What one entry makes of the column's value; [None]: no change. *)
Definition new_value (cur val : gval) : option gval :=
  let direct := if deep_equal cur val then None else Some val in
  match tag_of val with
  | Some (plus, tag) =>
      match asStringSlice cur with
      | Some l =>
          if (plus : bool) then
            if existsb (fun e => String.eqb e tag) l then None else Some (GStrs (l ++ [tag]))
          else
            if existsb (fun e => String.eqb e tag) l
            then Some (GStrs (List.filter (fun e => negb (String.eqb e tag)) l)) else None
      | None => direct
      end
  | None => direct
  end.

Lemma applySetValue_eq record key val :
  applySetValue record key val =
  match new_value (get record key) val with
  | Some v => (<[key := v]> record, true)
  | None => (record, false)
  end.
Proof.
  unfold applySetValue, new_value, assign_value. destruct (tag_of val) as [[[] tag]|];
    [destruct (asStringSlice _) as [l|]; [by destruct (existsb _ l)|by destruct (deep_equal _ _)]..|by destruct (deep_equal _ _)].
Qed.

Lemma get_insert_ne r k1 k2 v : k1 <> k2 -> get (<[k1 := v]> r) k2 = get r k2.
Proof. intros Hne. unfold get. by rewrite lookup_insert_ne. Qed.

Definition stamp (e : string * gval) (st : row * bool) : row * bool :=
  match new_value (get st.1 e.1) e.2 with
  | Some v => (<[e.1 := v]> st.1, true)
  | None => st
  end.

Lemma apply_set_cons e es st : apply_set (e :: es) st = apply_set es (stamp e st).
Proof.
  destruct e as [k v], st as [record changed]. unfold stamp. cbn [apply_set fst snd]. rewrite applySetValue_eq.
  destruct (new_value _ v); [by rewrite orb_true_r|by rewrite orb_false_r].
Qed.

Lemma stamp_swap e1 e2 st : e1.1 <> e2.1 -> stamp e1 (stamp e2 st) = stamp e2 (stamp e1 st).
Proof.
  destruct e1 as [k1 v1], e2 as [k2 v2], st as [record changed]. unfold stamp. cbn [fst snd]. intros Hne.
  destruct (new_value (get record k2) v2) as [w2|] eqn:E2, (new_value (get record k1) v1) as [w1|] eqn:E1;
    cbn [fst snd]; rewrite ?get_insert_ne, ?E1, ?E2 by done; try done.
  by rewrite insert_insert_ne.
Qed.

Lemma apply_set_perm es es' st : es ≡ₚ es' -> NoDup es.*1 -> apply_set es st = apply_set es' st.
Proof.
  intros Hp. revert st. induction Hp as [|e es es' Hp IH|e1 e2 es|es1 es2 es3 Hp1 IH1 Hp2 IH2]; intros st Hn.
  - done.
  - rewrite !apply_set_cons. apply IH. by apply NoDup_cons in Hn as [_ ?].
  - rewrite !apply_set_cons, stamp_swap; [done|]. cbn in Hn. apply NoDup_cons in Hn as [Hn _]. set_solver.
  - rewrite IH1 by done. apply IH2. by rewrite <- Hp1.
Qed.

(** Stamping does not depend on the order Go draws for its maps: whatever
    order the entries of each matching hook's [set] are taken in, the record
    and the "changed" answer are the same. *)
Theorem sets_order_irrelevant sm from to record orders :
  Forall2 (fun h entries => entries ≡ₚ map_to_list (hSet h)) (MatchingHooks sm from to) orders ->
  apply_hooks orders (record, false) = ApplyTransitionSets (Some sm) from to record.
Proof.
  unfold ApplyTransitionSets. intros Ho. generalize (record, false).
  induction Ho as [|h es hooks orders Hp _ IH]; intros st; [done|].
  cbn [apply_hooks map]. rewrite (apply_set_perm es (map_to_list (hSet h))); [apply IH|done|].
  rewrite Hp. apply NoDup_fst_map_to_list.
Qed.

(** *** The life of a record *)

Definition stage_of (sm : StageMachine) (r : row) : string := stringifyStatus (get r (smField sm)).

(** A stamp that writes the stage column itself. *)
Definition stamps_stage (sm : StageMachine) : bool :=
  existsb (fun h => bool_decide (smField sm ∈ dom (hSet h))) (smOnTransition sm).

Lemma fold_back_other hooks merged input k :
  (forall h, h ∈ hooks -> k ∉ dom (hSet h)) -> fold_back hooks merged input !! k = input !! k.
Proof.
  intros Hk. unfold fold_back.
  assert (k ∉ concat (map (fun h => elements (dom (hSet h))) hooks)) as Hc.
  { rewrite list_elem_of_In, in_concat. intros (l & Hl & Hin). apply in_map_iff in Hl as (h & <- & Hh).
    apply (Hk h); [by apply list_elem_of_In|]. by apply elem_of_elements, list_elem_of_In. }
  revert input Hc. generalize (concat (map (fun h => elements (dom (hSet h))) hooks)).
  intros l. induction l as [|x l IH]; intros input Hc; [done|]. cbn [foldl].
  rewrite IH by set_solver. apply lookup_insert_ne. set_solver.
Qed.

Lemma MatchingHooks_in sm from to h : h ∈ MatchingHooks sm from to -> h ∈ smOnTransition sm.
Proof. unfold MatchingHooks. rewrite !list_elem_of_In, filter_In. tauto. Qed.

Lemma stamps_stage_false sm from to h :
  stamps_stage sm = false -> h ∈ MatchingHooks sm from to -> smField sm ∉ dom (hSet h).
Proof.
  intros Hs Hh%MatchingHooks_in Hin. assert (stamps_stage sm = true) as Ht; [|congruence].
  unfold stamps_stage. rewrite existsb_exists. exists h. rewrite <- list_elem_of_In. by rewrite bool_decide_true.
Qed.

(** The stage a write leads to, and that the gate admitted it. *)
Lemma GateTransition_Ok sm before input from to changed :
  active (Some sm) = true -> GateTransition (Some sm) (Some before) input = Ok (from, to, changed) ->
  from = stage_of sm before /\ to = stage_of sm (input ∪ before) /\ Allows sm from to = true /\
  changed = negb (String.eqb to from).
Proof.
  intros Ha. unfold GateTransition. rewrite Ha. cbn [negb].
  set (f := stringifyStatus (get before (smField sm))).
  assert (match input !! smField sm with Some v => stringifyStatus v | None => f end = stage_of sm (input ∪ before)) as ->.
  { unfold stage_of, get, f, get. rewrite lookup_union. destruct (input !! smField sm), (before !! smField sm); done. }
  destruct (String.eqb_spec (stage_of sm (input ∪ before)) f) as [E|E].
  - intros [= <- <- <-]. rewrite E. split_and!; [done..|unfold Allows|]; by rewrite String.eqb_refl.
  - destruct (Allows sm f _) eqn:Eal; [|done]. intros [= <- <- <-]. split_and!; [done..|].
    apply String.eqb_neq in E. by rewrite E.
Qed.

Lemma Update_stage_Allows sm before input input' move input2 :
  active (Some sm) = true -> stamps_stage sm = false -> Update_stage (Some sm) before input = Ok (input', move) ->
  input2 !! smField sm = input' !! smField sm -> Allows sm (stage_of sm before) (stage_of sm (input2 ∪ before)) = true.
Proof.
  intros Ha Hst Hu E2. unfold Update_stage in Hu.
  apply bind_Ok in Hu as ([] & _ & Hu). apply bind_Ok in Hu as ([[from to] changed] & Hg & Hu).
  destruct (GateTransition_Ok _ _ _ _ _ _ Ha Hg) as (-> & -> & Hal & _).
  assert (stage_of sm (input2 ∪ before) = stage_of sm (input ∪ before)) as ->; [|done].
  enough (input' !! smField sm = input !! smField sm) as E.
  { unfold stage_of, get. by rewrite !lookup_union, E2, E. }
  destruct changed; [|by injection Hu as <- _].
  destruct (ApplyTransitionSets _ _ _ _) as [merged [] ]; injection Hu as <- _; [|done].
  apply fold_back_other. intros h. by apply stamps_stage_false.
Qed.

Definition declared (sm : StageMachine) (stage : string) : Prop := stage = ""%string \/ hasStage sm stage = true.

Lemma validated_transition columns sm t :
  validateStageMachine columns sm = true -> t ∈ smTransitions sm ->
  hasStage sm (tFrom t) = true /\ hasStage sm (tTo t) = true.
Proof.
  unfold validateStageMachine. destruct (_ && _ && _ && _) eqn:E0.
  { rewrite !andb_true_iff, !bool_decide_eq_true in E0. destruct E0 as [[_ Ht%nil_length_inv] _].
    rewrite Ht. intros _ Hin. by apply not_elem_of_nil in Hin. }
  rewrite !andb_true_iff, !forallb_forall. intros [[[[_ Hk] _] Ht] _] Hin.
  specialize (Ht t (proj1 (list_elem_of_In _ _) Hin)). apply andb_true_iff in Ht as [H1%bool_decide_eq_true H2%bool_decide_eq_true].
  rewrite !hasStage_spec.
  assert (forall k, k ∈ map sKey (smStages sm) -> k <> ""%string) as Hne.
  { intros k Hin'%list_elem_of_In. specialize (Hk k Hin'). by apply negb_true_iff, String.eqb_neq in Hk. }
  auto.
Qed.

Lemma move_declared sm columns from to :
  validateStageMachine columns sm = true -> declared sm from -> Allows sm from to = true -> declared sm to.
Proof.
  intros Hv Hd Hal. apply Allows_spec in Hal as [<-|[[_ ?]|[_ Ht]]]; [done|by right|].
  right. by apply (validated_transition _ _ _ Hv Ht).
Qed.

(** *** One record under concurrent updates

    An update loads the row, passes the gate on what it loaded and saves the
    whole row later, but for the columns the save omits; other updates load
    and save in between unless the model's constraints lock the row. *)
Record update_in_flight := mkUpdateInFlight { uBefore : row; uAfter : row }.
Record record_state := mkRecordState { rRow : row; rFlight : gmap nat update_in_flight }.

Section record_life.
Variable sm : StageMachine.
(** [locked]: [mc.locksRows()].  [between input input'] when the code between
    the gate and the save (coercion, stamps, hooks, audit columns) may make
    [input'] of the input; also of a create's. *)
Variable locked : bool.
Variable between : row -> row -> Prop.

Inductive update_step : record_state -> record_state -> Prop :=
| update_load d k input input' input2 move :
    rFlight d !! k = None -> (locked = true -> rFlight d = ∅) ->
    Update_stage (Some sm) (rRow d) input = Ok (input', move) -> between input' input2 ->
    update_step d (mkRecordState (rRow d) (<[k := mkUpdateInFlight (rRow d) (input2 ∪ rRow d)]> (rFlight d)))
| update_save d k u (omitted : gset string) :
    rFlight d !! k = Some u ->
    update_step d (mkRecordState (filter (fun e : string * gval => e.1 ∉ omitted) (uAfter u) ∪ rRow d) (delete k (rFlight d)))
| update_fail d k : update_step d (mkRecordState (rRow d) (delete k (rFlight d))).

Definition created (d : record_state) : Prop :=
  exists input input', GateWrite (Some sm) None input ∅ = Ok tt /\ between input input' /\ d = mkRecordState input' ∅.

(** A stage stays, a record without stage is placed, or a transition is made. *)
Definition move_ok (from to : string) : Prop :=
  to = from \/ (from = ""%string /\ hasStage sm to = true) \/ mkTransitionDef from to ∈ smTransitions sm.

Context (columns : list string) (Hvalid : validateStageMachine columns sm = true) (Hactive : active (Some sm) = true)
  (Hstamps : stamps_stage sm = false) (Hbetween : forall i j, between i j -> j !! smField sm = i !! smField sm).

Lemma Allows_move from to : declared sm from -> Allows sm from to = true -> move_ok from to.
Proof.
  intros Hd [E|[[Hn Ht]|[_ Ht]]]%Allows_spec; [by left|right; left|by right; right].
  split; [|done]. destruct Hd as [|Hd]; [done|congruence].
Qed.

Record flight_inv (d : record_state) : Prop := mkFlightInv {
  fi_row : declared sm (stage_of sm (rRow d));
  fi_flight : forall k u, rFlight d !! k = Some u ->
    declared sm (stage_of sm (uAfter u)) /\ move_ok (stage_of sm (uBefore u)) (stage_of sm (uAfter u));
  fi_lock : locked = true -> forall k u, rFlight d !! k = Some u -> rFlight d = {[k := u]} /\ uBefore u = rRow d
}.

Lemma created_inv d : created d -> flight_inv d.
Proof.
  intros (input & input' & Hg & Hb%Hbetween & ->). split; cbn [rRow rFlight];
    [|intros k u Hk; by rewrite lookup_empty in Hk|intros _ k u Hk; by rewrite lookup_empty in Hk].
  unfold GateWrite in Hg. rewrite Hactive in Hg. cbn [negb] in Hg. rewrite lookup_empty in Hg.
  apply bind_Ok in Hg as ([[from to] ch] & Hg & _). unfold GateTransition in Hg. rewrite Hactive in Hg. cbn [negb] in Hg.
  unfold stage_of, get. rewrite Hb. destruct (input !! smField sm) as [v|]; [|by left]. cbn.
  destruct (String.eqb_spec (stringifyStatus v) "") as [E|E]; [by left|].
  destruct (Allows sm "" (stringifyStatus v)) eqn:Eal; [|done].
  apply (move_declared _ _ ""%string _ Hvalid); [by left|exact Eal].
Qed.

(** What a save stores is the stage it gated, or, when the column is omitted,
    the one on record. *)
Lemma saved_stage (omitted : gset string) after stored :
  stage_of sm (filter (fun e : string * gval => e.1 ∉ omitted) after ∪ stored) = stage_of sm stored \/
  stage_of sm (filter (fun e : string * gval => e.1 ∉ omitted) after ∪ stored) = stage_of sm after.
Proof.
  unfold stage_of, get. rewrite lookup_union. destruct (filter _ after !! smField sm) as [v|] eqn:E.
  - apply map_lookup_filter_Some in E as [-> _]. right. by destruct (stored !! smField sm).
  - left. by destruct (stored !! smField sm).
Qed.

Lemma update_step_inv d d' : flight_inv d -> update_step d d' -> flight_inv d'.
Proof.
  intros [Hrow Hfl Hlock] Hs. destruct Hs as [d k input input' input2 move Hk Hl Hu Hb|d k u omitted Hk|d k]; cbn [rRow rFlight] in *.
  - pose proof (Update_stage_Allows _ _ _ _ _ _ Hactive Hstamps Hu (Hbetween _ _ Hb)) as Hal. split; cbn [rRow rFlight]; [done| |].
    + intros j u [[<- <-]|[_ Hj]]%lookup_insert_Some; [|by eapply Hfl]. cbn [uBefore uAfter].
      split; [by eapply move_declared|by apply Allows_move].
    + intros L j u. rewrite (Hl L). intros [[<- <-]|[_ Hj]]%lookup_insert_Some; [done|by rewrite lookup_empty in Hj].
  - destruct (Hfl k u Hk) as [Hd _]. split; cbn [rRow rFlight].
    + by destruct (saved_stage omitted (uAfter u) (rRow d)) as [-> | ->].
    + intros j v [_ Hj]%lookup_delete_Some. by eapply Hfl.
    + intros L j v [Hne Hj]%lookup_delete_Some. destruct (Hlock L k u Hk) as [E _]. rewrite E in Hj.
      by apply lookup_singleton_Some in Hj as [? _].
  - split; cbn [rRow rFlight]; [done|intros j v [_ Hj]%lookup_delete_Some; by eapply Hfl|].
    intros L j v [Hne Hj]%lookup_delete_Some. destruct (Hlock L j v Hj) as [E Eb]. split; [|done].
    rewrite E, delete_singleton_ne by done. done.
Qed.
End record_life.


(** An update of a record in a locked stage that is accepted only moved its
    stage: every other column it sets is stamped by a hook of that move, is
    owned by the runtime, or is the persisted value sent again; and such a
    record cannot be deleted. *)
Theorem locked_stage_frozen sm before input input' move key v :
  active (Some sm) = true -> LockedAt sm (stage_of sm before) = true ->
  Update_stage (Some sm) before input = Ok (input', move) -> input' !! key = Some v ->
  (key = smField sm \/ key = "id"%string \/ key ∈ managedColumns \/ unchangedFromPersisted v before key = true \/
   exists h from to, move = (from, to, true) /\ h ∈ MatchingHooks sm from to /\ key ∈ dom (hSet h)) /\
  CheckStageLockDelete (Some sm) (Some before) = Err (ErrRecordLocked {[smField sm]} (stage_of sm before)).
Proof.
  intros Ha Hl Hu Hk. split.
  2: { unfold CheckStageLockDelete, StageValue. fold (stage_of sm before). by rewrite Hl. }
  unfold Update_stage in Hu. apply bind_Ok in Hu as ([] & Hc & Hu).
  apply bind_Ok in Hu as ([[from to] changed] & _ & Hu).
  assert (input !! key = Some v -> key = smField sm \/ key = "id"%string \/ key ∈ managedColumns \/
    unchangedFromPersisted v before key = true) as Hin.
  { intros Hin. unfold CheckStageLock, StageValue in Hc. fold (stage_of sm before) in Hc. rewrite Hl in Hc. cbn [negb] in Hc.
    destruct (bool_decide_reflect (lock_broken sm before input = ∅)) as [He|]; [|done].
    destruct (String.eqb key (smField sm) || String.eqb key "id" || bool_decide (key ∈ managedColumns) ||
      unchangedFromPersisted v before key) eqn:Eb.
    - rewrite !orb_true_iff, !String.eqb_eq, bool_decide_eq_true in Eb. tauto.
    - exfalso. assert (key ∈ lock_broken sm before input) as Hb; [|rewrite He in Hb; set_solver].
      unfold lock_broken. apply elem_of_dom. exists v. apply map_lookup_filter_Some. split; [done|].
      cbn [fst snd]. by rewrite Eb. }
  destruct changed; [|injection Hu as <- _; by specialize (Hin Hk); tauto].
  destruct (ApplyTransitionSets _ _ _ _) as [merged [] ]; injection Hu as <- <-; [|specialize (Hin Hk); tauto].
  destruct (decide (Exists (fun h => key ∈ dom (hSet h)) (MatchingHooks sm from to)))
    as [(h & Hh & Hd)%list.Exists_exists|Hno]; [|rewrite list.Exists_exists in Hno].
  - right; right; right; right. by exists h, from, to.
  - rewrite fold_back_other in Hk by naive_solver. specialize (Hin Hk). tauto.
Qed.

(** *** Hooks *)

Definition dispatchable (dispatchers : gset string) (h : TransitionHookDef) : bool :=
  match cut ":" (hDo h) with Some (prefix, _) => bool_decide (prefix ∈ dispatchers) | None => false end.

Lemma run_hooks_cons dispatchers answers n h hooks :
  run_hooks dispatchers answers n (h :: hooks) =
  if dispatchable dispatchers h then
    if bool_decide (answers n = Ok true) || negb (hRequired h) then
      (h :: (run_hooks dispatchers answers (S n) hooks).1, (run_hooks dispatchers answers (S n) hooks).2)
    else ([h], Err (ErrHook (hDo h)))
  else if hRequired h then ([], Err (ErrHook (hDo h))) else run_hooks dispatchers answers n hooks.
Proof.
  cbn [run_hooks]. unfold dispatchable. destruct (cut ":" (hDo h)) as [[prefix target]|]; [|done].
  destruct (bool_decide (prefix ∈ dispatchers)); [|done]. cbn [negb].
  destruct (run_hooks dispatchers answers (S n) hooks) as [l r]. by destruct (answers n) as [[]|[]], (hRequired h).
Qed.

(** The required hooks among [hooks] were dispatched, from the [n]-th dispatch
    on, and answered success. *)
Definition required_ok (dispatchers : gset string) (answers : nat -> result unit bool) (n : nat) (hooks : list TransitionHookDef) : Prop :=
  (forall i g, List.filter (dispatchable dispatchers) hooks !! i = Some g -> hRequired g = true -> answers (n + i)%nat = Ok true) /\
  forall g, g ∈ hooks -> hRequired g = true -> dispatchable dispatchers g = true.

Lemma required_ok_nil dispatchers answers n : required_ok dispatchers answers n [].
Proof. split; [by intros i g Hi|intros g Hg; by apply not_elem_of_nil in Hg]. Qed.
Lemma required_ok_run dispatchers answers n h hooks :
  dispatchable dispatchers h = true -> (hRequired h = true -> answers n = Ok true) ->
  required_ok dispatchers answers (S n) hooks -> required_ok dispatchers answers n (h :: hooks).
Proof.
  intros Hd Ha [Hr Hq]. split; [|intros g [->|Hg]%elem_of_cons; auto].
  cbn [List.filter]. rewrite Hd. intros [|i] g; cbn; [intros [= <-]; by rewrite Nat.add_0_r|].
  rewrite Nat.add_succ_r, <- Nat.add_succ_l. apply Hr.
Qed.
Lemma required_ok_skip dispatchers answers n h hooks :
  dispatchable dispatchers h = false -> hRequired h = false ->
  required_ok dispatchers answers n hooks -> required_ok dispatchers answers n (h :: hooks).
Proof.
  intros Hd Hh [Hr Hq]. split; [cbn [List.filter]; by rewrite Hd|]. intros g [->|Hg]%elem_of_cons; [congruence|auto].
Qed.

(** What a run of the hooks from the [n]-th dispatch on leaves. *)
Definition hooks_ran (dispatchers : gset string) (answers : nat -> result unit bool) (n : nat) (hooks l : list TransitionHookDef)
    (res : result stage_error unit) : Prop :=
  match res with
  | Ok _ => l = List.filter (dispatchable dispatchers) hooks /\ required_ok dispatchers answers n hooks
  | Err e =>
      exists before h after, hooks = before ++ h :: after /\ hRequired h = true /\ e = ErrHook (hDo h) /\
        required_ok dispatchers answers n before /\
        let ran := List.filter (dispatchable dispatchers) before in
        ((dispatchable dispatchers h = false /\ l = ran) \/
         (dispatchable dispatchers h = true /\ l = ran ++ [h] /\ answers (n + length ran)%nat <> Ok true))
  end.

Lemma run_hooks_ran dispatchers answers hooks n l res :
  run_hooks dispatchers answers n hooks = (l, res) -> hooks_ran dispatchers answers n hooks l res.
Proof.
  revert n l res. induction hooks as [|h hooks IH]; intros n l res; [intros [= <- <-]; split; [done|apply required_ok_nil]|].
  rewrite run_hooks_cons. destruct (dispatchable dispatchers h) eqn:Hd.
  - destruct (bool_decide_reflect (answers n = Ok true) : reflect _ _) as [Hok|Hok]; cbn [orb];
      [|destruct (hRequired h) eqn:Hh; cbn [negb];
        [intros [= <- <-]; exists [], h, hooks; split_and!; try done; [apply required_ok_nil|right; by rewrite Nat.add_0_r]|]].
    all: destruct (run_hooks dispatchers answers (S n) hooks) as [k r] eqn:E; cbn [fst snd]; intros [= <- <-]; apply IH in E.
    all: assert (hRequired h = true -> answers n = Ok true) as Ha by congruence.
    all: destruct r as [u|e]; [destruct E as [-> Hr]; split; [cbn [List.filter]; by rewrite Hd|by apply required_ok_run]|].
    all: destruct E as (before & g & after & -> & Hg & -> & Hr & Hend); exists (h :: before), g, after; split_and!; try done;
      [by apply required_ok_run|].
    all: cbn [List.filter]; rewrite Hd; cbn [length]; rewrite Nat.add_succ_r, <- Nat.add_succ_l.
    all: destruct Hend as [[? ->]|(? & -> & ?)]; [by left|by right].
  - destruct (hRequired h) eqn:Hh.
    + intros [= <- <-]. exists [], h, hooks. split_and!; try done; [apply required_ok_nil|by left].
    + intros E%IH. destruct res as [u|e]; [destruct E as [-> Hr]; split; [cbn [List.filter]; by rewrite Hd|by apply required_ok_skip]|].
      destruct E as (before & g & after & -> & Hg & -> & Hr & Hend). exists (h :: before), g, after. split_and!; try done;
        [by apply required_ok_skip|]. cbn [List.filter]. by rewrite Hd.
Qed.

(** C31: the hooks of a move run in declaration order until a required one
    fails.  When they return no error, exactly the matching hooks with a known
    prefix were dispatched, every required one among them, and each required
    one answered success.  When they return an error, it names the first
    required hook that has no known prefix or did not answer success: those
    before it ran as above, it was the last dispatched, and nothing after it
    was. *)
Theorem required_hooks_ran dispatchers answers sm from to l res :
  runTransitionHooks dispatchers answers sm from to = (l, res) ->
  match res with
  | Ok _ =>
      l = List.filter (dispatchable dispatchers) (MatchingHooks sm from to) /\
      (forall i h, l !! i = Some h -> hRequired h = true -> answers i = Ok true) /\
      forall h, h ∈ MatchingHooks sm from to -> hRequired h = true -> h ∈ l
  | Err e =>
      exists before h after, MatchingHooks sm from to = before ++ h :: after /\ hRequired h = true /\ e = ErrHook (hDo h) /\
        let ran := List.filter (dispatchable dispatchers) before in
        (forall i g, ran !! i = Some g -> hRequired g = true -> answers i = Ok true) /\
        (forall g, g ∈ before -> hRequired g = true -> g ∈ ran) /\
        ((dispatchable dispatchers h = false /\ l = ran) \/
         (dispatchable dispatchers h = true /\ l = ran ++ [h] /\ answers (length ran) <> Ok true))
  end.
Proof.
  intros Hrun%run_hooks_ran.
  assert (forall hooks g, required_ok dispatchers answers 0 hooks -> g ∈ hooks -> hRequired g = true ->
    g ∈ List.filter (dispatchable dispatchers) hooks) as Hin.
  { intros hooks g [_ Hq] Hg Hr. rewrite list_elem_of_In, filter_In, <- list_elem_of_In. auto. }
  destruct res as [u|e]; [destruct Hrun as [-> Hok]; split_and!; [done|apply Hok|by eauto]|].
  destruct Hrun as (before & h & after & -> & Hh & -> & Hok & Hend). exists before, h, after. split_and!; [done..|].
  cbv zeta. split; [apply Hok|]. split; [by eauto|exact Hend].
Qed.
End theorems.

(** ** Examples and witnesses *)

#[export] Instance demo_format : GoFormat := {|
  sprint_v := fun _ => "?"%string; parse_float := fun _ => None; format_float := fun _ => "0"%string;
  unmarshal_strings := fun _ => None
|}.

Definition stage (key : string) (locked : bool) : StageDef := mkStageDef key key "" 0 false locked.
Definition post_hook : TransitionHookDef :=
  mkTransitionHookDef "draft" "posted" {["tags"%string := GStr "+posted"; "folio"%string := GStr "F-1"]} "wasm:on_post" true.
Definition demo_machine : StageMachine :=
  mkStageMachine "stage" [stage "draft" false; stage "posted" true]
    [mkTransitionDef "draft" "posted"] [post_hook].
Definition demo_columns : list string := ["stage"; "tags"; "folio"; "amount"]%string.
Definition draft_row : row := {["stage"%string := GStr "draft"; "amount"%string := GStr "10"]}.
Definition posted_row : row :=
  {["stage"%string := GStr "posted"; "amount"%string := GStr "10"; "folio"%string := GStr "F-1";
    "tags"%string := GStrs ["posted"%string]]}.

(** The code between gate and save leaves the input as it is. *)
Definition untouched (i j : row) : Prop := j = i.
Definition draft_record : record_state := mkRecordState draft_row ∅.
Definition posting : update_in_flight := mkUpdateInFlight draft_row posted_row.
Definition posting_record : record_state := mkRecordState draft_row {[0%nat := posting]}.

Lemma draft_created : created demo_machine untouched draft_record.
Proof. exists draft_row, draft_row. split_and!; [vm_compute; reflexivity|reflexivity..]. Qed.
Lemma posting_loaded locked : update_step demo_machine locked untouched draft_record posting_record.
Proof.
  exact (update_load demo_machine locked untouched draft_record 0 {["stage"%string := GStr "posted"]}
    {["stage"%string := GStr "posted"; "folio"%string := GStr "F-1"; "tags"%string := GStrs ["posted"%string]]} _
    ("draft"%string, "posted"%string, true) eq_refl (fun _ => eq_refl) eq_refl eq_refl).
Qed.

(** Without the row lock a draft can be posted while another update that only
    touches the amount is between its load and its save: that one saves the
    stage it loaded, and the posted record, whose stage is locked, is a draft
    again, a move no transition declares. *)
Example lost_move : exists d d',
  rtc (update_step demo_machine false untouched) draft_record d /\ update_step demo_machine false untouched d d' /\
  stage_of demo_machine (rRow d) = "posted"%string /\ stage_of demo_machine (rRow d') = "draft"%string /\
  Allows demo_machine "posted" "draft" = false.
Proof.
  pose proof (posting_loaded false) as H1.
  pose proof (update_load demo_machine false untouched posting_record 1 {["amount"%string := GStr "11"]}
    {["amount"%string := GStr "11"]} _ ("draft"%string, "draft"%string, false) eq_refl ltac:(done) eq_refl eq_refl) as H2.
  match type of H2 with update_step _ _ _ _ ?d => pose proof (update_save demo_machine false untouched d 0 posting ∅ eq_refl) as H3 end.
  eexists _, _. split; [eapply rtc_l; [exact H1|]; eapply rtc_l; [exact H2|]; apply rtc_once; exact H3|].
  split; [apply (update_save demo_machine false untouched _ 1 (mkUpdateInFlight draft_row ({["amount"%string := GStr "11"]} ∪ draft_row)) ∅); reflexivity|].
  split_and!; vm_compute; reflexivity.
Qed.

Lemma sets_order_irrelevant_witness :
  let orders := [[("tags"%string, GStr "+posted"); ("folio"%string, GStr "F-1")]] in
  apply_hooks orders (draft_row, false) = ApplyTransitionSets (Some demo_machine) "draft" "posted" draft_row.
Proof.
  apply (sets_order_irrelevant demo_machine "draft" "posted"). constructor; [|constructor].
  vm_compute. first [reflexivity | apply Permutation_swap].
Defined.


Lemma locked_stage_frozen_witness :
  CheckStageLockDelete (Some demo_machine) (Some posted_row) = Err (ErrRecordLocked {["stage"%string]} "posted") /\
  Update_stage (Some demo_machine) posted_row {["amount"%string := GStr "11"]} =
    Err (ErrRecordLocked {["amount"%string]} "posted") /\
  ("amount"%string = "stage"%string \/ "amount"%string = "id"%string \/ "amount"%string ∈ managedColumns \/
   unchangedFromPersisted (GStr " 10 ") posted_row "amount" = true \/
   exists h from to, ("posted"%string, "posted"%string, false) = (from, to, true) /\
     h ∈ MatchingHooks demo_machine from to /\ "amount"%string ∈ dom (hSet h)).
Proof.
  split; [vm_compute; reflexivity|]. split; [vm_compute; reflexivity|].
  assert (Update_stage (Some demo_machine) posted_row {["amount"%string := GStr " 10 "]} =
    Ok ({["amount"%string := GStr " 10 "]}, ("posted"%string, "posted"%string, false))) as Hu by (vm_compute; reflexivity).
  exact (proj1 (locked_stage_frozen demo_machine posted_row _ _ _ "amount" (GStr " 10 ") eq_refl eq_refl Hu eq_refl)).
Defined.

(** A machine of two hooks, the second required, which fails. *)
Definition two_hooks : StageMachine :=
  mkStageMachine "stage" (smStages demo_machine) (smTransitions demo_machine)
    [mkTransitionHookDef "*" "posted" ∅ "webhook:notify" false; post_hook].
Lemma required_hooks_ran_witness :
  post_hook ∈ [post_hook] /\
  runTransitionHooks {["wasm"%string]} (fun _ => Ok true) demo_machine "draft" "posted" = ([post_hook], Ok tt) /\
  (exists before h after, MatchingHooks two_hooks "draft" "posted" = before ++ h :: after /\ hRequired h = true /\ hDo h = "wasm:on_post"%string) /\
  runTransitionHooks {["wasm"%string]} (fun _ => Ok false) two_hooks "draft" "posted" = ([post_hook], Err (ErrHook "wasm:on_post")).
Proof.
  assert (runTransitionHooks {["wasm"%string]} (fun _ => Ok true) demo_machine "draft" "posted" = ([post_hook], Ok tt)) as Hok
    by (vm_compute; reflexivity).
  assert (runTransitionHooks {["wasm"%string]} (fun _ => Ok false) two_hooks "draft" "posted" = ([post_hook], Err (ErrHook "wasm:on_post"))) as Herr
    by (vm_compute; reflexivity).
  destruct (required_hooks_ran _ _ _ _ _ _ _ Hok) as (_ & _ & Hin).
  destruct (required_hooks_ran _ _ _ _ _ _ _ Herr) as (before & h & after & Hm & Hh & He & _).
  split; [apply Hin; [by left|reflexivity]|]. split; [exact Hok|]. split; [|exact Herr].
  exists before, h, after. split; [exact Hm|]. split; [exact Hh|]. injection He as He. exact (eq_sym He).
Defined.

(** A validated hook may stamp the stage column: the stamp is not a move, so
    the record ends in a stage nobody declared. *)
Definition stamping_machine : StageMachine :=
  mkStageMachine "stage" (smStages demo_machine) (smTransitions demo_machine)
    [mkTransitionHookDef "draft" "posted" {["stage"%string := GStr "archived"]} "" false].
Example stamp_bypasses_gate :
  validateStageMachine demo_columns stamping_machine = true /\
  match Update_stage (Some stamping_machine) draft_row {["stage"%string := GStr "posted"]} with
  | Ok (input, _) => stage_of stamping_machine (input ∪ draft_row) = "archived"%string
  | Err _ => False
  end /\
  hasStage stamping_machine "archived" = false.
Proof. split; [|split]; vm_compute; reflexivity. Qed.

(** A required hook that only stamps is accepted, and no move it matches can
    ever succeed: its empty [do] has no prefix. *)
Definition required_stamp_machine : StageMachine :=
  mkStageMachine "stage" (smStages demo_machine) (smTransitions demo_machine)
    [mkTransitionHookDef "draft" "posted" {["folio"%string := GStr "F1"]} "" true].
Example required_stamp_blocks dispatchers answers :
  validateStageMachine demo_columns required_stamp_machine = true /\
  runTransitionHooks dispatchers answers required_stamp_machine "draft" "posted" = ([], Err (ErrHook "")).
Proof. split; [vm_compute; reflexivity|]. reflexivity. Qed.
