(* ===== verification/RecordExpr.v ===== *)
(** * Record predicates (manifest/v3/recordexpr.go)

    The predicate that decides whether a contribution applies to a record:
    its lexer, its recursive-descent parser, the columns it reads, and its
    evaluation over a record of JSON-like values. *)

From Stdlib Require Import Floats.SpecFloat.
From S2P Require Import Prelude GoStrings.

(** ** Tokens *)

Inductive token : Type :=
| TIdent (text : string) | TString (text : string) | TNumber (text : string) | TOp (text : string)
| TAnd | TOr | TLParen | TRParen | TLBrack | TRBrack | TComma.
#[export] Instance token_eq_dec : EqDecision token.
Proof. solve_decision. Defined.

(** [OutOfFuel] stands for no error of the code. *)
Inductive record_error : Type :=
| ErrLex | ErrNumber (text : string) | ErrUnterminated | ErrUnexpected (t : token) | ErrEnd | ErrGroup
| ErrColumn (t : token) | ErrOperator | ErrIn | ErrList | ErrValue | OutOfFuel.

(** [ParseFloat(s, 64)], [FormatFloat(f, 'f', -1, 64)]: nothing is assumed. *)
Class GoFloat := { parse_float : string -> option spec_float; format_float : spec_float -> string }.

Definition is_space (c : ascii) : bool := (byte c =? 32) || (byte c =? 9) || (byte c =? 10) || (byte c =? 13).
Definition letter (c : ascii) : bool := is_lower c || is_upper c || (byte c =? 95).
Definition path_char (c : ascii) : bool := letter c || is_digit c || (byte c =? 46).
Definition number_char (c : ascii) : bool := is_digit c || (byte c =? 46).
Definition bracket (c : ascii) : option token :=
  match byte c with
  | 40 => Some TLParen | 41 => Some TRParen | 91 => Some TLBrack | 93 => Some TRBrack | 44 => Some TComma
  | _ => None
  end.
Definition is_op_char (c : ascii) : bool :=
  (byte c =? 61) || (byte c =? 33) || (byte c =? 60) || (byte c =? 62).
Definition operators : list string := ["=="; "="; "!="; "<>"; "<"; "<="; ">"; ">="]%string.

(** The operator text that starts with [c]: two characters when the second is
    [=], or [>] after [<]. *)
Definition op_text (c : ascii) (r : string) : string * string :=
  match r with
  | String d r' =>
      if (byte d =? 61) || ((byte c =? 60) && (byte d =? 62)) then (String c (String d ""), r') else (String c "", r)
  | EmptyString => (String c "", r)
  end.

(** The text of a quoted string and what follows it; [None]: not closed. *)
Fixpoint quoted (q : ascii) (s : string) : option (string * string) :=
  match s with
  | EmptyString => None
  | String c r =>
      match r with
      | String d r' =>
          if byte c =? 92 then '(t, rest) ← quoted q r'; Some (String d t, rest)
          else if Ascii.eqb c q then Some (""%string, r)
          else '(t, rest) ← quoted q r; Some (String c t, rest)
      | EmptyString => if Ascii.eqb c q then Some (""%string, r) else None
      end
  end.

Section expressions.
Context `{GoFloat}.

(** [&&] and [||]. *)
Definition doubled (c : ascii) (r : string) : option string :=
  match r with String d r' => if Ascii.eqb c d then Some r' else None | EmptyString => None end.

Definition starts_number (c : ascii) (r : string) : bool :=
  is_digit c || ((byte c =? 45) && match r with String d _ => is_digit d | EmptyString => false end).

Fixpoint lex (fuel : nat) (s : string) : result record_error (list token) :=
  match s with
  | EmptyString => Ok []
  | String c r =>
      match fuel with
      | O => Err OutOfFuel
      | S fuel =>
          let emit := fun t rest => ts ← lex fuel rest; Ok (t :: ts) in
          if is_space c then lex fuel r else
          match bracket c with
          | Some t => emit t r
          | None =>
              if byte c =? 38 then match doubled c r with Some r' => emit TAnd r' | None => Err ErrLex end
              else if byte c =? 124 then match doubled c r with Some r' => emit TOr r' | None => Err ErrLex end
              else if is_op_char c then
                let '(op, rest) := op_text c r in
                if bool_decide (op ∈ operators) then emit (TOp op) rest else Err ErrLex
              else if (byte c =? 39) || (byte c =? 34) then
                match quoted c r with Some (t, rest) => emit (TString t) rest | None => Err ErrUnterminated end
              else if starts_number c r then
                let '(num, rest) := span number_char r in
                match parse_float (String c num) with
                | None => Err (ErrNumber (String c num))
                | Some _ => emit (TNumber (String c num)) rest
                end
              else if letter c then let '(name, rest) := span path_char s in emit (TIdent name) rest
              else Err ErrLex
          end
      end
  end.
Definition lexRecordExpr (s : string) : result record_error (list token) := lex (String.length s) s.

(** ** Trees *)

Inductive exprLiteral : Type :=
| LitString (s : string) | LitNumber (n : spec_float) (s : string) | LitBool (b : bool) | LitNull.

Inductive exprNode : Type :=
| AndNode (l r : exprNode)
| OrNode (l r : exprNode)
| CmpNode (path op : string) (lit : exprLiteral)
| InNode (path : string) (list_ : list exprLiteral) (negate : bool).

(** ** The parser *)

Definition reserved_words : list string := ["in"; "not"; "not_in"; "true"; "false"; "null"]%string.
Definition valid_segment (seg : string) : bool :=
  match seg with
  | EmptyString => false
  | String c r => letter c && str_forall (fun c => letter c || is_digit c) r
  end.
Definition validExprPath (s : string) : bool :=
  negb (String.eqb s "" || bool_decide (s ∈ reserved_words)) && forallb valid_segment (str_split "." s).

Definition normalizeOp (op : string) : string :=
  if String.eqb op "=" then "==" else if String.eqb op "<>" then "!=" else op.

Definition literal_of (t : token) : option exprLiteral :=
  match t with
  | TString s => Some (LitString s)
  | TNumber s => Some (LitNumber (default (S754_zero false) (parse_float s)) s)
  | TIdent s =>
      if String.eqb s "true" then Some (LitBool true)
      else if String.eqb s "false" then Some (LitBool false)
      else if String.eqb s "null" || String.eqb s "nil" then Some LitNull else None
  | _ => None
  end.

Definition parseLiteral (toks : list token) : result record_error (exprLiteral * list token) :=
  match toks with
  | [] => Err ErrValue
  | t :: rest => match literal_of t with Some lit => Ok (lit, rest) | None => Err ErrValue end
  end.

(** The loop of [parseList]. *)
Fixpoint list_loop (close : token) (toks : list token) : result record_error (list exprLiteral * list token) :=
  match toks with
  | [] => Err ErrValue
  | t :: rest =>
      match literal_of t with
      | None => Err ErrValue
      | Some lit =>
          match rest with
          | TComma :: rest => '(lits, rest) ← list_loop close rest; Ok (lit :: lits, rest)
          | c :: rest => if bool_decide (c = close) then Ok ([lit], rest) else Err ErrList
          | [] => Err ErrList
          end
      end
  end.

Definition parseList (toks : list token) : result record_error (list exprLiteral * list token) :=
  match toks with
  | TLParen :: rest => list_loop TRParen rest
  | TLBrack :: rest => list_loop TRBrack rest
  | _ => Err ErrIn
  end.

Definition parseIn (path : string) (negate : bool) (toks : list token) : result record_error (exprNode * list token) :=
  '(lits, rest) ← parseList toks; Ok (InNode path lits negate, rest).

Definition parseCmp (toks : list token) : result record_error (exprNode * list token) :=
  match toks with
  | TIdent path :: rest =>
      if negb (validExprPath path) then Err (ErrColumn (TIdent path)) else
      match rest with
      | [] => Err ErrOperator
      | TOp op :: rest => '(lit, rest) ← parseLiteral rest; Ok (CmpNode path (normalizeOp op) lit, rest)
      | TIdent w :: rest =>
          if String.eqb w "in" then parseIn path false rest
          else if String.eqb w "not_in" then parseIn path true rest
          else if String.eqb w "not" then
            match rest with
            | TIdent w' :: rest => if String.eqb w' "in" then parseIn path true rest else Err ErrIn
            | _ => Err ErrIn
            end
          else Err ErrOperator
      | _ :: _ => Err ErrOperator
      end
  | t :: _ => Err (ErrColumn t)
  | [] => Err ErrEnd
  end.

Fixpoint parseOr (fuel : nat) (toks : list token) : result record_error (exprNode * list token) :=
  match fuel with
  | O => Err OutOfFuel
  | S fuel => '(l, toks) ← parseAnd fuel toks; or_loop fuel l toks
  end
with or_loop (fuel : nat) (l : exprNode) (toks : list token) : result record_error (exprNode * list token) :=
  match fuel with
  | O => Err OutOfFuel
  | S fuel =>
      match toks with
      | TOr :: rest => '(r, rest) ← parseAnd fuel rest; or_loop fuel (OrNode l r) rest
      | _ => Ok (l, toks)
      end
  end
with parseAnd (fuel : nat) (toks : list token) : result record_error (exprNode * list token) :=
  match fuel with
  | O => Err OutOfFuel
  | S fuel => '(l, toks) ← parseUnit fuel toks; and_loop fuel l toks
  end
with and_loop (fuel : nat) (l : exprNode) (toks : list token) : result record_error (exprNode * list token) :=
  match fuel with
  | O => Err OutOfFuel
  | S fuel =>
      match toks with
      | TAnd :: rest => '(r, rest) ← parseUnit fuel rest; and_loop fuel (AndNode l r) rest
      | _ => Ok (l, toks)
      end
  end
with parseUnit (fuel : nat) (toks : list token) : result record_error (exprNode * list token) :=
  match fuel with
  | O => Err OutOfFuel
  | S fuel =>
      match toks with
      | [] => Err ErrEnd
      | TLParen :: rest =>
          '(inner, rest) ← parseOr fuel rest;
          match rest with TRParen :: rest => Ok (inner, rest) | _ => Err ErrGroup end
      | _ => parseCmp toks
      end
  end.

Definition parse_fuel (toks : list token) : nat := 4 * length toks + 5.

Definition parse_tokens (toks : list token) : result record_error exprNode :=
  '(n, rest) ← parseOr (parse_fuel toks) toks;
  match rest with [] => Ok n | t :: _ => Err (ErrUnexpected t) end.

(** The first segment of a path. *)
Definition column (path : string) : string := default ""%string (head (str_split "." path)).
Fixpoint columns (n : exprNode) : gset string :=
  match n with
  | AndNode l r | OrNode l r => columns l ∪ columns r
  | CmpNode path _ _ | InNode path _ _ => {[column path]}
  end.

(** [RecordExpr]; a [root] of nil always holds. *)
Record RecordExpr := mkRecordExpr { root : option exprNode; fields : gset string }.

Definition ParseRecordExpr (s : string) : result record_error RecordExpr :=
  if blank s then Ok (mkRecordExpr None ∅) else
  toks ← lexRecordExpr s;
  n ← parse_tokens toks;
  Ok (mkRecordExpr (Some n) (columns n)).

Definition IsEmpty (e : RecordExpr) : bool := match root e with None => true | Some _ => false end.
End expressions.

(** ** Values and evaluation *)

(** A value of a record: nil, a string, a [*string], a bool, a float64, an
    int or int64, an int32, uint or uint64, an object with its members, a
    type with a [String] method (its text), any other type ([fmt.Sprint]'s
    text); a float32 is left out. *)
Inductive rval : Type :=
| RNil | RString (s : string) | RStrPtr (s : option string) | RBool (b : bool) | RFloat (f : spec_float)
| RInt (n : Z) | ROtherInt (n : Z) | RObj (members : list (string * rval)) | RStringer (s : string) | ROther (s : string).

Abbreviation record := (gmap string rval).

Fixpoint member (key : string) (l : list (string * rval)) : option rval :=
  match l with
  | [] => None
  | (k, v) :: l => if String.eqb k key then Some v else member key l
  end.

(** The rest of the path inside a value. *)
Fixpoint walk (parts : list string) (cur : rval) : rval :=
  match parts with
  | [] => cur
  | part :: parts =>
      match cur with
      | RObj l => match member part l with Some v => walk parts v | None => RNil end
      | _ => RNil
      end
  end.
Definition lookupExprPath (r : record) (path : string) : rval :=
  match str_split "." path with
  | [] => RNil
  | part :: parts => match r !! part with Some v => walk parts v | None => RNil end
  end.

Definition isBlank (v : rval) : bool :=
  match v with
  | RNil => true
  | RString s => blank s
  | RStrPtr s => match s with None => true | Some s => blank s end
  | _ => false
  end.

Definition int_string (n : Z) : string := if n <? 0 then String "-" (dec_string (- n)) else dec_string n.
(** [float64(t)] of an integer. *)
Definition float_of_int (n : Z) : spec_float := binary_normalize 53 1024 n 0 false.

Section evaluation.
Context `{GoFloat} `{UnicodeLower}.

Fixpoint valueString (v : rval) : string :=
  match v with
  | RNil => ""
  | RString s => TrimSpace s
  | RStrPtr s => match s with None => "" | Some s => TrimSpace s end
  | RBool b => if b then "true" else "false"
  | RFloat f => format_float f
  | RInt n => int_string n
  | ROtherInt n => TrimSpace (int_string n)
  | RObj l =>
      (fix go (l : list (string * rval)) : string :=
         match l with
         | [] => ""
         | (k, v) :: l => if String.eqb k "value" then valueString v else go l
         end) l
  | RStringer s | ROther s => TrimSpace s
  end.

Definition toFloat (v : rval) : option spec_float :=
  match v with
  | RFloat f => Some f
  | RInt n | ROtherInt n => Some (float_of_int n)
  | RString s | RStringer s => parse_float (TrimSpace s)
  | _ => None
  end.

Definition toBool (v : rval) : option bool :=
  match v with
  | RBool b => Some b
  | RString s =>
      let w := ToLower (TrimSpace s) in
      if bool_decide (w ∈ ["true"; "1"; "yes"]%string) then Some true
      else if bool_decide (w ∈ ["false"; "0"; "no"; ""]%string) then Some false else None
  | RFloat f => Some (match f with S754_zero _ => false | _ => true end)
  | RInt n => Some (negb (n =? 0))
  | RNil => Some false
  | _ => None
  end.

Definition literalEquals (v : rval) (lit : exprLiteral) : bool :=
  match lit with
  | LitNull => isBlank v
  | LitBool b => match toBool v with Some x => Bool.eqb x b | None => false end
  | LitNumber n s => match toFloat v with Some f => SFeqb f n | None => String.eqb (valueString v) s end
  | LitString s => String.eqb (valueString v) s
  end.

(** The orders of float64 (false on NaN) and of bytes. *)
Definition orderCmp (op : string) (a b : spec_float) : bool :=
  if String.eqb op "<" then SFltb a b else if String.eqb op "<=" then SFleb a b
  else if String.eqb op ">" then SFltb b a else if String.eqb op ">=" then SFleb b a else false.
Definition orderCmpStr (op a b : string) : bool :=
  if String.eqb op "<" then String.ltb a b else if String.eqb op "<=" then String.leb a b
  else if String.eqb op ">" then String.ltb b a else if String.eqb op ">=" then String.leb b a else false.

Definition eval_cmp (op : string) (lit : exprLiteral) (v : rval) : bool :=
  if String.eqb op "==" then literalEquals v lit
  else if String.eqb op "!=" then negb (literalEquals v lit)
  else match lit with
       | LitNumber n _ => match toFloat v with Some f => orderCmp op f n | None => false end
       | LitString s => orderCmpStr op (valueString v) s
       | _ => false
       end.

Definition eval_in (lits : list exprLiteral) (negate : bool) (v : rval) : bool :=
  if existsb (literalEquals v) lits then negb negate else negate.

Fixpoint eval (n : exprNode) (r : record) : bool :=
  match n with
  | AndNode a b => eval a r && eval b r
  | OrNode a b => eval a r || eval b r
  | CmpNode path op lit => eval_cmp op lit (lookupExprPath r path)
  | InNode path lits negate => eval_in lits negate (lookupExprPath r path)
  end.

Definition Eval (e : RecordExpr) (r : record) : bool :=
  match root e with None => true | Some n => eval n r end.
End evaluation.

(** ** The grammar

    The phrases of the comment on [RecordExpr], with the tree each denotes,
    over the words that name a column and the tokens that are literals. *)

Section grammar.
Context (col : string -> bool) (lit_of : token -> option exprLiteral).

Inductive p_items : list token -> list exprLiteral -> Prop :=
| GOne t lit : lit_of t = Some lit -> p_items [t] [lit]
| GMore t lit ts lits : lit_of t = Some lit -> p_items ts lits -> p_items (t :: TComma :: ts) (lit :: lits).
Inductive p_list : list token -> list exprLiteral -> Prop :=
| GParens ts lits : p_items ts lits -> p_list (TLParen :: ts ++ [TRParen]) lits
| GBrackets ts lits : p_items ts lits -> p_list (TLBrack :: ts ++ [TRBrack]) lits.

(** The words of a membership test, and whether it is negated. *)
Inductive g_in : list token -> bool -> Prop :=
| GIn : g_in [TIdent "in"] false
| GNotIn : g_in [TIdent "not_in"] true
| GNot_In : g_in [TIdent "not"; TIdent "in"] true.

Inductive p_cmp : list token -> exprNode -> Prop :=
| GCmp path op t lit : col path = true -> lit_of t = Some lit ->
    p_cmp [TIdent path; TOp op; t] (CmpNode path (normalizeOp op) lit)
| GMember path ws negate ts lits : col path = true -> g_in ws negate -> p_list ts lits ->
    p_cmp (TIdent path :: ws ++ ts) (InNode path lits negate).

Inductive p_or : list token -> exprNode -> Prop :=
| GAnd ts n : p_and ts n -> p_or ts n
| GOr ts us l r : p_or ts l -> p_and us r -> p_or (ts ++ TOr :: us) (OrNode l r)
with p_and : list token -> exprNode -> Prop :=
| GUnit ts n : p_unit ts n -> p_and ts n
| GAndAnd ts us l r : p_and ts l -> p_unit us r -> p_and (ts ++ TAnd :: us) (AndNode l r)
with p_unit : list token -> exprNode -> Prop :=
| GCompare ts n : p_cmp ts n -> p_unit ts n
| GGroup ts n : p_or ts n -> p_unit (TLParen :: ts ++ [TRParen]) n.
End grammar.
Arguments GAnd {col lit_of} ts n _.
Arguments GOr {col lit_of} ts us l r _ _.
Arguments GUnit {col lit_of} ts n _.
Arguments GAndAnd {col lit_of} ts us l r _ _.
Arguments GCompare {col lit_of} ts n _.
Arguments GGroup {col lit_of} ts n _.
Scheme p_or_ind' := Induction for p_or Sort Prop
with p_and_ind' := Induction for p_and Sort Prop
with p_unit_ind' := Induction for p_unit Sort Prop.
Combined Scheme g_record_mutind from p_or_ind', p_and_ind', p_unit_ind'.

(** With what the code takes for a column and a literal. *)
Abbreviation g_items := (p_items literal_of).
Abbreviation g_list := (p_list literal_of).
Abbreviation g_cmp := (p_cmp validExprPath literal_of).
Abbreviation g_or := (p_or validExprPath literal_of).
Abbreviation g_and := (p_and validExprPath literal_of).
Abbreviation g_unit := (p_unit validExprPath literal_of).

(** *** The documented words: lower-case paths; [true], [false], [null]. *)

Definition doc_segment (seg : string) : bool :=
  match seg with
  | EmptyString => false
  | String c r => (is_lower c || (byte c =? 95)) && str_forall (fun c => is_lower c || is_digit c || (byte c =? 95)) r
  end.
Definition doc_path (s : string) : bool := forallb doc_segment (str_split "." s).
Definition doc_literal `{GoFloat} (t : token) : option exprLiteral :=
  match t with
  | TString s => Some (LitString s)
  | TNumber s => Some (LitNumber (default (S754_zero false) (parse_float s)) s)
  | TIdent s =>
      if String.eqb s "true" then Some (LitBool true)
      else if String.eqb s "false" then Some (LitBool false)
      else if String.eqb s "null" then Some LitNull else None
  | _ => None
  end.
(** A text of the documented grammar. *)
Abbreviation doc_phrase := (p_or doc_path doc_literal).

(** A word without upper-case letters other than [nil]. *)
Definition plain_word (t : token) : Prop :=
  match t with TIdent w => str_forall (fun c => negb (is_upper c)) w = true /\ w <> "nil"%string | _ => True end.
(** The paths of a tree. *)
Fixpoint paths (n : exprNode) : list string :=
  match n with
  | AndNode l r | OrNode l r => paths l ++ paths r
  | CmpNode path _ _ | InNode path _ _ => [path]
  end.

(** ** The parser is the grammar *)

Section parser.
Context `{GoFloat}.

Lemma list_loop_sound close toks lits rest :
  list_loop close toks = Ok (lits, rest) -> exists ts, toks = ts ++ close :: rest /\ g_items ts lits.
Proof.
  remember (length toks) as n eqn:Hn. revert toks Hn lits rest.
  induction n as [n IH] using lt_wf_ind. intros [|t toks] Hn lits rest; [done|]. cbn [list_loop].
  destruct (literal_of t) as [lit|] eqn:El; [|done]. destruct toks as [|c toks]; [done|].
  assert (Hend : (if bool_decide (c = close) then Ok ([lit], toks) else Err ErrList) = Ok (lits, rest) ->
    exists ts, t :: c :: toks = ts ++ close :: rest /\ g_items ts lits).
  { destruct (bool_decide_reflect (c = close)) as [->|]; [|done]. intros [= <- <-]. exists [t]. split; [done|by constructor]. }
  destruct c; try exact Hend.
  intros ([lits' rest'] & Hl & [= <- <-])%bind_Ok. cbn in Hn.
  destruct (IH (length toks) ltac:(lia) toks eq_refl _ _ Hl) as (ts & -> & Hg).
  exists (t :: TComma :: ts). split; [done|by constructor].
Qed.

Lemma list_loop_complete close ts lits rest :
  close <> TComma -> g_items ts lits -> list_loop close (ts ++ close :: rest) = Ok (lits, rest).
Proof.
  intros Hc. induction 1 as [t lit Hl|t lit ts lits Hl _ IH]; cbn [list_loop app]; rewrite Hl.
  - destruct close; try done; by rewrite bool_decide_true.
  - by rewrite IH.
Qed.

Lemma parseList_iff ts lits rest :
  parseList ts = Ok (lits, rest) <-> exists us, ts = us ++ rest /\ g_list us lits.
Proof.
  split.
  - destruct ts as [|[] ts]; cbn; try done; intros (us & -> & Hg)%list_loop_sound.
    + exists (TLParen :: us ++ [TRParen]). split; [cbn; by rewrite <- app_assoc|by constructor].
    + exists (TLBrack :: us ++ [TRBrack]). split; [cbn; by rewrite <- app_assoc|by constructor].
  - intros (us & -> & Hg). destruct Hg as [us lits Hg|us lits Hg]; cbn; rewrite <- app_assoc; by apply list_loop_complete.
Qed.

Lemma parseIn_iff path negate ts n rest :
  parseIn path negate ts = Ok (n, rest) <->
  exists us lits, ts = us ++ rest /\ g_list us lits /\ n = InNode path lits negate.
Proof.
  unfold parseIn. split.
  - intros ([lits r] & (us & -> & Hg)%parseList_iff & [= <- <-])%bind_Ok. by exists us, lits.
  - intros (us & lits & -> & Hg & ->). assert (parseList (us ++ rest) = Ok (lits, rest)) as ->; [|done].
    apply parseList_iff. by exists us.
Qed.

Lemma parseCmp_sound toks n rest : parseCmp toks = Ok (n, rest) -> exists ts, toks = ts ++ rest /\ g_cmp ts n.
Proof.
  destruct toks as [|[path| | | | | | | | | |] toks]; try done. cbn [parseCmp].
  destruct (validExprPath path) eqn:Ev; [|done]. cbn [negb].
  assert (Hin : forall ws negate ts, g_in ws negate -> toks = ws ++ ts -> parseIn path negate ts = Ok (n, rest) ->
    exists us, TIdent path :: toks = us ++ rest /\ g_cmp us n).
  { intros ws negate ts Hw -> (us & lits & -> & Hg & ->)%parseIn_iff.
    exists (TIdent path :: ws ++ us). split; [cbn; by rewrite <- app_assoc|by econstructor]. }
  destruct toks as [|[w| | |op| | | | | | |] toks]; try done.
  - destruct (String.eqb_spec w "in") as [->|]; [by apply (Hin [TIdent "in"] false toks GIn)|].
    destruct (String.eqb_spec w "not_in") as [->|]; [by apply (Hin [TIdent "not_in"] true toks GNotIn)|].
    destruct (String.eqb_spec w "not") as [->|]; [|done].
    destruct toks as [|[w'| | | | | | | | | |] toks]; try done.
    destruct (String.eqb_spec w' "in") as [->|]; [|done]. by apply (Hin [TIdent "not"; TIdent "in"] true toks GNot_In).
  - intros ([lit r] & Hl & [= <- <-])%bind_Ok. destruct toks as [|t toks]; [done|]. cbn in Hl.
    destruct (literal_of t) as [lit'|] eqn:El; [|done]. injection Hl as -> ->.
    exists [TIdent path; TOp op; t]. split; [done|by constructor].
Qed.

Lemma parseCmp_complete ts n rest : g_cmp ts n -> parseCmp (ts ++ rest) = Ok (n, rest).
Proof.
  destruct 1 as [path op t lit Hv Hl|path ws negate ts lits Hv Hw Hg]; cbn; rewrite Hv; cbn.
  - by rewrite Hl.
  - rewrite <- app_assoc. assert (parseIn path negate (ts ++ rest) = Ok (InNode path lits negate, rest)) as Hp.
    { apply parseIn_iff. by exists ts, lits. }
    by destruct Hw.
Qed.

Lemma g_cmp_head ts n : g_cmp ts n -> exists path us, ts = TIdent path :: us.
Proof. destruct 1; eauto. Qed.
Lemma parseUnit_cmp f ts n rest : g_cmp ts n -> parseUnit (S f) (ts ++ rest) = Ok (n, rest).
Proof.
  intros Hg. destruct (g_cmp_head _ _ Hg) as (path & us & ->).
  change (parseUnit (S f) ((TIdent path :: us) ++ rest)) with (parseCmp ((TIdent path :: us) ++ rest)).
  by apply parseCmp_complete.
Qed.

(** More fuel does not change a result. *)
Lemma parse_record_mono f :
  (forall toks r f', parseOr f toks = r -> r <> Err OutOfFuel -> (f <= f')%nat -> parseOr f' toks = r) /\
  (forall l toks r f', or_loop f l toks = r -> r <> Err OutOfFuel -> (f <= f')%nat -> or_loop f' l toks = r) /\
  (forall toks r f', parseAnd f toks = r -> r <> Err OutOfFuel -> (f <= f')%nat -> parseAnd f' toks = r) /\
  (forall l toks r f', and_loop f l toks = r -> r <> Err OutOfFuel -> (f <= f')%nat -> and_loop f' l toks = r) /\
  (forall toks r f', parseUnit f toks = r -> r <> Err OutOfFuel -> (f <= f')%nat -> parseUnit f' toks = r).
Proof.
  induction f as [|f (IHo & IHol & IHa & IHal & IHu)]; [split_and!; cbn; intros; by subst|].
  assert (forall (m m' : result record_error (exprNode * list token)) k k' r,
    (forall x, m = x -> x <> Err OutOfFuel -> m' = x) ->
    (forall n rest x, k (n, rest) = x -> x <> Err OutOfFuel -> k' (n, rest) = x) ->
    (m ≫= k) = r -> r <> (Err OutOfFuel : result record_error (exprNode * list token)) -> (m' ≫= k') = r) as Hb.
  { intros m m' k k' r Hm Hk Hr Hne. destruct m as [[n rest]|e].
    - rewrite (Hm _ eq_refl) by done. cbn in *. auto.
    - cbn in Hr. subst. rewrite (Hm _ eq_refl) by congruence. done. }
  split_and!; [intros toks r [|f'] E Hne Hle|intros l toks r [|f'] E Hne Hle|intros toks r [|f'] E Hne Hle
    |intros l toks r [|f'] E Hne Hle|intros toks r [|f'] E Hne Hle]; try lia; cbn in *.
  - eapply Hb; [| |exact E|done]; intros; [eapply IHa|eapply IHol]; try eassumption; lia.
  - destruct toks as [|[] rest]; try done.
    eapply Hb; [| |exact E|done]; intros; [eapply IHa|eapply IHol]; try eassumption; lia.
  - eapply Hb; [| |exact E|done]; intros; [eapply IHu|eapply IHal]; try eassumption; lia.
  - destruct toks as [|[] rest]; try done.
    eapply Hb; [| |exact E|done]; intros; [eapply IHu|eapply IHal]; try eassumption; lia.
  - destruct toks as [|[] rest]; try done.
    eapply Hb; [| |exact E|done]; intros; [eapply IHo; try eassumption; lia|cbn in *; assumption].
Qed.

(** What a successful call has read is a phrase of the grammar. *)
Lemma parse_record_sound f :
  (forall toks n rest, parseOr f toks = Ok (n, rest) -> exists ts, toks = ts ++ rest /\ g_or ts n) /\
  (forall l ls toks n rest, g_or ls l -> or_loop f l toks = Ok (n, rest) ->
     exists ts, toks = ts ++ rest /\ g_or (ls ++ ts) n) /\
  (forall toks n rest, parseAnd f toks = Ok (n, rest) -> exists ts, toks = ts ++ rest /\ g_and ts n) /\
  (forall l ls toks n rest, g_and ls l -> and_loop f l toks = Ok (n, rest) ->
     exists ts, toks = ts ++ rest /\ g_and (ls ++ ts) n) /\
  (forall toks n rest, parseUnit f toks = Ok (n, rest) -> exists ts, toks = ts ++ rest /\ g_unit ts n).
Proof.
  induction f as [|f (IHo & IHol & IHa & IHal & IHu)]; [by split_and!|]. split_and!.
  - intros toks n rest ([l r] & (ts & -> & Hl)%IHa & E)%bind_Ok.
    destruct (IHol l ts r n rest (GAnd _ _ Hl) E) as (us & -> & Hn). exists (ts ++ us). by rewrite app_assoc.
  - intros l ls toks n rest Hl. cbn.
    destruct toks as [|t toks]; [intros [= <- <-]; exists []; by rewrite (app_nil_r ls)|].
    destruct t; try (intros [= <- <-]; exists []; by rewrite (app_nil_r ls)).
    intros ([r r'] & (ts & -> & Hr)%IHa & E)%bind_Ok.
    destruct (IHol _ _ _ n rest (GOr ls ts l r Hl Hr) E) as (us & -> & Hn).
    exists (TOr :: ts ++ us). split; [cbn; by rewrite app_assoc|]. by rewrite <- app_assoc in Hn.
  - intros toks n rest ([l r] & (ts & -> & Hl)%IHu & E)%bind_Ok.
    destruct (IHal l ts r n rest (GUnit _ _ Hl) E) as (us & -> & Hn). exists (ts ++ us). by rewrite app_assoc.
  - intros l ls toks n rest Hl. cbn.
    destruct toks as [|t toks]; [intros [= <- <-]; exists []; by rewrite (app_nil_r ls)|].
    destruct t; try (intros [= <- <-]; exists []; by rewrite (app_nil_r ls)).
    intros ([r r'] & (ts & -> & Hr)%IHu & E)%bind_Ok.
    destruct (IHal _ _ _ n rest (GAndAnd ls ts l r Hl Hr) E) as (us & -> & Hn).
    exists (TAnd :: ts ++ us). split; [cbn; by rewrite app_assoc|]. by rewrite <- app_assoc in Hn.
  - intros toks n rest. cbn [parseUnit]. destruct toks as [|t toks]; [done|].
    assert (Hcmp : parseCmp (t :: toks) = Ok (n, rest) -> exists ts, t :: toks = ts ++ rest /\ g_unit ts n).
    { intros (ts & -> & Hg)%parseCmp_sound. exists ts. split; [done|by constructor]. }
    destruct t; try exact Hcmp.
    intros ([c r] & (ts & -> & Hc)%IHo & E)%bind_Ok. destruct r as [|[] r]; try done. injection E as <- <-.
    exists (TLParen :: ts ++ [TRParen]). split; [cbn; by rewrite <- app_assoc|by constructor].
Qed.

(** Every phrase is read, whatever follows that does not continue it. *)
Definition no_and (rest : list token) : Prop := match rest with TAnd :: _ => False | _ => True end.

Lemma and_loop_stop f l rest : no_and rest -> and_loop (S f) l rest = Ok (l, rest).
Proof. by destruct rest as [|[] rest]. Qed.

Lemma parse_record_complete :
  (forall ts n, g_or ts n -> forall rest f r, no_and rest -> or_loop f n rest = Ok r ->
     exists f', parseOr f' (ts ++ rest) = Ok r) /\
  (forall ts n, g_and ts n -> forall rest f r, and_loop f n rest = Ok r ->
     exists f', parseAnd f' (ts ++ rest) = Ok r) /\
  (forall ts n, g_unit ts n -> forall rest, exists f', parseUnit f' (ts ++ rest) = Ok (n, rest)).
Proof.
  apply g_record_mutind.
  - intros ts n _ IH rest f r Hrest Hl. destruct (IH rest 1%nat (n, rest)) as [f' Hf']; [by apply and_loop_stop|].
    exists (S (f' `max` f)). cbn. rewrite (proj1 (proj2 (proj2 (parse_record_mono f'))) _ _ _ Hf') by (done || lia).
    cbn. by rewrite (proj1 (proj2 (parse_record_mono f)) _ _ _ _ Hl) by (done || lia).
  - intros ts us l r _ IHl _ IHr rest f x Hrest Hl. rewrite <- app_assoc. cbn.
    destruct (IHr rest 1%nat (r, rest)) as [f' Hf']; [by apply and_loop_stop|].
    apply (IHl _ (S (f' `max` f))); [done|]. cbn.
    rewrite (proj1 (proj2 (proj2 (parse_record_mono f'))) _ _ _ Hf') by (done || lia). cbn.
    by rewrite (proj1 (proj2 (parse_record_mono f)) _ _ _ _ Hl) by (done || lia).
  - intros ts n _ IH rest f r Hl. destruct (IH rest) as [f' Hf']. exists (S (f' `max` f)). cbn.
    rewrite (proj2 (proj2 (proj2 (proj2 (parse_record_mono f')))) _ _ _ Hf') by (done || lia). cbn.
    by rewrite (proj1 (proj2 (proj2 (proj2 (parse_record_mono f)))) _ _ _ _ Hl) by (done || lia).
  - intros ts us l r _ IHl _ IHr rest f x Hl. rewrite <- app_assoc. cbn.
    destruct (IHr rest) as [f' Hf']. apply (IHl _ (S (f' `max` f))). cbn.
    rewrite (proj2 (proj2 (proj2 (proj2 (parse_record_mono f')))) _ _ _ Hf') by (done || lia). cbn.
    by rewrite (proj1 (proj2 (proj2 (proj2 (parse_record_mono f)))) _ _ _ _ Hl) by (done || lia).
  - intros ts n Hg rest. exists 1%nat. by apply parseUnit_cmp.
  - intros ts n _ IH rest. destruct (IH (TRParen :: rest) 1%nat (n, TRParen :: rest)) as [f' Hf']; [done|done|].
    exists (S f'). cbn. rewrite <- app_assoc. cbn. by rewrite Hf'.
Qed.

(** *** Enough fuel *)

Lemma g_record_nonempty :
  (forall ts n, g_or ts n -> ts <> []) /\ (forall ts n, g_and ts n -> ts <> []) /\ (forall ts n, g_unit ts n -> ts <> []).
Proof.
  apply g_record_mutind; intros; try done; try by destruct ts.
  match goal with Hc : p_cmp _ _ _ _ |- _ => by destruct (g_cmp_head _ _ Hc) as (? & ? & ->) end.
Qed.

Lemma parseAnd_shorter f toks n rest : parseAnd f toks = Ok (n, rest) -> (length rest < length toks)%nat.
Proof.
  intros (ts & -> & Hg)%parse_record_sound. rewrite length_app. apply g_record_nonempty in Hg. destruct ts; cbn; [done|lia].
Qed.
Lemma parseUnit_shorter f toks n rest : parseUnit f toks = Ok (n, rest) -> (length rest < length toks)%nat.
Proof.
  intros (ts & -> & Hg)%parse_record_sound. rewrite length_app. apply g_record_nonempty in Hg. destruct ts; cbn; [done|lia].
Qed.

Lemma parseCmp_fuel toks : parseCmp toks <> Err OutOfFuel.
Proof.
  assert (forall close toks, list_loop close toks <> Err OutOfFuel) as Hl.
  { intros close ts. remember (length ts) as n eqn:Hn. revert ts Hn. induction n as [n IH] using lt_wf_ind.
    intros [|t ts] Hn; [done|]. cbn [list_loop]. destruct (literal_of t); [|done]. destruct ts as [|c ts]; [done|].
    cbn in Hn. destruct c; try (by destruct (bool_decide _)).
    intros [E|([? ?] & _ & E)]%bind_Err; [by eapply (IH (length ts)); [lia| |exact E]|done]. }
  assert (forall path negate ts, parseIn path negate ts <> Err OutOfFuel) as Hi.
  { intros path negate ts [E|([? ?] & _ & E)]%bind_Err; [|done]. destruct ts as [|[] ts]; try done; by apply Hl in E. }
  destruct toks as [|[path| | | | | | | | | |] toks]; try done. cbn. destruct (negb _); [done|].
  destruct toks as [|[w| | |op| | | | | | |] toks]; try done.
  - repeat (destruct (String.eqb w _); [try apply Hi|]); try done.
    destruct toks as [|[w'| | | | | | | | | |] toks]; try done. destruct (String.eqb w' "in"); [apply Hi|done].
  - intros [E|([? ?] & _ & E)]%bind_Err; [|done]. destruct toks as [|t toks]; [done|]. cbn in E. by destruct (literal_of t).
Qed.

Lemma parse_record_fuel f :
  (forall toks, (4 * length toks + 3 <= f)%nat -> parseOr f toks <> Err OutOfFuel) /\
  (forall l toks, (4 * length toks + 1 <= f)%nat -> or_loop f l toks <> Err OutOfFuel) /\
  (forall toks, (4 * length toks + 2 <= f)%nat -> parseAnd f toks <> Err OutOfFuel) /\
  (forall l toks, (4 * length toks + 1 <= f)%nat -> and_loop f l toks <> Err OutOfFuel) /\
  (forall toks, (4 * length toks + 1 <= f)%nat -> parseUnit f toks <> Err OutOfFuel).
Proof.
  induction f as [|f (IHo & IHol & IHa & IHal & IHu)]; [split_and!; lia|].
  split_and!; [intros toks Hf|intros l toks Hf|intros toks Hf|intros l toks Hf|intros toks Hf];
    cbn [parseOr or_loop parseAnd and_loop parseUnit].
  - intros [E|([n r] & E & E')]%bind_Err; [by apply IHa in E; [|lia]|].
    apply parseAnd_shorter in E. by apply IHol in E'; [|lia].
  - destruct toks as [|[] toks]; try done. cbn in Hf.
    intros [E|([n r] & E & E')]%bind_Err; [by apply IHa in E; [|lia]|].
    apply parseAnd_shorter in E. by apply IHol in E'; [|lia].
  - intros [E|([n r] & E & E')]%bind_Err; [by apply IHu in E; [|lia]|].
    apply parseUnit_shorter in E. by apply IHal in E'; [|lia].
  - destruct toks as [|[] toks]; try done. cbn in Hf.
    intros [E|([n r] & E & E')]%bind_Err; [by apply IHu in E; [|lia]|].
    apply parseUnit_shorter in E. by apply IHal in E'; [|lia].
  - destruct toks as [|t toks]; [done|]. cbn in Hf. destruct t; try apply parseCmp_fuel.
    intros [E|([n r] & E & E')]%bind_Err; [by apply IHo in E; [|lia]|]. by destruct r as [|[] r].
Qed.

Lemma record_tokens_iff toks n : parse_tokens toks = Ok n <-> g_or toks n.
Proof.
  unfold parse_tokens. split.
  - intros ([m r] & (ts & -> & Hg)%parse_record_sound & E)%bind_Ok. destruct r as [|t r]; [|done].
    injection E as <-. by rewrite app_nil_r.
  - intros Hg. destruct (proj1 parse_record_complete toks n Hg [] 1%nat (n, [])) as [f Hf]; [done|done|].
    rewrite app_nil_r in Hf.
    assert (parseOr (parse_fuel toks) toks = Ok (n, [])) as ->; [|done].
    apply (proj1 (parse_record_mono f) _ _ (f `max` parse_fuel toks)%nat) in Hf; [|done|lia].
    rewrite <- Hf. symmetry. apply (proj1 (parse_record_mono (parse_fuel toks))); [done| |lia].
    apply parse_record_fuel. unfold parse_fuel. lia.
Qed.
End parser.

(** ** The lexer's fuel *)

Section lexer.
Context `{GoFloat}.

Lemma quoted_shorter q s t rest : quoted q s = Some (t, rest) -> (String.length rest < String.length s)%nat.
Proof.
  remember (String.length s) as n eqn:Hn. revert s Hn t rest.
  induction n as [n IH] using lt_wf_ind. intros [|c [|d s]] -> t rest Hq; cbn in Hq; [done| |].
  - destruct (Ascii.eqb c q); [|done]. injection Hq as <- <-. cbn. lia.
  - destruct (byte c =? 92).
    + destruct (quoted q s) as [[u r]|] eqn:E; [|done]. injection Hq as <- <-.
      apply (IH (String.length s)) in E; cbn; lia.
    + destruct (Ascii.eqb c q); [injection Hq as <- <-; cbn; lia|].
      destruct (match s with "" => _ | _ => _ end) as [[u r]|] eqn:E; [|done]. injection Hq as <- <-.
      apply (IH (String.length (String d s)) ltac:(cbn; lia) (String d s) eq_refl) in E. cbn in *. lia.
Qed.

Lemma doubled_shorter c r r' : doubled c r = Some r' -> (String.length r' < String.length r)%nat.
Proof. destruct r as [|d r]; cbn; [done|]. destruct (Ascii.eqb c d); [intros [= <-]; lia|done]. Qed.

Lemma op_text_shorter c r op rest : op_text c r = (op, rest) -> (String.length rest <= String.length r)%nat.
Proof. destruct r as [|d r]; cbn; [|destruct (_ || _)]; intros [= <- <-]; cbn; lia. Qed.

Lemma span_shorter p s a b : span p s = (a, b) -> (String.length b <= String.length s)%nat.
Proof. intros (-> & _ & _)%span_spec. rewrite str_length_app. lia. Qed.

Lemma span_head_shorter (p : ascii -> bool) c r a b :
  p c = true -> span p (String c r) = (a, b) -> (String.length b <= String.length r)%nat.
Proof. intros Hp. cbn. rewrite Hp. destruct (span p r) as [x y] eqn:E. intros [= <- <-]. by eapply span_shorter. Qed.

Lemma lex_record_fuel f s : (String.length s <= f)%nat -> lex f s <> Err OutOfFuel.
Proof.
  revert s. induction f as [|f IH]; intros [|c r] Hf; cbn in Hf; try done; [lia|].
  assert (Hemit : forall t rest, (String.length rest <= String.length r)%nat ->
    (ts ← lex f rest; Ok (t :: ts)) <> Err OutOfFuel).
  { intros t rest Hr [E|(? & _ & ?)]%bind_Err; [|done]. by apply IH in E; [|lia]. }
  cbn [lex]. destruct (is_space c); [apply IH; lia|].
  destruct (bracket c); [by apply Hemit|].
  destruct (byte c =? 38); [destruct (doubled c r) eqn:E; [apply doubled_shorter in E; apply Hemit; lia|done]|].
  destruct (byte c =? 124); [destruct (doubled c r) eqn:E; [apply doubled_shorter in E; apply Hemit; lia|done]|].
  destruct (is_op_char c).
  { destruct (op_text c r) as [op rest] eqn:E. destruct (bool_decide _); [|done]. apply Hemit. by eapply op_text_shorter. }
  destruct (_ || _).
  { destruct (quoted c r) as [[t rest]|] eqn:E; [|done]. apply Hemit. apply quoted_shorter in E. lia. }
  destruct (starts_number c r).
  { destruct (span number_char r) as [num rest] eqn:E. destruct (parse_float _); [|done]. apply Hemit. by eapply span_shorter. }
  destruct (letter c) eqn:Hl; [|done].
  destruct (span path_char (String c r)) as [name rest] eqn:E. apply Hemit.
  eapply span_head_shorter; [|exact E]. unfold path_char. by rewrite Hl.
Qed.

Lemma record_tokens_fuel toks : parse_tokens toks <> Err OutOfFuel.
Proof.
  unfold parse_tokens. intros [E|([n r] & _ & E)]%bind_Err; [|by destruct r].
  revert E. apply parse_record_fuel. unfold parse_fuel. lia.
Qed.
End lexer.

(** ** Theorems *)

Section evaluation_laws.
Context `{GoFloat} `{UnicodeLower}.

Lemma lookup_agree (r1 r2 : record) path :
  r1 !! column path = r2 !! column path -> lookupExprPath r1 path = lookupExprPath r2 path.
Proof. unfold column, lookupExprPath. destruct (str_split "." path) as [|p ps]; cbn; [done|]. by intros ->. Qed.

Lemma eval_agree n (r1 r2 : record) :
  (forall f, f ∈ columns n -> r1 !! f = r2 !! f) -> eval n r1 = eval n r2.
Proof.
  induction n as [a IHa b IHb|a IHa b IHb|path op lit|path lits negate]; cbn; intros Hr.
  1, 2: by rewrite IHa, IHb by set_solver.
  all: by rewrite (lookup_agree r1 r2 path) by set_solver.
Qed.

Lemma column_documented path : doc_path path = true -> doc_segment (column path) = true.
Proof.
  unfold doc_path, column. intros Hs. destruct (str_split "." path) as [|p ps] eqn:E; cbn in *; [|by apply andb_true_iff in Hs as [Hs _]].
  exfalso. by apply str_split_nonempty in E.
Qed.

Lemma columns_documented lit_of :
  (forall ts n, p_or doc_path lit_of ts n -> forall f, f ∈ columns n -> doc_segment f = true) /\
  (forall ts n, p_and doc_path lit_of ts n -> forall f, f ∈ columns n -> doc_segment f = true) /\
  (forall ts n, p_unit doc_path lit_of ts n -> forall f, f ∈ columns n -> doc_segment f = true).
Proof.
  apply g_record_mutind; try set_solver.
  intros ts n [path op t lit Hv _|path ws negate us lits Hv _ _] f Hf; cbn in Hf;
    apply elem_of_singleton in Hf as ->; by apply column_documented.
Qed.

(** What a missing value and the empty string have in common. *)
Lemma missing_as_empty (lit : exprLiteral) :
  parse_float "" = None ->
  literalEquals RNil lit = literalEquals (RString "") lit /\
  forall op, eval_cmp op lit RNil = eval_cmp op lit (RString "").
Proof.
  intros Hp. assert (literalEquals RNil lit = literalEquals (RString "") lit) as He.
  { by destruct lit; cbn; rewrite ?Hp. }
  split; [done|]. intros op. unfold eval_cmp. rewrite He. destruct lit; cbn; by rewrite ?Hp.
Qed.

Lemma eval_in_missing lits negate :
  parse_float "" = None -> eval_in lits negate RNil = eval_in lits negate (RString "").
Proof.
  intros Hp. unfold eval_in. assert (existsb (literalEquals RNil) lits = existsb (literalEquals (RString "")) lits) as ->; [|done].
  induction lits as [|lit lits IH]; cbn; [done|]. by rewrite IH, (proj1 (missing_as_empty lit Hp)).
Qed.

Lemma lookup_missing (r : record) c path :
  r !! c = None -> lookupExprPath (<[c := RString ""]> r) path = lookupExprPath r path \/
    (lookupExprPath r path = RNil /\ lookupExprPath (<[c := RString ""]> r) path = RString "").
Proof.
  intros Hc. unfold lookupExprPath. destruct (str_split "." path) as [|p ps]; [by left|].
  destruct (decide (p = c)) as [->|Hne].
  - rewrite lookup_insert_eq, Hc. destruct ps; cbn; auto.
  - rewrite lookup_insert_ne by done. by left.
Qed.

Lemma eval_missing n (r : record) c :
  parse_float "" = None -> r !! c = None -> eval n (<[c := RString ""]> r) = eval n r.
Proof.
  intros Hp Hc. induction n as [a IHa b IHb|a IHa b IHb|path op lit|path lits negate]; cbn; [by rewrite IHa, IHb..| |];
    destruct (lookup_missing r c path Hc) as [->|[-> ->]]; try done; symmetry.
  - by apply missing_as_empty.
  - by apply eval_in_missing.
Qed.
End evaluation_laws.

(** *** The documented grammar and the code's *)

Section documented.
Context `{GoFloat}.

Section change.
Context (col col' : string -> bool) (lit_of lit_of' : token -> option exprLiteral).
Definition same_literals (ts : list token) : Prop := forall t lit, t ∈ ts -> lit_of t = Some lit -> lit_of' t = Some lit.
Definition same_columns (n : exprNode) : Prop := forall p, p ∈ paths n -> col p = true -> col' p = true.

Lemma p_items_change ts lits : p_items lit_of ts lits -> same_literals ts -> p_items lit_of' ts lits.
Proof. induction 1; intros Hs; constructor; try (apply Hs; [by left|done]). apply IHp_items. intros x l Hx. apply Hs. by do 2 right. Qed.

Lemma p_cmp_change ts n : p_cmp col lit_of ts n -> same_literals ts -> same_columns n -> p_cmp col' lit_of' ts n.
Proof.
  intros Hc Hs Hp. destruct Hc as [path op t lit Hv Hl|path ws negate ts lits Hv Hw Hg].
  - constructor; [by apply Hp; [left|]|]. apply Hs; [by do 2 right; left|done].
  - constructor; [by apply Hp; [left|]|done|]. destruct Hg as [ts lits Hg|ts lits Hg]; constructor;
      (eapply p_items_change; [exact Hg|]); intros x l Hx; apply Hs; right; apply elem_of_app; right; right; apply elem_of_app; by left.
Qed.

(** The phrases of one choice of columns and literals are those of another
    that takes the same of what they hold. *)
Lemma phrase_change :
  (forall ts n, p_or col lit_of ts n -> same_literals ts -> same_columns n -> p_or col' lit_of' ts n) /\
  (forall ts n, p_and col lit_of ts n -> same_literals ts -> same_columns n -> p_and col' lit_of' ts n) /\
  (forall ts n, p_unit col lit_of ts n -> same_literals ts -> same_columns n -> p_unit col' lit_of' ts n).
Proof.
  assert (Hsub : forall ts us, (forall t, t ∈ us -> t ∈ ts) -> same_literals ts -> same_literals us).
  { intros ts us Hsub Hs t lit Ht. apply Hs. auto. }
  assert (Hpth : forall n m, (forall p, p ∈ paths m -> p ∈ paths n) -> same_columns n -> same_columns m).
  { intros n m Hsub' Hs p Hp. apply Hs. auto. }
  apply g_record_mutind.
  - intros ts n _ IH Hs Hp. apply GAnd. auto.
  - intros ts us l r _ IHl _ IHr Hs Hp. apply GOr; [apply IHl|apply IHr]; (eapply Hsub || eapply Hpth); try eassumption; set_solver.
  - intros ts n _ IH Hs Hp. apply GUnit. auto.
  - intros ts us l r _ IHl _ IHr Hs Hp. apply GAndAnd; [apply IHl|apply IHr]; (eapply Hsub || eapply Hpth); try eassumption; set_solver.
  - intros ts n Hc Hs Hp. apply GCompare. by apply p_cmp_change.
  - intros ts n _ IH Hs Hp. apply GGroup. apply IH; [|done]. eapply Hsub; [|exact Hs]. set_solver.
Qed.
End change.

(** The paths of a phrase's tree are words of it, and columns. *)
Lemma phrase_paths (col : string -> bool) (lit_of : token -> option exprLiteral) :
  (forall ts n, p_or col lit_of ts n -> forall p, p ∈ paths n -> TIdent p ∈ ts /\ col p = true) /\
  (forall ts n, p_and col lit_of ts n -> forall p, p ∈ paths n -> TIdent p ∈ ts /\ col p = true) /\
  (forall ts n, p_unit col lit_of ts n -> forall p, p ∈ paths n -> TIdent p ∈ ts /\ col p = true).
Proof.
  apply g_record_mutind; try set_solver.
  intros ts n [path op t lit Hv _|path ws negate us lits Hv _ _] p Hp; cbn in Hp;
    apply list_elem_of_singleton in Hp as ->; (split; [by left|done]).
Qed.
Lemma doc_segment_valid seg : doc_segment seg = true -> valid_segment seg = true.
Proof.
  destruct seg as [|c r]; [done|]. cbn. intros [Hc Hr]%andb_true_iff. apply andb_true_iff. split.
  - unfold letter. destruct (is_lower c); [done|]. cbn in Hc. rewrite Hc. by destruct (is_upper c).
  - revert Hr. clear Hc. induction r as [|d r IH]; cbn; [done|]. intros [Hd Hr]%andb_true_iff. rewrite (IH Hr), andb_true_r.
    unfold letter. destruct (is_lower d); [done|]. destruct (is_digit d); [by rewrite orb_true_r|]. cbn in Hd. rewrite Hd. by destruct (is_upper d).
Qed.
Lemma valid_segment_doc seg :
  str_forall (fun c => negb (is_upper c)) seg = true -> valid_segment seg = true -> doc_segment seg = true.
Proof.
  destruct seg as [|c r]; [done|]. cbn. intros [Hu Hus]%andb_true_iff [Hc Hr]%andb_true_iff. apply negb_true_iff in Hu.
  apply andb_true_iff. split; [unfold letter in Hc; by rewrite Hu, orb_false_r in Hc|].
  revert Hus Hr. clear Hu Hc. induction r as [|d r IH]; cbn; [done|]. intros [Hu Hus]%andb_true_iff [Hd Hr]%andb_true_iff.
  rewrite (IH Hus Hr), andb_true_r. apply negb_true_iff in Hu. unfold letter in Hd. rewrite Hu, orb_false_r in Hd.
  destruct (is_lower d), (is_digit d), (byte d =? 95); done.
Qed.

(** The pieces of a word hold what the word holds. *)
Lemma str_split_forall (p : ascii -> bool) c s :
  str_forall p s = true -> forall w, w ∈ str_split c s -> str_forall p w = true.
Proof.
  induction s as [|d s IH]; cbn; [by intros _ w ->%list_elem_of_singleton|]. intros [Hd Hs]%andb_true_iff w.
  destruct (Ascii.eqb c d); [intros [->|Hw]%elem_of_cons; [done|by apply IH]|].
  destruct (str_split c s) as [|v vs]; [intros ->%list_elem_of_singleton; cbn; by rewrite Hd|].
  intros [->|Hw]%elem_of_cons; [|apply (IH Hs); by right]. cbn. rewrite Hd. apply (IH Hs). by left.
Qed.

Lemma validExprPath_doc path :
  str_forall (fun c => negb (is_upper c)) path = true ->
  validExprPath path = true <-> doc_path path = true /\ path ∉ reserved_words.
Proof.
  intros Hu. unfold validExprPath, doc_path. rewrite andb_true_iff, negb_true_iff, orb_false_iff, bool_decide_eq_false, !forallb_forall.
  split.
  - intros [[_ Hr] Hs]. split; [|done]. intros w Hw. apply valid_segment_doc; [|by apply Hs].
    eapply str_split_forall; [exact Hu|]. by apply list_elem_of_In.
  - intros [Hs Hr]. split; [split; [|done]|intros w Hw; by apply doc_segment_valid, Hs].
    apply String.eqb_neq. intros ->. by specialize (Hs ""%string (or_introl eq_refl)).
Qed.

(** The code's phrases over plain words are the documented ones whose paths
    are no reserved words. *)
Lemma phrase_documented toks n :
  Forall plain_word toks -> g_or toks n <-> doc_phrase toks n /\ forall p, p ∈ paths n -> p ∉ reserved_words.
Proof.
  intros Hw. rewrite Forall_forall in Hw. split.
  - intros Hg. pose proof (proj1 (phrase_paths _ _) toks n Hg) as Hp. split.
    + eapply (proj1 (phrase_change _ _ _ _)); [exact Hg| |].
      * intros t lit Ht. specialize (Hw t Ht). destruct t as [w| | | | | | | | | |]; cbn in *; try done. destruct Hw as [_ Hn%String.eqb_neq].
        rewrite Hn, orb_false_r. done.
      * intros p Hin Hv. destruct (Hp p Hin) as [Ht _]. apply (validExprPath_doc p); [apply (Hw _ Ht)|done].
    + intros p Hin. destruct (Hp p Hin) as [Ht Hv]. apply (proj1 (validExprPath_doc p (proj1 (Hw _ Ht))) Hv).
  - intros [Hg Hr]. pose proof (proj1 (phrase_paths _ _) toks n Hg) as Hp. eapply (proj1 (phrase_change _ _ _ _)); [exact Hg| |].
    + intros t lit Ht. destruct t as [w| | | | | | | | | |]; cbn; try done.
      by destruct (String.eqb w "true"), (String.eqb w "false"), (String.eqb w "null").
    + intros p Hin Hv. destruct (Hp p Hin) as [Ht _]. apply (validExprPath_doc p); [apply (Hw _ Ht)|auto].
Qed.
End documented.

(** What the code accepts, whatever the words: its own choice of columns and
    literals over the same phrases, with one tree; and it always returns. *)
Lemma ParseRecordExpr_spec `{GoFloat} s :
  blank s = false ->
  ParseRecordExpr s <> Err OutOfFuel /\
  forall e, ParseRecordExpr s = Ok e <->
     exists toks n, lexRecordExpr s = Ok toks /\ g_or toks n /\ e = mkRecordExpr (Some n) (columns n).
Proof.
  intros Hs. split.
  - unfold ParseRecordExpr. rewrite Hs.
    intros [E|(toks & _ & [E|(n & _ & E)]%bind_Err)]%bind_Err; [by apply lex_record_fuel in E|by apply record_tokens_fuel in E|done].
  - intros e. unfold ParseRecordExpr. rewrite Hs. split.
    + intros (toks & Hl & (n & Hp%record_tokens_iff & [= <-])%bind_Ok)%bind_Ok. by exists toks, n.
    + intros (toks & n & Hl & Hg%record_tokens_iff & ->). rewrite Hl. cbn -[parse_tokens]. by rewrite Hg.
Qed.

(** C32: the lexer and the parser return on every text.  A text that is not
    blank, whose words are written as the documented grammar writes them (no
    upper-case letters, and no [nil]), is accepted exactly when its tokens are
    a phrase of that grammar whose paths are no reserved words, and then it
    denotes that phrase's tree (so a text has at most one reading: [||] is
    left-associative and binds less than [&&]); and the columns reported are
    documented identifiers. *)
Theorem ParseRecordExpr_grammar `{GoFloat} s :
  blank s = false ->
  lexRecordExpr s <> Err OutOfFuel /\ ParseRecordExpr s <> Err OutOfFuel /\
  forall toks, lexRecordExpr s = Ok toks -> Forall plain_word toks ->
    (forall e, ParseRecordExpr s = Ok e <->
       exists n, doc_phrase toks n /\ (forall p, p ∈ paths n -> p ∉ reserved_words) /\ e = mkRecordExpr (Some n) (columns n)) /\
    (forall e f, ParseRecordExpr s = Ok e -> f ∈ fields e -> doc_segment f = true).
Proof.
  intros Hs. destruct (ParseRecordExpr_spec s Hs) as [Hfuel Hiff]. split; [by apply lex_record_fuel|]. split; [done|]. intros toks Hl Hw.
  assert (forall e, ParseRecordExpr s = Ok e <->
       exists n, doc_phrase toks n /\ (forall p, p ∈ paths n -> p ∉ reserved_words) /\ e = mkRecordExpr (Some n) (columns n)) as Hdoc.
  { intros e. rewrite Hiff. split.
    - intros (toks' & n & Hl' & Hg & ->). rewrite Hl in Hl'. injection Hl' as <-. apply (phrase_documented _ _ Hw) in Hg as [? ?]. by exists n.
    - intros (n & Hg & Hr & ->). exists toks, n. split_and!; [done| |done]. by apply (phrase_documented _ _ Hw). }
  split; [exact Hdoc|]. intros e f (n & Hg & _ & ->)%Hdoc Hf. by apply (proj1 (columns_documented _) _ _ Hg).
Qed.

(** Whole numbers only, for the witnesses. *)
Definition whole_numbers : GoFloat := {|
  parse_float s := if str_forall is_digit s && negb (String.eqb s "") then Some (float_of_int (digits_Z s)) else None;
  format_float _ := ""%string |}.
Definition sample_gate : string := "total >= 10 || status in ['open', 'held'] && (client.vip = true || note <> null)".

Definition sample_tree : exprNode :=
  OrNode (CmpNode "total" ">=" (LitNumber (float_of_int 10) "10"))
    (AndNode (InNode "status" [LitString "open"; LitString "held"] false)
      (OrNode (CmpNode "client.vip" "==" (LitBool true)) (CmpNode "note" "!=" LitNull))).
Lemma ParseRecordExpr_grammar_witness :
  blank sample_gate = false /\
  exists toks, lexRecordExpr (H := whole_numbers) sample_gate = Ok toks /\
    p_or doc_path (doc_literal (H := whole_numbers)) toks sample_tree.
Proof.
  split; [vm_compute; reflexivity|].
  destruct (ParseRecordExpr_grammar (H := whole_numbers) sample_gate) as (_ & _ & Hiff); [vm_compute; reflexivity|].
  destruct (lexRecordExpr (H := whole_numbers) sample_gate) as [toks|] eqn:El; [|exfalso; vm_compute in El; discriminate].
  exists toks. split; [reflexivity|]. destruct (Hiff toks eq_refl) as [Hdoc _].
  { vm_compute in El. injection El as <-. repeat constructor; try discriminate. }
  destruct (ParseRecordExpr (H := whole_numbers) sample_gate) as [e|] eqn:E; [|exfalso; vm_compute in E; discriminate].
  destruct (proj1 (Hdoc e) eq_refl) as (n & Hg & _ & He).
  assert (option_map root (match ParseRecordExpr (H := whole_numbers) sample_gate with Ok x => Some x | Err _ => None end) =
    Some (Some n)) as Hn by (rewrite E, He; reflexivity).
  vm_compute in Hn. injection Hn as <-. exact Hg.
Defined.

(** What is accepted beyond the documented grammar, and the column the
    reserved words leave out of it. *)
Example undocumented_words :
  let ok s := match ParseRecordExpr (H := whole_numbers) s with Ok _ => true | Err _ => false end in
  ok "Total = 1" = true /\ ok "total = nil" = true /\ ok "true = 1" = false /\ doc_path "true" = true.
Proof. vm_compute. auto. Qed.

(** Evaluation reads only the columns the predicate reports: records that
    agree on them get the same answer. A blank predicate reports none, is
    empty and always holds. A column the record does not have counts as the
    empty string in every comparison and membership test. *)
Theorem Eval_fields `{GoFloat} `{UnicodeLower} s e :
  ParseRecordExpr s = Ok e -> parse_float "" = None ->
  (forall r1 r2 : record, (forall f, f ∈ fields e -> r1 !! f = r2 !! f) -> Eval e r1 = Eval e r2) /\
  IsEmpty e = blank s /\ (blank s = true -> fields e = ∅ /\ forall r, Eval e r = true) /\
  (forall c (r : record), r !! c = None -> Eval e (<[c := RString ""]> r) = Eval e r).
Proof.
  intros Hp Hf. split; [|split; [|split]].
  - intros r1 r2 Hr. unfold Eval. destruct (root e) as [n|] eqn:En; [|done]. apply eval_agree.
    unfold ParseRecordExpr in Hp. destruct (blank s); [by injection Hp as <-|].
    apply bind_Ok in Hp as (toks & _ & (m & _ & [= <-])%bind_Ok). by injection En as <-.
  - unfold ParseRecordExpr in Hp. destruct (blank s); [by injection Hp as <-|].
    by apply bind_Ok in Hp as (toks & _ & (m & _ & [= <-])%bind_Ok).
  - intros Hs. unfold ParseRecordExpr in Hp. rewrite Hs in Hp. by injection Hp as <-.
  - intros c r Hc. unfold Eval. destruct (root e); [by apply eval_missing|done].
Qed.

(** A record without a status passes the gate the source's comment gives. *)
Lemma Eval_fields_witness :
  let e := mkRecordExpr (Some (CmpNode "status" "!=" (LitString "draft"))) {["status"%string]} in
  ParseRecordExpr (H := whole_numbers) "status != 'draft'" = Ok e /\
  (forall r1 r2 : record, r1 !! "status"%string = r2 !! "status"%string ->
     Eval (H := whole_numbers) (H0 := fun s => s) e r1 = Eval (H := whole_numbers) (H0 := fun s => s) e r2) /\
  Eval (H := whole_numbers) (H0 := fun s => s) e ∅ = true.
Proof.
  intros e. assert (ParseRecordExpr (H := whole_numbers) "status != 'draft'" = Ok e) as He by (vm_compute; reflexivity).
  destruct (Eval_fields (H := whole_numbers) (H0 := fun s => s) _ e He) as (Hr & _ & _ & Hm); [vm_compute; reflexivity|].
  split; [exact He|split].
  - intros r1 r2 Hs. apply Hr. intros f Hf. cbn in Hf. apply elem_of_singleton in Hf as ->. exact Hs.
  - rewrite <- (Hm "status"%string ∅) by reflexivity. vm_compute. reflexivity.
Defined.

(** A literal keeps its blanks and a record's text loses them. *)
Example padded_literal_never_holds :
  match ParseRecordExpr (H := whole_numbers) "code == ' a '" with
  | Ok e => Eval (H := whole_numbers) (H0 := fun s => s) e {["code"%string := RString " a "]}
  | Err _ => true
  end = false.
Proof. vm_compute. reflexivity. Qed.
