(* ===== verification/NetGuard.v ===== *)
(** * Outbound network policy (netguard/netguard.go)

    Which addresses and hosts a tenant's code may reach: the address policy
    with the forms of IPv6 that carry an IPv4 address, the host patterns, the
    control of a dial and the control of redirects. *)

From S2P Require Import Prelude GoStrings.

(** ** net.IP *)

(** A [net.IP] is its bytes; nil and the empty slice are []. *)
Abbreviation IP := (list Z).

Definition allZero (b : list Z) : bool := forallb (fun x => x =? 0) b.
Definition nth_byte (ip : IP) (i : nat) : Z := nth i ip 0.

(** [ip.To4]. *)
Definition To4 (ip : IP) : option IP :=
  if Nat.eqb (length ip) 4 then Some ip
  else if Nat.eqb (length ip) 16 && allZero (take 10 ip) && (nth_byte ip 10 =? 255) && (nth_byte ip 11 =? 255)
  then Some (drop 12 ip) else None.
(** [ip.To16]. *)
Definition To16 (ip : IP) : option IP :=
  if Nat.eqb (length ip) 4 then Some (repeat 0 10 ++ [255; 255] ++ ip)
  else if Nat.eqb (length ip) 16 then Some ip else None.

(** The methods of [net.IP]: one condition on the IPv4 form, another on the
    16 bytes of an address without one. *)
Definition by_family (ip : IP) (v4 v6 : IP -> bool) : bool :=
  match To4 ip with Some ip4 => v4 ip4 | None => Nat.eqb (length ip) 16 && v6 ip end.
Definition IsLoopback (ip : IP) : bool :=
  by_family ip (fun a => nth_byte a 0 =? 127) (fun a => allZero (take 15 a) && (nth_byte a 15 =? 1)).
Definition IsPrivate (ip : IP) : bool :=
  by_family ip
    (fun a => (nth_byte a 0 =? 10) || ((nth_byte a 0 =? 172) && (Z.land (nth_byte a 1) 240 =? 16)) ||
              ((nth_byte a 0 =? 192) && (nth_byte a 1 =? 168)))
    (fun a => Z.land (nth_byte a 0) 254 =? 252).
Definition IsUnspecified (ip : IP) : bool := by_family ip allZero allZero.
Definition IsLinkLocalUnicast (ip : IP) : bool :=
  by_family ip (fun a => (nth_byte a 0 =? 169) && (nth_byte a 1 =? 254))
    (fun a => (nth_byte a 0 =? 254) && (Z.land (nth_byte a 1) 192 =? 128)).
Definition IsLinkLocalMulticast (ip : IP) : bool :=
  by_family ip (fun a => (nth_byte a 0 =? 224) && (nth_byte a 1 =? 0) && (nth_byte a 2 =? 0))
    (fun a => (nth_byte a 0 =? 255) && (Z.land (nth_byte a 1) 15 =? 2)).
Definition IsInterfaceLocalMulticast (ip : IP) : bool :=
  Nat.eqb (length ip) 16 && (nth_byte ip 0 =? 255) && (Z.land (nth_byte ip 1) 15 =? 1).
Definition IsMulticast (ip : IP) : bool :=
  by_family ip (fun a => Z.land (nth_byte a 0) 240 =? 224) (fun a => nth_byte a 0 =? 255).

Definition special (ip : IP) : bool :=
  IsLoopback ip || IsPrivate ip || IsUnspecified ip || IsLinkLocalUnicast ip || IsLinkLocalMulticast ip ||
  IsInterfaceLocalMulticast ip || IsMulticast ip.

(** ** Blocked addresses *)

Definition blockedV4 (ip : IP) : bool :=
  special ip ||
  (nth_byte ip 0 =? 0) ||
  ((nth_byte ip 0 =? 100) && (Z.land (nth_byte ip 1) 192 =? 64)) ||
  ((nth_byte ip 0 =? 192) && (nth_byte ip 1 =? 0) && (nth_byte ip 2 =? 0)) ||
  ((nth_byte ip 0 =? 198) && (Z.land (nth_byte ip 1) 254 =? 18)) ||
  (240 <=? nth_byte ip 0).

Definition IsBlockedIP (ip : IP) : bool :=
  match To4 ip with
  | Some v4 => blockedV4 v4
  | None =>
      match To16 ip with
      | None => true
      | Some ip =>
          if special ip then true
          else if (nth_byte ip 0 =? 0) && (nth_byte ip 1 =? 100) && (nth_byte ip 2 =? 255) && (nth_byte ip 3 =? 155) &&
                  allZero (take 8 (drop 4 ip))
          then blockedV4 (drop 12 ip)
          else if (nth_byte ip 0 =? 32) && (nth_byte ip 1 =? 2) then blockedV4 (take 4 (drop 2 ip))
          else allZero (take 12 ip)
      end
  end.

(** ** Host patterns *)

Definition IsValidHostPattern (p : string) : bool :=
  if String.eqb p "" || String.eqb p "*" then false else
  let host := match after_last ":" p with
              | Some port => if str_contains "." port then p
                             else str_take (String.length p - String.length port - 1) p
              | None => p
              end in
  let host := TrimPrefix host "*." in
  if str_contains "*" host then false
  else let labels := str_split "." host in
       if Nat.ltb (length labels) 2 then false else forallb (fun l => negb (String.eqb l "")) labels.

Definition pattern_allows (p host : string) : bool :=
  IsValidHostPattern p &&
  (String.eqb p host ||
   (HasPrefix p "*." &&
    (HasSuffix host (String "." (TrimPrefix p "*.")) || String.eqb host (TrimPrefix p "*.")))).
Definition HostAllowed (patterns : list string) (host : string) : bool :=
  existsb (fun p => pattern_allows p host) patterns.

Definition ForbiddenHostSuffixes : list string :=
  ["local"; "localhost"; "internal"; "arpa"; "cluster.local"; "svc"; "lan"; "home"; "corp"; "intranet"; "private"]%string.
Definition HasForbiddenSuffix `{UnicodeLower} (name : string) : bool :=
  let name := ToLower (TrimSuffix name ".") in
  existsb (fun suf => String.eqb name suf || HasSuffix name (String "." suf)) ForbiddenHostSuffixes.

(** ** Dialing and redirects *)

(** [net.SplitHostPort] and [net.ParseIP]: nothing is assumed. *)
Class GoNet := { SplitHostPort : string -> option (string * string); ParseIP : string -> option IP }.

Inductive egress_error : Type := ErrBlockedEgress | ErrHostNotAllowed | ErrTooManyRedirects.

Definition dialControl `{GoNet} (allowPrivate : bool) (address : string) : result egress_error unit :=
  if allowPrivate then Ok tt else
  match SplitHostPort address with
  | None => Err ErrBlockedEgress
  | Some (host, _) =>
      let host := match cut "%" host with Some (h, _) => h | None => host end in
      if IsBlockedIP (default [] (ParseIP host)) then Err ErrBlockedEgress else Ok tt
  end.
Definition DialControl `{GoNet} : string -> result egress_error unit := dialControl false.

Record Options := mkOptions { oTimeout : Z; oAllowHosts : list string; oMaxRedirects : Z; oAllowPrivate : bool }.

Definition max_redirects (o : Options) : Z := if oMaxRedirects o <=? 0 then 3 else oMaxRedirects o.

(** [via] requests were made when a redirect leads to [host]. *)
Definition CheckRedirect `{UnicodeLower} (o : Options) (via : Z) (host : string) : result egress_error unit :=
  if max_redirects o <? via then Err ErrTooManyRedirects
  else if negb (Nat.eqb (length (oAllowHosts o)) 0) && negb (HostAllowed (oAllowHosts o) (ToLower host))
  then Err ErrHostNotAllowed else Ok tt.

(** The client asks [CheckRedirect] before each hop: the hops it takes, and
    why it stopped. *)
Fixpoint hops `{UnicodeLower} (o : Options) (via : Z) (redirects : list string) :
    list string * result egress_error unit :=
  match redirects with
  | [] => ([], Ok tt)
  | host :: redirects =>
      match CheckRedirect o via host with
      | Err e => ([], Err e)
      | Ok _ => let '(l, r) := hops o (via + 1) redirects in (host :: l, r)
      end
  end.

(** ** The policy as a table of networks *)

(** The number an address denotes. *)
Definition num (ip : IP) : Z := foldl (fun n b => n * 256 + b) 0 ip.
Definition is_byte (b : Z) : Prop := 0 <= b < 256.

(** A network: an address and the length of its prefix; [w] is the width. *)
Definition in_net (w n : Z) (net : Z * Z) : bool := n / 2 ^ (w - net.2) =? net.1 / 2 ^ (w - net.2).
Definition in_table (w : Z) (table : list (Z * Z)) (n : Z) : bool := existsb (in_net w n) table.

(** 0.0.0.0/8, 10/8, 100.64/10, 127/8, 169.254/16, 172.16/12, 192.0.0/24,
    192.168/16, 198.18/15, 224/4, 240/4. *)
Definition v4_table : list (Z * Z) :=
  [(num [0; 0; 0; 0], 8); (num [10; 0; 0; 0], 8); (num [100; 64; 0; 0], 10); (num [127; 0; 0; 0], 8);
   (num [169; 254; 0; 0], 16); (num [172; 16; 0; 0], 12); (num [192; 0; 0; 0], 24); (num [192; 168; 0; 0], 16);
   (num [198; 18; 0; 0], 15); (num [224; 0; 0; 0], 4); (num [240; 0; 0; 0], 4)].
(** ::/96 (with ::1), fc00::/7, fe80::/10, ff00::/8. *)
Definition v6_table : list (Z * Z) :=
  [(0, 96); (num [252] * 2 ^ 120, 7); (num [254; 128] * 2 ^ 112, 10); (num [255] * 2 ^ 120, 8)].
(** The IPv4 address inside ::ffff:0:0/96, 64:ff9b::/96 and 2002::/16. *)
Definition embedded_v4 (n : Z) : option Z :=
  if in_net 128 n (num [255; 255; 0; 0; 0; 0], 96) then Some (n mod 2 ^ 32)
  else if in_net 128 n (num [0; 100; 255; 155] * 2 ^ 96, 96) then Some (n mod 2 ^ 32)
  else if in_net 128 n (num [32; 2] * 2 ^ 112, 16) then Some (n / 2 ^ 80 mod 2 ^ 32)
  else None.
Definition blocked_number (n : Z) : bool :=
  match embedded_v4 n with Some q => in_table 32 v4_table q | None => in_table 128 v6_table n end.

(** ** Facts *)

Lemma byte_cases (P : Z -> bool) :
  forallb P (map Z.of_nat (seq 0 256)) = true -> forall b, is_byte b -> P b = true.
Proof.
  intros HP b Hb. rewrite forallb_forall in HP. apply HP, in_map_iff. exists (Z.to_nat b).
  split; [unfold is_byte in Hb; lia|]. apply in_seq. unfold is_byte in Hb. lia.
Qed.

Ltac byte_check :=
  match goal with
  | H : is_byte ?b |- ?l = ?r =>
      apply Bool.eqb_prop; revert b H;
      match goal with |- forall b, is_byte b -> @?P b = true => apply (byte_cases P); vm_compute; reflexivity end
  end.

Lemma mask_172 b : is_byte b -> (Z.land b 240 =? 16) = (b / 16 =? 1).
Proof. intros H. byte_check. Qed.
Lemma mask_100 b : is_byte b -> (Z.land b 192 =? 64) = (b / 64 =? 1).
Proof. intros H. byte_check. Qed.
Lemma mask_198 b : is_byte b -> (Z.land b 254 =? 18) = (b / 2 =? 9).
Proof. intros H. byte_check. Qed.
Lemma mask_224 b : is_byte b -> (Z.land b 240 =? 224) = (b / 16 =? 14).
Proof. intros H. byte_check. Qed.
Lemma mask_fc b : is_byte b -> (Z.land b 254 =? 252) = (b / 2 =? 126).
Proof. intros H. byte_check. Qed.
Lemma mask_fe80 b : is_byte b -> (Z.land b 192 =? 128) = (b / 64 =? 2).
Proof. intros H. byte_check. Qed.

Lemma num_app l k : num (l ++ k) = num l * 256 ^ Z.of_nat (length k) + num k.
Proof.
  unfold num. rewrite foldl_app. generalize (foldl (fun n b => n * 256 + b) 0 l). induction k as [|b k IH] using rev_ind; intros n.
  - cbn. lia.
  - rewrite !foldl_app, IH, length_app. cbn. rewrite Nat2Z.inj_add, Z.pow_add_r by lia. change (256 ^ Z.of_nat 1) with 256. lia.
Qed.
Lemma num_one b : num [b] = b.
Proof. unfold num. cbn. lia. Qed.
Lemma num_range l : Forall is_byte l -> 0 <= num l < 256 ^ Z.of_nat (length l).
Proof.
  induction l as [|b l IH] using rev_ind; [by cbn|]. intros [Hl Hb]%Forall_app. inversion_clear Hb as [|? ? Hb' _].
  rewrite num_app, length_app, num_one. specialize (IH Hl). rewrite Nat2Z.inj_add, Z.pow_add_r by lia.
  change (256 ^ Z.of_nat (length [b])) with 256. unfold is_byte in *. lia.
Qed.
Lemma num_div l k m :
  Forall is_byte k -> m = 256 ^ Z.of_nat (length k) -> num (l ++ k) / m = num l /\ num (l ++ k) mod m = num k.
Proof.
  intros Hk%num_range ->. rewrite num_app. split.
  - rewrite Z.div_add_l by lia. rewrite Z.div_small by lia. lia.
  - rewrite Z.add_comm, Z_mod_plus_full. apply Z.mod_small. lia.
Qed.
Lemma allZero_num l : Forall is_byte l -> allZero l = (num l =? 0).
Proof.
  induction l as [|b l IH] using rev_ind; [done|]. intros [Hl Hb]%Forall_app. inversion_clear Hb as [|? ? Hb' _].
  unfold allZero in *. rewrite forallb_app, IH, num_app, num_one by done. cbn [forallb length].
  change (256 ^ Z.of_nat 1) with 256. pose proof (num_range l Hl). unfold is_byte in Hb'. rewrite andb_true_r. lia.
Qed.

Ltac compute_nets :=
  repeat match goal with |- context [?n / 2 ^ ?k] =>
    let t := constr:(n / 2 ^ k) in
    lazymatch n with context [num] => let v := eval vm_compute in t in change t with v end
  end.

Lemma four_bytes (q : IP) : length q = 4%nat -> exists a b c d, q = [a; b; c; d].
Proof. destruct q as [|a [|b [|c [|d [|]]]]]; try done. by exists a, b, c, d. Qed.

Lemma blockedV4_table (q : IP) :
  length q = 4%nat -> Forall is_byte q -> blockedV4 q = in_table 32 v4_table (num q).
Proof.
  intros (a & b & c & d & ->)%four_bytes Hq.
  rewrite !Forall_cons in Hq. destruct Hq as (Ha & Hb & Hc & Hd & _).
  assert (0 <= b / 64 < 4 /\ 0 <= b / 16 < 16 /\ 0 <= b / 2 < 128) as (H1 & H2 & H3) by (unfold is_byte in *; zlia).
  set (n := num [a; b; c; d]).
  assert (n / 2 ^ 24 = a /\ n / 2 ^ 22 = a * 4 + b / 64 /\ n / 2 ^ 20 = a * 16 + b / 16 /\ n / 2 ^ 17 = a * 128 + b / 2) as (E1 & E2 & E3 & E4).
  { subst n. unfold num, is_byte in *. cbn [foldl]. zlia. }
  assert (n / 2 ^ 16 = a * 256 + b /\ n / 2 ^ 8 = (a * 256 + b) * 256 + c /\ n / 2 ^ 28 = a / 16) as (E5 & E6 & E7).
  { subst n. unfold num, is_byte in *. cbn [foldl]. zlia. }
  unfold in_table, v4_table, in_net. cbn [existsb fst snd].
  change (32 - 8) with 24. change (32 - 10) with 22. change (32 - 16) with 16. change (32 - 12) with 20.
  change (32 - 24) with 8. change (32 - 15) with 17. change (32 - 4) with 28. rewrite E1, E2, E3, E4, E5, E6, E7.
  clearbody n. clear E1 E2 E3 E4 E5 E6 E7.
  unfold blockedV4, special, IsLoopback, IsPrivate, IsUnspecified, IsLinkLocalUnicast, IsLinkLocalMulticast,
    IsInterfaceLocalMulticast, IsMulticast, by_family.
  cbn [To4 length Nat.eqb nth_byte nth allZero forallb].
  rewrite mask_172, mask_100, mask_198, mask_224 by done. compute_nets. unfold is_byte in *.
  assert (0 <= a / 16 < 16 /\ 16 * (a / 16) <= a < 16 * (a / 16) + 16) as [H4 H5] by zlia.
  generalize dependent (b / 64). generalize dependent (b / 16). generalize dependent (b / 2). generalize dependent (a / 16).
  intros a16 H4 H5 b2 H3 b16 H1 b64 H2.
  apply eq_iff_eq_true. rewrite !orb_true_iff, !andb_true_iff, !Z.eqb_eq, !Z.leb_le, ?orb_false_iff.
  assert ((a * 4 + b64 = 401 <-> a = 100 /\ b64 = 1) /\ (a * 256 + b = 43518 <-> a = 169 /\ b = 254) /\
    (a * 16 + b16 = 2753 <-> a = 172 /\ b16 = 1) /\ ((a * 256 + b) * 256 + c = 12582912 <-> a = 192 /\ b = 0 /\ c = 0) /\
    (a * 256 + b = 49320 <-> a = 192 /\ b = 168) /\ (a * 128 + b2 = 25353 <-> a = 198 /\ b2 = 9) /\
    (a16 = 15 <-> 240 <= a) /\ (a = 224 -> a16 = 14)) as (-> & -> & -> & -> & -> & -> & -> & H224) by (split_and!; lia).
  assert (false <> true) by done. clear -H224 H. tauto.
Qed.

Lemma sixteen_bytes (ip : IP) :
  length ip = 16%nat -> exists b0 b1 b2 b3 m q, ip = [b0; b1] ++ [b2; b3] ++ m ++ q /\ length m = 8%nat /\ length q = 4%nat.
Proof.
  intros H. destruct ip as [|b0 [|b1 [|b2 [|b3 ip]]]]; try done. exists b0, b1, b2, b3, (take 8 ip), (drop 8 ip).
  rewrite take_drop. cbn in H. rewrite length_take, length_drop. split; [done|]. lia.
Qed.

(** The parts of a 16-byte address the policy looks at. *)
Lemma number_parts b0 b1 b2 b3 m q :
  length m = 8%nat -> length q = 4%nat -> Forall is_byte ([b0; b1] ++ [b2; b3] ++ m ++ q) ->
  let n := num ([b0; b1] ++ [b2; b3] ++ m ++ q) in
  n / 2 ^ 32 = num ([b0; b1] ++ [b2; b3] ++ m) /\ n mod 2 ^ 32 = num q /\
  n / 2 ^ 80 mod 2 ^ 32 = num ([b2; b3] ++ take 2 m) /\
  n / 2 ^ 112 = b0 * 256 + b1 /\ n / 2 ^ 120 = b0 /\ n / 2 ^ 121 = b0 / 2 /\ n / 2 ^ 118 = b0 * 4 + b1 / 64.
Proof.
  intros Hm Hq Hall n. subst n. assert (Hall' := Hall). rewrite !Forall_app in Hall'. destruct Hall' as (H01 & H23 & Hmb & Hqb).
  assert (Hdiv : num ([b0; b1] ++ [b2; b3] ++ m ++ q) / 2 ^ 112 = b0 * 256 + b1).
  { rewrite (proj1 (num_div [b0; b1] ([b2; b3] ++ m ++ q) (2 ^ 112) ltac:(by rewrite !Forall_app)
      ltac:(rewrite !length_app, Hm, Hq; done))).
    unfold num. cbn. lia. }
  assert (H0 : is_byte b0 /\ is_byte b1) by (by rewrite !Forall_cons in H01; destruct H01 as (? & ? & _)).
  assert (Hnext : forall k, 0 <= k -> num ([b0; b1] ++ [b2; b3] ++ m ++ q) / 2 ^ (112 + k) = (b0 * 256 + b1) / 2 ^ k).
  { intros k Hk. rewrite Z.pow_add_r, <- Z.div_div, Hdiv by lia. done. }
  split_and!.
  - rewrite !(app_assoc [b0; b1]), (app_assoc _ m q). apply num_div; [done|]. by rewrite Hq.
  - rewrite !(app_assoc [b0; b1]), (app_assoc _ m q). apply num_div; [done|]. by rewrite Hq.
  - rewrite <- (take_drop 2 m) at 1. rewrite <- (app_assoc (take 2 m)), (app_assoc [b2; b3]), (app_assoc [b0; b1]).
    rewrite (proj1 (num_div _ (drop 2 m ++ q) (2 ^ 80) ltac:(rewrite Forall_app; split; [by apply Forall_drop|done])
      ltac:(rewrite length_app, length_drop, Hm, Hq; done))).
    apply num_div; [rewrite Forall_app; split; [done|by apply Forall_take]|]. rewrite length_app, length_take, Hm. done.
  - done.
  - change 120 with (112 + 8). rewrite Hnext by lia. unfold is_byte in *. zlia.
  - change 121 with (112 + 9). rewrite Hnext by lia. unfold is_byte in *. zlia.
  - change 118 with (112 + 6). rewrite Hnext by lia. unfold is_byte in *. zlia.
Qed.

Lemma num12_iff (b0 b1 b2 b3 m0 m1 m2 m3 m4 m5 m6 m7 : Z) :
  Forall is_byte [b0; b1; b2; b3; m0; m1; m2; m3; m4; m5; m6; m7] ->
  let x := num [b0; b1; b2; b3; m0; m1; m2; m3; m4; m5; m6; m7] in
  let zeros := m0 = 0 /\ m1 = 0 /\ m2 = 0 /\ m3 = 0 /\ m4 = 0 /\ m5 = 0 in
  (x = 65535 <-> (b0 = 0 /\ b1 = 0 /\ b2 = 0 /\ b3 = 0 /\ zeros) /\ m6 = 255 /\ m7 = 255) /\
  (x = num [0; 100; 255; 155] * 2 ^ 64 <-> (b0 = 0 /\ b1 = 100 /\ b2 = 255 /\ b3 = 155) /\ zeros /\ m6 = 0 /\ m7 = 0) /\
  (x = 0 <-> b0 = 0 /\ b1 = 0 /\ b2 = 0 /\ b3 = 0 /\ zeros /\ m6 = 0 /\ m7 = 0).
Proof.
  intros Hall x zeros. subst x zeros. rewrite !Forall_cons in Hall. unfold is_byte in Hall.
  destruct Hall as (? & ? & ? & ? & ? & ? & ? & ? & ? & ? & ? & ? & _). unfold num. cbn [foldl]. change (2 ^ 64) with 18446744073709551616. split_and!; lia.
Qed.

Lemma fe80_top b0 b1 : is_byte b0 -> is_byte b1 -> b0 * 4 + b1 / 64 = 1018 <-> b0 = 254 /\ b1 / 64 = 2.
Proof. unfold is_byte. zlia. Qed.

Lemma top_2002 b0 b1 : is_byte b0 -> is_byte b1 -> (b0 =? 32) && (b1 =? 2) = (b0 * 256 + b1 =? 8194).
Proof. unfold is_byte. intros. apply eq_iff_eq_true. rewrite andb_true_iff, !Z.eqb_eq. lia. Qed.
Ltac same_conj := split; let H := fresh in intros H; decompose [and] H; repeat split; assumption.

Lemma blocked_16 (ip : IP) : Forall is_byte ip -> length ip = 16%nat -> IsBlockedIP ip = blocked_number (num ip).
Proof.
  intros Hall (b0 & b1 & b2 & b3 & m & q & -> & Hm & Hq)%sixteen_bytes.
  destruct (number_parts b0 b1 b2 b3 m q Hm Hq Hall) as (E12 & Eq & E64 & E2 & E1 & E7 & E10).
  assert (Hb := Hall). rewrite !Forall_app in Hb. destruct Hb as (Hb01 & Hb23 & Hmb & Hqb).
  assert (H6 : blockedV4 ([b2; b3] ++ take 2 m) = in_table 32 v4_table (num ([b2; b3] ++ take 2 m))).
  { apply blockedV4_table; [by rewrite length_app, length_take, Hm|]. rewrite Forall_app. split; [done|by apply Forall_take]. }
  assert (H4 := blockedV4_table q Hq Hqb).
  unfold blocked_number, embedded_v4, in_net. cbn [fst snd].
  change (128 - 96) with 32. change (128 - 16) with 112. rewrite E12, Eq, E64, E2.
  assert (in_table 128 v6_table (num ([b0; b1] ++ [b2; b3] ++ m ++ q)) =
    ((num ([b0; b1] ++ [b2; b3] ++ m) =? 0) || (b0 / 2 =? 126) || (b0 * 4 + b1 / 64 =? 1018) || (b0 =? 255))) as ->.
  { unfold in_table, v6_table, in_net. cbn [existsb fst snd]. change (128 - 96) with 32. change (128 - 7) with 121.
    change (128 - 10) with 118. change (128 - 8) with 120. rewrite E12, E1, E7, E10, orb_false_r, <- !orb_assoc. done. }
  clear E12 Eq E64 E2 E1 E7 E10.
  destruct m as [|m0 [|m1 [|m2 [|m3 [|m4 [|m5 [|m6 [|m7 [|]]]]]]]]]; try done.
  destruct q as [|q0 [|q1 [|q2 [|q3 [|]]]]]; try done. cbn [app] in *. clear Hm Hq.
  destruct (num12_iff b0 b1 b2 b3 m0 m1 m2 m3 m4 m5 m6 m7) as (Hmap & H64 & Hzero).
  { rewrite !Forall_cons in Hall. destruct_and! Hall. repeat (apply Forall_cons; split; [assumption|]). by apply Forall_nil. }
  set (ip := b0 :: _) at 1. set (x := num [b0; b1; b2; b3; m0; m1; m2; m3; m4; m5; m6; m7]) in *.
  clearbody x. rewrite !Forall_cons in Hb01. destruct Hb01 as (Hb0 & Hb1 & _).
  destruct (Z.eqb_spec x 65535) as [Ex|Nx].
  - assert (To4 ip = Some [q0; q1; q2; q3]) as E4.
    { apply Hmap in Ex as ((-> & -> & -> & -> & -> & -> & -> & -> & -> & ->) & -> & ->). done. }
    unfold IsBlockedIP. rewrite E4, Ex. compute_nets. cbn. done.
  - assert (To4 ip = None) as E4.
    { unfold To4. change (Nat.eqb (length ip) 4) with false. cbv match. destruct (_ && _) eqn:E; [exfalso|done].
      unfold nth_byte in E. cbn in E. rewrite !andb_true_iff, !Z.eqb_eq in E. apply Nx, Hmap. tauto. }
    assert (special ip || (x =? 0) =
      ((x =? 0) || (b0 / 2 =? 126) || (b0 * 4 + b1 / 64 =? 1018) || (b0 =? 255)))
      as Esp.
    { unfold special, IsLoopback, IsPrivate, IsUnspecified, IsLinkLocalUnicast, IsLinkLocalMulticast,
        IsInterfaceLocalMulticast, IsMulticast, by_family. rewrite E4. unfold nth_byte. cbn [length ip Nat.eqb andb take nth allZero forallb].
      subst ip. cbn. rewrite mask_fc, mask_fe80 by done. apply eq_iff_eq_true.
      rewrite !orb_true_iff, !andb_true_iff, !Z.eqb_eq, Hzero.
      rewrite fe80_top by done.
      clear. tauto. }
    unfold IsBlockedIP. rewrite E4. cbn [To16 length Nat.eqb ip].
    assert ((nth_byte ip 0 =? 0) && (nth_byte ip 1 =? 100) && (nth_byte ip 2 =? 255) && (nth_byte ip 3 =? 155) &&
      allZero (take 8 (drop 4 ip)) = (x =? num [0; 100; 255; 155] * 2 ^ 64)) as ->.
    { apply eq_iff_eq_true. rewrite Z.eqb_eq, H64. subst ip. unfold nth_byte. cbn. rewrite !andb_true_iff, !Z.eqb_eq. clear. same_conj. }
    assert ((nth_byte ip 0 =? 32) && (nth_byte ip 1 =? 2) = (b0 * 256 + b1 =? 8194)) as ->.
    { apply (top_2002 b0 b1); done. }
    assert (allZero (take 12 ip) = (x =? 0)) as ->.
    { apply eq_iff_eq_true. rewrite Z.eqb_eq, Hzero. subst ip. cbn. rewrite !andb_true_iff, !Z.eqb_eq. clear. same_conj. }
    assert (num [255; 255; 0; 0; 0; 0] / 2 ^ 32 = 65535) as -> by reflexivity.
    assert (num [0; 100; 255; 155] * 2 ^ 96 / 2 ^ 32 = num [0; 100; 255; 155] * 2 ^ 64) as -> by reflexivity.
    assert (num [32; 2] * 2 ^ 112 / 2 ^ 112 = 8194) as -> by reflexivity.
    rewrite (proj2 (Z.eqb_neq _ _) Nx).
    destruct (Z.eqb_spec x (num [0; 100; 255; 155] * 2 ^ 64)) as [E64|N64].
    + assert (special ip = false) as ->.
      { clear -E64 H64 Esp. pose proof (proj1 H64 E64) as ((-> & -> & _) & _). rewrite E64 in Esp.
        assert (num [0; 100; 255; 155] * 2 ^ 64 =? 0 = false) as E0 by reflexivity. rewrite E0 in Esp. cbn in Esp.
        by destruct (special ip). }
      exact H4.
    + destruct (Z.eqb_spec (b0 * 256 + b1) 8194) as [E2002|N2002]; [|].
      * assert (special ip = false) as ->; [|exact H6].
        assert (b0 = 32) as -> by (clear -E2002 Hb0 Hb1; unfold is_byte in *; lia).
        destruct (Z.eqb_spec x 0) as [E0|N0]; [exfalso; apply Hzero in E0 as [? _]; done|].
        destruct (special ip); [|done]. clear -Esp Hb1. exfalso. revert Esp. cbn.
        destruct (Z.eqb_spec (32 * 4 + b1 / 64) 1018) as [E|_]; [|done]. exfalso. unfold is_byte in Hb1. zlia.
      * rewrite <- Esp. by destruct (special ip).
Qed.

(** ** Theorems *)

(** An address is refused exactly when the number it denotes lies in one
    of the networks of the policy, after an IPv4 address is taken out of the
    IPv6 form that carries it (mapped, NAT64, 6to4): so no way of writing an
    internal IPv4 address escapes.  A slice that is no address is refused. *)
Theorem IsBlockedIP_correct (ip : IP) :
  Forall is_byte ip ->
  (length ip = 4%nat -> IsBlockedIP ip = in_table 32 v4_table (num ip)) /\
  (length ip = 16%nat -> IsBlockedIP ip = blocked_number (num ip)) /\
  (length ip <> 4%nat -> length ip <> 16%nat -> IsBlockedIP ip = true) /\
  (length ip = 4%nat -> forall m, length m = 10%nat -> Forall is_byte m ->
     IsBlockedIP (repeat 0 10 ++ [255; 255] ++ ip) = IsBlockedIP ip /\
     IsBlockedIP ([0; 100; 255; 155] ++ repeat 0 8 ++ ip) = IsBlockedIP ip /\
     IsBlockedIP ([32; 2] ++ ip ++ m) = IsBlockedIP ip).
Proof.
  intros Hip. assert (H4 : length ip = 4%nat -> IsBlockedIP ip = blockedV4 ip).
  { intros Hl. unfold IsBlockedIP, To4. by rewrite Hl. }
  split_and!.
  - intros Hl. rewrite H4 by done. by apply blockedV4_table.
  - by apply blocked_16.
  - intros N4 N16. apply Nat.eqb_neq in N4, N16. unfold IsBlockedIP, To4, To16. by rewrite N4, N16.
  - intros Hl m Hm Hmb. rewrite H4 by done. destruct (four_bytes ip Hl) as (a & b & c & d & ->).
    do 10 (destruct m as [|? m]; [done|]). destruct m; [|done]. by split_and!.
Qed.
Lemma IsBlockedIP_correct_witness :
  IsBlockedIP [10; 1; 2; 3] = true /\
  IsBlockedIP ([0; 100; 255; 155] ++ repeat 0 8 ++ [169; 254; 169; 254]) = IsBlockedIP [169; 254; 169; 254] /\
  IsBlockedIP [1; 1; 1; 1] = false.
Proof.
  assert (forall a b c d, is_byte a -> is_byte b -> is_byte c -> is_byte d -> Forall is_byte [a; b; c; d]) as Hf.
  { intros. repeat (apply Forall_cons; split; [assumption|]). apply Forall_nil. exact I. }
  destruct (IsBlockedIP_correct [10; 1; 2; 3]) as (H & _); [apply Hf; unfold is_byte; lia|].
  destruct (IsBlockedIP_correct [169; 254; 169; 254]) as (_ & _ & _ & He); [apply Hf; unfold is_byte; lia|].
  split; [rewrite H by reflexivity; reflexivity|]. split; [|reflexivity].
  apply (He eq_refl (repeat 0 10)); [reflexivity|].
  repeat (apply Forall_cons; split; [unfold is_byte; lia|]). apply Forall_nil. exact I.
Defined.

(** *** Hosts *)

Lemma pattern_allows_spec p host :
  pattern_allows p host = true <->
  IsValidHostPattern p = true /\
  (host = p \/ exists domain, p = ("*." +:+ domain)%string /\ (host = domain \/ exists sub, host = sub +:+ "." +:+ domain)).
Proof.
  unfold pattern_allows. rewrite andb_true_iff, orb_true_iff, andb_true_iff, orb_true_iff, !String.eqb_eq.
  split; intros [Hv Hp]; (split; [done|]).
  - destruct Hp as [->|[(t & ->)%HasPrefix_spec Hp]]; [by left|]. right. exists t. split; [done|]. rewrite TrimPrefix_app in Hp.
    destruct Hp as [(sub & ->)%HasSuffix_spec| ->]; [right; by exists sub|by left].
  - destruct Hp as [->|(t & -> & Hp)]; [by left|]. right. rewrite TrimPrefix_app. split; [apply HasPrefix_spec; by exists t|].
    destruct Hp as [->|[sub ->]]; [by right|left]. apply HasSuffix_spec. by exists sub.
Qed.

Lemma HostAllowed_spec patterns host :
  HostAllowed patterns host = true <-> exists p, p ∈ patterns /\ pattern_allows p host = true.
Proof.
  unfold HostAllowed. rewrite existsb_exists. split; intros (p & Hp & H); exists p; (split; [|done]); by apply list_elem_of_In.
Qed.

Lemma str_split_one c s : str_contains c s = false -> str_split c s = [s].
Proof.
  induction s as [|d s IH]; cbn; [done|]. intros [Hd Hs]%orb_false_iff. rewrite Hd, IH by done. done.
Qed.

Lemma str_contains_take c n s : str_contains c (str_take n s) = true -> str_contains c s = true.
Proof. intros H. rewrite <- (str_take_drop n s), str_contains_app, H. done. Qed.

(** What is left of a valid pattern without its wildcard has a dot. *)
Lemma valid_pattern_dot p : IsValidHostPattern p = true -> str_contains "." (TrimPrefix p "*.") = true.
Proof.
  unfold IsValidHostPattern. destruct (_ || _); [done|].
  assert (Hdot : forall k, (if str_contains "*" (TrimPrefix (str_take k p) "*.") then false
    else if Nat.ltb (length (str_split "." (TrimPrefix (str_take k p) "*."))) 2 then false
         else forallb (fun l => negb (String.eqb l "")) (str_split "." (TrimPrefix (str_take k p) "*."))) = true ->
    str_contains "." (TrimPrefix p "*.") = true).
  { intros k Hk. destruct (str_contains "*" _); [done|].
    destruct (str_contains "." (TrimPrefix (str_take k p) "*.")) eqn:Ed; [|by rewrite str_split_one in Hk].
    clear Hk. destruct (HasPrefix p "*.") eqn:Ep.
    - apply HasPrefix_spec in Ep as [t ->]. rewrite TrimPrefix_app. destruct k as [|[|k]]; [done|done|].
      change (str_take (S (S k)) ("*." +:+ t)) with ("*." +:+ str_take k t)%string in Ed. rewrite TrimPrefix_app in Ed.
      by eapply str_contains_take.
    - unfold TrimPrefix at 1. unfold HasPrefix in Ep. rewrite Ep. apply (str_contains_take _ k).
      unfold TrimPrefix in Ed. destruct (String.prefix "*." (str_take k p)); [|done].
      rewrite <- (str_take_drop (String.length "*.") (str_take k p)), str_contains_app, Ed. apply orb_true_r. }
  assert (str_take (String.length p) p = p) as Hp.
  { rewrite <- (str_app_nil_r p) at 2. by apply str_take_app. }
  destruct (after_last ":" p) as [port|]; [destruct (str_contains "." port)|].
  - intros H. apply (Hdot (String.length p)). by rewrite Hp.
  - apply Hdot.
  - intros H. apply (Hdot (String.length p)). by rewrite Hp.
Qed.

(** The host policy is its documentation: a host passes exactly when a
    valid pattern names it, or a valid pattern "*.domain" names its domain;
    a valid pattern never stands for a top-level domain, so every host that
    passes has a dot; and a list of invalid patterns lets nothing through. *)
Theorem HostAllowed_correct patterns host :
  (HostAllowed patterns host = true <->
   exists p, p ∈ patterns /\ IsValidHostPattern p = true /\
     (host = p \/ exists domain, p = ("*." +:+ domain)%string /\
        (host = domain \/ exists sub, host = sub +:+ "." +:+ domain))) /\
  (HostAllowed patterns host = true -> str_contains "." host = true) /\
  ((forall p, p ∈ patterns -> IsValidHostPattern p = false) -> HostAllowed patterns host = false).
Proof.
  assert (Hiff : HostAllowed patterns host = true <->
    exists p, p ∈ patterns /\ IsValidHostPattern p = true /\
     (host = p \/ exists domain, p = ("*." +:+ domain)%string /\
        (host = domain \/ exists sub, host = sub +:+ "." +:+ domain))).
  { rewrite HostAllowed_spec. by setoid_rewrite pattern_allows_spec. }
  split_and!; [done| |].
  - intros (p & _ & Hv%valid_pattern_dot & Hh)%Hiff. destruct Hh as [->|(domain & -> & Hh)].
    + unfold TrimPrefix in Hv. destruct (String.prefix "*." p); [|done].
      rewrite <- (str_take_drop (String.length "*.") p), str_contains_app, Hv. apply orb_true_r.
    + rewrite TrimPrefix_app in Hv. destruct Hh as [->|[sub ->]]; [done|]. rewrite !str_contains_app, Hv. by rewrite !orb_true_r.
  - intros Hno. apply not_true_is_false. intros (p & Hp & Hv & _)%Hiff. by rewrite Hno in Hv.
Qed.
Lemma HostAllowed_correct_witness :
  HostAllowed ["*"; "*.com"; "*.*"]%string "evil.com" = false /\
  HostAllowed ["*.stripe.com"]%string "api.stripe.com" = true /\ str_contains "." "api.stripe.com" = true.
Proof.
  split; [|split; [reflexivity|apply (HostAllowed_correct ["*.stripe.com"]%string); reflexivity]].
  apply (HostAllowed_correct ["*"; "*.com"; "*.*"]%string "evil.com").
  intros p Hp. repeat (apply elem_of_cons in Hp as [->|Hp]; [reflexivity|]). by apply elem_of_nil in Hp.
Defined.

(** A client never follows more redirects than its bound, nor one to a
    host outside its list when it has one; it stops only at the end of the
    chain, at the bound, or at such a host. *)
Theorem hops_bounded `{UnicodeLower} (o : Options) redirects l r :
  hops o 1 redirects = (l, r) ->
  Z.of_nat (length l) <= max_redirects o /\ l `prefix_of` redirects /\
  (forall host, host ∈ l -> oAllowHosts o <> [] -> HostAllowed (oAllowHosts o) (ToLower host) = true) /\
  match r with
  | Ok _ => l = redirects
  | Err ErrTooManyRedirects => Z.of_nat (length l) = max_redirects o /\ l <> redirects
  | Err ErrHostNotAllowed => exists host, l ++ [host] `prefix_of` redirects /\ HostAllowed (oAllowHosts o) (ToLower host) = false
  | Err ErrBlockedEgress => False
  end.
Proof.
  assert (1 <= max_redirects o) as Hm by (unfold max_redirects; destruct (Z.leb_spec (oMaxRedirects o) 0); lia).
  intros Hh. rewrite <- (Z.add_0_l (Z.of_nat (length l))). assert (Hv : 0 <= max_redirects o) by lia.
  change (hops o (0 + 1) redirects = (l, r)) in Hh. revert Hh Hv. generalize 0 as n. clear Hm. revert l.
  induction redirects as [|host redirects IH]; intros l n; cbn [hops]; [intros [= <- <-] Hv; cbn; split_and!; [lia|done|set_solver|done]|].
  unfold CheckRedirect. destruct (Z.ltb_spec (max_redirects o) (n + 1)); [intros [= <- <-] Hv; cbn; split_and!; [lia|by exists (host :: redirects)|set_solver|lia|done]|].
  destruct (negb (Nat.eqb (length (oAllowHosts o)) 0) && negb (HostAllowed (oAllowHosts o) (ToLower host))) eqn:E.
  { intros [= <- <-] Hv. cbn. apply andb_true_iff in E as [_ E%negb_true_iff].
    split_and!; [lia|by exists (host :: redirects)|set_solver|]. exists host. split; [by exists redirects|done]. }
  destruct (hops o (n + 1 + 1) redirects) as [k r'] eqn:Ek. intros [= <- <-] Hv.
  destruct (IH k (n + 1) Ek ltac:(lia)) as (Hl & Hp & Ha & Hr).
  assert (n + Z.of_nat (length (host :: k)) = n + 1 + Z.of_nat (length k)) as Hlen by (cbn; lia).
  split_and!; [lia|by apply prefix_cons| |].
  - intros h [->|Hin]%elem_of_cons Hne; [|by apply Ha]. destruct (HostAllowed _ (ToLower host)); [done|].
    rewrite andb_true_r in E. apply negb_false_iff, Nat.eqb_eq, length_zero_iff_nil in E. done.
  - destruct r' as [u|[]]; [by rewrite Hr|done| |destruct Hr; split; [lia|congruence]].
    destruct Hr as (h & Hh & Hf). exists h. split; [by apply (prefix_cons host)|done].
Qed.
Lemma hops_bounded_witness :
  let o := mkOptions 0 ["*.example.com"]%string 2 false in
  let chain := ["a.example.com"; "b.example.com"; "c.example.com"]%string in
  hops (H := fun s => s) o 1 chain = (["a.example.com"; "b.example.com"]%string, Err ErrTooManyRedirects) /\
  Z.of_nat 2 <= max_redirects o.
Proof.
  intros o chain. assert (hops (H := fun s => s) o 1 chain =
    (["a.example.com"; "b.example.com"]%string, Err ErrTooManyRedirects)) as E by (vm_compute; reflexivity).
  split; [exact E|]. apply (hops_bounded (H := fun s => s) o chain _ _ E).
Defined.
