(* ===== verification/Capabilities.v ===== *)
(** * What an addon may do (security/context.go, security/enforcer.go)

    The policy compiled from an addon's declared capabilities, the questions
    the runtime asks it, the guard of outbound requests, and the enforcer
    with its shadow mode.  A method that returns an error is a boolean here:
    true when the error is nil. *)

From stdpp Require Import gmap.
From S2P Require Import Prelude GoStrings NetGuard.

(** ** Patterns *)

Definition glob_matches (p value : string) : bool :=
  (String.eqb p "*" || String.eqb p value) ||
  (HasSuffix p ".*" &&
   (HasPrefix value (TrimSuffix p ".*" +:+ ".") || String.eqb value (TrimSuffix p ".*"))) ||
  (HasPrefix p "*." &&
   (HasSuffix value (String "." (TrimPrefix p "*.")) || String.eqb value (TrimPrefix p "*."))).
Definition matchAny (patterns : list string) (value : string) : bool :=
  existsb (fun p => glob_matches p value) patterns.

(** ** The compiled policy *)

Record Capability := mkCapability { Kind : string; Target : string }.

Record ConnectorHostRef := mkConnectorHostRef { Connector : string; Credential : string }.
#[export] Instance ConnectorHostRef_eq_dec : EqDecision ConnectorHostRef.
Proof. solve_decision. Defined.

Definition ConnectorHostPrefix : string := "connector:".

Definition ParseConnectorHostRef (target : string) : option ConnectorHostRef :=
  let t := TrimSpace target in
  if negb (HasPrefix t ConnectorHostPrefix) then None else
  let rest := TrimPrefix t ConnectorHostPrefix in
  match cut "." rest with
  | Some (conn, cred) =>
      if String.eqb conn "" || String.eqb cred "" ||
         existsb (fun c => str_contains c rest) ["*"; "/"; ":"; " "]%char then None
      else Some (mkConnectorHostRef conn cred)
  | None => None
  end.

Record Capabilities := mkCapabilities {
  addonKey : string;
  dbRead : list string; dbWrite : list string; httpHost : list string; connHost : list ConnectorHostRef;
  eventPub : list string; eventSub : list string; connRead : list string; ctxScope : gset string;
  capQuery : list string; edgeCmd : list string; domManage : list string
}.

Definition ctx_kinds : list string := ["ctx:user"; "ctx:roles"; "ctx:org_config"]%string.

(** One turn of the loop of [Compile]. *)
Definition compile_one (c : Capabilities) (cap : Capability) : Capabilities :=
  let '(mkCapabilities key dr dw hh ch ep es cr cs cq ec dm) := c in
  let '(mkCapability kind t) := cap in
  if String.eqb kind "db:read" then mkCapabilities key (dr ++ [t]) dw hh ch ep es cr cs cq ec dm
  else if String.eqb kind "db:write" then mkCapabilities key dr (dw ++ [t]) hh ch ep es cr cs cq ec dm
  else if String.eqb kind "http:fetch" then
    match ParseConnectorHostRef t with
    | Some ref => mkCapabilities key dr dw hh (ch ++ [ref]) ep es cr cs cq ec dm
    | None => mkCapabilities key dr dw (hh ++ [t]) ch ep es cr cs cq ec dm
    end
  else if String.eqb kind "event:emit" then mkCapabilities key dr dw hh ch (ep ++ [t]) es cr cs cq ec dm
  else if String.eqb kind "event:subscribe" then mkCapabilities key dr dw hh ch ep (es ++ [t]) cr cs cq ec dm
  else if String.eqb kind "connector:read" then mkCapabilities key dr dw hh ch ep es (cr ++ [t]) cs cq ec dm
  else if String.eqb kind "capability:query" then mkCapabilities key dr dw hh ch ep es cr cs (cq ++ [t]) ec dm
  else if String.eqb kind "edge:command" then mkCapabilities key dr dw hh ch ep es cr cs cq (ec ++ [t]) dm
  else if String.eqb kind "domain:manage" then mkCapabilities key dr dw hh ch ep es cr cs cq ec (dm ++ [t])
  else if bool_decide (kind ∈ ctx_kinds) then
    mkCapabilities key dr dw hh ch ep es cr ({[TrimPrefix kind "ctx:"]} ∪ cs) cq ec dm
  else c.

Section policy.
Context `{UnicodeLower}.

Definition selfSchema (key : string) : string := "addon_" +:+ ToLower key +:+ ".*".

Definition Compile (key : string) (caps : list Capability) : Capabilities :=
  let '(mkCapabilities key dr dw hh ch ep es cr cs cq ec dm) :=
    foldl compile_one (mkCapabilities key [] [] [] [] [] [] [] ∅ [] [] []) caps in
  mkCapabilities key (dr ++ [selfSchema key]) (dw ++ [selfSchema key]) hh ch ep es cr cs cq ec dm.

Definition CanReadModel (c : Capabilities) (model : string) : bool := matchAny (dbRead c) model || matchAny (dbWrite c) model.
Definition CanWriteModel (c : Capabilities) (model : string) : bool := matchAny (dbWrite c) model.
Definition CanEmit (c : Capabilities) (event : string) : bool := matchAny (eventPub c) event.
Definition CanSubscribe (c : Capabilities) (event : string) : bool := matchAny (eventSub c) event.
Definition CanReadConnector (c : Capabilities) (connector : string) : bool := matchAny (connRead c) connector.

(** These accept a nil policy. *)
Definition CanManageDomain (c : option Capabilities) (purpose : string) : bool :=
  match c with Some c => matchAny (domManage c) purpose | None => false end.
Definition CanResolveDNS (c : option Capabilities) : bool :=
  match c with Some c => negb (Nat.eqb (length (domManage c)) 0) | None => false end.
Definition CanQueryCapability (c : option Capabilities) (key : string) : bool :=
  match c with Some c => matchAny (capQuery c) key | None => false end.
Definition CanSendEdgeCommand (c : option Capabilities) (deviceKey kind : string) : bool :=
  match c with
  | Some c => negb (blank deviceKey) && matchAny (edgeCmd c) (deviceKey +:+ String "." kind)
  | None => false
  end.
Definition CanReadContext (c : option Capabilities) (scope : string) : bool :=
  match c with Some c => bool_decide (scope ∈ ctxScope c) | None => false end.
Definition ConnectorHostRefs (c : option Capabilities) : list ConnectorHostRef :=
  match c with Some c => connHost c | None => [] end.

(** ** Outbound requests *)

(** What the code uses of a parsed URL; [url.Parse] is a parameter of which
    nothing is assumed. *)
Record URL := mkURL { uScheme : string; uHost : string }.
Class GoURL := url_Parse : string -> option URL.

Definition validOptionalPort (port : string) : bool := str_forall is_digit port.
(** [u.Hostname()]. *)
Definition Hostname (u : URL) : string :=
  let host := match after_last ":" (uHost u) with
              | Some port => if validOptionalPort port
                             then str_take (String.length (uHost u) - String.length port - 1) (uHost u) else uHost u
              | None => uHost u
              end in
  if HasPrefix host "[" && HasSuffix host "]" then str_take (String.length host - 2) (str_drop 1 host) else host.

Definition is_bracket (c : ascii) : bool := Ascii.eqb c "[" || Ascii.eqb c "]".
(** [strings.Trim(h, "[]")]. *)
Definition trim_brackets (h : string) : string :=
  let '(_, r) := span is_bracket h in str_rev (snd (span is_bracket (str_rev r))).

Definition internal_hosts : list string :=
  [""; "localhost"; "127.0.0.1"; "::1"; "0.0.0.0"; "169.254.169.254"; "metadata.google.internal"; "metadata"]%string.

Context `{GoURL} `{GoNet}.

Definition isBlockedEgressHost (h : string) : bool :=
  match ParseIP (trim_brackets h) with Some ip => IsBlockedIP ip | None => false end ||
  bool_decide (ToLower h ∈ internal_hosts) ||
  (HasPrefix h "10." || HasPrefix h "192.168.") ||
  (HasPrefix h "172." &&
   match str_split "." h with
   | _ :: part :: _ => match Atoi part with Some n => (16 <=? n) && (n <=? 31) | None => false end
   | _ => false
   end).

Definition is_http (u : URL) : bool := String.eqb (uScheme u) "https" || String.eqb (uScheme u) "http".

Definition matchHTTPHost (patterns : list string) (value : string) : bool := HostAllowed patterns value.

Definition CanFetch (c : Capabilities) (rawURL : string) : bool :=
  match url_Parse rawURL with
  | None => false
  | Some u => is_http u && negb (isBlockedEgressHost (Hostname u)) && matchHTTPHost (httpHost c) (uHost u)
  end.

Definition CanFetchHosts (c : Capabilities) (rawURL : string) (hosts : list string) : bool :=
  if CanFetch c rawURL || Nat.eqb (length hosts) 0 then CanFetch c rawURL else
  match url_Parse rawURL with
  | None => false
  | Some u =>
      if negb (is_http u) || isBlockedEgressHost (Hostname u) then false
      else existsb (fun h => negb (String.eqb h "") && String.eqb h (ToLower (uHost u))) hosts
  end.

Fixpoint str_contains_sub (sub s : string) : bool :=
  HasPrefix s sub || match s with String _ r => str_contains_sub sub r | EmptyString => false end.

Definition HostFromCredential (v : string) : string :=
  let v := TrimSpace v in
  if String.eqb v "" then ""%string else
  let v := if negb (str_contains_sub "://" v) then "https://" +:+ v else v in
  match url_Parse v with
  | None => ""%string
  | Some u => if String.eqb (Hostname u) "" || str_contains "*" (uHost u) then ""%string else ToLower (uHost u)
  end.

(** ** The enforcer *)

Inductive Mode : Type := ModeShadow | ModeEnforce.

(** [env] is the value of METACORE_ENFORCE. *)
Definition ModeFromEnv (env : string) : Mode :=
  if bool_decide (ToLower (TrimSpace env) ∈ ["shadow"; "0"; "false"; "no"; "off"]%string) then ModeShadow else ModeEnforce.

(** [None] is an enforcer without a resolver. *)
Definition Lookup : Type := option (string -> option Capabilities).

Definition capability_granted (lookup : Lookup) (addon kind target : string) : bool :=
  match lookup with
  | None => false
  | Some lookup =>
      match lookup addon with
      | None => false
      | Some caps =>
          if String.eqb kind "db:read" then CanReadModel caps target
          else if String.eqb kind "db:write" then CanWriteModel caps target
          else if String.eqb kind "http:fetch" then CanFetch caps target
          else if String.eqb kind "event:emit" then CanEmit caps target
          else if String.eqb kind "event:subscribe" then CanSubscribe caps target
          else false
      end
  end.

(** Whether the call may proceed, and whether a violation was reported. *)
Definition CheckCapability (mode : Mode) (lookup : Lookup) (addon kind target : string) : bool * bool :=
  if capability_granted lookup addon kind target then (true, false)
  else match mode with ModeEnforce => (false, true) | ModeShadow => (true, true) end.
End policy.

(** ** What a pattern covers *)

Definition under (dir value : string) : Prop := value = dir \/ exists rest, value = dir +:+ "." +:+ rest.
Definition within (domain value : string) : Prop := value = domain \/ exists sub, value = sub +:+ "." +:+ domain.
Definition covers (p value : string) : Prop :=
  p = "*"%string \/ p = value \/ (exists dir, p = (dir +:+ ".*")%string /\ under dir value) \/
  (exists domain, p = ("*." +:+ domain)%string /\ within domain value).

Lemma glob_spec p value : glob_matches p value = true <-> covers p value.
Proof.
  unfold glob_matches, covers, under, within. rewrite !orb_true_iff, !andb_true_iff, !orb_true_iff, !String.eqb_eq. split.
  - intros [[[-> | ->]|[(dir & ->)%HasSuffix_spec Hv]]|[(domain & ->)%HasPrefix_spec Hv]]; [by left|by right; left|right; right; left|].
    + rewrite TrimSuffix_app in Hv. exists dir. split; [done|]. destruct Hv as [(t & ->)%HasPrefix_spec| ->]; [right|by left].
      exists t. by rewrite str_app_assoc.
    + rewrite TrimPrefix_app in Hv. right; right; right. exists domain. split; [done|].
      destruct Hv as [(t & ->)%HasSuffix_spec| ->]; [right; by exists t|by left].
  - intros [->|[->|[(dir & -> & Hv)|(domain & -> & Hv)]]]; [by left; left; left|by left; left; right|left; right|right].
    + rewrite TrimSuffix_app. split; [apply HasSuffix_spec; by exists dir|]. destruct Hv as [->|[t ->]]; [by right|left].
      apply HasPrefix_spec. exists t. by rewrite str_app_assoc.
    + rewrite TrimPrefix_app. split; [apply HasPrefix_spec; by exists domain|]. destruct Hv as [->|[t ->]]; [by right|left].
      apply HasSuffix_spec. by exists t.
Qed.

Lemma matchAny_spec patterns value : matchAny patterns value = true <-> exists p, p ∈ patterns /\ covers p value.
Proof.
  unfold matchAny. rewrite existsb_exists. setoid_rewrite glob_spec.
  split; intros (p & Hp & H); exists p; (split; [|done]); by apply list_elem_of_In.
Qed.

(** ** What is compiled *)

Section compiled.
Context `{UnicodeLower}.

(** The targets declared under a kind. *)
Definition targets (kind : string) (cap : Capability) : list string :=
  if String.eqb (Kind cap) kind then [Target cap] else [].

Lemma foldl_proj {A} (f : Capabilities -> list A) (g : Capability -> list A) caps c :
  (forall c cap, f (compile_one c cap) = f c ++ g cap) -> f (foldl compile_one c caps) = f c ++ concat (map g caps).
Proof.
  intros Hf. revert c. induction caps as [|cap caps IH]; intros c; cbn; [by rewrite app_nil_r|].
  by rewrite IH, Hf, <- app_assoc.
Qed.

Ltac compile_cases :=
  intros [] [kind t]; unfold targets; cbn [compile_one Kind Target];
  repeat match goal with
    | |- context [String.eqb kind ?k] => is_var kind; destruct (String.eqb_spec kind k) as [->|]
    end;
  cbn -[ParseConnectorHostRef ctx_kinds]; try destruct (ParseConnectorHostRef t); try destruct (bool_decide _);
  cbn; rewrite ?app_nil_r; try done.

Lemma compile_dbRead c cap : dbRead (compile_one c cap) = dbRead c ++ targets "db:read" cap.
Proof. revert c cap. compile_cases. Qed.
Lemma compile_dbWrite c cap : dbWrite (compile_one c cap) = dbWrite c ++ targets "db:write" cap.
Proof. revert c cap. compile_cases. Qed.
Lemma compile_eventPub c cap : eventPub (compile_one c cap) = eventPub c ++ targets "event:emit" cap.
Proof. revert c cap. compile_cases. Qed.
Lemma compile_eventSub c cap : eventSub (compile_one c cap) = eventSub c ++ targets "event:subscribe" cap.
Proof. revert c cap. compile_cases. Qed.
Lemma compile_connRead c cap : connRead (compile_one c cap) = connRead c ++ targets "connector:read" cap.
Proof. revert c cap. compile_cases. Qed.
Lemma compile_capQuery c cap : capQuery (compile_one c cap) = capQuery c ++ targets "capability:query" cap.
Proof. revert c cap. compile_cases. Qed.
Lemma compile_edgeCmd c cap : edgeCmd (compile_one c cap) = edgeCmd c ++ targets "edge:command" cap.
Proof. revert c cap. compile_cases. Qed.
Lemma compile_domManage c cap : domManage (compile_one c cap) = domManage c ++ targets "domain:manage" cap.
Proof. revert c cap. compile_cases. Qed.

Definition host_targets (cap : Capability) : list string :=
  match ParseConnectorHostRef (Target cap) with Some _ => [] | None => targets "http:fetch" cap end.
Lemma compile_httpHost c cap : httpHost (compile_one c cap) = httpHost c ++ host_targets cap.
Proof.
  revert c cap. intros [] [kind t]. unfold host_targets, targets. cbn [compile_one Kind Target].
  destruct (ParseConnectorHostRef t) eqn:E;
  repeat match goal with
    | |- context [String.eqb kind ?k] => is_var kind; destruct (String.eqb_spec kind k) as [->|]
    end;
  cbn -[ParseConnectorHostRef ctx_kinds]; rewrite ?E; try destruct (bool_decide _); cbn; rewrite ?app_nil_r; try done.
Qed.

Lemma compile_ctxScope c cap scope :
  scope ∈ ctxScope (compile_one c cap) <->
  scope ∈ ctxScope c \/ (Kind cap ∈ ctx_kinds /\ scope = TrimPrefix (Kind cap) "ctx:").
Proof.
  assert (Hk : forall k, bool_decide (k ∈ ctx_kinds) = false ->
    (scope ∈ ctxScope c <-> scope ∈ ctxScope c \/ (k ∈ ctx_kinds /\ scope = TrimPrefix k "ctx:"))).
  { intros k Hk%bool_decide_eq_false. tauto. }
  destruct c as [key dr dw hh ch ep es cr cs cq ec dm], cap as [kind t]. cbn [compile_one Kind].
  repeat match goal with
    | |- context [String.eqb kind ?k] =>
        is_var kind; destruct (String.eqb_spec kind k) as [->|]; [try destruct (ParseConnectorHostRef t); apply Hk; reflexivity|]
    end.
  destruct (bool_decide_reflect (kind ∈ ctx_kinds)) as [Hin|Hin]; cbn [ctxScope]; [set_solver|tauto].
Qed.

Lemma foldl_ctxScope caps c scope :
  scope ∈ ctxScope (foldl compile_one c caps) <->
  scope ∈ ctxScope c \/ exists cap, cap ∈ caps /\ Kind cap ∈ ctx_kinds /\ scope = TrimPrefix (Kind cap) "ctx:".
Proof.
  revert c. induction caps as [|cap caps IH]; intros c; cbn [foldl]; [set_solver|].
  rewrite IH, compile_ctxScope. setoid_rewrite elem_of_cons. naive_solver.
Qed.

Lemma compile_addonKey caps c : addonKey (foldl compile_one c caps) = addonKey c.
Proof.
  revert c. induction caps as [|cap caps IH]; intros c; cbn [foldl]; [done|]. rewrite IH.
  destruct c, cap as [kind t]. cbn [compile_one]. repeat case_match; done.
Qed.

(** The fields of a compiled policy. *)
Lemma Compile_fields key caps :
  let c := Compile key caps in
  dbRead c = concat (map (targets "db:read") caps) ++ [selfSchema key] /\
  dbWrite c = concat (map (targets "db:write") caps) ++ [selfSchema key] /\
  httpHost c = concat (map host_targets caps) /\ eventPub c = concat (map (targets "event:emit") caps) /\
  eventSub c = concat (map (targets "event:subscribe") caps) /\ connRead c = concat (map (targets "connector:read") caps) /\
  capQuery c = concat (map (targets "capability:query") caps) /\ edgeCmd c = concat (map (targets "edge:command") caps) /\
  domManage c = concat (map (targets "domain:manage") caps) /\
  forall scope, scope ∈ ctxScope c <-> exists cap, cap ∈ caps /\ Kind cap ∈ ctx_kinds /\ scope = TrimPrefix (Kind cap) "ctx:".
Proof.
  unfold Compile. set (c0 := mkCapabilities key [] [] [] [] [] [] [] ∅ [] [] []).
  pose proof (foldl_proj dbRead _ caps c0 compile_dbRead). pose proof (foldl_proj dbWrite _ caps c0 compile_dbWrite).
  pose proof (foldl_proj httpHost _ caps c0 compile_httpHost). pose proof (foldl_proj eventPub _ caps c0 compile_eventPub).
  pose proof (foldl_proj eventSub _ caps c0 compile_eventSub). pose proof (foldl_proj connRead _ caps c0 compile_connRead).
  pose proof (foldl_proj capQuery _ caps c0 compile_capQuery). pose proof (foldl_proj edgeCmd _ caps c0 compile_edgeCmd).
  pose proof (foldl_proj domManage _ caps c0 compile_domManage). pose proof (foldl_ctxScope caps c0) as Hs.
  pose proof (compile_addonKey caps c0). destruct (foldl compile_one c0 caps). cbn in *. subst. split_and!; try done.
  intros scope. rewrite Hs. set_solver.
Qed.

Lemma in_targets kind caps p : p ∈ concat (map (targets kind) caps) <-> mkCapability kind p ∈ caps.
Proof.
  rewrite list_elem_of_In, in_concat. setoid_rewrite in_map_iff. rewrite list_elem_of_In. split.
  - intros (l & ([k t] & <- & Hc) & Hp). unfold targets in Hp. cbn in Hp.
    destruct (String.eqb_spec k kind) as [->|]; [|done]. by destruct Hp as [->|[]].
  - intros Hc. exists [p]. split; [|by left]. exists (mkCapability kind p). split; [|done].
    unfold targets. cbn. by rewrite String.eqb_refl.
Qed.
Lemma in_host_targets caps p :
  p ∈ concat (map host_targets caps) <-> mkCapability "http:fetch" p ∈ caps /\ ParseConnectorHostRef p = None.
Proof.
  rewrite list_elem_of_In, in_concat. setoid_rewrite in_map_iff. rewrite list_elem_of_In. unfold host_targets. split.
  - intros (l & ([k t] & <- & Hc) & Hp). cbn in Hp. destruct (ParseConnectorHostRef t) eqn:E; [done|]. unfold targets in Hp. cbn in Hp.
    destruct (String.eqb_spec k "http:fetch") as [->|]; [|done]. by destruct Hp as [->|[]].
  - intros [Hc Hn]. exists [p]. split; [|by left]. exists (mkCapability "http:fetch" p). split; [|done].
    cbn. rewrite Hn. reflexivity.
Qed.

Lemma matchAny_targets kind caps v :
  matchAny (concat (map (targets kind) caps)) v = true <-> exists t, mkCapability kind t ∈ caps /\ covers t v.
Proof. rewrite matchAny_spec. by setoid_rewrite in_targets. Qed.

Lemma matchAny_app l k v : matchAny (l ++ k) v = matchAny l v || matchAny k v.
Proof. apply existsb_app. Qed.

Lemma covers_self key v : matchAny [selfSchema key] v = true <-> under ("addon_" +:+ ToLower key) v.
Proof.
  rewrite matchAny_spec. setoid_rewrite list_elem_of_singleton. unfold covers, selfSchema. split.
  - intros (p & -> & [H1|[<-|[(dir & H1 & H2)|(d & H1 & _)]]]); try discriminate.
    + right. exists "*"%string. by rewrite str_app_assoc.
    + rewrite <- str_app_assoc in H1. apply (f_equal (fun s => TrimSuffix s ".*")) in H1. by rewrite !TrimSuffix_app in H1; subst.
  - intros Hu. eexists. split; [done|]. right; right; left. exists ("addon_" +:+ ToLower key)%string. split; [by rewrite str_app_assoc|done].
Qed.

(** ** Theorems *)

(** A declared capability of [kind] covers the value. *)
Definition declared (caps : list Capability) (kind value : string) : Prop :=
  exists t, mkCapability kind t ∈ caps /\ covers t value.

(** The compiled policy grants what the addon declared, and nothing else:
    reading and writing a model takes a capability whose pattern covers it,
    or the addon's own schema; every other question takes a declaration of
    its own kind; and an enforcing enforcer lets a call proceed exactly when
    the policy grants it, so an unknown addon or kind is always refused. *)
Theorem Compile_correct key caps lookup :
  lookup key = Some (Compile key caps) ->
  let c := Compile key caps in
  let own := under ("addon_" +:+ ToLower key) in
  let grants := declared caps in
  (forall m, CanReadModel c m = true <-> grants "db:read" m \/ grants "db:write" m \/ own m) /\
  (forall m, CanWriteModel c m = true <-> grants "db:write" m \/ own m) /\
  (forall e, CanEmit c e = true <-> grants "event:emit" e) /\
  (forall e, CanSubscribe c e = true <-> grants "event:subscribe" e) /\
  (forall k, CanReadConnector c k = true <-> grants "connector:read" k) /\
  (forall k, CanQueryCapability (Some c) k = true <-> grants "capability:query" k) /\
  (forall p, CanManageDomain (Some c) p = true <-> grants "domain:manage" p) /\
  (CanResolveDNS (Some c) = true <-> exists t, mkCapability "domain:manage" t ∈ caps) /\
  (forall d k, CanSendEdgeCommand (Some c) d k = true <-> blank d = false /\ grants "edge:command" (d +:+ String "." k)) /\
  (forall scope, CanReadContext (Some c) scope = true <->
     exists cap, cap ∈ caps /\ Kind cap ∈ ctx_kinds /\ scope = TrimPrefix (Kind cap) "ctx:") /\
  (forall (GU : GoURL) (GN : GoNet) kind v, CheckCapability ModeEnforce (Some lookup) key kind v = (true, false) <->
     (kind = "db:read" /\ CanReadModel c v = true \/ kind = "db:write" /\ CanWriteModel c v = true \/
      kind = "http:fetch" /\ CanFetch c v = true \/ kind = "event:emit" /\ CanEmit c v = true \/
      kind = "event:subscribe" /\ CanSubscribe c v = true)%string).
Proof.
  intros Hl c own grants. destruct (Compile_fields key caps) as (E1 & E2 & _ & E4 & E5 & E6 & E7 & E8 & E9 & E10).
  unfold grants, own, declared. split_and!.
  - intros m. unfold CanReadModel, c. rewrite E1, E2, !matchAny_app, !orb_true_iff, !matchAny_targets, covers_self. tauto.
  - intros m. unfold CanWriteModel, c. by rewrite E2, matchAny_app, orb_true_iff, matchAny_targets, covers_self.
  - intros e. unfold CanEmit, c. by rewrite E4, matchAny_targets.
  - intros e. unfold CanSubscribe, c. by rewrite E5, matchAny_targets.
  - intros k. unfold CanReadConnector, c. by rewrite E6, matchAny_targets.
  - intros k. unfold CanQueryCapability, c. by rewrite E7, matchAny_targets.
  - intros p. unfold CanManageDomain, c. by rewrite E9, matchAny_targets.
  - unfold CanResolveDNS, c. rewrite E9, negb_true_iff, Nat.eqb_neq. setoid_rewrite <- in_targets. split.
    + destruct (concat (map (targets "domain:manage") caps)) as [|t l]; [by intros []|]. intros _. exists t. by left.
    + intros [t Ht] E%length_zero_iff_nil. rewrite E in Ht. by apply not_elem_of_nil in Ht.
  - intros d k. unfold CanSendEdgeCommand, c. by rewrite E8, andb_true_iff, negb_true_iff, matchAny_targets.
  - intros scope. unfold CanReadContext, c. by rewrite bool_decide_eq_true, E10.
  - intros GU GN kind v. unfold CheckCapability, capability_granted. rewrite Hl. fold c.
    repeat match goal with |- context [String.eqb kind ?k] => destruct (String.eqb_spec kind k) as [->|] end.
    all: (split; [intros Hc|intros Hor; repeat (destruct Hor as [[? Hor]|Hor]; [first [done|by rewrite Hor]|]);
      destruct Hor as [? Hor]; first [done|by rewrite Hor]]).
    all: try (case_match; [|done]); auto 10. done.
Qed.

(** A request an addon may make goes over http(s) to a host that is no
    internal name and no literal of a blocked address, and that host is
    named by a valid pattern the addon declared or is exactly one of the
    hosts its connectors resolved; without those hosts the question is
    [CanFetch]'s. *)
Theorem CanFetchHosts_safe `{GoURL} `{GoNet} key caps rawURL hosts :
  CanFetchHosts (Compile key caps) rawURL hosts = true ->
  exists u, url_Parse rawURL = Some u /\ (uScheme u = "https" \/ uScheme u = "http")%string /\
    (forall ip, ParseIP (trim_brackets (Hostname u)) = Some ip -> IsBlockedIP ip = false) /\
    ToLower (Hostname u) ∉ internal_hosts /\
    ((exists t, mkCapability "http:fetch" t ∈ caps /\ ParseConnectorHostRef t = None /\ pattern_allows t (uHost u) = true) \/
     (ToLower (uHost u) ∈ hosts /\ ToLower (uHost u) <> ""%string)) /\
    CanFetchHosts (Compile key caps) rawURL [] = CanFetch (Compile key caps) rawURL.
Proof.
  intros Hf. assert (Hnil : CanFetchHosts (Compile key caps) rawURL [] = CanFetch (Compile key caps) rawURL).
  { unfold CanFetchHosts. cbn. by rewrite orb_true_r. }
  assert (Hguard : forall h, isBlockedEgressHost h = false ->
    (forall ip, ParseIP (trim_brackets h) = Some ip -> IsBlockedIP ip = false) /\ ToLower h ∉ internal_hosts).
  { intros h [[[Ha Hi]%orb_false_iff _]%orb_false_iff _]%orb_false_iff. apply bool_decide_eq_false in Hi. split; [|done].
    intros ip Hip. by rewrite Hip in Ha. }
  assert (exists u, url_Parse rawURL = Some u /\ is_http u = true /\ isBlockedEgressHost (Hostname u) = false /\
    ((exists t, mkCapability "http:fetch" t ∈ caps /\ ParseConnectorHostRef t = None /\ pattern_allows t (uHost u) = true) \/
     (ToLower (uHost u) ∈ hosts /\ ToLower (uHost u) <> ""%string))) as (u & Hu & Hh & Hb & Hor).
  { unfold CanFetchHosts in Hf. destruct (CanFetch _ rawURL) eqn:Ec.
    - clear Hf. unfold CanFetch in Ec. destruct (url_Parse rawURL) as [u|]; [|done].
      rewrite !andb_true_iff, negb_true_iff in Ec. destruct Ec as [[? ?] Hm]. exists u. split_and!; try done. left.
      unfold matchHTTPHost in Hm. apply HostAllowed_spec in Hm as (t & Ht & Hp).
      destruct (Compile_fields key caps) as (_ & _ & Eh & _). rewrite Eh in Ht. apply in_host_targets in Ht as [? ?]. by exists t.
    - cbn in Hf. destruct (Nat.eqb _ 0); [done|]. destruct (url_Parse rawURL) as [u|]; [|done].
      destruct (is_http u) eqn:E1; [|done]. cbn in Hf. destruct (isBlockedEgressHost (Hostname u)) eqn:E2; [done|].
      exists u. split_and!; try done. right. apply existsb_exists in Hf as (h & Hin & [Hne Heq]%andb_true_iff).
      apply String.eqb_eq in Heq as ->. rewrite negb_true_iff, String.eqb_neq in Hne. split; [by apply list_elem_of_In|done]. }
  exists u. destruct (Hguard _ Hb). unfold is_http in Hh. rewrite orb_true_iff, !String.eqb_eq in Hh. done.
Qed.
End compiled.

(** ** Witnesses *)

Definition crm_caps : list Capability :=
  [mkCapability "db:read" "orders"; mkCapability "http:fetch" "*.stripe.com"; mkCapability "event:emit" "crm.*";
   mkCapability "http:fetch" "connector:woocommerce.store_url"].
Definition stripe_net : GoNet :=
  {| SplitHostPort := fun s => cut ":" s; ParseIP := fun s => if String.eqb s "10.0.0.1" then Some [10; 0; 0; 1] else None |}.
Definition https_only : GoURL :=
  fun s => if HasPrefix s "https://" then Some (mkURL "https" (TrimPrefix s "https://")) else None.

Lemma Compile_correct_witness :
  let c := Compile (H := fun s => s) "CRM" crm_caps in
  (CanReadModel c "addon_crm.leads" = true /\ CanReadModel c "orders" = true) /\
  CanWriteModel c "orders" = false /\
  CheckCapability (H := fun s => s) (H0 := https_only) (H1 := stripe_net) ModeEnforce (Some (fun k => if String.eqb k "CRM" then Some c else None))
    "CRM" "event:emit" "crm.lead_won" = (true, false).
Proof.
  intros c.
  destruct (Compile_correct (H := fun s => s) "CRM" crm_caps (fun k => if String.eqb k "CRM" then Some c else None))
    as (Hr & Hw & _ & _ & _ & _ & _ & _ & _ & _ & He); [reflexivity|].
  split; [split; apply Hr|split].
  - right; right. right. exists "leads"%string. reflexivity.
  - left. exists "orders"%string. split; [by left|]. right; left. reflexivity.
  - vm_compute. reflexivity.
  - apply He. right; right; right; left. split; [reflexivity|]. vm_compute. reflexivity.
Defined.

Lemma CanFetchHosts_safe_witness :
  let c := Compile (H := fun s => s) "CRM" crm_caps in
  CanFetchHosts (H := fun s => s) (H0 := https_only) (H1 := stripe_net) c "https://api.stripe.com" [] = true /\
  CanFetchHosts (H := fun s => s) (H0 := https_only) (H1 := stripe_net) c "https://10.0.0.1" ["10.0.0.1"]%string = false /\
  exists u, url_Parse (GoURL := https_only) "https://api.stripe.com" = Some u /\
    ToLower (H := fun s => s) (Hostname u) ∉ internal_hosts.
Proof.
  intros c.
  assert (CanFetchHosts (H := fun s => s) (H0 := https_only) (H1 := stripe_net) c "https://api.stripe.com" [] = true) as E
    by (vm_compute; reflexivity).
  split; [exact E|split; [vm_compute; reflexivity|]].
  destruct (CanFetchHosts_safe (H := fun s => s) (H0 := https_only) (H1 := stripe_net) "CRM" crm_caps _ _ E)
    as (u & Hu & _ & _ & Hn & _). exists u. split; [exact Hu|exact Hn].
Defined.
