(* ===== verification/EmitPolicy.v ===== *)
(** * Who may publish an event (security/emitpolicy.go, capability/event.go)

    The four rules on an event an addon emits, the mode of each group of
    rules, the exception for the domains that move money, and the domain a
    registered event contract reserves. *)

From stdpp Require Import gmap.
From S2P Require Import Prelude GoStrings NetGuard Capabilities.

(** ** Event contracts *)

(** The payload schema of a contract plays no part here. *)
Record EventContract := mkEventContract { ecName : string; EmittedBy : string }.

(** [event == d || strings.HasPrefix(event, d+".")]. *)
Definition in_domain (event d : string) : bool := String.eqb event d || HasPrefix event (d +:+ ".").

(** [contracts] are the registered contracts in the order the map is ranged
    over. *)
Definition ReservedEventDomain (contracts : list EventContract) (event : string) : string * bool :=
  let best := foldl (fun best e =>
    if in_domain event (EmittedBy e) && Nat.ltb (String.length best) (String.length (EmittedBy e))
    then EmittedBy e else best) ""%string contracts in
  (best, negb (String.eqb best "")).

Definition ProvidesDomain (provides : list string) (domain : string) : bool :=
  existsb (fun k => in_domain k domain) provides.

(** The contracts of capability/commerce.go. *)
Definition commerce_contracts : list EventContract :=
  [mkEventContract "commerce.shipping.tracking_updated" "commerce.shipping";
   mkEventContract "commerce.fulfillment.updated" "commerce.fulfillment";
   mkEventContract "commerce.shipments.updated" "commerce.shipments";
   mkEventContract "commerce.payments.confirmed" "commerce.payments"]%string.

(** ** The policy *)

Inductive EmitRule : Type := EmitRuleKernel | EmitRuleContract | EmitRuleForeign | EmitRuleUnverified | EmitRuleDeclared.
Inductive EmitGroup : Type := EmitGroupReserved | EmitGroupDeclared.
Inductive EmitMode : Type := EmitModeWarn | EmitModeEnforce | EmitModeOff.
#[export] Instance EmitRule_eq_dec : EqDecision EmitRule.
Proof. solve_decision. Defined.
#[export] Instance EmitMode_eq_dec : EqDecision EmitMode.
Proof. solve_decision. Defined.

Definition Group (r : EmitRule) : EmitGroup :=
  match r with EmitRuleDeclared => EmitGroupDeclared | _ => EmitGroupReserved end.

Definition ParseEmitMode `{UnicodeLower} (s : string) : EmitMode * bool :=
  let w := ToLower (TrimSpace s) in
  if bool_decide (w ∈ ["warn"; "shadow"; "log"]%string) then (EmitModeWarn, true)
  else if bool_decide (w ∈ ["enforce"; "deny"]%string) then (EmitModeEnforce, true)
  else if bool_decide (w ∈ ["off"; "disabled"]%string) then (EmitModeOff, true)
  else (EmitModeWarn, false).
(** [raw] is the value of the variable. *)
Definition EmitModeFromEnv `{UnicodeLower} (raw : string) : EmitMode :=
  if blank raw then EmitModeWarn else let '(m, ok) := ParseEmitMode raw in if ok : bool then m else EmitModeWarn.

Record EmitterGrant := mkEmitterGrant { Owner : string; gEvent : string; Emitters : list string }.
Record EmitFacts := mkEmitFacts {
  Installed : list string; Provides : list string; Grants : list EmitterGrant; Caps : option Capabilities
}.

(** The text of the reason is dropped. *)
Record EmitViolation := mkEmitViolation {
  Addon : string; vEvent : string; vRule : EmitRule; vOwner : string;
  vGroup : EmitGroup; vMode : EmitMode; Denied : bool
}.

(** [Source] is asked for the facts of the organization and the emitter; an
    error of it is [None], like the missing source. *)
Record EmitPolicy := mkEmitPolicy {
  Source : option (string -> string -> option EmitFacts);
  ReservedDomain : option (string -> string * bool);
  EnforcedDomains : option (list string);
  reserved : EmitMode; declared_mode : EmitMode
}.

Definition DefaultEnforcedDomains : list string := ["commerce.payments"]%string.
Definition enforcedDomain (p : EmitPolicy) (domain : string) : bool :=
  existsb (fun d => String.eqb d domain) (default DefaultEnforcedDomains (EnforcedDomains p)).

Definition policy_mode (p : EmitPolicy) (g : EmitGroup) : EmitMode :=
  match g with EmitGroupDeclared => declared_mode p | EmitGroupReserved => reserved p end.

Definition namespaceOwner (event : string) (installed : list string) : string :=
  foldl (fun best k =>
    if String.eqb k "" then best
    else if HasPrefix event (k +:+ ".") && Nat.ltb (String.length best) (String.length k) then k else best) ""%string installed.

Definition granted (grants : list EmitterGrant) (owner event emitter : string) : bool :=
  existsb (fun g => String.eqb (Owner g) owner && matchAny [gEvent g] event &&
                    existsb (fun e => String.eqb e emitter) (Emitters g)) grants.

Definition kernelSpace (event : string) : bool := in_domain event "kernel".

(** The rules broken, in order, each with its owner. *)
Definition found (domainOf : string -> string * bool) (facts : option EmitFacts) (emitter event : string) :
    list (EmitRule * string) :=
  (if kernelSpace event then [(EmitRuleKernel, "kernel"%string)] else
   let '(domain, is_reserved) := domainOf event in
   if (is_reserved : bool) then
     match facts with
     | None => [(EmitRuleUnverified, domain)]
     | Some f => if negb (ProvidesDomain (Provides f) domain) then [(EmitRuleContract, domain)] else []
     end
   else
     match facts with
     | None => if negb (HasPrefix event (emitter +:+ ".")) then [(EmitRuleUnverified, ""%string)] else []
     | Some f =>
         let owner := namespaceOwner event (Installed f) in
         if negb (String.eqb owner "") && negb (String.eqb owner emitter) &&
            negb (granted (Grants f) owner event emitter)
         then [(EmitRuleForeign, owner)] else []
     end) ++
  match facts with
  | Some f => match Caps f with
              | Some c => if CanEmit c event then [] else [(EmitRuleDeclared, ""%string)]
              | None => []
              end
  | None => []
  end.

(** The mode a broken rule is judged under. *)
Definition rule_mode (p : EmitPolicy) (rule : EmitRule) (owner : string) : EmitMode :=
  let mode := policy_mode p (Group rule) in
  match mode with
  | EmitModeOff => EmitModeOff
  | _ =>
      if (bool_decide (rule = EmitRuleContract) || bool_decide (rule = EmitRuleUnverified)) && enforcedDomain p owner
      then EmitModeEnforce else mode
  end.

(** The loop over [found]: the violations reported, the first one denied. *)
Fixpoint judge (p : EmitPolicy) (emitter event : string) (l : list (EmitRule * string)) :
    list EmitViolation * option EmitViolation :=
  match l with
  | [] => ([], None)
  | (rule, owner) :: l =>
      let '(out, denied) := judge p emitter event l in
      match rule_mode p rule owner with
      | EmitModeOff => (out, denied)
      | mode =>
          let v := mkEmitViolation emitter event rule owner (Group rule) mode (bool_decide (mode = EmitModeEnforce)) in
          (v :: out, if Denied v then Some v else denied)
      end
  end.

(** [contracts] is the registry a policy without [ReservedDomain] uses. *)
Definition Check (contracts : list EventContract) (p : option EmitPolicy) (org emitter event : string) :
    list EmitViolation * option EmitViolation :=
  match p with
  | None => ([], None)
  | Some p =>
      if bool_decide (reserved p = EmitModeOff) && bool_decide (declared_mode p = EmitModeOff) then ([], None) else
      let facts := match Source p with Some src => src org emitter | None => None end in
      let domainOf := default (ReservedEventDomain contracts) (ReservedDomain p) in
      judge p emitter event (found domainOf facts emitter event)
  end.

(** ** The longest domain *)

(** The loop both [ReservedEventDomain] and [namespaceOwner] run. *)
Definition longest (ok : string -> bool) (l : list string) (best : string) : string :=
  foldl (fun best d => if ok d && Nat.ltb (String.length best) (String.length d) then d else best) best l.

Lemma longest_spec ok l best :
  (longest ok l best = best \/ (longest ok l best ∈ l /\ ok (longest ok l best) = true)) /\
  (String.length best <= String.length (longest ok l best))%nat /\
  forall d, d ∈ l -> ok d = true -> (String.length d <= String.length (longest ok l best))%nat.
Proof.
  revert best. induction l as [|d l IH]; intros best; cbn [longest foldl]; [split_and!; [by left|lia|set_solver]|].
  fold (longest ok l (if ok d && Nat.ltb (String.length best) (String.length d) then d else best)).
  destruct (IH (if ok d && Nat.ltb (String.length best) (String.length d) then d else best)) as (H1 & H2 & H3).
  destruct (ok d && Nat.ltb (String.length best) (String.length d)) eqn:E.
  - apply andb_true_iff in E as [Eo El%Nat.ltb_lt]. split_and!; [right|lia|].
    + destruct H1 as [->|[? ?]]; [split; [by left|done]|split; [by right|done]].
    + intros x [->|Hx]%elem_of_cons Ho; [done|by apply H3].
  - split_and!; [destruct H1 as [->|[? ?]]; [by left|right; split; [by right|done]]|lia|].
    intros x [->|Hx]%elem_of_cons Ho; [|by apply H3]. rewrite Ho in E. cbn in E. apply Nat.ltb_ge in E. lia.
Qed.

(** Matching domains are prefixes of one event, so the longest is unique. *)
Lemma longest_perm ok l l' :
  (forall a b, ok a = true -> ok b = true -> String.length a = String.length b -> a = b) ->
  l ≡ₚ l' -> longest ok l "" = longest ok l' "".
Proof.
  intros Hu Hp. destruct (longest_spec ok l "") as (H1 & _ & H3), (longest_spec ok l' "") as (H1' & _ & H3').
  assert (forall x, x = ""%string \/ (x ∈ l /\ ok x = true) -> (String.length x <= String.length (longest ok l' ""))%nat) as Ha.
  { intros x [->|[Hx Ho]]; [cbn; lia|]. apply H3'; [by rewrite <- Hp|done]. }
  assert (forall x, x = ""%string \/ (x ∈ l' /\ ok x = true) -> (String.length x <= String.length (longest ok l ""))%nat) as Hb.
  { intros x [->|[Hx Ho]]; [cbn; lia|]. apply H3; [by rewrite Hp|done]. }
  apply Ha in H1 as Hle. apply Hb in H1' as Hge.
  destruct H1 as [E|[_ Ho]], H1' as [E'|[_ Ho']]; [congruence| | |by apply Hu; [done..|lia]].
  - rewrite E in *. cbn in Hge. destruct (longest ok l' ""); [done|cbn in Hge; lia].
  - rewrite E' in *. cbn in Hle. destruct (longest ok l ""); [done|cbn in Hle; lia].
Qed.

Lemma in_domain_spec event d : in_domain event d = true <-> under d event.
Proof.
  unfold in_domain, under. rewrite orb_true_iff, String.eqb_eq, HasPrefix_spec.
  split; (intros [->|[t ->]]; [by left|right]); exists t; by rewrite str_app_assoc.
Qed.

Lemma under_length_inj event a b : under a event -> under b event -> String.length a = String.length b -> a = b.
Proof.
  intros Ha Hb Hl. assert (exists x y, event = a +:+ x /\ event = b +:+ y) as (x & y & -> & E).
  { destruct Ha as [->|[t ->]], Hb as [Hb|[u Hb]].
    - exists ""%string, ""%string. by rewrite !str_app_nil_r.
    - exists ""%string, ("." +:+ u)%string. by rewrite str_app_nil_r.
    - exists ("." +:+ t)%string, ""%string. by rewrite str_app_nil_r.
    - by exists ("." +:+ t)%string, ("." +:+ u)%string. }
  by apply (str_app_inj_length a x b y) in E as [-> _].
Qed.

Lemma ReservedEventDomain_longest contracts event :
  (ReservedEventDomain contracts event).1 = longest (in_domain event) (map EmittedBy contracts) "".
Proof.
  unfold ReservedEventDomain, longest. cbn [fst]. generalize ""%string.
  induction contracts as [|c contracts IH]; intros best; cbn [map foldl]; [done|]. apply IH.
Qed.

Lemma ReservedEventDomain_perm contracts contracts' event :
  contracts ≡ₚ contracts' -> ReservedEventDomain contracts event = ReservedEventDomain contracts' event.
Proof.
  intros Hp. assert (forall cs, ReservedEventDomain cs event =
    ((ReservedEventDomain cs event).1, negb (String.eqb (ReservedEventDomain cs event).1 ""))) as E by done.
  rewrite (E contracts), (E contracts'), !ReservedEventDomain_longest.
  rewrite (longest_perm _ (map EmittedBy contracts) (map EmittedBy contracts')); [done| |by rewrite Hp].
  intros a b. rewrite !in_domain_spec. apply under_length_inj.
Qed.

(** A reserved domain contains the event. *)
Lemma ReservedEventDomain_in contracts event d :
  ReservedEventDomain contracts event = (d, true) -> in_domain event d = true /\ d ∈ map EmittedBy contracts.
Proof.
  intros E. pose proof (ReservedEventDomain_longest contracts event) as El.
  assert (d = (ReservedEventDomain contracts event).1 /\ negb (String.eqb d "") = true) as [Ed Hne].
  { unfold ReservedEventDomain in *. injection E as <- E. done. }
  rewrite <- Ed in El. destruct (longest_spec (in_domain event) (map EmittedBy contracts) "") as (H1 & _).
  rewrite <- El in H1. destruct H1 as [->|[? ?]]; done.
Qed.

Definition owner_ok (event k : string) : bool := negb (String.eqb k "") && HasPrefix event (k +:+ ".").
Lemma namespaceOwner_longest event installed : namespaceOwner event installed = longest (owner_ok event) installed "".
Proof.
  unfold namespaceOwner. set (f := fun best k => _). enough (forall best, foldl f best installed = longest (owner_ok event) installed best) by done.
  induction installed as [|k l IH]; intros best; cbn [foldl]; [done|]. rewrite IH. unfold longest. cbn [foldl]. f_equal.
  unfold f, owner_ok. by destruct (String.eqb k "").
Qed.

(** ** Theorems *)

(** A rule the emission breaks, with the owner it is reported under. *)
Definition broken (domainOf : string -> string * bool) (facts : option EmitFacts) (emitter event : string)
    (rule : EmitRule) (owner : string) : Prop :=
  match rule with
  | EmitRuleKernel => under "kernel" event /\ owner = "kernel"%string
  | EmitRuleContract =>
      ~ under "kernel" event /\ domainOf event = (owner, true) /\
      exists f, facts = Some f /\ ProvidesDomain (Provides f) owner = false
  | EmitRuleUnverified =>
      ~ under "kernel" event /\ facts = None /\
      (domainOf event = (owner, true) \/
       (domainOf event).2 = false /\ owner = ""%string /\ HasPrefix event (emitter +:+ ".") = false)
  | EmitRuleForeign =>
      ~ under "kernel" event /\ (domainOf event).2 = false /\
      exists f, facts = Some f /\ owner = namespaceOwner event (Installed f) /\ owner <> ""%string /\ owner <> emitter /\
        granted (Grants f) owner event emitter = false
  | EmitRuleDeclared =>
      owner = ""%string /\ exists f c, facts = Some f /\ Caps f = Some c /\ CanEmit c event = false
  end.

Ltac emit_solve :=
  intros;
  repeat match goal with
    | H : _ /\ _ |- _ => destruct H
    | H : exists _, _ |- _ => destruct H
    | H : _ \/ _ |- _ => destruct H
    end;
  simplify_eq; try congruence; try tauto; eauto 12.

Lemma found_spec domainOf facts emitter event rule owner :
  (rule, owner) ∈ found domainOf facts emitter event <-> broken domainOf facts emitter event rule owner.
Proof.
  unfold found. rewrite elem_of_app.
  assert ((rule, owner) ∈ (match facts with
    | Some f => match Caps f with Some c => if CanEmit c event then [] else [(EmitRuleDeclared, ""%string)] | None => [] end
    | None => [] end) <-> rule = EmitRuleDeclared /\ broken domainOf facts emitter event EmitRuleDeclared owner) as ->.
  { cbn [broken]. destruct facts as [f|]; [|split; [intros Hno; by apply not_elem_of_nil in Hno|by intros (_ & _ & ? & ? & ? & _)]].
    destruct (Caps f) as [c|] eqn:Ec; [destruct (CanEmit c event) eqn:Ee|].
    - split; [intros Hno; by apply not_elem_of_nil in Hno|intros (_ & _ & f' & c' & [= <-] & ? & ?); congruence].
    - rewrite list_elem_of_singleton. split; [intros [= -> ->]; split_and!; [done..|by exists f, c]|by intros (-> & -> & _)].
    - split; [intros Hno; by apply not_elem_of_nil in Hno|intros (_ & _ & f' & c' & [= <-] & ? & ?); congruence]. }
  unfold kernelSpace. destruct (in_domain event "kernel") eqn:Ek.
  - apply in_domain_spec in Ek. rewrite list_elem_of_singleton. split.
    + intros [[= -> ->]|[-> ?]]; done.
    + destruct rule; cbn; emit_solve.
  - assert (~ under "kernel" event) as Hk by (rewrite <- in_domain_spec; by rewrite Ek). clear Ek.
    destruct (domainOf event) as [domain [] ] eqn:Ed.
    + destruct facts as [f|]; [destruct (ProvidesDomain (Provides f) domain) eqn:Ep; cbn [negb]|].
      * split; [|destruct rule; cbn; rewrite ?Ed; emit_solve]. intros [Hno|[-> ?]]; [by apply not_elem_of_nil in Hno|done].
      * rewrite list_elem_of_singleton. split; [intros [[= -> ->]|[-> ?]]; cbn; emit_solve|].
        destruct rule; cbn; rewrite ?Ed; emit_solve.
      * rewrite list_elem_of_singleton. split; [intros [[= -> ->]|[-> ?]]; cbn; emit_solve|].
        destruct rule; cbn; rewrite ?Ed; emit_solve.
    + destruct facts as [f|].
      * destruct (negb _ && negb _ && negb _) eqn:E; rewrite ?andb_true_iff, ?andb_false_iff, ?negb_true_iff, ?negb_false_iff, ?String.eqb_eq, ?String.eqb_neq in E.
        -- rewrite list_elem_of_singleton. split; [intros [[= -> ->]|[-> ?]]; cbn; rewrite ?Ed; emit_solve|].
           destruct rule; cbn; rewrite ?Ed; emit_solve.
        -- split; [intros [Hno|[-> ?]]; [by apply not_elem_of_nil in Hno|done]|]. destruct rule; cbn; rewrite ?Ed; emit_solve.
      * destruct (HasPrefix event (emitter +:+ ".")) eqn:E; cbn [negb].
        -- split; [intros [Hno|[-> ?]]; [by apply not_elem_of_nil in Hno|done]|]. destruct rule; cbn; rewrite ?Ed; emit_solve.
        -- rewrite list_elem_of_singleton. split; [intros [[= -> ->]|[-> ?]]; cbn; rewrite ?Ed; emit_solve|].
           destruct rule; cbn; rewrite ?Ed; emit_solve.
Qed.

(** What [judge] reports and denies. *)
Lemma judge_spec p emitter event l out denied :
  judge p emitter event l = (out, denied) ->
  (forall v, v ∈ out <-> exists rule owner, (rule, owner) ∈ l /\ rule_mode p rule owner <> EmitModeOff /\
     v = mkEmitViolation emitter event rule owner (Group rule) (rule_mode p rule owner)
       (bool_decide (rule_mode p rule owner = EmitModeEnforce))) /\
  match denied with
  | None => forall rule owner, (rule, owner) ∈ l -> rule_mode p rule owner <> EmitModeEnforce
  | Some v => v ∈ out /\ Denied v = true
  end.
Proof.
  revert out denied. induction l as [|[rule owner] l IH]; intros out denied; cbn [judge].
  { intros [= <- <-]. split; [|set_solver]. intros v. split; [set_solver|]. intros (? & ? & H & _). by apply not_elem_of_nil in H. }
  destruct (judge p emitter event l) as [o d] eqn:E. destruct (IH o d eq_refl) as [Ho Hd].
  assert (Hskip : rule_mode p rule owner = EmitModeOff -> (out, denied) = (o, d) ->
    (forall v, v ∈ out <-> exists r w, (r, w) ∈ (rule, owner) :: l /\ rule_mode p r w <> EmitModeOff /\
       v = mkEmitViolation emitter event r w (Group r) (rule_mode p r w) (bool_decide (rule_mode p r w = EmitModeEnforce))) /\
    match denied with
    | None => forall r w, (r, w) ∈ (rule, owner) :: l -> rule_mode p r w <> EmitModeEnforce
    | Some v => v ∈ out /\ Denied v = true
    end).
  { intros Em [= -> ->]. split.
    - intros v. rewrite Ho. setoid_rewrite elem_of_cons. split; [intros (r & w & ? & ?); exists r, w; auto|].
      intros (r & w & [[= -> ->]|?] & Hn & ->); [done|]. by exists r, w.
    - destruct d; [done|]. intros r w [[= -> ->]|?]%elem_of_cons; [by rewrite Em|auto]. }
  destruct (rule_mode p rule owner) eqn:Em; [| |by intros [= -> ->]; apply Hskip]; intros [= <- <-]; (split;
    [intros v; rewrite !elem_of_cons, Ho; setoid_rewrite elem_of_cons; split;
      [intros [->|(r & w & ? & ?)]; [exists rule, owner; rewrite Em; auto|exists r, w; auto]
      |intros (r & w & [[= -> ->]|?] & Hn & ->); [left; by rewrite Em|right; by exists r, w]]|]).
  - destruct d; [split; [right; apply Hd|apply Hd]|].
    intros r w [[= -> ->]|?]%elem_of_cons; [by rewrite Em|auto].
  - split; [by left|done].
Qed.

(** The facts [Check] works with. *)
Definition facts_of (p : EmitPolicy) (org emitter : string) : option EmitFacts :=
  match Source p with Some src => src org emitter | None => None end.
Definition domain_of (contracts : list EventContract) (p : EmitPolicy) : string -> string * bool :=
  default (ReservedEventDomain contracts) (ReservedDomain p).

Lemma Check_judge contracts p org emitter event :
  reserved p <> EmitModeOff \/ declared_mode p <> EmitModeOff ->
  Check contracts (Some p) org emitter event =
  judge p emitter event (found (domain_of contracts p) (facts_of p org emitter) emitter event).
Proof.
  intros Hm. unfold Check. destruct (bool_decide_reflect (reserved p = EmitModeOff)), (bool_decide_reflect (declared_mode p = EmitModeOff));
    cbn; try done. tauto.
Qed.

(** C27: payment confirmations cannot be forged. While the reserved group is
    not switched off, and even in warn mode, an addon whose emission under an
    enforced domain is not denied was verified to provide a capability of
    that domain: an unknown emitter is refused. With the registered
    contracts, every event under commerce.payments is such an event. *)
Theorem money_events_protected contracts p org emitter event domain vs :
  reserved p <> EmitModeOff -> enforcedDomain p domain = true -> ~ under "kernel" event ->
  domain_of contracts p event = (domain, true) ->
  Check contracts (Some p) org emitter event = (vs, None) ->
  (exists f, facts_of p org emitter = Some f /\ ProvidesDomain (Provides f) domain = true) /\
  (forall e, under "commerce.payments" e -> ReservedEventDomain commerce_contracts e = ("commerce.payments"%string, true)).
Proof.
  intros Hm He Hk Hd Hc. split.
  - rewrite Check_judge in Hc by auto. apply judge_spec in Hc as [_ Hno].
    assert (Hcase : forall rule, rule = EmitRuleContract \/ rule = EmitRuleUnverified -> rule_mode p rule domain = EmitModeEnforce).
    { intros rule Hr. unfold rule_mode. assert (policy_mode p (Group rule) = reserved p) as -> by (by destruct Hr as [-> | ->]).
      rewrite He. by destruct (reserved p), Hr as [-> | ->]. }
    destruct (facts_of p org emitter) as [f|] eqn:Ef.
    + exists f. split; [done|]. destruct (ProvidesDomain (Provides f) domain) eqn:Ep; [done|]. exfalso.
      apply (Hno EmitRuleContract domain); [|by apply Hcase; left]. apply found_spec. cbn. split_and!; [done..|by exists f].
    + exfalso. apply (Hno EmitRuleUnverified domain); [|by apply Hcase; right]. apply found_spec. cbn. auto.
  - intros e [->|[t ->]]; [done|]. unfold ReservedEventDomain, commerce_contracts. cbn [foldl EmittedBy].
    assert (in_domain ("commerce.payments" +:+ "." +:+ t) "commerce.payments" = true) as ->.
    { apply in_domain_spec. right. by exists t. }
    reflexivity.
Qed.

(** The policy is its four rules. The violations reported are the broken
    rules whose group is not off, each with its mode; the emission is denied
    exactly when one of them is enforced; with both groups enforced and the
    facts at hand an emission passes exactly when it is outside the kernel's
    namespace, comes from a provider of the reserved domain or from the owner
    of its namespace or an emitter the owner lists, and is declared. *)
Theorem emit_Check_correct contracts p org emitter event vs denied :
  reserved p <> EmitModeOff \/ declared_mode p <> EmitModeOff ->
  Check contracts (Some p) org emitter event = (vs, denied) ->
  let domainOf := domain_of contracts p in
  let facts := facts_of p org emitter in
  (forall v, v ∈ vs <-> exists rule owner, broken domainOf facts emitter event rule owner /\
     rule_mode p rule owner <> EmitModeOff /\
     v = mkEmitViolation emitter event rule owner (Group rule) (rule_mode p rule owner)
       (bool_decide (rule_mode p rule owner = EmitModeEnforce))) /\
  (denied = None <-> forall rule owner, broken domainOf facts emitter event rule owner -> rule_mode p rule owner <> EmitModeEnforce) /\
  (reserved p = EmitModeEnforce -> declared_mode p = EmitModeEnforce -> forall f, facts = Some f ->
   (denied = None <->
    ~ under "kernel" event /\
    (let '(domain, is_reserved) := domainOf event in
     if is_reserved : bool then ProvidesDomain (Provides f) domain = true
     else let owner := namespaceOwner event (Installed f) in
          owner = ""%string \/ owner = emitter \/ granted (Grants f) owner event emitter = true) /\
    (forall c, Caps f = Some c -> CanEmit c event = true))).
Proof.
  intros Hm Hc domainOf facts. rewrite Check_judge in Hc by done. fold domainOf facts in Hc.
  apply judge_spec in Hc as [Hout Hden]. setoid_rewrite found_spec in Hout.
  assert (Hnone : denied = None <->
    forall rule owner, broken domainOf facts emitter event rule owner -> rule_mode p rule owner <> EmitModeEnforce).
  { destruct denied as [v|].
    - split; [done|]. intros Hall. destruct Hden as [(rule & owner & Hb & _ & ->)%Hout Hd]. exfalso.
      apply bool_decide_eq_true in Hd. by apply (Hall rule owner).
    - split; [|done]. intros _ rule owner Hb. apply Hden. by apply found_spec. }
  split_and!; [done|done|]. intros Hr Hdm f Hf. rewrite Hnone.
  assert (Henf : forall rule owner, rule_mode p rule owner = EmitModeEnforce).
  { intros rule owner. unfold rule_mode, policy_mode. rewrite Hr, Hdm. destruct (Group rule); by destruct (_ && _). }
  transitivity (forall rule owner, ~ broken domainOf facts emitter event rule owner).
  { split; [intros H rule owner Hb; by apply (H rule owner)|intros H rule owner Hb; by apply H in Hb]. }
  rewrite Hf. destruct (domainOf event) as [domain is_reserved] eqn:Ed. split.
  - intros Hno. assert (Hk : ~ under "kernel" event) by (intros Hk; by apply (Hno EmitRuleKernel "kernel"%string)).
    split_and!; [done| |].
    + destruct is_reserved.
      * destruct (ProvidesDomain (Provides f) domain) eqn:Ep; [done|]. exfalso. apply (Hno EmitRuleContract domain). cbn. eauto.
      * cbn zeta. destruct (String.eqb_spec (namespaceOwner event (Installed f)) "") as [|Hn]; [by left|].
        destruct (String.eqb_spec (namespaceOwner event (Installed f)) emitter) as [|He]; [by right; left|]. right; right.
        destruct (granted _ _ _ _) eqn:Eg; [done|]. exfalso. apply (Hno EmitRuleForeign (namespaceOwner event (Installed f))).
        cbn. rewrite Ed. split_and!; [done..|]. by exists f.
    + intros c Hcaps. destruct (CanEmit c event) eqn:E; [done|]. exfalso. apply (Hno EmitRuleDeclared ""%string). cbn. eauto 6.
  - intros (Hk & Hd & Hc) rule owner. destruct rule; cbn; rewrite ?Ed.
    + tauto.
    + intros (_ & [= -> ->] & f' & [= <-] & Hp). congruence.
    + intros (_ & Hres & f' & [= <-] & -> & Hn & He & Hg). cbn in Hres. subst is_reserved. destruct Hd as [|[|]]; congruence.
    + by intros (_ & ? & _).
    + intros (_ & f' & c & [= <-] & Hcaps & He). apply Hc in Hcaps. congruence.
Qed.

(** The answer does not depend on the order Go draws for the registry of
    contracts, nor on the order in which the installed addons are listed. *)
Theorem emit_order_irrelevant contracts contracts' p org emitter event installed installed' :
  contracts ≡ₚ contracts' -> installed ≡ₚ installed' ->
  Check contracts (Some p) org emitter event = Check contracts' (Some p) org emitter event /\
  namespaceOwner event installed = namespaceOwner event installed'.
Proof.
  intros Hc Hi. split.
  - assert (found (domain_of contracts p) (facts_of p org emitter) emitter event =
      found (domain_of contracts' p) (facts_of p org emitter) emitter event) as E.
    { unfold found, domain_of. destruct (ReservedDomain p); [done|].
      change (default ?f None) with f. by rewrite (ReservedEventDomain_perm contracts contracts'). }
    unfold Check. fold (facts_of p org emitter) (domain_of contracts p) (domain_of contracts' p). by rewrite E.
  - rewrite !namespaceOwner_longest. apply longest_perm; [|done]. intros a b.
    unfold owner_ok. rewrite !andb_true_iff, !HasPrefix_spec. intros [_ [x Hx]] [_ [y Hy]].
    apply (under_length_inj event); [right; exists x|right; exists y]; by rewrite <- str_app_assoc.
Qed.

(** ** Witnesses *)

Definition shop_facts (emitter : string) : option EmitFacts :=
  if String.eqb emitter "stripe"
  then Some (mkEmitFacts ["stripe"; "loyalty"] ["commerce.payments.confirm"] []
         (Some (Compile (H := fun s => s) "stripe" [mkCapability "event:emit" "commerce.payments.*"])))
  else if String.eqb emitter "loyalty" then Some (mkEmitFacts ["stripe"; "loyalty"] [] [] None) else None.
Definition shop_policy (reserved_mode declared : EmitMode) : EmitPolicy :=
  mkEmitPolicy (Some (fun _ => shop_facts)) None None reserved_mode declared.
Definition confirmed : string := "commerce.payments.confirmed".

(** In warn mode, a loyalty addon cannot confirm a payment and stripe can. *)
Lemma money_events_protected_witness :
  (exists v, (Check commerce_contracts (Some (shop_policy EmitModeWarn EmitModeWarn)) "org" "loyalty" confirmed).2 = Some v) /\
  exists f, facts_of (shop_policy EmitModeWarn EmitModeWarn) "org" "stripe" = Some f /\
    ProvidesDomain (Provides f) "commerce.payments" = true.
Proof.
  split; [eexists; vm_compute; reflexivity|].
  apply (money_events_protected commerce_contracts (shop_policy EmitModeWarn EmitModeWarn) "org" "stripe" confirmed "commerce.payments" []);
    [discriminate|reflexivity| |vm_compute; reflexivity|vm_compute; reflexivity].
  intros [H|[t H]]; discriminate.
Defined.

Lemma emit_Check_correct_witness :
  let p := shop_policy EmitModeEnforce EmitModeEnforce in
  (Check commerce_contracts (Some p) "org" "stripe" confirmed).2 = None /\
  (forall c, Caps (default (mkEmitFacts [] [] [] None) (shop_facts "stripe")) = Some c -> CanEmit c confirmed = true).
Proof.
  intros p. assert (Check commerce_contracts (Some p) "org" "stripe" confirmed = ([], None)) as E by (vm_compute; reflexivity).
  split; [rewrite E; reflexivity|].
  destruct (emit_Check_correct commerce_contracts p "org" "stripe" confirmed [] None) as (_ & _ & H); [left; discriminate|exact E|].
  apply (proj1 (H eq_refl eq_refl _ eq_refl) eq_refl).
Defined.

Lemma emit_order_irrelevant_witness :
  Check commerce_contracts (Some (shop_policy EmitModeWarn EmitModeWarn)) "org" "loyalty" confirmed =
  Check (reverse commerce_contracts) (Some (shop_policy EmitModeWarn EmitModeWarn)) "org" "loyalty" confirmed /\
  namespaceOwner confirmed ["stripe"; "commerce"] = namespaceOwner confirmed ["commerce"; "stripe"].
Proof.
  apply (emit_order_irrelevant commerce_contracts (reverse commerce_contracts)); [symmetry; apply reverse_Permutation|apply perm_swap].
Defined.
