(* ===== verification/Signing.v ===== *)
(** * Signed webhooks and replay (security/hmac.go, security/nonce.go)

    The signature headers of an outbound webhook, their verification, and
    the cache that refuses a nonce it has seen: the cache is run by any
    number of requests and a sweeper, each map operation a step. *)

From stdpp Require Import gmap.
From S2P Require Import Prelude GoStrings.

(** SHA-256 and HMAC-SHA256 are parameters. *)
Class Crypto := { sha256 : string -> string; hmac256 : string -> string -> string }.

(** ** Time *)

Definition second : Z := 1000000000.
Definition unixToInternal : Z := 62135596800.

(** [t.Sub(time.Unix(ts, 0))] for an instant [now] in nanoseconds since the
    epoch: the seconds wrap inside [time.Unix], the difference saturates. *)
Definition sub_unix (now ts : Z) : Z :=
  let d := now - (wrap64 (ts + unixToInternal) - unixToInternal) * second in
  if is_int64 d then d else if d <? 0 then int64_min else int64_max.

(** ** Signer *)

Section signer.
Context `{Crypto}.

Definition payload (ts method path nonce body : string) : string :=
  let bodyHash := hex_encode (sha256 body) in
  if String.eqb nonce "" then str_join "." [ts; method; path; bodyHash]
  else str_join "." [ts; method; path; nonce; bodyHash].

Definition mac (secret ts method path nonce body : string) : string :=
  "sha256=" +:+ hex_encode (hmac256 secret (payload ts method path nonce body)).

(** The headers, the nonce's only when there is one; [unix] is the clock. *)
Record SignedHeaders := mkSignedHeaders { Timestamp : string; Signature : string; Nonce : option string }.

Definition FormatInt (n : Z) : string := if n <? 0 then String "-" (dec_string (- n)) else dec_string n.

Definition SignWithNonce (secret : string) (unix : Z) (method path body nonce : string) : SignedHeaders :=
  let ts := FormatInt unix in
  mkSignedHeaders ts (mac secret ts method path nonce body) (if String.eqb nonce "" then None else Some nonce).
Definition Sign (secret : string) (unix : Z) (method path body : string) : SignedHeaders :=
  SignWithNonce secret unix method path body "".

Inductive verify_error : Type := ErrBadTimestamp | ErrWindow | ErrMismatch.

(** [now] is the clock in nanoseconds. *)
Definition VerifyWithNonce (secret : string) (now : Z) (method path body timestamp nonce signature : string) (maxSkew : Z) :
    result verify_error unit :=
  match Atoi timestamp with
  | None => Err ErrBadTimestamp
  | Some ts =>
      let skew := sub_unix now ts in
      let skew := if skew <? 0 then wrap64 (- skew) else skew in
      if maxSkew <? skew then Err ErrWindow
      else if String.eqb (mac secret timestamp method path nonce body) signature then Ok tt else Err ErrMismatch
  end.
Definition Verify (secret : string) (now : Z) (method path body timestamp signature : string) (maxSkew : Z) :
    result verify_error unit := VerifyWithNonce secret now method path body timestamp "" signature maxSkew.
End signer.

(** ** NonceCache *)

Inductive nonce_error : Type := errNonceReplay | errNonceRequired.

(** The first operation of [CheckAndRecord], [LoadOrStore]: the new map, and
    the answer, or the expiry still to be stored over an expired one. *)
Definition load_or_store (ttl now : Z) (seen : gmap string Z) (nonce : string) :
    gmap string Z * (result nonce_error unit + Z) :=
  if String.eqb nonce "" then (seen, inl (Err errNonceRequired)) else
  match seen !! nonce with
  | None => (<[nonce := now + ttl]> seen, inl (Ok tt))
  | Some exp => if now <? exp then (seen, inl (Err errNonceReplay)) else (seen, inr (now + ttl))
  end.

(** The whole of it, when nothing runs in between. *)
Definition CheckAndRecord (ttl now : Z) (seen : gmap string Z) (nonce : string) : gmap string Z * result nonce_error unit :=
  match load_or_store ttl now seen nonce with
  | (seen, inl r) => (seen, r)
  | (seen, inr exp) => (<[nonce := exp]> seen, Ok tt)
  end.

(** The cache, the clock, the requests about to store over an expired entry,
    the keys the sweeper is about to delete, and the nonces accepted. *)
Record nonce_state := mkNonceState {
  seen : gmap string Z; clock : Z; storing : list (string * Z); deleting : list string; accepted : list string
}.

(** A step: time passes; a request that read the clock at [now] asks; it
    stores over an expired entry; the sweeper visits an expired entry; it
    deletes a key it visited. *)
Inductive nonce_step (attempt : string -> Z -> Z -> Prop) (ttl : Z) : nonce_state -> nonce_state -> Prop :=
| NTick m t t' st dl ac : t <= t' -> nonce_step attempt ttl (mkNonceState m t st dl ac) (mkNonceState m t' st dl ac)
| NAsk m t st dl ac now nonce m' r :
    attempt nonce now t -> now <= t -> load_or_store ttl now m nonce = (m', inl r) ->
    nonce_step attempt ttl (mkNonceState m t st dl ac)
      (mkNonceState m' t st dl (match r with Ok _ => nonce :: ac | Err _ => ac end))
| NExpired m t st dl ac now nonce m' exp :
    attempt nonce now t -> now <= t -> load_or_store ttl now m nonce = (m', inr exp) ->
    nonce_step attempt ttl (mkNonceState m t st dl ac) (mkNonceState m' t ((nonce, exp) :: st) dl ac)
| NStore m t st st' dl ac nonce exp :
    st ≡ₚ (nonce, exp) :: st' ->
    nonce_step attempt ttl (mkNonceState m t st dl ac) (mkNonceState (<[nonce := exp]> m) t st' dl (nonce :: ac))
| NSweep m t st dl ac tick nonce exp :
    tick <= t -> m !! nonce = Some exp -> exp < tick ->
    nonce_step attempt ttl (mkNonceState m t st dl ac) (mkNonceState m t st (nonce :: dl) ac)
| NDelete m t st dl dl' ac nonce :
    dl ≡ₚ nonce :: dl' -> nonce_step attempt ttl (mkNonceState m t st dl ac) (mkNonceState (delete nonce m) t st dl' ac).

Definition empty_cache (t : Z) : nonce_state := mkNonceState ∅ t [] [] [].

(** ** Facts *)

Lemma str_cut_last_inj c (a b a' b' : string) :
  str_contains c b = false -> str_contains c b' = false ->
  a +:+ String c b = a' +:+ String c b' -> a = a' /\ b = b'.
Proof.
  intros Hb Hb'. revert a'. induction a as [|x a IH]; intros [|y a'] H; cbn in H.
  - by injection H as ->.
  - injection H as _ ->. rewrite str_contains_app in Hb. cbn in Hb. rewrite Ascii.eqb_refl, orb_true_r in Hb. done.
  - injection H as _ <-. rewrite str_contains_app in Hb'. cbn in Hb'. rewrite Ascii.eqb_refl, orb_true_r in Hb'. done.
  - injection H as -> H. by destruct (IH a' H) as [-> ->].
Qed.

Lemma hex_char_no_dot d : 0 <= d < 16 -> Ascii.eqb "." (hex_char d) = false.
Proof.
  intros Hd. destruct (Ascii.eqb_spec "." (hex_char d)) as [E|]; [exfalso|done].
  apply (f_equal N_of_ascii) in E. unfold hex_char in E. rewrite N_ascii_embedding in E by (repeat case_match; lia).
  change (N_of_ascii ".") with 46%N in E. destruct (Z.ltb_spec d 10); lia.
Qed.
Lemma hex_no_dot s : str_contains "." (hex_encode s) = false.
Proof.
  induction s as [|c s IH]; cbn [hex_encode str_contains]; [done|]. pose proof (byte_range c).
  rewrite !hex_char_no_dot by zlia. done.
Qed.

Lemma Atoi_no_dot s n : Atoi s = Some n -> str_contains "." s = false.
Proof.
  unfold Atoi. intros Hs.
  assert (Hd : forall d, (if String.eqb d "" || negb (str_forall is_digit d) then None : option Z else Some 0) <> None ->
    str_contains "." d = false).
  { intros d Hne. destruct (str_forall is_digit d) eqn:E; [|by rewrite orb_true_r in Hne]. by eapply str_contains_forall. }
  destruct s as [|c r]; [done|]. destruct (Ascii.eqb_spec c "-") as [->|]; [|destruct (Ascii.eqb_spec c "+") as [->|]];
    [cbn [str_contains]; change (Ascii.eqb "." "-") with false; apply (Hd r)
    |cbn [str_contains]; change (Ascii.eqb "." "+") with false; apply (Hd r)
    |apply (Hd (String c r))]; by destruct (_ || _).
Qed.

Lemma Atoi_dec n : 0 <= n < 2 ^ 63 -> Atoi (dec_string n) = Some n.
Proof.
  intros Hn. destruct (dec_string_spec n) as (Hd & Hv & Hl & _); [lia|]. unfold Atoi.
  destruct (dec_string n) as [|c r] eqn:E; [by rewrite (proj2 (slen_zero "")) in Hl|].
  assert (is_digit c = true) as Hc by (by apply andb_true_iff in Hd as [Hd _]).
  destruct (Ascii.eqb_spec c "-") as [->|]; [done|]. destruct (Ascii.eqb_spec c "+") as [->|]; [done|].
  rewrite Hd, Hv. cbn. assert (is_int64 n = true) as -> by (apply is_int64_spec; lia). done.
Qed.

Lemma sub_unix_exact now ts :
  0 <= ts < 2 ^ 62 -> - 2 ^ 63 <= now - ts * second < 2 ^ 63 -> sub_unix now ts = now - ts * second.
Proof.
  intros Hts Hd. unfold sub_unix. rewrite wrap64_small by (unfold unixToInternal; lia).
  replace (ts + unixToInternal - unixToInternal) with ts by lia.
  assert (is_int64 (now - ts * second) = true) as -> by (apply is_int64_spec; lia). done.
Qed.

Section signatures.
Context `{Crypto}.

Lemma payload_cons ts method path nonce body :
  nonce <> ""%string ->
  payload ts method path nonce body =
  (ts +:+ String "." (method +:+ String "." (path +:+ String "." (nonce +:+ String "." (hex_encode (sha256 body))))))%string.
Proof. intros Hn. unfold payload. apply String.eqb_neq in Hn. by rewrite Hn. Qed.

Lemma Verify_Ok secret now method path body ts nonce sig maxSkew :
  VerifyWithNonce secret now method path body ts nonce sig maxSkew = Ok tt <->
  exists t, Atoi ts = Some t /\ (let d := sub_unix now t in (if d <? 0 then wrap64 (- d) else d) <= maxSkew) /\
    sig = mac secret ts method path nonce body.
Proof.
  unfold VerifyWithNonce. destruct (Atoi ts) as [t|]; [|split; [done|by intros (? & ? & _)]]. cbn zeta.
  destruct (Z.ltb_spec maxSkew (if sub_unix now t <? 0 then wrap64 (- sub_unix now t) else sub_unix now t)) as [Hlt|Hge].
  - split; [done|]. intros (? & [= <-] & Hle & _). lia.
  - destruct (String.eqb_spec (mac secret ts method path nonce body) sig) as [<-|Hne]; (split; [intros E; try done; by exists t|]).
    + done.
    + intros (? & [= <-] & _ & ->). done.
Qed.

(** ** Theorems *)

(** Two texts with one digest. *)
Definition collide (digest : string -> string) (a b : string) : Prop := a <> b /\ digest a = digest b.

(** C29: a request signed with a nonce verifies while its clock reading is
    within the skew; and whatever verifies under its signature for the same
    method and path, with a nonce, has its timestamp, its nonce and its body,
    or exhibits a collision: the two signed texts under the HMAC, or the two
    bodies under SHA-256.  (Both digests are parameters, nothing is assumed of
    them.) *)
Theorem signature_binds secret method path body nonce unix now maxSkew :
  0 <= unix < 2 ^ 62 -> Z.abs (now - unix * second) <= maxSkew -> Z.abs (now - unix * second) < 2 ^ 63 -> nonce <> ""%string ->
  let h := SignWithNonce secret unix method path body nonce in
  VerifyWithNonce secret now method path body (Timestamp h) nonce (Signature h) maxSkew = Ok tt /\
  forall now' body' ts' nonce' skew',
    VerifyWithNonce secret now' method path body' ts' nonce' (Signature h) skew' = Ok tt -> nonce' <> ""%string ->
    (ts' = Timestamp h /\ nonce' = nonce /\ body' = body) \/
    collide (hmac256 secret) (payload ts' method path nonce' body') (payload (Timestamp h) method path nonce body) \/
    collide sha256 body' body.
Proof.
  intros Hu Hskew Hfit Hn h.
  assert (Ets : Atoi (Timestamp h) = Some unix).
  { subst h. cbn. unfold FormatInt. destruct (Z.ltb_spec unix 0); [lia|]. apply Atoi_dec. lia. }
  split.
  - apply Verify_Ok. exists unix. split_and!; [done| |done]. cbn zeta. rewrite sub_unix_exact by lia.
    destruct (Z.ltb_spec (now - unix * second) 0); [rewrite wrap64_small by lia|]; lia.
  - intros now' body' ts' nonce' skew' (t & Ht & _ & Em)%Verify_Ok Hn'. subst h. cbn [Signature SignWithNonce] in Em.
    assert (Em' : hex_encode (hmac256 secret (payload (FormatInt unix) method path nonce body)) =
      hex_encode (hmac256 secret (payload ts' method path nonce' body'))).
    { revert Em. unfold mac. generalize (hex_encode (hmac256 secret (payload (FormatInt unix) method path nonce body))) as x.
      generalize (hex_encode (hmac256 secret (payload ts' method path nonce' body'))) as y. intros y x [= ->]. done. }
    apply hex_encode_inj in Em'.
    destruct (decide (payload ts' method path nonce' body' = payload (FormatInt unix) method path nonce body)) as [Ep|Hne]; [|by right; left].
    clear Em'. rename Ep into Em'. symmetry in Em'. rewrite !payload_cons in Em' by done.
    apply str_cut_inj in Em' as [Ets' Em']; [|by eapply Atoi_no_dot|by eapply Atoi_no_dot].
    apply str_app_inj_length in Em' as [_ Em']; [|done]. injection Em' as Em'.
    apply str_app_inj_length in Em' as [_ Em']; [|done]. injection Em' as Em'.
    apply str_cut_last_inj in Em' as [<- Eh]; [|apply hex_no_dot..].
    apply hex_encode_inj in Eh. destruct (decide (body' = body)) as [->|Hb]; [by left|]. by right; right.
Qed.
End signatures.

(** *** The cache under any interleaving *)

Section once.
Context (attempt : string -> Z -> Z -> Prop) (ttl : Z) (lo hi : string -> Z).
Hypothesis window : forall n now t, attempt n now t -> lo n <= now /\ t <= hi n.
Hypothesis fits : forall n, hi n - lo n < ttl.

Definition cache_inv (s : nonce_state) : Prop :=
  storing s = [] /\ NoDup (accepted s) /\
  (forall n e, seen s !! n = Some e -> hi n < e) /\
  (forall n, n ∈ accepted s -> is_Some (seen s !! n) \/ hi n < clock s) /\
  (forall n, n ∈ deleting s -> hi n < clock s).

Lemma cache_inv_step s s' : cache_inv s -> nonce_step attempt ttl s s' -> cache_inv s'.
Proof.
  unfold cache_inv. intros (Hs & Hnd & He & Ha & Hd) Hstep.
  destruct Hstep as [m t t' st dl ac Ht|m t st dl ac now n m' r Hat Hnow Hl|m t st dl ac now n m' exp Hat Hnow Hl
    |m t st st' dl ac n exp Hp|m t st dl ac tick n exp Ht Hm Hx|m t st dl dl' ac n Hp]; cbn in *.
  - split_and!; try done; intros n Hn; [destruct (Ha n Hn); [by left|right; lia]|specialize (Hd n Hn); lia].
  - destruct (window _ _ _ Hat) as [Hlo Hhi]. specialize (fits n). unfold load_or_store in Hl.
    destruct (String.eqb_spec n ""); [by injection Hl as <- <-; split_and!|].
    destruct (m !! n) as [e|] eqn:Em; [destruct (now <? e); [by injection Hl as <- <-; split_and!|done]|].
    injection Hl as <- <-. split_and!; [done| | | |done].
    + constructor; [|done]. intros Hin. destruct (Ha n Hin) as [[? ?]|]; [congruence|lia].
    + intros n' e. destruct (decide (n' = n)) as [->|Hne]; [rewrite lookup_insert_eq; intros [= <-]; lia|].
      rewrite lookup_insert_ne by done. apply He.
    + intros n' [->|Hin]%elem_of_cons; [left; by rewrite lookup_insert_eq|]. destruct (Ha n' Hin) as [Hsome|]; [left|by right].
      destruct (decide (n' = n)) as [->|Hne]; [by rewrite lookup_insert_eq|by rewrite lookup_insert_ne].
  - exfalso. destruct (window _ _ _ Hat) as [Hlo Hhi]. unfold load_or_store in Hl. destruct (String.eqb n ""); [done|].
    destruct (m !! n) as [e|] eqn:Em; [|done]. destruct (Z.ltb_spec now e); [done|]. specialize (He n e Em). lia.
  - subst st. by apply Permutation_nil_cons in Hp.
  - split_and!; try done. intros n' [->|Hin]%elem_of_cons; [|by apply Hd]. specialize (He n exp Hm). lia.
  - assert (hi n < t) as Hn by (apply Hd; rewrite Hp; by left). split_and!; try done.
    + intros n' e [_ Hl]%lookup_delete_Some. by apply He.
    + intros n' Hin. destruct (decide (n' = n)) as [->|Hne]; [by right|]. rewrite lookup_delete_ne by done. by apply Ha.
    + intros n' Hin. apply Hd. rewrite Hp. by right.
Qed.

Lemma accepted_once t0 s : rtc (nonce_step attempt ttl) (empty_cache t0) s -> NoDup (accepted s).
Proof.
  intros Hrun. enough (cache_inv s) as (_ & Hnd & _) by done.
  assert (cache_inv (empty_cache t0)) as H0.
  { split_and!; cbn; [done|constructor|intros n e; by rewrite lookup_empty|intros n Hn; by apply not_elem_of_nil in Hn..]. }
  induction Hrun as [|x y z Hxy _ IH]; [done|]. apply IH. by eapply cache_inv_step.
Qed.
End once.

(** C28: replay is impossible while the cache remembers long enough: however
    the requests, the sweeper and the clock interleave, if every request
    that reaches the cache was verified with its nonce's timestamp at most
    [delay] before, and the cache's time to live exceeds twice the skew plus
    that delay, no nonce is ever accepted twice. *)
Theorem replay_rejected `{Crypto} secret method path ts_text maxSkew delay ttl attempt t0 s :
  (forall n now t, attempt n now t -> exists v z body sig,
     VerifyWithNonce secret v method path body (ts_text n) n sig maxSkew = Ok tt /\ v <= now /\ t <= v + delay /\
     Atoi (ts_text n) = Some z /\ 0 <= z * second < 2 ^ 62 /\ 0 <= v < 2 ^ 62) ->
  2 * maxSkew + delay < ttl ->
  rtc (nonce_step attempt ttl) (empty_cache t0) s -> NoDup (accepted s).
Proof.
  intros Hat Httl. set (z_of := fun n => match Atoi (ts_text n) with Some z => z * second | None => 0 end).
  apply (accepted_once attempt ttl (fun n => z_of n - maxSkew) (fun n => z_of n + maxSkew + delay)); [|intros n; lia].
  intros n now t (v & z & body & sig & (z' & Hz' & Hskew & _)%Verify_Ok & Hv & Ht & Hz & Hzr & Hvr)%Hat.
  subst z_of. cbn. rewrite Hz. rewrite Hz in Hz'. injection Hz' as <-. cbn zeta in Hskew.
  rewrite sub_unix_exact in Hskew by (unfold second in *; lia).
  destruct (Z.ltb_spec (v - z * second) 0); [rewrite wrap64_small in Hskew by lia|]; lia.
Qed.


(** ** Witnesses and examples *)

(** A short checksum stands in for the digests: it has collisions. *)
Definition checksum (s : string) : string :=
  dec_string (fold_left (fun acc c => (acc * 31 + Z.of_N (N_of_ascii c)) mod 65521) (String.list_ascii_of_string s) 7).
Definition sums : Crypto := {| sha256 := checksum; hmac256 := fun key s => checksum (key +:+ s) |}.

(** The signed request verifies, and the body cannot be swapped. *)
Lemma signature_binds_witness :
  let h := SignWithNonce (H := sums) "k" 1700000000 "POST" "/hook" "{}" "n1" in
  VerifyWithNonce (H := sums) "k" 1700000001000000000 "POST" "/hook" "{}" (Timestamp h) "n1" (Signature h) 300000000000 = Ok tt /\
  VerifyWithNonce (H := sums) "k" 1700000001000000000 "POST" "/hook" "{1}" (Timestamp h) "n1" (Signature h) 300000000000 <> Ok tt.
Proof.
  destruct (signature_binds (H := sums) "k" "POST" "/hook" "{}" "n1" 1700000000 1700000001000000000 300000000000) as [Hok Hbind];
    [lia|unfold second; lia..|discriminate|].
  split; [exact Hok|]. intros Hbad. destruct (Hbind _ _ _ _ _ Hbad ltac:(discriminate)) as [(_ & _ & Hb)|[[_ Hc]|[_ Hc]]];
    [discriminate Hb|vm_compute in Hc; discriminate Hc..].
Defined.

Definition one_attempt (n : string) (now t : Z) : Prop := n = "n1"%string /\ now = 1700000001000000000 /\ t = now.
Lemma replay_rejected_witness :
  NoDup (accepted (mkNonceState {["n1"%string := 1700000601000000001]} 1700000001000000000 [] [] ["n1"%string])).
Proof.
  pose (h := SignWithNonce (H := sums) "k" 1700000000 "POST" "/hook" "{}" "n1").
  apply (replay_rejected (H := sums) "k" "POST" "/hook" (fun _ => Timestamp h) 300000000000 0 600000000001 one_attempt
    1700000001000000000); [|reflexivity|].
  - intros n now t (-> & -> & ->). exists 1700000001000000000, 1700000000, "{}"%string, (Signature h).
    split; [vm_compute; reflexivity|]. split; [lia|]. split; [lia|]. split; [vm_compute; reflexivity|]. unfold second. lia.
  - apply rtc_once. unfold empty_cache.
    exact (NAsk one_attempt 600000000001 ∅ 1700000001000000000 [] [] [] 1700000001000000000 "n1" _ (Ok tt)
      (conj eq_refl (conj eq_refl eq_refl)) (Z.le_refl _) eq_refl).
Defined.

(** The signed text is joined with dots and the path may hold some: a request
    captured with its nonce verifies without one under a longer path, and
    under a shorter path with another nonce. *)
Example nonce_moves_into_path :
  let h := SignWithNonce (H := sums) "k" 1700000000 "POST" "/hooks/v1.pay" "{}" "n1" in
  Verify (H := sums) "k" 1700000001000000000 "POST" "/hooks/v1.pay.n1" "{}" (Timestamp h) (Signature h) 300000000000 = Ok tt /\
  VerifyWithNonce (H := sums) "k" 1700000001000000000 "POST" "/hooks/v1" "{}" (Timestamp h) "pay.n1" (Signature h) 300000000000 = Ok tt.
Proof. split; vm_compute; reflexivity. Qed.

(** A timestamp more than 292 years ahead is inside every window: the
    difference saturates at the least int64, which is its own negation. *)
Example far_future_timestamp_accepted :
  let h := Sign (H := sums) "k" 11000000000 "POST" "/hook" "{}" in
  Verify (H := sums) "k" 1700000001000000000 "POST" "/hook" "{}" (Timestamp h) (Signature h) 300000000000 = Ok tt.
Proof. vm_compute. reflexivity. Qed.

Lemma rtc_eq {A} (R : A -> A -> Prop) x y : x = y -> rtc R x y.
Proof. intros ->. apply rtc_refl. Qed.

(** Once a nonce has expired, two requests that ask together are both
    accepted: each finds the expired entry and stores over it. *)
Example expired_race :
  exists s, rtc (nonce_step (fun _ _ _ => True) 10) (empty_cache 0) s /\ clock s = 10 /\ accepted s = ["n"; "n"; "n"]%string.
Proof.
  exists (mkNonceState {["n"%string := 20]} 10 [] [] ["n"; "n"; "n"]%string). split; [|split; reflexivity].
  eapply rtc_l; [eapply (NAsk _ 10 ∅ 0 [] [] [] 0 "n" _ (Ok tt) I); [lia|reflexivity]|].
  eapply rtc_l; [eapply (NTick _ 10 _ 0 10); lia|].
  eapply rtc_l; [eapply (NExpired _ 10 _ 10 [] [] _ 10 "n" _ 20 I); [lia|vm_compute; reflexivity]|].
  eapply rtc_l; [eapply (NExpired _ 10 _ 10 _ [] _ 10 "n" _ 20 I); [lia|vm_compute; reflexivity]|].
  eapply rtc_l; [eapply (NStore _ 10 _ 10 _ [("n"%string, 20)] [] _ "n" 20); reflexivity|].
  eapply rtc_l; [eapply (NStore _ 10 _ 10 _ [] [] _ "n" 20); reflexivity|].
  apply rtc_eq. vm_compute. reflexivity.
Qed.

(** The sweeper deletes a key it saw expired even when a request has stored
    it anew meanwhile: the nonce is accepted again within its time to live. *)
Example sweep_forgets_fresh_nonce :
  exists s, rtc (nonce_step (fun _ _ _ => True) 10) (empty_cache 0) s /\ clock s = 11 /\ accepted s = ["n"; "n"; "n"]%string.
Proof.
  exists (mkNonceState {["n"%string := 21]} 11 [] [] ["n"; "n"; "n"]%string). split; [|split; reflexivity].
  eapply rtc_l; [eapply (NAsk _ 10 ∅ 0 [] [] [] 0 "n" _ (Ok tt) I); [lia|reflexivity]|].
  eapply rtc_l; [eapply (NTick _ 10 _ 0 11); lia|].
  eapply rtc_l; [eapply (NSweep _ 10 _ 11 [] [] _ 11 "n" 10); [lia|vm_compute; reflexivity|lia]|].
  eapply rtc_l; [eapply (NExpired _ 10 _ 11 [] _ _ 11 "n" _ 21 I); [lia|vm_compute; reflexivity]|].
  eapply rtc_l; [eapply (NStore _ 10 _ 11 _ [] _ _ "n" 21); reflexivity|].
  eapply rtc_l; [eapply (NDelete _ 10 _ 11 [] _ [] _ "n"); reflexivity|].
  eapply rtc_l; [eapply (NAsk _ 10 _ 11 [] [] _ 11 "n" _ (Ok tt) I); [lia|vm_compute; reflexivity]|].
  apply rtc_eq. vm_compute. reflexivity.
Qed.
