(* ===== verification/GoHTTP.v ===== *)
(** * What the HTTP components use of Go's standard library

    Case folding, substrings, [utf8.Valid], header lookup, hex and base64
    decoding, on byte strings, with the round trips of the encodings. *)

From S2P Require Import Prelude GoStrings.

(** ** Strings *)

Definition upper_char (c : ascii) : ascii := if is_lower c then ascii_of_N (Z.to_N (byte c - 32)) else c.

(** [unicode.ToUpper] on the runes of a string that is not ASCII. *)
Class UnicodeUpper := unicode_upper : string -> string.
Definition ToUpper `{UnicodeUpper} (s : string) : string :=
  if str_forall is_ascii s then str_map upper_char s else unicode_upper s.

(** The ASCII letter each rune of [s] folds to: besides the two cases, the
    Kelvin sign (E2 84 AA) folds to k and the long s (C5 BF) to s. *)
Fixpoint fold_ascii (s : string) : string :=
  match s with
  | EmptyString => EmptyString
  | String c r =>
      match r with
      | String d r2 =>
          if (byte c =? 197) && (byte d =? 191) then String "s" (fold_ascii r2) else
          match r2 with
          | String e r3 =>
              if (byte c =? 226) && (byte d =? 132) && (byte e =? 170) then String "k" (fold_ascii r3)
              else String (lower_char c) (fold_ascii r)
          | EmptyString => String (lower_char c) (fold_ascii r)
          end
      | EmptyString => String (lower_char c) EmptyString
      end
  end.
(** [strings.EqualFold(s, t)] for an ASCII [t]. *)
Definition EqualFold (s t : string) : bool := String.eqb (fold_ascii s) (str_map lower_char t).

(** [strings.Contains]. *)
Fixpoint Contains (s sub : string) : bool :=
  HasPrefix s sub || match s with EmptyString => false | String _ r => Contains r sub end.

(** [utf8.Valid]: no byte to drop. *)
Definition utf8_valid (s : string) : bool := String.eqb (to_valid_utf8 s) s.

(** [strings.Join] with any separator. *)
Fixpoint Join (sep : string) (l : list string) : string :=
  match l with [] => EmptyString | [s] => s | s :: l => (s +:+ sep +:+ Join sep l)%string end.

(** [fmt]'s %q, [strconv.Quote]. *)
Class GoQuote := Quote : string -> string.

Definition quot : string := String "034" EmptyString.
Definition jstr (s : string) : string := (quot +:+ s +:+ quot)%string.

(** ** Headers *)

(** [http.Header] in an iteration order: a key appears once. *)
Abbreviation header := (list (string * list string)).

(** The bytes of a header field name. *)
Definition valid_field_byte (c : ascii) : bool :=
  is_upper c || is_lower c || is_digit c || str_contains c "!#$%&'*+-.^_`|~".

Fixpoint canonical_from (up : bool) (s : string) : string :=
  match s with
  | EmptyString => EmptyString
  | String c r =>
      let c' := if up then upper_char c else lower_char c in
      String c' (canonical_from (Ascii.eqb c "-") r)
  end.
(** [textproto.CanonicalMIMEHeaderKey]. *)
Definition CanonicalHeaderKey (s : string) : string :=
  if str_forall valid_field_byte s then canonical_from true s else s.

Fixpoint assoc {A} (k : string) (l : list (string * A)) : option A :=
  match l with [] => None | (j, v) :: l => if String.eqb j k then Some v else assoc k l end.

(** [h.Get(k)]. *)
Definition header_get (h : header) (k : string) : string :=
  match assoc (CanonicalHeaderKey k) h with Some (v :: _) => v | _ => EmptyString end.

(** ** hex *)

Definition hex_val (c : ascii) : option Z :=
  if is_digit c then Some (byte c - 48)
  else if (97 <=? byte c) && (byte c <=? 102) then Some (byte c - 87)
  else if (65 <=? byte c) && (byte c <=? 70) then Some (byte c - 55)
  else None.
Definition chr (z : Z) : ascii := ascii_of_N (Z.to_N z).

(** [hex.DecodeString]. *)
Fixpoint hex_decode (s : string) : option string :=
  match s with
  | EmptyString => Some EmptyString
  | String a (String b r) =>
      match hex_val a, hex_val b, hex_decode r with
      | Some x, Some y, Some t => Some (String (chr (16 * x + y)) t)
      | _, _, _ => None
      end
  | String _ EmptyString => None
  end.

(** ** base64.StdEncoding *)

Definition b64_char (d : Z) : ascii :=
  if d <? 26 then chr (d + 65) else if d <? 52 then chr (d + 71) else if d <? 62 then chr (d - 4)
  else if d =? 62 then "+"%char else "/"%char.
Definition b64_val (c : ascii) : option Z :=
  if is_upper c then Some (byte c - 65) else if is_lower c then Some (byte c - 71)
  else if is_digit c then Some (byte c + 4) else if Ascii.eqb c "+" then Some 62
  else if Ascii.eqb c "/" then Some 63 else None.

Fixpoint b64_encode (s : string) : string :=
  match s with
  | EmptyString => EmptyString
  | String a EmptyString =>
      String (b64_char (byte a / 4)) (String (b64_char (byte a mod 4 * 16)) "==")
  | String a (String b EmptyString) =>
      String (b64_char (byte a / 4)) (String (b64_char (byte a mod 4 * 16 + byte b / 16))
        (String (b64_char (byte b mod 16 * 4)) "="))
  | String a (String b (String c r)) =>
      String (b64_char (byte a / 4)) (String (b64_char (byte a mod 4 * 16 + byte b / 16))
        (String (b64_char (byte b mod 16 * 4 + byte c / 64)) (String (b64_char (byte c mod 64)) (b64_encode r))))
  end.

(** The decoder passes over CR and LF anywhere; the bits left over by a
    padded group are not checked. *)
Definition is_newline (c : ascii) : bool := (byte c =? 10) || (byte c =? 13).
Fixpoint str_filter (p : ascii -> bool) (s : string) : string :=
  match s with EmptyString => EmptyString | String c r => if p c then String c (str_filter p r) else str_filter p r end.

Fixpoint b64_groups (s : string) : option string :=
  match s with
  | EmptyString => Some EmptyString
  | String a (String b (String c (String d r))) =>
      match b64_val a, b64_val b with
      | Some x, Some y =>
          let o1 := chr (x * 4 + y / 16) in
          if Ascii.eqb c "=" then
            if Ascii.eqb d "=" && String.eqb r "" then Some (String o1 "") else None
          else
          match b64_val c with
          | None => None
          | Some z =>
              let o2 := chr (y mod 16 * 16 + z / 4) in
              if Ascii.eqb d "=" then if String.eqb r "" then Some (String o1 (String o2 "")) else None
              else
              match b64_val d, b64_groups r with
              | Some w, Some t => Some (String o1 (String o2 (String (chr (z mod 4 * 64 + w)) t)))
              | _, _ => None
              end
          end
      | _, _ => None
      end
  | _ => None
  end.
Definition b64_decode (s : string) : option string := b64_groups (str_filter (fun c => negb (is_newline c)) s).

(** ** Round trips *)

Lemma byte_chr z : 0 <= z < 256 -> byte (chr z) = z.
Proof. intros Hz. unfold byte, chr. rewrite N_ascii_embedding; lia. Qed.
Lemma chr_byte c : chr (byte c) = c.
Proof. apply byte_inj. apply byte_chr, byte_range. Qed.

Lemma chr_eq z c : z = byte c -> chr z = c.
Proof. intros ->. apply chr_byte. Qed.

(** The range of every byte of the context. *)
Ltac bytes_in_range :=
  repeat match goal with
  | x : ascii |- _ => lazymatch goal with H : 0 <= byte x < 256 |- _ => fail | _ => pose proof (byte_range x) end
  end.

(** The digits, one by one. *)
Lemma below_all (P : Z -> Prop) `{forall d, Decision (P d)} n :
  forallb (fun d => bool_decide (P d)) (map Z.of_nat (seq 0 n)) = true -> forall d, 0 <= d < Z.of_nat n -> P d.
Proof.
  intros Hall d Hd. rewrite forallb_forall in Hall. apply (bool_decide_eq_true (P d)), Hall, in_map_iff.
  exists (Z.to_nat d). split; [lia|]. apply in_seq. lia.
Qed.

Lemma hex_val_char d : 0 <= d < 16 -> hex_val (hex_char d) = Some d.
Proof. apply (below_all (fun d => hex_val (hex_char d) = Some d) 16). by vm_compute. Qed.

Lemma hex_decode_encode s : hex_decode (hex_encode s) = Some s.
Proof.
  induction s as [|c s IH]; [done|]. cbn [hex_encode hex_decode]. pose proof (byte_range c).
  rewrite !hex_val_char, IH, (chr_eq _ c) by zlia. done.
Qed.

Lemma hex_encode_length s : String.length (hex_encode s) = (2 * String.length s)%nat.
Proof. induction s as [|c s IH]; cbn; [done|]. rewrite IH. lia. Qed.

Lemma b64_char_ok d :
  0 <= d < 64 -> b64_val (b64_char d) = Some d /\ Ascii.eqb (b64_char d) "=" = false /\ is_newline (b64_char d) = false.
Proof.
  apply (below_all (fun d => b64_val (b64_char d) = Some d /\ Ascii.eqb (b64_char d) "=" = false /\
    is_newline (b64_char d) = false) 64). by vm_compute.
Qed.
Lemma b64_val_char d : 0 <= d < 64 -> b64_val (b64_char d) = Some d.
Proof. apply b64_char_ok. Qed.
Lemma b64_char_pad d : 0 <= d < 64 -> Ascii.eqb (b64_char d) "=" = false.
Proof. apply b64_char_ok. Qed.
Lemma b64_char_newline d : 0 <= d < 64 -> is_newline (b64_char d) = false.
Proof. apply b64_char_ok. Qed.

(** Induction by groups of three bytes. *)
Lemma str_ind3 (P : string -> Prop) :
  P EmptyString -> (forall a, P (String a EmptyString)) -> (forall a b, P (String a (String b EmptyString))) ->
  (forall a b c r, P r -> P (String a (String b (String c r)))) -> forall s, P s.
Proof.
  intros H0 H1 H2 H3. fix IH 1. intros [|a [|b [|c r]]]; [exact H0|apply H1|apply H2|apply H3, IH].
Qed.

Lemma b64_encode_no_newline s : str_filter (fun c => negb (is_newline c)) (b64_encode s) = b64_encode s.
Proof.
  induction s as [|a|a b|a b c r IH] using str_ind3; cbn [b64_encode str_filter];
    bytes_in_range; rewrite ?b64_char_newline by zlia; cbn [negb]; try done.
  by rewrite IH.
Qed.

Lemma b64_decode_encode s : b64_decode (b64_encode s) = Some s.
Proof.
  unfold b64_decode. rewrite b64_encode_no_newline.
  induction s as [|a|a b|a b c r IH] using str_ind3; cbn [b64_encode b64_groups]; [done|..];
    bytes_in_range; rewrite !b64_val_char by zlia; rewrite ?b64_char_pad by zlia.
  - cbn. rewrite (chr_eq _ a) by zlia. done.
  - cbn. rewrite (chr_eq _ a), (chr_eq _ b) by zlia. done.
  - rewrite IH, (chr_eq _ a), (chr_eq _ b), (chr_eq _ c) by zlia. done.
Qed.

Lemma b64_encode_length s : String.length (b64_encode s) = (4 * ((String.length s + 2) / 3))%nat.
Proof.
  induction s as [|a|a b|a b c r IH] using str_ind3; try done. cbn [b64_encode String.length]. rewrite IH.
  replace (S (S (S (String.length r))) + 2)%nat with (String.length r + 2 + 1 * 3)%nat by lia.
  rewrite Nat.div_add by lia. lia.
Qed.

Lemma assoc_In {A} k (v : A) l : assoc k l = Some v -> In (k, v) l.
Proof.
  induction l as [|[j w] l IH]; cbn; [done|]. destruct (String.eqb_spec j k) as [->|]; [intros [= ->]; by left|right; auto].
Qed.

(** ** Trimming printable ASCII *)

Definition printable (c : ascii) : bool := is_ascii c && negb (space1 c).

Lemma str_forall_rev p s : str_forall p (str_rev s) = str_forall p s.
Proof.
  unfold str_rev. assert (H : forall acc, str_forall p (str_rev_app s acc) = str_forall p s && str_forall p acc).
  { induction s as [|c s IH]; intros acc; cbn; [done|]. rewrite IH. cbn. destruct (p c), (str_forall p s); done. }
  rewrite H. by rewrite andb_true_r.
Qed.

Lemma str_rev_involutive s : str_rev (str_rev s) = s.
Proof.
  unfold str_rev. assert (H : forall acc, str_rev_app (str_rev_app s acc) "" = str_rev_app acc s).
  { induction s as [|c s IH]; intros acc; cbn; [done|]. by rewrite IH. }
  by rewrite H.
Qed.

Lemma TrimSpace_printable s : str_forall printable s = true -> TrimSpace s = s.
Proof.
  intros Hs. assert (Hl : forall t, str_forall printable t = true -> trim_left t = t /\ trim_left_rev t = t).
  { intros [|c r]; [done|]. cbn. unfold printable, is_ascii. intros [[Ha Hsp]%andb_true_iff _]%andb_true_iff.
    apply negb_true_iff in Hsp. rewrite Hsp. apply Z.ltb_lt in Ha.
    destruct r as [|d r2]; [done|]. unfold space2, space3.
    assert (byte c =? 194 = false) as -> by lia. assert (byte c =? 133 = false) as -> by lia.
    assert (byte c =? 160 = false) as -> by lia. cbn [andb orb]. rewrite andb_false_r.
    assert (byte c =? 225 = false) as -> by lia. assert (byte c =? 226 = false) as -> by lia.
    assert (byte c =? 227 = false) as -> by lia. assert (byte c =? 128 = false) as -> by lia.
    assert (128 <=? byte c = false) as -> by lia. assert (byte c =? 168 = false) as -> by lia.
    assert (byte c =? 169 = false) as -> by lia. assert (byte c =? 175 = false) as -> by lia.
    assert (byte c =? 159 = false) as -> by lia. cbn [andb orb]. rewrite !andb_false_r.
    destruct r2 as [|e r3]; [done|]. split; [done|]. by destruct (byte e =? 225), (byte e =? 226), (byte e =? 227). }
  unfold TrimSpace. rewrite (proj1 (Hl s Hs)), (proj2 (Hl (str_rev s) ltac:(by rewrite str_forall_rev))).
  apply str_rev_involutive.
Qed.

Lemma hex_char_plain d : 0 <= d < 16 -> printable (hex_char d) = true /\ Ascii.eqb (hex_char d) "=" = false.
Proof. apply (below_all (fun d => printable (hex_char d) = true /\ Ascii.eqb (hex_char d) "=" = false) 16). by vm_compute. Qed.
Lemma b64_char_printable d : 0 <= d < 64 -> printable (b64_char d) = true.
Proof. apply (below_all (fun d => printable (b64_char d) = true) 64). by vm_compute. Qed.

Definition no_equals (c : ascii) : bool := negb (Ascii.eqb c "=").

Lemma hex_encode_plain s : str_forall printable (hex_encode s) = true /\ str_forall no_equals (hex_encode s) = true.
Proof.
  induction s as [|c s [IH1 IH2]]; [done|]. cbn [hex_encode str_forall]. pose proof (byte_range c). unfold no_equals.
  destruct (hex_char_plain (byte c / 16)) as [-> ->]; [zlia|]. destruct (hex_char_plain (byte c mod 16)) as [-> ->]; [zlia|].
  by rewrite IH1.
Qed.

Lemma b64_encode_printable s : str_forall printable (b64_encode s) = true.
Proof.
  induction s as [|a|a b|a b c r IH] using str_ind3; cbn [b64_encode str_forall]; bytes_in_range;
    rewrite ?b64_char_printable by zlia; done.
Qed.

(** The padding is in the last two bytes. *)
Lemma b64_encode_no_equals s n :
  (n + 2 <= String.length (b64_encode s))%nat -> str_forall no_equals (str_take n (b64_encode s)) = true.
Proof.
  revert n. induction s as [|a|a b|a b c r IH] using str_ind3; intros n Hn; cbn [b64_encode String.length] in *;
    bytes_in_range; [by destruct n|..].
  - do 3 (destruct n as [|n]; [cbn; unfold no_equals; rewrite ?b64_char_pad by zlia; done|]). lia.
  - do 3 (destruct n as [|n]; [cbn; unfold no_equals; rewrite ?b64_char_pad by zlia; done|]). lia.
  - do 4 (destruct n as [|n]; [cbn; unfold no_equals; rewrite ?b64_char_pad by zlia; done|]).
    cbn. unfold no_equals at 1 2 3 4. rewrite !b64_char_pad by zlia. apply IH. lia.
Qed.

Lemma fold_ascii_lower x : str_forall is_ascii x = true -> fold_ascii x = str_map lower_char x.
Proof.
  intros Ha. induction x as [|c x IH]; [done|]. cbn [str_forall] in Ha. apply andb_true_iff in Ha as [Hc Ha].
  unfold is_ascii in Hc. apply Z.ltb_lt in Hc. cbn [fold_ascii str_map]. specialize (IH Ha).
  assert (byte c =? 197 = false) as -> by lia. assert (byte c =? 226 = false) as -> by lia.
  destruct x as [|d x]; [done|]. rewrite IH. by destruct x.
Qed.
Lemma EqualFold_refl x : str_forall is_ascii x = true -> EqualFold x x = true.
Proof. intros Ha. unfold EqualFold. rewrite fold_ascii_lower by done. apply String.eqb_refl. Qed.
Lemma EqualFold_no_equals x : str_forall no_equals x = true -> str_forall is_ascii x = true -> EqualFold x "sha256=" = false.
Proof.
  intros Hx Ha. unfold EqualFold. destruct (String.eqb_spec (fold_ascii x) (str_map lower_char "sha256=")) as [E|]; [exfalso|done].
  rewrite (fold_ascii_lower x Ha) in E.
  assert (Hn : str_forall no_equals (str_map lower_char x) = true).
  { clear E Ha. induction x as [|c x IH]; [done|]. cbn [str_forall str_map] in *. apply andb_true_iff in Hx as [Hc Hx].
    rewrite (IH Hx), andb_true_r. unfold no_equals, lower_char in *. destruct (is_upper c) eqn:Hu; [|done].
    unfold is_upper in Hu. destruct (Ascii.eqb_spec (ascii_of_N (Z.to_N (byte c + 32))) "=") as [E|]; [exfalso|done].
    apply (f_equal byte) in E. change (byte "=") with 61 in E. unfold byte at 1 in E. rewrite N_ascii_embedding in E by lia. lia. }
  rewrite E in Hn. done.
Qed.
