(* ===== verification/GoJSON.v ===== *)
(** * encoding/json as the code uses it

    Decoded JSON, the members of an object decoded into a map and encoded
    again, and the decoding of an object into a struct.  The strings of a
    decoded text are valid UTF-8. *)

From stdpp Require Import base list.
From S2P Require Import Prelude GoStrings GoHTTP.

(** The members of an object as they stand in the text. *)
Inductive json : Type :=
| JNull | JBool (b : bool) | JNumber (s : string) | JString (s : string) | JArray (l : list json)
| JObject (l : list (string * json)).

(** A strict decode with [UseNumber], and [Marshal]. *)
Class BodyJSON := { json_decode : string -> option json; json_marshal : json -> string }.

(** ** Objects as maps *)

(** Writing a key of a map that is encoded in key order. *)
Fixpoint put {A} (k : string) (v : A) (l : list (string * A)) : list (string * A) :=
  match l with
  | [] => [(k, v)]
  | (k', v') :: l' =>
      match String.compare k k' with
      | Lt => (k, v) :: l
      | Eq => (k, v) :: l'
      | Gt => (k', v') :: put k v l'
      end
  end.
(** An object decoded into a map and encoded again: the last member of a
    name wins, the names are in order. *)
Definition members {A} (l : list (string * A)) : list (string * A) := foldl (fun acc kv => put kv.1 kv.2 acc) [] l.

(** ** Objects as structs *)

(** The names match the field without regard to case.  The flag is false
    after a value of another type, which is skipped. *)
Definition decode_field {A} (name : string) (read : json -> A -> option A) (l : list (string * json)) (zero : A) : A * bool :=
  foldl (fun acc kv =>
    if EqualFold kv.1 name then
      match read kv.2 acc.1 with Some v => (v, acc.2) | None => (acc.1, false) end
    else acc) (zero, true) l.

Definition read_string (v : json) (old : string) : option string :=
  match v with JString s => Some s | JNull => Some old | _ => None end.
Definition read_bool_ptr (v : json) (_ : option bool) : option (option bool) :=
  match v with JBool b => Some (Some b) | JNull => Some None | _ => None end.
Definition read_int64_ptr (v : json) (_ : option Z) : option (option Z) :=
  match v with JNumber s => Some <$> Atoi s | JNull => Some None | _ => None end.

(** ** Facts *)

Lemma str_compare_refl s : String.compare s s = Eq.
Proof. pose proof (String.compare_antisym s s) as E. by destruct (String.compare s s). Qed.

Lemma assoc_put {A} k k' (v : A) l : assoc k (put k' v l) = if String.eqb k' k then Some v else assoc k l.
Proof.
  induction l as [|[k1 v1] l IH]; cbn; [done|].
  destruct (String.compare k' k1) eqn:E; cbn; [|done|].
  - apply String.compare_eq_iff in E as ->. by destruct (String.eqb_spec k1 k).
  - rewrite IH. destruct (String.eqb_spec k1 k) as [->|], (String.eqb_spec k' k) as [->|]; try done.
    by rewrite str_compare_refl in E.
Qed.

Lemma assoc_foldl_put {A} k (l acc : list (string * A)) :
  assoc k (foldl (fun acc kv => put kv.1 kv.2 acc) acc l) =
  match assoc k (rev l) with Some v => Some v | None => assoc k acc end.
Proof.
  revert acc. induction l as [|[k1 v1] l IH]; intros acc; cbn [foldl rev]; [done|].
  rewrite IH, assoc_put. cbn [fst snd].
  assert (forall a b : list (string * A), assoc k (a ++ b) = match assoc k a with Some v => Some v | None => assoc k b end) as Happ.
  { intros a b. induction a as [|[k2 v2] a IHa]; cbn; [done|]. by destruct (String.eqb k2 k). }
  rewrite Happ. destruct (assoc k (rev l)); [done|]. cbn. by destruct (String.eqb k1 k).
Qed.
Lemma assoc_members {A} k (l : list (string * A)) : assoc k (members l) = assoc k (rev l).
Proof. unfold members. rewrite assoc_foldl_put. by destruct (assoc k (rev l)). Qed.

(** ** Names in order *)

Definition str_lt (a b : string) : Prop := String.compare a b = Lt.

Lemma str_lt_trans a b c : str_lt a b -> str_lt b c -> str_lt a c.
Proof.
  unfold str_lt. revert b c. induction a as [|x a IH]; intros [|y b] [|z c]; cbn; try done.
  unfold Ascii.compare. intros Hab Hbc.
  destruct (N.compare_spec (N_of_ascii x) (N_of_ascii y)), (N.compare_spec (N_of_ascii y) (N_of_ascii z)),
    (N.compare_spec (N_of_ascii x) (N_of_ascii z)); try done; try lia. by eapply IH.
Qed.

Lemma put_names {A} k (v : A) l x : x ∈ map fst (put k v l) -> x = k \/ x ∈ map fst l.
Proof.
  induction l as [|[k' v'] l IH]; cbn; [set_solver|].
  destruct (String.compare k k'); cbn; rewrite !elem_of_cons; naive_solver.
Qed.

Lemma put_sorted {A} k (v : A) l : StronglySorted str_lt (map fst l) -> StronglySorted str_lt (map fst (put k v l)).
Proof.
  induction l as [|[k' v'] l IH]; cbn; [intros _; repeat constructor|].
  intros Hs. inversion Hs as [|? ? Hl Hf]; subst. destruct (String.compare k k') eqn:Hc; cbn.
  - apply String.compare_eq_iff in Hc as ->. by constructor.
  - constructor; [by constructor|]. constructor; [done|]. eapply Forall_impl; [exact Hf|]. intros x. by apply str_lt_trans.
  - constructor; [by apply IH|]. apply Forall_forall. intros x [->|Hx]%put_names.
    + unfold str_lt. pose proof (String.compare_antisym k k') as Ha. rewrite Hc in Ha. by destruct (String.compare k' k).
    + by eapply Forall_forall in Hf.
Qed.

Lemma members_sorted {A} (l : list (string * A)) : StronglySorted str_lt (map fst (members l)).
Proof.
  unfold members. assert (StronglySorted str_lt (map fst (@nil (string * A)))) as H0 by constructor. revert H0.
  generalize (@nil (string * A)). induction l as [|kv l IH]; intros acc Ha; [done|]. cbn. by apply IH, put_sorted.
Qed.

Lemma assoc_app {A} k (a b : list (string * A)) :
  assoc k (a ++ b) = match assoc k a with Some v => Some v | None => assoc k b end.
Proof. induction a as [|[k2 v2] a IHa]; cbn; [done|]. by destruct (String.eqb k2 k). Qed.

Lemma assoc_rev_sorted {A} k (l : list (string * A)) : StronglySorted str_lt (map fst l) -> assoc k (rev l) = assoc k l.
Proof.
  induction l as [|[k1 v1] l IH]; [done|]. cbn. intros Hs. inversion Hs as [|? ? Hl Hf]; subst.
  rewrite assoc_app, (IH Hl). cbn. destruct (String.eqb_spec k1 k) as [->|]; [|by destruct (assoc k l)].
  destruct (assoc k l) as [v|] eqn:Ha; [|done]. exfalso. apply assoc_In in Ha.
  assert (k ∈ map fst l) as Hk by (apply list_elem_of_In, in_map_iff; by exists (k, v)).
  eapply Forall_forall in Hf; [|exact Hk]. unfold str_lt in Hf. by rewrite str_compare_refl in Hf.
Qed.

(** The member of an object as a map has it. *)
Definition field (k : string) (v : json) : option json := match v with JObject l => assoc k (members l) | _ => None end.

Lemma field_put k key v l : field k (JObject (put key v (members l))) = if String.eqb key k then Some v else field k (JObject l).
Proof. cbn. rewrite assoc_members, assoc_rev_sorted by apply put_sorted, members_sorted. apply assoc_put. Qed.

Lemma field_assoc k l : field k (JObject l) = None <-> assoc k l = None.
Proof.
  cbn. rewrite assoc_members. induction l as [|[k1 v1] l IH]; [done|]. cbn. rewrite assoc_app. cbn.
  destruct (String.eqb k1 k); [by destruct (assoc k (rev l))|]. rewrite <- IH. by destruct (assoc k (rev l)).
Qed.

(** Induction on JSON with the members. *)
Section json_induction.
Variable P : json -> Prop.
Hypotheses (Hnull : P JNull) (Hbool : forall b, P (JBool b)) (Hnum : forall s, P (JNumber s)) (Hstr : forall s, P (JString s))
  (Harr : forall l, Forall P l -> P (JArray l)) (Hobj : forall l, Forall (fun kv => P kv.2) l -> P (JObject l)).
Fixpoint json_induction (v : json) : P v :=
  match v with
  | JNull => Hnull | JBool b => Hbool b | JNumber s => Hnum s | JString s => Hstr s
  | JArray l => Harr l ((fix go l : Forall P l :=
      match l with [] => Forall_nil_2 _ | x :: l => Forall_cons_2 _ _ _ (json_induction x) (go l) end) l)
  | JObject l => Hobj l ((fix go l : Forall (fun kv => P kv.2) l :=
      match l with [] => Forall_nil_2 _ | x :: l => Forall_cons_2 _ _ _ (json_induction x.2) (go l) end) l)
  end.
End json_induction.

(** ** Equality *)

Fixpoint json_eqb (a b : json) : bool :=
  match a, b with
  | JNull, JNull => true
  | JBool x, JBool y => Bool.eqb x y
  | JNumber x, JNumber y | JString x, JString y => String.eqb x y
  | JArray l, JArray m =>
      (fix go l m := match l, m with [], [] => true | x :: l, y :: m => json_eqb x y && go l m | _, _ => false end) l m
  | JObject l, JObject m =>
      (fix go l m := match l, m with
                     | [], [] => true
                     | x :: l, y :: m => String.eqb x.1 y.1 && json_eqb x.2 y.2 && go l m
                     | _, _ => false
                     end) l m
  | _, _ => false
  end.
Lemma json_eqb_eq a b : json_eqb a b = true <-> a = b.
Proof.
  revert b. induction a as [|x|x|x|l IH|l IH] using json_induction; intros b; destruct b as [|y|y|y|m|m]; try done; cbn [json_eqb].
  - rewrite Bool.eqb_true_iff. split; congruence.
  - rewrite String.eqb_eq. split; congruence.
  - rewrite String.eqb_eq. split; congruence.
  - transitivity (l = m); [|split; congruence]. revert m. induction IH as [|x l Hx _ IHl]; intros [|y m]; try done.
    rewrite andb_true_iff, Hx, IHl. split; [by intros [-> ->]|by intros [= -> ->]].
  - transitivity (l = m); [|split; congruence]. revert m. induction IH as [|[i x] l Hx _ IHl]; intros [|[j y] m]; try done.
    cbn [fst snd] in *. rewrite !andb_true_iff, String.eqb_eq, Hx, IHl. split; [by intros [[-> ->] ->]|by intros [= -> -> ->]].
Qed.
#[export] Instance json_eq_dec : EqDecision json.
Proof. intros a b. refine (cast_if (decide (json_eqb a b = true))); by rewrite <- json_eqb_eq. Defined.
