(* ===== verification/WebhookIn.v ===== *)
(** * Inbound webhooks (runtime/webhookin/webhookin.go, payload.go)

    The route table, the verification of a request, the payload a handler
    gets and the answer it may shape.  A definition that dispatches returns
    the calls it made to handlers, so the theorems can say when none is. *)

From stdpp Require Import gmap.
From S2P Require Import Prelude GoStrings GoHTTP Signing.

(** ** Data *)

Definition VerifyNone : string := "".
Definition VerifyHMACSHA256 : string := "hmac-sha256".
Definition VerifyBearer : string := "bearer".
Definition VerifyAddon : string := "addon".
Definition KindPayments : string := "payments".

Record Route := mkRoute {
  rKey : string; rPath : string; rVerify : string; rSecretRef : string; rDo : string;
  rHeaders : list string; rKind : string
}.

Inductive sentinel : Type :=
| ErrRouteNotFound | ErrSignatureMissing | ErrSignatureInvalid | ErrUnsupportedVerify | ErrNoDispatcher
| ErrNoSecretResolver | ErrSecretNotConfigured.
#[export] Instance sentinel_eq_dec : EqDecision sentinel.
Proof. solve_decision. Defined.

(** An error: the sentinels [errors.Is] finds in it, and its text. *)
Record dispatch_error := mkError { eIs : list sentinel; eText : string }.
Definition Is (e : dispatch_error) (s : sentinel) : bool := bool_decide (s ∈ eIs e).

Definition sentinel_text (s : sentinel) : string :=
  match s with
  | ErrRouteNotFound => "webhookin: no route for path"
  | ErrSignatureMissing => "webhookin: signature header missing"
  | ErrSignatureInvalid => "webhookin: signature mismatch"
  | ErrUnsupportedVerify => "webhookin: unsupported verify scheme"
  | ErrNoDispatcher => "webhookin: no dispatcher for do prefix"
  | ErrNoSecretResolver => "webhookin: no secret resolver configured"
  | ErrSecretNotConfigured => "webhookin: signing secret not configured"
  end.
Definition plain (s : sentinel) : dispatch_error := mkError [s] (sentinel_text s).

(** The raw or parsed body, as the handler sees it. *)
Inductive body_value : Type := RawJSON (s : string) | Text (s : string).

Record payload := mkPayload {
  pOrg : string; pWebhook : string; pPath : string; pMethod : string; pQuery : gmap string (list string);
  pHeaders : gmap string string; pRawBodyB64 : string; pRawBody : option string; pBody : body_value; pReceivedAt : string
}.

Record Inbound := mkInbound {
  inPath : string; inMethod : string; inQuery : gmap string (list string); inHeaders : header; inBody : string
}.

(** A dispatcher: [Plain] has [Dispatch] only, [WithResult] is a
    [ResultDispatcher]; the arguments are the organization, the target and
    the payload. *)
Inductive backend : Type :=
| Plain (f : string -> string -> payload -> result dispatch_error unit)
| WithResult (f : string -> string -> payload -> result dispatch_error string).

(** [Receiver]; a nil resolver is [None]. *)
Record Receiver := mkReceiver {
  routes : gmap string Route; dispatchers : gmap string backend;
  secrets : option (string -> string -> result dispatch_error string)
}.

Definition New (ds : gmap string backend) (sec : option (string -> string -> result dispatch_error string)) : Receiver :=
  mkReceiver ∅ ds sec.
Definition Register (r : Receiver) (route : Route) : option Receiver :=
  if String.eqb (rPath route) "" then None
  else Some (mkReceiver (<[rPath route := route]> (routes r)) (dispatchers r) (secrets r)).
Definition Unregister (r : Receiver) (path : string) : Receiver :=
  mkReceiver (delete path (routes r)) (dispatchers r) (secrets r).
Definition Lookup (r : Receiver) (path : string) : option Route := routes r !! path.

(** ** Verification *)

Definition signatureHeaders : list string :=
  ["X-Hub-Signature-256"; "X-WC-Webhook-Signature"; "X-Shopify-Hmac-Sha256"; "X-Signature-256"; "X-Signature"].

(** The digest in one header value: hex, with or without the prefix, or
    base64; a zero byte when it is neither. *)
Definition strip_sha256 (v : string) : string :=
  if (7 <? slen v) && EqualFold (str_take 7 v) "sha256=" then TrimSpace (str_drop 7 v) else v.
Definition decode_digest (v : string) : string :=
  let v := strip_sha256 v in
  match (if slen v =? 64 then hex_decode v else None), (if slen v =? 44 then b64_decode v else None) with
  | Some d, _ => d
  | None, Some d => d
  | None, None => String "000" ""
  end.

Fixpoint extract_from (names : list string) (headers : header) : option string :=
  match names with
  | [] => None
  | h :: names =>
      let v := TrimSpace (header_get headers h) in
      if String.eqb v "" then extract_from names headers else Some (decode_digest v)
  end.
(** [None] for nil. *)
Definition extractSignature (headers : header) : option string := extract_from signatureHeaders headers.

Definition verifyBearer (headers : header) (secret : string) : result dispatch_error unit :=
  let auth := TrimSpace (header_get headers "Authorization") in
  if String.eqb auth "" then Err (plain ErrSignatureMissing) else
  match cut " " auth with
  | None => Err (plain ErrSignatureInvalid)
  | Some (scheme, token) =>
      if negb (EqualFold scheme "Bearer") && negb (EqualFold scheme "Token") then Err (plain ErrSignatureInvalid)
      else
        let token := TrimSpace token in
        if String.eqb token "" || negb (String.eqb token (TrimSpace secret)) then Err (plain ErrSignatureInvalid)
        else Ok tt
  end.

Section dispatch.
Context `{Crypto, UnicodeLower, UnicodeUpper, GoQuote}.

Definition verifySignature (route : Route) (org : string) (headers : header) (body : string)
    (sec : option (string -> string -> result dispatch_error string)) : result dispatch_error unit :=
  if negb (String.eqb (rVerify route) "hmac-sha256" || String.eqb (rVerify route) "bearer")
  then Err (mkError [ErrUnsupportedVerify] (sentinel_text ErrUnsupportedVerify +:+ ": " +:+ Quote (rVerify route)))%string
  else match sec with
  | None => Err (plain ErrNoSecretResolver)
  | Some resolve =>
      match resolve org (rSecretRef route) with
      | Err e => Err (mkError (eIs e) ("webhookin: resolve secret_ref " +:+ Quote (rSecretRef route) +:+ ": " +:+ eText e)%string)
      | Ok secret =>
          if blank secret then
            Err (mkError [ErrSecretNotConfigured; ErrSignatureInvalid]
              (sentinel_text ErrSecretNotConfigured +:+ " (" +:+ rSecretRef route +:+ "): " +:+ sentinel_text ErrSignatureInvalid)%string)
          else if String.eqb (rVerify route) "bearer" then verifyBearer headers secret
          else match extractSignature headers with
          | None | Some "" => Err (plain ErrSignatureMissing)
          | Some provided =>
              if String.eqb (hmac256 secret body) provided then Ok tt else Err (plain ErrSignatureInvalid)
          end
      end
  end.

(** ** The payload *)

Definition DefaultHeaders : list string :=
  ["content-type"; "user-agent"; "x-request-id"; "x-signature"; "x-signature-256"; "x-hub-signature-256";
   "stripe-signature"; "paypal-transmission-id"; "paypal-transmission-time"; "paypal-transmission-sig";
   "paypal-cert-url"; "paypal-auth-algo"; "digest"; "authorization"; "x-kueski-*"; "x-aplazo-*";
   "webhook-signature"; "webhook-timestamp"; "webhook-id"].
Definition deniedHeaders : list string := ["cookie"; "set-cookie"; "proxy-authorization"].

Definition header_matches (name a : string) : bool :=
  let a := ToLower (TrimSpace a) in
  if String.eqb a "" then false
  else if HasSuffix a "*" then
    let p := TrimSuffix a "*" in negb (String.eqb p "") && HasPrefix name p
  else String.eqb a name.
Definition headerAllowed (name : string) (allow : list string) : bool := existsb (header_matches name) allow.

(** The test of one header, by its lowercase name. *)
Definition forwarded (route : Route) (lk : string) (vs : list string) : bool :=
  negb (bool_decide (vs = []) || String.eqb lk "") &&
  negb (bool_decide (lk ∈ deniedHeaders)) &&
  negb (String.eqb lk "authorization" && negb (String.eqb (rVerify route) VerifyNone || String.eqb (rVerify route) VerifyAddon)) &&
  (headerAllowed lk DefaultHeaders || headerAllowed lk (rHeaders route)).

Definition add_header (route : Route) (out : gmap string string) (kv : string * list string) : gmap string string :=
  let lk := ToLower (TrimSpace kv.1) in
  if forwarded route lk kv.2 then
    let v := Join ", " kv.2 in
    <[lk := match out !! lk with Some prev => (prev +:+ ", " +:+ v)%string | None => v end]> out
  else out.
Definition FilterHeaders (route : Route) (h : header) : gmap string string := foldl (add_header route) ∅ h.

(** encoding/json, as far as this package asks it: validity; a strict decode
    of the envelope ([Status], [Headers], [Body], empty when absent) with
    nothing after it; [Success], [Error], [Message] of an output; a string;
    and the media type of a Content-Type. *)
Class HandlerJSON := {
  json_valid : string -> bool;
  decode_env : string -> option (option Z * list (string * string) * string);
  decode_failure : string -> option (option bool * string * string);
  decode_string : string -> option string;
  media_type : string -> option string
}.
Context `{HandlerJSON}.

Definition bodyValue (body : string) : body_value := if json_valid body then RawJSON body else Text body.

Definition method_or_post (m : string) : string :=
  let m := ToUpper (TrimSpace m) in if String.eqb m "" then "POST" else m.

(** [now_text] is the clock in RFC 3339. *)
Definition BuildPayload (now_text : string) (route : Route) (org : string) (i : Inbound) : payload :=
  mkPayload org (rKey route) (inPath i) (method_or_post (inMethod i)) (inQuery i) (FilterHeaders route (inHeaders i))
    (b64_encode (inBody i)) (if utf8_valid (inBody i) then Some (inBody i) else None) (bodyValue (inBody i)) now_text.

(** ** The answer *)

Record Response := mkResponse {
  rsEnvelope : bool; rsStatus : Z; rsHeaders : gmap string string; rsBody : string; rsOutput : string;
  rsMapped : bool; rsCause : string
}.
Definition no_response : Response := mkResponse false 0 ∅ "" "" false "".

Definition isJSONMediaType (ct : string) : bool :=
  if String.eqb ct "" then true else
  match media_type ct with
  | None => false
  | Some mt => String.eqb mt "application/json" || HasSuffix mt "+json"
  end.

Definition BodyBytes (r : Response) : string :=
  if String.eqb (rsBody r) "" || String.eqb (rsBody r) "null" then ""
  else if negb (isJSONMediaType (default "" (rsHeaders r !! "Content-Type"))) && HasPrefix (rsBody r) quot then
    match decode_string (rsBody r) with Some s => s | None => rsBody r end
  else rsBody r.

Definition ResponseHeaders : list string := ["Content-Type"; "Cache-Control"; "Retry-After"].
(** [responseHeaderIndex]. *)
Definition canonical_response (lk : string) : option string :=
  assoc lk (map (fun h => (str_map lower_char h, h)) ResponseHeaders).

Definition add_response_header (out : gmap string string) (kv : string * string) : gmap string string :=
  match canonical_response (ToLower (TrimSpace kv.1)) with
  | Some canon => if negb (str_forall (fun c => negb (is_newline c)) kv.2) then out else <[canon := TrimSpace kv.2]> out
  | None => out
  end.
(** The map in an iteration order. *)
Definition sanitizeResponseHeaders (l : list (string * string)) : gmap string string := foldl add_response_header ∅ l.

Definition decodeResponse (out : string) : Response :=
  let resp := mkResponse false 0 ∅ "" out false "" in
  let raw := TrimSpace out in
  if negb (HasPrefix raw "{") then resp else
  match decode_env raw with
  | None | Some (None, _, _) => resp
  | Some (Some st, hs, body) =>
      if (st <? 100) || (599 <? st) then resp
      else mkResponse true st (sanitizeResponseHeaders hs)
             (if String.eqb body "" || String.eqb body "null" then "" else body) out false ""
  end.

(** The JSON [{"error":msg,"success":false}]. *)
Definition failure_json (msg : string) : string :=
  ("{" +:+ jstr "error" +:+ ":" +:+ jstr msg +:+ "," +:+ jstr "success" +:+ ":false}")%string.

Definition mapFailureEnvelope (resp : Response) : Response :=
  if rsEnvelope resp then resp else
  let raw := TrimSpace (rsOutput resp) in
  if negb (HasPrefix raw "{") then resp else
  match decode_failure raw with
  | Some (Some false, error, message) =>
      let cause := if String.eqb error "" then message else default error (decode_string error) in
      mkResponse true 503 {["Retry-After" := "30"]} (failure_json "temporarily unavailable") (rsOutput resp)
        true (str_take 300 cause)
  | _ => resp
  end.

(** ** DispatchRequest *)

Definition prefixOf (do_ : string) : string := match cut ":" do_ with Some (p, _) => p | None => "" end.
Definition target_of (do_ : string) : string := match cut ":" do_ with Some (_, t) => t | None => "" end.

(** A call to a handler: the prefix, the organization, the target, the payload. *)
Record call := mkCall { cPrefix : string; cOrg : string; cTarget : string; cPayload : payload }.

Definition run_handler (d : backend) (route : Route) (org : string) (p : payload) : result dispatch_error Response :=
  match d with
  | WithResult f =>
      out ← f org (target_of (rDo route)) p;
      let resp := decodeResponse out in
      Ok (if String.eqb (rKind route) KindPayments then mapFailureEnvelope resp else resp)
  | Plain f => _ ← f org (target_of (rDo route)) p; Ok no_response
  end.

Definition kernel_verifies (route : Route) : bool :=
  negb (String.eqb (rVerify route) "") && negb (String.eqb (rVerify route) VerifyAddon).

Definition DispatchRequest (now_text : string) (r : Receiver) (org : string) (i : Inbound) :
    result dispatch_error Response * list call :=
  match routes r !! inPath i with
  | None => (Err (mkError [ErrRouteNotFound] (sentinel_text ErrRouteNotFound +:+ ": " +:+ Quote (inPath i))%string), [])
  | Some route =>
      match (if kernel_verifies route then verifySignature route org (inHeaders i) (inBody i) (secrets r) else Ok tt) with
      | Err e => (Err e, [])
      | Ok _ =>
          match dispatchers r !! prefixOf (rDo route) with
          | None => (Err (mkError [ErrNoDispatcher] (sentinel_text ErrNoDispatcher +:+ ": " +:+ Quote (rDo route) +:+
                       " (route " +:+ Quote (rKey route) +:+ ")")%string), [])
          | Some d =>
              let p := BuildPayload now_text route org i in
              (run_handler d route org p, [mkCall (prefixOf (rDo route)) org (target_of (rDo route)) p])
          end
      end
  end.

(** [Dispatch]: the error only. *)
Definition Dispatch (now_text : string) (r : Receiver) (org path : string) (headers : header) (body : string) :
    result dispatch_error unit * list call :=
  let '(x, cs) := DispatchRequest now_text r org (mkInbound path "" ∅ headers body) in
  ((fun _ => tt) <$> x, cs).
End dispatch.

(** ** Facts *)

(** What [verifySignature] is for: the request proves that its sender has
    the organization's secret of the route. *)
Definition proves_secret `{Crypto} (verify secret : string) (headers : header) (body : string) : Prop :=
  (verify = VerifyHMACSHA256 /\
   exists h, h ∈ signatureHeaders /\ decode_digest (TrimSpace (header_get headers h)) = hmac256 secret body) \/
  (verify = VerifyBearer /\
   exists scheme token, TrimSpace (header_get headers "Authorization") = (scheme +:+ String " " token)%string /\
     (EqualFold scheme "Bearer" = true \/ EqualFold scheme "Token" = true) /\
     TrimSpace token = TrimSpace secret).

Lemma extract_from_Some names headers d :
  extract_from names headers = Some d ->
  exists h, h ∈ names /\ TrimSpace (header_get headers h) <> ""%string /\ d = decode_digest (TrimSpace (header_get headers h)).
Proof.
  induction names as [|h names IH]; cbn; [done|]. destruct (String.eqb_spec (TrimSpace (header_get headers h)) "") as [E|Hne].
  - intros (h' & Hin & ?)%IH. exists h'. split; [by right|done].
  - intros [= <-]. exists h. split; [by left|done].
Qed.

Lemma verifyBearer_Ok headers secret :
  verifyBearer headers secret = Ok tt <->
  exists scheme token, cut " " (TrimSpace (header_get headers "Authorization")) = Some (scheme, token) /\
    (EqualFold scheme "Bearer" = true \/ EqualFold scheme "Token" = true) /\
    TrimSpace token = TrimSpace secret /\ TrimSpace token <> ""%string.
Proof.
  unfold verifyBearer. destruct (String.eqb_spec (TrimSpace (header_get headers "Authorization")) "") as [->|_];
    [split; [done|by intros (? & ? & ? & _)]|].
  destruct (cut " " _) as [[scheme token]|]; [|split; [done|by intros (? & ? & ? & _)]].
  rewrite <- negb_orb. destruct (EqualFold scheme "Bearer" || EqualFold scheme "Token") eqn:Eor; cbn [negb].
  - destruct (String.eqb_spec (TrimSpace token) "") as [E|Hne];
      [|destruct (String.eqb_spec (TrimSpace token) (TrimSpace secret)) as [E2|Hne2]]; cbn [orb negb].
    + split; [done|]. by intros (? & ? & [= <- <-] & _ & _ & ?).
    + split; [|done]. intros _. apply orb_true_iff in Eor. by exists scheme, token.
    + split; [done|]. by intros (? & ? & [= <- <-] & _ & ? & _).
  - split; [done|]. intros (? & ? & [= <- <-] & Hor & _). apply orb_true_iff in Hor. congruence.
Qed.

Section facts.
Context `{Crypto, UnicodeLower, UnicodeUpper, GoQuote, HandlerJSON}.

Lemma verifySignature_Ok route org headers body sec :
  verifySignature route org headers body sec = Ok tt ->
  exists resolve secret, sec = Some resolve /\ resolve org (rSecretRef route) = Ok secret /\ blank secret = false /\
    proves_secret (rVerify route) secret headers body.
Proof.
  unfold verifySignature. destruct (String.eqb_spec (rVerify route) "hmac-sha256") as [Eh|Hh],
    (String.eqb_spec (rVerify route) "bearer") as [Eb|Hb]; cbn [orb negb]; try done; [congruence|..].
  all: destruct sec as [resolve|]; [|done]; destruct (resolve org (rSecretRef route)) as [secret|] eqn:Hr; [|done].
  all: destruct (blank secret) eqn:Hbl; [done|].
  - destruct (extractSignature headers) as [d|] eqn:He; [|done]. destruct d as [|c d]; [done|].
    destruct (String.eqb_spec (hmac256 secret body) (String c d)) as [E|]; [intros _|done].
    exists resolve, secret. split_and!; try done. left. split; [done|].
    apply extract_from_Some in He as (h & Hin & _ & Hd). exists h. split; [done|]. congruence.
  - intros (scheme & token & Hc & Hs & Ht & _)%verifyBearer_Ok. exists resolve, secret. split_and!; try done.
    right. split; [done|]. apply cut_spec in Hc as [Hc _]. by exists scheme, token.
Qed.

(** Every call, and every answer of a handler, comes out of one branch. *)
Lemma DispatchRequest_calls now_text r org i res cs :
  DispatchRequest now_text r org i = (res, cs) -> cs <> [] \/ (exists resp, res = Ok resp) ->
  exists route d, routes r !! inPath i = Some route /\ dispatchers r !! prefixOf (rDo route) = Some d /\
    (kernel_verifies route = true -> verifySignature route org (inHeaders i) (inBody i) (secrets r) = Ok tt) /\
    res = run_handler d route org (BuildPayload now_text route org i) /\
    cs = [mkCall (prefixOf (rDo route)) org (target_of (rDo route)) (BuildPayload now_text route org i)].
Proof.
  unfold DispatchRequest. destruct (routes r !! inPath i) as [route|]; [|by intros [= <- <-] [? | [? ?]]].
  destruct (if kernel_verifies route then _ else _) as [[]|e] eqn:Ev; [|by intros [= <- <-] [? | [? ?]]].
  destruct (dispatchers r !! prefixOf (rDo route)) as [d|] eqn:Ed; [|by intros [= <- <-] [? | [? ?]]].
  intros [= <- <-] _. exists route, d. split_and!; try done. by destruct (kernel_verifies route).
Qed.

Lemma add_header_keys route out kv k :
  is_Some (add_header route out kv !! k) ->
  is_Some (out !! k) \/ (k = ToLower (TrimSpace kv.1) /\ forwarded route k kv.2 = true).
Proof.
  unfold add_header. destruct (forwarded route _ _) eqn:Ef; [|by left].
  destruct (decide (k = ToLower (TrimSpace kv.1))) as [->|Hne]; [by right|]. rewrite lookup_insert_ne by done. by left.
Qed.

Lemma FilterHeaders_forwarded route h k :
  is_Some (FilterHeaders route h !! k) -> exists vs, forwarded route k vs = true.
Proof.
  unfold FilterHeaders. assert (Hg : forall out, is_Some (foldl (add_header route) out h !! k) ->
    is_Some (out !! k) \/ exists vs, forwarded route k vs = true).
  { induction h as [|kv h IH]; cbn; [by left|]. intros out [Hk|Hk]%IH; [|by right].
    apply add_header_keys in Hk as [Hk|[-> Hk]]; [by left|right; eauto]. }
  intros [Hk|Hk]%Hg; [by rewrite lookup_empty in Hk; destruct Hk|done].
Qed.
End facts.

(** *** A provider that signs *)

(** The forms a provider writes a digest in. *)
Definition digest_forms (m : string) : list string := [hex_encode m; ("sha256=" +:+ hex_encode m)%string; b64_encode m].

Lemma printable_ascii s : str_forall printable s = true -> str_forall is_ascii s = true.
Proof.
  induction s as [|c s IH]; cbn; [done|]. unfold printable at 1. intros [[-> _]%andb_true_iff Hs]%andb_true_iff. by rewrite IH.
Qed.

Lemma strip_plain v n :
  str_forall no_equals (str_take 7 v) = true -> str_forall printable v = true -> slen v = n -> strip_sha256 v = v.
Proof.
  intros He Hp _. unfold strip_sha256. rewrite EqualFold_no_equals; [by rewrite andb_false_r|done|].
  by apply str_forall_take, printable_ascii.
Qed.

Lemma decode_digest_forms m v :
  String.length m = 32%nat -> v ∈ digest_forms m -> decode_digest (TrimSpace v) = m /\ TrimSpace v <> ""%string.
Proof.
  intros Hm Hv. destruct (hex_encode_plain m) as [Hp Hn].
  assert (Lh : slen (hex_encode m) = 64) by (unfold slen; rewrite hex_encode_length, Hm; done).
  assert (Lb : slen (b64_encode m) = 44) by (unfold slen; rewrite b64_encode_length, Hm; done).
  assert (Hdh : strip_sha256 (hex_encode m) = hex_encode m).
  { eapply strip_plain; [by apply str_forall_take|done|done]. }
  assert (Hpre : str_forall printable ("sha256=" +:+ hex_encode m)%string = true) by (rewrite str_forall_app, Hp; done).
  unfold digest_forms in Hv. apply elem_of_cons in Hv as [->|[->|[->|[]%elem_of_nil]%elem_of_cons]%elem_of_cons].
  - rewrite TrimSpace_printable by done. split.
    + unfold decode_digest. rewrite Hdh, Lh. change (64 =? 64) with true. by rewrite hex_decode_encode.
    + intros E. by rewrite E in Lh.
  - rewrite TrimSpace_printable by done. split; [|done]. unfold decode_digest.
    assert (Hst : strip_sha256 ("sha256=" +:+ hex_encode m)%string = hex_encode m).
    { unfold strip_sha256. rewrite slen_app, Lh. change (7 <? slen "sha256=" + 64) with true.
      rewrite str_take_app by done. change (EqualFold "sha256=" "sha256=") with true. cbn [andb].
      rewrite str_drop_app by done. by apply TrimSpace_printable. }
    rewrite Hst, Lh. change (64 =? 64) with true. by rewrite hex_decode_encode.
  - pose proof (b64_encode_printable m) as Hb. rewrite TrimSpace_printable by done. split.
    + unfold decode_digest. rewrite (strip_plain (b64_encode m) 44); [|apply b64_encode_no_equals; unfold slen in Lb; lia|done|done].
      rewrite Lb. change (44 =? 64) with false. change (44 =? 44) with true. by rewrite b64_decode_encode.
    + intros E. by rewrite E in Lb.
Qed.

Lemma extract_only names headers h v :
  h ∈ names -> header_get headers h = v -> TrimSpace v <> ""%string ->
  (forall h', h' ∈ names -> h' <> h -> blank (header_get headers h') = true) ->
  extract_from names headers = Some (decode_digest (TrimSpace v)).
Proof.
  intros Hin Hv Hne Hother. induction names as [|x names IH]; [by apply not_elem_of_nil in Hin|]. cbn.
  destruct (decide (x = h)) as [->|Hx].
  - rewrite Hv. apply String.eqb_neq in Hne. by rewrite Hne.
  - pose proof (Hother x ltac:(by left) Hx) as Hb. unfold blank in Hb. rewrite Hb. apply IH; [by apply elem_of_cons in Hin as [->|]|].
    intros h' Hh'. apply Hother. by right.
Qed.

Section theorems.
Context `{Crypto, UnicodeLower, UnicodeUpper, GoQuote, HandlerJSON}.

(** A handler is called at most once per request, only for a registered
    route and, when the kernel verifies, only if the organization has a
    non-blank secret and the request proves it; the handler gets the exact
    body and never a cookie, nor the Authorization header the kernel checked. *)
Theorem handler_authenticated now_text r org i res cs :
  DispatchRequest now_text r org i = (res, cs) -> cs <> [] ->
  exists route, routes r !! inPath i = Some route /\
    (kernel_verifies route = true ->
       exists resolve secret, secrets r = Some resolve /\ resolve org (rSecretRef route) = Ok secret /\
         blank secret = false /\ proves_secret (rVerify route) secret (inHeaders i) (inBody i)) /\
    exists p, cs = [mkCall (prefixOf (rDo route)) org (target_of (rDo route)) p] /\
      b64_decode (pRawBodyB64 p) = Some (inBody i) /\ (forall t, pRawBody p = Some t -> t = inBody i) /\
      forall k, is_Some (pHeaders p !! k) ->
        k ∉ deniedHeaders /\ (k = "authorization"%string -> kernel_verifies route = false).
Proof.
  intros Hd Hne. destruct (DispatchRequest_calls _ _ _ _ _ _ Hd (or_introl Hne)) as (route & d & Hr & _ & Hv & _ & ->).
  exists route. split; [done|]. split; [intros Hk; by apply verifySignature_Ok, Hv|]. eexists. split; [reflexivity|].
  cbn [BuildPayload pRawBodyB64 pRawBody pHeaders]. split_and!.
  - apply b64_decode_encode.
  - destruct (utf8_valid (inBody i)); [by intros ? [= <-]|done].
  - intros k [vs Hf]%FilterHeaders_forwarded. unfold forwarded in Hf. rewrite !andb_true_iff in Hf.
    destruct Hf as [[[_ Hden] Hauth] _]. apply negb_true_iff, bool_decide_eq_false in Hden. split; [done|].
    intros ->. rewrite String.eqb_refl in Hauth. unfold VerifyNone in Hauth. unfold kernel_verifies.
    by destruct (String.eqb (rVerify route) ""), (String.eqb (rVerify route) VerifyAddon).
Qed.

(** A request whose body is signed with the organization's secret, its
    digest in hex, prefixed hex or base64 in any of the signature headers,
    reaches its handler. *)
Theorem signed_request_dispatched now_text r org i route resolve secret d h v :
  routes r !! inPath i = Some route -> rVerify route = VerifyHMACSHA256 ->
  secrets r = Some resolve -> resolve org (rSecretRef route) = Ok secret -> blank secret = false ->
  String.length (hmac256 secret (inBody i)) = 32%nat ->
  dispatchers r !! prefixOf (rDo route) = Some d ->
  h ∈ signatureHeaders -> header_get (inHeaders i) h = v -> v ∈ digest_forms (hmac256 secret (inBody i)) ->
  (forall h', h' ∈ signatureHeaders -> h' <> h -> blank (header_get (inHeaders i) h') = true) ->
  DispatchRequest now_text r org i =
    (let p := BuildPayload now_text route org i in
     (run_handler d route org p, [mkCall (prefixOf (rDo route)) org (target_of (rDo route)) p])).
Proof.
  intros Hroute Hver Hsec Hres Hbl Hlen Hd Hin Hv Hform Hother. unfold DispatchRequest. rewrite Hroute.
  assert (Hk : kernel_verifies route = true) by (unfold kernel_verifies; by rewrite Hver). rewrite Hk.
  destruct (decode_digest_forms _ _ Hlen Hform) as [Hdec Hne].
  unfold verifySignature. rewrite Hver. change (String.eqb VerifyHMACSHA256 "hmac-sha256") with true. cbn [orb negb].
  rewrite Hsec, Hres, Hbl. change (String.eqb VerifyHMACSHA256 "bearer") with false. cbn iota.
  unfold extractSignature. rewrite (extract_only _ _ h v Hin Hv Hne Hother), Hdec.
  destruct (hmac256 secret (inBody i)) as [|c m] eqn:Em; [done|]. rewrite String.eqb_refl, Hd. done.
Qed.
End theorems.

(** A GitHub-style route: the request signed with the secret is dispatched. *)
Definition ex_route : Route := mkRoute "gh" "/webhooks/github" VerifyHMACSHA256 "gh.secret" "wasm:on_push" [] "".
Definition ex_receiver : Receiver :=
  mkReceiver {["/webhooks/github" := ex_route]} {["wasm" := Plain (fun _ _ _ => Ok tt)]} (Some (fun _ _ => Ok "key"))%string.
#[local] Instance ex_crypto : Crypto :=
  {| sha256 := fun s => s; hmac256 := fun k b => str_take 32 (k +:+ b +:+ str_repeat "x" 32)%string |}.
#[local] Instance ex_lower : UnicodeLower := fun s => s.
#[local] Instance ex_upper : UnicodeUpper := fun s => s.
#[local] Instance ex_quote : GoQuote := jstr.
#[local] Instance ex_json : HandlerJSON :=
  {| json_valid := fun s => HasPrefix s "{"; decode_env := fun _ => None; decode_failure := fun _ => None;
     decode_string := Some; media_type := Some |}.
Definition ex_inbound : Inbound :=
  mkInbound "/webhooks/github" "post" ∅
    [("X-Hub-Signature-256", ["sha256=" +:+ hex_encode (hmac256 "key" "{}")]); ("Cookie", ["c"]); ("User-Agent", ["gh"])]%string "{}".

Lemma signed_request_dispatched_witness :
  DispatchRequest "t" ex_receiver "o1" ex_inbound =
    (Ok no_response, [mkCall "wasm" "o1" "on_push" (BuildPayload "t" ex_route "o1" ex_inbound)]) /\
  pHeaders (BuildPayload "t" ex_route "o1" ex_inbound) !! "user-agent"%string = Some "gh"%string /\
  pHeaders (BuildPayload "t" ex_route "o1" ex_inbound) !! "cookie"%string = None.
Proof.
  split; [|split; vm_compute; reflexivity].
  refine (eq_trans (signed_request_dispatched "t" ex_receiver "o1" ex_inbound ex_route (fun _ _ => Ok "key"%string) "key"
    (Plain (fun _ _ _ => Ok tt)) "X-Hub-Signature-256"
    ("sha256=" +:+ hex_encode (hmac256 "key" "{}"))%string _ _ _ _ _ _ _ _ _ _ _) _); try (vm_compute; reflexivity).
  - by left.
  - right; by left.
  - intros h' Hh' Hne. unfold signatureHeaders in Hh'. set_unfold in Hh'. destruct_or?; subst; try done; vm_compute; reflexivity.
Defined.

Lemma handler_authenticated_witness :
  exists cs, DispatchRequest "t" ex_receiver "o1" ex_inbound = (Ok no_response, cs) /\ cs <> [] /\
    exists route, routes ex_receiver !! "/webhooks/github"%string = Some route /\ kernel_verifies route = true /\
      exists secret, proves_secret (rVerify route) secret (inHeaders ex_inbound) "{}".
Proof.
  eexists. split; [vm_compute; reflexivity|]. split; [done|].
  edestruct (handler_authenticated "t" ex_receiver "o1" ex_inbound) as (route & Hr & Hv & _); [vm_compute; reflexivity|done|].
  exists route. split; [exact Hr|]. assert (kernel_verifies route = true) as Hk by (by injection Hr as <-).
  split; [exact Hk|]. destruct (Hv Hk) as (_ & secret & _ & _ & _ & Hp). by exists secret.
Defined.
