(* ===== verification/Incidents.v ===== *)
(** * The incident log (incidents/incidents.go, payments/incidents/incidents.go)

    The rows of platform_incidents under their unique index on the open ones,
    the statements on them, [Open] with its retries, the close operations,
    and the payments facade.  [inc_step] runs any number of [Open]s with
    everything else: an [Open] that finds an open incident updates it under
    its row lock, one that finds none inserts at some later time. *)

From stdpp Require Import gmap.
From S2P Require Import Prelude GoStrings.

(** ** Data *)

Inductive inc_status : Type := StatusOpen | StatusAcknowledged | StatusResolved | StatusAutoResolved.
#[export] Instance inc_status_eq_dec : EqDecision inc_status.
Proof. solve_decision. Defined.

Definition SeverityHigh : string := "alta".
Definition SeverityMedium : string := "media".
Definition SeverityLow : string := "baja".
Definition DomainPayments : string := "payments".
Definition MaxEvidenceIDs : nat := 50.

(** A row; the JSON columns are kept decoded. *)
Record Incident := mkIncident {
  iOrg : string; iDomain : string; iSource : string; iKind : string; iSeverity : string; iStatus : inc_status;
  iFingerprint : string; iFirstSeenAt : Z; iLastSeenAt : Z; iOccurrences : Z;
  iResourceType : string; iResourceID : string; iMeta : gmap string string;
  iTitle : string; iActionHint : string; iDetail : string;
  iAckedBy : string; iAckedAt : option Z; iResolvedBy : string; iResolvedAt : option Z; iResolution : string;
  iEvidence : list string; iCreatedAt : Z; iUpdatedAt : Z
}.

(** The rows by id. *)
Abbreviation incidents := (gmap string Incident).

Definition is_open (s : inc_status) : bool :=
  match s with StatusOpen | StatusAcknowledged => true | _ => false end.
Definition IsOpen (i : Incident) : bool := is_open (iStatus i).

Definition sevRank (sev : string) : Z :=
  if String.eqb sev SeverityHigh then 3 else if String.eqb sev SeverityMedium then 2 else 1.

(** [Input]. *)
Record Input := mkInput {
  inOrg : string; inDomain : string; inSource : string; inKind : string; inSeverity : string; inFingerprint : string;
  inResourceType : string; inResourceID : string; inMeta : gmap string string;
  inTitle : string; inActionHint : string; inDetail : string; inEvidenceID : string
}.

Inductive inc_error : Type :=
| ErrOrgRequired | ErrDomainRequired | ErrKindRequired | ErrUnique | ErrReasonRequired | ErrRecordNotFound.
#[export] Instance inc_error_eq_dec : EqDecision inc_error.
Proof. solve_decision. Defined.

Definition uuid_nil : string := "00000000-0000-0000-0000-000000000000".

(** The first lines of [Open]: the guards and the defaults. *)
Definition normalize (a : Input) : result inc_error Input :=
  if String.eqb (inOrg a) uuid_nil then Err ErrOrgRequired
  else if blank (inDomain a) then Err ErrDomainRequired
  else if blank (inKind a) then Err ErrKindRequired
  else
    let sev := if String.eqb (inSeverity a) "" then SeverityHigh else inSeverity a in
    let fp := if String.eqb (inFingerprint a) "" then (inKind a +:+ ":" +:+ inSource a)%string else inFingerprint a in
    Ok (mkInput (inOrg a) (inDomain a) (inSource a) (inKind a) sev fp (inResourceType a) (inResourceID a) (inMeta a)
          (inTitle a) (inActionHint a) (inDetail a) (inEvidenceID a)).

(** ** The statements of [upsert] *)

(** The WHERE of the open incident of a fingerprint. *)
Definition matches (org domain fp : string) (i : Incident) : bool :=
  String.eqb (iOrg i) org && String.eqb (iDomain i) domain && String.eqb (iFingerprint i) fp && IsOpen i.
Definition find_open (org domain fp : string) (t : incidents) : option (string * Incident) :=
  head (List.filter (fun p => matches org domain fp p.2) (map_to_list t)).

Definition new_evidence (a : Input) : list string :=
  if String.eqb (inEvidenceID a) "" then [] else [inEvidenceID a].

Definition new_row (now : Z) (a : Input) : Incident :=
  mkIncident (inOrg a) (inDomain a) (inSource a) (inKind a) (inSeverity a) StatusOpen (inFingerprint a) now now 1
    (inResourceType a) (inResourceID a) (inMeta a) (inTitle a) (inActionHint a) (inDetail a)
    "" None "" None "" (new_evidence a) now now.

(** INSERT under the primary key and the unique index on the open rows. *)
Definition insert_open (id : string) (r : Incident) (t : incidents) : result inc_error incidents :=
  match t !! id with
  | Some _ => Err ErrUnique
  | None =>
      if IsOpen r && bool_decide (is_Some (find_open (iOrg r) (iDomain r) (iFingerprint r) t)) then Err ErrUnique
      else Ok (<[id := r]> t)
  end.

(** [ids = ids[n-MaxEvidenceIDs:]] of a longer list. *)
Definition last_n {A} (n : nat) (l : list A) : list A := drop (length l - n) l.

Definition fresher (new old : string) : string := if String.eqb new "" then old else new.

Definition escalates (a : Input) (cur : Incident) : bool := sevRank (iSeverity cur) <? sevRank (inSeverity a).

(** UPDATE of the open row: occurrences + 1, fresher facts win. *)
Definition update_open (now : Z) (a : Input) (cur : Incident) : Incident :=
  mkIncident (iOrg cur) (iDomain cur) (iSource cur) (iKind cur)
    (if escalates a cur then inSeverity a else iSeverity cur) (iStatus cur) (iFingerprint cur)
    (iFirstSeenAt cur) now (iOccurrences cur + 1)
    (fresher (inResourceType a) (iResourceType cur)) (fresher (inResourceID a) (iResourceID cur))
    (if bool_decide (inMeta a = ∅) then iMeta cur else inMeta a)
    (fresher (inTitle a) (iTitle cur)) (fresher (inActionHint a) (iActionHint cur)) (fresher (inDetail a) (iDetail cur))
    (iAckedBy cur) (iAckedAt cur) (iResolvedBy cur) (iResolvedAt cur) (iResolution cur)
    (match new_evidence a with [] => iEvidence cur | l => last_n MaxEvidenceIDs (iEvidence cur ++ l) end)
    (iCreatedAt cur) now.

(** What [upsert] returns: the row, whether it was created or escalated. *)
Record upserted := mkUpserted { uID : string; uRow : Incident; uCreated : bool; uEscalated : bool }.

(** [upsert] of a normalized input, when nothing runs in between. *)
Definition upsert (now : Z) (id : string) (a : Input) (t : incidents) : result inc_error (upserted * incidents) :=
  match find_open (inOrg a) (inDomain a) (inFingerprint a) t with
  | Some (i, cur) =>
      let r := update_open now a cur in Ok (mkUpserted i r false (escalates a cur), <[i := r]> t)
  | None => t ← insert_open id (new_row now a) t; Ok (mkUpserted id (new_row now a) true false, t)
  end.

(** ** bridge *)

(** A message of [bridge]: the event of the bus, a notification per
    recipient, the mirror in the review queue. *)
Inductive bridged : Type :=
| Published (event org : string) (inc : Incident)
| Enqueued (org event channel target message dedup : string)
| Flagged (inc : Incident).

(** The bridges wired by [Config]; [Recipients] of an organization, empty
    when it fails. *)
Record inc_config := mkIncConfig {
  cPublish : bool; cRecipients : option (string -> list string); cChannel : string; cRuleFlag : bool
}.

Definition EventFor (domain : string) : string := ("kernel." +:+ domain +:+ ".incident_opened")%string.

Definition bridge_message (i : Incident) : string :=
  let msg := if String.eqb (iTitle i) "" then iKind i else iTitle i in
  if String.eqb (iActionHint i) "" then msg else (msg +:+ ": " +:+ iActionHint i)%string.

Definition dedup_key (id sev target : string) : string :=
  ("incident:" +:+ id +:+ ":" +:+ sev +:+ ":" +:+ target)%string.

Definition bridge (cfg : inc_config) (id : string) (i : Incident) : list bridged :=
  (if cPublish cfg then [Published (EventFor (iDomain i)) (iOrg i) i] else []) ++
  match cRecipients cfg with
  | None => []
  | Some f => map (fun t => Enqueued (iOrg i) (iDomain i +:+ ".incident." +:+ iKind i)%string (cChannel cfg) t
                              (bridge_message i) (dedup_key id (iSeverity i) t)) (f (iOrg i))
  end ++
  (if cRuleFlag cfg then [Flagged i] else []).

Definition channel_or_default (s : string) : string := if String.eqb s "" then "in_app" else s.

(** [Open], when nothing runs in between; [ids] are the uuids drawn. *)
Fixpoint open_loop (attempts : nat) (now : Z) (ids : list string) (a : Input) (t : incidents) :
    result inc_error (upserted * incidents) :=
  match attempts, ids with
  | S n, id :: ids =>
      match upsert now id a t with
      | Err ErrUnique => match n with O => Err ErrUnique | _ => open_loop n now ids a t end
      | r => r
      end
  | _, _ => Err ErrUnique
  end.
Definition Open (cfg : inc_config) (now : Z) (ids : list string) (a : Input) (t : incidents) :
    result inc_error (upserted * incidents * list bridged) :=
  a ← normalize a;
  '(u, t) ← open_loop 3 now ids a t;
  Ok (u, t, if uCreated u || uEscalated u then bridge cfg (uID u) (uRow u) else []).

(** ** Acknowledge, Resolve, CloseByFingerprint *)

Definition set_status (i : Incident) (s : inc_status) (acked : option (string * Z)) (resolved : option (string * Z * string))
    (now : Z) : Incident :=
  mkIncident (iOrg i) (iDomain i) (iSource i) (iKind i) (iSeverity i) s (iFingerprint i) (iFirstSeenAt i) (iLastSeenAt i)
    (iOccurrences i) (iResourceType i) (iResourceID i) (iMeta i) (iTitle i) (iActionHint i) (iDetail i)
    (match acked with Some (by_, _) => by_ | None => iAckedBy i end)
    (match acked with Some (_, at_) => Some at_ | None => iAckedAt i end)
    (match resolved with Some (by_, _, _) => by_ | None => iResolvedBy i end)
    (match resolved with Some (_, at_, _) => Some at_ | None => iResolvedAt i end)
    (match resolved with Some (_, _, why) => why | None => iResolution i end)
    (iEvidence i) (iCreatedAt i) now.

Definition Acknowledge (now : Z) (org id by_ : string) (t : incidents) : result inc_error incidents :=
  match t !! id with
  | Some i =>
      if String.eqb (iOrg i) org && bool_decide (iStatus i = StatusOpen)
      then Ok (<[id := set_status i StatusAcknowledged (Some (by_, now)) None now]> t) else Err ErrRecordNotFound
  | None => Err ErrRecordNotFound
  end.

Definition closed_row (now : Z) (s : inc_status) (by_ why : string) (i : Incident) : Incident :=
  set_status i s None (Some (by_, now, why)) now.

(** [closeQ]: the rows of a WHERE that are open. *)
Definition closeQ (now : Z) (where_ : string -> Incident -> bool) (s : inc_status) (by_ why : string) (t : incidents) :
    Z * incidents :=
  (Z.of_nat (length (List.filter (fun p => where_ p.1 p.2 && IsOpen p.2) (map_to_list t))),
   map_imap (fun id i => Some (if where_ id i && IsOpen i then closed_row now s by_ why i else i)) t).

Definition Resolve (now : Z) (org id by_ resolution : string) (t : incidents) : result inc_error incidents :=
  if blank resolution then Err ErrReasonRequired else
  let '(n, t) := closeQ now (fun j i => String.eqb j id && String.eqb (iOrg i) org) StatusResolved by_ resolution t in
  if n =? 0 then Err ErrRecordNotFound else Ok t.

Definition CloseByFingerprint (now : Z) (org domain fp resolution : string) (t : incidents) : Z * incidents :=
  closeQ now (fun _ i => String.eqb (iOrg i) org && String.eqb (iDomain i) domain && String.eqb (iFingerprint i) fp)
    StatusAutoResolved "system" resolution t.

(** ** Reads *)

Definition Get (org id : string) (t : incidents) : result inc_error Incident :=
  match t !! id with
  | Some i => if String.eqb (iOrg i) org then Ok i else Err ErrRecordNotFound
  | None => Err ErrRecordNotFound
  end.

Record Filter := mkFilter {
  fOrg : string; fDomain : string; fSource : string; fKind : string; fOpenOnly : bool; fStatus : option inc_status;
  fLimit : Z; fOffset : Z
}.

(** [if f.X != "" { q = q.Where("x = ?", f.X) }]. *)
Definition unless_empty (want got : string) : bool := String.eqb want "" || String.eqb got want.

Definition filtered (f : Filter) (i : Incident) : bool :=
  String.eqb (iOrg i) (fOrg f) && unless_empty (fDomain f) (iDomain i) && unless_empty (fSource f) (iSource i) &&
  unless_empty (fKind f) (iKind i) &&
  match fStatus f with Some s => bool_decide (iStatus i = s) | None => true end &&
  (negb (fOpenOnly f) || IsOpen i).

(** ORDER BY the rank of the severity, then last_seen_at, both descending. *)
Definition listed_before (a b : string * Incident) : bool :=
  (sevRank (iSeverity b.2) <? sevRank (iSeverity a.2)) ||
  ((sevRank (iSeverity a.2) =? sevRank (iSeverity b.2)) && (iLastSeenAt b.2 <=? iLastSeenAt a.2)).
Fixpoint insert_listed (p : string * Incident) (l : list (string * Incident)) : list (string * Incident) :=
  match l with
  | [] => [p]
  | q :: l => if listed_before p q then p :: q :: l else q :: insert_listed p l
  end.

Definition List_ (f : Filter) (t : incidents) : list (string * Incident) * Z :=
  let rows := List.filter (fun p => filtered f p.2) (map_to_list t) in
  let limit := if (fLimit f <=? 0) || (500 <? fLimit f) then 100 else fLimit f in
  (take (Z.to_nat limit) (drop (Z.to_nat (fOffset f)) (foldr insert_listed [] rows)), Z.of_nat (length rows)).

(** The three severities are always there; another one only with rows. *)
Definition OpenCounts (org domain : string) (t : incidents) (sev : string) : option Z :=
  let rows := List.filter (fun p => filtered (mkFilter org domain "" "" true None 0 0) p.2 && String.eqb (iSeverity p.2) sev)
                (map_to_list t) in
  if String.eqb sev SeverityHigh || String.eqb sev SeverityMedium || String.eqb sev SeverityLow || negb (bool_decide (rows = []))
  then Some (Z.of_nat (length rows)) else None.

(** ** The payments facade *)

Record PayInput := mkPayInput {
  pOrg : string; pProvider : string; pKind : string; pSeverity : string; pFingerprint : string; pPaymentRef : string;
  pOrderRef : string; pAmount : string; pCurrency : string; pTitle : string; pActionHint : string; pDetail : string;
  pNotificationID : option string
}.

Definition KindSignatureInvalid : string := "payments.signature_invalid".
Definition KindNotificationUnresolve : string := "payments.notification_unresolved".
Definition KindDeadLetter : string := "payments.dead_letter".
Definition KindPaymentWriteFailed : string := "payments.payment_write_failed".

Definition pay_meta (p : PayInput) : gmap string string :=
  list_to_map (List.filter (fun kv => negb (String.eqb kv.2 ""))
    [("order_ref", pOrderRef p); ("amount", pAmount p); ("currency", pCurrency p)]%string).

Definition pay_input (p : PayInput) : Input :=
  mkInput (pOrg p) DomainPayments (pProvider p) (pKind p) (pSeverity p) (pFingerprint p)
    (if String.eqb (pPaymentRef p) "" then "" else "payment") (pPaymentRef p) (pay_meta p)
    (pTitle p) (pActionHint p) (pDetail p) (default ""%string (pNotificationID p)).

Definition PayGet (org id : string) (t : incidents) : result inc_error Incident :=
  i ← Get org id t; if String.eqb (iDomain i) DomainPayments then Ok i else Err ErrRecordNotFound.

(** ** Any interleaving *)

(** An [Open] in progress: before its SELECT, or past a SELECT that found no
    open incident; [n] counts its attempts. *)
Inductive opener : Type := Selecting (a : Input) (n : nat) | Inserting (a : Input) (n : nat).

(** One successful [Open]. *)
Record report := mkReport { rID : string; rInput : Input; rBridged : bool }.

(** The table, the [Open]s in progress, and the reports made, latest first. *)
Record inc_state := mkIncState { rows : incidents; openers : list opener; reports : list report }.

Inductive inc_step : inc_state -> inc_state -> Prop :=
| IStart t os rs a a' : normalize a = Ok a' -> inc_step (mkIncState t os rs) (mkIncState t (Selecting a' 0 :: os) rs)
| IHit t os os' rs a n now i cur :
    os ≡ₚ Selecting a n :: os' -> find_open (inOrg a) (inDomain a) (inFingerprint a) t = Some (i, cur) ->
    inc_step (mkIncState t os rs)
      (mkIncState (<[i := update_open now a cur]> t) os' (mkReport i a (escalates a cur) :: rs))
| IMiss t os os' rs a n :
    os ≡ₚ Selecting a n :: os' -> find_open (inOrg a) (inDomain a) (inFingerprint a) t = None ->
    inc_step (mkIncState t os rs) (mkIncState t (Inserting a n :: os') rs)
| IInsert t t' os os' rs a n now id :
    os ≡ₚ Inserting a n :: os' -> insert_open id (new_row now a) t = Ok t' ->
    inc_step (mkIncState t os rs) (mkIncState t' os' (mkReport id a true :: rs))
| IRetry t os os' rs a n now id :
    os ≡ₚ Inserting a n :: os' -> insert_open id (new_row now a) t = Err ErrUnique ->
    inc_step (mkIncState t os rs) (mkIncState t (if Nat.ltb (S n) 3 then Selecting a (S n) :: os' else os') rs)
| ILost t os o os' rs : os ≡ₚ o :: os' -> inc_step (mkIncState t os rs) (mkIncState t os' rs)
| IAck t t' os rs now org id by_ :
    Acknowledge now org id by_ t = Ok t' -> inc_step (mkIncState t os rs) (mkIncState t' os rs)
| IResolve t t' os rs now org id by_ why :
    Resolve now org id by_ why t = Ok t' -> inc_step (mkIncState t os rs) (mkIncState t' os rs)
| IClose t os rs now org domain fp why :
    inc_step (mkIncState t os rs) (mkIncState (CloseByFingerprint now org domain fp why t).2 os rs).

Definition no_incidents : inc_state := mkIncState ∅ [] [].

(** ** Facts *)

Definition same_problem (a b : Incident) : Prop :=
  iOrg a = iOrg b /\ iDomain a = iDomain b /\ iFingerprint a = iFingerprint b.

Lemma matches_spec org domain fp i :
  matches org domain fp i = true <-> iOrg i = org /\ iDomain i = domain /\ iFingerprint i = fp /\ IsOpen i = true.
Proof. unfold matches. rewrite !andb_true_iff, !String.eqb_eq. tauto. Qed.

Lemma find_open_Some org domain fp t i r :
  find_open org domain fp t = Some (i, r) -> t !! i = Some r /\ matches org domain fp r = true.
Proof.
  unfold find_open. intros E. destruct (List.filter _ _) as [|p l] eqn:Ef; [done|]. injection E as ->.
  assert (Hin : In (i, r) (List.filter (fun p => matches org domain fp p.2) (map_to_list t))) by (rewrite Ef; by left).
  apply filter_In in Hin as [Hin Hm]. split; [|done]. by apply elem_of_map_to_list, list_elem_of_In.
Qed.

Lemma find_open_None org domain fp t i r :
  find_open org domain fp t = None -> t !! i = Some r -> matches org domain fp r = false.
Proof.
  unfold find_open. intros E Hi. destruct (List.filter _ _) as [|p l] eqn:Ef; [|done].
  destruct (matches org domain fp r) eqn:Hm; [|done]. exfalso.
  assert (Hin : In (i, r) (List.filter (fun p => matches org domain fp p.2) (map_to_list t))).
  { apply filter_In. split; [|done]. by apply list_elem_of_In, elem_of_map_to_list. }
  by rewrite Ef in Hin.
Qed.

Lemma insert_open_Ok id r t t' :
  insert_open id r t = Ok t' ->
  t !! id = None /\ t' = <[id := r]> t /\
  (IsOpen r = true -> find_open (iOrg r) (iDomain r) (iFingerprint r) t = None).
Proof.
  unfold insert_open. destruct (t !! id); [done|].
  destruct (find_open _ _ _ t) eqn:Ef; [rewrite bool_decide_eq_true_2 by eauto|rewrite bool_decide_eq_false_2 by (by intros [? ?])];
    destruct (IsOpen r); cbn; intros [= <-]; naive_solver.
Qed.

Lemma sevRank_range s : 1 <= sevRank s <= 3.
Proof. unfold sevRank. repeat case_match; lia. Qed.

Lemma last_n_app {A} n (l k : list A) : last_n n (last_n n l ++ k) = last_n n (l ++ k).
Proof.
  unfold last_n. rewrite !length_app, length_drop.
  destruct (Nat.le_gt_cases (length l) n) as [Hle|Hgt].
  - replace (length l - n)%nat with 0%nat by lia. rewrite drop_0. f_equal. lia.
  - replace (length l - (length l - n) + length k - n)%nat with (length k) by lia.
    rewrite <- drop_app_le by lia. rewrite drop_drop. f_equal. lia.
Qed.

Lemma last_n_nil {A} n : last_n n ([] : list A) = [].
Proof. unfold last_n. by rewrite drop_nil. Qed.

(** *** The history of a row *)

Definition entries (id : string) (rs : list report) : list report := List.filter (fun r => String.eqb (rID r) id) rs.
Definition highest (l : list report) : Z := foldr (fun r m => Z.max (sevRank (inSeverity (rInput r))) m) 0 l.
Definition evidence_of (l : list report) : list string := concat (map (fun r => new_evidence (rInput r)) (rev l)).

(** What a row says is what its reports say. *)
Record tells (r : Incident) (l : list report) : Prop := mkTells {
  tells_count : iOccurrences r = Z.of_nat (length l);
  tells_severity : sevRank (iSeverity r) = highest l;
  tells_evidence : iEvidence r = last_n MaxEvidenceIDs (evidence_of l);
  tells_bridged : Z.of_nat (length (List.filter rBridged l)) <= sevRank (iSeverity r);
  tells_problem : Forall (fun e => inOrg (rInput e) = iOrg r /\ inDomain (rInput e) = iDomain r /\
                                   inFingerprint (rInput e) = iFingerprint r) l
}.

Lemma evidence_cons e l : evidence_of (e :: l) = evidence_of l ++ new_evidence (rInput e).
Proof. unfold evidence_of. cbn [rev]. rewrite map_app, concat_app. cbn. by rewrite app_nil_r. Qed.

Lemma tells_new id now a : tells (new_row now a) [mkReport id a true].
Proof.
  split; cbn; [done| | |pose proof (sevRank_range (inSeverity a)); lia|by repeat constructor].
  - pose proof (sevRank_range (inSeverity a)). lia.
  - unfold new_evidence. by destruct (String.eqb _ _).
Qed.

Lemma tells_update id now a cur l :
  tells cur l -> matches (inOrg a) (inDomain a) (inFingerprint a) cur = true ->
  tells (update_open now a cur) (mkReport id a (escalates a cur) :: l).
Proof.
  intros [Hc Hs He Hb Hp] Hm. apply matches_spec in Hm as (Eo & Ed & Ef & _).
  assert (Hsev : sevRank (iSeverity (update_open now a cur)) = Z.max (sevRank (inSeverity a)) (highest l)).
  { cbn. unfold escalates. destruct (Z.ltb_spec (sevRank (iSeverity cur)) (sevRank (inSeverity a))); lia. }
  split.
  - cbn [update_open iOccurrences length]. lia.
  - done.
  - rewrite evidence_cons. cbn [update_open iEvidence rInput].
    destruct (new_evidence a) as [|x k] eqn:E; [by rewrite app_nil_r|]. rewrite He. apply last_n_app.
  - rewrite Hsev, <- Hs. cbn [List.filter rBridged]. unfold escalates.
    destruct (Z.ltb_spec (sevRank (iSeverity cur)) (sevRank (inSeverity a))); cbn [length]; lia.
  - constructor; [by cbn|]. exact Hp.
Qed.

(** *** Steps that close or acknowledge *)

(** Same problem and history; never reopened, and closed rows untouched. *)
Definition stays (r r' : Incident) : Prop :=
  same_problem r r' /\ iOccurrences r' = iOccurrences r /\ iSeverity r' = iSeverity r /\ iEvidence r' = iEvidence r /\
  (IsOpen r' = true -> IsOpen r = true) /\ (IsOpen r = false -> r' = r).
Definition table_stays (t t' : incidents) : Prop :=
  forall i, match t !! i with Some r => exists r', t' !! i = Some r' /\ stays r r' | None => t' !! i = None end.

Lemma stays_refl r : stays r r.
Proof. by repeat split. Qed.

Lemma set_status_stays now s ak rs i :
  IsOpen i = true -> stays i (set_status i s ak rs now).
Proof. intros Ho. repeat split; [done|]. congruence. Qed.

Lemma Acknowledge_stays now org id by_ t t' : Acknowledge now org id by_ t = Ok t' -> table_stays t t'.
Proof.
  unfold Acknowledge. destruct (t !! id) as [r|] eqn:Hr; [|done]. destruct (_ && _) eqn:Hg; [|done]. intros [= <-] j.
  apply andb_true_iff in Hg as [_ Hs%bool_decide_eq_true].
  destruct (decide (j = id)) as [->|Hne].
  - rewrite Hr, lookup_insert_eq. eexists; split; [done|]. apply set_status_stays. unfold IsOpen. by rewrite Hs.
  - rewrite lookup_insert_ne by done. destruct (t !! j); [|done]. eexists; split; [done|]. apply stays_refl.
Qed.

Lemma closeQ_stays now where_ s by_ why t : table_stays t (closeQ now where_ s by_ why t).2.
Proof.
  intros j. unfold closeQ. cbn [snd]. rewrite map_lookup_imap. destruct (t !! j) as [r|]; [|done]. cbn.
  destruct (where_ j r && IsOpen r) eqn:Hg; eexists; (split; [done|]); [|apply stays_refl].
  apply andb_true_iff in Hg as [_ Ho]. by apply set_status_stays.
Qed.

Lemma Resolve_stays now org id by_ why t t' : Resolve now org id by_ why t = Ok t' -> table_stays t t'.
Proof.
  unfold Resolve. destruct (blank why); [done|].
  match goal with |- context [closeQ ?n ?w ?s ?b ?y t] => pose proof (closeQ_stays n w s b y t) as Hc;
    destruct (closeQ n w s b y t) as [k t1] end. cbn in Hc. destruct (k =? 0); [done|]. by intros [= <-].
Qed.

(** *** The invariant *)

Record inc_inv (w : inc_state) : Prop := mkIncInv {
  inv_unique : forall i j a b, rows w !! i = Some a -> rows w !! j = Some b -> IsOpen a = true -> IsOpen b = true ->
    same_problem a b -> i = j;
  inv_tells : forall i r, rows w !! i = Some r -> tells r (entries i (reports w));
  inv_absent : forall i, rows w !! i = None -> entries i (reports w) = []
}.

Lemma inc_inv_openers t os os' rs : inc_inv (mkIncState t os rs) -> inc_inv (mkIncState t os' rs).
Proof. by intros [A B C]. Qed.

Lemma inc_inv_stays t t' os rs : table_stays t t' -> inc_inv (mkIncState t os rs) -> inc_inv (mkIncState t' os rs).
Proof.
  intros Hst [Hu Ht Ha]. cbn in *.
  assert (Hback : forall i r', t' !! i = Some r' -> exists r, t !! i = Some r /\ stays r r').
  { intros i r' Hr'. specialize (Hst i). destruct (t !! i) as [r|]; [|congruence].
    destruct Hst as (r1 & E & ?). exists r. split; [done|]. by assert (r1 = r') as <- by congruence. }
  split; cbn.
  - intros i j a' b' Hi Hj Hoa Hob Hsame. destruct (Hback i a' Hi) as (a & Ha' & (Sa & _ & _ & _ & Oa & _)).
    destruct (Hback j b' Hj) as (b & Hb' & (Sb & _ & _ & _ & Ob & _)).
    apply (Hu i j a b); auto. unfold same_problem in *. intuition congruence.
  - intros i r' Hr'. destruct (Hback i r' Hr') as (r & Hr & (Sp & Eo & Es & Ee & _ & _)).
    destruct (Ht i r Hr) as [T1 T2 T3 T4 T5]. destruct Sp as (S1 & S2 & S3).
    split; rewrite ?Eo, ?Es, ?Ee; try done. by rewrite <- S1, <- S2, <- S3.
  - intros i Hi. apply Ha. specialize (Hst i). destruct (t !! i); [|done]. destruct Hst as (? & ? & _). congruence.
Qed.

Lemma inc_inv_hit t os rs a now i cur :
  find_open (inOrg a) (inDomain a) (inFingerprint a) t = Some (i, cur) -> inc_inv (mkIncState t os rs) ->
  inc_inv (mkIncState (<[i := update_open now a cur]> t) os (mkReport i a (escalates a cur) :: rs)).
Proof.
  intros Hf [Hu Ht Ha]. cbn in *. apply find_open_Some in Hf as [Hi Hm].
  assert (Hback : forall j r, (<[i := update_open now a cur]> t) !! j = Some r ->
    exists r0, t !! j = Some r0 /\ IsOpen r = IsOpen r0 /\ same_problem r r0).
  { intros j r. destruct (decide (j = i)) as [->|Hne]; [rewrite lookup_insert_eq|rewrite lookup_insert_ne by done]; intros Hr.
    - injection Hr as <-. exists cur. by repeat split.
    - exists r. by repeat split. }
  split; cbn.
  - intros j k x y Hj Hk Hox Hoy Hs. destruct (Hback _ _ Hj) as (x0 & Hx & Ex & Sx), (Hback _ _ Hk) as (y0 & Hy & Ey & Sy).
    apply (Hu j k x0 y0); try congruence. unfold same_problem in *. intuition congruence.
  - intros j r Hr. destruct (String.eqb_spec i j) as [<-|Hne].
    + rewrite lookup_insert_eq in Hr. injection Hr as <-. apply tells_update; auto.
    + rewrite lookup_insert_ne in Hr by done. by apply Ht.
  - intros j Hj. apply lookup_insert_None in Hj as [Hj Hne]. destruct (String.eqb_spec i j); [done|]. by apply Ha.
Qed.

Lemma inc_inv_insert t t' os rs a now id :
  insert_open id (new_row now a) t = Ok t' -> inc_inv (mkIncState t os rs) ->
  inc_inv (mkIncState t' os (mkReport id a true :: rs)).
Proof.
  intros Hins [Hu Ht Ha]. cbn in *. apply insert_open_Ok in Hins as (Hid & -> & Hno). specialize (Hno eq_refl).
  assert (Hother : forall j b, t !! j = Some b -> IsOpen b = true -> same_problem (new_row now a) b -> False).
  { intros j b Hj Hob (E1 & E2 & E3). pose proof (find_open_None _ _ _ _ _ _ Hno Hj) as Hm.
    rewrite (proj2 (matches_spec _ _ _ _)) in Hm; [done|]. cbn in *. auto. }
  split; cbn.
  - intros j k x y Hj Hk Hox Hoy Hs. destruct (decide (j = id)) as [->|Hnj], (decide (k = id)) as [->|Hnk];
      rewrite ?lookup_insert_eq in Hj; rewrite ?lookup_insert_eq in Hk;
      rewrite ?(lookup_insert_ne _ _ _ _ (not_eq_sym Hnj)) in Hj; rewrite ?(lookup_insert_ne _ _ _ _ (not_eq_sym Hnk)) in Hk.
    + done.
    + injection Hj as <-. destruct (Hother _ _ Hk Hoy Hs).
    + injection Hk as <-. destruct (Hother _ _ Hj Hox). by destruct Hs as (? & ? & ?).
    + by apply (Hu j k x y).
  - intros j r Hr. destruct (String.eqb_spec id j) as [<-|Hne].
    + rewrite lookup_insert_eq in Hr. injection Hr as <-. rewrite (Ha _ Hid). apply tells_new.
    + rewrite lookup_insert_ne in Hr by done. by apply Ht.
  - intros j Hj. apply lookup_insert_None in Hj as [Hj Hne]. destruct (String.eqb_spec id j); [done|]. by apply Ha.
Qed.

Lemma inc_inv_step w w' : inc_inv w -> inc_step w w' -> inc_inv w'.
Proof.
  intros Hinv Hs. destruct Hs; try by eapply inc_inv_openers.
  - eapply inc_inv_hit; [done|]. by eapply inc_inv_openers.
  - eapply inc_inv_insert; [done|]. by eapply inc_inv_openers.
  - eapply inc_inv_stays; [by eapply Acknowledge_stays|done].
  - eapply inc_inv_stays; [by eapply Resolve_stays|done].
  - eapply inc_inv_stays; [apply closeQ_stays|done].
Qed.

Lemma inc_inv_reachable w : rtc inc_step no_incidents w -> inc_inv w.
Proof.
  intros Hr. remember no_incidents as w0 eqn:E0. assert (Hi : inc_inv w0).
  { subst w0. split; cbn; intros *; rewrite ?lookup_empty; done. }
  clear E0. induction Hr as [|w0 w1 w Hs Hr IH]; [done|]. apply IH. by eapply inc_inv_step.
Qed.

Lemma closed_stays_step w w' i r : inc_step w w' -> rows w !! i = Some r -> IsOpen r = false -> rows w' !! i = Some r.
Proof.
  assert (Hst : forall t t', table_stays t t' -> t !! i = Some r -> IsOpen r = false -> t' !! i = Some r).
  { intros t t' Hs Hi Hc. specialize (Hs i). rewrite Hi in Hs. destruct Hs as (r' & E & (_ & _ & _ & _ & _ & Hsame)).
    by rewrite (Hsame Hc) in E. }
  intros Hs Hi Hc. destruct Hs; cbn in *; try done.
  - match goal with Hf : find_open _ _ _ _ = Some _ |- _ => apply find_open_Some in Hf as [Hf Hm] end.
    apply matches_spec in Hm as (_ & _ & _ & Ho). rewrite lookup_insert_ne; [done|]. intros ->. congruence.
  - match goal with Hi : insert_open _ _ _ = _ |- _ => apply insert_open_Ok in Hi as (Hid & -> & _) end.
    rewrite lookup_insert_ne; [done|]. intros ->. congruence.
  - eapply Hst; [by eapply Acknowledge_stays|done|done].
  - eapply Hst; [by eapply Resolve_stays|done|done].
  - eapply Hst; [apply closeQ_stays|done|done].
Qed.

Lemma escalates_rank a cur now : sevRank (iSeverity cur) <= sevRank (iSeverity (update_open now a cur)).
Proof. cbn. unfold escalates. destruct (Z.ltb_spec (sevRank (iSeverity cur)) (sevRank (inSeverity a))); lia. Qed.

(** ** Theorems *)

(** Whatever opens, closes and acknowledges run together, a problem has at
    most one open incident; a row counts each of its reports once, carries
    the highest severity and the last fifty records that tripped it, and was
    announced at most three times; a closed incident never changes. *)
Theorem incident_log w :
  rtc inc_step no_incidents w ->
  (forall i j a b, rows w !! i = Some a -> rows w !! j = Some b -> IsOpen a = true -> IsOpen b = true ->
     same_problem a b -> i = j) /\
  (forall i r, rows w !! i = Some r ->
     iOccurrences r = Z.of_nat (length (entries i (reports w))) /\
     sevRank (iSeverity r) = highest (entries i (reports w)) /\
     iEvidence r = last_n MaxEvidenceIDs (evidence_of (entries i (reports w))) /\
     Z.of_nat (length (List.filter rBridged (entries i (reports w)))) <= 3 /\
     Forall (fun e => inOrg (rInput e) = iOrg r /\ inDomain (rInput e) = iDomain r /\
                      inFingerprint (rInput e) = iFingerprint r) (entries i (reports w))) /\
  (forall e, e ∈ reports w -> is_Some (rows w !! rID e)) /\
  (forall w' i r, inc_step w w' -> rows w !! i = Some r -> IsOpen r = false -> rows w' !! i = Some r).
Proof.
  intros Hr. destruct (inc_inv_reachable w Hr) as [Hu Ht Ha]. split_and!.
  - done.
  - intros i r Hi. destruct (Ht i r Hi) as [T1 T2 T3 T4 T5]. split_and!; try done.
    pose proof (sevRank_range (iSeverity r)). lia.
  - intros e He. destruct (rows w !! rID e) eqn:E; [eauto|exfalso]. pose proof (Ha _ E) as Hn.
    assert (Hin : In e (entries (rID e) (reports w))).
    { apply filter_In. split; [by apply list_elem_of_In|]. by apply String.eqb_refl. }
    by rewrite Hn in Hin.
  - intros w' i r. apply closed_stays_step.
Qed.

(** Two deliveries of one problem: both find no open incident, the second
    insert hits the unique index and its retry counts the occurrence; then a
    person closes it. *)
Definition ex_input (ev : string) : Input :=
  mkInput "o1" DomainPayments "mp" KindDeadLetter SeverityHigh "payments.dead_letter:mp:7" "payment" "7" ∅ "t" "" "" ev.
Definition ex_log : inc_state :=
  let r := update_open 6 (ex_input "n2") (new_row 5 (ex_input "n1")) in
  mkIncState {["i1" := closed_row 9 StatusResolved "ana" "paid" r]} []
    [mkReport "i1" (ex_input "n2") false; mkReport "i1" (ex_input "n1") true].

Lemma incident_log_witness :
  rtc inc_step no_incidents ex_log /\
  (exists r, rows ex_log !! "i1"%string = Some r /\ iOccurrences r = 2 /\ iEvidence r = ["n1"; "n2"]%string /\ IsOpen r = false /\
     forall w', inc_step ex_log w' -> rows w' !! "i1"%string = Some r).
Proof.
  assert (Hrun : rtc inc_step no_incidents ex_log).
  { eapply rtc_l; [apply (IStart _ _ _ (ex_input "n1")); vm_compute; reflexivity|].
    eapply rtc_l; [apply (IStart _ _ _ (ex_input "n2")); vm_compute; reflexivity|].
    eapply rtc_l; [eapply (IMiss _ _ [Selecting (ex_input "n1") 0] _ (ex_input "n2")); [reflexivity|vm_compute; reflexivity]|].
    eapply rtc_l; [eapply (IMiss _ _ [Inserting (ex_input "n2") 0] _ (ex_input "n1")); [apply Permutation_swap|vm_compute; reflexivity]|].
    eapply rtc_l; [eapply (IInsert _ {["i1"%string := new_row 5 (ex_input "n1")]} _ [Inserting (ex_input "n2") 0] _ (ex_input "n1") 0 5 "i1"%string);
      [reflexivity|vm_compute; reflexivity]|].
    eapply rtc_l; [eapply (IRetry _ _ [] _ (ex_input "n2") 0 6 "i2"%string); [reflexivity|vm_compute; reflexivity]|].
    eapply rtc_l; [eapply (IHit _ _ [] _ (ex_input "n2") 1 6 "i1"%string (new_row 5 (ex_input "n1"))); [reflexivity|vm_compute; reflexivity]|].
    eapply rtc_l; [|apply rtc_refl].
    apply (IResolve _ _ _ _ 9 "o1" "i1" "ana" "paid"); vm_compute; reflexivity. }
  split; [exact Hrun|]. destruct (incident_log ex_log Hrun) as (_ & _ & _ & Hfix).
  eexists. split_and!; [reflexivity|reflexivity|reflexivity|reflexivity|].
  intros w' Hs. exact (Hfix w' "i1"%string _ Hs eq_refl eq_refl).
Defined.

(** [Open] on its own needs one attempt: the row it returns is in the table
    and is open, and it is bridged exactly when it is new or escalated. *)
Lemma Open_alone cfg now id ids a t a' :
  normalize a = Ok a' -> t !! id = None ->
  exists u t' sent, Open cfg now (id :: ids) a t = Ok (u, t', sent) /\ t' !! uID u = Some (uRow u) /\
    IsOpen (uRow u) = true /\ (sent = [] \/ uCreated u || uEscalated u = true) /\
    matches (inOrg a') (inDomain a') (inFingerprint a') (uRow u) = true.
Proof.
  intros Ha Hid. unfold Open. rewrite Ha. cbn [mbind result_bind open_loop]. unfold upsert.
  destruct (find_open _ _ _ t) as [[i cur]|] eqn:Hf.
  - apply find_open_Some in Hf as [Hi Hm]. cbn [uCreated uEscalated uID uRow mbind result_bind].
    pose proof Hm as (E1 & E2 & E3 & Ho)%matches_spec.
    eexists _, _, _. split; [reflexivity|]. split_and!; [apply lookup_insert_eq|exact Ho| |].
    + cbn. destruct (escalates a' cur); [by right|by left].
    + by apply matches_spec.
  - unfold insert_open. rewrite Hid. cbn [new_row iOrg iDomain iFingerprint].
    rewrite Hf, bool_decide_eq_false_2 by (by intros [? ?]). rewrite andb_false_r. cbn [mbind result_bind].
    eexists _, _, _. split; [reflexivity|]. split_and!; [apply lookup_insert_eq|done|by right|]. by apply matches_spec.
Qed.
