(* ===== verification/InboxClassify.v ===== *)
(** * The payment inbox: model and response policy (payments/inbox/model.go, classify.go)

    The states and verdicts of a notification, the outcome a handler reports
    and [FromDispatch]: what is stored and what the provider is answered.
    Composed with [WebhookIn.DispatchRequest], when a payment notification is
    acknowledged. *)

From stdpp Require Import gmap.
From S2P Require Import Prelude GoStrings GoHTTP Signing WebhookIn.

(** ** model.go *)

Inductive estado : Type :=
| EstadoRecibida | EstadoProcesando | EstadoProcesada | EstadoDuplicada | EstadoIgnorada | EstadoReconciliadaAPI
| EstadoRequiereRevision | EstadoReintentar | EstadoDeadLetter | EstadoResueltaManual.
#[export] Instance estado_eq_dec : EqDecision estado.
Proof. solve_decision. Defined.

Definition AuthPendiente : string := "pendiente".
Definition AuthFirmaOK : string := "firma_ok".
Definition AuthFirmaInvalida : string := "firma_invalida".
Definition AuthSinFirma : string := "sin_firma".
Definition AuthSinSecreto : string := "sin_secreto".
Definition AuthReasonMatchedPrevious : string := "matched_previous".

Definition OpenEstados : list estado :=
  [EstadoRecibida; EstadoProcesando; EstadoReintentar; EstadoRequiereRevision; EstadoDeadLetter].
Definition ReviewEstados : list estado := [EstadoRequiereRevision; EstadoDeadLetter].

Record WriteFailure := mkWriteFailure { wfTable : string; wfRow : string; wfCause : string }.

(** The outcome to store; an absent actor is "". *)
Record Result := mkResult {
  rAuth : string; rAuthReason : string; rResourceKind : string; rResourceID : string; rEventID : string;
  rEstado : estado; rMotivo : string; rPaymentID : option string; rCheckoutRef : string; rHTTPStatus : Z;
  rActor : string; rRetryAfter : Z; rWriteFailures : list WriteFailure; rAmount : string; rCurrency : string
}.

(** ** classify.go *)

Record Reply := mkReply { rpStatus : Z; rpHeaders : gmap string string; rpBody : string; rpDefault : bool }.

Record Structured := mkStructured {
  sAuth : string; sAuthReason : string; sResourceKind : string; sResourceID : string; sEventID : string;
  sOutcome : string; sPaymentID : string; sOrderRef : string; sAmount : string; sCurrency : string;
  sWriteFailures : list WriteFailure
}.
Definition no_structured : Structured := mkStructured "" "" "" "" "" "" "" "" "" "" [].

(** encoding/json into the two structs (what it filled before an error, as
    the code ignores the error), and uuid.Parse, which returns the canonical
    text. *)
Class InboxJSON := {
  decode_data : string -> option string;
  decode_structured : string -> Structured;
  uuid_parse : string -> option string
}.

(** [http.StatusText]. *)
Definition status_texts : list (Z * string) :=
  [(100, "Continue"); (101, "Switching Protocols"); (102, "Processing"); (103, "Early Hints"); (200, "OK");
   (201, "Created"); (202, "Accepted"); (203, "Non-Authoritative Information"); (204, "No Content");
   (205, "Reset Content"); (206, "Partial Content"); (207, "Multi-Status"); (208, "Already Reported");
   (226, "IM Used"); (300, "Multiple Choices"); (301, "Moved Permanently"); (302, "Found"); (303, "See Other");
   (304, "Not Modified"); (305, "Use Proxy"); (307, "Temporary Redirect"); (308, "Permanent Redirect");
   (400, "Bad Request"); (401, "Unauthorized"); (402, "Payment Required"); (403, "Forbidden"); (404, "Not Found");
   (405, "Method Not Allowed"); (406, "Not Acceptable"); (407, "Proxy Authentication Required");
   (408, "Request Timeout"); (409, "Conflict"); (410, "Gone"); (411, "Length Required");
   (412, "Precondition Failed"); (413, "Request Entity Too Large"); (414, "Request URI Too Long");
   (415, "Unsupported Media Type"); (416, "Requested Range Not Satisfiable"); (417, "Expectation Failed");
   (418, "I'm a teapot"); (421, "Misdirected Request"); (422, "Unprocessable Entity"); (423, "Locked");
   (424, "Failed Dependency"); (425, "Too Early"); (426, "Upgrade Required"); (428, "Precondition Required");
   (429, "Too Many Requests"); (431, "Request Header Fields Too Large"); (451, "Unavailable For Legal Reasons");
   (500, "Internal Server Error"); (501, "Not Implemented"); (502, "Bad Gateway"); (503, "Service Unavailable");
   (504, "Gateway Timeout"); (505, "HTTP Version Not Supported"); (506, "Variant Also Negotiates");
   (507, "Insufficient Storage"); (508, "Loop Detected"); (510, "Not Extended");
   (511, "Network Authentication Required")]%string.
Fixpoint zassoc (k : Z) (l : list (Z * string)) : string :=
  match l with [] => "" | (j, v) :: l => if j =? k then v else zassoc k l end.
Definition StatusText (code : Z) : string := zassoc code status_texts.

(** [truncate] of store.go. *)
Definition truncate (s : string) (n : nat) : string := if Nat.leb (String.length s) n then s else str_take n s.

Definition jsonReply (status : Z) (msg : string) : Reply :=
  mkReply status {["Content-Type" := "application/json"]}%string (failure_json msg) false.
Definition StoreFailureReply : Reply :=
  let r := jsonReply 503 "temporarily unavailable" in
  mkReply (rpStatus r) (<["Retry-After"%string := "30"%string]> (rpHeaders r)) (rpBody r) (rpDefault r).

(** A result the code builds with a few fields and the zero value elsewhere. *)
Definition short_result (auth reason : string) (e : estado) (motivo : string) (status : Z) : Result :=
  mkResult auth reason "" "" "" e motivo None "" status "" 0 [] "" "".

Section classify.
Context `{UnicodeLower, HandlerJSON, InboxJSON}.

Definition ParseStructured (raw : string) : Structured :=
  let raw := TrimSpace raw in
  if negb (HasPrefix raw "{") then no_structured else
  match decode_data raw with
  | Some data => if HasPrefix data "{" then decode_structured data else decode_structured raw
  | None => decode_structured raw
  end.

(** The branch of an error. *)
Definition error_result (e : dispatch_error) : Result * Reply :=
  if Is e ErrSignatureMissing then
    (short_result AuthSinFirma "" EstadoRequiereRevision "falta la firma" 401, jsonReply 401 "unauthorized")
  else if Is e ErrSecretNotConfigured then
    (short_result AuthSinSecreto "" EstadoRequiereRevision "el conector no tiene secreto de webhook" 401, jsonReply 401 "unauthorized")
  else if Is e ErrSignatureInvalid then
    (short_result AuthFirmaInvalida "signature_mismatch" EstadoRequiereRevision "firma inválida" 401, jsonReply 401 "unauthorized")
  else if Is e ErrRouteNotFound then
    (short_result "" "" EstadoIgnorada "ruta desconocida" 404, jsonReply 404 "not found")
  else
    (short_result "" "" EstadoReintentar (truncate ("error: " +:+ eText e) 300) 503,
     jsonReply 503 "temporarily unavailable").

(** The structured result of an answer. *)
Definition structured_of (resp : Response) : Structured :=
  let st := ParseStructured (if rsEnvelope resp then rsBody resp else rsOutput resp) in
  if String.eqb (sResourceID st) "" && rsEnvelope resp && rsMapped resp then ParseStructured (rsOutput resp) else st.

(** The verdict before the status is looked at. *)
Definition reported_auth (resp : Response) (st : Structured) : string * string :=
  if rsMapped resp && String.eqb (sAuth st) "" &&
     (Contains (ToLower (rsCause resp)) "unauthorized" || Contains (ToLower (rsCause resp)) "signature")
  then (AuthFirmaInvalida, "handler_rejected"%string) else (sAuth st, sAuthReason st).

Definition unauthorized : Reply := jsonReply 401 "unauthorized".
Definition unavailable : Reply := jsonReply 503 "temporarily unavailable".
Definition reconciled_reply : Reply :=
  mkReply 200 {["Content-Type" := "application/json"]}%string ("{" +:+ jstr "success" +:+ ":true}")%string false.

(** What the switch decides: the state, its reason, the verdict, the reply and
    the recorded status. *)
Record decision := mkDecision { dEstado : estado; dMotivo : string; dAuth : string * string; dReply : Reply; dStatus : Z }.

Definition decide_status (resp : Response) (st : Structured) (status : Z) (reply : Reply) : decision :=
  let auth := reported_auth resp st in
  if negb (bool_decide (sWriteFailures st = [])) then
    mkDecision EstadoReintentar "no se pudo escribir el pago" auth unavailable status
  else if (500 <=? status) || (status =? 429) then
    mkDecision EstadoReintentar
      (if String.eqb (rsCause resp) "" then "el handler respondió " +:+ StatusText status else rsCause resp)%string auth reply status
  else if (status =? 401) || (status =? 403) then
    let auth := if String.eqb auth.1 "" then (AuthFirmaInvalida, "handler_rejected"%string) else auth in
    if String.eqb (sOutcome st) "reconciled" then
      mkDecision EstadoReconciliadaAPI "conciliado por API" auth reconciled_reply 200
    else mkDecision EstadoRequiereRevision "firma inválida, sin conciliar" auth reply status
  else if 400 <=? status then
    mkDecision EstadoRequiereRevision ("el handler rechazó el aviso (" +:+ StatusText status +:+ ")")%string auth reply status
  else
    let '(e, m) :=
      if String.eqb (sOutcome st) "duplicate" then (EstadoDuplicada, "duplicado"%string)
      else if String.eqb (sOutcome st) "ignored" then (EstadoIgnorada, "ignorado"%string)
      else if String.eqb (sOutcome st) "reconciled" then (EstadoReconciliadaAPI, "conciliado por API"%string)
      else if String.eqb (sOutcome st) "unresolved" then (EstadoRequiereRevision, "sin resolver"%string)
      else (EstadoProcesada, ""%string) in
    if String.eqb auth.1 AuthFirmaInvalida && negb (bool_decide (e = EstadoReconciliadaAPI)) &&
       negb (bool_decide (e = EstadoIgnorada)) && negb (bool_decide (e = EstadoDuplicada))
    then mkDecision EstadoRequiereRevision "firma inválida, sin conciliar" auth unauthorized 401
    else mkDecision e m auth reply status.

Definition FromDispatch (resp : Response) (err : option dispatch_error) : Result * Reply :=
  match err with
  | Some e => error_result e
  | None =>
      let st := structured_of resp in
      let status := if rsEnvelope resp then rsStatus resp else 200 in
      let reply := mkReply status (rsHeaders resp) (BodyBytes resp) (negb (rsEnvelope resp)) in
      let d := decide_status resp st status reply in
      let '(reply, code) :=
        if bool_decide (dEstado d = EstadoReintentar) && (rpStatus (dReply d) <? 500) then (unavailable, 503)
        else (dReply d, dStatus d) in
      (mkResult (dAuth d).1 (dAuth d).2 (sResourceKind st) (sResourceID st) (sEventID st) (dEstado d) (dMotivo d)
         (uuid_parse (sPaymentID st)) (sOrderRef st) code "" 0 (sWriteFailures st) (sAmount st) (sCurrency st), reply)
  end.
End classify.

(** ** Facts *)

Section policy.
Context `{UnicodeLower, HandlerJSON, InboxJSON}.

(** Membership of a state in a short list. *)
Ltac in_estados := intros; rewrite ?elem_of_cons, ?elem_of_nil in *; intuition congruence.

(** What every decision keeps. *)
Record policy (auth : string) (e : estado) (wf : list WriteFailure) (reply : Reply) : Prop := mkPolicy {
  pol_retry : e = EstadoReintentar <-> 500 <= rpStatus reply;
  pol_failed : rpStatus reply < 400 -> wf = [];
  pol_acked : rpStatus reply < 400 ->
    e ∈ [EstadoProcesada; EstadoDuplicada; EstadoIgnorada; EstadoReconciliadaAPI; EstadoRequiereRevision];
  pol_signature : rpStatus reply < 400 -> auth = AuthFirmaInvalida ->
    e ∈ [EstadoReconciliadaAPI; EstadoIgnorada; EstadoDuplicada]
}.

Lemma decide_status_policy resp st status reply :
  rpStatus reply = status ->
  let d := decide_status resp st status reply in
  (dEstado d = EstadoReintentar /\ rpStatus (dReply d) < 500 /\ dReply d = reply) \/
  policy (dAuth d).1 (dEstado d) (sWriteFailures st) (dReply d).
Proof.
  intros Hst. cbn zeta. unfold decide_status. cbn zeta.
  destruct (bool_decide (sWriteFailures st = [])) eqn:Ewf; cbn [negb].
  2:{ right. cbn. split; [split; [cbn; lia|done]|cbn; lia..]. }
  apply bool_decide_eq_true in Ewf. destruct (_ || _) eqn:Es.
  { destruct (Z.ltb_spec status 500).
    - left. cbn. by rewrite Hst.
    - right. cbn. split; rewrite Hst; [split; [lia|done]|lia..]. }
  apply orb_false_iff in Es as [Hlt _]. apply Z.leb_gt in Hlt. destruct ((status =? 401) || (status =? 403)) eqn:Ea.
  { assert (400 < status) by lia. destruct (String.eqb (sOutcome st) "reconciled"); right; cbn; split; cbn;
      rewrite ?Hst; try done; try lia; try (split; [done|lia]); in_estados. }
  destruct (Z.leb_spec 400 status) as [H4|H4].
  { right. cbn. split; rewrite Hst; [split; [done|lia]|lia..]. }
  right. destruct (if String.eqb (sOutcome st) "duplicate" then _ else _) as [e m] eqn:Ee.
  assert (He : e ∈ [EstadoProcesada; EstadoDuplicada; EstadoIgnorada; EstadoReconciliadaAPI; EstadoRequiereRevision]).
  { repeat case_match; injection Ee as <- _; in_estados. }
  assert (Hr : e <> EstadoReintentar) by (intros ->; in_estados).
  destruct (String.eqb_spec (reported_auth resp st).1 AuthFirmaInvalida) as [Eau|Nau]; cbn [andb].
  - destruct (_ && _) eqn:Eg; cbn.
    + split; cbn; [split; [done|lia]|lia..].
    + split; cbn; rewrite ?Hst; [split; [done|lia]|done|done|intros _ _].
      destruct (bool_decide_reflect (e = EstadoReconciliadaAPI)); [in_estados|].
      destruct (bool_decide_reflect (e = EstadoIgnorada)); [in_estados|].
      destruct (bool_decide_reflect (e = EstadoDuplicada)); [in_estados|done].
  - cbn. split; cbn; rewrite ?Hst; [split; [done|lia]|done|done|congruence].
Qed.

Lemma FromDispatch_policy resp err :
  let '(res, reply) := FromDispatch resp err in
  policy (rAuth res) (rEstado res) (rWriteFailures res) reply /\ (rpStatus reply < 400 -> err = None).
Proof.
  unfold FromDispatch. destruct err as [e|].
  - unfold error_result.
    repeat match goal with |- context [if Is e ?s then _ else _] => destruct (Is e s) end; (split; [split|]); cbn; try lia; split; intros; (done || lia).
  - cbn zeta.
    match goal with |- context [decide_status resp ?st ?status ?reply] =>
      pose proof (decide_status_policy resp st status reply eq_refl) as Hd; cbn zeta in Hd;
      set (d := decide_status resp st status reply) in * end.
    destruct Hd as [(He & Hlt & _)|Hp].
    + rewrite He. apply Z.ltb_lt in Hlt. rewrite Hlt. cbn. split; [|done]. split; cbn; [split; [lia|done]|lia..].
    + destruct (bool_decide_reflect (dEstado d = EstadoReintentar)) as [Hr|Hr]; cbn [andb]; [|done].
      destruct (Z.ltb_spec (rpStatus (dReply d)) 500) as [Hlt|Hge]; [|done].
      exfalso. apply (pol_retry _ _ _ _ Hp) in Hr. lia.
Qed.
End policy.

Section answers.
Context `{Crypto, UnicodeLower, UnicodeUpper, GoQuote, HandlerJSON, InboxJSON}.

(** What the host does with a request of a payments route: dispatch, then the
    policy. *)
Definition classify (d : result dispatch_error Response) : Result * Reply :=
  match d with Ok resp => FromDispatch resp None | Err e => FromDispatch no_response (Some e) end.

(** The output is an addon's error envelope. *)
Definition reports_failure (out : string) : Prop :=
  HasPrefix (TrimSpace out) "{" = true /\
  exists error message, decode_failure (TrimSpace out) = Some (Some false, error, message).

Lemma FromDispatch_5xx resp :
  rsEnvelope resp = true -> 500 <= rsStatus resp -> 500 <= rpStatus (FromDispatch resp None).2.
Proof.
  intros He Hs. pose proof (FromDispatch_policy resp None) as Hp.
  assert (Hr : rEstado (FromDispatch resp None).1 = EstadoReintentar).
  { unfold FromDispatch. rewrite He. cbn zeta. destruct (if _ && _ then _ else _) as [reply code]. cbn [fst rEstado].
    unfold decide_status. assert (500 <=? rsStatus resp = true) as -> by lia. by destruct (negb _). }
  destruct (FromDispatch resp None) as [res reply]. by apply Hp.
Qed.

Lemma mapFailureEnvelope_failure out :
  rsEnvelope (decodeResponse out) = false -> reports_failure out ->
  rsEnvelope (mapFailureEnvelope (decodeResponse out)) = true /\
  rsStatus (mapFailureEnvelope (decodeResponse out)) = 503.
Proof.
  intros He (Hp & error & message & Hf). unfold mapFailureEnvelope. rewrite He.
  assert (Ho : rsOutput (decodeResponse out) = out).
  { unfold decodeResponse. destruct (negb _); [done|]. destruct (decode_env _) as [[[[st|] hs] body]|]; [|done..].
    by destruct (_ || _). }
  rewrite Ho, Hp. cbn [negb]. rewrite Hf. done.
Qed.

(** ** Theorems *)

(** A result is retried exactly when the provider is answered 5xx; what
    is answered below 400 came from a handler that answered, reported no
    write it lost, and left the notification processed, duplicate, ignored,
    reconciled or up for review, and one of ignored, duplicate or reconciled
    if the signature was invalid. *)
Theorem response_policy resp err res reply :
  FromDispatch resp err = (res, reply) ->
  (rEstado res = EstadoReintentar <-> 500 <= rpStatus reply) /\
  (rpStatus reply < 400 ->
     err = None /\ rWriteFailures res = [] /\
     rEstado res ∈ [EstadoProcesada; EstadoDuplicada; EstadoIgnorada; EstadoReconciliadaAPI; EstadoRequiereRevision] /\
     (rAuth res = AuthFirmaInvalida -> rEstado res ∈ [EstadoReconciliadaAPI; EstadoIgnorada; EstadoDuplicada])).
Proof.
  intros E. pose proof (FromDispatch_policy resp err) as Hp. rewrite E in Hp. destruct Hp as [[P1 P2 P3 P4] Herr].
  split; [done|]. intros Hlt. split_and!; auto.
Qed.

(** C24: a payment notification is acknowledged only if its route is
    registered, the sender proved the secret where the kernel verifies, the
    handler ran once and did not fail, nor answer a bare success:false, and
    nothing of it is left to retry. *)
Theorem acknowledged_notification now_text r org i res cs rs reply :
  DispatchRequest now_text r org i = (res, cs) -> classify res = (rs, reply) -> rpStatus reply < 400 ->
  exists route d, routes r !! inPath i = Some route /\ dispatchers r !! prefixOf (rDo route) = Some d /\
    (kernel_verifies route = true ->
       exists resolve secret, secrets r = Some resolve /\ resolve org (rSecretRef route) = Ok secret /\
         blank secret = false /\ proves_secret (rVerify route) secret (inHeaders i) (inBody i)) /\
    (exists p, cs = [mkCall (prefixOf (rDo route)) org (target_of (rDo route)) p] /\
       match d with
       | Plain f => f org (target_of (rDo route)) p = Ok tt
       | WithResult f => exists out, f org (target_of (rDo route)) p = Ok out /\
           (rKind route = KindPayments -> rsEnvelope (decodeResponse out) = true \/ ~ reports_failure out)
       end) /\
    rEstado rs <> EstadoReintentar /\ rWriteFailures rs = [].
Proof.
  intros Hd Hc Hlt.
  assert (Hok : exists resp, res = Ok resp).
  { destruct res as [resp|e]; [eauto|]. cbn [classify] in Hc. pose proof (FromDispatch_policy no_response (Some e)) as Hp.
    rewrite Hc in Hp. destruct Hp as [_ Hp]. by specialize (Hp Hlt). }
  destruct (DispatchRequest_calls _ _ _ _ _ _ Hd (or_intror Hok)) as (route & d & Hr & Hdd & Hv & Hres & ->).
  destruct Hok as [resp ->]. cbn [classify] in Hc.
  pose proof (FromDispatch_policy resp None) as Hp. rewrite Hc in Hp. destruct Hp as [[P1 P2 P3 P4] _].
  exists route, d. split_and!; [done|done|intros Hk; by apply verifySignature_Ok, Hv| | |auto].
  - eexists. split; [reflexivity|]. unfold run_handler in Hres. destruct d as [f|f].
    + symmetry in Hres. apply bind_Ok in Hres as ([] & Hf & _). done.
    + symmetry in Hres. apply bind_Ok in Hres as (out & Hf & Hout). exists out. split; [done|]. intros Hk.
      destruct (rsEnvelope (decodeResponse out)) eqn:He; [by left|right]. intros Hfail.
      destruct (mapFailureEnvelope_failure out He Hfail) as [E1 E2]. rewrite Hk in Hout. injection Hout as Hout.
      change (String.eqb KindPayments KindPayments) with true in Hout. cbn iota in Hout.
      rewrite Hout in E1, E2. pose proof (FromDispatch_5xx resp E1 ltac:(lia)) as H5. rewrite Hc in H5. cbn in H5. lia.
  - intros E. apply P1 in E. lia.
Qed.
End answers.

(** A payment provider's route the addon verifies, answered with its own
    structured outcome. *)
#[local] Existing Instances ex_crypto ex_lower ex_upper ex_quote ex_json.
#[local] Instance ex_inbox_json : InboxJSON :=
  {| decode_data := fun _ => None; uuid_parse := fun _ => None;
     decode_structured := fun raw =>
       mkStructured (if Contains raw "bad" then AuthFirmaInvalida else AuthFirmaOK) "" "payment" "7" ""
         (if Contains raw "rec" then "reconciled" else "unresolved")%string "" "" "" ""
         (if Contains raw "lost" then [mkWriteFailure "mp_payments" "" "timeout"]%string else []) |}.
Definition ex_pay_route : Route := mkRoute "mp" "/webhooks/mp" VerifyAddon "" "wasm:on_payment" [] KindPayments.
Definition ex_pay_receiver (out : string) : Receiver :=
  mkReceiver {["/webhooks/mp" := ex_pay_route]}%string {["wasm" := WithResult (fun _ _ _ => Ok out)]}%string None.
Definition ex_notification : Inbound := mkInbound "/webhooks/mp" "" ∅ [] "{}".

Lemma acknowledged_notification_witness :
  let d := DispatchRequest "t" (ex_pay_receiver "{rec}") "o1" ex_notification in
  rpStatus (classify d.1).2 = 200 /\ length d.2 = 1%nat /\ rEstado (classify d.1).1 <> EstadoReintentar.
Proof.
  cbn zeta. split; [vm_compute; reflexivity|]. split; [vm_compute; reflexivity|].
  destruct (acknowledged_notification "t" (ex_pay_receiver "{rec}") "o1" ex_notification _ _ _ _
    (surjective_pairing _) (surjective_pairing _)) as (_ & _ & _ & _ & _ & _ & Hr & _); [vm_compute; reflexivity|exact Hr].
Defined.

Lemma response_policy_witness :
  let d := FromDispatch (mkResponse true 401 ∅ "{bad rec}" "" false "") None in
  rpStatus d.2 = 200 /\ rEstado d.1 = EstadoReconciliadaAPI /\ rAuth d.1 = AuthFirmaInvalida /\
  rEstado d.1 ∈ [EstadoReconciliadaAPI; EstadoIgnorada; EstadoDuplicada].
Proof.
  cbn zeta. destruct (response_policy (mkResponse true 401 ∅ "{bad rec}" "" false "") None _ _ (surjective_pairing _)) as [_ Hlt].
  split; [vm_compute; reflexivity|]. split; [vm_compute; reflexivity|]. split; [vm_compute; reflexivity|].
  destruct Hlt as (_ & _ & _ & Hs); [vm_compute; reflexivity|]. apply Hs. vm_compute. reflexivity.
Defined.

(** A lost write is answered 503, but the attempt is filed with the 200 of
    the handler. *)
Example write_failure_status :
  let '(res, reply) := FromDispatch (mkResponse false 0 ∅ "" "{lost}" false "") None in
  rpStatus reply = 503 /\ rHTTPStatus res = 200.
Proof. vm_compute. done. Qed.

(** A handler that could not resolve a payment but accepts its signature is
    answered 200: the provider will not send it again. *)
Example unresolved_acknowledged :
  let '(res, reply) := FromDispatch (mkResponse false 0 ∅ "" "{}" false "") None in
  rpStatus reply = 200 /\ rEstado res = EstadoRequiereRevision.
Proof. vm_compute. done. Qed.
