(* ===== verification/InboxRedact.v ===== *)
(** * What the payment inbox shows (payments/inbox/redact.go)

    The headers kept, the shape of a signature, and the redaction of a body:
    the two patterns as scanners, [redactValue] on decoded JSON, and what can
    no longer be found in its result. *)

From stdpp Require Import gmap.
From S2P Require Import Prelude GoStrings GoHTTP GoJSON.

(** ** Headers *)

Definition StoredHeaders : list string :=
  ["x-request-id"; "x-signature"; "stripe-signature"; "user-agent"; "content-type"; "content-length"; "cf-ray";
   "x-forwarded-for"].
Definition signatureHeaders : list string := ["x-signature"; "stripe-signature"].

(** [\[0-9a-fA-F\]]. *)
Definition is_hex (c : ascii) : bool := bool_decide (is_Some (hex_val c)).

Definition redactToken (s : string) : string :=
  if slen s <? 32 then s
  else ("[" +:+ dec_string (slen s) +:+ (if str_forall is_hex s then "h" else "c") +:+ ":" +:+ str_take 4 s +:+ "…]")%string.

Definition redact_part (p : string) : string :=
  let p := TrimSpace p in
  match cut "=" p with
  | None => redactToken p
  | Some (k, val) => (k +:+ "=" +:+ redactToken val)%string
  end.
Definition RedactSignature (v : string) : string := Join "," (map redact_part (str_split "," v)).

Section headers.
Context `{UnicodeLower}.

Definition stored_header (out : gmap string string) (kv : string * list string) : gmap string string :=
  let lk := ToLower (TrimSpace kv.1) in
  if negb (bool_decide (lk ∈ StoredHeaders)) || bool_decide (kv.2 = []) then out
  else
    let v := Join ", " kv.2 in
    let v := if bool_decide (lk ∈ signatureHeaders) then RedactSignature v else v in
    <[lk := if 512 <? slen v then str_take 512 v else v]> out.
Definition RedactHeaders (h : header) : gmap string string := foldl stored_header ∅ h.
End headers.

(** ** The patterns *)

(** [(APP_USR-|TEST-|sk_(live|test)_|whsec_)[A-Za-z0-9_-]+]. *)
Definition secret_prefixes : list string := ["APP_USR-"; "TEST-"; "sk_live_"; "sk_test_"; "whsec_"].
Definition token_char (c : ascii) : bool :=
  is_upper c || is_lower c || is_digit c || Ascii.eqb c "_" || Ascii.eqb c "-".
(** The length of the match at the head of [s], 0 when there is none. *)
Definition secret_len (s : string) : nat :=
  match List.find (HasPrefix s) secret_prefixes with
  | None => 0
  | Some p =>
      let run := (span token_char (str_drop (String.length p) s)).1 in
      if String.eqb run "" then 0 else String.length p + String.length run
  end.

(** [[0-9a-fA-F]{64}]. *)
Definition hex64_len (s : string) : nat :=
  if Nat.leb 64 (String.length s) && str_forall is_hex (str_take 64 s) then 64 else 0.

Definition redacted : string := "[redacted]".

(** [ReplaceAllString]: leftmost matches that do not overlap; [skip] bytes of
    the last match are still to be passed over. *)
Fixpoint replace_all (len : string -> nat) (skip : nat) (s : string) : string :=
  match s with
  | EmptyString => EmptyString
  | String c r =>
      match skip with
      | S k => replace_all len k r
      | O =>
          match len s with
          | O => String c (replace_all len 0 r)
          | S k => redacted +:+ replace_all len k r
          end
      end
  end.

Definition scrub (s : string) : string := replace_all hex64_len 0 (replace_all secret_len 0 s).

(** ** Bodies *)

Definition piiKeys : list string :=
  ["email"; "phone"; "first_name"; "last_name"; "name"; "identification"; "address"; "payer"; "billing_details";
   "shipping"; "customer_email"; "customer_details"; "access_token"; "client_secret"; "secret"; "authorization"].
Definition cardKeep : list string := ["last_four_digits"; "brand"; "last4"].

Section body.
Context `{UnicodeLower}.

Definition masked (key : string) (inCard : bool) : bool :=
  negb (String.eqb key "") &&
  (if inCard then negb (bool_decide (ToLower key ∈ cardKeep)) else bool_decide (ToLower key ∈ piiKeys)).

Fixpoint redactValue (v : json) (key : string) (inCard : bool) {struct v} : json :=
  if masked key inCard then JString redacted else
  match v with
  | JObject l =>
      let card := inCard || String.eqb (ToLower key) "card" in
      JObject (map (fun kv => (kv.1, redactValue kv.2 kv.1 card)) l)
  | JArray l => JArray (map (fun x => redactValue x "" inCard) l)
  | JString s => JString (scrub s)
  | v => v
  end.

Context `{BodyJSON}.

Definition unparsed (body : string) : json :=
  JObject [("_unparsed", JBool true); ("length", JNumber (dec_string (slen body)))]%string.
Definition redacted_tree (body : string) : json :=
  let trim := TrimSpace body in
  if String.eqb trim "" then JObject [] else
  match json_decode trim with Some v => redactValue v "" false | None => unparsed body end.
Definition RedactBody (body : string) : string := json_marshal (redacted_tree body).
End body.

(** ** Facts *)

(** A match of a pattern somewhere in [s]. *)
Fixpoint occurs (len : string -> nat) (s : string) : bool :=
  negb (Nat.eqb (len s) 0) || match s with EmptyString => false | String _ r => occurs len r end.

(** A pattern decided by a prefix without brackets, so that a replacement
    neither completes a match nor contains one. *)
Definition bracketless (c : ascii) : bool := negb (Ascii.eqb c "[") && negb (Ascii.eqb c "]").
Class Scannable (len : string -> nat) := {
  scan_le : forall s, (len s <= String.length s)%nat;
  scan_prefix : forall s, len s <> 0%nat ->
    exists c p, str_forall bracketless (String c p) = true /\ HasPrefix s (String c p) = true /\
      forall t, HasPrefix t (String c p) = true -> len t <> 0%nat;
  scan_word : forall n u, (n <= 8)%nat -> len (str_drop n "redacted]" +:+ u)%string = 0%nat
}.

Lemma replace_prefix len p s :
  str_forall bracketless p = true -> HasPrefix (replace_all len 0 s) p = true -> HasPrefix s p = true.
Proof.
  revert s. induction p as [|c p IH]; intros s Hp; [by destruct s|].
  cbn [str_forall] in Hp. apply andb_true_iff in Hp as [Hc Hp]. rewrite !HasPrefix_spec.
  destruct s as [|d r]; [by intros [t E]|]. cbn [replace_all]. destruct (len (String d r)) as [|k].
  - intros [t E]. injection E as -> E. destruct (proj1 (HasPrefix_spec r p)) as [u Hu].
    + apply IH; [done|]. apply HasPrefix_spec. by exists t.
    + exists u. cbn. by rewrite <- Hu.
  - intros [t E]. injection E as <- _. done.
Qed.

Lemma replace_skip len k s : (k <= String.length s)%nat -> replace_all len k s = replace_all len 0 (str_drop k s).
Proof.
  revert k. induction s as [|c r IH]; intros [|k] Hk; try done; cbn [String.length] in Hk; try lia.
  cbn [replace_all str_drop]. apply IH. lia.
Qed.

(** Wherever [len'] matches in [s], so does [len]. *)
Fixpoint covered (len len' : string -> nat) (s : string) : Prop :=
  (len' s <> 0%nat -> len s <> 0%nat) /\ match s with EmptyString => True | String _ r => covered len len' r end.

Lemma covered_drop len len' n s : covered len len' s -> covered len len' (str_drop n s).
Proof. revert s. induction n as [|n IH]; intros [|c r]; cbn [str_drop]; try done. intros [_ H]. by apply IH. Qed.

Lemma covered_self len s : covered len len s.
Proof. induction s; cbn; auto. Qed.

Lemma covered_absent len len' s : occurs len' s = false -> covered len len' s.
Proof.
  induction s as [|c r IH]; cbn; rewrite orb_false_iff, negb_false_iff; intros [E%Nat.eqb_eq ?]; rewrite ?E; auto.
Qed.

Lemma occurs_word len w u :
  (forall n, (n < String.length w)%nat -> len (str_drop n w +:+ u)%string = 0%nat) ->
  occurs len (w +:+ u)%string = occurs len u.
Proof.
  induction w as [|c w IH]; intros Hw; [done|]. cbn [String.append occurs].
  pose proof (Hw 0%nat ltac:(cbn; lia)) as E. cbn [str_drop String.append] in E. rewrite E. cbn.
  apply IH. intros n Hn. apply (Hw (S n)). cbn. lia.
Qed.

Lemma occurs_redacted len `{Scannable len} u : occurs len (redacted +:+ u)%string = occurs len u.
Proof.
  apply occurs_word. intros [|n] Hn.
  - destruct (len (str_drop 0 redacted +:+ u)%string) as [|k] eqn:E; [done|exfalso].
    destruct (scan_prefix (str_drop 0 redacted +:+ u)%string) as (c & p & Hb & Hp & _); [by rewrite E|].
    apply HasPrefix_spec in Hp as [t Et]. injection Et as <- _. done.
  - apply (scan_word n u). cbn in Hn. lia.
Qed.

(** A scan leaves no match of its pattern, nor makes one of another. *)
Lemma replace_clean len len' `{Scannable len, Scannable len'} s :
  covered len len' s -> occurs len' (replace_all len 0 s) = false.
Proof.
  remember (String.length s) as n eqn:Hn. revert s Hn. induction n as [n IH] using lt_wf_ind. intros s -> Hc.
  destruct s as [|c r].
  - pose proof (scan_le (len := len') "") as Hle. cbn in Hle |- *. by assert (len' "" = 0%nat) as -> by lia.
  - cbn [replace_all]. destruct (len (String c r)) as [|k] eqn:El.
    + cbn [occurs]. destruct Hc as [Hhead Hc]. rewrite (IH (String.length r)); [|cbn; lia|done|done]. rewrite orb_false_r.
      apply negb_false_iff, Nat.eqb_eq. destruct (len' (String c (replace_all len 0 r))) as [|m] eqn:Em; [done|exfalso].
      destruct (scan_prefix (len := len') _ ltac:(rewrite Em; done)) as (x & p & Hb & Hp & Hall).
      assert (Hs : HasPrefix (String c r) (String x p) = true).
      { apply (replace_prefix len); [done|]. cbn [replace_all]. by rewrite El. }
      by apply (Hhead (Hall _ Hs)).
    + pose proof (scan_le (len := len) (String c r)) as Hle. rewrite El in Hle. cbn [String.length] in Hle.
      rewrite occurs_redacted, replace_skip by (done || lia).
      apply (IH (String.length (str_drop k r))); [rewrite str_drop_length; cbn; lia|done|].
      destruct Hc as [_ Hc]. by apply covered_drop.
Qed.

Lemma token_char_bracketless c : token_char c = true -> bracketless c = true.
Proof.
  intros Hc. unfold bracketless. destruct (Ascii.eqb_spec c "["), (Ascii.eqb_spec c "]"); subst; done.
Qed.
Lemma is_hex_bracketless c : is_hex c = true -> bracketless c = true.
Proof.
  intros Hc. unfold bracketless. destruct (Ascii.eqb_spec c "["), (Ascii.eqb_spec c "]"); subst; done.
Qed.

Lemma secret_len_match s :
  secret_len s <> 0%nat ->
  exists p c t, p ∈ secret_prefixes /\ s = (p +:+ String c t)%string /\ token_char c = true /\
    (secret_len s <= String.length s)%nat.
Proof.
  unfold secret_len. destruct (List.find (HasPrefix s) secret_prefixes) as [p|] eqn:Ef; [|done].
  apply find_some in Ef as [Hin [t ->]%HasPrefix_spec]. rewrite str_drop_app by done.
  destruct (span token_char t) as [a b] eqn:Es. apply span_spec in Es as (-> & Ha & _). cbn [fst].
  destruct a as [|c a]; [done|]. intros _. cbn in Ha. apply andb_true_iff in Ha as [Hc _].
  exists p, c, (a +:+ b)%string. split_and!; [by apply list_elem_of_In|done|done|].
  rewrite ?str_length_app. cbn. rewrite ?str_length_app. lia.
Qed.

Lemma secret_len_prefix p c t : p ∈ secret_prefixes -> token_char c = true -> secret_len (p +:+ String c t)%string <> 0%nat.
Proof.
  intros Hp Hc. unfold secret_len.
  assert (Hf : List.find (HasPrefix (p +:+ String c t)%string) secret_prefixes = Some p).
  { unfold secret_prefixes in Hp. rewrite !elem_of_cons, elem_of_nil in Hp.
    destruct Hp as [->|[->|[->|[->|[->|[]]]]]]; by destruct t. }
  rewrite Hf, str_drop_app by done. cbn [span]. rewrite Hc. destruct (span token_char t); cbn; lia.
Qed.

#[export] Instance secret_scannable : Scannable secret_len.
Proof.
  split.
  - intros s. destruct (Nat.eq_dec (secret_len s) 0%nat) as [->|Hne]; [lia|]. by destruct (secret_len_match s Hne) as (? & ? & ? & _ & _ & _ & ?).
  - intros s Hne. destruct (secret_len_match s Hne) as (p & c & t & Hp & -> & Hc & _).
    assert (Hpb : str_forall bracketless p = true /\ exists x q, p = String x q).
    { unfold secret_prefixes in Hp. rewrite !elem_of_cons, elem_of_nil in Hp.
      destruct Hp as [->|[->|[->|[->|[->|[]]]]]]; eauto. }
    destruct Hpb as [Hpb (x & q & ->)]. exists x, (q +:+ String c "")%string.
    change (String x (q +:+ String c "")) with (String x q +:+ String c "")%string. split_and!.
    + rewrite str_forall_app, Hpb. cbn. by rewrite token_char_bracketless.
    + apply HasPrefix_spec. exists t. by rewrite str_app_assoc.
    + intros u [v ->]%HasPrefix_spec. rewrite str_app_assoc. by apply secret_len_prefix.
  - intros n u Hn. do 9 (destruct n as [|n]; [reflexivity|]). lia.
Qed.

#[export] Instance hex64_scannable : Scannable hex64_len.
Proof.
  split.
  - intros s. unfold hex64_len. destruct (Nat.leb_spec 64 (String.length s)); cbn; [|lia]. destruct (str_forall _ _); lia.
  - intros s Hne. unfold hex64_len in Hne. destruct (Nat.leb_spec 64 (String.length s)) as [Hl|]; [|done].
    destruct (str_forall is_hex (str_take 64 s)) eqn:Hh; [|done]. clear Hne.
    pose proof (str_take_length 64 s Hl) as Hlen. pose proof (str_take_drop 64 s) as Hs.
    assert (Hb : str_forall bracketless (str_take 64 s) = true).
    { revert Hh. generalize (str_take 64 s) as w. induction w as [|c w IH]; cbn; [done|].
      intros [Hc Hw]%andb_true_iff. by rewrite is_hex_bracketless, IH. }
    destruct (str_take 64 s) as [|c p] eqn:Ew; [done|]. exists c, p. split_and!; [done|apply HasPrefix_spec; eauto|].
    intros t [v ->]%HasPrefix_spec. unfold hex64_len. rewrite str_take_app by done. rewrite Hh, str_length_app, Hlen.
    by destruct (Nat.leb_spec 64 (64 + String.length v)) as [|?]; [|lia].
  - intros n u Hn. unfold hex64_len.
    assert (str_forall is_hex (str_take 64 (str_drop n "redacted]" +:+ u)%string) = false) as ->.
    { do 9 (destruct n as [|n]; [reflexivity|]). lia. }
    by rewrite andb_false_r.
Qed.

Lemma scrub_clean s : occurs secret_len (scrub s) = false /\ occurs hex64_len (scrub s) = false.
Proof.
  unfold scrub. split; apply replace_clean; try apply _; [|apply covered_self].
  apply covered_absent, replace_clean; try apply _. apply covered_self.
Qed.

(** ** What is left of a body *)

Section clean.
Context `{UnicodeLower}.

(** No secret in a text, no value under a masked key; inside a card object
    only the fields [cardKeep]. *)
Fixpoint clean (v : json) (inCard : bool) {struct v} : Prop :=
  match v with
  | JString s => s = redacted \/ (occurs secret_len s = false /\ occurs hex64_len s = false)
  | JArray l => (fix go l := match l with [] => True | x :: l => clean x inCard /\ go l end) l
  | JObject l =>
      (fix go l := match l with
       | [] => True
       | (k, x) :: l =>
           (if masked k inCard then x = JString redacted
            else clean x (inCard || match x with JObject _ => String.eqb (ToLower k) "card" | _ => false end)) /\ go l
       end) l
  | _ => True
  end.
End clean.

(** ** Theorems *)

Section theorems.
Context `{UnicodeLower, BodyJSON}.

Definition card_object (key : string) (v : json) : bool :=
  match v with JObject _ => String.eqb (ToLower key) "card" | _ => false end.

Lemma redactValue_masked v key inCard : masked key inCard = true -> redactValue v key inCard = JString redacted.
Proof. intros Hm. destruct v; cbn; by rewrite Hm. Qed.

Lemma redactValue_clean v key inCard :
  masked key inCard = false -> clean (redactValue v key inCard) (inCard || card_object key v).
Proof.
  revert key inCard. induction v as [|b|s|s|l IH|l IH] using json_induction; intros key inCard Hm; cbn [redactValue]; rewrite Hm;
    cbn [clean card_object]; rewrite ?orb_false_r; try done.
  - right. apply scrub_clean.
  - induction IH as [|x l Hx _ IHl]; cbn [map]; [done|]. split; [|done].
    specialize (Hx ""%string inCard). unfold card_object in Hx.
    assert (String.eqb (ToLower "") "card" = false) as Hk by done.
    destruct x; rewrite ?Hk, ?orb_false_r in Hx; apply Hx; done.
  - set (card := inCard || _). induction IH as [|[k x] l Hx _ IHl]; cbn [map]; [done|]. split; [|done].
    cbn [fst snd] in *. destruct (masked k card) eqn:Hk; [by apply redactValue_masked|].
    specialize (Hx k card Hk). replace (match redactValue x k card with JObject _ => String.eqb (ToLower k) "card" | _ => false end)
      with (card_object k x); [done|]. destruct x; cbn [redactValue card_object]; rewrite Hk; done.
Qed.

(** Whatever a provider sends, what the journal shows of the body holds
    no provider secret and no 64-digit hash, no value of a personal or
    credential field at any depth, and of a card object only its brand and
    last digits. *)
Theorem redacted_body_clean body : clean (redacted_tree body) false.
Proof.
  unfold redacted_tree. destruct (String.eqb (TrimSpace body) ""); [done|].
  destruct (json_decode (TrimSpace body)) as [v|]; [|by cbn].
  pose proof (redactValue_clean v "" false eq_refl) as Hc.
  assert (card_object "" v = false) as E by (by destruct v). by rewrite E in Hc.
Qed.
End theorems.

(** A card given inside an array keeps its number. *)
Example card_array_shown :
  redactValue (H := fun s => s) (JObject [("card", JArray [JObject [("number", JString "4242")]])])%string "" false =
    JObject [("card", JArray [JObject [("number", JString "4242")]])]%string /\
  redactValue (H := fun s => s) (JObject [("card", JObject [("number", JString "4242")])])%string "" false =
    JObject [("card", JObject [("number", JString redacted)])]%string.
Proof. split; vm_compute; reflexivity. Qed.
