(* ===== verification/Inbox.v ===== *)
(** * The payment inbox: the journal (payments/inbox/store.go, incidents.go, maintenance.go, schema.go)

    The two tables of the inbox beside the incidents, the statements of the
    store on them, and the operations: [Record], [Claim], [Resolve] with the
    incidents its outcome calls for, [ResolveManual], [Due] and [Purge].
    [Resolve] is several statements, so it is also given in its pieces;
    [InboxRuns] interleaves them.  Instants and durations are nanoseconds. *)

From stdpp Require Import gmap.
From S2P Require Import Prelude GoStrings GoHTTP GoJSON Signing WebhookIn InboxClassify InboxRedact Incidents.

(** ** Tables *)

(** The columns the trigger of schema.go keeps append-only. *)
Record request_cols := mkRequestCols {
  qOrg : string; qProvider : string; qRoute : string; qReceivedAt : Z; qSourceIP : string; qMethod : string;
  qQuery : gmap string (list string); qBodySHA256 : string; qBodyTruncated : bool; qBodyRedacted : string;
  qDedupeKey : string
}.

(** [Notification] with body_raw; headers and body_raw change only in a purge. *)
Record Notification := mkNotification {
  nReq : request_cols; nHeaders : gmap string string; nBodyRaw : option string;
  nResourceKind : string; nResourceID : string; nEventID : string; nAuth : string; nAuthReason : string;
  nEstado : estado; nMotivo : string; nIntentos : Z; nProximo : option Z; nProcesadaAt : option Z;
  nPaymentID : option string; nCheckoutRef : string; nIncidentID : option string; nPurgedAt : option Z; nUpdatedAt : Z
}.

Record Attempt := mkAttempt {
  aOrg : string; aStartedAt : Z; aEndedAt : option Z; aResultado : estado; aMotivo : string; aActor : string;
  aHTTPStatus : Z
}.

(** The journal by id, the attempts by notification and number. *)
Abbreviation journal := (gmap string Notification).
Abbreviation attempt_table := (gmap (string * Z) Attempt).

Record inbox_db := mkInboxDB { notifs : journal; attempts : attempt_table; incs : incidents }.

Inductive inbox_error : Type :=
| ErrNotFound | ErrOrganization | ErrProvider | ErrReason | ErrNotManual | ErrIncident (e : inc_error).

(** ** Configuration *)

Definition sec : Z := 1000000000.
Definition DefaultBackoff : list Z :=
  map (Z.mul sec) [10; 30; 120; 600; 1800; 7200; 21600; 43200; 86400].
Definition DefaultRetainRaw : Z := 90 * 24 * 3600 * sec.
Definition DefaultRetainResult : Z := 24 * 30 * 24 * 3600 * sec.
Definition DefaultDedupeWindow : Z := 3600 * sec.
Definition DefaultStaleAfter : Z := 30 * sec.
Definition MaxBodyBytes : Z := 65536.
Definition PurgeBatch : nat := 5000.

(** [Config] after the defaults; [cIncidents] is the store of incidents with
    its bridges, nil disables them. *)
Record inbox_config := mkInboxConfig {
  cIncidents : option inc_config; cBackoff : list Z; cDedupeWindow : Z; cRetainRaw : Z; cRetainResult : Z
}.
Definition NewStore (inc : option inc_config) (backoff : list Z) (window raw result : Z) : inbox_config :=
  mkInboxConfig inc (match backoff with [] => DefaultBackoff | l => l end)
    (if window <=? 0 then DefaultDedupeWindow else window)
    (if raw <=? 0 then DefaultRetainRaw else raw) (if result <=? 0 then DefaultRetainResult else result).

(** ** Record *)

(** [Request]; a zero ReceivedAt is [None]. *)
Record Request := mkRequest {
  reqOrg : string; reqProvider : string; reqRoute : string; reqMethod : string; reqQuery : gmap string (list string);
  reqHeaders : header; reqBody : string; reqSourceIP : string; reqReceivedAt : option Z
}.

(** net.SplitHostPort and netip.ParseAddr with its two tests, and the JSON of
    a query. *)
Class InboxEnv := {
  split_host : string -> option string;
  parse_addr : string -> option string;
  loopback_or_private : string -> bool;
  query_json : gmap string (list string) -> string
}.

Definition settled (e : estado) : bool :=
  match e with
  | EstadoProcesada | EstadoReconciliadaAPI | EstadoIgnorada | EstadoDuplicada | EstadoResueltaManual => true
  | _ => false
  end.
Definition in_progress (e : estado) : bool := match e with EstadoRecibida | EstadoProcesando => true | _ => false end.

(** The WHERE of [hasTwin]. *)
Definition is_twin (cfg : inbox_config) (org key : string) (now : Z) (n : Notification) : bool :=
  String.eqb (qOrg (nReq n)) org && String.eqb (qDedupeKey (nReq n)) key &&
  (now - cDedupeWindow cfg <=? qReceivedAt (nReq n)) &&
  (settled (nEstado n) || (in_progress (nEstado n) && (now - DefaultStaleAfter <=? qReceivedAt (nReq n)))).
Definition hasTwin (cfg : inbox_config) (org key : string) (now : Z) (t : journal) : bool :=
  existsb (fun p => is_twin cfg org key now p.2) (map_to_list t).

Section record.
Context `{Crypto, UnicodeLower, UnicodeUpper, BodyJSON, InboxEnv}.

Definition validIP (s : string) : string :=
  let s := TrimSpace s in
  let s := default s (split_host s) in
  default "" (parse_addr s).

(** [trusted] nil is [loopback_or_private]. *)
Definition SourceIP (remoteAddr : string) (h : header) (trusted : option (string -> bool)) : string :=
  let peer := validIP remoteAddr in
  if String.eqb peer "" then ""
  else if default loopback_or_private trusted peer then
    let cf := validIP (header_get h "CF-Connecting-IP") in
    if negb (String.eqb cf "") then cf else
    let real := validIP (header_get h "X-Real-IP") in
    if negb (String.eqb real "") then real else peer
  else peer.

Definition DedupeKey (provider route : string) (query : gmap string (list string)) (bodySHA : string) : string :=
  hex_encode (sha256 (str_join "|" [provider; route; query_json query; bodySHA])).

Definition new_notification (now : Z) (req : Request) : Notification :=
  let received := default now (reqReceivedAt req) in
  let bodySHA := hex_encode (sha256 (reqBody req)) in
  let truncated := MaxBodyBytes <? slen (reqBody req) in
  let raw := if truncated then str_take (Z.to_nat MaxBodyBytes) (reqBody req) else reqBody req in
  mkNotification
    (mkRequestCols (reqOrg req) (reqProvider req) (reqRoute req) received (validIP (reqSourceIP req))
       (method_or_post (reqMethod req)) (reqQuery req) bodySHA truncated (RedactBody raw)
       (DedupeKey (reqProvider req) (reqRoute req) (reqQuery req) bodySHA))
    (RedactHeaders (reqHeaders req)) (Some raw) "" "" "" AuthPendiente "" EstadoRecibida "" 0 None None None "" None None received.

Definition as_duplicate (n : Notification) : Notification :=
  mkNotification (nReq n) (nHeaders n) (nBodyRaw n) (nResourceKind n) (nResourceID n) (nEventID n) (nAuth n) (nAuthReason n)
    EstadoDuplicada "misma notificación ya recibida" (nIntentos n) (nProximo n) (Some (qReceivedAt (nReq n)))
    (nPaymentID n) (nCheckoutRef n) (nIncidentID n) (nPurgedAt n) (nUpdatedAt n).

(** The transaction: [hasTwin] and the insert under the twin's lock. *)
Definition Record_ (cfg : inbox_config) (now : Z) (id : string) (req : Request) (t : journal) :
    result inbox_error (Notification * journal) :=
  if String.eqb (reqOrg req) uuid_nil then Err ErrOrganization
  else if blank (reqProvider req) then Err ErrProvider
  else
    let n := new_notification now req in
    let n := if hasTwin cfg (qOrg (nReq n)) (qDedupeKey (nReq n)) (qReceivedAt (nReq n)) t then as_duplicate n else n in
    Ok (n, <[id := n]> t).
End record.

(** ** Claim *)

Definition Get (org id : string) (t : journal) : result inbox_error Notification :=
  match t !! id with
  | Some n => if String.eqb (qOrg (nReq n)) org then Ok n else Err ErrNotFound
  | None => Err ErrNotFound
  end.

Definition claimable (now : Z) (force : bool) (n : Notification) : bool :=
  match nEstado n with
  | EstadoRecibida | EstadoReintentar => true
  | EstadoProcesando => nUpdatedAt n <? now - DefaultStaleAfter
  | _ => force
  end.

Definition claimed_row (now : Z) (n : Notification) : Notification :=
  mkNotification (nReq n) (nHeaders n) (nBodyRaw n) (nResourceKind n) (nResourceID n) (nEventID n) (nAuth n) (nAuthReason n)
    EstadoProcesando (nMotivo n) (nIntentos n) None (nProcesadaAt n)
    (nPaymentID n) (nCheckoutRef n) (nIncidentID n) (nPurgedAt n) now.

Definition actor_or_system (actor : string) : string := if String.eqb actor "" then "system" else actor.

(** ON CONFLICT DO NOTHING. *)
Definition upsertAttemptStart (org id : string) (n at_ : Z) (actor : string) (t : attempt_table) : attempt_table :=
  match t !! (id, n) with Some _ => t | None => <[(id, n) := mkAttempt org at_ None EstadoProcesando "" actor 0]> t end.

(** The notification, the number of the attempt, and whether it is ours. *)
Definition Claim (now : Z) (org id actor : string) (force : bool) (db : inbox_db) :
    result inbox_error (Notification * Z * bool * inbox_db) :=
  cur ← Get org id (notifs db);
  if claimable now force cur then
    let n := claimed_row now cur in
    let attempt := nIntentos cur + 1 in
    Ok (n, attempt, true,
        mkInboxDB (<[id := n]> (notifs db))
          (upsertAttemptStart org id attempt now (actor_or_system actor) (attempts db)) (incs db))
  else Ok (cur, 0, false, db).

(** ** Resolve *)

Definition overlay (new old : string) : string := if String.eqb new "" then old else new.

(** [mergeIdentity], as far as it is used: verdict, reason, resource, order. *)
Record identity := mkIdentity { mAuth : string; mAuthReason : string; mKind : string; mRes : string; mRef : string }.
Definition mergeIdentity (cur : Notification) (r : Result) : identity :=
  mkIdentity (overlay (rAuth r) (nAuth cur)) (overlay (rAuthReason r) (nAuthReason cur))
    (overlay (rResourceKind r) (nResourceKind cur)) (overlay (rResourceID r) (nResourceID cur))
    (overlay (rCheckoutRef r) (nCheckoutRef cur)).

Definition subject (id : string) (m : identity) : string := if String.eqb (mRes m) "" then id else mRes m.

(** A statement of [applyIncidents]. *)
Inductive inc_action : Type := AOpen (p : PayInput) | AClose (fingerprint resolution : string).

Definition colon (kind p s : string) : string := (kind +:+ ":" +:+ p +:+ ":" +:+ s)%string.

Definition failures_detail (l : list WriteFailure) : string :=
  Join "; " (map (fun w => (wfTable w +:+ ": " +:+ wfCause w)%string) l).

(** The incidents the outcome calls for ([want]). *)
Definition wanted (id : string) (cur : Notification) (m : identity) (r : Result) : list PayInput :=
  let P := qProvider (nReq cur) in
  let S := subject id m in
  let add kind sev fp title hint detail :=
    mkPayInput (qOrg (nReq cur)) P kind sev fp (mRes m) (mRef m) (rAmount r) (rCurrency r) title hint detail (Some id) in
  (if String.eqb (mAuth m) AuthFirmaInvalida then
     [add KindSignatureInvalid SeverityHigh (KindSignatureInvalid +:+ ":" +:+ P)%string
        (P +:+ ": la firma del webhook no coincide")%string
        "El proveedor firma con otra clave: actualiza el secreto del webhook del conector"%string (mAuthReason m)]
   else if String.eqb (mAuth m) AuthFirmaOK && String.eqb (mAuthReason m) AuthReasonMatchedPrevious then
     [add KindSignatureInvalid SeverityLow ("signature_previous_key:" +:+ P)%string
        (P +:+ ": el proveedor sigue firmando con la clave anterior")%string
        "Actualiza el secreto del webhook; la clave anterior caduca en 72 h"%string ""%string]
   else []) ++
  match rEstado r with
  | EstadoRequiereRevision =>
      [add KindNotificationUnresolve SeverityHigh (colon KindNotificationUnresolve P S)
         (P +:+ ": aviso de pago sin resolver")%string "Revisa el aviso y pulsa «Reconciliar ahora»"%string (rMotivo r)]
  | EstadoReintentar =>
      if String.eqb (mAuth m) AuthFirmaInvalida then
        [add KindNotificationUnresolve SeverityHigh (colon KindNotificationUnresolve P S)
           (P +:+ ": pago sin conciliar (firma inválida y el proveedor no respondió)")%string
           "Se reintenta solo; si persiste, pulsa «Reconciliar ahora»"%string (rMotivo r)]
      else []
  | EstadoDeadLetter =>
      let sev := if String.eqb (mKind m) "payment" || String.eqb (mKind m) "" then SeverityHigh else SeverityMedium in
      [add KindDeadLetter sev (colon KindDeadLetter P S)
         (P +:+ ": aviso de pago agotó los reintentos")%string "Pulsa «Reprocesar» o «Reconciliar ahora»"%string (rMotivo r)]
  | _ => []
  end ++
  match rWriteFailures r with
  | [] => []
  | l => [add KindPaymentWriteFailed SeverityHigh (colon KindPaymentWriteFailed P S)
            (P +:+ ": no se pudo escribir el pago")%string "Se reintenta solo; revisa la causa"%string (failures_detail l)]
  end.

(** The fingerprints the outcome closes, with their reasons. *)
Definition closes (id : string) (cur : Notification) (m : identity) (r : Result) : list inc_action :=
  let P := qProvider (nReq cur) in
  let S := subject id m in
  (if settled (rEstado r) then
     map (fun k => AClose (colon k P S) "aviso conciliado"%string)
       [KindNotificationUnresolve; KindDeadLetter; KindPaymentWriteFailed]
   else []) ++
  (if String.eqb (mAuth m) AuthFirmaOK && negb (String.eqb (mAuthReason m) AuthReasonMatchedPrevious) then
     map (fun fp => AClose fp "la firma volvió a coincidir"%string)
       [(KindSignatureInvalid +:+ ":" +:+ P)%string; ("signature_previous_key:" +:+ P)%string]
   else []).

Definition plan (cfg : inbox_config) (id : string) (cur : Notification) (m : identity) (r : Result) : list inc_action :=
  match cIncidents cfg with None => [] | Some _ => map AOpen (wanted id cur m r) ++ closes id cur m r end.

(** A [Resolve] past its Get: the row it read, the outcome it will store, the
    number of the attempt, the next try, its clock, the incident statements
    still to run and the incident to link. *)
Record ticket := mkTicket {
  tkOrg : string; tkID : string; tkCur : Notification; tkResult : Result; tkAttempt : Z; tkNext : option Z; tkNow : Z;
  tkTodo : list inc_action; tkLink : option string
}.

Definition with_outcome (r : Result) (e : estado) (motivo : string) : Result :=
  mkResult (rAuth r) (rAuthReason r) (rResourceKind r) (rResourceID r) (rEventID r) e motivo (rPaymentID r)
    (rCheckoutRef r) (rHTTPStatus r) (actor_or_system (rActor r)) (rRetryAfter r) (rWriteFailures r) (rAmount r) (rCurrency r).

(** The first half of [Resolve]; [jitter] draws the spread of a backoff step. *)
Definition begin_resolve (cfg : inbox_config) (now : Z) (jitter : Z -> Z) (org id : string) (r : Result) (db : inbox_db) :
    result inbox_error ticket :=
  cur ← Get org id (notifs db);
  let attempt := nIntentos cur + 1 in
  let '(r, next) :=
    if bool_decide (rEstado r = EstadoReintentar) then
      if Z.of_nat (length (cBackoff cfg)) <? attempt
      then (with_outcome r EstadoDeadLetter (TrimSpace ("reintentos agotados: " +:+ rMotivo r)), None)
      else
        let d := if rRetryAfter r <=? 0 then jitter (nth (Z.to_nat (attempt - 1)) (cBackoff cfg) 0) else rRetryAfter r in
        (with_outcome r EstadoReintentar (rMotivo r), Some (now + d))
    else (with_outcome r (rEstado r) (rMotivo r), None) in
  let m := mergeIdentity cur r in
  Ok (mkTicket org id cur r attempt next now (plan cfg id cur m r) None).

(** One statement of [applyIncidents]; the link is the first incident opened. *)
Definition run_action (cfg : inbox_config) (now : Z) (ids : list string) (tk : ticket) (db : inbox_db) :
    result inbox_error (ticket * inbox_db * list bridged) :=
  let rest todo link := mkTicket (tkOrg tk) (tkID tk) (tkCur tk) (tkResult tk) (tkAttempt tk) (tkNext tk) (tkNow tk) todo link in
  match tkTodo tk, cIncidents cfg with
  | AOpen p :: todo, Some icfg =>
      match Open icfg now ids (pay_input p) (incs db) with
      | Ok (u, t, sent) =>
          Ok (rest todo (Some (default (uID u) (tkLink tk))), mkInboxDB (notifs db) (attempts db) t, sent)
      | Err e => Err (ErrIncident e)
      end
  | AClose fp why :: todo, Some _ =>
      let '(_, t) := CloseByFingerprint now (qOrg (nReq (tkCur tk))) DomainPayments fp why (incs db) in
      Ok (rest todo (tkLink tk), mkInboxDB (notifs db) (attempts db) t, [])
  | _, _ => Ok (tk, db, [])
  end.

Definition pending_estado (e : estado) : bool :=
  match e with EstadoReintentar | EstadoProcesando | EstadoRecibida => true | _ => false end.

(** The UPDATE of the row. *)
Definition resolved_row (tk : ticket) (n : Notification) : Notification :=
  let r := tkResult tk in
  mkNotification (nReq n) (nHeaders n) (nBodyRaw n)
    (overlay (rResourceKind r) (nResourceKind n)) (overlay (rResourceID r) (nResourceID n)) (overlay (rEventID r) (nEventID n))
    (overlay (rAuth r) (nAuth n)) (overlay (rAuthReason r) (nAuthReason n))
    (rEstado r) (truncate (rMotivo r) 500) (tkAttempt tk) (tkNext tk)
    (if pending_estado (rEstado r) then nProcesadaAt n else Some (tkNow tk))
    (match rPaymentID r with Some p => Some p | None => nPaymentID n end)
    (overlay (rCheckoutRef r) (nCheckoutRef n))
    (match tkLink tk with Some i => Some i | None => nIncidentID n end) (nPurgedAt n) (tkNow tk).

Definition end_attempt (tk : ticket) (a : Attempt) : Attempt :=
  mkAttempt (aOrg a) (aStartedAt a) (Some (tkNow tk)) (rEstado (tkResult tk)) (truncate (rMotivo (tkResult tk)) 500) (aActor a)
    (rHTTPStatus (tkResult tk)).

(** The transaction that ends [Resolve]. *)
Definition commit_resolve (tk : ticket) (db : inbox_db) : inbox_db :=
  let t := match Get (tkOrg tk) (tkID tk) (notifs db) with
           | Ok n => <[tkID tk := resolved_row tk n]> (notifs db)
           | Err _ => notifs db
           end in
  let a := upsertAttemptStart (tkOrg tk) (tkID tk) (tkAttempt tk) (qReceivedAt (nReq (tkCur tk))) (rActor (tkResult tk)) (attempts db) in
  mkInboxDB t (alter (end_attempt tk) (tkID tk, tkAttempt tk) a) (incs db).

(** [applyIncidents] and [Resolve], when nothing runs in between: [ids] are
    the uuids drawn by each statement. *)
Fixpoint run_actions (cfg : inbox_config) (now : Z) (ids : list (list string)) (tk : ticket) (db : inbox_db) (fuel : nat) :
    result inbox_error (ticket * inbox_db * list bridged) :=
  match fuel, tkTodo tk with
  | S fuel, _ :: _ =>
      '(tk, db, sent) ← run_action cfg now (default [] (head ids)) tk db;
      '(tk, db, sent') ← run_actions cfg now (tail ids) tk db fuel;
      Ok (tk, db, sent ++ sent')
  | _, _ => Ok (tk, db, [])
  end.
Definition Resolve (cfg : inbox_config) (now : Z) (jitter : Z -> Z) (ids : list (list string)) (org id : string) (r : Result)
    (db : inbox_db) : result inbox_error (Notification * inbox_db * list bridged) :=
  tk ← begin_resolve cfg now jitter org id r db;
  '(tk, db, sent) ← run_actions cfg now ids tk db (length (tkTodo tk));
  let db := commit_resolve tk db in
  n ← Get org id (notifs db);
  Ok (n, db, sent).

(** The checks of [ResolveManual], and the result it resolves with. *)
Definition manual_allowed (e : estado) : bool :=
  match e with EstadoRequiereRevision | EstadoDeadLetter => true | _ => false end.
Definition manual_result (by_ reason : string) : Result :=
  mkResult "" "" "" "" "" EstadoResueltaManual reason None "" 0 by_ 0 [] "" "".
Definition ResolveManual_check (org id by_ reason : string) (db : inbox_db) : result inbox_error Result :=
  if blank reason then Err ErrReason else
  cur ← Get org id (notifs db);
  if manual_allowed (nEstado cur) then Ok (manual_result by_ reason) else Err ErrNotManual.
Definition ResolveManual (cfg : inbox_config) (now : Z) (jitter : Z -> Z) (ids : list (list string)) (org id by_ reason : string)
    (db : inbox_db) : result inbox_error (Notification * inbox_db * list bridged) :=
  r ← ResolveManual_check org id by_ reason db; Resolve cfg now jitter ids org id r db.

(** ** Due *)

Definition due (now : Z) (n : Notification) : bool :=
  (bool_decide (nEstado n = EstadoReintentar) && match nProximo n with Some t => t <=? now | None => false end) ||
  (in_progress (nEstado n) && (nUpdatedAt n <? now - DefaultStaleAfter)).

Fixpoint insert_oldest (p : string * Notification) (l : list (string * Notification)) : list (string * Notification) :=
  match l with
  | [] => [p]
  | q :: l => if qReceivedAt (nReq p.2) <=? qReceivedAt (nReq q.2) then p :: q :: l else q :: insert_oldest p l
  end.
Definition Due (now limit : Z) (t : journal) : list (string * Notification) :=
  let limit := if limit <=? 0 then 50 else limit in
  take (Z.to_nat limit) (foldr insert_oldest [] (List.filter (fun p => due now p.2) (map_to_list t))).

(** ** Purge *)

(** The states a purge may touch. *)
Definition purgeable (e : estado) : bool := settled e.

Definition blankable (cfg : inbox_config) (now : Z) (n : Notification) : bool :=
  (qReceivedAt (nReq n) <? now - cRetainRaw cfg) && bool_decide (nPurgedAt n = None) && purgeable (nEstado n).
Definition deletable (cfg : inbox_config) (now : Z) (n : Notification) : bool :=
  (qReceivedAt (nReq n) <? now - cRetainResult cfg) && purgeable (nEstado n).

Definition blanked (now : Z) (n : Notification) : Notification :=
  mkNotification (nReq n) ∅ None (nResourceKind n) (nResourceID n) (nEventID n) (nAuth n) (nAuthReason n)
    (nEstado n) (nMotivo n) (nIntentos n) (nProximo n) (nProcesadaAt n) (nPaymentID n) (nCheckoutRef n) (nIncidentID n)
    (Some now) (nUpdatedAt n).

(** Some rows of a WHERE with LIMIT: the database picks which. *)
Definition picks (p : Notification -> bool) (t : journal) (s : gset string) : Prop :=
  (size s <= PurgeBatch)%nat /\ forall id, id ∈ s -> exists n, t !! id = Some n /\ p n = true.

(** The three statements on the rows picked by each: [old] is a subquery, so
    the deletes of the attempts and of the rows each pick their own. *)
Definition Purge (now : Z) (blank_ids attempt_ids old_ids : gset string) (db : inbox_db) : inbox_db :=
  mkInboxDB
    (map_imap (fun id n =>
       if bool_decide (id ∈ old_ids) then None
       else if bool_decide (id ∈ blank_ids) then Some (blanked now n) else Some n) (notifs db))
    (map_imap (fun k a => if bool_decide (k.1 ∈ attempt_ids) then None else Some a) (attempts db))
    (incs db).

(** ** Reads *)

Record inbox_filter := mkInboxFilter {
  ifOrg : string; ifProvider : string; ifEstados : list estado; ifAuth : string; ifResourceID : string;
  ifFrom : option Z; ifTo : option Z
}.
Definition filtered (f : inbox_filter) (n : Notification) : bool :=
  String.eqb (qOrg (nReq n)) (ifOrg f) && unless_empty (ifProvider f) (qProvider (nReq n)) &&
  (bool_decide (ifEstados f = []) || bool_decide (nEstado n ∈ ifEstados f)) &&
  unless_empty (ifAuth f) (nAuth n) && unless_empty (ifResourceID f) (nResourceID n) &&
  match ifFrom f with Some t => t <=? qReceivedAt (nReq n) | None => true end &&
  match ifTo f with Some t => qReceivedAt (nReq n) <? t | None => true end.

(** [Raw] and [Attempts]. *)
Definition Raw (org id : string) (t : journal) : result inbox_error (option string * bool) :=
  n ← Get org id t; Ok (nBodyRaw n, qBodyTruncated (nReq n)).

(** [Stats]: the open rows of a state, and the invalid signatures of the last
    24 hours of a provider. *)
Definition count_rows (p : Notification -> bool) (t : journal) : Z :=
  Z.of_nat (length (List.filter (fun x => p x.2) (map_to_list t))).
Definition Stats_ByEstado (org : string) (e : estado) (t : journal) : option Z :=
  if bool_decide (e ∈ OpenEstados) then
    let n := count_rows (fun n => String.eqb (qOrg (nReq n)) org && bool_decide (nEstado n = e)) t in
    if n =? 0 then None else Some n
  else None.
Definition Stats_InvalidSignature24h (now : Z) (org provider : string) (t : journal) : option Z :=
  let n := count_rows (fun n => String.eqb (qOrg (nReq n)) org && String.eqb (nAuth n) AuthFirmaInvalida &&
             (now - 24 * 3600 * sec <=? qReceivedAt (nReq n)) && String.eqb (qProvider (nReq n)) provider) t in
  if n =? 0 then None else Some n.

(** A cell of [Export]: a leading formula sign is quoted. *)
Definition csv_cell (c : string) : string :=
  match c with
  | String x _ => if Ascii.eqb x "=" || Ascii.eqb x "+" || Ascii.eqb x "-" || Ascii.eqb x "@" then String "'" c else c
  | EmptyString => c
  end.
