(* ===== verification/InboxRuns.v ===== *)
(** * The payment inbox: any interleaving

    Any number of requests, workers, people and purges on the tables of
    [Inbox]: a [Resolve] reads, runs its incident statements one by one and
    commits, and may stop anywhere.  What then holds of every notification. *)

From stdpp Require Import gmap.
From S2P Require Import Prelude GoStrings GoHTTP GoJSON Signing WebhookIn InboxClassify InboxRedact Incidents Inbox.

(** ** Steps *)

(** A [Resolve] in progress. *)
Inductive proc : Type := PStart (org id : string) (r : Result) | PTicket (tk : ticket).

(** The tables, the [Resolve]s in progress, the ids ever recorded, and the
    time of the last claim of each row not resolved since. *)
Record inbox_world := mkInboxWorld {
  w_db : inbox_db; w_procs : list proc; w_used : gset string; w_held : gmap string Z
}.

(** What others do to the incidents. *)
Inductive inc_change (t : incidents) : incidents -> Prop :=
| CNone : inc_change t t
| COpen cfg now ids a u t' sent : Open cfg now ids a t = Ok (u, t', sent) -> inc_change t t'
| CAck now org id by_ t' : Acknowledge now org id by_ t = Ok t' -> inc_change t t'
| CResolve now org id by_ why t' : Incidents.Resolve now org id by_ why t = Ok t' -> inc_change t t'
| CClose now org domain fp why : inc_change t (CloseByFingerprint now org domain fp why t).2.

Section runs.
Context `{Crypto, UnicodeLower, UnicodeUpper, BodyJSON, InboxEnv}.
Variable cfg : inbox_config.

Inductive inbox_step : inbox_world -> inbox_world -> Prop :=
| SRecord db ps us hd now id req n t :
    id ∉ us -> Record_ cfg now id req (notifs db) = Ok (n, t) ->
    inbox_step (mkInboxWorld db ps us hd) (mkInboxWorld (mkInboxDB t (attempts db) (incs db)) ps ({[id]} ∪ us) hd)
| SClaim db ps us hd now org id actor force n k ok db' :
    Claim now org id actor force db = Ok (n, k, ok, db') ->
    inbox_step (mkInboxWorld db ps us hd) (mkInboxWorld db' ps us (if ok : bool then <[id := now]> hd else hd))
| SStart db ps us hd org id r : inbox_step (mkInboxWorld db ps us hd) (mkInboxWorld db (PStart org id r :: ps) us hd)
| SManual db ps us hd org id by_ reason r :
    ResolveManual_check org id by_ reason db = Ok r ->
    inbox_step (mkInboxWorld db ps us hd) (mkInboxWorld db (PStart org id r :: ps) us hd)
| SBegin db ps ps' us hd now jitter org id r tk :
    ps ≡ₚ PStart org id r :: ps' -> begin_resolve cfg now jitter org id r db = Ok tk ->
    inbox_step (mkInboxWorld db ps us hd) (mkInboxWorld db (PTicket tk :: ps') us hd)
| SAct db db' ps ps' us hd now ids tk tk' sent :
    ps ≡ₚ PTicket tk :: ps' -> run_action cfg now ids tk db = Ok (tk', db', sent) ->
    inbox_step (mkInboxWorld db ps us hd) (mkInboxWorld db' (PTicket tk' :: ps') us hd)
| SCommit db ps ps' us hd tk :
    ps ≡ₚ PTicket tk :: ps' -> tkTodo tk = [] ->
    inbox_step (mkInboxWorld db ps us hd) (mkInboxWorld (commit_resolve tk db) ps' us (delete (tkID tk) hd))
| SStop db ps p ps' us hd :
    ps ≡ₚ p :: ps' -> inbox_step (mkInboxWorld db ps us hd) (mkInboxWorld db ps' us hd)
| SPurge db ps us hd now s1 s2 s3 :
    picks (blankable cfg now) (notifs db) s1 -> picks (deletable cfg now) (notifs db) s2 ->
    picks (deletable cfg now) (notifs db) s3 ->
    inbox_step (mkInboxWorld db ps us hd) (mkInboxWorld (Purge now s1 s2 s3 db) ps us hd)
| SIncident db ps us hd t :
    inc_change (incs db) t ->
    inbox_step (mkInboxWorld db ps us hd) (mkInboxWorld (mkInboxDB (notifs db) (attempts db) t) ps us hd).

Definition empty_inbox : inbox_world := mkInboxWorld (mkInboxDB ∅ ∅ ∅) [] ∅ ∅.

(** ** Incidents only accumulate *)

Definition inc_grows (t t' : incidents) : Prop :=
  forall i r, t !! i = Some r -> exists r', t' !! i = Some r' /\ same_problem r r'.

Lemma inc_grows_refl t : inc_grows t t.
Proof. intros i r Hr. exists r. by repeat split. Qed.

Lemma table_stays_grows t t' : table_stays t t' -> inc_grows t t'.
Proof. intros Hs i r Hr. specialize (Hs i). rewrite Hr in Hs. destruct Hs as (r' & ? & (? & _)). eauto. Qed.

Lemma insert_grows t i r r' :
  (forall c, t !! i = Some c -> same_problem c r') -> r = r' -> inc_grows t (<[i := r]> t).
Proof.
  intros Hs -> j c Hc. destruct (decide (j = i)) as [->|Hne].
  - rewrite lookup_insert_eq. eauto.
  - rewrite lookup_insert_ne by done. exists c. by repeat split.
Qed.

Lemma upsert_grows now id a t u t' :
  upsert now id a t = Ok (u, t') ->
  inc_grows t t' /\ t' !! uID u = Some (uRow u) /\
  iOrg (uRow u) = inOrg a /\ iDomain (uRow u) = inDomain a /\ iFingerprint (uRow u) = inFingerprint a.
Proof.
  unfold upsert. destruct (find_open _ _ _ t) as [[i cur]|] eqn:Hf.
  - intros [= <- <-]. apply find_open_Some in Hf as [Hi (E1 & E2 & E3 & _)%matches_spec].
    split; [|split; [apply lookup_insert_eq|done]].
    eapply insert_grows; [|done]. intros c Hc. rewrite Hi in Hc. injection Hc as <-. by repeat split.
  - destruct (insert_open id _ t) as [t1|] eqn:Hi; [|done]. intros [= <- <-]. apply insert_open_Ok in Hi as (Hn & -> & _).
    split; [|split; [apply lookup_insert_eq|done]].
    eapply insert_grows; [|done]. intros c Hc. congruence.
Qed.

Lemma open_loop_upsert k now ids a t u t' :
  open_loop k now ids a t = Ok (u, t') -> exists id, upsert now id a t = Ok (u, t').
Proof.
  revert ids. induction k as [|k IH]; intros [|id ids]; cbn; try done.
  destruct (upsert now id a t) as [[u1 t1]|[]] eqn:E; intros Ho; try done; [injection Ho as -> ->; eauto|].
  destruct k; [done|]. by apply IH in Ho.
Qed.

Lemma Open_grows icfg now ids a t u t' sent :
  Open icfg now ids a t = Ok (u, t', sent) ->
  inc_grows t t' /\ t' !! uID u = Some (uRow u) /\ iOrg (uRow u) = inOrg a /\
  (inFingerprint a <> ""%string -> iFingerprint (uRow u) = inFingerprint a).
Proof.
  unfold Open. destruct (normalize a) as [a'|] eqn:En; [|done]. cbn [mbind result_bind].
  destruct (open_loop 3 now ids a' t) as [[u1 t1]|] eqn:Eo; [|done]. intros [= -> -> _].
  apply open_loop_upsert in Eo as [id Eu]. apply upsert_grows in Eu as (Hg & Hl & E1 & _ & E3).
  unfold normalize in En. repeat case_match; try done; injection En as <-; cbn in *; (split_and!; [done..|]);
    intros Hne; rewrite E3; try done.
  all: match goal with E : String.eqb _ "" = true |- _ => by apply String.eqb_eq in E end.
Qed.

Lemma inc_change_grows t t' : inc_change t t' -> inc_grows t t'.
Proof.
  intros Hc. destruct Hc.
  - apply inc_grows_refl.
  - by eapply Open_grows.
  - eapply table_stays_grows, Acknowledge_stays; eassumption.
  - eapply table_stays_grows, Resolve_stays; eassumption.
  - apply table_stays_grows, closeQ_stays.
Qed.

(** ** The invariant *)

(** Some incident of the organization has the fingerprint; the link is to an
    incident of the organization with one of the fingerprints. *)
Definition on_record (t : incidents) (org fp : string) : Prop :=
  exists i inc, t !! i = Some inc /\ iOrg inc = org /\ iFingerprint inc = fp.
Definition linked (t : incidents) (org : string) (fps : list string) (link : option string) : Prop :=
  exists i inc, link = Some i /\ t !! i = Some inc /\ iOrg inc = org /\ iFingerprint inc ∈ fps.

(** The subject of a notification that carries the resource [res]. *)
Definition subject_of (id res : string) : string := if String.eqb res "" then id else res.
(** The incidents a notification under review may be linked to: its own, or
    its provider's signature incident, which is opened first. *)
Definition review_fps (k provider s : string) : list string :=
  [(KindSignatureInvalid +:+ ":" +:+ provider)%string; ("signature_previous_key:" +:+ provider)%string; colon k provider s].

(** The kind of the incident each review state needs. *)
Definition review_kind (e : estado) : option string :=
  match e with
  | EstadoRequiereRevision => Some KindNotificationUnresolve
  | EstadoDeadLetter => Some KindDeadLetter
  | _ => None
  end.

(** [known id res]: the notification has carried the resource id. *)
Implicit Type known : string -> string -> Prop.

Record row_ok known (t : incidents) (id : string) (n : Notification) : Prop := mkRowOk {
  ro_intentos : 0 <= nIntentos n;
  ro_retry : nEstado n = EstadoReintentar -> is_Some (nProximo n) /\ nIntentos n <= Z.of_nat (length (cBackoff cfg));
  ro_review : is_Some (cIncidents cfg) -> forall k, review_kind (nEstado n) = Some k ->
    exists res, known id res /\ let s := subject_of id res in
      on_record t (qOrg (nReq n)) (colon k (qProvider (nReq n)) s) /\
      linked t (qOrg (nReq n)) (review_fps k (qProvider (nReq n)) s) (nIncidentID n)
}.

(** Opened already, or still to be. *)
Definition opened_or_todo (t : incidents) (tk : ticket) (fp : string) : Prop :=
  on_record t (tkOrg tk) fp \/ exists p, AOpen p ∈ tkTodo tk /\ pFingerprint p = fp.
Definition linked_or_todo (t : incidents) (tk : ticket) (fps : list string) : Prop :=
  linked t (tkOrg tk) fps (tkLink tk) \/
  (tkLink tk = None /\ exists p todo, tkTodo tk = AOpen p :: todo /\ pFingerprint p ∈ fps).

Record ticket_ok known (db : inbox_db) (used : gset string) (tk : ticket) : Prop := mkTicketOk {
  to_used : tkID tk ∈ used;
  to_same : forall n, notifs db !! tkID tk = Some n -> nReq n = nReq (tkCur tk);
  to_org : qOrg (nReq (tkCur tk)) = tkOrg tk;
  to_attempt : 0 <= tkAttempt tk;
  to_retry : rEstado (tkResult tk) = EstadoReintentar ->
    is_Some (tkNext tk) /\ tkAttempt tk <= Z.of_nat (length (cBackoff cfg));
  to_todo : forall p, AOpen p ∈ tkTodo tk -> pOrg p = tkOrg tk /\ pFingerprint p <> ""%string;
  to_review : is_Some (cIncidents cfg) -> forall k, review_kind (rEstado (tkResult tk)) = Some k ->
    exists res, (if String.eqb (rResourceID (tkResult tk)) "" then known (tkID tk) res else res = rResourceID (tkResult tk)) /\
      let P := qProvider (nReq (tkCur tk)) in let s := subject_of (tkID tk) res in
      opened_or_todo (incs db) tk (colon k P s) /\ linked_or_todo (incs db) tk (review_fps k P s)
}.

Record inbox_inv known (w : inbox_world) : Prop := mkInboxInv {
  ii_rows : forall id n, notifs (w_db w) !! id = Some n -> row_ok known (incs (w_db w)) id n;
  ii_used : forall id n, notifs (w_db w) !! id = Some n -> id ∈ w_used w;
  ii_tickets : forall tk, PTicket tk ∈ w_procs w -> ticket_ok known (w_db w) (w_used w) tk;
  ii_held : forall id t, w_held w !! id = Some t ->
    exists n, notifs (w_db w) !! id = Some n /\ nEstado n = EstadoProcesando /\ nUpdatedAt n = t
}.
Definition resources_known known (t : journal) : Prop := forall id n, t !! id = Some n -> known id (nResourceID n).

Lemma on_record_grows t t' org fp : inc_grows t t' -> on_record t org fp -> on_record t' org fp.
Proof.
  intros Hg (i & r & Hr & Ho & Hf). destruct (Hg i r Hr) as (r' & Hr' & (E1 & _ & E3)). exists i, r'. split_and!; congruence.
Qed.
Lemma linked_grows t t' org fps l : inc_grows t t' -> linked t org fps l -> linked t' org fps l.
Proof.
  intros Hg (i & r & Hl & Hr & Ho & Hf). destruct (Hg i r Hr) as (r' & Hr' & (E1 & _ & E3)). exists i, r'. split_and!; congruence.
Qed.

Definition known_grows known known' : Prop := forall id res, known id res -> known' id res.

Lemma row_ok_grows known known' t t' id n :
  known_grows known known' -> inc_grows t t' -> row_ok known t id n -> row_ok known' t' id n.
Proof.
  intros Hk' Hg [R1 R2 R3]. split; [done|done|]. intros Hc k Hk. destruct (R3 Hc k Hk) as (res & Hres & HS & Hl).
  exists res. split; [by apply Hk'|]. split; [by eapply on_record_grows|by eapply linked_grows].
Qed.

(** A ticket stays fine while incidents accumulate and rows keep their
    request. *)
Lemma ticket_ok_mono known known' db db' us us' tk :
  known_grows known known' -> inc_grows (incs db) (incs db') -> us ⊆ us' ->
  (forall n', notifs db' !! tkID tk = Some n' -> exists n, notifs db !! tkID tk = Some n /\ nReq n' = nReq n) ->
  ticket_ok known db us tk -> ticket_ok known' db' us' tk.
Proof.
  intros Hk' Hg Hu Hn [T1 T2 T3 T4 T5 T6 T7]. split; try done.
  - set_solver.
  - intros n' Hn'. destruct (Hn n' Hn') as (n & Hnn & ->). by apply T2.
  - intros Hc k Hk. destruct (T7 Hc k Hk) as (res & Hres & HS & Hl). exists res. cbv zeta in *. split_and!.
    + destruct (String.eqb _ ""); [by apply Hk'|done].
    + destruct HS as [HS|HS]; [left; by eapply on_record_grows|by right].
    + destruct Hl as [Hl|Hl]; [left; by eapply linked_grows|by right].
Qed.

Lemma Get_Ok org id t n : Inbox.Get org id t = Ok n <-> t !! id = Some n /\ qOrg (nReq n) = org.
Proof.
  unfold Inbox.Get. destruct (t !! id) as [m|]; [|naive_solver]. destruct (String.eqb_spec (qOrg (nReq m)) org); naive_solver.
Qed.

(** *** What each operation does to the rows *)

Lemma Record_ok now id req t n t' :
  Record_ cfg now id req t = Ok (n, t') ->
  t' = <[id := n]> t /\ nIntentos n = 0 /\ nEstado n ∈ [EstadoRecibida; EstadoDuplicada].
Proof.
  unfold Record_. destruct (String.eqb _ _); [done|]. destruct (blank _); [done|]. cbn zeta.
  destruct (hasTwin _ _ _ _ _); intros [= <- <-]; cbn; (split_and!; [done..|]); rewrite !elem_of_cons; auto.
Qed.

Lemma Record_row_ok known t id n : nIntentos n = 0 -> nEstado n ∈ [EstadoRecibida; EstadoDuplicada] -> row_ok known t id n.
Proof.
  intros Hi He. rewrite !elem_of_cons, elem_of_nil in He. split; [lia| |]; destruct He as [->|[->|[]]]; done.
Qed.

Lemma wanted_review id cur m r k :
  review_kind (rEstado r) = Some k ->
  exists p, p ∈ wanted id cur m r /\ pFingerprint p = colon k (qProvider (nReq cur)) (subject id m).
Proof.
  intros Hk. unfold wanted. destruct (rEstado r); cbn in Hk; try done; injection Hk as <-;
    eexists; (split; [rewrite elem_of_app, elem_of_app; right; left; apply list_elem_of_singleton; reflexivity|done]).
Qed.

(** The first incident opened is the notification's own, or its provider's
    signature incident. *)
Lemma wanted_first id cur m r k :
  review_kind (rEstado r) = Some k ->
  exists p rest, wanted id cur m r = p :: rest /\ pFingerprint p ∈ review_fps k (qProvider (nReq cur)) (subject id m).
Proof.
  intros Hk. unfold wanted, review_fps.
  destruct (String.eqb (mAuth m) AuthFirmaInvalida); [eexists _, _; split; [reflexivity|by left]|].
  destruct (String.eqb (mAuth m) AuthFirmaOK && _); [eexists _, _; split; [reflexivity|right; by left]|].
  cbn [app]. destruct (rEstado r); cbn in Hk; try done; injection Hk as <-; eexists _, _; (split; [reflexivity|right; right; by left]).
Qed.

Lemma wanted_org id cur m r p : p ∈ wanted id cur m r -> pOrg p = qOrg (nReq cur) /\ pFingerprint p <> ""%string.
Proof.
  unfold wanted. rewrite !elem_of_app. intros [Hp|[Hp|Hp]]; repeat case_match;
    rewrite ?list_elem_of_singleton, ?elem_of_nil in Hp; try done; subst p; done.
Qed.

Lemma plan_opens id cur m r p : AOpen p ∈ plan cfg id cur m r -> p ∈ wanted id cur m r.
Proof.
  unfold plan. destruct (cIncidents cfg); [|by rewrite elem_of_nil]. rewrite elem_of_app. intros [Hp|Hp].
  - apply list_elem_of_fmap in Hp as (q & [= ->] & Hq). done.
  - exfalso. unfold closes in Hp. repeat case_match; cbn in Hp; rewrite ?elem_of_cons, ?elem_of_nil in Hp;
      destruct_or?; congruence.
Qed.

Lemma to_org_row known db us tk n : ticket_ok known db us tk -> notifs db !! tkID tk = Some n -> qOrg (nReq n) = tkOrg tk.
Proof. intros Ht Hn. by rewrite (to_same _ _ _ _ Ht n Hn), (to_org _ _ _ _ Ht). Qed.

Lemma begin_resolve_ok known us now jitter org id r db tk :
  begin_resolve cfg now jitter org id r db = Ok tk ->
  (forall i n, notifs db !! i = Some n -> row_ok known (incs db) i n) -> (forall i n, notifs db !! i = Some n -> i ∈ us) ->
  resources_known known (notifs db) -> ticket_ok known db us tk.
Proof.
  unfold begin_resolve. destruct (Inbox.Get org id (notifs db)) as [cur|] eqn:Hg; [|done]. cbn [mbind result_bind].
  apply Get_Ok in Hg as [Hcur Horg]. intros Hb Hrows Hused Hknown. pose proof (ro_intentos _ _ _ _ (Hrows _ _ Hcur)) as Hi.
  match type of Hb with (let '(_, _) := ?x in _) = _ => destruct x as [r' next] eqn:Er end. injection Hb as <-.
  split; cbn.
  - by eapply Hused.
  - intros n Hn. congruence.
  - done.
  - lia.
  - intros He. destruct (bool_decide_reflect (rEstado r = EstadoReintentar)) as [Hr|Hr].
    + destruct (Z.ltb_spec (Z.of_nat (length (cBackoff cfg))) (nIntentos cur + 1)); injection Er as <- <-; [done|].
      split; [eauto|lia].
    + injection Er as <- <-. done.
  - intros p Hp%plan_opens%wanted_org. destruct Hp as [-> ?]. done.
  - intros Hc k Hk. destruct (wanted_review id cur (mergeIdentity cur r') r' k Hk) as (p & Hp & Hfp).
    assert (Hin : AOpen p ∈ plan cfg id cur (mergeIdentity cur r') r').
    { unfold plan. destruct Hc as [ic ->]. rewrite elem_of_app. left. by apply (list_elem_of_fmap_2 AOpen). }
    destruct (wanted_first id cur (mergeIdentity cur r') r' k Hk) as (p1 & rest & Hw & Hp1).
    exists (mRes (mergeIdentity cur r')). cbv zeta. split_and!.
    + cbn. unfold overlay. destruct (String.eqb (rResourceID r') ""); [by apply Hknown|done].
    + right. exists p. split; [exact Hin|exact Hfp].
    + right. split; [done|]. unfold plan. destruct Hc as [ic ->]. rewrite Hw. cbn [map app tkTodo]. eauto.
Qed.

Lemma run_action_ok known us now ids tk db tk' db' sent :
  run_action cfg now ids tk db = Ok (tk', db', sent) -> ticket_ok known db us tk ->
  ticket_ok known db' us tk' /\ inc_grows (incs db) (incs db') /\ notifs db' = notifs db.
Proof.
  intros Hr Ht. unfold run_action in Hr.
  destruct (tkTodo tk) as [|[p|fp why] todo] eqn:Etodo; [injection Hr as <- <- _; split_and!; [done|apply inc_grows_refl|done]|..];
    (destruct (cIncidents cfg) as [icfg|] eqn:Ecfg; [|injection Hr as <- <- _; split_and!; [done|apply inc_grows_refl|done]]).
  - destruct (Open icfg now ids (pay_input p) (incs db)) as [[[u t] sent0]|] eqn:Eo; [|done]. injection Hr as <- <- _.
    apply Open_grows in Eo as (Hg & Hu & Ho & Hf). cbn [incs notifs]. split; [|done].
    pose proof Ht as [T1 T2 T3 T4 T5 T6 T7]. rewrite Etodo in T6.
    destruct (T6 p ltac:(by left)) as [Hpo Hpf]. change (inOrg (pay_input p)) with (pOrg p) in Ho.
    change (inFingerprint (pay_input p)) with (pFingerprint p) in Hf. specialize (Hf Hpf).
    split; cbn; try done; [intros q Hq; apply T6; by right|].
    intros Hc k Hk. destruct (T7 Hc k Hk) as (res & Hres & HS & Hl). exists res. split; [done|]. cbv zeta in *. split.
    + destruct HS as [HS|(q & Hq & Hqf)]; [left; by eapply on_record_grows|].
      rewrite Etodo in Hq. apply elem_of_cons in Hq as [[= ->]|Hq]; [left|right; by exists q].
      exists (uID u), (uRow u). split_and!; cbn; congruence.
    + left. unfold linked_or_todo in Hl. destruct Hl as [(i & inc & E & Hi & Hio & Hif)|(E & q & rest & Hq & Hqf)]; cbn [tkLink tkOrg]; rewrite E; cbn.
      * apply (linked_grows _ _ _ _ (Some i) Hg). by exists i, inc.
      * rewrite Etodo in Hq. injection Hq as <- _. exists (uID u), (uRow u). split_and!; congruence.
  - destruct (CloseByFingerprint now (qOrg (nReq (tkCur tk))) DomainPayments fp why (incs db)) as [k t] eqn:Ec. injection Hr as <- <- _.
    assert (Hg : inc_grows (incs db) t).
    { replace t with (CloseByFingerprint now (qOrg (nReq (tkCur tk))) DomainPayments fp why (incs db)).2 by (by rewrite Ec).
      apply table_stays_grows, closeQ_stays. }
    split; [|by split]. pose proof Ht as [T1 T2 T3 T4 T5 T6 T7]. rewrite Etodo in T6. split; cbn; try done.
    + intros q Hq. apply T6. by right.
    + intros Hc k' Hk. destruct (T7 Hc k' Hk) as (res & Hres & HS & Hl). exists res. split; [done|]. cbv zeta in *. split.
      * destruct HS as [HS|(q & Hq & Hqf)]; [left; by eapply on_record_grows|right].
        rewrite Etodo in Hq. apply elem_of_cons in Hq as [[=]|Hq]. by exists q.
      * destruct Hl as [Hl|(Hn & q & rest & Hq & Hqf)]; [left; by eapply linked_grows|]. by rewrite Etodo in Hq.
Qed.

Lemma resolved_row_ok known known' db us tk n :
  known_grows known known' -> known' (tkID tk) (nResourceID (resolved_row tk n)) ->
  ticket_ok known db us tk -> tkTodo tk = [] -> notifs db !! tkID tk = Some n ->
  row_ok known' (incs db) (tkID tk) (resolved_row tk n).
Proof.
  intros Hgrow Hnew [T1 T2 T3 T4 T5 T6 T7] Htodo Hn. pose proof (T2 n Hn) as Hreq. split; cbn; [done|done|].
  intros Hc k Hk. destruct (T7 Hc k Hk) as (res & Hres & HS & Hl). exists res. cbv zeta in *. rewrite Hreq, T3. split_and!.
  - cbn in Hnew. unfold overlay in Hnew. destruct (String.eqb (rResourceID (tkResult tk)) ""); [by apply Hgrow|by rewrite Hres].
  - destruct HS as [HS|(q & Hq & _)]; [done|]. rewrite Htodo in Hq. by apply not_elem_of_nil in Hq.
  - destruct Hl as [Hl|(_ & q & rest & Hq & _)]; [|by rewrite Htodo in Hq].
    destruct Hl as (i & inc & E & Hi & Hio & Hif). rewrite E. by exists i, inc.
Qed.

(** The rows after a commit: the ticket's row, if it is still there, resolved. *)
Lemma commit_rows tk db id :
  notifs (commit_resolve tk db) !! id =
    match Inbox.Get (tkOrg tk) (tkID tk) (notifs db) with
    | Ok n => if String.eqb (tkID tk) id then Some (resolved_row tk n) else notifs db !! id
    | Err _ => notifs db !! id
    end.
Proof.
  unfold commit_resolve. cbn [notifs]. destruct (Inbox.Get _ _ _); [|done].
  destruct (String.eqb_spec (tkID tk) id) as [<-|Hne]; [apply lookup_insert_eq|by rewrite lookup_insert_ne].
Qed.

(** Every step but a purge keeps the rows and their request. *)
Definition rows_kept (t t' : journal) : Prop :=
  forall id n', t' !! id = Some n' -> exists n, t !! id = Some n /\ nReq n' = nReq n.

Lemma commit_kept tk db : rows_kept (notifs db) (notifs (commit_resolve tk db)).
Proof.
  intros id n'. rewrite commit_rows. destruct (Inbox.Get _ _ _) as [n|] eqn:Hg; [|eauto].
  destruct (String.eqb_spec (tkID tk) id) as [<-|]; [|eauto]. intros [= <-]. apply Get_Ok in Hg as [Hg _]. by exists n.
Qed.

Lemma Claim_rows now org id actor force db n k ok db' :
  Claim now org id actor force db = Ok (n, k, ok, db') ->
  incs db' = incs db /\
  if ok : bool then exists cur, notifs db !! id = Some cur /\ claimable now force cur = true /\
                      notifs db' = <[id := claimed_row now cur]> (notifs db)
  else notifs db' = notifs db.
Proof.
  unfold Claim. destruct (Inbox.Get org id (notifs db)) as [cur|] eqn:Hg; [|done]. cbn [mbind result_bind].
  apply Get_Ok in Hg as [Hg _]. destruct (claimable now force cur) eqn:Hc; intros [= <- <- <- <-]; cbn; eauto.
Qed.

Lemma Purge_row now s1 s2 s3 db id :
  notifs (Purge now s1 s2 s3 db) !! id =
    n ← notifs db !! id; if bool_decide (id ∈ s3) then None else if bool_decide (id ∈ s1) then Some (blanked now n) else Some n.
Proof. unfold Purge. cbn [notifs]. by rewrite map_lookup_imap. Qed.

(** *** Preservation *)

Lemma inv_perm known db ps ps' us hd p :
  ps ≡ₚ p :: ps' -> inbox_inv known (mkInboxWorld db ps us hd) -> inbox_inv known (mkInboxWorld db ps' us hd).
Proof.
  intros Hp [I1 I2 I3 I4]. split; cbn in *; try done. intros tk Htk. apply I3. rewrite Hp. by right.
Qed.

Lemma inv_add known db ps us hd p :
  inbox_inv known (mkInboxWorld db ps us hd) -> (forall tk, p = PTicket tk -> ticket_ok known db us tk) ->
  inbox_inv known (mkInboxWorld db (p :: ps) us hd).
Proof.
  intros [I1 I2 I3 I4] Hp. split; cbn in *; try done. intros tk [Htk|Htk]%elem_of_cons; [by apply Hp|by apply I3].
Qed.

(** The tables change in a way that keeps every ticket. *)
Lemma inv_db known db db' ps us us' hd hd' :
  inbox_inv known (mkInboxWorld db ps us hd) -> inc_grows (incs db) (incs db') -> us ⊆ us' ->
  (forall tk, PTicket tk ∈ ps -> tkID tk ∈ us -> forall n', notifs db' !! tkID tk = Some n' ->
     exists n, notifs db !! tkID tk = Some n /\ nReq n' = nReq n) ->
  (forall id n, notifs db' !! id = Some n -> row_ok known (incs db') id n /\ id ∈ us') ->
  (forall id t, hd' !! id = Some t -> exists n, notifs db' !! id = Some n /\ nEstado n = EstadoProcesando /\ nUpdatedAt n = t) ->
  inbox_inv known (mkInboxWorld db' ps us' hd').
Proof.
  intros [I1 I2 I3 I4] Hg Hu Hk Hr Hh. split; cbn in *.
  - intros id n Hn. by destruct (Hr id n Hn).
  - intros id n Hn. by destruct (Hr id n Hn).
  - intros tk Htk. pose proof (I3 tk Htk) as Ht. eapply ticket_ok_mono; [by intros ? ?|done|done| |done]. apply Hk; [done|]. by destruct Ht.
  - done.
Qed.

Lemma claimed_row_ok known t now id n : row_ok known t id n -> row_ok known t id (claimed_row now n).
Proof. intros [R1 R2 R3]. by split. Qed.
Lemma blanked_ok known t now id n : row_ok known t id n -> row_ok known t id (blanked now n).
Proof. intros [R1 R2 R3]. by split. Qed.

Lemma inbox_inv_step known w w' :
  inbox_inv known w -> resources_known known (notifs (w_db w)) -> resources_known known (notifs (w_db w')) ->
  inbox_step w w' -> inbox_inv known w'.
Proof.
  intros Hinv Hkn Hkn' Hs. pose proof Hinv as [I1 I2 I3 I4]. destruct Hs; cbn in I1, I2, I3, I4, Hkn; cbn [w_db] in Hkn'.
  - (* Record *)
    match goal with Hx : Record_ _ _ _ _ _ = _ |- _ => apply Record_ok in Hx as (-> & Hi & He) end.
    eapply inv_db; [exact Hinv|apply inc_grows_refl|set_solver|..]; cbn.
    + intros tk _ Hus n' Hn'. rewrite lookup_insert_ne in Hn' by (by intros ->). eauto.
    + intros j m Hm. apply lookup_insert_Some in Hm as [[<- <-]|[_ Hm]]; [split; [by apply Record_row_ok|set_solver]|].
      split; [eauto|]. apply I2 in Hm. set_solver.
    + intros j u Hu. destruct (I4 j u Hu) as (m & Hm & ?). exists m. split; [|done]. rewrite lookup_insert_ne; [done|].
      intros <-. apply I2 in Hm. done.
  - (* Claim *)
    match goal with Hx : Claim _ _ _ _ _ _ = _ |- _ => apply Claim_rows in Hx as [Hinc Hc] end. destruct ok.
    + destruct Hc as (cur & Hcur & _ & Hn). eapply inv_db; [exact Hinv|rewrite Hinc; apply inc_grows_refl|done|..]; rewrite ?Hn, ?Hinc.
      * intros tk _ _ n' Hn'. apply lookup_insert_Some in Hn' as [[<- <-]|[_ Hn']]; eauto.
      * intros j m Hm. apply lookup_insert_Some in Hm as [[<- <-]|[_ Hm]]; [|eauto]. split; [apply claimed_row_ok|]; eauto.
      * intros j u Hu. apply lookup_insert_Some in Hu as [[<- <-]|[Hne Hu]].
        -- exists (claimed_row now cur). split; [apply lookup_insert_eq|done].
        -- destruct (I4 j u Hu) as (m & ? & ?). exists m. by rewrite lookup_insert_ne.
    + eapply inv_db; [exact Hinv|rewrite Hinc; apply inc_grows_refl|done|..]; rewrite ?Hc, ?Hinc; eauto.
  - by apply inv_add.
  - by apply inv_add.
  - (* begin *)
    apply inv_add; [by eapply inv_perm|]. intros tk' [= <-]. eapply begin_resolve_ok; eauto.
  - (* act *)
    assert (Ht : ticket_ok known db us tk) by (apply I3; match goal with Hp : _ ≡ₚ _ |- _ => rewrite Hp end; by left).
    match goal with Hr : run_action _ _ _ _ _ = _ |- _ => destruct (run_action_ok known us _ _ _ _ _ _ _ Hr Ht) as (Ht' & Hg & Hn) end.
    apply inv_add; [|by intros ? [= <-]]. eapply inv_perm; [eassumption|].
    eapply inv_db; [exact Hinv|exact Hg|done|..]; rewrite ?Hn; eauto. intros j m Hm. split; [eapply row_ok_grows; [by intros ? ?|exact Hg|]|]; eauto.
  - (* commit *)
    assert (Ht : ticket_ok known db us tk) by (apply I3; match goal with Hp : _ ≡ₚ _ |- _ => rewrite Hp end; by left).
    eapply inv_perm; [eassumption|]. eapply inv_db; [exact Hinv|apply inc_grows_refl|done|..].
    + intros tk' _ _. apply commit_kept.
    + intros j m. rewrite commit_rows. change (incs (commit_resolve tk db)) with (incs db).
      destruct (Inbox.Get _ _ _) as [n|] eqn:Hg; [|eauto]. apply Get_Ok in Hg as [Hg _].
      destruct (String.eqb_spec (tkID tk) j) as [<-|]; [|eauto]. intros [= <-]. split; [|eauto]. eapply resolved_row_ok; [by intros ? ?| |done..].
      apply Hkn'. rewrite commit_rows. destruct (Inbox.Get _ _ _) as [n'|] eqn:Hg'; [|by rewrite (proj2 (Get_Ok _ _ _ _) (conj Hg (to_org_row _ _ _ _ _ Ht Hg))) in Hg'].
      rewrite String.eqb_refl. apply Get_Ok in Hg' as [Hg' _]. congruence.
    + intros j u Hu. apply lookup_delete_Some in Hu as [Hne Hu]. destruct (I4 j u Hu) as (m & Hm & ?). exists m. split; [|done].
      rewrite commit_rows. destruct (Inbox.Get _ _ _); [|done]. by apply String.eqb_neq in Hne as ->.
  - by eapply inv_perm.
  - (* purge *)
    eapply inv_db; [exact Hinv|apply inc_grows_refl|done|..].
    + intros tk _ _ n'. rewrite Purge_row. destruct (notifs db !! tkID tk) as [m|]; [|done]. cbn.
      repeat case_bool_decide; intros [= <-]; eauto.
    + intros j n'. rewrite Purge_row. destruct (notifs db !! j) as [m|] eqn:Hm; [|done]. cbn.
      repeat case_bool_decide; intros [= <-]; (split; [try apply blanked_ok|]); eauto.
    + intros j u Hu. destruct (I4 j u Hu) as (m & Hm & He & ?). exists m. split; [|done]. rewrite Purge_row, Hm. cbn.
      assert (Hnot : forall s p, (forall n, p n = true -> settled (nEstado n) = true) -> picks p (notifs db) s -> j ∉ s).
      { intros s p Hp [_ Hpk] Hj. destruct (Hpk j Hj) as (n & Hn & Hpn). apply Hp in Hpn. rewrite Hm in Hn. injection Hn as <-.
        by rewrite He in Hpn. }
      rewrite !bool_decide_eq_false_2; [done|eapply Hnot; [|eassumption]..]; unfold blankable, deletable, purgeable;
        intros n; rewrite !andb_true_iff; tauto.
  - (* incidents *)
    eapply inv_db; [exact Hinv|by apply inc_change_grows|done|..]; cbn; eauto. intros j m Hm.
    split; [|eauto]. eapply row_ok_grows; [by intros ? ?|by apply inc_change_grows|eauto].
Qed.

(** The resource ids a notification carried in some state on the way. *)
Definition carried (w : inbox_world) (id res : string) : Prop :=
  exists w0 n0, rtc inbox_step empty_inbox w0 /\ rtc inbox_step w0 w /\ notifs (w_db w0) !! id = Some n0 /\ nResourceID n0 = res.

Lemma inbox_inv_grows known known' w : known_grows known known' -> inbox_inv known w -> inbox_inv known' w.
Proof.
  intros Hk [I1 I2 I3 I4]. split; [|done| |done].
  - intros id n Hn. eapply row_ok_grows; [done|apply inc_grows_refl|by apply I1].
  - intros tk Htk. eapply ticket_ok_mono; [done|apply inc_grows_refl|done|eauto|by apply I3].
Qed.

Lemma inbox_inv_reachable w : rtc inbox_step empty_inbox w -> inbox_inv (carried w) w.
Proof.
  revert w. apply rtc_ind_r; [|intros w w' Hr Hs IH].
  { split; cbn; intros *; rewrite ?lookup_empty; try done. by intros ?%not_elem_of_nil. }
  assert (known_grows (carried w) (carried w')) as Hg.
  { intros id res (w0 & n0 & Hw0 & Hw1 & Hn). exists w0, n0. split_and!; [done|by eapply rtc_r|apply Hn..]. }
  eapply inbox_inv_step; [by eapply inbox_inv_grows| | |exact Hs].
  - intros id n Hn. exists w, n. split_and!; [done|by apply rtc_once|done..].
  - intros id n Hn. exists w', n. split_and!; [by eapply rtc_r|done..].
Qed.

(** ** Theorems *)

(** C25: while incidents are wired, a notification up for review or dead
    lettered has its incident on record: the one of its organization whose
    fingerprint is the kind its state calls for, its provider and its subject,
    a resource id it carried when its outcome was decided, or its own id when
    it carried none; and it is linked to that incident or, when the signature
    was in doubt, to its provider's signature incident.  Concurrent outcomes
    may have given it another resource id since. *)
Theorem inbox_attention w id n k :
  rtc inbox_step empty_inbox w -> is_Some (cIncidents cfg) -> notifs (w_db w) !! id = Some n ->
  review_kind (nEstado n) = Some k ->
  exists res, carried w id res /\
    let fp := colon k (qProvider (nReq n)) (if String.eqb res "" then id else res) in
    (exists i inc, incs (w_db w) !! i = Some inc /\ iOrg inc = qOrg (nReq n) /\ iFingerprint inc = fp) /\
    exists i inc, nIncidentID n = Some i /\ incs (w_db w) !! i = Some inc /\ iOrg inc = qOrg (nReq n) /\
      (iFingerprint inc = fp \/ iFingerprint inc = (KindSignatureInvalid +:+ ":" +:+ qProvider (nReq n))%string \/
       iFingerprint inc = ("signature_previous_key:" +:+ qProvider (nReq n))%string).
Proof.
  intros Hr Hc Hn Hk. destruct (inbox_inv_reachable w Hr) as [I1 _ _ _].
  destruct (ro_review _ _ _ _ (I1 id n Hn) Hc k Hk) as (res & Hres & Hon & i & inc & Hl & Hi & Ho & Hf).
  exists res. split; [done|]. split; [exact Hon|]. exists i, inc. split_and!; [done..|].
  unfold review_fps in Hf. rewrite !elem_of_cons, elem_of_nil in Hf. unfold subject_of in Hf. tauto.
Qed.

(** C26: no notification is stuck: each is settled, up for review, or due for
    another attempt from some time on, and while it waits for a retry its
    attempt counter is at most the number of backoff steps. *)
Theorem inbox_never_stuck w id n :
  rtc inbox_step empty_inbox w -> notifs (w_db w) !! id = Some n ->
  (settled (nEstado n) = true \/ nEstado n ∈ ReviewEstados \/
   exists T, forall now, T <= now -> due now n = true) /\
  (nEstado n = EstadoReintentar -> nIntentos n <= Z.of_nat (length (cBackoff cfg))).
Proof.
  intros Hr Hn. destruct (inbox_inv_reachable w Hr) as [I1 _ _ _]. destruct (I1 id n Hn) as [R1 R2 _].
  split; [|by intros He; apply R2].
  assert (Hwait : in_progress (nEstado n) = true -> exists T, forall now, T <= now -> due now n = true).
  { intros Hp. exists (nUpdatedAt n + DefaultStaleAfter + 1). intros now Hnow. unfold due. rewrite Hp.
    assert (nUpdatedAt n <? now - DefaultStaleAfter = true) as -> by lia. apply orb_true_r. }
  destruct (nEstado n) eqn:He; try (by left); try (right; right; by apply Hwait).
  - right; left. by left.
  - destruct (R2 eq_refl) as [[t Ht] _]. right; right. exists t. intros now Hnow. unfold due. rewrite He, Ht.
    assert (t <=? now = true) as -> by lia. done.
  - right; left. right; by left.
Qed.

(** What arrived is never rewritten: a step keeps the request of every
    notification, blanks its headers and body only past their retention and
    removes it only past its own, in both cases only when it is settled. *)
Theorem inbox_append_only w w' id n :
  rtc inbox_step empty_inbox w -> inbox_step w w' -> notifs (w_db w) !! id = Some n ->
  (exists n', notifs (w_db w') !! id = Some n' /\ nReq n' = nReq n /\
     ((nHeaders n' = nHeaders n /\ nBodyRaw n' = nBodyRaw n) \/
      (settled (nEstado n) = true /\ nEstado n' = nEstado n /\ exists now, qReceivedAt (nReq n) < now - cRetainRaw cfg))) \/
  (notifs (w_db w') !! id = None /\ settled (nEstado n) = true /\ exists now, qReceivedAt (nReq n) < now - cRetainResult cfg).
Proof.
  intros Hr Hs Hn. destruct (inbox_inv_reachable w Hr) as [_ I2 _ _].
  destruct Hs; cbn [w_db w_used notifs] in Hn, I2 |- *; try (left; by exists n; auto).
  - match goal with Hx : Record_ _ _ _ _ _ = _ |- _ => apply Record_ok in Hx as (-> & _ & _) end.
    left. exists n. rewrite lookup_insert_ne; [auto|]. intros ->. by apply I2 in Hn.
  - match goal with Hx : Claim _ _ _ _ _ _ = _ |- _ => apply Claim_rows in Hx as [_ Hrows] end. left. destruct ok.
    + destruct Hrows as (cur & Hcur & _ & ->). destruct (decide (id0 = id)) as [->|Hne].
      * rewrite lookup_insert_eq. eexists. split; [done|]. rewrite Hn in Hcur. injection Hcur as <-. auto.
      * rewrite lookup_insert_ne by done. exists n. auto.
    + rewrite Hrows. exists n. auto.
  - left. exists n. split; [|auto]. unfold run_action in *. by repeat case_match; simplify_eq.
  - left. rewrite commit_rows. destruct (Inbox.Get _ _ _) as [m|] eqn:Hg; [|exists n; auto]. apply Get_Ok in Hg as [Hg _].
    destruct (String.eqb_spec (tkID tk) id) as [<-|]; [|exists n; auto].
    rewrite Hn in Hg. injection Hg as <-. eexists. split; [done|]. auto.
  - rewrite Purge_row, Hn. cbn. destruct (bool_decide_reflect (id ∈ s3)) as [H3'|_].
    + right. split; [done|]. match goal with Hp : picks _ _ s3 |- _ => destruct Hp as [_ Hp]; destruct (Hp id H3') as (m & Hm & Hd) end.
      rewrite Hn in Hm. injection Hm as <-. unfold deletable, purgeable in Hd. apply andb_true_iff in Hd as [Hd1 Hd2].
      split; [done|]. exists now. lia.
    + left. destruct (bool_decide_reflect (id ∈ s1)) as [H1'|_]; [|exists n; auto].
      match goal with Hp : picks _ _ s1 |- _ => destruct Hp as [_ Hp]; destruct (Hp id H1') as (m & Hm & Hd) end.
      rewrite Hn in Hm. injection Hm as <-. unfold blankable, purgeable in Hd. rewrite !andb_true_iff in Hd.
      destruct Hd as [[Hd1 _] Hd2]. eexists. split; [done|]. split; [done|]. right. split; [done|]. split; [done|]. exists now. lia.
Qed.

(** Between two claims of a notification with no outcome stored in
    between, more than the staleness bound passes, unless the second one is
    forced. *)
Theorem inbox_claims_exclusive w id t now org actor n k db' :
  rtc inbox_step empty_inbox w -> w_held w !! id = Some t ->
  Claim now org id actor false (w_db w) = Ok (n, k, true, db') -> t + DefaultStaleAfter < now.
Proof.
  intros Hr Ht Hc. destruct (inbox_inv_reachable w Hr) as [_ _ _ I4]. destruct (I4 id t Ht) as (m & Hm & He & Hu).
  apply Claim_rows in Hc as [_ (cur & Hcur & Hcl & _)]. rewrite Hm in Hcur. injection Hcur as <-.
  unfold claimable in Hcl. rewrite He in Hcl. lia.
Qed.
End runs.

(** ** Runs *)

Section examples.
#[local] Existing Instances ex_crypto ex_lower ex_upper.
#[local] Instance ex_body_json : BodyJSON := {| json_decode := fun _ => None; json_marshal := fun _ => "{}"%string |}.
#[local] Instance ex_inbox_env : InboxEnv :=
  {| split_host := fun _ => None; parse_addr := Some; loopback_or_private := fun _ => true; query_json := fun _ => "{}"%string |}.

Definition ex_cfg : inbox_config :=
  NewStore (Some (mkIncConfig false None "in_app" false)) [] 0 0 0.
Definition ex_request : Request := mkRequest "o1" "mp" "/webhooks/mp" "POST" ∅ [] "{}" "10.0.0.1" None.
Definition outcome (e : estado) : Result := short_result AuthFirmaOK "" e "" 200.
Definition ok_db {A} (r : result inbox_error (A * inbox_db * list bridged)) (db : inbox_db) : inbox_db :=
  match r with Ok (_, db, _) => db | Err _ => db end.
Definition recorded (now : Z) (id : string) (db : inbox_db) : inbox_db :=
  match Record_ ex_cfg now id ex_request (notifs db) with Ok (_, t) => mkInboxDB t (attempts db) (incs db) | Err _ => db end.
Definition claimed (now : Z) (id : string) (db : inbox_db) : inbox_db :=
  match Claim now "o1" id "w" false db with Ok (_, _, _, db) => db | Err _ => db end.
Definition resolved (now : Z) (id : string) (e : estado) (db : inbox_db) : inbox_db :=
  ok_db (Resolve ex_cfg now (fun d => d) [["i1"]; ["i2"]; ["i3"]]%string "o1" id (outcome e) db) db.
Definition estado_of (id : string) (db : inbox_db) : option estado := nEstado <$> notifs db !! id.

(** A notification recorded, claimed and put up for review. *)
Definition ex_db1 : inbox_db := recorded 0 "n1" (mkInboxDB ∅ ∅ ∅).
Definition ex_db2 : inbox_db := claimed 1 "n1" ex_db1.
Definition ex_ticket : ticket :=
  match begin_resolve ex_cfg 2 (fun d => d) "o1" "n1" (outcome EstadoRequiereRevision) ex_db2 with
  | Ok tk => tk | Err _ => mkTicket "" "" (new_notification 0 ex_request) (outcome EstadoRecibida) 0 None 0 [] None end.
Fixpoint acted (n : nat) (x : ticket * inbox_db) : ticket * inbox_db :=
  match n with
  | O => x
  | S n => match run_action ex_cfg 2 ["i1"%string] x.1 x.2 with Ok (tk, db, _) => acted n (tk, db) | Err _ => x end
  end.
Definition ex_end : ticket * inbox_db := acted 3 (ex_ticket, ex_db2).
Definition ex_review : inbox_world := mkInboxWorld (commit_resolve ex_end.1 ex_end.2) [] {["n1"%string]} ∅.

Lemma ex_steps :
  rtc (inbox_step ex_cfg) empty_inbox (mkInboxWorld ex_db2 [] {["n1"%string]} {["n1"%string := 1]}) /\
  rtc (inbox_step ex_cfg) (mkInboxWorld ex_db2 [] {["n1"%string]} {["n1"%string := 1]}) ex_review.
Proof.
  split.
  - eapply rtc_l; [apply (SRecord ex_cfg _ _ _ _ 0 "n1" ex_request (new_notification 0 ex_request) (notifs ex_db1));
      [set_solver|vm_compute; reflexivity]|].
    eapply rtc_l; [|apply rtc_refl].
    apply (SClaim ex_cfg _ _ _ _ 1 "o1" "n1" "w" false (claimed_row 1 (new_notification 0 ex_request)) 1 true ex_db2).
    vm_compute. reflexivity.
  - eapply rtc_l; [apply (SStart ex_cfg _ _ _ _ "o1" "n1" (outcome EstadoRequiereRevision))|].
    eapply rtc_l; [eapply (SBegin ex_cfg ex_db2 _ [] _ _ 2 (fun d => d) "o1" "n1" (outcome EstadoRequiereRevision) ex_ticket);
      [reflexivity|vm_compute; reflexivity]|].
    eapply rtc_l; [eapply (SAct ex_cfg ex_db2 (acted 1 (ex_ticket, ex_db2)).2 _ [] _ _ 2 ["i1"%string] ex_ticket (acted 1 (ex_ticket, ex_db2)).1 []);
      [reflexivity|vm_compute; reflexivity]|].
    eapply rtc_l; [eapply (SAct ex_cfg _ (acted 2 (ex_ticket, ex_db2)).2 _ [] _ _ 2 ["i1"%string] _ (acted 2 (ex_ticket, ex_db2)).1 []);
      [reflexivity|vm_compute; reflexivity]|].
    eapply rtc_l; [eapply (SAct ex_cfg _ ex_end.2 _ [] _ _ 2 ["i1"%string] _ ex_end.1 []); [reflexivity|vm_compute; reflexivity]|].
    eapply rtc_l; [eapply (SCommit ex_cfg ex_end.2 _ [] _ _ ex_end.1); [reflexivity|vm_compute; reflexivity]|].
    assert (Hd : delete (tkID ex_end.1) {["n1"%string := 1]} = (∅ : gmap string Z)) by (vm_compute; reflexivity).
    rewrite Hd. apply rtc_refl.
Qed.

Lemma ex_reachable : rtc (inbox_step ex_cfg) empty_inbox ex_review.
Proof. eapply rtc_trans; apply ex_steps. Qed.

Definition ex_row : Notification := resolved_row ex_end.1 (claimed_row 1 (new_notification 0 ex_request)).

(** Its subject is its own id: the outcome named no resource. *)
Lemma inbox_attention_witness :
  nEstado ex_row = EstadoRequiereRevision /\
  exists res i inc, carried ex_cfg ex_review "n1" res /\ incs (w_db ex_review) !! i = Some inc /\ iOrg inc = "o1"%string /\
    iFingerprint inc = colon KindNotificationUnresolve "mp" (if String.eqb res "" then "n1" else res).
Proof.
  split; [vm_compute; reflexivity|].
  destruct (inbox_attention ex_cfg ex_review "n1" ex_row KindNotificationUnresolve ex_reachable) as (res & Hres & (i & inc & Hi & Ho & Hf) & _);
    [vm_compute; eauto|vm_compute; reflexivity|vm_compute; reflexivity|].
  exists res, i, inc. split_and!; [exact Hres|exact Hi| |].
  - rewrite Ho. vm_compute. reflexivity.
  - rewrite Hf. vm_compute. reflexivity.
Defined.

Definition ex_claimed : inbox_world := mkInboxWorld ex_db2 [] {["n1"%string]} {["n1"%string := 1]}.

Lemma inbox_never_stuck_witness :
  exists T, forall now, T <= now -> due now (claimed_row 1 (new_notification 0 ex_request)) = true.
Proof.
  destruct (inbox_never_stuck ex_cfg ex_claimed "n1" (claimed_row 1 (new_notification 0 ex_request)) (proj1 ex_steps))
    as [[Hs|[Hr|Hd]] _]; [vm_compute; reflexivity|vm_compute in Hs; done| |exact Hd].
  exfalso. unfold ReviewEstados in Hr. rewrite !elem_of_cons, elem_of_nil in Hr.
  destruct Hr as [E|[E|[]]]; vm_compute in E; done.
Defined.

Lemma inbox_append_only_witness :
  exists n', notifs (w_db ex_claimed) !! "n1"%string = Some n' /\ nBodyRaw n' = Some "{}"%string.
Proof.
  assert (Hs : inbox_step ex_cfg (mkInboxWorld ex_db1 [] {["n1"%string]} ∅) ex_claimed).
  { apply (SClaim ex_cfg ex_db1 [] _ ∅ 1 "o1" "n1" "w" false (claimed_row 1 (new_notification 0 ex_request)) 1 true ex_db2).
    vm_compute. reflexivity. }
  assert (Hr : rtc (inbox_step ex_cfg) empty_inbox (mkInboxWorld ex_db1 [] {["n1"%string]} ∅)).
  { eapply rtc_l; [|apply rtc_refl].
    assert (E : {["n1"%string]} = ({["n1"%string]} ∪ ∅ : gset string)) by (vm_compute; reflexivity). rewrite E.
    apply (SRecord ex_cfg (mkInboxDB ∅ ∅ ∅) [] ∅ ∅ 0 "n1" ex_request (new_notification 0 ex_request) (notifs ex_db1));
      [set_solver|vm_compute; reflexivity]. }
  destruct (inbox_append_only ex_cfg _ _ "n1" (new_notification 0 ex_request) Hr Hs) as [(n' & Hn & _ & [[_ Hb]|(Hse & _)])|(_ & Hse & _)];
    [vm_compute; reflexivity|exists n'; split; [exact Hn|rewrite Hb; vm_compute; reflexivity]|vm_compute in Hse; done..].
Defined.

Lemma inbox_claims_exclusive_witness :
  exists n k db', Claim (32 * sec) "o1" "n1" "w2" false ex_db2 = Ok (n, k, true, db') /\ 1 + DefaultStaleAfter < 32 * sec.
Proof.
  eexists _, _, _. split; [vm_compute; reflexivity|].
  apply (inbox_claims_exclusive ex_cfg ex_claimed "n1" 1 (32 * sec) "o1" "w2" (claimed_row (32 * sec) (claimed_row 1 (new_notification 0 ex_request)))
    1 (claimed (32 * sec) "n1" ex_db2) (proj1 ex_steps)); vm_compute; reflexivity.
Defined.

(** The duplicate of a delivery that is being processed is settled; when the
    delivery then fails, the provider's retry is taken for a duplicate of the
    duplicate and is not processed, although [hasTwin] means not to count a
    twin that failed. *)
Example retry_taken_for_duplicate :
  let db := resolved (3 * sec) "a" EstadoReintentar (claimed (2 * sec) "a" (recorded (1 * sec) "b" (recorded 0 "a" (mkInboxDB ∅ ∅ ∅)))) in
  estado_of "a" db = Some EstadoReintentar /\
  estado_of "c" (recorded (60 * sec) "c" db) = Some EstadoDuplicada.
Proof. vm_compute. done. Qed.

(** A worker that stalls past the staleness bound still stores its outcome:
    the notification another worker settled is open again, and its count of
    attempts is back to one. *)
Example stale_worker_reopens :
  let db := claimed 0 "a" (recorded 0 "a" (mkInboxDB ∅ ∅ ∅)) in
  exists tk, begin_resolve ex_cfg sec (fun d => d) "o1" "a" (outcome EstadoReintentar) db = Ok tk /\
    let db2 := resolved (42 * sec) "a" EstadoProcesada (claimed (41 * sec) "a" db) in
    estado_of "a" db2 = Some EstadoProcesada /\ estado_of "a" (commit_resolve tk db2) = Some EstadoReintentar.
Proof. eexists. split; [vm_compute; reflexivity|]. vm_compute. done. Qed.
End examples.
