(* ===== verification/EventBus.v ===== *)
(** * The event bus (events/events.go, events/emitter.go, events/meta.go,
    dynamic/eventmeta.go)

    The registry of subscriptions, the fan-out of a publication with its
    count and its durable errors, the dry-run estimate, and the values a
    context carries from a publisher to a subscriber.  A handler is a
    function of the state of the world, which the section leaves abstract;
    log lines are dropped. *)

From stdpp Require Import gmap.
From S2P Require Import Prelude GoStrings.

(** ** Contexts *)

Record Meta := mkMeta {
  mID : string; mVersion : Z; mOccurredAt : string; mAggregateType : string; mAggregateID : string;
  mSequence : Z; mCausationID : string
}.
Definition no_meta : Meta := mkMeta "" 0 "" "" "" 0 "".

(** A nil context is taken as [Background], and a value never set is empty,
    as the accessors answer. *)
Record ctx := mkCtx {
  cEmitter : string; cMeta : Meta; cCausation : string; cActor : string; cBranch : string; cCorrelation : string
}.
Definition Background : ctx := mkCtx "" no_meta "" "" "" "".

Definition WithEmitter (c : ctx) (emitter : string) : ctx :=
  mkCtx emitter (cMeta c) (cCausation c) (cActor c) (cBranch c) (cCorrelation c).
Definition EmitterFromContext (c : ctx) : string := cEmitter c.
Definition WithMeta (c : ctx) (m : Meta) : ctx :=
  mkCtx (cEmitter c) m (cCausation c) (cActor c) (cBranch c) (cCorrelation c).
Definition MetaFromContext (c : ctx) : Meta := cMeta c.
Definition WithCausationID (c : ctx) (id : string) : ctx :=
  if String.eqb id "" then c else mkCtx (cEmitter c) (cMeta c) id (cActor c) (cBranch c) (cCorrelation c).
Definition CausationIDFromContext (c : ctx) : string := cCausation c.
Definition WithActorID (c : ctx) (id : string) : ctx :=
  if String.eqb id "" then c else mkCtx (cEmitter c) (cMeta c) (cCausation c) id (cBranch c) (cCorrelation c).
Definition ActorIDFromContext (c : ctx) : string := cActor c.
Definition WithBranchID (c : ctx) (id : string) : ctx :=
  if String.eqb id "" then c else mkCtx (cEmitter c) (cMeta c) (cCausation c) (cActor c) id (cCorrelation c).
Definition BranchIDFromContext (c : ctx) : string := cBranch c.
Definition WithCorrelationID (c : ctx) (id : string) : ctx :=
  mkCtx (cEmitter c) (cMeta c) (cCausation c) (cActor c) (cBranch c) id.
Definition CorrelationIDFromContext (c : ctx) : string := cCorrelation c.

(** ** Matching *)

Definition eventMatches (pattern event : string) : bool :=
  if String.eqb pattern event || String.eqb pattern "*" then true
  else if HasSuffix pattern ".*" then
    let prefix := TrimSuffix pattern ".*" in
    if String.eqb event prefix then true else HasPrefix event (prefix +:+ ".")
  else false.

Definition covered (pattern event : string) : Prop :=
  pattern = event \/ pattern = "*"%string \/
  exists prefix, pattern = (prefix +:+ ".*")%string /\
    (event = prefix \/ exists rest, event = (prefix +:+ "." +:+ rest)%string).

Lemma eventMatches_spec pattern event : eventMatches pattern event = true <-> covered pattern event.
Proof.
  unfold eventMatches, covered.
  destruct (String.eqb_spec pattern event) as [->|Hne]; cbn [orb]; [tauto|].
  destruct (String.eqb_spec pattern "*") as [->|Hs]; cbn [orb]; [tauto|].
  destruct (HasSuffix pattern ".*") eqn:Hsuf.
  - apply HasSuffix_spec in Hsuf as [prefix ->]. rewrite TrimSuffix_app.
    destruct (String.eqb_spec event prefix) as [->|Hp]; [split; [|done]; intros _; right; right; by exists prefix; auto|].
    rewrite HasPrefix_spec. split.
    + intros [t ->]. right; right. exists prefix. split; [done|]. right. exists t. by rewrite str_app_assoc.
    + intros [?|[?|(q & E & Hq)]]; [done..|]. apply (f_equal (fun s => TrimSuffix s ".*")) in E. rewrite !TrimSuffix_app in E.
      subst q. destruct Hq as [->|[t ->]]; [done|]. exists t. by rewrite str_app_assoc.
  - split; [done|]. intros [?|[?|(q & -> & _)]]; [done..|].
    assert (HasSuffix (q +:+ ".*") ".*" = true) by (apply HasSuffix_spec; by exists q). congruence.
Qed.

(** ** The registry *)

(** [CheckCapability] of an enforcer: the error's text, if any. *)
Definition Enforcer : Type := string -> string -> string -> option string.

Inductive bus_error (E : Type) : Type :=
| ErrEmptyPattern | ErrNilHandler | ErrEmptyEvent | ErrCapability (msg : string)
| DurableError (errs : list (string * string * E)) (siblings : bool).
Arguments ErrEmptyPattern {E}. Arguments ErrNilHandler {E}. Arguments ErrEmptyEvent {E}.
Arguments ErrCapability {E}. Arguments DurableError {E}.

Definition SiblingsRan {E} (err : option (bus_error E)) : bool :=
  match err with Some (DurableError _ siblings) => siblings | _ => false end.

Section bus.
Context {W P E : Type}.

Definition Handler : Type := ctx -> string -> P -> W -> option E * W.
Definition EventHandler : Type := ctx -> string -> string -> P -> W -> option E * W.
Definition RoutingHandler : Type := ctx -> string -> string -> P -> W -> (Z * option E) * W.
Definition Estimator : Type := ctx -> string -> string -> W -> option Z.

Record subscription := mkSubscription {
  AddonKey : string; Pattern : string; fn : RoutingHandler; est : option Estimator;
  tap : bool; isRouter : bool; durable : bool
}.
Record Bus := mkBus { enforcer : option Enforcer; subs : gmap string (list subscription) }.

Definition NewBus (enforcer : option Enforcer) : Bus := mkBus enforcer ∅.

Definition check (b : Bus) (addonKey kind target : string) : option string :=
  match enforcer b with
  | None => None
  | Some e => if String.eqb addonKey "kernel" then None else e addonKey kind target
  end.

Record subKind := mkSubKind { kTap : bool; kRouter : bool; kDurable : bool }.

Definition subscribeRouting (addonKey eventPattern : string) (h : option RoutingHandler) (est : option Estimator)
    (kind : subKind) (b : Bus) : result (bus_error E) Bus :=
  if String.eqb eventPattern "" then Err ErrEmptyPattern else
  match h with
  | None => Err ErrNilHandler
  | Some h =>
      match check b addonKey "event:subscribe" eventPattern with
      | Some msg => Err (ErrCapability msg)
      | None =>
          let s := mkSubscription addonKey eventPattern h est (kTap kind) (kRouter kind) (kDurable kind) in
          Ok (mkBus (enforcer b) (<[eventPattern := default [] (subs b !! eventPattern) ++ [s]]> (subs b)))
      end
  end.

(** Every variant becomes a routing handler; a plain one reports one delivery. *)
Definition of_handler (h : Handler) : RoutingHandler :=
  fun c org _ payload w => let '(err, w) := h c org payload w in ((1, err), w).
Definition of_event_handler (h : EventHandler) : RoutingHandler :=
  fun c org event payload w => let '(err, w) := h c org event payload w in ((1, err), w).

Definition Subscribe (addonKey eventPattern : string) (h : option Handler) (b : Bus) : result (bus_error E) Bus :=
  if String.eqb eventPattern "" then Err ErrEmptyPattern else
  match h with
  | None => Err ErrNilHandler
  | Some h => subscribeRouting addonKey eventPattern (Some (of_handler h)) None (mkSubKind false false false) b
  end.
Definition SubscribeEvent (addonKey eventPattern : string) (h : option EventHandler) (b : Bus) : result (bus_error E) Bus :=
  match h with
  | None => Err ErrNilHandler
  | Some h => subscribeRouting addonKey eventPattern (Some (of_event_handler h)) None (mkSubKind false false false) b
  end.
Definition SubscribeRouting (addonKey eventPattern : string) (h : option RoutingHandler) (b : Bus) : result (bus_error E) Bus :=
  subscribeRouting addonKey eventPattern h None (mkSubKind false true false) b.
Definition SubscribeRoutingEstimated (addonKey eventPattern : string) (h : option RoutingHandler) (est : option Estimator)
    (b : Bus) : result (bus_error E) Bus :=
  subscribeRouting addonKey eventPattern h est (mkSubKind false true false) b.
Definition SubscribeTap (addonKey eventPattern : string) (h : option Handler) (b : Bus) : result (bus_error E) Bus :=
  match h with
  | None => Err ErrNilHandler
  | Some h => subscribeRouting addonKey eventPattern (Some (of_handler h)) None (mkSubKind true false false) b
  end.
Definition SubscribeDurableRouting (addonKey eventPattern : string) (h : option RoutingHandler) (est : option Estimator)
    (b : Bus) : result (bus_error E) Bus :=
  subscribeRouting addonKey eventPattern h est (mkSubKind false true true) b.

Definition kept (addonKey : string) (l : list subscription) : list subscription :=
  List.filter (fun s => negb (String.eqb (AddonKey s) addonKey)) l.
Definition Unsubscribe (addonKey : string) (b : Bus) : Bus :=
  mkBus (enforcer b) (omap (fun l => match kept addonKey l with [] => None | l => Some l end) (subs b)).

(** ** Publication *)

(** The loop over the registry; [pats] is the order the map is ranged over. *)
Definition matched (durableOnly : bool) (event : string) (pats : list (string * list subscription)) : list subscription :=
  concat (map (fun p => if eventMatches p.1 event
                        then List.filter (fun s => negb (durableOnly && negb (durable s))) p.2 else []) pats).

(** The loop over [matched]: deliveries, durable errors. *)
Fixpoint fan_out (c : ctx) (org event : string) (payload : P) (l : list subscription) (w : W) :
    Z * list (string * string * E) * W :=
  match l with
  | [] => (0, [], w)
  | s :: l =>
      let '(n, err, w) := fn s c org event payload w in
      let '(delivered, errs, w) := fan_out c org event payload l w in
      ((if 0 <? n then n + delivered else delivered),
       match err with Some e => if durable s then (AddonKey s, Pattern s, e) :: errs else errs | None => errs end, w)
  end.

Definition publish (b : Bus) (pats : list (string * list subscription)) (c : ctx) (addonKey event org : string)
    (payload : P) (durableOnly : bool) (w : W) : Z * option (bus_error E) * W :=
  if String.eqb event "" then (0, Some ErrEmptyEvent, w) else
  match check b addonKey "event:emit" event with
  | Some msg => (0, Some (ErrCapability msg), w)
  | None =>
      let '(delivered, durableErrs, w) :=
        fan_out (WithEmitter c addonKey) org event payload (matched durableOnly event pats) w in
      (delivered, match durableErrs with [] => None | _ => Some (DurableError durableErrs (negb durableOnly)) end, w)
  end.

Definition PublishWithCount b pats c addonKey event org payload w := publish b pats c addonKey event org payload false w.
Definition Publish b pats c addonKey event org payload (w : W) : option (bus_error E) * W :=
  let '(_, err, w) := PublishWithCount b pats c addonKey event org payload w in (err, w).
Definition PublishDurableOnly b pats c addonKey event org payload (w : W) : option (bus_error E) * W :=
  let '(_, err, w) := publish b pats c addonKey event org payload true w in (err, w).

Definition CheckEmit (b : Bus) (addonKey event : string) : option string := check b addonKey "event:emit" event.

(** The loop of [EstimateSubscribers] over the matched subscriptions. *)
Fixpoint estimate_loop (c : ctx) (org event : string) (w : W) (l : list subscription) (n : Z) : Z :=
  match l with
  | [] => n
  | s :: l =>
      if tap s then estimate_loop c org event w l n else
      match est s with
      | Some est => match est c org event w with None => -1 | Some k => estimate_loop c org event w l (n + k) end
      | None => if isRouter s then -1 else estimate_loop c org event w l (n + 1)
      end
  end.
Definition EstimateSubscribers (pats : list (string * list subscription)) (c : ctx) (org event : string) (w : W) : Z :=
  estimate_loop c org event w (matched false event pats) 0.

(** ** The registry as a list

    The abstract registry is the list of the live subscriptions in the order
    they were accepted. *)

Inductive bus_op : Type :=
| OpSubscribe (addonKey pattern : string) (h : option RoutingHandler) (est : option Estimator) (kind : subKind)
| OpUnsubscribe (addonKey : string).

Definition bus_exec (o : bus_op) (b : Bus) : Bus :=
  match o with
  | OpSubscribe a p h est k => match subscribeRouting a p h est k b with Ok b => b | Err _ => b end
  | OpUnsubscribe a => Unsubscribe a b
  end.

(** The subscriptions of one pattern, in order. *)
Definition at_pattern (p : string) (l : list subscription) : list subscription :=
  List.filter (fun s => String.eqb (Pattern s) p) l.

Record represents (b : Bus) (l : list subscription) : Prop := mkRepresents {
  rp_lists : forall p, default [] (subs b !! p) = at_pattern p l;
  rp_nonempty : forall p, subs b !! p <> Some []
}.

Definition spec_exec (enf : option Enforcer) (o : bus_op) (l : list subscription) : list subscription :=
  match o with
  | OpSubscribe a p (Some h) est k =>
      if negb (String.eqb p "") && bool_decide (check (mkBus enf ∅) a "event:subscribe" p = None)
      then l ++ [mkSubscription a p h est (kTap k) (kRouter k) (kDurable k)] else l
  | OpSubscribe _ _ None _ _ => l
  | OpUnsubscribe a => kept a l
  end.

Lemma filter_comm {A} (f g : A -> bool) l : List.filter f (List.filter g l) = List.filter g (List.filter f l).
Proof.
  induction l as [|x l IH]; [done|]. cbn. destruct (f x) eqn:Ef, (g x) eqn:Eg; cbn; rewrite ?Ef, ?Eg, IH; done.
Qed.

Lemma bus_exec_represents o b l :
  represents b l ->
  represents (bus_exec o b) (spec_exec (enforcer b) o l) /\ enforcer (bus_exec o b) = enforcer b.
Proof.
  intros [Hl Hn]. destruct o as [a p h est k|a]; cbn [bus_exec spec_exec].
  - unfold subscribeRouting, check. cbn [enforcer].
    destruct (String.eqb_spec p ""); cbn [negb andb]; [by destruct h|]. destruct h as [h|]; [|done].
    destruct (match enforcer b with Some _ => _ | None => _ end) as [msg|] eqn:Ec.
    { by rewrite bool_decide_eq_false_2. }
    rewrite bool_decide_eq_true_2 by done. split; [|done]. split; cbn [subs].
    + intros q. unfold at_pattern. rewrite List.filter_app. cbn [List.filter Pattern].
      destruct (decide (q = p)) as [->|Hne].
      * rewrite lookup_insert_eq, String.eqb_refl. cbn. by rewrite Hl.
      * rewrite lookup_insert_ne by done. destruct (String.eqb_spec p q); [done|]. by rewrite app_nil_r, Hl.
    + intros q. destruct (decide (q = p)) as [->|Hne]; [|by rewrite lookup_insert_ne].
      rewrite lookup_insert_eq. intros [= Hnil]. by apply app_eq_nil in Hnil as [_ ?].
  - split; [|done]. split; cbn [subs Unsubscribe]; intros q; rewrite lookup_omap.
    + specialize (Hl q). unfold at_pattern, kept in *. rewrite filter_comm, <- Hl.
      destruct (subs b !! q) as [m|]; cbn; [|done]. by destruct (List.filter _ m).
    + destruct (subs b !! q) as [m|]; cbn; [|done]. destruct (kept a m) eqn:?; cbn; done.
Qed.

Definition bus_run (os : list bus_op) (b : Bus) : Bus := foldl (fun b o => bus_exec o b) b os.
Definition spec_run (enf : option Enforcer) (os : list bus_op) (l : list subscription) : list subscription :=
  foldl (fun l o => spec_exec enf o l) l os.

Lemma bus_run_represents os b l :
  represents b l -> represents (bus_run os b) (spec_run (enforcer b) os l) /\ enforcer (bus_run os b) = enforcer b.
Proof.
  revert b l. induction os as [|o os IH]; intros b l Hr; [done|]. cbn [bus_run spec_run foldl].
  destruct (bus_exec_represents o b l Hr) as [Hr' He]. destruct (IH _ _ Hr') as [Hi He'].
  rewrite He in Hi. split; [exact Hi|]. by rewrite <- He.
Qed.

Lemma represents_new enf : represents (NewBus enf) [].
Proof. split; intros p; cbn; by rewrite lookup_empty. Qed.

(** A publication reaches the live subscriptions that match, whatever the
    order the map is ranged over. *)
Lemma matched_perm durableOnly event b l pats :
  represents b l -> pats ≡ₚ map_to_list (subs b) ->
  matched durableOnly event pats ≡ₚ
    List.filter (fun s => eventMatches (Pattern s) event && negb (durableOnly && negb (durable s))) l.
Proof.
  intros [Hl Hn] Hp. unfold matched.
  set (pick := fun p : string * list subscription => if eventMatches p.1 event
                        then List.filter (fun s => negb (durableOnly && negb (durable s))) p.2 else []).
  assert (forall k k', k ≡ₚ k' -> concat (map pick k) ≡ₚ concat (map pick k')) as Hperm.
  { induction 1 as [|x k k' _ IH|x y k|k1 k2 k3 _ IH _ IH']; cbn; [done|by rewrite IH| |by rewrite IH].
    rewrite !app_assoc. by rewrite (Permutation_app_comm (pick y)). }
  rewrite (Hperm _ _ Hp). clear Hp.
  enough (forall m l, (forall p, default [] (m !! p) = at_pattern p l) ->
    concat (map pick (map_to_list m)) ≡ₚ
      List.filter (fun s => eventMatches (Pattern s) event && negb (durableOnly && negb (durable s))) l) as Hmain by auto.
  clear l Hl Hn. intros m. induction m as [|p k m Hm IH] using map_ind; intros l Hl.
  { rewrite map_to_list_empty. cbn. destruct l as [|s l]; [done|]. specialize (Hl (Pattern s)). rewrite lookup_empty in Hl.
    cbn in Hl. by rewrite String.eqb_refl in Hl. }
  rewrite (Hperm _ _ (map_to_list_insert m p k Hm)). cbn [map concat].
  rewrite (IH (List.filter (fun s => negb (String.eqb (Pattern s) p)) l)).
  2:{ intros q. specialize (Hl q). unfold at_pattern in *. destruct (decide (q = p)) as [->|Hne].
      - rewrite Hm. cbn. clear. induction l as [|s l IH]; cbn; [done|].
        destruct (String.eqb (Pattern s) p) eqn:Es; cbn; [done|]. by rewrite Es.
      - rewrite lookup_insert_ne in Hl by done. rewrite Hl, filter_comm. clear -Hne.
        induction l as [|s l IH]; cbn; [done|]. destruct (String.eqb_spec (Pattern s) q) as [Hq|]; cbn; [|done].
        rewrite Hq. destruct (String.eqb_spec q p); cbn; [done|]. by f_equal. }
  specialize (Hl p). rewrite lookup_insert_eq in Hl. cbn in Hl. subst k. clear. unfold pick, at_pattern. cbn [fst snd].
  induction l as [|s l IH]; cbn; [by destruct (eventMatches p event)|].
  destruct (String.eqb_spec (Pattern s) p) as [<-|Hne]; cbn.
  - destruct (eventMatches (Pattern s) event); cbn; [|done]. destruct (negb (durableOnly && negb (durable s))); cbn; by rewrite IH.
  - destruct (eventMatches (Pattern s) event && _); cbn; [|done]. etrans; [|apply Permutation_skip, IH].
    symmetry. apply Permutation_middle.
Qed.

Lemma fan_out_app c org event payload l1 l2 w :
  fan_out c org event payload (l1 ++ l2) w =
  let '(n1, e1, w1) := fan_out c org event payload l1 w in
  let '(n2, e2, w2) := fan_out c org event payload l2 w1 in (n1 + n2, e1 ++ e2, w2).
Proof.
  revert w. induction l1 as [|s l1 IH]; intros w; cbn; [by destruct (fan_out c org event payload l2 w) as [[? ?] ?]|].
  destruct (fn s c org event payload w) as [[n err] w1]. rewrite IH.
  destruct (fan_out c org event payload l1 w1) as [[n1 e1] w2], (fan_out c org event payload l2 w2) as [[n2 e2] w3].
  destruct (0 <? n); [rewrite Z.add_assoc|]; destruct err; try destruct (durable s); done.
Qed.

(** ** What a publication does *)

(** The handlers ran one after the other, each on the state the one before
    left; the list has what each reported. *)
Inductive ran (c : ctx) (org event : string) (payload : P) : W -> list (subscription * (Z * option E)) -> W -> Prop :=
| ran_nil w : ran c org event payload w [] w
| ran_cons s r l w w1 w2 :
    fn s c org event payload w = (r, w1) -> ran c org event payload w1 l w2 ->
    ran c org event payload w ((s, r) :: l) w2.

Definition deliveries (l : list (subscription * (Z * option E))) : Z := zsum (map (fun p => Z.max 0 p.2.1) l).
(** The failures of durable routers. *)
Definition unrecorded (l : list (subscription * (Z * option E))) : list (string * string * E) :=
  omap (fun p => match p.2.2 with Some e => if durable p.1 then Some (AddonKey p.1, Pattern p.1, e) else None | None => None end) l.

Lemma fan_out_ran c org event payload l w :
  exists calls w', map fst calls = l /\ ran c org event payload w calls w' /\
    fan_out c org event payload l w = (deliveries calls, unrecorded calls, w').
Proof.
  revert w. induction l as [|s l IH]; intros w; [by exists [], w; split_and!; [|constructor|]|].
  cbn [fan_out]. destruct (fn s c org event payload w) as [[n err] w1] eqn:Hf.
  destruct (IH w1) as (calls & w' & Hm & Hr & Hfo). rewrite Hfo. exists ((s, (n, err)) :: calls), w'.
  split_and!; [by cbn; f_equal|by econstructor|]. unfold deliveries, unrecorded. cbn [map zsum omap list_omap fst snd].
  replace (if 0 <? n then n + zsum (map (fun p => Z.max 0 p.2.1) calls) else zsum (map (fun p => Z.max 0 p.2.1) calls))
    with (Z.max 0 n + zsum (map (fun p => Z.max 0 p.2.1) calls)) by (destruct (Z.ltb_spec 0 n); lia).
  destruct err; [destruct (durable s)|]; done.
Qed.

Definition listens (durableOnly : bool) (event : string) (s : subscription) : Prop :=
  covered (Pattern s) event /\ (durableOnly = true -> durable s = true).

Lemma listens_spec durableOnly event s :
  eventMatches (Pattern s) event && negb (durableOnly && negb (durable s)) = true <-> listens durableOnly event s.
Proof.
  unfold listens. rewrite andb_true_iff, eventMatches_spec. split; intros [? Hd]; (split; [done|]).
  - intros ->. by destruct (durable s).
  - destruct durableOnly; [|done]. by rewrite Hd.
Qed.
#[export] Instance listens_dec durableOnly event s : Decision (listens durableOnly event s).
Proof. refine (cast_if (decide (_ = true))); rewrite <- listens_spec; eassumption. Defined.

Lemma filter_bool {A} (f : A -> bool) (Q : A -> Prop) `{forall x, Decision (Q x)} l :
  (forall x, f x = true <-> Q x) -> List.filter f l = filter Q l.
Proof.
  intros Hf. induction l as [|x l IH]; [done|]. cbn [List.filter]. rewrite filter_cons.
  destruct (decide (Q x)) as [Hx|Hx]; rewrite <- Hf in Hx; [by rewrite Hx, IH|]. apply not_true_is_false in Hx. by rewrite Hx, IH.
Qed.

(** C23: whatever was subscribed and unsubscribed before, a publication the
    enforcer allows runs the handler of every live subscription whose pattern
    covers the event, each exactly once and with the publisher recorded in
    its context, whatever the others answer; a durable-only one runs the
    durable ones alone.  It counts the deliveries the handlers report, and
    fails exactly when a durable router failed, naming those.  A refused
    publication, or one without a name, runs nothing. *)
Theorem publish_reaches enf os pats c addonKey event org payload durableOnly w :
  let b := bus_run os (NewBus enf) in
  pats ≡ₚ map_to_list (subs b) ->
  (check b addonKey "event:emit" event = None -> event <> ""%string ->
   exists calls w', map fst calls ≡ₚ filter (listens durableOnly event) (spec_run enf os []) /\
     ran (WithEmitter c addonKey) org event payload w calls w' /\
     publish b pats c addonKey event org payload durableOnly w =
       (deliveries calls, match unrecorded calls with [] => None | errs => Some (DurableError errs (negb durableOnly)) end, w')) /\
  (check b addonKey "event:emit" event <> None \/ event = ""%string ->
   exists err, publish b pats c addonKey event org payload durableOnly w = (0, Some err, w) /\ SiblingsRan (Some err) = false).
Proof.
  intros b Hp. destruct (bus_run_represents os (NewBus enf) [] (represents_new enf)) as [Hrep _]. fold b in Hrep.
  unfold publish. split.
  - intros Hc Hne%String.eqb_neq. rewrite Hc, Hne.
    destruct (fan_out_ran (WithEmitter c addonKey) org event payload (matched durableOnly event pats) w)
      as (calls & w' & Hm & Hr & Hfo). exists calls, w'. rewrite Hfo. split_and!; [|done|by destruct (unrecorded calls)].
    rewrite Hm, (matched_perm _ _ _ _ _ Hrep Hp). erewrite filter_bool; [done|]. apply listens_spec.
  - intros [Hc| ->]; [|by eexists]. destruct (String.eqb_spec event ""); [by eexists|].
    destruct (check b addonKey "event:emit" event) as [msg|]; [|done]. by eexists.
Qed.
End bus.
Arguments subscription : clear implicits.
Arguments Bus : clear implicits.
Arguments bus_op : clear implicits.

(** ** Witness *)

(** Two plain subscribers, of which one fails, and a durable router. *)
Definition ex_call : Type := (string * string)%type.
Definition ex_plain (name : string) (err : option string) : @RoutingHandler (list ex_call) unit string :=
  of_handler (fun c _ _ w => (err, w ++ [(name, EmitterFromContext c)])).
Definition ex_router : @RoutingHandler (list ex_call) unit string :=
  fun c _ _ _ w => ((2, Some "ledger down"%string), w ++ [("dispatch"%string, EmitterFromContext c)]).
Definition ex_ops : list (bus_op (list ex_call) unit string) :=
  [OpSubscribe "crm" "ticket.*" (Some (ex_plain "crm" (Some "boom"%string))) None (mkSubKind false false false);
   OpSubscribe "old" "ticket.created" (Some (ex_plain "old" None)) None (mkSubKind false false false);
   OpSubscribe "kernel" "*" (Some ex_router) None (mkSubKind false true true);
   OpUnsubscribe "old"]%string.

Lemma publish_reaches_witness :
  let b := bus_run ex_ops (NewBus (Some (fun a _ _ => if String.eqb a "ghost" then Some "denied" else None)%string)) in
  PublishWithCount b (map_to_list (subs b)) Background "pos" "ticket.created" "org" tt [] =
    (3, Some (DurableError [("kernel", "*", "ledger down")]%string true),
     [("dispatch", "pos"); ("crm", "pos")]%string) /\
  (exists calls w', map fst calls ≡ₚ filter (listens false "ticket.created") (spec_run (enforcer b) ex_ops []) /\
     ran (WithEmitter Background "pos") "org" "ticket.created" tt [] calls w') /\
  exists err, PublishWithCount b (map_to_list (subs b)) Background "ghost" "ticket.created" "org" tt [] = (0, Some err, []).
Proof.
  intros b.
  pose proof (publish_reaches (enforcer b) ex_ops (map_to_list (subs b)) Background "pos" "ticket.created" "org" tt false [])
    as [Hok _]; [reflexivity|].
  pose proof (publish_reaches (enforcer b) ex_ops (map_to_list (subs b)) Background "ghost" "ticket.created" "org" tt false [])
    as [_ Hno]; [reflexivity|].
  split; [vm_compute; reflexivity|split].
  - destruct Hok as (calls & w' & Hm & Hr & _); [reflexivity|discriminate|]. exists calls, w'. split; [exact Hm|exact Hr].
  - destruct Hno as (err & He & _); [left; discriminate|]. exists err. exact He.
Defined.
