(* ===== verification/DispatchEvent.v ===== *)
(** * The event dispatcher: what is delivered (dispatch/dispatch.go,
    dispatch/dispatcher.go, dispatch/enqueue.go, dispatch/envelope.go,
    dispatch/model_key_guard.go, dispatch/options.go)

    The options, the subscriptions, the payload with what the dispatcher
    stamps into it, the identity of a publication, the answers of a handler
    and the waits between attempts.  A payload is kept decoded; instants and
    durations are nanoseconds; log lines are dropped. *)

From stdpp Require Import gmap.
From S2P Require Import Prelude GoStrings GoHTTP GoJSON Signing EventBus.

(** Formats of instants and durations, google/uuid's Parse with the test
    against Nil, and the first value of a text with its length. *)
Class DispatchEnv := {
  rfc3339 : Z -> string; duration_string : Z -> string;
  uuid_given : string -> bool; decode_first : string -> option (json * nat)
}.

(** ** Options *)

Record Options := mkOptions {
  maxAttempts : Z; retryBackoff : Z; retryBackoffMax : Z; notReadyWait : Z; pollInterval : Z; lease : Z; attemptTimeout : Z
}.
Definition defaultOptions : Options :=
  mkOptions 3 500000000 30000000000 300000000000 5000000000 120000000000 300000000000.

Inductive Option : Type :=
| WithMaxAttempts (n : Z) | WithRetryBackoff (base max : Z) | WithNotReadyWait (d : Z)
| WithPollInterval (d : Z) | WithLease (d : Z) | WithAttemptTimeout (d : Z).

Definition apply_option (opts : Options) (opt : Option) : Options :=
  let '(mkOptions n b m r p l t) := opts in
  match opt with
  | WithMaxAttempts k => mkOptions (if k <? 1 then 1 else k) b m r p l t
  | WithRetryBackoff base max => mkOptions n (if base <? 0 then 0 else base) (if 0 <? max then max else m) r p l t
  | WithNotReadyWait d => mkOptions n b m (if d <? 0 then 0 else d) p l t
  | WithPollInterval d => mkOptions n b m r (if 0 <? d then d else p) l t
  | WithLease d => mkOptions n b m r p (if 0 <? d then d else l) t
  | WithAttemptTimeout d => mkOptions n b m r p l (if 0 <? d then d else t)
  end.
Definition Wire_options (opts : list Option) : Options := foldl apply_option defaultOptions opts.

Record options_ok (o : Options) : Prop := mkOptionsOk {
  oo_attempts : 1 <= maxAttempts o; oo_backoff : 0 <= retryBackoff o; oo_max : 0 < retryBackoffMax o;
  oo_wait : 0 <= notReadyWait o; oo_poll : 0 < pollInterval o; oo_lease : 0 < lease o; oo_timeout : 0 < attemptTimeout o
}.

Lemma Wire_options_ok opts : options_ok (Wire_options opts).
Proof.
  unfold Wire_options. assert (options_ok defaultOptions) as H0 by (split; cbn; lia). revert H0.
  generalize defaultOptions. induction opts as [|opt opts IH]; intros o Ho; [done|]. cbn [foldl]. apply IH.
  destruct o, Ho, opt; cbn in *; split; cbn; repeat case_match; lia.
Qed.

(** ** Subscriptions *)

(** The settings, which only travel to the handler, are left out. *)
Record Subscription := mkSubscription {
  sAddonKey : string; Installation : string; sEvent : string; HandlerType : string; Function_ : string
}.
#[export] Instance Subscription_eq_dec : EqDecision Subscription.
Proof. solve_decision. Defined.

(** The names of dispatcher.go and of events.go are the same function. *)
Definition eventMatches (pattern event : string) : bool :=
  if String.eqb pattern event || String.eqb pattern "*" then true
  else if HasSuffix pattern ".*" then
    let prefix := TrimSuffix pattern ".*" in
    if String.eqb event prefix then true else HasPrefix event (prefix +:+ ".")
  else false.

(** ** The payload *)

Record canonicalEvent := mkCanonicalEvent {
  ceID : string; ceOccurrenceID : string; ceModel : string; ceAction : string; ceAddonKey : string;
  ceActorID : string; ceBranchID : string; ceCorrelationID : string
}.

(** Best effort: a field of another type is left empty. *)
Definition event_of (raw : json) : canonicalEvent :=
  match raw with
  | JObject l =>
      let field name := fst (decode_field name read_string l "") in
      mkCanonicalEvent (field "id") (field "occurrence_id") (field "model") (field "action") (field "addon_key")
        (field "actor_id") (field "branch_id") (field "correlation_id")
  | _ => mkCanonicalEvent "" "" "" "" "" "" "" ""
  end%string.
Definition with_actor (ce : canonicalEvent) (a : string) : canonicalEvent :=
  mkCanonicalEvent (ceID ce) (ceOccurrenceID ce) (ceModel ce) (ceAction ce) (ceAddonKey ce) a (ceBranchID ce) (ceCorrelationID ce).
Definition with_branch (ce : canonicalEvent) (b : string) : canonicalEvent :=
  mkCanonicalEvent (ceID ce) (ceOccurrenceID ce) (ceModel ce) (ceAction ce) (ceAddonKey ce) (ceActorID ce) b (ceCorrelationID ce).
Definition with_correlation (ce : canonicalEvent) (c : string) : canonicalEvent :=
  mkCanonicalEvent (ceID ce) (ceOccurrenceID ce) (ceModel ce) (ceAction ce) (ceAddonKey ce) (ceActorID ce) (ceBranchID ce) c.

Definition stampString (raw : json) (key value : string) : json :=
  match raw with JObject l => JObject (put key (JString value) (members l)) | _ => raw end.
Definition stampActorID (raw : json) (actor : string) : json := stampString raw "actor_id" actor.
Definition stampEventName (raw : json) (eventName : string) : json :=
  if String.eqb eventName "" then raw else
  match raw with
  | JObject l => match assoc "event" l with Some _ => raw | None => stampString raw "event" eventName end
  | _ => raw
  end.

Definition EmitterField : string := "emitter".
Definition EnvelopeField : string := "envelope".
Definition EnvelopeSchema : string := "metacore.event/1".

(** ** The identity of a publication *)

Record Envelope := mkEnvelope {
  eSchema : string; eID : string; eName : string; eVersion : Z; eSource : string; eOrgID : string; eOccurredAt : string;
  eAggregate : option (string * string); eSequence : Z; eCorrelationID : string; eCausationID : string;
  eActorID : string; eBranchID : string; eGeneration : Z
}.

(** Struct order, without the empty members marked omitempty. *)
Definition text_member (name v : string) : list (string * json) := [(name, JString v)].
Definition text_omit (name v : string) : list (string * json) := if String.eqb v "" then [] else [(name, JString v)].
Definition num_omit (name : string) (v : Z) : list (string * json) := if v =? 0 then [] else [(name, JNumber (dec_string v))].
Definition envelope_members (e : Envelope) : list (string * json) :=
  concat [text_member "schema" (eSchema e); text_member "id" (eID e); text_member "name" (eName e);
    [("version"%string, JNumber (dec_string (eVersion e)))]; text_member "source" (eSource e);
    text_member "org_id" (eOrgID e); text_member "occurred_at" (eOccurredAt e);
    match eAggregate e with
    | Some (ty, id) => [("aggregate"%string, JObject (text_member "type" ty ++ text_member "id" id))]
    | None => []
    end;
    num_omit "sequence" (eSequence e); text_omit "correlation_id" (eCorrelationID e); text_omit "causation_id" (eCausationID e);
    text_omit "actor_id" (eActorID e); text_omit "branch_id" (eBranchID e); num_omit "generation" (eGeneration e)].
Definition envelope_json (e : Envelope) : json := JObject (envelope_members e).

Definition stampEnvelope (raw : json) (env : Envelope) : json :=
  match raw with JObject l => JObject (put EnvelopeField (envelope_json env) (members l)) | _ => raw end.

Definition withGeneration (raw : json) (gen : Z) : json :=
  if gen <=? 0 then raw else
  match raw with
  | JObject l =>
      match assoc EnvelopeField (members l) with
      | Some (JObject env) =>
          JObject (put EnvelopeField (JObject (put "generation"%string (JNumber (dec_string gen)) (members env))) (members l))
      | _ => raw
      end
  | _ => raw
  end.

Definition non_empty (s t : string) : string := if String.eqb s "" then t else s.

Definition buildEnvelope `{DispatchEnv} (c : ctx) (now : Z) (orgID eventName occurrenceID emitter : string)
    (ce : canonicalEvent) (meta : Meta) : Envelope :=
  mkEnvelope EnvelopeSchema occurrenceID eventName (if mVersion meta <=? 0 then 1 else mVersion meta)
    (non_empty emitter "kernel") orgID (non_empty (mOccurredAt meta) (rfc3339 now))
    (if negb (String.eqb (mAggregateType meta) "") && negb (String.eqb (mAggregateID meta) "")
     then Some (mAggregateType meta, mAggregateID meta)
     else if negb (String.eqb (ceID ce) "") && negb (String.eqb (ceModel ce) "") then Some (ceModel ce, ceID ce) else None)
    (mSequence meta) (ceCorrelationID ce) (non_empty (mCausationID meta) (CausationIDFromContext c))
    (ceActorID ce) (ceBranchID ce) 0.

(** ** The model segment *)

Definition canonicalizeEventName (eventName resolved : string) : string :=
  match str_split "." eventName with
  | [addon; _; action] => str_join "." [addon; resolved; action]
  | _ => eventName
  end.

Record ModelKeyMismatch := mkModelKeyMismatch {
  mmAddonKey : string; mmRawModel : string; mmResolvedKey : string; mmAction : string; mmRawEvent : string; mmFixedEvent : string
}.

(** The name to route by, and what the observer is told. *)
Definition checkModelKey (resolver : option (string -> string)) (eventName : string) (ce : canonicalEvent) :
    string * option ModelKeyMismatch :=
  match resolver with
  | None => (eventName, None)
  | Some resolver =>
      if String.eqb (ceModel ce) "" then (eventName, None) else
      match str_split "." eventName with
      | [addon; _; action] =>
          let resolved := resolver (ceModel ce) in
          if String.eqb resolved "" || String.eqb resolved (ceModel ce) then (eventName, None) else
          let fixed := canonicalizeEventName eventName resolved in
          (fixed, Some (mkModelKeyMismatch addon (ceModel ce) resolved action eventName fixed))
      | _ => (eventName, None)
      end
  end.

(** ** Preparing a publication

    The part of [handle] before the subscriptions are read: the payload with
    its stamps, the fields read from it, the name, the occurrence id and the
    emitter. *)
Section prepare.
Context `{Crypto, BodyJSON, DispatchEnv}.

Definition stamp_actor (c : ctx) (raw : json) (ce : canonicalEvent) : json * canonicalEvent :=
  let actor := ActorIDFromContext c in
  if String.eqb actor "" then (raw, ce) else
  let canonical := negb (String.eqb (ceID ce) "") && negb (String.eqb (ceModel ce) "") in
  if negb canonical || String.eqb (ceActorID ce) "" then (stampActorID raw actor, with_actor ce actor) else (raw, ce).

Definition stamp_branch (c : ctx) (raw : json) (ce : canonicalEvent) : json * canonicalEvent :=
  if uuid_given (ceBranchID ce) then (raw, ce) else
  let b := BranchIDFromContext c in
  if String.eqb b "" then (raw, with_branch ce "") else (stampString raw "branch_id" b, with_branch ce b).

(** [fresh] is the uuid drawn for an event without any identity. *)
Definition occurrence_of (raw : json) (ce : canonicalEvent) (meta : Meta) (fresh : string) : string :=
  let occurrenceID := non_empty (ceOccurrenceID ce) (mID meta) in
  let occurrenceID := if String.eqb occurrenceID "" && negb (String.eqb (ceID ce) "")
    then (ceID ce +:+ ":" +:+ hex_encode (sha256 (json_marshal raw)))%string else occurrenceID in
  non_empty occurrenceID fresh.

Record publication := mkPublication {
  pName : string; pOccurrence : string; pEmitter : string; pEvent : canonicalEvent; pPayload : json
}.

Definition prepare (resolver : option (string -> string)) (c : ctx) (now : Z) (orgID eventName : string) (payload : json)
    (fresh : string) : publication :=
  let raw := stampEventName payload eventName in
  let '(raw, ce) := stamp_actor c raw (event_of raw) in
  let '(raw, ce) := stamp_branch c raw ce in
  let eventName := fst (checkModelKey resolver eventName ce) in
  let meta := MetaFromContext c in
  let occurrenceID := occurrence_of raw ce meta fresh in
  let emitter := EmitterFromContext c in
  let raw := if String.eqb emitter "" then raw else stampString raw EmitterField emitter in
  let ce := if String.eqb (ceCorrelationID ce) "" then with_correlation ce (CorrelationIDFromContext c) else ce in
  mkPublication eventName occurrenceID emitter ce
    (stampEnvelope raw (buildEnvelope c now orgID eventName occurrenceID emitter ce meta)).
End prepare.

(** ** The answer of a handler *)

(** A guest's own verdict: whether to retry, and after how long. *)
Record guestFailure := mkGuestFailure { gRetryable : option bool; gRetryAfter : Z }.

(** An error of an attempt: its text, whether it says that the subscriber is
    not ready yet, and the guest's verdict. *)
Record attempt_error := mkAttemptError { aeMsg : string; aeNotReady : bool; aeGuest : option guestFailure }.
Definition plain_error (msg : string) : attempt_error := mkAttemptError msg false None.

Definition MaxRetryAfter : Z := 3600 * 1000000000.
Definition msToDuration (ms : option Z) : Z :=
  match ms with
  | None => 0
  | Some ms =>
      if ms <=? 0 then 0 else
      let d := wrap64 (ms * 1000000) in
      if (MaxRetryAfter <? d) || (d <? 0) then MaxRetryAfter else d
  end.

(** Fields decoded from an object; [None] is an error of Unmarshal, which
    null is not. *)
Definition decode_struct {A} (raw : option json) (read : list (string * json) -> A * bool) (zero : A) : option A :=
  match raw with
  | Some (JObject l) => let '(v, ok) := read l in if ok : bool then Some v else None
  | Some JNull => Some zero
  | _ => None
  end.

(** A pointer to a struct: the struct is zeroed when it is first needed and
    null drops it. *)
Definition read_ptr {A} (read : list (string * json) -> A -> A * bool) (zero : A) (l : list (string * json)) (name : string) :
    option A * bool :=
  foldl (fun acc kv =>
    if EqualFold kv.1 name then
      match kv.2 with
      | JObject m => let '(v, ok) := read m (default zero acc.1) in (Some v, acc.2 && ok)
      | JNull => (None, acc.2)
      | _ => (acc.1, false)
      end
    else acc) (None, true) l.

Definition read_guest_error (m : list (string * json)) (old : string * string * string) : (string * string * string) * bool :=
  let '(code, msg, key) := old in
  let '(code, ok1) := decode_field "code" read_string m code in
  let '(msg, ok2) := decode_field "message" read_string m msg in
  let '(key, ok3) := decode_field "message_key" read_string m key in
  ((code, msg, key), ok1 && ok2 && ok3).
Definition read_answer (l : list (string * json)) : (option bool * option (string * string * string)) * bool :=
  let '(success, ok1) := decode_field "success" read_bool_ptr l None in
  let '(err, ok2) := read_ptr read_guest_error ("", "", "")%string l "error" in
  ((success, err), ok1 && ok2).

Definition read_retry (m : list (string * json)) (old : option bool * option Z) : (option bool * option Z) * bool :=
  let '(retryable, ok1) := decode_field "retryable" read_bool_ptr m old.1 in
  let '(after, ok2) := decode_field "retry_after_ms" read_int64_ptr m old.2 in
  ((retryable, after), ok1 && ok2).
Definition read_verdict (l : list (string * json)) : (option bool * option Z * option (option bool * option Z)) * bool :=
  let '(top, ok1) := read_retry l (None, None) in
  let '(err, ok2) := read_ptr read_retry (None, None) l "error" in
  ((top, err), ok1 && ok2).

Section answer.
Context `{DispatchEnv}.

Fixpoint str_index (sub s : string) (i : nat) : option nat :=
  if HasPrefix s sub then Some i else match s with EmptyString => None | String _ r => str_index sub r (S i) end.

Definition read_host_error (l : list (string * json)) : (string * string) * bool :=
  foldl (fun acc kv =>
    if EqualFold kv.1 "error" then
      match kv.2 with
      | JObject m =>
          let '(code, ok1) := decode_field "code" read_string m acc.1.1 in
          let '(msg, ok2) := decode_field "message" read_string m acc.1.2 in ((code, msg), acc.2 && ok1 && ok2)
      | JNull => acc
      | _ => (acc.1, false)
      end
    else acc) (("", "")%string, true) l.

Definition unwrapHostEnvelope (msg : string) : string :=
  match str_index ("{" +:+ jstr "error") msg 0 with
  | None => msg
  | Some i =>
      match decode_first (str_drop i msg) with
      | None => msg
      | Some (v, n) =>
          match decode_struct (Some v) read_host_error ("", "")%string with
          | None => msg
          | Some (code, text) =>
              if String.eqb code "" && String.eqb text "" then msg else
              let rest := TrimSpace (str_drop (i + n) msg) in
              let out := (str_take i msg +:+ "host " +:+ code +:+ ": " +:+ text)%string in
              if String.eqb rest "" then out else (out +:+ " " +:+ rest)%string
          end
      end
  end.

(** [None] is an empty answer or one that is no JSON. *)
Definition guestEnvelopeError (raw : option json) : string :=
  match decode_struct raw read_answer (None, None) with
  | Some (Some false, err) =>
      match err with
      | None => "success=false"
      | Some (code, message, key) =>
          let msg := unwrapHostEnvelope message in
          let out := if negb (String.eqb code "") && negb (String.eqb msg "") then (code +:+ ": " +:+ msg)%string
                     else if negb (String.eqb msg "") then msg
                     else if String.eqb code "" then "success=false"%string else code in
          if String.eqb key "" then out else (out +:+ " [" +:+ key +:+ "]")%string
      end
  | _ => ""
  end.

Definition newGuestFailure (raw : option json) : guestFailure :=
  match decode_struct raw read_verdict ((None, None), None) with
  | None => mkGuestFailure None 0
  | Some ((retryable, after), err) =>
      let d := msToDuration after in
      match err with
      | None => mkGuestFailure retryable d
      | Some (retryable', after') =>
          mkGuestFailure (match retryable with None => retryable' | r => r end) (if d =? 0 then msToDuration after' else d)
      end
  end.

(** ** The tiers *)

(** What the handlers answer: the two guests bytes or an error, the compiled
    ones an error or nothing. *)
Record invokers := mkInvokers {
  wasm : option (string -> Subscription -> json -> result attempt_error (option json));
  native : option (string -> Subscription -> json -> result attempt_error (option json));
  compiled : option (string -> option (string -> json -> option attempt_error))
}.

Definition guest_result (tier : string) (r : result attempt_error (option json)) : option attempt_error :=
  match r with
  | Err e => Some e
  | Ok out =>
      let msg := guestEnvelopeError out in
      if String.eqb msg "" then None
      else Some (mkAttemptError (tier +:+ ": " +:+ msg)%string false (Some (newGuestFailure out)))
  end.

Definition invoke `{UnicodeLower} `{GoQuote} (inv : invokers) (orgID : string) (payload : json) (sub : Subscription) :
    option attempt_error :=
  let tier := ToLower (HandlerType sub) in
  if String.eqb tier "wasm" then
    match wasm inv with
    | None => Some (plain_error "wasm subscription but no WasmInvoker wired")
    | Some call => guest_result "guest" (call orgID sub payload)
    end
  else if String.eqb tier "native" then
    match native inv with
    | None => Some (plain_error "native subscription but no NativeInvoker wired")
    | Some call => guest_result "native" (call orgID sub payload)
    end
  else if String.eqb tier "compiled" then
    match compiled inv with
    | None => Some (plain_error "dispatch: compiled subscription but no CompiledRegistry wired")
    | Some lookup =>
        match lookup (Function_ sub) with
        | None => Some (plain_error ("compiled handler " +:+ Quote (Function_ sub) +:+ " not registered")%string)
        | Some h => h orgID payload
        end
    end
  else Some (plain_error ("unsupported handler type " +:+ Quote (HandlerType sub))%string).
End answer.

(** ** Waits *)

(** [jitter n] is the number [rand.Int63n(n)] returns, in [0, n). *)
Definition backoffFor (opts : Options) (jitter : Z -> Z) (attempt : Z) : Z :=
  let base := retryBackoff opts in
  if base <=? 0 then 0 else
  let wait := if 64 <=? attempt - 2 then 0 else wrap64 (Z.shiftl base (attempt - 2)) in
  let wait := if (wait <=? 0) || (retryBackoffMax opts <? wait) then retryBackoffMax opts else wait in
  let fifth := Z.quot wait 5 in
  let j := jitter (fifth * 2 + 1) - fifth in
  let moved := wrap64 (wait + j) in
  if 0 <? moved then moved else wait.

(** ** Facts: the payload *)

Lemma eventMatches_covered pattern event : eventMatches pattern event = true <-> covered pattern event.
Proof. exact (EventBus.eventMatches_spec pattern event). Qed.

Lemma stampString_object raw key value l : raw = JObject l -> exists l', stampString raw key value = JObject l'.
Proof. intros ->. by eexists. Qed.

Lemma field_stampString raw key value k :
  field k (stampString raw key value) =
  match raw with JObject _ => if String.eqb key k then Some (JString value) else field k raw | _ => None end.
Proof. destruct raw; try done. unfold stampString. by rewrite field_put. Qed.

Lemma field_stampEnvelope raw env k :
  field k (stampEnvelope raw env) =
  match raw with JObject _ => if String.eqb EnvelopeField k then Some (envelope_json env) else field k raw | _ => None end.
Proof. destruct raw; try done. unfold stampEnvelope. by rewrite field_put. Qed.

Definition is_object (raw : json) : bool := match raw with JObject _ => true | _ => false end.

Lemma is_object_stampString raw key value : is_object (stampString raw key value) = is_object raw.
Proof. by destruct raw. Qed.
Lemma stamp_no_object raw env : is_object raw = false -> stampEnvelope raw env = raw.
Proof. by destruct raw. Qed.
Lemma field_stamp raw key value k : is_object raw = true ->
  field k (stampString raw key value) = if String.eqb key k then Some (JString value) else field k raw.
Proof. intros Ho. rewrite field_stampString. by destruct raw. Qed.

Lemma is_object_stampEventName raw n : is_object (stampEventName raw n) = is_object raw.
Proof. unfold stampEventName. destruct (String.eqb n ""); [done|]. destruct raw; try done. by destruct (assoc _ _). Qed.
Lemma field_stampEventName raw n k : is_object raw = true -> n <> ""%string ->
  field k (stampEventName raw n) =
  if String.eqb "event" k then match field k raw with Some v => Some v | None => Some (JString n) end else field k raw.
Proof.
  intros Ho Hn%String.eqb_neq. unfold stampEventName. rewrite Hn. destruct raw as [| | | | |l]; try done.
  destruct (assoc "event" l) as [v|] eqn:Ha.
  - destruct (String.eqb_spec "event" k) as [<-|]; [|done].
    destruct (field "event" (JObject l)) eqn:Hf; [done|]. pose proof (proj1 (field_assoc _ _) Hf). congruence.
  - rewrite field_stamp by done. destruct (String.eqb_spec "event" k) as [<-|]; [|done].
    by rewrite (proj2 (field_assoc "event" l) Ha).
Qed.

Section prepare_facts.
Context `{Crypto, BodyJSON, DispatchEnv}.

Lemma stamp_actor_field c raw ce k : is_object raw = true -> k <> "actor_id"%string ->
  is_object (stamp_actor c raw ce).1 = true /\ field k (stamp_actor c raw ce).1 = field k raw.
Proof.
  intros Ho Hk%String.eqb_neq. unfold stamp_actor, stampActorID. rewrite String.eqb_sym in Hk.
  repeat case_match; cbn; try done. by rewrite is_object_stampString, field_stamp, Hk.
Qed.
Lemma stamp_branch_field c raw ce k : is_object raw = true -> k <> "branch_id"%string ->
  is_object (stamp_branch c raw ce).1 = true /\ field k (stamp_branch c raw ce).1 = field k raw.
Proof.
  intros Ho Hk%String.eqb_neq. unfold stamp_branch. rewrite String.eqb_sym in Hk.
  repeat case_match; cbn; try done. by rewrite is_object_stampString, field_stamp, Hk.
Qed.
Lemma stamp_actor_event c raw ce :
  ceID (stamp_actor c raw ce).2 = ceID ce /\ ceModel (stamp_actor c raw ce).2 = ceModel ce /\
  ceOccurrenceID (stamp_actor c raw ce).2 = ceOccurrenceID ce.
Proof. unfold stamp_actor. by repeat case_match. Qed.
Lemma stamp_branch_event c raw ce :
  ceID (stamp_branch c raw ce).2 = ceID ce /\ ceModel (stamp_branch c raw ce).2 = ceModel ce /\
  ceOccurrenceID (stamp_branch c raw ce).2 = ceOccurrenceID ce.
Proof. unfold stamp_branch. by repeat case_match. Qed.

Lemma stamp_actor_branch c raw ce raw' ce' : stamp_actor c raw ce = (raw', ce') -> ceBranchID ce' = ceBranchID ce.
Proof. unfold stamp_actor. repeat case_match; by intros [= <- <-]. Qed.
(** A canonical event that names its actor keeps it. *)
Lemma stamp_actor_kept c raw ce raw' ce' : stamp_actor c raw ce = (raw', ce') ->
  ActorIDFromContext c = ""%string \/ ceID ce <> ""%string /\ ceModel ce <> ""%string /\ ceActorID ce <> ""%string -> raw' = raw.
Proof.
  unfold stamp_actor. intros E Hc. destruct (String.eqb_spec (ActorIDFromContext c) "") as [|Hne]; [by injection E as <- _|].
  destruct Hc as [?|(Hi%String.eqb_neq & Hm%String.eqb_neq & Ha%String.eqb_neq)]; [done|]. rewrite Hi, Hm, Ha in E. by injection E as <- _.
Qed.

(** The names the dispatcher writes. *)
Definition stamped_names : list string := ["event"; "actor_id"; "branch_id"; "emitter"; "envelope"].

(** C22: a payload that is an object is delivered with every member of the
    publisher as it was, except the five the dispatcher writes: the event's
    name where there was none; the actor of the context, if it has one, unless
    the payload is a canonical event that names one; the branch of the
    context, if it has one, unless the payload names a valid one; the
    publisher the bus recorded, if it recorded one; and the envelope, which
    always names the publisher the bus recorded (the kernel when it recorded
    none), the organization, the event routed and its occurrence.  Each of
    the first four is otherwise as the payload has it.  What is no object is
    delivered as it was. *)
Theorem delivered_payload_genuine resolver c now org name payload fresh :
  name <> ""%string ->
  let p := prepare resolver c now org name payload fresh in
  let ce := event_of (stampEventName payload name) in
  pEmitter p = EmitterFromContext c /\
  (is_object payload = false -> pPayload p = payload) /\
  (is_object payload = true ->
    is_object (pPayload p) = true /\
    (forall k, k ∉ stamped_names -> field k (pPayload p) = field k payload) /\
    field "event" (pPayload p) = Some (default (JString name) (field "event" payload)) /\
    (ActorIDFromContext c <> ""%string -> ceID ce = ""%string \/ ceModel ce = ""%string \/ ceActorID ce = ""%string ->
      field "actor_id" (pPayload p) = Some (JString (ActorIDFromContext c))) /\
    (ActorIDFromContext c = ""%string \/ ceID ce <> ""%string /\ ceModel ce <> ""%string /\ ceActorID ce <> ""%string ->
      field "actor_id" (pPayload p) = field "actor_id" payload) /\
    (uuid_given (ceBranchID ce) = false -> BranchIDFromContext c <> ""%string ->
      field "branch_id" (pPayload p) = Some (JString (BranchIDFromContext c))) /\
    (uuid_given (ceBranchID ce) = true \/ BranchIDFromContext c = ""%string -> field "branch_id" (pPayload p) = field "branch_id" payload) /\
    field EmitterField (pPayload p) =
      (if String.eqb (EmitterFromContext c) "" then field EmitterField payload else Some (JString (EmitterFromContext c))) /\
    exists e, field EnvelopeField (pPayload p) = Some (envelope_json e) /\
      eSource e = non_empty (EmitterFromContext c) "kernel" /\ eOrgID e = org /\ eName e = pName p /\ eID e = pOccurrence p).
Proof.
  intros Hn p ce. unfold p, prepare. fold ce. set (raw0 := stampEventName payload name).
  destruct (stamp_actor c raw0 ce) as [raw1 ce1] eqn:E1. destruct (stamp_branch c raw1 ce1) as [raw2 ce2] eqn:E2.
  cbn [pEmitter pPayload pName pOccurrence]. split; [done|].
  match goal with |- context [stampEnvelope ?r ?e] => set (raw3 := r); set (env := e) end.
  split.
  - intros Ho. assert (raw0 = payload) as E0 by (unfold raw0, stampEventName; rewrite (proj2 (String.eqb_neq _ _) Hn); by destruct payload).
    assert (forall k v, stampString payload k v = payload) as Es by (intros; by destruct payload).
    assert (raw1 = payload) as ->.
    { revert E1. unfold stamp_actor, stampActorID. rewrite E0, Es. by repeat case_match; intros [= <- _]. }
    assert (raw2 = payload) as -> by (revert E2; unfold stamp_branch; rewrite Es; by repeat case_match; intros [= <- _]).
    unfold raw3. rewrite Es. by destruct (String.eqb (EmitterFromContext c) ""); apply stamp_no_object.
  - intros Ho. assert (is_object raw0 = true) as Ho0 by (unfold raw0; by rewrite is_object_stampEventName).
    pose proof (fun k => stamp_actor_field c raw0 ce k Ho0) as F1. rewrite E1 in F1. cbn [fst] in F1.
    assert (is_object raw1 = true) as Ho1 by (by apply (F1 "")).
    pose proof (fun k => stamp_branch_field c raw1 ce1 k Ho1) as F2. rewrite E2 in F2. cbn [fst] in F2.
    assert (is_object raw2 = true) as Ho2 by (by apply (F2 "")).
    assert (forall k, k <> EmitterField -> field k raw3 = field k raw2) as F3.
    { intros k Hk%String.eqb_neq. unfold raw3. rewrite String.eqb_sym in Hk.
      destruct (String.eqb (EmitterFromContext c) ""); [done|]. by rewrite field_stamp, Hk. }
    assert (is_object raw3 = true) as Ho3.
    { unfold raw3. destruct (String.eqb _ ""); [done|]. by rewrite is_object_stampString. }
    assert (forall k, field k (stampEnvelope raw3 env) =
      if String.eqb EnvelopeField k then Some (envelope_json env) else field k raw3) as F4.
    { intros k. rewrite field_stampEnvelope. by destruct raw3. }
    split_and!.
    + by destruct raw3.
    + intros k Hk. unfold stamped_names in Hk. rewrite !not_elem_of_cons in Hk. destruct Hk as (K1 & K2 & K3 & K4 & K5 & _).
      rewrite F4, (proj2 (String.eqb_neq EnvelopeField k)) by done. rewrite F3 by done.
      rewrite (proj2 (F2 k K3)), (proj2 (F1 k K2)). unfold raw0. rewrite field_stampEventName by done.
      by rewrite (proj2 (String.eqb_neq "event" k)).
    + rewrite F4. cbn [String.eqb]. rewrite F3 by done. rewrite (proj2 (F2 "event"%string ltac:(done))), (proj2 (F1 "event"%string ltac:(done))).
      unfold raw0. rewrite field_stampEventName by done. rewrite String.eqb_refl. by destruct (field "event" payload).
    + intros Ha Hc. rewrite F4. cbn [String.eqb]. rewrite F3 by done. rewrite (proj2 (F2 "actor_id"%string ltac:(done))).
      revert E1. unfold stamp_actor. rewrite (proj2 (String.eqb_neq _ _) Ha).
      assert (negb (negb (String.eqb (ceID ce) "") && negb (String.eqb (ceModel ce) "")) || String.eqb (ceActorID ce) "" = true) as ->.
      { destruct Hc as [->|[->| ->]]; cbn; rewrite ?andb_false_r, ?orb_true_r; done. }
      intros [= <- _]. unfold stampActorID. rewrite field_stamp by done. by rewrite String.eqb_refl.
    + intros Hc. rewrite F4. cbn [String.eqb]. rewrite F3 by done. rewrite (proj2 (F2 "actor_id"%string ltac:(done))).
      rewrite (stamp_actor_kept c raw0 ce raw1 ce1 E1 Hc). unfold raw0. by rewrite field_stampEventName by done.
    + intros Hb Hc. rewrite F4. cbn [String.eqb]. rewrite F3 by done. revert E2. unfold stamp_branch.
      rewrite (stamp_actor_branch c raw0 ce raw1 ce1 E1), Hb, (proj2 (String.eqb_neq _ _) Hc). intros [= <- _].
      rewrite field_stamp by done. by rewrite String.eqb_refl.
    + intros Hb. rewrite F4. cbn [String.eqb]. rewrite F3 by done. revert E2. unfold stamp_branch.
      rewrite (stamp_actor_branch c raw0 ce raw1 ce1 E1). intros E2. assert (raw2 = raw1) as ->.
      { revert E2. destruct Hb as [->|E]; [by intros [= <- _]|]. rewrite E. cbn. by destruct (uuid_given _); intros [= <- _]. }
      rewrite (proj2 (F1 "branch_id"%string ltac:(done))). unfold raw0. by rewrite field_stampEventName by done.
    + rewrite F4. cbn [String.eqb]. unfold raw3. destruct (String.eqb (EmitterFromContext c) "").
      * rewrite (proj2 (F2 EmitterField ltac:(done))), (proj2 (F1 EmitterField ltac:(done))). unfold raw0. by rewrite field_stampEventName by done.
      * rewrite field_stamp by done. by rewrite String.eqb_refl.
    + exists env. rewrite F4, String.eqb_refl. done.
Qed.

(** A publication that has an identity keeps it: the same occurrence and the
    same name whoever publishes it again and whenever. *)
Lemma prepare_stable resolver c c' now now' org org' name payload fresh fresh' :
  ceOccurrenceID (event_of (stampEventName payload name)) <> ""%string \/
    (mID (MetaFromContext c) <> ""%string /\ mID (MetaFromContext c') = mID (MetaFromContext c)) ->
  let p := prepare resolver c now org name payload fresh in
  let p' := prepare resolver c' now' org' name payload fresh' in
  pOccurrence p' = pOccurrence p /\ pName p' = pName p.
Proof.
  intros Hid. unfold prepare. set (raw0 := stampEventName payload name) in *.
  assert (forall d, exists raw ce, stamp_branch d (stamp_actor d raw0 (event_of raw0)).1 (stamp_actor d raw0 (event_of raw0)).2 = (raw, ce) /\
    ceModel ce = ceModel (event_of raw0) /\ ceOccurrenceID ce = ceOccurrenceID (event_of raw0)) as Hd.
  { intros d. destruct (stamp_branch d (stamp_actor d raw0 (event_of raw0)).1 (stamp_actor d raw0 (event_of raw0)).2) as [raw ce] eqn:E.
    exists raw, ce. destruct (stamp_branch_event d (stamp_actor d raw0 (event_of raw0)).1 (stamp_actor d raw0 (event_of raw0)).2)
      as (_ & H1' & H2'). destruct (stamp_actor_event d raw0 (event_of raw0)) as (_ & H3 & H4). rewrite E in H1', H2'.
    cbn in H1', H2'. split_and!; congruence. }
  destruct (Hd c) as (raw1 & ce1 & E1 & M1 & O1), (Hd c') as (raw2 & ce2 & E2 & M2 & O2).
  destruct (stamp_actor c raw0 _) as [r1 e1], (stamp_actor c' raw0 _) as [r2 e2]. cbn [fst snd] in E1, E2. rewrite E1, E2.
  cbn [pOccurrence pName]. unfold checkModelKey. rewrite M1, M2. split; [|done]. unfold occurrence_of. rewrite O1, O2.
  assert (exists o, o <> ""%string /\
    non_empty (ceOccurrenceID (event_of raw0)) (mID (MetaFromContext c)) = o /\
    non_empty (ceOccurrenceID (event_of raw0)) (mID (MetaFromContext c')) = o) as (o & Ho & -> & ->).
  { destruct (String.eqb_spec (ceOccurrenceID (event_of raw0)) "") as [E|E].
    - destruct Hid as [?|[? ->]]; [done|]. unfold non_empty. rewrite E. by exists (mID (MetaFromContext c)).
    - unfold non_empty. rewrite (proj2 (String.eqb_neq _ _) E). by eexists. }
  apply String.eqb_neq in Ho. rewrite Ho. cbn [andb]. unfold non_empty. by rewrite Ho.
Qed.
End prepare_facts.

(** A replay changes nothing but the generation in the envelope. *)
Lemma withGeneration_field raw gen k : k <> EnvelopeField -> field k (withGeneration raw gen) = field k raw.
Proof.
  intros Hk. unfold withGeneration. destruct (gen <=? 0); [done|]. destruct raw as [| | | | |l]; try done.
  destruct (assoc EnvelopeField (members l)) as [[]|]; try done. rewrite field_put.
  by rewrite (proj2 (String.eqb_neq EnvelopeField k)).
Qed.
Lemma withGeneration_envelope raw gen env k :
  0 < gen -> field EnvelopeField raw = Some (JObject env) ->
  exists env', field EnvelopeField (withGeneration raw gen) = Some (JObject env') /\
    field k (JObject env') = if String.eqb "generation" k then Some (JNumber (dec_string gen)) else field k (JObject env).
Proof.
  intros Hg He. unfold withGeneration. destruct (Z.leb_spec gen 0); [lia|]. destruct raw as [| | | | |l]; try done.
  cbn in He. rewrite He, field_put, String.eqb_refl. eexists. split; [done|]. apply field_put.
Qed.

(** ** Facts: waits *)

Lemma msToDuration_bounds ms : 0 <= msToDuration ms <= MaxRetryAfter.
Proof.
  unfold msToDuration, MaxRetryAfter. destruct ms as [ms|]; [|lia]. destruct (ms <=? 0); [lia|].
  destruct (_ || _) eqn:E; [lia|]. apply orb_false_iff in E as [?%Z.ltb_ge ?%Z.ltb_ge]. lia.
Qed.

(** The wait before the jitter. *)
Definition plain_wait (opts : Options) (attempt : Z) : Z :=
  let wait := if 64 <=? attempt - 2 then 0 else wrap64 (Z.shiftl (retryBackoff opts) (attempt - 2)) in
  if (wait <=? 0) || (retryBackoffMax opts <? wait) then retryBackoffMax opts else wait.

Lemma plain_wait_bounds opts attempt : 0 < retryBackoffMax opts -> 0 < plain_wait opts attempt <= retryBackoffMax opts.
Proof.
  intros Hm. unfold plain_wait. destruct (_ || _) eqn:E; [lia|]. apply orb_false_iff in E as [?%Z.leb_gt ?%Z.ltb_ge]. lia.
Qed.
Lemma plain_wait_exact opts attempt :
  0 < retryBackoff opts -> 2 <= attempt -> retryBackoff opts * 2 ^ (attempt - 2) < 2 ^ 63 ->
  plain_wait opts attempt = Z.min (retryBackoff opts * 2 ^ (attempt - 2)) (retryBackoffMax opts).
Proof.
  intros Hb Ha Hs. unfold plain_wait. rewrite Z.shiftl_mul_pow2 by lia.
  assert (0 < 2 ^ (attempt - 2)) by (apply Z.pow_pos_nonneg; lia).
  destruct (Z.leb_spec 64 (attempt - 2)) as [Hl|Hl].
  { exfalso. assert (2 ^ 64 <= 2 ^ (attempt - 2)) by (apply Z.pow_le_mono_r; lia). nia. }
  rewrite wrap64_small by nia. destruct (Z.leb_spec (retryBackoff opts * 2 ^ (attempt - 2)) 0); [nia|].
  cbn [orb]. destruct (Z.ltb_spec (retryBackoffMax opts) (retryBackoff opts * 2 ^ (attempt - 2))); lia.
Qed.

(** The wait before a retry is positive, never more than a fifth over
    the configured maximum, and within a fifth of the base doubled for each
    attempt before (while that fits in 63 bits) capped at the maximum,
    whatever the random number and the options. *)
Theorem backoffFor_bounds opts jitter attempt :
  options_ok opts -> 0 < retryBackoff opts -> retryBackoffMax opts <= 2 ^ 62 -> 2 <= attempt ->
  (forall n, 0 < n -> 0 <= jitter n < n) ->
  let wait := backoffFor opts jitter attempt in
  0 < wait <= retryBackoffMax opts + retryBackoffMax opts / 5 /\
  (retryBackoff opts * 2 ^ (attempt - 2) < 2 ^ 63 ->
   let ideal := Z.min (retryBackoff opts * 2 ^ (attempt - 2)) (retryBackoffMax opts) in
   ideal - ideal / 5 <= wait <= ideal + ideal / 5).
Proof.
  intros [_ _ Hmax _ _ _ _] Hb Hm62 Ha Hj wait.
  assert (Hw : plain_wait opts attempt - plain_wait opts attempt / 5 <= wait <= plain_wait opts attempt + plain_wait opts attempt / 5).
  { pose proof (plain_wait_bounds opts attempt Hmax) as Hp. unfold wait, backoffFor.
    destruct (Z.leb_spec (retryBackoff opts) 0); [lia|]. fold (plain_wait opts attempt).
    set (w := plain_wait opts attempt) in *. rewrite Z.quot_div_nonneg by lia.
    specialize (Hj (w / 5 * 2 + 1) ltac:(zlia)). rewrite wrap64_small by zlia.
    destruct (Z.ltb_spec 0 (w + (jitter (w / 5 * 2 + 1) - w / 5))); zlia. }
  split.
  - pose proof (plain_wait_bounds opts attempt Hmax) as Hp. zlia.
  - intros Hs. rewrite plain_wait_exact in Hw by done. done.
Qed.

(** ** Examples *)

(** An answer whose error is a plain text instead of an object counts as a
    success: the decoding fails and the failure it announces is dropped. *)
Example string_error_delivered `{DispatchEnv} :
  guestEnvelopeError (Some (JObject [("success", JBool false); ("error", JString "db down")]%string)) = ""%string /\
  guestEnvelopeError (Some (JObject [("success", JBool false); ("error", JObject [("message", JString "db down")])]%string)) = "db down"%string.
Proof. split; reflexivity. Qed.

(** The product wraps before it is capped: a huge wait becomes a short one. *)
Example huge_retry_after_wraps : msToDuration (Some 18446744073710) = 448384.
Proof. reflexivity. Qed.

(** The identity in the envelope of a domain event is the guest's when its
    payload has the names of a canonical event. *)
Definition ex_env : DispatchEnv :=
  {| rfc3339 := fun _ => "now"%string; duration_string := fun _ => "5m0s"%string; uuid_given := fun s => negb (String.eqb s "");
     decode_first := fun _ => None |}.
Definition ex_text : BodyJSON := {| json_decode := fun _ => None; json_marshal := fun _ => "text"%string |}.
Definition plain_hash : Crypto := {| sha256 := fun s => s; hmac256 := fun _ s => s |}.
Definition forged : json :=
  JObject [("occurrence_id", JString "chosen"); ("id", JString "42"); ("model", JString "Invoice"); ("emitter", JString "kernel")]%string.
#[local] Existing Instances ex_env ex_text plain_hash.
Definition pos_ctx : ctx := WithActorID (WithMeta (WithEmitter Background "pos") (mkMeta "evt-1" 0 "" "" "" 0 "")) "user-1".
Example envelope_identity_forged :
  let p := prepare None pos_ctx 0 "org" "pos.sold" forged "fresh" in
  pOccurrence p = "chosen"%string /\
  exists m, field "envelope" (pPayload p) = Some (JObject m) /\
    assoc "id" m = Some (JString "chosen") /\
    assoc "aggregate" m = Some (JObject [("type", JString "Invoice"); ("id", JString "42")])%string.
Proof. split; [reflexivity|]. eexists. split; [vm_compute; reflexivity|]. by split. Qed.

(** ** Witnesses *)

(** Published for a branch: the stamps overwrite what the payload claims. *)
Definition branch_ctx : ctx := WithBranchID pos_ctx "b-1".
Lemma delivered_payload_genuine_witness :
  let p := prepare None branch_ctx 0 "org" "pos.sold" forged "fresh" in
  field "emitter" (pPayload p) = Some (JString "pos") /\ field "emitter" forged = Some (JString "kernel") /\
  field "event" (pPayload p) = Some (JString "pos.sold") /\ field "id" (pPayload p) = Some (JString "42") /\
  field "actor_id" (pPayload p) = Some (JString "user-1") /\ field "branch_id" (pPayload p) = Some (JString "b-1").
Proof.
  intros p. destruct (delivered_payload_genuine None branch_ctx 0 "org" "pos.sold" forged "fresh") as (_ & _ & Ho); [discriminate|].
  destruct (Ho eq_refl) as (_ & Hk & He & Ha & _ & Hb & _ & Hem & _).
  split; [exact Hem|]. split; [reflexivity|]. split; [exact He|]. split.
  - unfold p. rewrite (Hk "id"%string); [reflexivity|]. unfold stamped_names. rewrite !not_elem_of_cons. repeat split; try discriminate.
    apply not_elem_of_nil.
  - split; [apply Ha; [discriminate|right; right; reflexivity]|apply Hb; [reflexivity|discriminate]].
Defined.

Lemma backoffFor_bounds_witness :
  let wait := backoffFor defaultOptions (fun _ => 0) 3 in
  wait = 800000000 /\ 800000000 <= wait <= 1200000000.
Proof.
  intros wait. split; [vm_compute; reflexivity|].
  destruct (backoffFor_bounds defaultOptions (fun _ => 0) 3) as [_ Hi].
  - exact (Wire_options_ok []).
  - reflexivity.
  - vm_compute. discriminate.
  - discriminate.
  - intros n Hn. split; [discriminate|exact Hn].
  - apply Hi. reflexivity.
Defined.
