(* ===== verification/Dispatch.v ===== *)
(** * The event dispatcher: the ledger (dispatch/delivery.go,
    dispatch/ledger.go, dispatch/enqueue.go, dispatch/dispatcher.go)

    The rows of [event_deliveries] and the statements run on them: the
    idempotent insert of [enqueue] and [handle], the claim, the heartbeat,
    the outcomes of an attempt, the reaper, [Replay] and [ForgetDeliveries].
    The primary key and the column [updated_at], which nothing reads, are
    left out; so is the DDL. *)

From stdpp Require Import gmap.
From S2P Require Import Prelude GoStrings Tables GoHTTP GoJSON Signing EventBus DispatchEvent.

(** ** Data *)

Inductive Status : Type := StatusPending | StatusDelivered | StatusDead | StatusCancelled.
#[export] Instance Status_eq_dec : EqDecision Status.
Proof. solve_decision. Defined.

(** The key of the table is [delivery_id]; the payload [None] is the empty
    text of rows written before the column existed. *)
Record Delivery := mkDelivery {
  dOrg : string; dEvent : string; dAddonKey : string; dHandlerType : string; dExport : string;
  dStatus : Status; dAttempts : Z; dLastError : string; dCreatedAt : Z; dDeliveredAt : option Z;
  dEmitter : string; dPayload : option json; dSubEvent : string; dEventID : string; dActorID : string;
  dBranchID : string; dCorrelationID : string; dGeneration : Z; dRoot : string;
  dNextAttemptAt : option Z; dLeaseUntil : option Z; dLeaseToken : string; dNotReadySince : option Z
}.
Abbreviation deliveries := (gmap string Delivery).

(** An UPDATE of the columns of the queue. *)
Definition update (r : Delivery) (s : Status) (attempts : Z) (last_error : string) (delivered_at next : option Z)
    (lease : option (Z * string)) (not_ready : option Z) : Delivery :=
  mkDelivery (dOrg r) (dEvent r) (dAddonKey r) (dHandlerType r) (dExport r) s attempts last_error (dCreatedAt r) delivered_at
    (dEmitter r) (dPayload r) (dSubEvent r) (dEventID r) (dActorID r) (dBranchID r) (dCorrelationID r) (dGeneration r) (dRoot r)
    next (fst <$> lease) (match lease with Some l => l.2 | None => "" end) not_ready.

Record DeliveryResult := mkDeliveryResult {
  rDeliveryID : string; rAddonKey : string; rEvent : string; rFunction : string; rStatus : Status; rAttempts : Z; rErr : string
}.
(** The payload of [DeadLetterEvent], with its organization. *)
Record dead_letter := mkDeadLetter {
  dlOrg : string; dlDeliveryID : string; dlAddonKey : string; dlEvent : string; dlFunction : string; dlError : string
}.
Definition DeadLetterEvent : string := "kernel.dispatch.delivery_dead".

Definition truncErr (s : string) : string := str_take 2000 s.

Definition subscriptionOf (r : Delivery) : Subscription :=
  mkSubscription (dAddonKey r) "" (dSubEvent r) (dHandlerType r) (dExport r).

Definition notification (id : string) (event : string) (sub : Subscription) (s : Status) (attempts : Z) (msg : string) : DeliveryResult :=
  mkDeliveryResult id (sAddonKey sub) event (Function_ sub) s attempts msg.
Definition emitDeadLetter (org id event : string) (sub : Subscription) (msg : string) : list dead_letter :=
  if String.eqb event DeadLetterEvent then [] else [mkDeadLetter org id (sAddonKey sub) event (Function_ sub) msg].

(** Every field ends in a zero byte. *)
Definition deliveryID `{Crypto} (eventName occurrenceID : string) (sub : Subscription) : string :=
  hex_encode (sha256 (foldr (fun f acc => f +:+ String "000" acc) EmptyString
    [eventName; occurrenceID; sAddonKey sub; sEvent sub; HandlerType sub; Function_ sub])%string).
Definition replayDeliveryID `{Crypto} (root : string) (gen : Z) : string :=
  hex_encode (sha256 (root +:+ String "000" ("generation:" +:+ dec_string gen))%string).

(** ** Enqueue *)

Section enqueue.
Context `{Crypto, BodyJSON, DispatchEnv}.
Variable opts : Options.

Definition new_row (now : Z) (token org : string) (p : publication) (sub : Subscription) (id : string) : Delivery :=
  mkDelivery org (pName p) (sAddonKey sub) (HandlerType sub) (Function_ sub) StatusPending 1 "" now None
    (pEmitter p) (Some (pPayload p)) (sEvent sub) (pOccurrence p) (ceActorID (pEvent p)) (ceBranchID (pEvent p))
    (ceCorrelationID (pEvent p)) 0 id (Some now) (Some (now + lease opts)) token None.

(** INSERT ... ON CONFLICT DO NOTHING.  [fails] are the deliveries whose
    INSERT the database refuses, [draw] the lease token drawn for each. *)
Definition enqueue (now : Z) (fails : string -> bool) (draw : string -> string) (org : string) (p : publication)
    (sub : Subscription) (t : deliveries) : option bool * deliveries :=
  let id := deliveryID (pName p) (pOccurrence p) sub in
  if fails id then (None, t) else
  match t !! id with
  | Some _ => (Some false, t)
  | None => (Some true, <[id := new_row now (draw id) org p sub id]> t)
  end.

(** The loop over the subscriptions: the deliveries enqueued, in order, and
    those that failed. *)
Fixpoint enqueue_all (now : Z) (fails : string -> bool) (draw : string -> string) (org : string) (p : publication)
    (subs : list Subscription) (t : deliveries) : list (string * Subscription) * list string * deliveries :=
  match subs with
  | [] => ([], [], t)
  | sub :: subs =>
      if negb (eventMatches (sEvent sub) (pName p)) then enqueue_all now fails draw org p subs t else
      let id := deliveryID (pName p) (pOccurrence p) sub in
      let '(ok, t) := enqueue now fails draw org p sub t in
      let '(started, failed, t) := enqueue_all now fails draw org p subs t in
      match ok with
      | None => (started, id :: failed, t)
      | Some true => ((id, sub) :: started, failed, t)
      | Some false => (started, failed, t)
      end
  end.

Inductive handle_error : Type := ErrProvider | ErrInserts (ids : list string).

(** [subs] is the provider's answer, [None] its error; the payload is [None]
    when it cannot be encoded.  [len(enqueued)] is the count reported. *)
Definition handle (resolver : option (string -> string)) (subs : option (list Subscription)) (now : Z) (fresh : string)
    (fails : string -> bool) (draw : string -> string) (c : ctx) (org eventName : string) (payload : option json)
    (t : deliveries) : list (string * Subscription) * option handle_error * deliveries :=
  if 512 <? slen eventName then ([], None, t) else
  if String.eqb eventName "" then ([], None, t) else
  match payload with
  | None => ([], None, t)
  | Some payload =>
      let p := prepare resolver c now org eventName payload fresh in
      match subs with
      | None => ([], Some ErrProvider, t)
      | Some subs =>
          let '(started, failed, t) := enqueue_all now fails draw org p subs t in
          (started, match failed with [] => None | _ => Some (ErrInserts failed) end, t)
      end
  end.

Definition estimate (subs : option (list Subscription)) (eventName : string) : option Z :=
  subs ← subs; Some (Z.of_nat (length (List.filter (fun s => eventMatches (sEvent s) eventName) subs))).
End enqueue.

(** ** Claim, heartbeat *)

Definition expired_lease (now : Z) (r : Delivery) : bool := match dLeaseUntil r with Some u => u <? now | None => false end.

Definition due (opts : Options) (now : Z) (r : Delivery) : bool :=
  bool_decide (dStatus r = StatusPending) && negb (bool_decide (dPayload r = None)) &&
  match dNextAttemptAt r with Some n => n <=? now | None => false end &&
  (bool_decide (dLeaseUntil r = None) || expired_lease now r) && (dAttempts r <? maxAttempts opts).

(** ORDER BY next_attempt_at, created_at. *)
Definition before (a b : string * Delivery) : bool :=
  let next p := default 0 (dNextAttemptAt p.2) in
  (next a <? next b) || ((next a =? next b) && (dCreatedAt a.2 <=? dCreatedAt b.2)).
Definition claimed_row (opts : Options) (now : Z) (token : string) (r : Delivery) : Delivery :=
  update r (dStatus r) (dAttempts r + 1) (dLastError r) (dDeliveredAt r) (dNextAttemptAt r) (Some (now + lease opts, token))
    (dNotReadySince r).
(** [locked] are the rows another statement holds (SKIP LOCKED). *)
Definition claim (opts : Options) (now : Z) (locked : gset string) (n : nat) (token : string) (t : deliveries) :
    list (string * Delivery) * deliveries :=
  update_selected before (fun id r => due opts now r && negb (bool_decide (id ∈ locked))) n (claimed_row opts now token) t.

Definition maxPollerConcurrency : nat := 64.
Definition claimBatch : nat := 32.
(** The number one turn of [sweep] claims, with [running] attempts. *)
Definition sweep_size (running : nat) : nat := (maxPollerConcurrency - running) `min` claimBatch.

(** WHERE delivery_id = ? AND lease_token = ? AND status = 'pending' *)
Definition fenced (id token : string) (t : deliveries) : option Delivery :=
  r ← t !! id; if bool_decide (dStatus r = StatusPending) && String.eqb (dLeaseToken r) token then Some r else None.

(** One tick of the heartbeat; false: the lease is lost. *)
Definition heartbeat (opts : Options) (now : Z) (id token : string) (t : deliveries) : bool * deliveries :=
  match fenced id token t with
  | None => (false, t)
  | Some r =>
      (true, <[id := update r (dStatus r) (dAttempts r) (dLastError r) (dDeliveredAt r) (dNextAttemptAt r)
                       (Some (now + lease opts, token)) (dNotReadySince r)]> t)
  end.

(** ** The outcome of an attempt *)

Definition maxInt (a b : Z) : Z := if b <? a then a else b.
Definition second : Z := 1000000000.

(** What [runClaimed] does with the row at its end. *)
Inductive verdict : Type :=
| VDelivered (attempts : Z)
| VDead (msg : string) (notified : Z) (letter : bool)
| VCancelled (msg : string)
| VReschedule (delay : Z) (msg : string) (refund : bool) (not_ready : option Z)
| VRelease
| VLost.

Section attempt.
Context `{DispatchEnv, UnicodeLower, GoQuote}.
Variable opts : Options.

(** [resolveSub]: [None] is the provider's error.  Handler types are ASCII. *)
Definition resolveSub (subs : option (list Subscription)) (r : Delivery) : option (option Subscription) :=
  subs ← subs;
  Some (List.find (fun s => String.eqb (sAddonKey s) (dAddonKey r) && String.eqb (sEvent s) (dSubEvent r) &&
                           EqualFold (HandlerType s) (dHandlerType r) && String.eqb (Function_ s) (dExport r)) subs).

(** [runClaimed] up to the invocation: the subscription to call, or the
    outcome and the subscription it is announced with.  [provider_err] is the
    text of the provider's error. *)
Definition before_invoke (jitter : Z -> Z) (row : Delivery) (sub : option Subscription) (subs : option (list Subscription))
    (provider_err : string) (can : option (string -> string -> option string)) : (verdict * Subscription) + Subscription :=
  let resolved := match sub with Some s => Some (Some s) | None => resolveSub subs row end in
  match resolved with
  | None =>
      let delay := backoffFor opts jitter (maxInt (dAttempts row + 1) 2) in
      let delay := if delay <? second then second else delay in
      inl (VReschedule delay ("provider: " +:+ provider_err)%string true (dNotReadySince row), subscriptionOf row)
  | Some None => inl (VCancelled "subscription no longer installed or enabled", subscriptionOf row)
  | Some (Some s) =>
      match match can with Some can => can (sAddonKey s) (dEvent row) | None => None end with
      | Some err => inl (VDead ("capability denied: " +:+ err)%string 0 false, s)
      | None => inr s
      end
  end.

Definition delivered_payload (row : Delivery) : json := withGeneration (default JNull (dPayload row)) (dGeneration row).

(** The pause for a subscriber that is not ready, when it still may wait. *)
Definition not_ready_pause (now : Z) (row : Delivery) (err : attempt_error) : option (Z * Z) :=
  if aeNotReady err && (0 <? notReadyWait opts) then
    let since := default now (dNotReadySince row) in
    if now <? since + notReadyWait opts then
      Some (match dNotReadySince row with
            | None => retryBackoff opts
            | Some s =>
                let pause := Z.quot (now - s) 2 in
                let pause := if pause <? second then second else pause in
                if 10 * second <? pause then 10 * second else pause
            end, since)
    else None
  else None.

Definition not_ready_text : string :=
  ": subscriber module never became ready within " +:+ duration_string (notReadyWait opts) +:+
  " (bundle without backend.wasm, compile/instantiate failure or addon disabled; see the host boot log)".

(** After the invocation; [lost]: the heartbeat cancelled the attempt,
    [down]: the process is stopping. *)
Definition after_invoke (jitter : Z -> Z) (now : Z) (row : Delivery) (err : option attempt_error) (lost down : bool) : verdict :=
  match err with
  | None => VDelivered (dAttempts row)
  | Some err =>
      if lost then VLost else
      if down then VRelease else
      match not_ready_pause now row err with
      | Some (pause, since) => VReschedule pause (aeMsg err) true (Some since)
      | None =>
          let retryable := match aeGuest err with Some g => default true (gRetryable g) | None => true end in
          if retryable && (dAttempts row <? maxAttempts opts) then
            let delay := match aeGuest err with
              | Some g => if 0 <? gRetryAfter g then gRetryAfter g else backoffFor opts jitter (dAttempts row + 1)
              | None => backoffFor opts jitter (dAttempts row + 1)
              end in
            VReschedule delay (aeMsg err) false None
          else
            VDead (if aeNotReady err then (aeMsg err +:+ not_ready_text)%string
                   else if negb retryable then ("not retryable: " +:+ aeMsg err)%string else aeMsg err)
              (dAttempts row) true
      end
  end.

(** The write of each outcome, fenced by the lease token of the claimed
    [row], and what is announced when the row was still ours. *)
Definition verdict_row (now : Z) (row r : Delivery) (v : verdict) : Delivery :=
  match v with
  | VDelivered attempts => update r StatusDelivered attempts "" (Some now) (dNextAttemptAt r) None None
  | VDead msg _ _ => update r StatusDead (dAttempts r) (truncErr msg) (dDeliveredAt r) (dNextAttemptAt r) None None
  | VCancelled msg => update r StatusCancelled (dAttempts r) (truncErr msg) (dDeliveredAt r) (dNextAttemptAt r) None None
  | VReschedule delay msg refund not_ready =>
      update r (dStatus r) (if refund && (0 <? dAttempts row) then dAttempts row - 1 else dAttempts row) (truncErr msg)
        (dDeliveredAt r) (Some (now + delay)) None not_ready
  | VRelease =>
      update r (dStatus r) (if 0 <? dAttempts row then dAttempts row - 1 else dAttempts row) (dLastError r)
        (dDeliveredAt r) (Some now) None (dNotReadySince r)
  | VLost => r
  end.
Definition announced (id : string) (row : Delivery) (sub : Subscription) (v : verdict) : list DeliveryResult * list dead_letter :=
  match v with
  | VDelivered attempts => ([notification id (dEvent row) sub StatusDelivered attempts ""], [])
  | VDead msg attempts letter =>
      ([notification id (dEvent row) sub StatusDead attempts msg],
       if letter then emitDeadLetter (dOrg row) id (dEvent row) sub msg else [])
  | VCancelled msg => ([notification id (dEvent row) (subscriptionOf row) StatusCancelled (dAttempts row) msg], [])
  | _ => ([], [])
  end.
Definition settle (now : Z) (id : string) (row : Delivery) (sub : Subscription) (v : verdict) (t : deliveries) :
    list DeliveryResult * list dead_letter * deliveries :=
  match v with
  | VLost => ([], [], t)
  | _ =>
      match fenced id (dLeaseToken row) t with
      | None => ([], [], t)
      | Some r => (announced id row sub v, <[id := verdict_row now row r v]> t)
      end
  end.
End attempt.

(** ** The reaper *)

Definition reapable (opts : Options) (now : Z) (r : Delivery) : bool :=
  bool_decide (dStatus r = StatusPending) && negb (bool_decide (dPayload r = None)) &&
  expired_lease now r && (maxAttempts opts <=? dAttempts r).
Definition reap_message (r : Delivery) : string :=
  "exhausted retries: lease expired during attempt " +:+ dec_string (dAttempts r) +:+ " (the process handling it died or hung)".

(** The UPDATE for one row [r] of the SELECT. *)
Definition reap (id : string) (r : Delivery) (t : deliveries) : list DeliveryResult * list dead_letter * deliveries :=
  match fenced id (dLeaseToken r) t with
  | None => ([], [], t)
  | Some q =>
      let sub := subscriptionOf r in
      (([notification id (dEvent r) sub StatusDead (dAttempts r) (reap_message r)],
        emitDeadLetter (dOrg r) id (dEvent r) sub (reap_message r)),
       <[id := update q StatusDead (dAttempts q) (truncErr (reap_message r)) (dDeliveredAt q) (dNextAttemptAt q) None
                 (dNotReadySince q)]> t)
  end.

(** ** Replay and ForgetDeliveries *)

Record ReplayFilter := mkReplayFilter {
  fOrg : option string; fAddonKey : string; fEvent : string; fFrom : option Z; fTo : option Z;
  fStatuses : list Status; fLimit : Z
}.
Record ReplayResult := mkReplayResult { Requeued : Z; Existing : Z; NoPayload : Z }.

(** SQL LIKE: percent is any text, underscore any character.  A backslash,
    which PostgreSQL takes as an escape, is left as it is. *)
Fixpoint like (pattern s : string) : bool :=
  match pattern with
  | EmptyString => match s with EmptyString => true | _ => false end
  | String p pattern' =>
      if Ascii.eqb p "%" then
        (fix skip s := like pattern' s || match s with EmptyString => false | String _ s => skip s end) s
      else match s with
           | EmptyString => false
           | String c s => (Ascii.eqb p "_" || Ascii.eqb p c) && like pattern' s
           end
  end.

Definition in_filter (f : ReplayFilter) (r : Delivery) : bool :=
  bool_decide (dStatus r ∈ match fStatuses f with [] => [StatusDelivered; StatusDead] | l => l end) &&
  match fOrg f with Some o => String.eqb (dOrg r) o | None => true end &&
  (String.eqb (fAddonKey f) "" || String.eqb (dAddonKey r) (fAddonKey f)) &&
  (String.eqb (fEvent f) "" ||
   (if HasSuffix (fEvent f) ".*" then like (TrimSuffix (fEvent f) "*" +:+ "%") (dEvent r) else String.eqb (dEvent r) (fEvent f))) &&
  match fFrom f with Some x => x <=? dCreatedAt r | None => true end &&
  match fTo f with Some x => dCreatedAt r <? x | None => true end.

Definition created_before (a b : string * Delivery) : bool := dCreatedAt a.2 <=? dCreatedAt b.2.
Definition replay_rows (f : ReplayFilter) (t : deliveries) : list (string * Delivery) :=
  select created_before (fun _ r => in_filter f r) (Z.to_nat (if fLimit f <=? 0 then 1000 else fLimit f)) t.

Section replay.
Context `{Crypto}.
Definition chain_root (id : string) (r : Delivery) : string := if String.eqb (dRoot r) "" then id else dRoot r.
Definition next_generation (now : Z) (root : string) (r : Delivery) : Delivery :=
  mkDelivery (dOrg r) (dEvent r) (dAddonKey r) (dHandlerType r) (dExport r) StatusPending 0 "" now None (dEmitter r) (dPayload r)
    (dSubEvent r) (dEventID r) (dActorID r) (dBranchID r) (dCorrelationID r) (dGeneration r + 1) root (Some now) None "" None.

Fixpoint replay_loop (now : Z) (l : list (string * Delivery)) (t : deliveries) : ReplayResult * deliveries :=
  match l with
  | [] => (mkReplayResult 0 0 0, t)
  | (id, r) :: l =>
      match dPayload r with
      | None => let '(res, t) := replay_loop now l t in (mkReplayResult (Requeued res) (Existing res) (NoPayload res + 1), t)
      | Some _ =>
          let root := chain_root id r in
          let nid := replayDeliveryID root (dGeneration r + 1) in
          match t !! nid with
          | Some _ => let '(res, t) := replay_loop now l t in (mkReplayResult (Requeued res) (Existing res + 1) (NoPayload res), t)
          | None =>
              let '(res, t) := replay_loop now l (<[nid := next_generation now root r]> t) in
              (mkReplayResult (Requeued res + 1) (Existing res) (NoPayload res), t)
          end
      end
  end.
Definition Replay (now : Z) (f : ReplayFilter) (t : deliveries) : ReplayResult * deliveries := replay_loop now (replay_rows f t) t.
End replay.

Definition ForgetDeliveries (addonKey eventName : string) (t : deliveries) : deliveries :=
  if String.eqb addonKey "" || String.eqb eventName "" then t else
  filter (fun p : string * Delivery => ~ (dAddonKey p.2 = addonKey /\ dEvent p.2 = eventName)) t.

(** ** Facts: identities *)

Definition terminated (l : list string) : string := foldr (fun f acc => f +:+ String "000" acc) EmptyString l.

Lemma terminated_inj l l' :
  length l = length l' -> Forall (fun s => str_contains "000" s = false) l -> Forall (fun s => str_contains "000" s = false) l' ->
  terminated l = terminated l' -> l = l'.
Proof.
  revert l'. induction l as [|s l IH]; intros [|s' l'] Hlen Hl Hl' He; try done.
  apply Forall_cons in Hl as [Hs Hl], Hl' as [Hs' Hl']. cbn in He. apply str_cut_inj in He as [-> He]; [|done..].
  f_equal. apply IH; auto.
Qed.

Definition identity_fields (name occ : string) (sub : Subscription) : list string :=
  [name; occ; sAddonKey sub; sEvent sub; HandlerType sub; Function_ sub].

(** Without zero bytes in the fields, two deliveries have one id only if they
    are of one event for one subscription, or collide under SHA-256. *)
Lemma deliveryID_binds `{Crypto} name occ sub name' occ' sub' :
  Forall (fun s => str_contains "000" s = false) (identity_fields name occ sub) ->
  Forall (fun s => str_contains "000" s = false) (identity_fields name' occ' sub') ->
  deliveryID name occ sub = deliveryID name' occ' sub' ->
  identity_fields name occ sub = identity_fields name' occ' sub' \/
  collide sha256 (terminated (identity_fields name occ sub)) (terminated (identity_fields name' occ' sub')).
Proof.
  intros Hf Hf' Hd%hex_encode_inj.
  destruct (decide (terminated (identity_fields name occ sub) = terminated (identity_fields name' occ' sub'))) as [E|Hne]; [left|by right].
  by apply terminated_inj.
Qed.

(** The fields end in a zero byte instead of being prefixed with their
    length, so one that holds a zero byte can be read in two ways. *)
Example deliveryID_ambiguous `{Crypto} sub :
  let nul := String "000" EmptyString in
  deliveryID ("a" +:+ nul +:+ "b") "c" sub = deliveryID "a" ("b" +:+ nul +:+ "c") sub.
Proof. reflexivity. Qed.

(** ** Facts: enqueue *)

Section enqueue_facts.
Context `{Crypto, BodyJSON, DispatchEnv}.
Variable opts : Options.

Definition delivery_of (p : publication) (sub : Subscription) : string := deliveryID (pName p) (pOccurrence p) sub.
(** The subscriptions a publication is for. *)
Definition wanted (p : publication) (subs : list Subscription) (id : string) : Prop :=
  exists sub, sub ∈ subs /\ covered (sEvent sub) (pName p) /\ id = delivery_of p sub.

Lemma wanted_cons p sub subs id :
  wanted p (sub :: subs) id <-> (covered (sEvent sub) (pName p) /\ id = delivery_of p sub) \/ wanted p subs id.
Proof.
  unfold wanted. split.
  - intros (s & [->|Hs]%elem_of_cons & Hc & ->); [by left|right]. by exists s.
  - intros [[Hc ->]|(s & Hs & Hc & ->)]; [exists sub|exists s]; (split; [|done]); [by left|by right].
Qed.

Record enqueued (now : Z) (fails : string -> bool) (draw : string -> string) (org : string) (p : publication)
    (subs : list Subscription) (t : deliveries) (started : list (string * Subscription)) (failed : list string)
    (t' : deliveries) : Prop := mkEnqueued {
  eq_rows : forall id, is_Some (t' !! id) <-> is_Some (t !! id) \/ (wanted p subs id /\ fails id = false);
  eq_kept : forall id r, t !! id = Some r -> t' !! id = Some r;
  eq_new : forall id r, t !! id = None -> t' !! id = Some r ->
    exists sub, (id, sub) ∈ started /\ r = new_row opts now (draw id) org p sub id;
  eq_started : forall id sub, (id, sub) ∈ started ->
    t !! id = None /\ is_Some (t' !! id) /\ sub ∈ subs /\ covered (sEvent sub) (pName p) /\ id = delivery_of p sub;
  eq_once : NoDup started.*1;
  eq_failed : failed = [] <-> forall id, wanted p subs id -> fails id = false
}.

Lemma enqueue_all_spec now fails draw org p subs t started failed t' :
  enqueue_all opts now fails draw org p subs t = (started, failed, t') -> enqueued now fails draw org p subs t started failed t'.
Proof.
  revert t started failed t'. induction subs as [|sub subs IH]; intros t started failed t'; cbn [enqueue_all].
  { intros [= <- <- <-]. split; try done.
    - intros id. split; [by left|]. intros [?|[(? & ?%elem_of_nil & _) _]]; done.
    - intros id r E1 E2. congruence.
    - intros id sub ?%elem_of_nil. done.
    - constructor.
    - split; [|done]. intros _ id (? & ?%elem_of_nil & _). done. }
  destruct (eventMatches (sEvent sub) (pName p)) eqn:Hm; cbn [negb].
  2:{ intros He. apply IH in He as [E1 E2 E3 E4 E5 E6].
      assert (forall id, wanted p (sub :: subs) id <-> wanted p subs id) as Hw.
      { intros id. rewrite wanted_cons. split; [|auto]. intros [[Hc _]|?]; [|done]. apply eventMatches_covered in Hc. congruence. }
      split; [by intros id; rewrite E1, Hw|done|done| |done|rewrite E6; by setoid_rewrite Hw].
      intros id s Hs. apply E4 in Hs as (? & ? & ? & ? & ?). split_and!; try done. by right. }
  apply eventMatches_covered in Hm. unfold enqueue. fold (delivery_of p sub). remember (delivery_of p sub) as id0 eqn:Hid0.
  destruct (fails id0) eqn:Hf.
  { destruct (enqueue_all _ _ _ _ _ _ subs t) as [[st fl] t1] eqn:He. intros [= <- <- <-].
    apply IH in He as [E1 E2 E3 E4 E5 E6]. split; try done.
    - intros id. rewrite E1, wanted_cons. split; [naive_solver|]. intros [?|[[[_ ->]|?] ?]]; [by left|congruence|by right].
    - intros id s Hs. apply E4 in Hs as (? & ? & ? & ? & ?). split_and!; try done. by right.
    - split; [done|]. intros Hw. rewrite Hw in Hf; [done|]. apply wanted_cons. by left. }
  destruct (t !! id0) as [r0|] eqn:Ht.
  { destruct (enqueue_all _ _ _ _ _ _ subs t) as [[st fl] t1] eqn:He. intros [= <- <- <-].
    apply IH in He as [E1 E2 E3 E4 E5 E6]. split; try done.
    - intros id. rewrite E1, wanted_cons. split; [naive_solver|].
      intros [?|[[[_ ->]|?] ?]]; [by left|left; rewrite <- Hid0, Ht; by eexists|by right].
    - intros id s Hs. apply E4 in Hs as (? & ? & ? & ? & ?). split_and!; try done. by right.
    - rewrite E6. setoid_rewrite wanted_cons. split; [|auto]. intros Hall id [[_ ->]|?]; [congruence|auto]. }
  destruct (enqueue_all _ _ _ _ _ _ subs _) as [[st fl] t1] eqn:He. intros [= <- <- <-].
  apply IH in He as [E1 E2 E3 E4 E5 E6].
  assert (t1 !! id0 = Some (new_row opts now (draw id0) org p sub id0)) as Hrow by (apply E2, lookup_insert_eq).
  split.
  - intros id. rewrite E1, wanted_cons, lookup_insert_is_Some'. split; [|naive_solver].
    intros [[<-|?]|[? ?]]; [right|by left|right; naive_solver]. split; [by left|done].
  - intros id r Hr. apply E2. rewrite lookup_insert_ne; [done|]. intros <-. congruence.
  - intros id r Hn Hr. destruct (decide (id = id0)) as [->|Hne].
    + exists sub. split; [by left|]. congruence.
    + destruct (E3 id r) as (s & ? & ?); [by rewrite lookup_insert_ne|done|]. exists s. split; [by right|done].
  - intros id s [[= -> ->]|Hs]%elem_of_cons; [split_and!; try done; first [by eexists|by left]|].
    apply E4 in Hs as (Hn & ? & ? & ? & ?). split_and!; try done; [|by right].
    destruct (decide (id = id0)) as [->|Hne]; [by rewrite lookup_insert_eq in Hn|by rewrite lookup_insert_ne in Hn].
  - cbn. constructor; [|done]. intros ((i & s) & Hi & Hs)%list_elem_of_fmap. cbn in Hi. subst i.
    apply E4 in Hs as (Hn & _). by rewrite lookup_insert_eq in Hn.
  - rewrite E6. setoid_rewrite wanted_cons. split; [|auto]. intros Hall id [[_ ->]|?]; [congruence|auto].
Qed.

(** A publication inserts a row for every subscription of the
    organization whose pattern covers the event, and for no other, except
    those whose INSERT the database refuses, which are reported so that the
    publisher retries; rows already there stay as they are.  Each new row is
    pending with its first attempt leased to the attempt started for it.
    Publishing the same occurrence again with the failed ones repaired
    completes the rows; once nothing failed a repetition starts nothing and
    writes nothing, whoever publishes it and whenever. *)
Theorem handle_enqueues resolver subs now fresh fails draw c org name payload t started err t' :
  slen name <= 512 -> name <> ""%string ->
  handle opts resolver (Some subs) now fresh fails draw c org name (Some payload) t = (started, err, t') ->
  let p := prepare resolver c now org name payload fresh in
  (exists failed, enqueued now fails draw org p subs t started failed t' /\
     err = match failed with [] => None | _ => Some (ErrInserts failed) end) /\
  (forall now2 fresh2 fails2 draw2 c2 started2 err2 t2,
     ceOccurrenceID (event_of (stampEventName payload name)) <> ""%string \/
       (mID (MetaFromContext c) <> ""%string /\ mID (MetaFromContext c2) = mID (MetaFromContext c)) ->
     handle opts resolver (Some subs) now2 fresh2 fails2 draw2 c2 org name (Some payload) t' = (started2, err2, t2) ->
     (forall id, wanted p subs id -> is_Some (t2 !! id) \/ fails2 id = true) /\
     (forall id, id ∈ started2.*1 -> t' !! id = None) /\
     (err = None -> started2 = [] /\ t2 = t')).
Proof.
  intros Hlen Hne Hh p. unfold handle in Hh. apply Z.ltb_ge in Hlen. rewrite Hlen in Hh. apply String.eqb_neq in Hne as Hne'.
  rewrite Hne' in Hh. fold p in Hh. destruct (enqueue_all opts now fails draw org p subs t) as [[st fl] t1] eqn:He.
  injection Hh as -> <- <-. apply enqueue_all_spec in He as Hs. split; [by exists fl|].
  intros now2 fresh2 fails2 draw2 c2 started2 err2 t2 Hid Hh2. unfold handle in Hh2. rewrite Hlen, Hne' in Hh2.
  destruct (prepare_stable resolver c c2 now now2 org org name payload fresh fresh2 Hid) as [Ho Hn].
  set (p2 := prepare resolver c2 now2 org name payload fresh2) in *.
  assert (forall id, wanted p2 subs id <-> wanted p subs id) as Hw.
  { intros id. unfold wanted, delivery_of. fold p in Ho, Hn. rewrite Ho, Hn. done. }
  destruct (enqueue_all opts now2 fails2 draw2 org p2 subs t1) as [[st2 fl2] t3] eqn:He2. injection Hh2 as -> <- <-.
  apply enqueue_all_spec in He2 as [F1 F2 F3 F4 F5 F6]. destruct Hs as [E1 E2 E3 E4 E5 E6]. split_and!.
  - intros id Hi. destruct (fails2 id) eqn:Ef; [by right|left]. apply F1. right. by rewrite Hw.
  - intros id ((i & s) & -> & Hs)%list_elem_of_fmap. by apply F4 in Hs as [? _].
  - destruct fl as [|? ?]; [|done]. intros _.
    assert (forall id, is_Some (t3 !! id) -> is_Some (t1 !! id)) as Hback.
    { intros id [?|[Hi _]]%F1; [done|]. apply E1. right. apply Hw in Hi. split; [done|]. by apply (proj1 E6). }
    split.
    + destruct started2 as [|[i s] l]; [done|]. destruct (F4 i s) as (Hn1 & Hs1 & _); [by left|].
      apply Hback in Hs1. rewrite Hn1 in Hs1. by destruct Hs1.
    + apply map_eq. intros id. destruct (t1 !! id) as [r|] eqn:Hr; [by apply F2|].
      apply eq_None_not_Some. intros Hs1%Hback. rewrite Hr in Hs1. by destruct Hs1.
Qed.
End enqueue_facts.

(** ** Facts: Replay and ForgetDeliveries *)

Section replay_facts.
Context `{Crypto}.

(** The delivery of the next generation of a row. *)
Definition next_id (p : string * Delivery) : string := replayDeliveryID (chain_root p.1 p.2) (dGeneration p.2 + 1).

Record replayed (now : Z) (l : list (string * Delivery)) (t : deliveries) (res : ReplayResult) (t' : deliveries) : Prop := mkReplayed {
  rpl_kept : forall i r, t !! i = Some r -> t' !! i = Some r;
  rpl_there : forall p, p ∈ l -> is_Some (dPayload p.2) -> is_Some (t' !! next_id p);
  rpl_new : forall i r, t !! i = None -> t' !! i = Some r ->
    exists p, p ∈ l /\ is_Some (dPayload p.2) /\ i = next_id p /\ r = next_generation now (chain_root p.1 p.2) p.2;
  rpl_count : Requeued res + Existing res + NoPayload res = Z.of_nat (length l);
  rpl_same : Requeued res = 0 -> t' = t;
  rpl_nonneg : 0 <= Requeued res;
  rpl_all : (forall p, p ∈ l -> is_Some (dPayload p.2) -> is_Some (t !! next_id p)) -> Requeued res = 0
}.

Lemma replay_loop_spec now l t : replayed now l t (replay_loop now l t).1 (replay_loop now l t).2.
Proof.
  revert t. induction l as [|[id r] l IH]; intros t; cbn [replay_loop].
  { split; try done; [by intros p ?%elem_of_nil|]. intros i q Hn Hq. cbn in Hq. congruence. }
  assert (forall p, p ∈ l -> p ∈ (id, r) :: l) as Hin by (intros p Hp; by right).
  destruct (dPayload r) as [pl|] eqn:Hp.
  2:{ specialize (IH t). destruct (replay_loop now l t) as [res t']. cbn [fst snd] in *. destruct IH as [K1 K2 K3 K4 K5 K6 K7].
      split; cbn [fst snd Requeued Existing NoPayload length]; try done; [| |lia|].
      - intros p [->|Hi]%elem_of_cons Hpl; [cbn in Hpl; rewrite Hp in Hpl; by destruct Hpl|auto].
      - intros i q Hn Hq. destruct (K3 i q Hn Hq) as (p & ? & ?). exists p. auto.
      - intros Hall. apply K7. auto. }
  change (replayDeliveryID (chain_root id r) (dGeneration r + 1)) with (next_id (id, r)).
  destruct (t !! next_id (id, r)) as [q0|] eqn:Hq0.
  { specialize (IH t). destruct (replay_loop now l t) as [res t']. cbn [fst snd] in *. destruct IH as [K1 K2 K3 K4 K5 K6 K7].
    split; cbn [fst snd Requeued Existing NoPayload length]; try done; [| |lia|].
    - intros p [->|Hi]%elem_of_cons Hpl; [rewrite (K1 _ _ Hq0); by eexists|auto].
    - intros i q Hn Hq. destruct (K3 i q Hn Hq) as (p & ? & ?). exists p. auto.
    - intros Hall. apply K7. auto. }
  specialize (IH (<[next_id (id, r) := next_generation now (chain_root id r) r]> t)).
  destruct (replay_loop now l _) as [res t']. cbn [fst snd] in *. destruct IH as [K1 K2 K3 K4 K5 K6 K7].
  split; cbn [fst snd Requeued Existing NoPayload length]; [| | |lia|lia|lia|].
  - intros i q Hi. apply K1. rewrite lookup_insert_ne; [done|]. intros <-. congruence.
  - intros p [->|Hi]%elem_of_cons Hpl; [|auto]. rewrite (K1 _ _ (lookup_insert_eq _ _ _)). by eexists.
  - intros i q Hn Hq. destruct (decide (i = next_id (id, r))) as [->|Hne].
    + exists (id, r). split_and!; [by left|cbn; rewrite Hp; by eexists|done|]. cbn [fst snd].
      pose proof (K1 _ _ (lookup_insert_eq t (next_id (id, r)) (next_generation now (chain_root id r) r))). congruence.
    + destruct (K3 i q) as (p & ? & ?); [by rewrite lookup_insert_ne|done|]. exists p. auto.
  - intros Hall. destruct (Hall (id, r)) as [q Hq]; [by left|cbn; rewrite Hp; by eexists|]. congruence.
Qed.

(** A replay keeps every row and adds, for the rows its filter selects
    that have a payload, the next generation of their chain: a new pending
    row with the same event, subscription and payload and none of the
    attempts spent.  Its counts add up.  Repeating it before a newer
    generation has ended adds nothing. *)
Theorem Replay_once now f t res t' :
  Replay now f t = (res, t') ->
  replayed now (replay_rows f t) t res t' /\
  (forall i r, t !! i = None -> t' !! i = Some r -> dStatus r = StatusPending /\ dAttempts r = 0 /\ 
     exists j q, t !! j = Some q /\ in_filter f q = true /\ dPayload r = dPayload q /\ dEvent r = dEvent q /\ dOrg r = dOrg q /\
       subscriptionOf r = subscriptionOf q /\ dGeneration r = dGeneration q + 1) /\
  (StatusPending ∉ fStatuses f ->
   Z.of_nat (length (List.filter (fun p => in_filter f p.2) (map_to_list t))) <= (if fLimit f <=? 0 then 1000 else fLimit f) ->
   forall now2 res2 t2, Replay now2 f t' = (res2, t2) -> t2 = t' /\ Requeued res2 = 0).
Proof.
  intros Hr. pose proof (replay_loop_spec now (replay_rows f t) t) as Hs. unfold Replay in Hr. rewrite Hr in Hs. cbn [fst snd] in Hs.
  split; [done|]. destruct Hs as [K1 K2 K3 K4 K5 K6 K7]. split.
  - intros i r Hn Hi. destruct (K3 i r Hn Hi) as ([j q] & Hin & _ & _ & ->). split_and!; [done..|]. cbn [fst snd].
    apply elem_of_select in Hin as [Hq Hf]. exists j, q. split_and!; done.
  - intros Hpend Hlim now2 res2 t2 Hr2. pose proof (replay_loop_spec now2 (replay_rows f t') t') as [M1 M2 M3 M4 M5 M6 M7].
    unfold Replay in Hr2. rewrite Hr2 in M1, M2, M3, M4, M5, M6, M7. cbn [fst snd] in *.
    assert (Requeued res2 = 0) as H0; [|by rewrite (M5 H0)]. apply M7. intros [j q] Hin Hp. apply elem_of_select in Hin as [Hq Hf].
    apply K2; [|done]. apply select_all; [lia| |done]. destruct (t !! j) as [q'|] eqn:E; [by rewrite (K1 j q' E) in Hq|].
    exfalso. destruct (K3 j q E Hq) as (p & _ & _ & _ & ->). unfold in_filter in Hf. rewrite !andb_true_iff in Hf.
    destruct Hf as [[[[[Hst _] _] _] _] _]. apply bool_decide_eq_true in Hst. cbn in Hst. destruct (fStatuses f) as [|s l] eqn:Es.
    + rewrite !elem_of_cons in Hst. destruct Hst as [?|[?|?%elem_of_nil]]; done.
    + done.
Qed.

(** After a forget, publishing the occurrence again delivers it again. *)
Lemma ForgetDeliveries_lookup addon event t id r :
  addon <> ""%string -> event <> ""%string ->
  ForgetDeliveries addon event t !! id = Some r <-> t !! id = Some r /\ ~ (dAddonKey r = addon /\ dEvent r = event).
Proof.
  intros Ha%String.eqb_neq He%String.eqb_neq. unfold ForgetDeliveries. rewrite Ha, He. cbn [orb]. by rewrite map_lookup_filter_Some.
Qed.
End replay_facts.

(** ** Witnesses *)

#[local] Existing Instances ex_env ex_text plain_hash.

Definition ex_subs : list Subscription :=
  [mkSubscription "crm" "inst" "pos.*" "wasm" "on_sale"; mkSubscription "stock" "inst" "stock.moved" "wasm" "on_move"].
Definition ex_handle (now : Z) (t : deliveries) :=
  handle defaultOptions None (Some ex_subs) now "fresh" (fun _ => false) (fun _ => "w/1"%string) pos_ctx "org" "pos.sold" (Some forged) t.

Lemma handle_enqueues_witness :
  exists started t', ex_handle 0 ∅ = (started, None, t') /\ length started = 1%nat /\
    (ex_handle 5 t').1.1 = [] /\ (ex_handle 5 t').2 = t' /\ NoDup started.*1.
Proof.
  assert ((length (ex_handle 0 ∅).1.1, (ex_handle 0 ∅).1.2) = (1%nat, None)) as E1 by (vm_compute; reflexivity).
  destruct (ex_handle 0 ∅) as [[started err] t'] eqn:E. cbn [fst snd] in E1. injection E1 as Hlen Herr.
  subst err. exists started, t'.
  destruct (handle_enqueues defaultOptions None ex_subs 0 "fresh" (fun _ => false) (fun _ => "w/1"%string) pos_ctx "org" "pos.sold" forged ∅ started None t')
    as [(failed & Henq & _) Hrep]; [discriminate|discriminate|exact E|].
  split; [reflexivity|]. split; [exact Hlen|].
  destruct (ex_handle 5 t') as [[st2 err2] t2] eqn:E2.
  destruct (Hrep 5 "fresh"%string (fun _ => false) (fun _ => "w/1"%string) pos_ctx st2 err2 t2) as (_ & _ & Hsame); [|exact E2|].
  - left. discriminate.
  - destruct (Hsame eq_refl) as [-> ->]. split; [reflexivity|]. split; [reflexivity|]. exact (eq_once _ _ _ _ _ _ _ _ _ _ _ Henq).
Defined.

Definition ex_row : Delivery :=
  mkDelivery "org" "pos.sold" "crm" "wasm" "on_sale" StatusDelivered 1 "" 0 (Some 5) "pos" (Some (JObject [])) "pos.*" "evt-1" "" "" "" 0
    "d1" (Some 0) None "" None.
Lemma Replay_once_witness :
  let f := mkReplayFilter None "crm" "pos.*" None None [] 0 in
  let t := {["d1"%string := ex_row]} in
  exists t', Replay 9 f t = (mkReplayResult 1 0 0, t') /\ Replay 10 f t' = (mkReplayResult 0 1 0, t') /\ t' !! "d1"%string = Some ex_row.
Proof.
  intros f t. destruct (Replay 9 f t) as [res t'] eqn:E.
  assert (res = mkReplayResult 1 0 0) as -> by (apply (f_equal fst) in E; vm_compute in E; exact (eq_sym E)).
  exists t'. split; [reflexivity|]. destruct (Replay_once 9 f t _ _ E) as (Hk & _ & Hrep).
  assert ((Replay 10 f (Replay 9 f t).2).1 = mkReplayResult 0 1 0) as E3 by (vm_compute; reflexivity).
  rewrite E in E3. cbn [snd] in E3. destruct (Replay 10 f t') as [res2 t2] eqn:E2. cbn [fst] in E3. subst res2.
  destruct (Hrep ltac:(apply not_elem_of_nil) ltac:(vm_compute; discriminate) 10 _ t2 E2) as [-> Hz].
  split; [reflexivity|]. apply (rpl_kept _ _ _ _ _ Hk). reflexivity.
Defined.
