(* ===== verification/DispatchRuns.v ===== *)
(** * The event dispatcher: any interleaving (dispatch/ledger.go,
    dispatch/enqueue.go)

    Any number of processes on one ledger: publications, sweeps, the attempts
    in flight with their heartbeats, the reaper's SELECT and its UPDATEs, and
    replays, each statement on the clock of the process that runs it.  A
    process may die anywhere, also between a write and its announcement. *)

From stdpp Require Import gmap.
From S2P Require Import Prelude GoStrings Tables GoHTTP GoJSON Signing EventBus DispatchEvent Dispatch.

(** ** State and events *)

(** [runClaimed(row, sub)]; the subscription once the handler is called, and
    whether the heartbeat found the lease lost. *)
Record attempt := mkAttempt {
  aID : string; aRow : Delivery; aSub : option Subscription; aRunning : option Subscription; aLost : bool
}.

(** The rows a reaper selected and has not updated yet; the lease tokens
    drawn; what was announced; the handlers called with their payload; the
    attempts given back, by delivery. *)
Record world := mkWorld {
  wTable : deliveries; wAttempts : list attempt; wReaps : list (string * Delivery); wUsed : gset string;
  wNotes : list DeliveryResult; wLetters : list dead_letter; wCalls : list (string * Subscription * json);
  wRefunds : list string
}.
Definition empty_world : world := mkWorld ∅ [] [] ∅ [] [] [] [].

Inductive event : Type :=
| EvPublish (resolver : option (string -> string)) (c : ctx) (org name : string) (payload : option json)
    (subs : option (list Subscription)) (now : Z) (fresh : string) (fails : string -> bool) (draw : string -> string)
    (down : string -> bool)
| EvSweep (now : Z) (locked : gset string) (running : nat) (token : string)
| EvPrepare (k : nat) (now : Z) (subs : option (list Subscription)) (provider_err : string)
    (can : option (string -> string -> option string)) (jitter : Z -> Z) (told : bool)
| EvBeat (k : nat) (now : Z)
| EvReturn (k : nat) (now wnow : Z) (inv : invokers) (jitter : Z -> Z) (down told : bool)
| EvCrash (k : nat)
| EvSelect (now : Z) (ids : list string)
| EvReap (k : nat) (told : bool)
| EvDrop (k : nat)
| EvReplay (now : Z) (f : ReplayFilter).

Definition refunds (v : verdict) : bool :=
  match v with VRelease => true | VReschedule _ _ refund _ => refund | _ => false end.

Section exec.
Context `{Crypto, BodyJSON, DispatchEnv, UnicodeLower, GoQuote}.
Variable opts : Options.

Definition start (sub : string -> option Subscription) (p : string * Delivery) : attempt :=
  mkAttempt p.1 p.2 (sub p.1) None false.

(** The attempt [k] ends with [v]. *)
Definition end_attempt (k : nat) (a : attempt) (now : Z) (sub : Subscription) (v : verdict) (told : bool) (w : world) : world :=
  let '(notes, letters, t) := settle now (aID a) (aRow a) sub v (wTable w) in
  mkWorld t (delete k (wAttempts w)) (wReaps w) (wUsed w)
    (if told then wNotes w ++ notes else wNotes w) (if told then wLetters w ++ letters else wLetters w) (wCalls w)
    (if refunds v && bool_decide (is_Some (fenced (aID a) (dLeaseToken (aRow a)) (wTable w)))
     then aID a :: wRefunds w else wRefunds w).

(** [None]: the event is not possible in this state. *)
Definition exec (e : event) (w : world) : option world :=
  let '(mkWorld t ats reaps used notes letters calls refs) := w in
  match e with
  | EvPublish resolver c org name payload subs now fresh fails draw down =>
      let '(started, _, t') := handle opts resolver subs now fresh fails draw c org name payload t in
      guard (Forall (fun p : string * Subscription => draw p.1 ∉ used /\ draw p.1 <> ""%string) started);;
      let rows := omap (fun p : string * Subscription =>
        if down p.1 then None else r ← t' !! p.1; Some (mkAttempt p.1 r (Some p.2) None false)) started in
      Some (mkWorld t' (ats ++ rows) reaps (list_to_set (map (fun p => draw p.1) started) ∪ used) notes letters calls refs)
  | EvSweep now locked running token =>
      guard (token ∉ used /\ token <> ""%string);;
      let '(claimed, t') := claim opts now locked (sweep_size running) token t in
      Some (mkWorld t' (ats ++ map (start (fun _ => None)) claimed) reaps ({[token]} ∪ used) notes letters calls refs)
  | EvPrepare k now subs provider_err can jitter told =>
      a ← ats !! k;
      match aRunning a with
      | Some _ => None
      | None =>
          match before_invoke opts jitter (aRow a) (aSub a) subs provider_err can with
          | inl (v, sub) => Some (end_attempt k a now sub v told w)
          | inr sub =>
              Some (mkWorld t (<[k := mkAttempt (aID a) (aRow a) (aSub a) (Some sub) (aLost a)]> ats) reaps used notes letters
                     ((aID a, sub, delivered_payload (aRow a)) :: calls) refs)
          end
      end
  | EvBeat k now =>
      a ← ats !! k;
      if aLost a then None else
      let '(ok, t') := heartbeat opts now (aID a) (dLeaseToken (aRow a)) t in
      Some (mkWorld t' (<[k := mkAttempt (aID a) (aRow a) (aSub a) (aRunning a) (negb ok)]> ats) reaps used notes letters calls refs)
  | EvReturn k now wnow inv jitter down told =>
      a ← ats !! k;
      sub ← aRunning a;
      let err := invoke inv (dOrg (aRow a)) (delivered_payload (aRow a)) sub in
      Some (end_attempt k a wnow sub (after_invoke opts jitter now (aRow a) err (aLost a) down) told w)
  | EvCrash k => _ ← ats !! k; Some (mkWorld t (delete k ats) reaps used notes letters calls refs)
  | EvSelect now ids =>
      guard (length ids <= 50)%nat;;
      Some (mkWorld t ats (reaps ++ omap (fun i => r ← t !! i; if reapable opts now r then Some (i, r) else None) ids) used
             notes letters calls refs)
  | EvReap k told =>
      p ← reaps !! k;
      let '(n, l, t') := reap p.1 p.2 t in
      Some (mkWorld t' ats (delete k reaps) used (if told then notes ++ n else notes) (if told then letters ++ l else letters) calls refs)
  | EvDrop k => _ ← reaps !! k; Some (mkWorld t ats (delete k reaps) used notes letters calls refs)
  | EvReplay now f => Some (mkWorld (Replay now f t).2 ats reaps used notes letters calls refs)
  end.

Fixpoint run (es : list event) (w : world) : option world :=
  match es with [] => Some w | e :: es => w ← exec e w; run es w end.
End exec.

(** ** How a row may change *)

(** The columns no statement changes. *)
Definition core (r : Delivery) : Delivery := update r StatusPending 0 "" None None None None.

Section inv.
Variable opts : Options.
Hypothesis Hopts : options_ok opts.

Record row_ok (r : Delivery) : Prop := mkRowOk {
  ro_payload : is_Some (dPayload r);
  ro_next : is_Some (dNextAttemptAt r);
  ro_attempts : 0 <= dAttempts r <= maxAttempts opts;
  ro_token : dLeaseUntil r = None -> dLeaseToken r = ""%string;
  ro_free : dStatus r = StatusPending -> dLeaseUntil r = None -> dAttempts r < maxAttempts opts;
  ro_leased : is_Some (dLeaseUntil r) -> dStatus r = StatusPending /\ 1 <= dAttempts r /\ dLeaseToken r <> ""%string
}.

(** What one statement does to one row: nothing, inserts it, claims it under
    a fresh token, renews its lease, or ends it. *)
Inductive evolves (used used' : gset string) : option Delivery -> option Delivery -> Prop :=
| EvoSame o : evolves used used' o o
| EvoCreated r :
    row_ok r -> dStatus r = StatusPending -> (is_Some (dLeaseUntil r) -> dLeaseToken r ∈ used' /\ dLeaseToken r ∉ used) ->
    evolves used used' None (Some r)
| EvoClaimed r now token :
    due opts now r = true -> token ∈ used' -> token ∉ used -> token <> ""%string ->
    evolves used used' (Some r) (Some (claimed_row opts now token r))
| EvoRenewed r until :
    is_Some (dLeaseUntil r) ->
    evolves used used' (Some r) (Some (update r (dStatus r) (dAttempts r) (dLastError r) (dDeliveredAt r) (dNextAttemptAt r)
      (Some (until, dLeaseToken r)) (dNotReadySince r)))
| EvoEnded r r' :
    is_Some (dLeaseUntil r) -> core r' = core r -> is_Some (dNextAttemptAt r') -> dLeaseUntil r' = None ->
    dLeaseToken r' = ""%string -> dAttempts r - 1 <= dAttempts r' <= dAttempts r ->
    (dStatus r' = StatusPending -> dAttempts r' < maxAttempts opts) ->
    evolves used used' (Some r) (Some r').

Lemma core_columns r q : core r = core q ->
  dOrg r = dOrg q /\ dEvent r = dEvent q /\ dAddonKey r = dAddonKey q /\ dHandlerType r = dHandlerType q /\ dExport r = dExport q /\
  dPayload r = dPayload q /\ dSubEvent r = dSubEvent q /\ dGeneration r = dGeneration q.
Proof.
  intros E. pose proof (f_equal dOrg E). pose proof (f_equal dEvent E). pose proof (f_equal dAddonKey E).
  pose proof (f_equal dHandlerType E). pose proof (f_equal dExport E). pose proof (f_equal dPayload E).
  pose proof (f_equal dSubEvent E). pose proof (f_equal dGeneration E). by split_and!.
Qed.

Lemma due_spec now r : due opts now r = true ->
  dStatus r = StatusPending /\ is_Some (dPayload r) /\ (exists n, dNextAttemptAt r = Some n /\ n <= now) /\
  (dLeaseUntil r = None \/ exists u, dLeaseUntil r = Some u /\ u < now) /\ dAttempts r < maxAttempts opts.
Proof.
  unfold due, expired_lease. rewrite !andb_true_iff, negb_true_iff, orb_true_iff, bool_decide_eq_true, bool_decide_eq_false, Z.ltb_lt.
  intros [[[[Hs Hp] Hn] Hl] Ha]. split_and!; [done|by destruct (dPayload r)| | |done].
  - destruct (dNextAttemptAt r) as [n|]; [|done]. exists n. split; [done|]. by apply Z.leb_le.
  - destruct Hl as [Hl|Hl]; [left; by apply bool_decide_eq_true in Hl|right].
    destruct (dLeaseUntil r) as [u|]; [|done]. exists u. split; [done|]. by apply Z.ltb_lt.
Qed.

Lemma evolves_row_ok used used' o r' :
  (forall r, o = Some r -> row_ok r) -> evolves used used' o (Some r') -> row_ok r'.
Proof.
  intros Hok He. remember (Some r') as o' eqn:Eo.
  destruct He as [o|r Hr _ _|r now token Hd _ _ Hne|r until Hl|r q Hl Hc Hn Hu Ht Ha Hf].
  - by apply Hok.
  - by injection Eo as <-.
  - injection Eo as <-. specialize (Hok r eq_refl). destruct Hok as [H1 H2 H3 H4 H5 H6].
    apply due_spec in Hd as (Hs & _ & _ & _ & Ha). split; cbn; try done; [lia|]. intros _. split_and!; [done|lia|done].
  - injection Eo as <-. specialize (Hok r eq_refl). destruct Hok as [H1 H2 H3 H4 H5 H6].
    destruct (H6 Hl) as (? & ? & ?). split; cbn; done.
  - injection Eo as <-. specialize (Hok r eq_refl). destruct Hok as [H1 H2 H3 H4 H5 H6]. destruct (H6 Hl) as (? & ? & ?).
    split; try done.
    + by apply core_columns in Hc as (_ & _ & _ & _ & _ & -> & _).
    + lia.
    + intros Hp _. by apply Hf.
    + rewrite Hu. intros Hsome. by destruct Hsome.
Qed.

(** The fixed columns of a row that is there stay. *)
Lemma evolves_core used used' r o' : evolves used used' (Some r) o' -> exists r', o' = Some r' /\ core r' = core r.
Proof.
  intros He. remember (Some r) as o eqn:Eo. destruct He as [o|q|q now token|q until|q q' _ Hc]; try done.
  - by exists r.
  - injection Eo as ->. by eexists.
  - injection Eo as ->. by eexists.
  - injection Eo as ->. by eexists.
Qed.

(** A terminal row stays as it is. *)
Lemma evolves_terminal used used' r o' :
  row_ok r -> dStatus r <> StatusPending -> evolves used used' (Some r) o' -> o' = Some r.
Proof.
  intros Hok Hs He. remember (Some r) as o eqn:Eo. destruct He as [o|q|q now token Hd|q until Hl|q q' Hl]; try done.
  - injection Eo as ->. by apply due_spec in Hd as (? & _).
  - injection Eo as ->. by destruct (ro_leased r Hok Hl).
  - injection Eo as ->. by destruct (ro_leased r Hok Hl).
Qed.

Lemma fenced_Some id token t r :
  fenced id token t = Some r <-> t !! id = Some r /\ dStatus r = StatusPending /\ dLeaseToken r = token.
Proof.
  unfold fenced. destruct (t !! id) as [q|] eqn:E; cbn; [|naive_solver].
  destruct (bool_decide_reflect (dStatus q = StatusPending)) as [Hs|Hs]; cbn.
  - destruct (String.eqb_spec (dLeaseToken q) token); naive_solver.
  - naive_solver.
Qed.

(** A lease held under a token that was drawn before is still the same one. *)
Lemma evolves_fenced used used' (t t' : deliveries) id token r' :
  evolves used used' (t !! id) (t' !! id) ->
  token ∈ used -> token <> ""%string -> fenced id token t' = Some r' ->
  exists r, fenced id token t = Some r /\ core r = core r' /\ dAttempts r = dAttempts r'.
Proof.
  intros He Hu Hne (Hr & Hs & Ht)%fenced_Some. setoid_rewrite fenced_Some. rewrite Hr in He.
  remember (Some r') as o' eqn:Eo. remember (t !! id) as o eqn:Eq.
  destruct He as [o|r Hro _ Hf|r now tok Hd _ Hf _|r until Hl|r q Hl Hc Hn Hlu Htk Ha Hfr].
  - exists r'. by rewrite Eo.
  - injection Eo as ->. destruct (decide (is_Some (dLeaseUntil r'))) as [Hl|Hl]; [by destruct (Hf Hl); subst token|].
    exfalso. apply Hne. rewrite <- Ht. apply (ro_token r' Hro). by apply eq_None_not_Some.
  - injection Eo as <-. cbn in Ht. congruence.
  - injection Eo as <-. exists r. by cbn in *.
  - injection Eo as <-. congruence.
Qed.

Lemma evolves_attempts used used' r r' :
  evolves used used' (Some r) (Some r') -> dAttempts r - 1 <= dAttempts r' <= dAttempts r + 1.
Proof.
  intros He. remember (Some r) as o eqn:Eo. remember (Some r') as o' eqn:Eo'. destruct He; simplify_eq; cbn; lia.
Qed.

(** ** The ledger and who holds it *)

(** [ids] are the attempts in flight with the rows they claimed. *)
Record held (t : deliveries) (ids reaps : list (string * Delivery)) (used : gset string) : Prop := mkHeld {
  hd_rows : forall id r, t !! id = Some r -> row_ok r;
  hd_used : forall id r, t !! id = Some r -> is_Some (dLeaseUntil r) -> dLeaseToken r ∈ used;
  hd_tokens : forall id r, (id, r) ∈ ids -> dLeaseToken r ∈ used /\ dLeaseToken r <> ""%string /\ row_ok r;
  hd_unique : NoDup (map (fun p => (p.1, dLeaseToken p.2)) ids);
  hd_rows_of : forall id r, (id, r) ∈ ids \/ (id, r) ∈ reaps -> exists q, t !! id = Some q /\ core q = core r;
  hd_copy : forall id r q, (id, r) ∈ ids -> fenced id (dLeaseToken r) t = Some q -> dAttempts q = dAttempts r;
  hd_reaps : forall id r, (id, r) ∈ reaps ->
    dLeaseToken r ∈ used /\ dLeaseToken r <> ""%string /\ row_ok r /\ maxAttempts opts <= dAttempts r /\
    (forall q, fenced id (dLeaseToken r) t = Some q -> dAttempts q = dAttempts r)
}.

Lemma held_move t t' ids ids' new reaps reaps' used used' :
  held t ids reaps used -> (forall id, evolves used used' (t !! id) (t' !! id)) -> used ⊆ used' ->
  ids' `sublist_of` ids -> NoDup (map (fun p => (p.1, dLeaseToken p.2)) new) ->
  (forall id r, (id, r) ∈ new -> dLeaseToken r ∈ used' /\ dLeaseToken r ∉ used /\ dLeaseToken r <> ""%string /\ t' !! id = Some r) ->
  (forall p, p ∈ reaps' -> p ∈ reaps) ->
  held t' (ids' ++ new) reaps' used'.
Proof.
  intros [H1 H2 H3 H4 H5 H6 H7] He Hsub Hids Hnd Hnew Hre.
  assert (forall id r, t' !! id = Some r -> row_ok r) as H1'.
  { intros id r Hr. specialize (He id). rewrite Hr in He. eapply evolves_row_ok; [|exact He]. intros q Hq. by apply (H1 id). }
  assert (forall id r, (id, r) ∈ ids' -> (id, r) ∈ ids) as Hin by (intros id r Hi; by eapply elem_of_sublist).
  split; [done|..].
  - intros id r Hr Hl. specialize (He id). specialize (H2 id). rewrite Hr in He.
    remember (Some r) as o' eqn:Eo. destruct He as [o|q _ _ Hf|q now tok _ Hf _ _|q until Hq|q q' _ _ _ Hn].
    + by apply Hsub, H2.
    + injection Eo as ->. by apply Hf.
    + by injection Eo as <-.
    + injection Eo as <-. by apply Hsub, (H2 q).
    + injection Eo as ->. rewrite Hn in Hl. by destruct Hl.
  - intros id r [Hi|Hi]%elem_of_app; [destruct (H3 id r) as (? & ? & ?); auto|].
    destruct (Hnew id r Hi) as (? & ? & ? & ?). split_and!; try done. by apply (H1' id).
  - rewrite map_app. apply NoDup_app. split_and!; [|..|done].
    + eapply sublist_NoDup; [exact H4|]. by apply (fmap_sublist (fun p => (p.1, dLeaseToken p.2))).
    + intros p ((i & r) & -> & Hi)%list_elem_of_fmap ((i' & r') & E & Hi')%list_elem_of_fmap. cbn in E. injection E as -> Et.
      destruct (Hnew i' r' Hi') as (_ & Hn & _). apply Hn. rewrite <- Et. by apply (H3 i' r), Hin.
  - intros id r [[Hi|Hi]%elem_of_app|Hi].
    + destruct (H5 id r) as (q & Hq & Hc); [auto|]. specialize (He id). rewrite Hq in He.
      apply evolves_core in He as (q' & -> & Hc'). exists q'. split; congruence.
    + destruct (Hnew id r Hi) as (_ & _ & _ & ?). by exists r.
    + destruct (H5 id r) as (q & Hq & Hc); [auto|]. specialize (He id). rewrite Hq in He.
      apply evolves_core in He as (q' & -> & Hc'). exists q'. split; congruence.
  - intros id r q [Hi|Hi]%elem_of_app Hf.
    + destruct (H3 id r) as (Hu & Hne & _); [auto|].
      destruct (evolves_fenced used used' t t' id _ q (He id) Hu Hne Hf) as (q0 & Hf0 & _ & Ha). rewrite <- Ha. eauto.
    + destruct (Hnew id r Hi) as (_ & _ & _ & Hr). apply fenced_Some in Hf as (Hq & _). congruence.
  - intros id r Hi%Hre. destruct (H7 id r Hi) as (Hu & Hne & ? & ? & Hc). split_and!; try done; [by apply Hsub|].
    intros q Hf. destruct (evolves_fenced used used' t t' id _ q (He id) Hu Hne Hf) as (q0 & Hf0 & _ & Ha). rewrite <- Ha. eauto.
Qed.

(** The same without new attempts. *)
Lemma held_step t t' ids ids' reaps reaps' used used' :
  held t ids reaps used -> (forall id, evolves used used' (t !! id) (t' !! id)) -> used ⊆ used' ->
  ids' `sublist_of` ids -> (forall p, p ∈ reaps' -> p ∈ reaps) -> held t' ids' reaps' used'.
Proof.
  intros Hh He Hsub Hids Hre. rewrite <- (app_nil_r ids'). eapply held_move; try done; [constructor|]. by intros ? ? ?%elem_of_nil.
Qed.

Lemma evolves_insert used used' (t : deliveries) id r :
  evolves used used' (t !! id) (Some r) -> forall i, evolves used used' (t !! i) (<[id := r]> t !! i).
Proof.
  intros He i. destruct (decide (i = id)) as [->|Hne]; [by rewrite lookup_insert_eq|]. rewrite lookup_insert_ne by done. constructor.
Qed.
End inv.

(** ** What each statement does to the rows *)

Section statements.
Context `{Crypto, BodyJSON, DispatchEnv, UnicodeLower, GoQuote}.
Variable opts : Options.
Hypothesis Hopts : options_ok opts.

Abbreviation evo := (evolves opts).

Lemma new_row_ok now token org p sub id : token <> ""%string -> row_ok opts (new_row opts now token org p sub id).
Proof. intros Ht. destruct Hopts. split; cbn; try done; try lia; by eexists. Qed.

Lemma claim_evolves now locked n token t used :
  token ∉ used -> token <> ""%string ->
  forall i, evo used ({[token]} ∪ used) (t !! i) ((claim opts now locked n token t).2 !! i).
Proof.
  intros Hu Hne i. unfold claim.
  pose proof (update_selected_lookup before (fun id r => due opts now r && negb (bool_decide (id ∈ locked))) n (claimed_row opts now token) t i) as Hl.
  destruct (_.2 !! i) as [r'|].
  - destruct Hl as [(r & -> & [Hd _]%andb_true_iff & ->)%elem_of_updated|[_ ->]]; [|constructor].
    apply EvoClaimed; [done|set_solver|done..].
  - rewrite Hl. constructor.
Qed.

Lemma heartbeat_evolves now id token t used :
  (forall i r, t !! i = Some r -> row_ok opts r) -> token <> ""%string ->
  forall i, evo used used (t !! i) ((heartbeat opts now id token t).2 !! i).
Proof.
  intros Hok Hne i. unfold heartbeat. destruct (fenced id token t) as [r|] eqn:Hf; [|constructor].
  apply fenced_Some in Hf as (Hr & Hs & <-). cbn [snd]. apply evolves_insert. rewrite Hr.
  apply EvoRenewed. destruct (dLeaseUntil r) eqn:El; [by eexists|]. exfalso. by apply Hne, (ro_token opts r (Hok id r Hr)).
Qed.

Lemma leased_of id token t r :
  (forall i r, t !! i = Some r -> row_ok opts r) -> token <> ""%string -> fenced id token t = Some r ->
  is_Some (dLeaseUntil r) /\ row_ok opts r /\ t !! id = Some r /\ dStatus r = StatusPending.
Proof.
  intros Hok Hne (Hr & Hs & <-)%fenced_Some. specialize (Hok id r Hr). split_and!; try done.
  destruct (dLeaseUntil r) eqn:El; [by eexists|]. exfalso. by apply Hne, (ro_token opts r).
Qed.

(** The verdicts that keep a delivery pending leave it an attempt. *)
Definition verdict_ok (row : Delivery) (v : verdict) : Prop :=
  match v with
  | VReschedule _ _ refund _ => refund = false -> dAttempts row < maxAttempts opts
  | VDelivered n => n = dAttempts row
  | _ => True
  end.

Lemma before_invoke_ok jitter row sub subs perr can v s :
  before_invoke opts jitter row sub subs perr can = inl (v, s) -> verdict_ok row v.
Proof.
  unfold before_invoke. destruct (match sub with Some _ => _ | None => _ end) as [[s'|]|]; [|by intros [= <- _]|by intros [= <- _]].
  destruct (match can with Some _ => _ | None => _ end); [|done]. by intros [= <- _].
Qed.
Lemma after_invoke_ok jitter now row err lost down : verdict_ok row (after_invoke opts jitter now row err lost down).
Proof.
  unfold after_invoke. destruct err as [err|]; [|done]. destruct lost; [done|]. destruct down; [done|].
  destruct (not_ready_pause _ _ _ _) as [[? ?]|]; [done|].
  destruct (match aeGuest err with Some g => default true (gRetryable g) | None => true end); [|done]. cbn [andb].
  destruct (Z.ltb_spec (dAttempts row) (maxAttempts opts)); [by intros _|done].
Qed.

(** [settle] writes one row, of the lease holder, and announces it at most
    once, with the status it wrote; or it does nothing. *)
Lemma settle_spec now id row sub v t notes letters t' :
  settle now id row sub v t = (notes, letters, t') ->
  (t' = t /\ notes = [] /\ letters = [] /\ (v = VLost \/ fenced id (dLeaseToken row) t = None)) \/
  (exists r, v <> VLost /\ fenced id (dLeaseToken row) t = Some r /\ t' = <[id := verdict_row now row r v]> t /\
     (notes, letters) = announced id row sub v).
Proof.
  unfold settle. assert (v = VLost \/ v <> VLost) as [->|Hv] by (destruct v; auto); [intros [= <- <- <-]; left; auto 10|].
  destruct (fenced id (dLeaseToken row) t) as [r|]; intros Hs.
  - right. exists r. destruct v; try done; injection Hs as <- <- <-; done.
  - left. destruct v; injection Hs as <- <- <-; auto 10.
Qed.

Lemma verdict_row_evolves used now row r v :
  row_ok opts r -> is_Some (dLeaseUntil r) -> dAttempts r = dAttempts row -> verdict_ok row v -> v <> VLost ->
  evo used used (Some r) (Some (verdict_row now row r v)).
Proof.
  intros Hr Hl Ha Hv Hne. destruct (ro_leased opts r Hr Hl) as (Hs & Hpos & _). pose proof (ro_attempts opts r Hr) as Hmax.
  pose proof (ro_next opts r Hr) as Hnext.
  apply EvoEnded; try done; destruct v; cbn [verdict_row update dAttempts dStatus dNextAttemptAt] in *; try done; try lia; try by eexists.
  - cbn in Hv. lia.
  - destruct refund; cbn; [destruct (Z.ltb_spec 0 (dAttempts row))|]; lia.
  - destruct (Z.ltb_spec 0 (dAttempts row)); lia.
  - intros _. destruct refund; cbn; [destruct (Z.ltb_spec 0 (dAttempts row)); lia|]. by apply Hv.
  - intros _. destruct (Z.ltb_spec 0 (dAttempts row)); lia.
Qed.

Lemma settle_evolves used now id row sub v t :
  (forall i r, t !! i = Some r -> row_ok opts r) -> dLeaseToken row <> ""%string ->
  (forall q, fenced id (dLeaseToken row) t = Some q -> dAttempts q = dAttempts row) -> verdict_ok row v ->
  forall i, evo used used (t !! i) ((settle now id row sub v t).2 !! i).
Proof.
  intros Hok Hne Hc Hv i. destruct (settle now id row sub v t) as [[notes letters] t'] eqn:E.
  apply settle_spec in E as [(-> & _)|(r & Hl & Hf & -> & _)]; [constructor|]. cbn [snd].
  destruct (leased_of id _ t r Hok Hne Hf) as (Hls & Hr & Ht & _). apply evolves_insert. rewrite Ht.
  apply verdict_row_evolves; auto.
Qed.

Lemma reap_evolves used id row t :
  (forall i r, t !! i = Some r -> row_ok opts r) -> dLeaseToken row <> ""%string ->
  forall i, evo used used (t !! i) ((reap id row t).2 !! i).
Proof.
  intros Hok Hne i. unfold reap. destruct (fenced id (dLeaseToken row) t) as [r|] eqn:Hf; [|constructor].
  destruct (leased_of id _ t r Hok Hne Hf) as (Hls & Hr & Ht & _). cbn [snd]. apply evolves_insert. rewrite Ht.
  apply EvoEnded; cbn; try done; [by apply (ro_next opts r)|lia].
Qed.

Lemma replay_evolves used now f t :
  (forall i r, t !! i = Some r -> row_ok opts r) -> forall i, evo used used (t !! i) ((Replay now f t).2 !! i).
Proof.
  intros _ i. unfold Replay. generalize (replay_rows f t). intros l. revert t.
  enough (forall t, (t !! i = None /\ exists r, (replay_loop now l t).2 !! i = Some r /\ row_ok opts r /\ dStatus r = StatusPending /\ dLeaseUntil r = None) \/
    (replay_loop now l t).2 !! i = t !! i) as Hall.
  { intros t. destruct (Hall t) as [(-> & r & -> & Hr & Hs & Hl)|E]; [|rewrite E; constructor].
    apply EvoCreated; [done..|]. rewrite Hl. intros Hsome. by destruct Hsome. }
  induction l as [|[id r] l IH]; intros t; cbn [replay_loop]; [by right|].
  destruct (dPayload r) as [pl|] eqn:Hp.
  2:{ specialize (IH t). by destruct (replay_loop now l t). }
  destruct (t !! replayDeliveryID (chain_root id r) (dGeneration r + 1)) as [q|] eqn:Hq.
  { specialize (IH t). by destruct (replay_loop now l t). }
  specialize (IH (<[replayDeliveryID (chain_root id r) (dGeneration r + 1) := next_generation now (chain_root id r) r]> t)).
  destruct (replay_loop now l _) as [res t']. cbn [snd] in *.
  destruct (decide (i = replayDeliveryID (chain_root id r) (dGeneration r + 1))) as [->|Hne].
  - rewrite lookup_insert_eq in IH. destruct IH as [[? _]|E]; [done|]. left. split; [done|]. eexists. split; [exact E|].
    split; [|done]. destruct Hopts. split; cbn; try done; try lia; try by eexists; try (intros Hsome; by destruct Hsome).
  - rewrite lookup_insert_ne in IH by done. done.
Qed.

Lemma handle_evolves resolver subs now fresh fails draw c org name payload t started err t' used :
  handle opts resolver subs now fresh fails draw c org name payload t = (started, err, t') ->
  Forall (fun p : string * Subscription => draw p.1 ∉ used /\ draw p.1 <> ""%string) started ->
  (forall i, evo used (list_to_set (map (fun p => draw p.1) started) ∪ used) (t !! i) (t' !! i)) /\ NoDup started.*1 /\
  (forall i s, (i, s) ∈ started -> t !! i = None /\ exists p, t' !! i = Some (new_row opts now (draw i) org p s i) /\
     covered (sEvent s) (pName p)) /\
  (forall i r, t !! i = Some r -> t' !! i = Some r) /\ (forall i, t !! i = None -> is_Some (t' !! i) -> i ∈ started.*1).
Proof.
  unfold handle. destruct (512 <? slen name); [intros [= <- <- <-] _; split_and!; [constructor|constructor|by intros ? ? ?%elem_of_nil|done|intros ? Hn Hsome; rewrite Hn in Hsome; by destruct Hsome]|].
  destruct (String.eqb name ""); [intros [= <- <- <-] _; split_and!; [constructor|constructor|by intros ? ? ?%elem_of_nil|done|intros ? Hn Hsome; rewrite Hn in Hsome; by destruct Hsome]|].
  destruct payload as [payload|]; [|intros [= <- <- <-] _; split_and!; [constructor|constructor|by intros ? ? ?%elem_of_nil|done|intros ? Hn Hsome; rewrite Hn in Hsome; by destruct Hsome]].
  destruct subs as [subs|]; [|intros [= <- <- <-] _; split_and!; [constructor|constructor|by intros ? ? ?%elem_of_nil|done|intros ? Hn Hsome; rewrite Hn in Hsome; by destruct Hsome]].
  set (p := prepare _ _ _ _ _ _ _). destruct (enqueue_all _ _ _ _ _ _ _ _) as [[st fl] t1] eqn:He.
  intros [= <- <- <-] Hd. apply enqueue_all_spec in He as [E1 E2 E3 E4 E5 E6]. rewrite Forall_forall in Hd. split_and!; [|done| |done|].
  - intros i. destruct (t !! i) as [r|] eqn:Hr; [rewrite (E2 i r Hr); constructor|].
    destruct (t1 !! i) as [r|] eqn:Hr1; [|constructor]. destruct (E3 i r Hr Hr1) as (s & Hs & ->).
    destruct (Hd _ Hs) as [Hn Hne]. cbn in Hn, Hne. apply EvoCreated; [by apply new_row_ok|done|]. cbn. intros _. split; [|done].
    apply elem_of_union_l, elem_of_list_to_set, list_elem_of_fmap. by exists (i, s).
  - intros i s Hs. destruct (E4 i s Hs) as (Hn & [r Hr] & _ & Hc & _). split; [done|]. exists p.
    destruct (E3 i r Hn Hr) as (s' & Hs' & ->). assert (s = s') as -> by (by eapply NoDup_fst_functional). done.
  - intros i Hn [r Hr]. destruct (E3 i r Hn Hr) as (s & Hs & _). apply list_elem_of_fmap. by exists (i, s).
Qed.
End statements.

(** ** The invariant of the whole *)

(** The subscription is the one the row was made for. *)
Definition for_row (s : Subscription) (r : Delivery) : Prop :=
  sAddonKey s = dAddonKey r /\ sEvent s = dSubEvent r /\ Function_ s = dExport r /\
  (HandlerType s = dHandlerType r \/ EqualFold (HandlerType s) (dHandlerType r) = true).

Lemma for_row_core s r q : core r = core q -> for_row s r -> for_row s q.
Proof. intros (_ & _ & E1 & E2 & E3 & _ & E4 & _)%core_columns. unfold for_row. by rewrite E1, E2, E3, E4. Qed.

Definition idents (w : world) : list (string * Delivery) := map (fun a => (aID a, aRow a)) (wAttempts w).

(** How often a delivery was handed to its handler, is about to be, and was
    given back without spending the attempt. *)
Definition calls_of (id : string) (w : world) : nat :=
  length (List.filter (fun c : string * Subscription * json => String.eqb c.1.1 id) (wCalls w)).
Definition waiting (id : string) (a : attempt) : bool :=
  String.eqb (aID a) id && match aRunning a with None => true | Some _ => false end.
Definition starting (id : string) (l : list attempt) : nat := length (List.filter (waiting id) l).
Definition refunds_of (id : string) (w : world) : nat := length (List.filter (String.eqb id) (wRefunds w)).
Definition attempts_of (id : string) (t : deliveries) : Z := match t !! id with Some r => dAttempts r | None => 0 end.

Definition reported (t : deliveries) (n : DeliveryResult) : Prop :=
  exists r, t !! rDeliveryID n = Some r /\ dStatus r = rStatus n /\ dStatus r <> StatusPending.

Record winv (opts : Options) (w : world) : Prop := mkWinv {
  wi_held : held opts (wTable w) (idents w) (wReaps w) (wUsed w);
  wi_notes : forall n, n ∈ wNotes w -> reported (wTable w) n;
  wi_once : NoDup (map rDeliveryID (wNotes w));
  wi_letters : forall l, l ∈ wLetters w -> dlEvent l <> DeadLetterEvent /\
    exists r, wTable w !! dlDeliveryID l = Some r /\ dStatus r = StatusDead;
  wi_spent : forall id, Z.of_nat (calls_of id w + starting id (wAttempts w)) <=
    attempts_of id (wTable w) + Z.of_nat (refunds_of id w);
  wi_subs : forall a s, a ∈ wAttempts w -> aSub a = Some s \/ aRunning a = Some s -> for_row s (aRow a);
  wi_covers : forall id r, wTable w !! id = Some r -> covered (dSubEvent r) (dEvent r);
  wi_called : forall id s p, (id, s, p) ∈ wCalls w ->
    exists r, wTable w !! id = Some r /\ for_row s r /\ p = delivered_payload r
}.

Lemma delivered_payload_core r q : core r = core q -> delivered_payload r = delivered_payload q.
Proof. intros (_ & _ & _ & _ & _ & E1 & _ & E2)%core_columns. unfold delivered_payload. by rewrite E1, E2. Qed.

Section winv.
Variable opts : Options.

Lemma winv_empty : winv opts empty_world.
Proof.
  assert (forall A (x : A), x ∈ [] -> False) as Hnil by (intros A x Hx; by apply elem_of_nil in Hx).
  split; cbn; try done; try (by intros; exfalso; eapply Hnil); try constructor;
    try (intros ? ?; rewrite lookup_empty; done).
  - intros ? ? Hx. exfalso. by eapply Hnil.
  - constructor.
  - intros ? ? [Hx|Hx]; exfalso; by eapply Hnil.
  - intros ? ? ? Hx. exfalso. by eapply Hnil.
  - intros ? ? Hx. exfalso. by eapply Hnil.
Qed.

Lemma reported_evolves used used' t t' n :
  (forall i r, t !! i = Some r -> row_ok opts r) -> evolves opts used used' (t !! rDeliveryID n) (t' !! rDeliveryID n) ->
  reported t n -> reported t' n.
Proof.
  intros Hok He (r & Hr & Hs & Hp). rewrite Hr in He. apply evolves_terminal in He; [|by eapply Hok|done].
  exists r. by rewrite He.
Qed.

(** What holds of the announcements and the handlers called stays true of the
    evolved table; the rest is the step's own. *)
Lemma winv_move t t' ats ats' reaps reaps' used used' notes letters calls calls' refs refs' :
  winv opts (mkWorld t ats reaps used notes letters calls refs) ->
  (forall id, evolves opts used used' (t !! id) (t' !! id)) ->
  held opts t' (idents (mkWorld t' ats' reaps' used' notes letters calls' refs')) reaps' used' ->
  (forall a s, a ∈ ats' -> aSub a = Some s \/ aRunning a = Some s -> for_row s (aRow a)) ->
  (forall id r, t' !! id = Some r -> t !! id = None -> covered (dSubEvent r) (dEvent r)) ->
  (forall id s p, (id, s, p) ∈ calls' -> (id, s, p) ∈ calls \/
     exists r, t' !! id = Some r /\ for_row s r /\ p = delivered_payload r) ->
  (forall id, Z.of_nat (length (List.filter (fun c : string * Subscription * json => String.eqb c.1.1 id) calls') + starting id ats') -
     attempts_of id t' - Z.of_nat (length (List.filter (String.eqb id) refs')) <=
     Z.of_nat (length (List.filter (fun c : string * Subscription * json => String.eqb c.1.1 id) calls) + starting id ats) -
     attempts_of id t - Z.of_nat (length (List.filter (String.eqb id) refs))) ->
  winv opts (mkWorld t' ats' reaps' used' notes letters calls' refs').
Proof.
  intros [H1 H2 H3 H4 H5 H6 H7 H8] He Hh Hs Hc Hcalls Hn. cbn [wTable wAttempts wReaps wUsed wNotes wLetters wCalls wRefunds] in *.
  pose proof (hd_rows _ _ _ _ _ H1) as Hok. cbn [wTable] in Hok.
  assert (forall id r, t !! id = Some r -> exists r', t' !! id = Some r' /\ core r' = core r) as Hcore.
  { intros id r Hr. specialize (He id). rewrite Hr in He. by apply evolves_core in He. }
  split; cbn [wTable wAttempts wReaps wUsed wNotes wLetters wCalls wRefunds]; [done| |done| | |done| |].
  - intros n Hin. eapply reported_evolves; [exact Hok|apply He|]. by apply H2.
  - intros l Hin. destruct (H4 l Hin) as (? & r & Hr & Hd). split; [done|]. exists r. split; [|done].
    specialize (He (dlDeliveryID l)). rewrite Hr in He. apply evolves_terminal in He; [done|by eapply Hok|by rewrite Hd].
  - intros id. specialize (Hn id). specialize (H5 id). unfold calls_of, refunds_of in *. cbn [wCalls wRefunds] in *. lia.
  - intros id r Hr. destruct (t !! id) as [q|] eqn:Hq; [|by eapply Hc].
    destruct (Hcore id q Hq) as (r' & Hr' & Hcr). rewrite Hr in Hr'. injection Hr' as <-.
    apply core_columns in Hcr as (_ & -> & _ & _ & _ & _ & -> & _). by eapply H7.
  - intros id s p [Hin|?]%Hcalls; [|done]. destruct (H8 id s p Hin) as (r & Hr & Hf & Hp).
    destruct (Hcore id r Hr) as (r' & Hr' & Hcr). exists r'. split_and!; [done|by eapply for_row_core|].
    rewrite Hp. by apply delivered_payload_core.
Qed.

(** Announcing one delivery that has just ended. *)
Lemma winv_announce t ats reaps used notes letters calls refs new newl :
  winv opts (mkWorld t ats reaps used notes letters calls refs) ->
  (forall n, n ∈ new -> reported t n) -> NoDup (map rDeliveryID new) ->
  (forall n m, n ∈ new -> m ∈ notes -> rDeliveryID n <> rDeliveryID m) ->
  (forall l, l ∈ newl -> dlEvent l <> DeadLetterEvent /\ exists r, t !! dlDeliveryID l = Some r /\ dStatus r = StatusDead) ->
  winv opts (mkWorld t ats reaps used (notes ++ new) (letters ++ newl) calls refs).
Proof.
  intros [H1 H2 H3 H4 H5 H6 H7 H8] Hn Hd Hne Hl. split; try done; cbn [wTable wNotes wLetters] in *.
  - intros n [?|?]%elem_of_app; auto.
  - rewrite map_app. apply NoDup_app. split_and!; [done| |done].
    intros i (m & -> & Hm)%list_elem_of_fmap (n & E & Hin)%list_elem_of_fmap. by eapply Hne.
  - intros l [?|?]%elem_of_app; auto.
Qed.
End winv.

(** ** Counting *)

Definition b2n (b : bool) : nat := if b then 1%nat else 0%nat.

#[local] Arguments waiting : simpl never.

Lemma starting_app id l k : starting id (l ++ k) = (starting id l + starting id k)%nat.
Proof. unfold starting. by rewrite List.filter_app, length_app. Qed.
Lemma starting_insert id k a a' (l : list attempt) :
  l !! k = Some a -> (starting id (<[k := a']> l) + b2n (waiting id a) = starting id l + b2n (waiting id a'))%nat.
Proof.
  intros Hk. unfold starting. revert k Hk. induction l as [|b l IH]; intros [|k] Hk; cbn in Hk |- *; try done.
  - injection Hk as ->. destruct (waiting id a), (waiting id a'); cbn; lia.
  - specialize (IH k Hk). destruct (waiting id b); [exact (f_equal S IH)|exact IH].
Qed.
Lemma starting_delete id k a (l : list attempt) :
  l !! k = Some a -> (starting id (delete k l) + b2n (waiting id a) = starting id l)%nat.
Proof.
  intros Hk. unfold starting. revert k Hk. induction l as [|b l IH]; intros [|k] Hk; cbn in Hk |- *; try done.
  - injection Hk as ->. destruct (waiting id a); cbn; lia.
  - specialize (IH k Hk). destruct (waiting id b); [exact (f_equal S IH)|exact IH].
Qed.
(** New attempts of different deliveries. *)
Lemma starting_new id (l : list attempt) :
  NoDup (map aID l) -> (starting id l <= b2n (bool_decide (id ∈ map aID l)))%nat.
Proof.
  unfold starting. induction l as [|a l IH]; [done|]. cbn [map]. intros [Ha Hl]%NoDup_cons. specialize (IH Hl). cbn [List.filter].
  destruct (waiting id a) eqn:Hw.
  - unfold waiting in Hw. apply andb_true_iff in Hw as [<-%String.eqb_eq _].
    rewrite (bool_decide_eq_false_2 (aID a ∈ map aID l)) in IH by done. rewrite bool_decide_eq_true_2 by (by left). cbn in *. lia.
  - destruct (bool_decide_reflect (id ∈ map aID l)); [rewrite bool_decide_eq_true_2 by (by right); done|]. cbn in *. lia.
Qed.

Lemma attempts_insert_ne id i (r : Delivery) t : i <> id -> attempts_of i (<[id := r]> t) = attempts_of i t.
Proof. intros Hne. unfold attempts_of. by rewrite lookup_insert_ne. Qed.
Lemma attempts_insert id (r : Delivery) t : attempts_of id (<[id := r]> t) = dAttempts r.
Proof. unfold attempts_of. by rewrite lookup_insert_eq. Qed.

Lemma NoDup_fst_pair {A B} (g : string * A -> B) (l : list (string * A)) :
  NoDup (map fst l) -> NoDup (map (fun p => (p.1, g p)) l).
Proof.
  intros Hn. apply (NoDup_fmap_1 fst). change (NoDup (map fst (map (fun p => (p.1, g p)) l))). by rewrite map_map.
Qed.

Lemma idents_insert k a a' l t re u n le c rf :
  l !! k = Some a -> aID a' = aID a -> aRow a' = aRow a ->
  idents (mkWorld t (<[k := a']> l) re u n le c rf) = map (fun a => (aID a, aRow a)) l.
Proof.
  intros Hk Hi Hr. unfold idents. cbn [wAttempts]. change (map ?f ?l) with (f <$> l).
  rewrite list_fmap_insert. apply list_insert_id. rewrite list_lookup_fmap, Hk. cbn. congruence.
Qed.
Lemma idents_delete k (l : list attempt) :
  map (fun a => (aID a, aRow a)) (delete k l) `sublist_of` map (fun a => (aID a, aRow a)) l.
Proof. apply (fmap_sublist (fun a => (aID a, aRow a))), sublist_delete. Qed.
Lemma elem_ident k a (l : list attempt) : l !! k = Some a -> (aID a, aRow a) ∈ map (fun a => (aID a, aRow a)) l.
Proof. intros Hk. apply list_elem_of_fmap. exists a. split; [done|]. by eapply list_elem_of_lookup_2. Qed.

(** ** Every event keeps the invariant *)

Section events.
Context `{Crypto, BodyJSON, DispatchEnv, UnicodeLower, GoQuote}.
Variable opts : Options.
Hypothesis Hopts : options_ok opts.

(** A statement that starts no attempt, gives none back and hands nothing to
    a handler. *)
Lemma winv_rows t t' ats ats' reaps reaps' used used' notes letters calls refs :
  winv opts (mkWorld t ats reaps used notes letters calls refs) ->
  (forall id, evolves opts used used' (t !! id) (t' !! id)) -> used ⊆ used' ->
  map (fun a => (aID a, aRow a)) ats' `sublist_of` map (fun a => (aID a, aRow a)) ats -> (forall p, p ∈ reaps' -> p ∈ reaps) ->
  (forall a s, a ∈ ats' -> aSub a = Some s \/ aRunning a = Some s -> for_row s (aRow a)) ->
  (forall id r, t' !! id = Some r -> t !! id = None -> covered (dSubEvent r) (dEvent r)) ->
  (forall id, (starting id ats' <= starting id ats)%nat) -> (forall id, attempts_of id t <= attempts_of id t') ->
  winv opts (mkWorld t' ats' reaps' used' notes letters calls refs).
Proof.
  intros Hw He Hu Hi Hr Hs Hc Hst Ha. eapply winv_move; [exact Hw|exact He| |done|done|by left|].
  - eapply held_step; [exact (wi_held _ _ Hw)|done..].
  - intros id. specialize (Hst id). specialize (Ha id). lia.
Qed.

Lemma winv_crash t ats k reaps used notes letters calls refs :
  is_Some (ats !! k) -> winv opts (mkWorld t ats reaps used notes letters calls refs) ->
  winv opts (mkWorld t (delete k ats) reaps used notes letters calls refs).
Proof.
  intros [a Hk] Hw. eapply winv_rows; [exact Hw|constructor|done|apply idents_delete|done| | | |done].
  - intros b s Hb. apply (wi_subs _ _ Hw). cbn. eapply elem_of_sublist; [exact Hb|apply sublist_delete].
  - intros id r Hr Hn. congruence.
  - intros id. pose proof (starting_delete id k a ats Hk). lia.
Qed.

Lemma winv_drop t ats k reaps used notes letters calls refs :
  winv opts (mkWorld t ats reaps used notes letters calls refs) ->
  winv opts (mkWorld t ats (delete k reaps) used notes letters calls refs).
Proof.
  intros Hw. eapply winv_rows; [exact Hw|constructor|done|done| | | |done|done].
  - intros p Hp. eapply elem_of_sublist; [exact Hp|apply sublist_delete].
  - apply (wi_subs _ _ Hw).
  - intros id r Hr Hn. congruence.
Qed.

Lemma winv_beat t ats k a now reaps used notes letters calls refs :
  ats !! k = Some a -> winv opts (mkWorld t ats reaps used notes letters calls refs) ->
  let '(ok, t') := heartbeat opts now (aID a) (dLeaseToken (aRow a)) t in
  winv opts (mkWorld t' (<[k := mkAttempt (aID a) (aRow a) (aSub a) (aRunning a) (negb ok)]> ats) reaps used notes letters calls refs).
Proof.
  intros Hk Hw. pose proof (wi_held _ _ Hw) as Hh. cbn [wTable wReaps wUsed] in Hh.
  destruct (hd_tokens _ _ _ _ _ Hh (aID a) (aRow a)) as (Hu & Hne & _); [by eapply elem_ident|].
  pose proof (heartbeat_evolves opts now (aID a) (dLeaseToken (aRow a)) t used (hd_rows _ _ _ _ _ Hh) Hne) as He.
  assert (forall id, attempts_of id t <= attempts_of id (heartbeat opts now (aID a) (dLeaseToken (aRow a)) t).2) as Ha.
  { intros id. unfold heartbeat. destruct (fenced _ _ t) as [r|] eqn:Hf; [|done]. cbn [snd]. apply fenced_Some in Hf as (Hr & _).
    unfold attempts_of. destruct (decide (id = aID a)) as [->|Hn]; [by rewrite lookup_insert_eq, Hr|by rewrite lookup_insert_ne]. }
  assert (forall id, t !! id = None -> (heartbeat opts now (aID a) (dLeaseToken (aRow a)) t).2 !! id = None) as Hnone.
  { intros id Hn. unfold heartbeat. destruct (fenced _ _ t) as [r|] eqn:Hf; [|done]. cbn [snd]. apply fenced_Some in Hf as (Hr & _).
    rewrite lookup_insert_ne; [done|]. intros <-. congruence. }
  destruct (heartbeat opts now _ _ t) as [ok t']. cbn [snd] in *.
  eapply winv_rows; [exact Hw|exact He|done| |done| | | |exact Ha].
  - rewrite <- (idents_insert k a (mkAttempt (aID a) (aRow a) (aSub a) (aRunning a) (negb ok)) ats t reaps used notes letters calls refs);
      [done|done|done|done].
  - intros b s Hb Hs. apply list_elem_of_lookup in Hb as [j Hj]. apply list_lookup_insert_Some in Hj as [(-> & <- & _)|[_ Hj]].
    + apply (wi_subs _ _ Hw a s); [by eapply list_elem_of_lookup_2|done].
    + apply (wi_subs _ _ Hw b s); [by eapply list_elem_of_lookup_2|done].
  - intros id r Hr Hn. rewrite (Hnone id Hn) in Hr. done.
  - intros id. pose proof (starting_insert id k a (mkAttempt (aID a) (aRow a) (aSub a) (aRunning a) (negb ok)) ats Hk) as Hc.
    assert (waiting id (mkAttempt (aID a) (aRow a) (aSub a) (aRunning a) (negb ok)) = waiting id a) as E by done.
    rewrite E in Hc. lia.
Qed.

Lemma winv_replay t ats reaps used notes letters calls refs now f :
  winv opts (mkWorld t ats reaps used notes letters calls refs) ->
  winv opts (mkWorld (Replay now f t).2 ats reaps used notes letters calls refs).
Proof.
  intros Hw. pose proof (wi_held _ _ Hw) as Hh. cbn [wTable wReaps wUsed] in Hh.
  assert (forall l t, (forall id r, (id, r) ∈ l -> covered (dSubEvent r) (dEvent r)) ->
    (forall id, t !! id = None -> (replay_loop now l t).2 !! id = None \/
       exists r, (replay_loop now l t).2 !! id = Some r /\ covered (dSubEvent r) (dEvent r) /\ dAttempts r = 0) /\
    (forall id r, t !! id = Some r -> (replay_loop now l t).2 !! id = Some r)) as Hloop.
  { induction l as [|[id r] l IH]; intros t0 Hl; cbn [replay_loop]; [auto|].
    assert (forall i q, (i, q) ∈ l -> covered (dSubEvent q) (dEvent q)) as Hl' by (intros i q Hq; apply (Hl i q); by right).
    destruct (dPayload r) as [pl|]; [|specialize (IH t0 Hl'); by destruct (replay_loop now l t0)].
    destruct (t0 !! replayDeliveryID (chain_root id r) (dGeneration r + 1)) as [q|] eqn:Hq;
      [specialize (IH t0 Hl'); by destruct (replay_loop now l t0)|].
    destruct (IH (<[replayDeliveryID (chain_root id r) (dGeneration r + 1) := next_generation now (chain_root id r) r]> t0) Hl') as [I1 I2].
    destruct (replay_loop now l _) as [res t']. cbn [snd] in *. split.
    - intros i Hi. destruct (decide (i = replayDeliveryID (chain_root id r) (dGeneration r + 1))) as [->|Hne].
      + right. eexists. split; [apply I2, lookup_insert_eq|]. split; [|done]. cbn. apply (Hl id r). by left.
      + apply I1. by rewrite lookup_insert_ne.
    - intros i q Hi. apply I2. rewrite lookup_insert_ne; [done|]. intros <-. congruence. }
  destruct (Hloop (replay_rows f t) t) as [L1 L2].
  { intros id r Hin. apply elem_of_select in Hin as [Hr _]. by eapply (wi_covers _ _ Hw). }
  eapply winv_rows; [exact Hw|by apply replay_evolves, (hd_rows _ _ _ _ _ Hh)|done..|by apply (wi_subs _ _ Hw)| |done|].
  - intros id r Hr Hn. unfold Replay in Hr. destruct (L1 id Hn) as [E|(q & E & ? & _)]; rewrite E in Hr; [done|]. by injection Hr as <-.
  - intros id. unfold attempts_of, Replay. destruct (t !! id) as [r|] eqn:Hr; [by rewrite (L2 id r Hr)|].
    destruct (L1 id Hr) as [->|(q & -> & _ & ->)]; done.
Qed.

Lemma winv_select t ats reaps used notes letters calls refs now ids :
  winv opts (mkWorld t ats reaps used notes letters calls refs) ->
  winv opts (mkWorld t ats (reaps ++ omap (fun i => r ← t !! i; if reapable opts now r then Some (i, r) else None) ids)
    used notes letters calls refs).
Proof.
  intros Hw. eapply winv_move; [exact Hw|constructor| |by apply (wi_subs _ _ Hw)| |by left|done].
  2:{ intros id r Hr Hn. congruence. }
  destruct (wi_held _ _ Hw) as [H1' H2' H3' H4' H5' H6' H7']. cbn [wTable wReaps wUsed] in *.
  assert (forall id r, (id, r) ∈ omap (fun i => r ← t !! i; if reapable opts now r then Some (i, r) else None) ids ->
    t !! id = Some r /\ reapable opts now r = true) as Hsel.
  { intros id r (i & _ & Hi)%list_elem_of_omap. apply bind_Some in Hi as (q & Hq & Hi).
    destruct (reapable opts now q) eqn:E; [|done]. by injection Hi as <- <-. }
  split; try done.
  - intros id r [Hi|[Hi|Hi]%elem_of_app]; [by apply H5'; left|by apply H5'; right|]. apply Hsel in Hi as [? _]. by exists r.
  - intros id r [Hi|Hi]%elem_of_app; [by apply H7'|]. apply Hsel in Hi as [Hr Hre]. unfold reapable, expired_lease in Hre.
    rewrite !andb_true_iff in Hre. destruct Hre as [[_ Hl] Hm%Z.leb_le].
    destruct (dLeaseUntil r) as [u|] eqn:El; [|done].
    destruct (ro_leased opts r (H1' id r Hr)) as (_ & _ & Hne); [by eexists|].
    split_and!; [apply (H2' id r Hr); by eexists|done|by apply (H1' id)|done|].
    intros q (Hq & _)%fenced_Some. congruence.
Qed.

Lemma winv_sweep t ats reaps used notes letters calls refs now locked n token :
  winv opts (mkWorld t ats reaps used notes letters calls refs) -> token ∉ used -> token <> ""%string ->
  winv opts (mkWorld (claim opts now locked n token t).2 (ats ++ map (start (fun _ => None)) (claim opts now locked n token t).1)
    reaps ({[token]} ∪ used) notes letters calls refs).
Proof.
  intros Hw Hu Hne. set (cl := (claim opts now locked n token t).1). set (t' := (claim opts now locked n token t).2).
  assert (map fst cl = map fst (select before (fun id r => due opts now r && negb (bool_decide (id ∈ locked))) n t)) as Hk
    by apply updated_keys.
  assert (forall id r', (id, r') ∈ cl -> exists r, t !! id = Some r /\ r' = claimed_row opts now token r /\ t' !! id = Some r') as Hcl.
  { intros id r' Hin. apply elem_of_updated in Hin as Hin'. destruct Hin' as (r & Hr & _ & ->). exists r. split_and!; [done..|].
    pose proof (update_selected_lookup before (fun id r => due opts now r && negb (bool_decide (id ∈ locked))) n (claimed_row opts now token) t id) as Hl.
    fold (claim opts now locked n token t) in Hl. fold t' cl in Hl. destruct (t' !! id) as [q|]; [|congruence].
    destruct Hl as [Hq|[Hn _]].
    - f_equal. eapply NoDup_fst_functional; [|exact Hq|exact Hin]. rewrite Hk. apply select_keys.
    - exfalso. apply Hn. rewrite <- Hk. apply list_elem_of_fmap. by exists (id, claimed_row opts now token r). }
  assert (forall id, t' !! id = None <-> t !! id = None) as Hnone by (intros id; apply update_selected_none).
  assert (map (fun a => (aID a, aRow a)) (map (start (fun _ => None)) cl) = cl) as Hid.
  { rewrite map_map. clear. induction cl as [|[i r] l IH]; [done|]. cbn [map]. by rewrite IH. }
  pose proof (claim_evolves opts Hopts now locked n token t used Hu Hne) as He. fold t' in He.
  eapply winv_move; [exact Hw|exact He| | | |by left|].
  - replace (idents _) with (idents (mkWorld t ats reaps used notes letters calls refs) ++ cl)
      by (unfold idents; cbn [wAttempts]; by rewrite map_app, Hid).
    eapply held_move; [exact (wi_held _ _ Hw)|exact He|set_solver|done| | |done].
    + apply NoDup_fst_pair. rewrite Hk. apply select_keys.
    + intros id r' Hin. destruct (Hcl id r' Hin) as (r & Hr & -> & Hr'). cbn [claimed_row update dLeaseToken]. split_and!; [set_solver|done..].
  - intros a s [Ha|Ha]%elem_of_app Hs; [by eapply (wi_subs _ _ Hw)|].
    apply list_elem_of_fmap in Ha as (p & -> & _). destruct Hs; done.
  - intros id r Hr Hn. apply Hnone in Hn. congruence.
  - intros id. rewrite starting_app.
    assert (map aID (map (start (fun _ => None)) cl) = map fst cl) as Hids by (by rewrite map_map).
    pose proof (starting_new id (map (start (fun _ => None)) cl)) as Hst. rewrite Hids, Hk in Hst. specialize (Hst (select_keys _ _ _ _)).
    rewrite <- Hk in Hst. unfold attempts_of. destruct (t' !! id) as [r'|] eqn:Hr'.
    + pose proof (update_selected_lookup before (fun id r => due opts now r && negb (bool_decide (id ∈ locked))) n (claimed_row opts now token) t id) as Hl.
      fold (claim opts now locked n token t) in Hl. fold t' cl in Hl. rewrite Hr' in Hl. rewrite <- Hk in Hl. destruct Hl as [Hin|[Hn Hr]].
      * destruct (Hcl id r' Hin) as (r & Hr & -> & _). rewrite Hr. cbn [claimed_row update dAttempts].
        destruct (bool_decide (id ∈ map fst cl)); cbn [b2n] in Hst; lia.
      * rewrite Hr. rewrite bool_decide_eq_false_2 in Hst by done. cbn [b2n] in Hst. lia.
    + apply Hnone in Hr' as Hr. rewrite Hr. rewrite bool_decide_eq_false_2 in Hst; [cbn [b2n] in Hst; lia|].
      intros ((i & q) & -> & Hin)%list_elem_of_fmap. cbn in *. destruct (Hcl i q Hin) as (? & ? & _ & _). congruence.
Qed.

Lemma omap_elem_sublist {A B} (f : A -> option B) (g : B -> string) (h : A -> string) l :
  (forall a b, f a = Some b -> g b = h a) -> map g (omap f l) `sublist_of` map h l.
Proof.
  intros Hf. induction l as [|a l IH]; cbn; [done|]. destruct (f a) as [b|] eqn:E; cbn; [|by constructor].
  rewrite (Hf a b E). by constructor.
Qed.

Lemma winv_publish t ats reaps used notes letters calls refs resolver c org name payload subs now fresh fails draw down started err t' :
  winv opts (mkWorld t ats reaps used notes letters calls refs) ->
  handle opts resolver subs now fresh fails draw c org name payload t = (started, err, t') ->
  Forall (fun p : string * Subscription => draw p.1 ∉ used /\ draw p.1 <> ""%string) started ->
  winv opts (mkWorld t' (ats ++ omap (fun p : string * Subscription =>
      if down p.1 : bool then None else r ← t' !! p.1; Some (mkAttempt p.1 r (Some p.2) None false)) started) reaps
    (list_to_set (map (fun p => draw p.1) started) ∪ used) notes letters calls refs).
Proof.
  intros Hw Hh Hd. destruct (handle_evolves opts Hopts _ _ _ _ _ _ _ _ _ _ _ _ _ _ used Hh Hd) as (He & Hnd & Hst & Hkeep & Hnew).
  set (rows := omap _ _). rewrite Forall_forall in Hd.
  assert (forall a, a ∈ rows -> exists s, (aID a, s) ∈ started /\ t' !! aID a = Some (aRow a) /\ aSub a = Some s /\ aRunning a = None) as Hrows.
  { intros a ([i s] & Hin & Ha)%list_elem_of_omap. cbn in Ha. destruct (down i); [done|]. apply bind_Some in Ha as (r & Hr & [= <-]).
    by exists s. }
  assert (map aID rows `sublist_of` started.*1) as Hids.
  { apply omap_elem_sublist. intros [i s] a Ha. cbn in Ha. destruct (down i); [done|]. by apply bind_Some in Ha as (r & _ & [= <-]). }
  assert (forall a, a ∈ rows -> t !! aID a = None /\ exists s p, aSub a = Some s /\ aRow a = new_row opts now (draw (aID a)) org p s (aID a) /\
    covered (sEvent s) (pName p)) as Hrow.
  { intros a Ha. destruct (Hrows a Ha) as (s & Hs & Hr & Hsub & _). destruct (Hst _ _ Hs) as (Hn & p & Hp & Hc). split; [done|].
    exists s, p. split_and!; try done. congruence. }
  eapply winv_move; [exact Hw|exact He| | | |by left|].
  - replace (idents _) with (idents (mkWorld t ats reaps used notes letters calls refs) ++ map (fun a => (aID a, aRow a)) rows)
      by (unfold idents; cbn [wAttempts]; by rewrite map_app).
    eapply held_move; [exact (wi_held _ _ Hw)|exact He|set_solver|done| | |done].
    + apply NoDup_fst_pair. rewrite map_map. cbn. eapply sublist_NoDup; [exact Hnd|exact Hids].
    + intros id r (a & [= -> ->] & Ha)%list_elem_of_fmap. destruct (Hrows a Ha) as (s & Hs & Hr & _).
      destruct (Hrow a Ha) as (_ & s' & p & _ & Hrr & _). destruct (Hd _ Hs) as [Hdn Hde]. cbn in Hdn, Hde. rewrite Hrr. cbn [new_row dLeaseToken].
      split_and!; [|done|done|by rewrite <- Hrr]. apply elem_of_union_l, elem_of_list_to_set, list_elem_of_fmap. by exists (aID a, s).
  - intros a s [Ha|Ha]%elem_of_app Hs; [by eapply (wi_subs _ _ Hw)|].
    destruct (Hrows a Ha) as (_ & _ & _ & _ & Hrun). destruct (Hrow a Ha) as (_ & s' & p & Hs' & -> & _).
    destruct Hs as [Hs|Hs]; [|congruence]. assert (s = s') as -> by congruence. repeat split. by left.
  - intros id r Hr Hn. assert (id ∈ started.*1) as Hin by (apply Hnew; [done|by eexists]). apply list_elem_of_fmap in Hin as ([i s] & -> & Hin).
    destruct (Hst _ _ Hin) as (_ & p & Hp & Hc). cbn in Hr. rewrite Hp in Hr. by injection Hr as <-.
  - intros id. rewrite starting_app. pose proof (starting_new id rows) as Hcount.
    specialize (Hcount ltac:(eapply sublist_NoDup; [exact Hnd|exact Hids])).
    unfold attempts_of. destruct (bool_decide_reflect (id ∈ map aID rows)) as [Hin|Hin]; cbn [b2n] in Hcount.
    + apply list_elem_of_fmap in Hin as (a & -> & Ha). destruct (Hrow a Ha) as (-> & s & p & _ & Hr & _).
      destruct (Hrows a Ha) as (_ & _ & -> & _). rewrite Hr. cbn [new_row dAttempts]. lia.
    + destruct (t !! id) as [r|] eqn:Hr; [rewrite (Hkeep id r Hr); lia|]. destruct (t' !! id) as [r|] eqn:Hr'; [|lia].
      specialize (He id). rewrite Hr' in He. assert (0 <= dAttempts r); [|lia].
      apply (ro_attempts opts r). eapply evolves_row_ok; [|exact He]. intros q Hq. congruence.
Qed.

Lemma before_invoke_for_row jitter row sub subs perr can s :
  (forall s', sub = Some s' -> for_row s' row) -> before_invoke opts jitter row sub subs perr can = inr s ->
  for_row s row /\ match can with Some can => can (sAddonKey s) (dEvent row) = None | None => True end.
Proof.
  intros Hs. unfold before_invoke. destruct sub as [s'|].
  - destruct can as [can|]; [|intros [= <-]; auto]. destruct (can (sAddonKey s') (dEvent row)) eqn:Ec; [done|]. intros [= <-]. auto.
  - unfold resolveSub. destruct subs as [subs|]; cbn; [|done]. destruct (List.find _ subs) as [s'|] eqn:Hf; [|done].
    apply find_some in Hf as [_ Hf]. rewrite !andb_true_iff, !String.eqb_eq in Hf. destruct Hf as [[[? ?] ?] ?].
    assert (for_row s' row) by (split_and!; auto; by right).
    destruct can as [can|]; [|intros [= <-]; auto]. destruct (can (sAddonKey s') (dEvent row)) eqn:Ec; [done|]. intros [= <-]. auto.
Qed.

Lemma winv_invoke t ats k a s reaps used notes letters calls refs :
  ats !! k = Some a -> aRunning a = None -> for_row s (aRow a) ->
  winv opts (mkWorld t ats reaps used notes letters calls refs) ->
  winv opts (mkWorld t (<[k := mkAttempt (aID a) (aRow a) (aSub a) (Some s) (aLost a)]> ats) reaps used notes letters
    ((aID a, s, delivered_payload (aRow a)) :: calls) refs).
Proof.
  intros Hk Hn Hs Hw. pose proof (wi_held _ _ Hw) as Hh. cbn [wTable wReaps wUsed] in Hh.
  eapply winv_move; [exact Hw|constructor| | | | |].
  - rewrite (idents_insert k a) by done. exact Hh.
  - intros b s' Hb Hb'. apply list_elem_of_lookup in Hb as [j Hj]. apply list_lookup_insert_Some in Hj as [(-> & <- & _)|[_ Hj]].
    + cbn in *. destruct Hb' as [Hb'|[= ->]]; [|done]. apply (wi_subs _ _ Hw a s'); [by eapply list_elem_of_lookup_2|by left].
    + apply (wi_subs _ _ Hw b s'); [by eapply list_elem_of_lookup_2|done].
  - intros id r Hr Hno. congruence.
  - intros id s' p [[= -> -> ->]|?]%elem_of_cons; [right|by left].
    destruct (hd_rows_of _ _ _ _ _ Hh (aID a) (aRow a)) as (r & Hr & Hc); [left; by eapply elem_ident|].
    exists r. split_and!; [done|by eapply for_row_core|by apply delivered_payload_core].
  - intros id. pose proof (starting_insert id k a (mkAttempt (aID a) (aRow a) (aSub a) (Some s) (aLost a)) ats Hk) as Hc.
    cbn [List.filter fst]. assert (waiting id (mkAttempt (aID a) (aRow a) (aSub a) (Some s) (aLost a)) = false) as E
      by (unfold waiting; cbn; apply andb_false_r). rewrite E in Hc. unfold waiting in Hc. rewrite Hn, andb_true_r in Hc.
    destruct (String.eqb (aID a) id); cbn [length b2n] in *; lia.
Qed.

(** A row that ended under its lease is announced at most once. *)
Lemma verdict_ends now row r v :
  dStatus (verdict_row now row r v) =
  match v with VDelivered _ => StatusDelivered | VDead _ _ _ => StatusDead | VCancelled _ => StatusCancelled | _ => dStatus r end.
Proof. by destruct v. Qed.

Lemma announced_spec id row sub v now r notes letters :
  (notes, letters) = announced id row sub v ->
  (forall n, n ∈ notes -> rDeliveryID n = id /\ rStatus n = dStatus (verdict_row now row r v) /\ rStatus n <> StatusPending) /\
  NoDup (map rDeliveryID notes) /\
  (forall l, l ∈ letters -> dlEvent l <> DeadLetterEvent /\ dlDeliveryID l = id /\ dStatus (verdict_row now row r v) = StatusDead).
Proof.
  assert (forall A (x : A), x ∈ [] -> False) as Hnil by (intros A x Hx; by apply elem_of_nil in Hx).
  destruct v; cbn [announced]; intros [= -> ->]; (split_and!; [intros n Hin|first [apply NoDup_singleton|apply NoDup_nil_2]|intros l Hin]);
    try (apply list_elem_of_singleton in Hin as ->; done); try (exfalso; by eapply Hnil).
  unfold emitDeadLetter in Hin. destruct letter; [|exfalso; by eapply Hnil].
  destruct (String.eqb_spec (dEvent row) DeadLetterEvent); [exfalso; by eapply Hnil|].
  by apply list_elem_of_singleton in Hin as ->.
Qed.

Lemma pending_unreported t ats reaps used notes letters calls refs id r m :
  winv opts (mkWorld t ats reaps used notes letters calls refs) -> t !! id = Some r -> dStatus r = StatusPending ->
  m ∈ notes -> id <> rDeliveryID m.
Proof. intros Hw Hr Hs Hm ->. destruct (wi_notes _ _ Hw m Hm) as (q & Hq & _ & Hp). cbn in Hq. congruence. Qed.

Lemma winv_told (told : bool) t ats reaps used notes letters calls refs new newl :
  winv opts (mkWorld t ats reaps used notes letters calls refs) ->
  winv opts (mkWorld t ats reaps used (notes ++ new) (letters ++ newl) calls refs) ->
  winv opts (mkWorld t ats reaps used (if told then notes ++ new else notes) (if told then letters ++ newl else letters) calls refs).
Proof. by destruct told. Qed.

Lemma winv_end t ats k a now sub v told reaps used notes letters calls refs :
  ats !! k = Some a -> verdict_ok opts (aRow a) v ->
  winv opts (mkWorld t ats reaps used notes letters calls refs) ->
  winv opts (end_attempt k a now sub v told (mkWorld t ats reaps used notes letters calls refs)).
Proof.
  intros Hk Hv Hw. pose proof (wi_held _ _ Hw) as Hh. cbn [wTable wReaps wUsed] in Hh.
  destruct (hd_tokens _ _ _ _ _ Hh (aID a) (aRow a)) as (Hu & Hne & Hrow); [by eapply elem_ident|].
  pose proof (fun q => hd_copy _ _ _ _ _ Hh (aID a) (aRow a) q (elem_ident k a ats Hk)) as Hcopy.
  unfold end_attempt. cbn [wTable wAttempts wReaps wUsed wNotes wLetters wCalls wRefunds].
  destruct (settle now (aID a) (aRow a) sub v t) as [[new newl] t'] eqn:Es.
  pose proof (settle_evolves opts used now (aID a) (aRow a) sub v t (hd_rows _ _ _ _ _ Hh) Hne Hcopy Hv) as He. rewrite Es in He. cbn [snd] in He.
  set (refs' := if refunds v && _ then aID a :: refs else refs).
  assert (winv opts (mkWorld t' (delete k ats) reaps used notes letters calls refs')) as Hw'.
  { eapply winv_move; [exact Hw|exact He| | | |by left|].
    - eapply held_step; [exact Hh|exact He|done|apply idents_delete|done].
    - intros b s Hb. apply (wi_subs _ _ Hw). cbn. eapply elem_of_sublist; [exact Hb|apply sublist_delete].
    - intros id r Hr Hn. exfalso. apply settle_spec in Es as [(-> & _)|(q & _ & (Hq & _)%fenced_Some & -> & _)]; [congruence|].
      rewrite lookup_insert_ne in Hr; [congruence|]. intros <-. congruence.
    - intros id. pose proof (starting_delete id k a ats Hk) as Hc. unfold refs'.
      apply settle_spec in Es as [(-> & _ & _ & Hor)|(q & Hl & Hf & -> & _)].
      + assert (refunds v && bool_decide (is_Some (fenced (aID a) (dLeaseToken (aRow a)) t)) = false) as ->.
        { destruct Hor as [->| ->]; [done|]. rewrite bool_decide_eq_false_2, andb_false_r; [done|]. intros Hsome. by destruct Hsome. }
        lia.
      + rewrite bool_decide_eq_true_2 by (rewrite Hf; by eexists). rewrite andb_true_r.
        apply Hcopy in Hf as Ha. apply fenced_Some in Hf as (Hq & _).
        destruct (decide (id = aID a)) as [->|Hn].
        * rewrite attempts_insert. unfold attempts_of. rewrite Hq.
          destruct v; cbn [verdict_ok verdict_row refunds update dAttempts List.filter] in *; try done; rewrite ?String.eqb_refl; try (cbn [length]; lia).
          -- destruct refund; cbn [andb List.filter length]; rewrite ?String.eqb_refl; [destruct (Z.ltb_spec 0 (dAttempts (aRow a)))|]; cbn [length]; lia.
          -- destruct (Z.ltb_spec 0 (dAttempts (aRow a))); cbn [length]; lia.
        * rewrite attempts_insert_ne by done. destruct (refunds v); [|lia]. cbn [List.filter].
          destruct (String.eqb_spec id (aID a)); [done|]. lia. }
  apply winv_told; [exact Hw'|]. apply settle_spec in Es as [(_ & -> & -> & _)|(q & Hl & Hf & -> & Han)].
  { rewrite !app_nil_r. exact Hw'. }
  apply fenced_Some in Hf as (Hq & Hs & _).
  destruct (announced_spec (aID a) (aRow a) sub v now q new newl Han) as (Hn & Hnd & Hl').
  apply winv_announce; [exact Hw'| |exact Hnd| |].
  - unfold reported. intros n (-> & E & Hp)%Hn. eexists. split; [apply lookup_insert_eq|]. by rewrite <- E.
  - intros n m (-> & _)%Hn Hm. eapply pending_unreported; [exact Hw|exact Hq|exact Hs|exact Hm].
  - intros l (? & -> & E)%Hl'. split; [done|]. eexists. split; [apply lookup_insert_eq|done].
Qed.

Lemma winv_reap t ats k id row told reaps used notes letters calls refs :
  reaps !! k = Some (id, row) -> winv opts (mkWorld t ats reaps used notes letters calls refs) ->
  let '(n, l, t') := reap id row t in
  winv opts (mkWorld t' ats (delete k reaps) used (if told : bool then notes ++ n else notes)
    (if told then letters ++ l else letters) calls refs).
Proof.
  intros Hk Hw. pose proof (wi_held _ _ Hw) as Hh. cbn [wTable wReaps wUsed] in Hh.
  destruct (hd_reaps _ _ _ _ _ Hh id row) as (Hu & Hne & _ & _); [by eapply list_elem_of_lookup_2|].
  pose proof (reap_evolves opts used id row t (hd_rows _ _ _ _ _ Hh) Hne) as He. unfold reap in *.
  destruct (fenced id (dLeaseToken row) t) as [r|] eqn:Hf; cbn [snd] in He.
  2:{ rewrite !app_nil_r. destruct told; by apply winv_drop. }
  apply fenced_Some in Hf as (Hr & Hs & _).
  assert (winv opts (mkWorld (<[id := update r StatusDead (dAttempts r) (truncErr (reap_message row)) (dDeliveredAt r) (dNextAttemptAt r) None
    (dNotReadySince r)]> t) ats (delete k reaps) used notes letters calls refs)) as Hw'.
  { eapply winv_rows; [exact Hw|exact He|done..| |by apply (wi_subs _ _ Hw)| |done|].
    - intros p Hp. eapply elem_of_sublist; [exact Hp|apply sublist_delete].
    - intros i q Hq Hn. rewrite lookup_insert_ne in Hq; [congruence|]. intros <-. congruence.
    - intros i. destruct (decide (i = id)) as [->|Hn]; [|by rewrite attempts_insert_ne].
      rewrite attempts_insert. unfold attempts_of. by rewrite Hr. }
  apply winv_told; [exact Hw'|]. apply winv_announce; [exact Hw'| | | |].
  - intros n ->%list_elem_of_singleton. eexists. split; [apply lookup_insert_eq|done].
  - cbn. constructor; [apply not_elem_of_nil|constructor].
  - intros n m ->%list_elem_of_singleton Hm. cbn. eapply pending_unreported; [exact Hw|exact Hr|exact Hs|exact Hm].
  - unfold emitDeadLetter. destruct (String.eqb_spec (dEvent row) DeadLetterEvent); [by intros ? ?%elem_of_nil|].
    intros l ->%list_elem_of_singleton. split; [done|]. eexists. split; [apply lookup_insert_eq|done].
Qed.

Lemma exec_keeps_winv e w w' : winv opts w -> exec opts e w = Some w' -> winv opts w'.
Proof.
  destruct w as [t ats reaps used notes letters calls refs]. intros Hw. destruct e; cbn [exec].
  - destruct (handle _ _ _ _ _ _ _ _ _ _ _ _) as [[started err] t'] eqn:Hh.
    intros (Hg & _ & [= <-])%bind_Some. by eapply winv_publish.
  - destruct (claim opts now locked (sweep_size running) token t) as [claimed t'] eqn:Hc.
    intros ([Hu Hne] & _ & [= <-])%bind_Some.
    pose proof (winv_sweep t ats reaps used notes letters calls refs now locked (sweep_size running) token Hw Hu Hne) as Hs.
    by rewrite Hc in Hs.
  - intros (a & Ha & He)%bind_Some. destruct (aRunning a) eqn:Hr; [done|].
    destruct (before_invoke _ _ _ _ _ _ _) as [[v sub]|sub] eqn:Hb; injection He as <-.
    + apply winv_end; [done| |done]. by eapply before_invoke_ok.
    + apply winv_invoke; [done..| |done]. eapply before_invoke_for_row; [|exact Hb].
      intros s' Hs'. apply (wi_subs _ _ Hw a); [by eapply list_elem_of_lookup_2|by left].
  - intros (a & Ha & He)%bind_Some. destruct (aLost a); [done|]. pose proof (winv_beat t ats k a now reaps used notes letters calls refs Ha Hw) as Hs.
    destruct (heartbeat _ _ _ _ _) as [ok t']. by injection He as <-.
  - intros (a & Ha & (sub & _ & [= <-])%bind_Some)%bind_Some. apply winv_end; [done|apply after_invoke_ok|done].
  - intros (a & Ha & [= <-])%bind_Some. apply winv_crash; [by eexists|done].
  - intros (_ & _ & [= <-])%bind_Some. by apply winv_select.
  - intros ([id row] & Hk & He)%bind_Some. cbn [fst snd] in He. pose proof (winv_reap t ats k id row told reaps used notes letters calls refs Hk Hw) as Hs.
    destruct (reap id row t) as [[n l] t']. by injection He as <-.
  - intros (p & Hk & [= <-])%bind_Some. by apply winv_drop.
  - intros [= <-]. by apply winv_replay.
Qed.

Lemma run_keeps_winv es w w' : winv opts w -> run opts es w = Some w' -> winv opts w'.
Proof.
  revert w. induction es as [|e es IH]; intros w Hw; cbn [run]; [by intros [= <-]|].
  intros (w1 & He & Hr)%bind_Some. eapply IH; [|exact Hr]. by eapply exec_keeps_winv.
Qed.
End events.

(** ** What holds of every run *)

Section theorems.
Context `{Crypto, BodyJSON, DispatchEnv, UnicodeLower, GoQuote}.
Variable opts : Options.
Hypothesis Hopts : options_ok opts.

Lemma exec_evolves e w w' : winv opts w -> exec opts e w = Some w' ->
  forall id, evolves opts (wUsed w) (wUsed w') (wTable w !! id) (wTable w' !! id).
Proof.
  destruct w as [t ats reaps used notes letters calls refs]. intros Hw. pose proof (wi_held _ _ Hw) as Hh. cbn [wTable wReaps wUsed] in Hh.
  assert (forall k a, ats !! k = Some a -> dLeaseToken (aRow a) <> ""%string /\
    forall q, fenced (aID a) (dLeaseToken (aRow a)) t = Some q -> dAttempts q = dAttempts (aRow a)) as Ha.
  { intros k a Hk. destruct (hd_tokens _ _ _ _ _ Hh (aID a) (aRow a)) as (_ & ? & _); [by eapply elem_ident|]. split; [done|].
    intros q. by apply (hd_copy _ _ _ _ _ Hh (aID a)), (elem_ident k). }
  assert (forall k a now sub v told, ats !! k = Some a -> verdict_ok opts (aRow a) v ->
    forall id, evolves opts used used (t !! id)
      (wTable (end_attempt k a now sub v told (mkWorld t ats reaps used notes letters calls refs)) !! id)) as Hend.
  { intros k a now sub v told Hk Hv id. destruct (Ha k a Hk) as [Hne Hc].
    pose proof (settle_evolves opts used now (aID a) (aRow a) sub v t (hd_rows _ _ _ _ _ Hh) Hne Hc Hv id) as He.
    unfold end_attempt. cbn [wTable]. by destruct (settle _ _ _ _ _ _) as [[? ?] ?]. }
  assert (forall k a now sub v told, wUsed (end_attempt k a now sub v told (mkWorld t ats reaps used notes letters calls refs)) = used) as Hus.
  { intros k a now sub v told. unfold end_attempt. cbn [wTable]. by destruct (settle _ _ _ _ _ _) as [[? ?] ?]. }
  destruct e; cbn [exec].
  - destruct (handle _ _ _ _ _ _ _ _ _ _ _ _) as [[started err] t'] eqn:Hh'.
    intros (Hg & _ & [= <-])%bind_Some. by apply (handle_evolves opts Hopts _ _ _ _ _ _ _ _ _ _ _ _ _ _ used Hh' Hg).
  - destruct (claim opts now locked (sweep_size running) token t) as [claimed t'] eqn:Hc.
    intros ([Hu Hne] & _ & [= <-])%bind_Some id.
    pose proof (claim_evolves opts Hopts now locked (sweep_size running) token t used Hu Hne id) as He. by rewrite Hc in He.
  - intros (a & Hk & He)%bind_Some. destruct (aRunning a) eqn:Hr; [done|].
    destruct (before_invoke _ _ _ _ _ _ _) as [[v sub]|sub] eqn:Hb; injection He as <-; [|constructor].
    rewrite Hus. apply Hend; [done|]. by eapply before_invoke_ok.
  - intros (a & Hk & He)%bind_Some. destruct (aLost a); [done|]. destruct (Ha k a Hk) as [Hne _].
    pose proof (heartbeat_evolves opts now (aID a) (dLeaseToken (aRow a)) t used (hd_rows _ _ _ _ _ Hh) Hne) as Hs.
    destruct (heartbeat _ _ _ _ _) as [ok t']. by injection He as <-.
  - intros (a & Hk & (sub & _ & [= <-])%bind_Some)%bind_Some. rewrite Hus. apply Hend; [done|apply after_invoke_ok].
  - intros (a & Hk & [= <-])%bind_Some. constructor.
  - intros (_ & _ & [= <-])%bind_Some. constructor.
  - intros ([i row] & Hk & He)%bind_Some. cbn [fst snd] in He.
    destruct (hd_reaps _ _ _ _ _ Hh i row) as (_ & Hne & _); [by eapply list_elem_of_lookup_2|].
    pose proof (reap_evolves opts used i row t (hd_rows _ _ _ _ _ Hh) Hne) as Hs.
    destruct (reap i row t) as [[n l] t']. by injection He as <-.
  - intros (p & Hk & [= <-])%bind_Some. constructor.
  - intros [= <-]. apply replay_evolves; [done|apply (hd_rows _ _ _ _ _ Hh)].
Qed.

Lemma run_rows es w w' : winv opts w -> run opts es w = Some w' ->
  forall id r, wTable w !! id = Some r ->
    exists r', wTable w' !! id = Some r' /\ core r' = core r /\ (dStatus r <> StatusPending -> r' = r).
Proof.
  revert w. induction es as [|e es IH]; intros w Hw; cbn [run]; [intros [= <-] id r Hr; by exists r|].
  intros (w1 & He & Hrun)%bind_Some id r Hr. pose proof (exec_evolves e w w1 Hw He id) as Hev. rewrite Hr in Hev.
  apply evolves_core in Hev as Hc. destruct Hc as (r1 & Hr1 & Hc1).
  destruct (IH w1 (exec_keeps_winv opts Hopts e w w1 Hw He) Hrun id r1 Hr1) as (r' & Hr' & Hc' & Hend).
  exists r'. split_and!; [done|congruence|]. intros Hs.
  apply evolves_terminal in Hev; [|by eapply (hd_rows _ _ _ _ _ (wi_held _ _ Hw))|done]. rewrite Hr1 in Hev. injection Hev as ->. by apply Hend.
Qed.

(** C18: whatever the processes do and wherever they die, a delivery that was
    recorded stays recorded with its event, subscription and payload, and
    once it is delivered, dead or cancelled it never changes again; its
    outcome is announced at most once, and only as the ledger has it; the
    dead letter of a delivery of the dead-letter event itself is never
    published. *)
Theorem delivery_settled_once es es' w w' :
  run opts es empty_world = Some w -> run opts es' w = Some w' ->
  (forall id r, wTable w !! id = Some r ->
    exists r', wTable w' !! id = Some r' /\ core r' = core r /\ (dStatus r <> StatusPending -> r' = r)) /\
  NoDup (map rDeliveryID (wNotes w')) /\ (forall n, n ∈ wNotes w' -> reported (wTable w') n) /\
  (forall l, l ∈ wLetters w' -> dlEvent l <> DeadLetterEvent /\
    exists r, wTable w' !! dlDeliveryID l = Some r /\ dStatus r = StatusDead).
Proof.
  intros Hr Hr'. pose proof (run_keeps_winv opts Hopts _ _ _ (winv_empty opts) Hr) as Hw.
  pose proof (run_keeps_winv opts Hopts _ _ _ Hw Hr') as Hw'. split; [by eapply run_rows|].
  split_and!; [apply (wi_once _ _ Hw')|apply (wi_notes _ _ Hw')|apply (wi_letters _ _ Hw')].
Qed.

(** C19: at most one attempt in flight owns a delivery; its copy of the row is
    current, and until its lease expires no sweep claims the delivery.  An
    attempt that lost the row can write nothing. *)
Theorem delivery_lease_exclusive es w i a r :
  run opts es empty_world = Some w -> wAttempts w !! i = Some a -> fenced (aID a) (dLeaseToken (aRow a)) (wTable w) = Some r ->
  core r = core (aRow a) /\ dAttempts r = dAttempts (aRow a) /\
  (forall j b, wAttempts w !! j = Some b -> aID b = aID a ->
     is_Some (fenced (aID b) (dLeaseToken (aRow b)) (wTable w)) -> j = i) /\
  (exists until, dLeaseUntil r = Some until /\
     forall now locked n token, now <= until -> aID a ∉ map fst (claim opts now locked n token (wTable w)).1) /\
  (forall j b now sub v, wAttempts w !! j = Some b -> aID b = aID a -> j <> i ->
     settle now (aID b) (aRow b) sub v (wTable w) = ([], [], wTable w)).
Proof.
  intros Hr Hi Hf. pose proof (run_keeps_winv opts Hopts _ _ _ (winv_empty opts) Hr) as Hw. pose proof (wi_held _ _ Hw) as Hh.
  pose proof (elem_ident i a _ Hi) as Hin.
  assert (forall j b, wAttempts w !! j = Some b -> aID b = aID a ->
     is_Some (fenced (aID b) (dLeaseToken (aRow b)) (wTable w)) -> j = i) as Huniq.
  { intros j b Hj Hid [q Hq]. apply fenced_Some in Hf as (Hr1 & _ & Ht1). apply fenced_Some in Hq as (Hr2 & _ & Ht2).
    eapply NoDup_lookup; [exact (hd_unique _ _ _ _ _ Hh)| |].
    - change (map ?f ?l) with (f <$> l). rewrite list_lookup_fmap. unfold idents. change (map ?f ?l) with (f <$> l). rewrite list_lookup_fmap, Hj. done.
    - change (map ?f ?l) with (f <$> l). rewrite list_lookup_fmap. unfold idents. change (map ?f ?l) with (f <$> l). rewrite list_lookup_fmap, Hi. cbn.
      rewrite Hid in *. congruence. }
  destruct (hd_tokens _ _ _ _ _ Hh _ _ Hin) as (Hu & Hne & _).
  destruct (leased_of opts (aID a) _ _ r (hd_rows _ _ _ _ _ Hh) Hne Hf) as ([until Hl] & Hok & Hrow & _).
  split_and!.
  - destruct (hd_rows_of _ _ _ _ _ Hh (aID a) (aRow a)) as (q & Hq & Hc); [by left|]. congruence.
  - by eapply (hd_copy _ _ _ _ _ Hh).
  - exact Huniq.
  - exists until. split; [done|]. intros now locked n token Hle ((x & r') & E & Hx)%list_elem_of_fmap. cbn in E. subst x.
    apply elem_of_updated in Hx as (q & Hq & [Hd _]%andb_true_iff & _). rewrite Hrow in Hq. injection Hq as <-.
    apply due_spec in Hd as (_ & _ & _ & [Hx|(u & Hx & Hlt)] & _); rewrite Hl in Hx; [done|]. injection Hx as <-. lia.
  - intros j b now sub v Hj Hid Hne'. destruct (settle now (aID b) (aRow b) sub v (wTable w)) as [[n l] t'] eqn:Es.
    apply settle_spec in Es as [(-> & -> & -> & _)|(q & _ & Hq & _)]; [done|]. exfalso. apply Hne'. eapply Huniq; [done..|]. by eexists.
Qed.

(** C21: a delivery is handed to its handler at most as often as the maximum
    of attempts, plus once for each attempt given back: the provider failed,
    the process was stopping, or the handler answered that it is not ready. *)
Theorem delivery_calls_bounded es w id :
  run opts es empty_world = Some w -> Z.of_nat (calls_of id w) <= maxAttempts opts + Z.of_nat (refunds_of id w).
Proof.
  intros Hr. pose proof (run_keeps_winv opts Hopts _ _ _ (winv_empty opts) Hr) as Hw. pose proof (wi_spent _ _ Hw id) as Hs.
  assert (attempts_of id (wTable w) <= maxAttempts opts); [|lia]. unfold attempts_of. destruct (_ !! id) as [r|] eqn:E.
  - by apply (ro_attempts opts r), (hd_rows _ _ _ _ _ (wi_held _ _ Hw) id).
  - destruct Hopts. lia.
Qed.

(** A handler is only called for a delivery on record, of an event its
    subscription's pattern covers, of the addon and the function the ledger
    has, with the payload the ledger has (and its generation), and only
    while the capability check allows the addon to receive the event. *)
Theorem handler_calls_genuine es w :
  run opts es empty_world = Some w ->
  (forall id s p, (id, s, p) ∈ wCalls w -> exists r, wTable w !! id = Some r /\ for_row s r /\ covered (sEvent s) (dEvent r) /\
     p = withGeneration (default JNull (dPayload r)) (dGeneration r)) /\
  (forall e w', exec opts e w = Some w' -> wCalls w' = wCalls w \/
     exists k now subs perr can jitter told id s p r,
       e = EvPrepare k now subs perr can jitter told /\ wCalls w' = (id, s, p) :: wCalls w /\ wTable w !! id = Some r /\
       match can with Some can => can (sAddonKey s) (dEvent r) = None | None => True end).
Proof.
  intros Hr. pose proof (run_keeps_winv opts Hopts _ _ _ (winv_empty opts) Hr) as Hw. split.
  - intros id s p (r & Hrow & Hf & ->)%(wi_called _ _ Hw). exists r. split_and!; try done.
    destruct Hf as (_ & -> & _). by eapply (wi_covers _ _ Hw).
  - intros e w' He. destruct w as [t ats reaps used notes letters calls refs]. pose proof (wi_held _ _ Hw) as Hh. cbn [wTable wReaps wUsed] in Hh.
    assert (forall k a now sub v told, wCalls (end_attempt k a now sub v told (mkWorld t ats reaps used notes letters calls refs)) = calls) as Hend.
    { intros k a now sub v told. unfold end_attempt. cbn [wTable]. by destruct (settle _ _ _ _ _ _) as [[? ?] ?]. }
    destruct e; cbn [exec wCalls] in *.
    3:{ apply bind_Some in He as (a & Hk & He). destruct (aRunning a); [done|].
        destruct (before_invoke _ _ _ _ _ _ _) as [[v sub]|sub] eqn:Hb; injection He as <-; [left; apply Hend|right].
        destruct (hd_rows_of _ _ _ _ _ Hh (aID a) (aRow a)) as (r & Hrow & Hc); [left; by eapply elem_ident|].
        exists k, now, subs, provider_err, can, jitter, told, (aID a), sub, (delivered_payload (aRow a)), r. split_and!; [done..|].
        apply before_invoke_for_row in Hb as [_ Hb]; [|intros s' Hs'; apply (wi_subs _ _ Hw a); [by eapply list_elem_of_lookup_2|by left]].
        apply core_columns in Hc as (_ & -> & _). exact Hb. }
    all: left.
    + destruct (handle _ _ _ _ _ _ _ _ _ _ _ _) as [[started err] t']. by apply bind_Some in He as (_ & _ & [= <-]).
    + destruct (claim _ _ _ _ _ _) as [claimed t']. by apply bind_Some in He as (_ & _ & [= <-]).
    + apply bind_Some in He as (a & _ & He). destruct (aLost a); [done|]. destruct (heartbeat _ _ _ _ _). by injection He as <-.
    + apply bind_Some in He as (a & _ & (sub & _ & [= <-])%bind_Some). apply Hend.
    + by apply bind_Some in He as (a & _ & [= <-]).
    + by apply bind_Some in He as (a & _ & [= <-]).
    + apply bind_Some in He as ([? ?] & _ & He). destruct (reap _ _ _) as [[? ?] ?]. by injection He as <-.
    + by apply bind_Some in He as (a & _ & [= <-]).
    + by injection He as <-.
Qed.

(** C20: no delivery is stuck.  Once its time has come and no live lease is on
    it, a pending delivery is either due or exhausted.  A sweep with room for
    what is due claims it, and the reaper declares an exhausted one dead. *)
Theorem delivery_never_stuck es w id r now :
  run opts es empty_world = Some w -> wTable w !! id = Some r -> dStatus r = StatusPending ->
  (forall next, dNextAttemptAt r = Some next -> next <= now) -> (forall until, dLeaseUntil r = Some until -> until < now) ->
  (due opts now r = true /\
   forall running token, token ∉ wUsed w -> token <> ""%string ->
     (length (List.filter (fun p => due opts now p.2 && negb (bool_decide (p.1 ∈ (∅ : gset string)))) (map_to_list (wTable w))) <= sweep_size running)%nat ->
     exists w' a, exec opts (EvSweep now ∅ running token) w = Some w' /\ a ∈ wAttempts w' /\ aID a = id /\
       dLeaseToken (aRow a) = token /\ dAttempts (aRow a) = dAttempts r + 1) \/
  (reapable opts now r = true /\
   exists w' r', run opts [EvSelect now [id]; EvReap (length (wReaps w)) true] w = Some w' /\
     wTable w' !! id = Some r' /\ dStatus r' = StatusDead /\ reported (wTable w') (notification id (dEvent r) (subscriptionOf r) StatusDead (dAttempts r) (reap_message r))).
Proof.
  intros Hrun Hr Hs Hnext Hl. pose proof (run_keeps_winv opts Hopts _ _ _ (winv_empty opts) Hrun) as Hw. pose proof (wi_held _ _ Hw) as Hh.
  destruct (hd_rows _ _ _ _ _ Hh id r Hr) as [[pl Hpl] [nx Hnx] Hatt Htok Hfree Hleased].
  destruct (decide (dAttempts r < maxAttempts opts)) as [Hlt|Hge].
  - left. assert (due opts now r = true) as Hdue.
    { unfold due. rewrite Hs, Hpl, Hnx. cbn [bool_decide decide_rel]. rewrite !andb_true_iff, orb_true_iff. split_and!; try done.
      - apply Z.leb_le. by apply Hnext.
      - unfold expired_lease. destruct (dLeaseUntil r) as [u|]; [right; apply Z.ltb_lt; by apply Hl|by left].
      - by apply Z.ltb_lt. }
    split; [done|]. intros running token Hu Hne Hroom. destruct w as [t ats reaps used notes letters calls refs]. cbn [wTable wUsed exec wAttempts] in *.
    destruct (claim opts now ∅ (sweep_size running) token t) as [claimed t'] eqn:Ec.
    eexists _, (start (fun _ => None) (id, claimed_row opts now token r)). split.
    + rewrite option_guard_True by done. reflexivity.
    + split; [|done]. cbn [wAttempts]. apply elem_of_app. right. apply list_elem_of_fmap. eexists. split; [done|].
      assert (claimed = (claim opts now ∅ (sweep_size running) token t).1) as -> by (by rewrite Ec).
      unfold claim, update_selected. cbn [fst]. apply list_elem_of_fmap.
      exists (id, r). split; [done|]. apply select_all; [done|done|]. rewrite Hdue. by rewrite bool_decide_eq_false_2 by set_solver.
  - right. assert (is_Some (dLeaseUntil r)) as Hls.
    { destruct (dLeaseUntil r) eqn:E; [by eexists|]. exfalso. apply Hge, Hfree; done. }
    assert (reapable opts now r = true) as Hre.
    { unfold reapable, expired_lease. rewrite Hs, Hpl. destruct Hls as [u E]. rewrite E. rewrite !andb_true_iff. split_and!; try done.
      - apply Z.ltb_lt. by apply Hl.
      - apply Z.leb_le. lia. }
    split; [done|]. destruct w as [t ats reaps used notes letters calls refs]. cbn [wTable wReaps] in *. cbn [run exec].
    assert (omap (fun i => r ← t !! i; if reapable opts now r then Some (i, r) else None) [id] = [(id, r)]) as ->
      by (cbn; rewrite Hr; cbn; by rewrite Hre).
    rewrite option_guard_True by (cbn; lia). cbn [mbind option_bind].
    cbn [exec]. rewrite list_lookup_middle by done. cbn [mbind option_bind fst snd]. unfold reap.
    assert (fenced id (dLeaseToken r) t = Some r) as Hf by (by apply fenced_Some).
    rewrite Hf. eexists _, _. split; [reflexivity|]. cbn [wTable]. split; [apply lookup_insert_eq|]. split; [done|].
    eexists. split; [apply lookup_insert_eq|]. done.
Qed.
End theorems.

(** ** Examples *)

#[local] Existing Instances ex_env ex_text plain_hash.
#[local] Instance ex_lower : UnicodeLower := fun s => s.
#[local] Instance ex_quote : GoQuote := fun s => s.

Definition crm_sub : Subscription := mkSubscription "crm" "inst" "pos.*" "wasm" "on_sale".
Definition sale_id : string := deliveryID "pos.sold" "evt-1" crm_sub.
Definition ev_publish (now : Z) (token : string) : event :=
  EvPublish None pos_ctx "org" "pos.sold" (Some (JObject [])) (Some [crm_sub]) now "fresh" (fun _ => false) (fun _ => token) (fun _ => false).
Definition ev_prepare (now : Z) : event := EvPrepare 0 now (Some [crm_sub]) "" (Some (fun _ _ => None)) (fun _ => 0) true.
Definition traps : invokers := mkInvokers (Some (fun _ _ _ => Err (plain_error "trap"))) None None.
Definition answers : invokers := mkInvokers (Some (fun _ _ _ => Ok None)) None None.
Definition ev_return (now : Z) (inv : invokers) : event := EvReturn 0 now now inv (fun _ => 0) false true.

(** A first attempt that fails, a retry that works, and the event again. *)
Definition sale_run : list event :=
  [ev_publish 0 "t0"; ev_prepare 0; ev_return 1 traps; EvSweep second ∅ 0 "t1"; ev_prepare second; ev_return (second + 1) answers;
   ev_publish (2 * second) "t2"].
(** The retry claimed and not finished. *)
Definition sale_start : list event := [ev_publish 0 "t0"; ev_prepare 0; ev_return 1 traps; EvSweep second ∅ 0 "t1"; ev_prepare second].

(** The reaper does not look at the lease again when it writes: a heartbeat
    that comes late, between its SELECT and its UPDATE, renews the lease of
    the last attempt, which is declared dead all the same; the handler then
    succeeds and its success is dropped. *)
Example live_attempt_reaped :
  let opts := Wire_options [WithMaxAttempts 1] in
  exists w r, run opts [ev_publish 0 "t0"; ev_prepare 0; EvSelect (lease opts + 1) [sale_id]; EvBeat 0 (lease opts + 1);
    EvReap 0 true; ev_return (lease opts + 2) answers] empty_world = Some w /\
    wTable w !! sale_id = Some r /\ dStatus r = StatusDead /\ map rStatus (wNotes w) = [StatusDead] /\ calls_of sale_id w = 1%nat.
Proof. eexists _, _. split; [vm_compute; reflexivity|]. split; [vm_compute; reflexivity|]. vm_compute. done. Qed.

(** A process restarted with fewer attempts leaves a delivery that already
    had them, and waits for its next one, pending for ever: it is neither
    claimed nor reaped. *)
Example lowered_maximum_strands :
  exists w r, run (Wire_options []) [ev_publish 0 "t0"; ev_prepare 0; ev_return 1 traps] empty_world = Some w /\
    wTable w !! sale_id = Some r /\ dStatus r = StatusPending /\
    forall now, due (Wire_options [WithMaxAttempts 1]) now r = false /\ reapable (Wire_options [WithMaxAttempts 1]) now r = false.
Proof.
  eexists _, _. split; [vm_compute; reflexivity|]. split; [vm_compute; reflexivity|]. split; [reflexivity|]. intros now. split; [|reflexivity].
  unfold due. cbn -[Z.leb]. by rewrite andb_false_r.
Qed.

(** The prefix of a replay is a LIKE pattern, so an underscore in an addon's
    key matches any character of another's. *)
Example replay_underscore : like "storefront_cart.%" "storefront-cart.paid" = true.
Proof. reflexivity. Qed.

(** ** Witnesses *)

Lemma delivery_settled_once_witness :
  exists w w' r, run defaultOptions sale_run empty_world = Some w /\ run defaultOptions [EvSweep (5 * second) ∅ 0 "t3"; EvSelect (1000 * second) [sale_id]] w = Some w' /\
    wTable w !! sale_id = Some r /\ dStatus r = StatusDelivered /\ dAttempts r = 2 /\ wTable w' !! sale_id = Some r /\
    map rDeliveryID (wNotes w') = [sale_id].
Proof.
  assert (exists w w' r, run defaultOptions sale_run empty_world = Some w /\
    run defaultOptions [EvSweep (5 * second) ∅ 0 "t3"; EvSelect (1000 * second) [sale_id]] w = Some w' /\
    wTable w !! sale_id = Some r /\ dStatus r = StatusDelivered /\ dAttempts r = 2 /\ map rDeliveryID (wNotes w') = [sale_id])
    as (w & w' & r & Hr & Hr' & Hrow & Hs & Ha & Hn).
  { eexists _, _, _. split; [vm_compute; reflexivity|]. split; [vm_compute; reflexivity|]. split; [vm_compute; reflexivity|].
    split; [reflexivity|]. split; [reflexivity|]. vm_compute. reflexivity. }
  exists w, w', r. destruct (delivery_settled_once defaultOptions (Wire_options_ok []) _ _ w w' Hr Hr') as [Hrows _].
  destruct (Hrows sale_id r Hrow) as (r' & Hr1 & _ & Heq). assert (r' = r) as -> by (apply Heq; rewrite Hs; discriminate).
  repeat split; assumption.
Defined.

Lemma delivery_lease_exclusive_witness :
  exists w a r, run defaultOptions sale_start empty_world = Some w /\ wAttempts w !! 0%nat = Some a /\
    fenced (aID a) (dLeaseToken (aRow a)) (wTable w) = Some r /\ dAttempts r = dAttempts (aRow a) /\ dAttempts r = 2 /\ core r = core (aRow a).
Proof.
  assert (exists w a r, run defaultOptions sale_start empty_world = Some w /\ wAttempts w !! 0%nat = Some a /\
    fenced (aID a) (dLeaseToken (aRow a)) (wTable w) = Some r /\ dAttempts r = 2) as (w & a & r & Hr & Hi & Hf & Ha).
  { eexists _, _, _. split; [vm_compute; reflexivity|]. split; [vm_compute; reflexivity|]. split; [vm_compute; reflexivity|]. reflexivity. }
  exists w, a, r. destruct (delivery_lease_exclusive defaultOptions (Wire_options_ok []) _ w 0 a r Hr Hi Hf) as (Hc & Hat & _).
  repeat split; assumption.
Defined.

Lemma delivery_calls_bounded_witness :
  exists w, run defaultOptions sale_run empty_world = Some w /\ calls_of sale_id w = 2%nat /\ refunds_of sale_id w = 0%nat /\
    Z.of_nat (calls_of sale_id w) <= 3.
Proof.
  assert (exists w, run defaultOptions sale_run empty_world = Some w /\ calls_of sale_id w = 2%nat /\ refunds_of sale_id w = 0%nat)
    as (w & Hr & Hc & Hf).
  { eexists. split; [vm_compute; reflexivity|]. vm_compute. split; reflexivity. }
  exists w. split; [exact Hr|]. split; [exact Hc|]. split; [exact Hf|].
  pose proof (delivery_calls_bounded defaultOptions (Wire_options_ok []) _ w sale_id Hr) as Hb. rewrite Hf in Hb. exact Hb.
Defined.

Lemma handler_calls_genuine_witness :
  exists w p r, run defaultOptions sale_start empty_world = Some w /\ (sale_id, crm_sub, p) ∈ wCalls w /\
    wTable w !! sale_id = Some r /\ covered (sEvent crm_sub) (dEvent r).
Proof.
  assert (exists w p, run defaultOptions sale_start empty_world = Some w /\ (sale_id, crm_sub, p) ∈ wCalls w) as (w & p & Hr & Hin).
  { eexists _, _. split; [vm_compute; reflexivity|]. left. }
  exists w, p. destruct (handler_calls_genuine defaultOptions (Wire_options_ok []) _ w Hr) as [Hg _].
  destruct (Hg _ _ _ Hin) as (r & Hrow & _ & Hc & _). exists r. repeat split; assumption.
Defined.

Lemma delivery_never_stuck_witness :
  exists w r, run defaultOptions [ev_publish 0 "t0"; ev_prepare 0; ev_return 1 traps] empty_world = Some w /\
    wTable w !! sale_id = Some r /\ dStatus r = StatusPending /\ (due defaultOptions second r = true \/ reapable defaultOptions second r = true).
Proof.
  assert (exists w r, run defaultOptions [ev_publish 0 "t0"; ev_prepare 0; ev_return 1 traps] empty_world = Some w /\
    wTable w !! sale_id = Some r /\ dStatus r = StatusPending /\ dNextAttemptAt r = Some 400000001 /\ dLeaseUntil r = None)
    as (w & r & Hr & Hrow & Hs & Hn & Hl).
  { eexists _, _. split; [vm_compute; reflexivity|]. split; [vm_compute; reflexivity|]. repeat split. }
  exists w, r. split; [exact Hr|]. split; [exact Hrow|]. split; [exact Hs|].
  destruct (delivery_never_stuck defaultOptions (Wire_options_ok []) _ w sale_id r second Hr Hrow Hs) as [[Hd _]|[Hd _]].
  - intros next E. rewrite Hn in E. injection E as <-. discriminate.
  - intros u E. rewrite Hl in E. discriminate.
  - left. exact Hd.
  - right. exact Hd.
Defined.
