(* ===== verification/EventOutbox.v ===== *)
(** * The durable outbox of events (dynamic/outbox.go, dynamic/commithook.go,
    dynamic/canonical_events.go)

    The rows of [kernel_event_outbox], the counters of
    [kernel_event_sequences] and what is done with them: events staged in a
    transaction, canonical events of a mutation, the fan-out after the
    commit, the relay with its backoff and its retention.  Any number of
    processes interleave statement by statement and may die anywhere.  The
    bus is an interface; [EventDelivery] discharges it.  Log lines are
    dropped. *)

From stdpp Require Import gmap.
From S2P Require Import Prelude GoStrings Tables GoHTTP GoJSON Signing EventBus DispatchEvent.

(** ** Data *)

Record EventRow := mkEventRow {
  vOrganizationID : string; vAddonKey : string; vEventName : string; vPayload : string; vCreatedAt : Z;
  vPublishedAt : option Z; vAttempts : Z; vLastError : string; vFannedOut : bool; vNextAttemptAt : option Z;
  vEventID : string; vVersion : Z; vOccurredAt : option Z; vAggregateType : string; vAggregateID : string;
  vSequence : Z; vCausationID : string; vCorrelationID : string; vActorID : string; vBranchID : string
}.
Abbreviation event_rows := (gmap string EventRow).

(** An UPDATE of the columns of the relay. *)
Definition relayed (r : EventRow) (published : option Z) (attempts : Z) (last_error : string) (fanned : bool)
    (next : option Z) : EventRow :=
  mkEventRow (vOrganizationID r) (vAddonKey r) (vEventName r) (vPayload r) (vCreatedAt r) published attempts last_error fanned next
    (vEventID r) (vVersion r) (vOccurredAt r) (vAggregateType r) (vAggregateID r) (vSequence r) (vCausationID r) (vCorrelationID r)
    (vActorID r) (vBranchID r).
(** The columns no statement changes. *)
Definition fixed (r : EventRow) : EventRow := relayed r None 0 "" false None.

(** [kernel_event_sequences]: organization, aggregate type and id. *)
Abbreviation seq_key := (string * string * string)%type.
Abbreviation sequences := (gmap seq_key Z).

Definition outboxRelayMinAge : Z := 10 * 1000000000.
Definition outboxMaxAttempts : Z := 25.
Definition outboxBackoffBase : Z := 30 * 1000000000.
Definition outboxBackoffMax : Z := 1800 * 1000000000.
Definition MaxEventNameLen : Z := 512.
Definition outboxRetention : Z := 7 * 24 * 3600 * 1000000000.
Definition outboxSweepBatch : nat := 200.

Definition outboxBackoff (attempts : Z) : Z :=
  let attempts := if attempts <? 0 then 0 else attempts in
  if 10 <=? attempts then outboxBackoffMax else
  let d := wrap64 (Z.shiftl outboxBackoffBase attempts) in
  if (outboxBackoffMax <? d) || (d <=? 0) then outboxBackoffMax else d.

(** One upsert. *)
Definition nextAggregateSequence (k : seq_key) (s : sequences) : Z * sequences :=
  let n := match s !! k with Some last => last + 1 | None => 1 end in (n, <[k := n]> s).

(** ** Staged events *)

(** [sOccurredAt] is [None] for the zero time. *)
Record StagedEvent := mkStagedEvent {
  sID : string; sAddonKey_ : string; sName : string; sOrgID : string; sPayload : string; sVersion : Z;
  sAggregateType : string; sAggregateID : string; sOccurredAt : option Z; sCausationID : string; sCorrelationID : string;
  sActorID : string; sBranchID : string
}.

Definition rejectOversized (evs : list StagedEvent) : list StagedEvent :=
  List.filter (fun e => negb (MaxEventNameLen <? slen (sName e))) evs.
Definition normalizePayload (b : string) : string := if String.eqb b "" then "null" else b.

(** The counter of a declared aggregate: in the emitter's namespace. *)
Definition staged_key (e : StagedEvent) : option seq_key :=
  if negb (String.eqb (sAggregateType e) "") && negb (String.eqb (sAggregateID e) "") then
    Some (sOrgID e, if String.eqb (sAddonKey_ e) "" then sAggregateType e else (sAddonKey_ e +:+ ":" +:+ sAggregateType e)%string,
          sAggregateID e)
  else None.

(** [stage]; [fresh] is the event id drawn when there is none. *)
Definition stage (now : Z) (fresh : string) (e : StagedEvent) (s : sequences) : EventRow * sequences :=
  let '(n, s) := match staged_key e with Some k => nextAggregateSequence k s | None => (0, s) end in
  (mkEventRow (sOrgID e) (sAddonKey_ e) (sName e) (normalizePayload (sPayload e)) now None 0 "" false None
     (non_empty (sID e) fresh) (if sVersion e <=? 0 then 1 else sVersion e) (Some (default now (sOccurredAt e)))
     (sAggregateType e) (sAggregateID e) n (sCausationID e) (sCorrelationID e) (sActorID e) (sBranchID e), s).

(** The loop of [persist], with the primary key and the event id drawn for
    each: the rows to insert, with the counter each drew. *)
Fixpoint persist (now : Z) (evs : list (string * string * StagedEvent)) (s : sequences) :
    list (string * EventRow * option seq_key) * sequences :=
  match evs with
  | [] => ([], s)
  | (id, fresh, e) :: evs =>
      let '(row, s) := stage now fresh e s in
      let '(rows, s) := persist now evs s in
      ((id, row, staged_key e) :: rows, s)
  end.

(** ** Canonical events *)

(** Provenance is kept encoded; a row of a table is its columns. *)
Record CanonicalEvent := mkCanonicalEvent_ {
  cvID : string; cvOccurrenceID : string; cvModel : string; cvAction : string; cvAddonKey : string; cvActorID : string;
  cvBranchID : string; cvCorrelationID : string; cvBefore : list (string * json); cvAfter : list (string * json);
  cvReason : string; cvProvenance : option json
}.
Definition object_omit (name : string) (l : list (string * json)) : list (string * json) :=
  match l with [] => [] | _ => [(name, JObject l)] end.
Definition canonical_json (e : CanonicalEvent) : json :=
  JObject (concat [text_member "id" (cvID e); text_omit "occurrence_id" (cvOccurrenceID e); text_member "model" (cvModel e);
    text_member "action" (cvAction e); text_member "addon_key" (cvAddonKey e); text_omit "actor_id" (cvActorID e);
    text_omit "branch_id" (cvBranchID e); text_omit "correlation_id" (cvCorrelationID e); object_omit "before" (cvBefore e);
    object_omit "after" (cvAfter e); text_omit "reason" (cvReason e);
    match cvProvenance e with Some p => [("provenance"%string, p)] | None => [] end]).

(** [uuidString]: the canonical text of a value that is a uuid other than
    the zero one, else empty. *)
Class UuidString := uuidString : json -> string.
Definition EventBranchID `{UuidString} (c : ctx) (before after : list (string * json)) : string :=
  let branch row := uuidString (default JNull (assoc "branch_id" row)) in
  non_empty (branch after) (non_empty (branch before) (uuidString (JString (BranchIDFromContext c)))).

(** The user: id, organization, active branch. *)
Record user := mkUser { uID : string; uOrganizationID : string; uBranchID : string }.
Definition withUserBranch (c : ctx) (u : user) : ctx :=
  if negb (String.eqb (BranchIDFromContext c) "") then c else WithBranchID c (uBranchID u).

Record mutation := mkMutation {
  mModel : string; mAction : string; mUser : user; mId : string; mBefore : list (string * json); mAfter : list (string * json);
  mReason : string; mProvenance : option json
}.

(** [publishCanonical] up to the counter: the event and its row; [None] when
    no store can hold the name.  The host's functions answer an empty name
    where they are missing. *)
Definition canonical `{BodyJSON, UuidString} (addonKeyForModel modelKeyForModel : string -> string) (c : ctx) (now : Z)
    (occurrence : string) (m : mutation) : option (CanonicalEvent * EventRow) :=
  let addonKey := non_empty (addonKeyForModel (mModel m)) "kernel" in
  let modelKey := non_empty (modelKeyForModel (mModel m)) (mModel m) in
  let u := mUser m in
  let e := mkCanonicalEvent_ (mId m) occurrence modelKey (mAction m) addonKey (uID u)
             (EventBranchID (withUserBranch c u) (mBefore m) (mAfter m)) (CorrelationIDFromContext c) (mBefore m) (mAfter m)
             (mReason m) (mProvenance m) in
  let event := (addonKey +:+ "." +:+ modelKey +:+ "." +:+ mAction m)%string in
  if MaxEventNameLen <? slen event then None else
  Some (e, mkEventRow (uOrganizationID u) addonKey event (json_marshal (canonical_json e)) now None 0 "" false None occurrence 1
             (Some now) modelKey (mId m) 0 (CausationIDFromContext c) (cvCorrelationID e) (uID u) (cvBranchID e)).
Definition canonical_key (r : EventRow) : option seq_key :=
  if String.eqb (vAggregateID r) "" then None else Some (vOrganizationID r, vAggregateType r, vAggregateID r).
Definition with_sequence (r : EventRow) (n : Z) : EventRow :=
  mkEventRow (vOrganizationID r) (vAddonKey r) (vEventName r) (vPayload r) (vCreatedAt r) (vPublishedAt r) (vAttempts r) (vLastError r)
    (vFannedOut r) (vNextAttemptAt r) (vEventID r) (vVersion r) (vOccurredAt r) (vAggregateType r) (vAggregateID r) n
    (vCausationID r) (vCorrelationID r) (vActorID r) (vBranchID r).

(** ** Publication *)

Section publication.
Context `{BodyJSON, DispatchEnv}.

Definition row_meta (r : EventRow) : Meta :=
  mkMeta (vEventID r) (vVersion r) (match vOccurredAt r with Some t => rfc3339 t | None => "" end) (vAggregateType r) (vAggregateID r)
    (vSequence r) (vCausationID r).
Definition publishContext (r : EventRow) (c : ctx) : ctx :=
  let c := WithBranchID (WithActorID (WithCausationID (WithMeta c (row_meta r)) (vCausationID r)) (vActorID r)) (vBranchID r) in
  if String.eqb (vCorrelationID r) "" then c else WithCorrelationID c (vCorrelationID r).
(** [json.RawMessage]; a text that is no JSON cannot be encoded again. *)
Definition row_payload (r : EventRow) : option json := json_decode (vPayload r).

(** The interfaces [Publisher] and [DurableOnlyPublisher]: [B] is the state
    behind the bus, [R] what its environment answers during one call, [A]
    what else happens to it; [None] is an answer that is not possible. *)
Class Publisher (B R A E : Type) := {
  Publish_ : R -> ctx -> string -> string -> string -> option json -> B -> option (option (bus_error E) * B);
  PublishDurableOnly_ : option (R -> ctx -> string -> string -> string -> option json -> B -> option (option (bus_error E) * B));
  act : A -> B -> option B
}.

Definition republish {B R A E} `{!Publisher B R A E} (o : R) (c : ctx) (row : EventRow) (b : B) : option (option (bus_error E) * B) :=
  let pctx := publishContext row c in
  match vFannedOut row, PublishDurableOnly_ with
  | true, Some only => only o pctx (vAddonKey row) (vEventName row) (vOrganizationID row) (row_payload row) b
  | _, _ => Publish_ o pctx (vAddonKey row) (vEventName row) (vOrganizationID row) (row_payload row) b
  end.
End publication.

(** ** Statements *)

Definition unpublished_due (now : Z) (r : EventRow) : bool :=
  bool_decide (vPublishedAt r = None) && (vCreatedAt r <? now - outboxRelayMinAge) && (vAttempts r <? outboxMaxAttempts) &&
  match vNextAttemptAt r with None => true | Some n => n <=? now end.
Definition older (a b : string * EventRow) : bool := vCreatedAt a.2 <=? vCreatedAt b.2.
Definition sweep_rows (now : Z) (t : event_rows) : list (string * EventRow) :=
  select older (fun _ r => unpublished_due now r) outboxSweepBatch t.

(** UPDATE ... WHERE id = ?; no row, no effect. *)
Definition update_row (id : string) (f : EventRow -> EventRow) (t : event_rows) : event_rows :=
  match t !! id with Some r => <[id := f r]> t | None => t end.
Definition markOutboxPublished (now : Z) (id : string) (t : event_rows) : event_rows :=
  update_row id (fun r => relayed r (Some now) (vAttempts r) (vLastError r) (vFannedOut r) (vNextAttemptAt r)) t.
Definition markOutboxFannedOut (id : string) (t : event_rows) : event_rows :=
  update_row id (fun r => relayed r (vPublishedAt r) (vAttempts r) (vLastError r) true (vNextAttemptAt r)) t.

(** What the fan-out writes after a publication. *)
Definition stamp {E} (now : Z) (id : string) (perr : option (bus_error E)) (t : event_rows) : event_rows :=
  match perr with
  | None => markOutboxPublished now id t
  | Some _ => if SiblingsRan perr then markOutboxFannedOut id t else t
  end.
(** What the relay writes after a re-publication of the row it read. *)
Definition relay_update {E} (text : bus_error E -> string) (now : Z) (row : EventRow) (perr : option (bus_error E)) (r : EventRow) : EventRow :=
  let attempts := vAttempts row + 1 in
  match perr with
  | None => relayed r (Some now) attempts "" (vFannedOut r) None
  | Some err =>
      relayed r (vPublishedAt r) attempts (str_take 500 (text err)) (SiblingsRan perr || vFannedOut r)
        (Some (now + outboxBackoff attempts))
  end.
Definition prunable (now : Z) (r : EventRow) : bool :=
  match vPublishedAt r with Some u => u <? now - outboxRetention | None => false end.
Definition prune (now : Z) (t : event_rows) : event_rows := filter (fun p : string * EventRow => prunable now p.2 = false) t.

(** ** Processes *)

(** A fan-out with the rows it still has, between a publication and its
    stamp; a sweep of the relay the same.  [JCanonical] is a mutation between
    the counter and the INSERT. *)
Inductive job (E : Type) : Type :=
| JCanonical (id : string) (row : EventRow) (c : ctx)
| JFan (rows : list (string * EventRow * ctx))
| JFanned (id : string) (perr : option (bus_error E)) (rows : list (string * EventRow * ctx))
| JSweep (rows : list (string * EventRow))
| JRelayed (id : string) (row : EventRow) (perr : option (bus_error E)) (rows : list (string * EventRow)).
Arguments JCanonical {E}. Arguments JFan {E}. Arguments JFanned {E}. Arguments JSweep {E}. Arguments JRelayed {E}.

Inductive outbox_event (R A : Type) : Type :=
| OvCanonical (id occurrence : string) (akm mkm : string -> string) (c : ctx) (now : Z) (m : mutation) (counted : bool)
| OvPersist (k : nat) (stored : bool)
| OvStaged (now : Z) (draws : list (string * string)) (evs : list StagedEvent) (c : ctx) (fan : bool)
| OvPublish (k : nat) (o : R)
| OvStamp (k : nat) (now : Z) (written : bool)
| OvSweep (now : Z)
| OvRepublish (k : nat) (o : R)
| OvRecord (k : nat) (now : Z) (written told : bool)
| OvPrune (k : nat) (now : Z)
| OvCrash (k : nat)
| OvOther (a : A).
Arguments OvCanonical {R A}. Arguments OvPersist {R A}. Arguments OvStaged {R A}. Arguments OvPublish {R A}.
Arguments OvStamp {R A}. Arguments OvSweep {R A}. Arguments OvRepublish {R A}. Arguments OvRecord {R A}.
Arguments OvPrune {R A}. Arguments OvCrash {R A}. Arguments OvOther {R A}.

(** The tables, the state behind the bus and the processes.  [oUsed] are the
    row and event ids drawn, [oBorn] every row as it was made, [oAlloc] the
    counters drawn for each row, [oDone] the publications that succeeded; [oExhausted] the rows reported,
    [oSilent] those whose process died before it reported them. *)
Record outbox_world (B R E : Type) := mkOutboxWorld {
  oRows : event_rows; oSeqs : sequences; oBus : B; oJobs : list (job E); oUsed : gset string;
  oBorn : event_rows; oAlloc : list (string * seq_key * Z); oDone : list (string * EventRow * R); oExhausted : list string; oSilent : list string
}.
Arguments mkOutboxWorld {B R E}. Arguments oRows {B R E}. Arguments oSeqs {B R E}. Arguments oBus {B R E}. Arguments oJobs {B R E}.
Arguments oUsed {B R E}. Arguments oBorn {B R E}. Arguments oAlloc {B R E}. Arguments oDone {B R E}. Arguments oExhausted {B R E}. Arguments oSilent {B R E}.

Definition drawn_counter (id : string) (k : option seq_key) (n : Z) : list (string * seq_key * Z) :=
  match k with Some k => [(id, k, n)] | None => [] end.

Section exec.
Context {B R A E : Type} `{BodyJSON, DispatchEnv, UuidString, !Publisher B R A E}.
(** The text of an error, which the relay stores. *)
Variable text : bus_error E -> string.

Definition done (id : string) (row : EventRow) (o : R) (perr : option (bus_error E)) : list (string * EventRow * R) :=
  match perr with None => [(id, row, o)] | Some _ => [] end.

(** [None]: the event is not possible in this state.  The text of a
    canonical event is assumed to decode to the event. *)
Definition exec (e : outbox_event R A) (w : outbox_world B R E) : option (outbox_world B R E) :=
  let '(mkOutboxWorld t s b jobs used born alloc dones exhausted silent) := w in
  match e with
  | OvCanonical id occurrence akm mkm c now m counted =>
      '(ev, row) ← canonical akm mkm c now occurrence m;
      guard (id ∉ used /\ occurrence ∉ used /\ id <> occurrence /\ id <> ""%string /\ occurrence <> ""%string /\
             row_payload row = Some (canonical_json ev));;
      let key := if counted then canonical_key row else None in
      let '(n, s) := match key with Some k => nextAggregateSequence k s | None => (0, s) end in
      Some (mkOutboxWorld t s b (jobs ++ [JCanonical id (with_sequence row n) c]) ({[id; occurrence]} ∪ used)
              (<[id := with_sequence row n]> born) (drawn_counter id key n ++ alloc) dones exhausted silent)
  | OvPersist k stored =>
      match jobs !! k with
      | Some (JCanonical id row c) =>
          if stored then
            guard (t !! id = None);;
            Some (mkOutboxWorld (<[id := row]> t) s b (<[k := JFan [(id, row, WithMeta c (row_meta row))]]> jobs) used born alloc dones exhausted silent)
          else Some (mkOutboxWorld t s b (delete k jobs) used born alloc dones exhausted silent)
      | _ => None
      end
  | OvStaged now draws evs c fan =>
      let evs := rejectOversized evs in
      let '(rows, s) := persist now (combine draws evs) s in
      let ids := concat (map (fun p => [p.1.1; vEventID p.1.2]) rows) in
      guard (length draws = length evs /\ NoDup ids /\ Forall (fun i => i ∉ used /\ i <> ""%string) ids);;
      let jobs := if fan then jobs ++ [JFan (map (fun p => (p.1, publishContext p.1.2 c)) rows)] else jobs in
      Some (mkOutboxWorld (write_all (map fst rows) t) s b jobs (list_to_set ids ∪ used)
              (write_all (map fst rows) born) (concat (map (fun p => drawn_counter p.1.1 p.2 (vSequence p.1.2)) rows) ++ alloc) dones exhausted silent)
  | OvPublish k o =>
      match jobs !! k with
      | Some (JFan ((id, row, c) :: rest)) =>
          '(perr, b) ← Publish_ o c (vAddonKey row) (vEventName row) (vOrganizationID row) (row_payload row) b;
          Some (mkOutboxWorld t s b (<[k := JFanned id perr rest]> jobs) used born alloc (done id row o perr ++ dones) exhausted silent)
      | _ => None
      end
  | OvStamp k now written =>
      match jobs !! k with
      | Some (JFanned id perr rest) =>
          Some (mkOutboxWorld (if written then stamp now id perr t else t) s b (<[k := JFan rest]> jobs) used born alloc dones exhausted silent)
      | _ => None
      end
  | OvSweep now => Some (mkOutboxWorld t s b (jobs ++ [JSweep (sweep_rows now t)]) used born alloc dones exhausted silent)
  | OvRepublish k o =>
      match jobs !! k with
      | Some (JSweep ((id, row) :: rest)) =>
          '(perr, b) ← republish o Background row b;
          Some (mkOutboxWorld t s b (<[k := JRelayed id row perr rest]> jobs) used born alloc (done id row o perr ++ dones) exhausted silent)
      | _ => None
      end
  | OvRecord k now written told =>
      match jobs !! k with
      | Some (JRelayed id row perr rest) =>
          let last := written && bool_decide (perr <> None) && (outboxMaxAttempts <=? vAttempts row + 1) in
          Some (mkOutboxWorld (if written then update_row id (relay_update text now row perr) t else t) s b (<[k := JSweep rest]> jobs)
                  used born alloc dones (if last && told then id :: exhausted else exhausted) (if last && negb told then id :: silent else silent))
      | _ => None
      end
  | OvPrune k now =>
      match jobs !! k with
      | Some (JSweep []) => Some (mkOutboxWorld (prune now t) s b (delete k jobs) used born alloc dones exhausted silent)
      | _ => None
      end
  | OvCrash k => _ ← jobs !! k; Some (mkOutboxWorld t s b (delete k jobs) used born alloc dones exhausted silent)
  | OvOther a => b ← act a b; Some (mkOutboxWorld t s b jobs used born alloc dones exhausted silent)
  end.

Fixpoint run (es : list (outbox_event R A)) (w : outbox_world B R E) : option (outbox_world B R E) :=
  match es with [] => Some w | e :: es => w ← exec e w; run es w end.
End exec.

(** ** What a publisher promises

    The laws the facts below are proved against.  [recorded b o row]: what a
    publication of [row] under the answers [o] asks of the durable routers is
    on record; [plain_runs s id b]: how often the plain subscriber [s] was
    handed the publication [id]. *)

Section laws.
Context {B R A E : Type} `{BodyJSON, DispatchEnv, !Publisher B R A E}.

Inductive bus_step : B -> B -> Prop :=
| BsPublish o c addon name org payload b perr b' :
    Publish_ o c addon name org payload b = Some (perr, b') -> bus_step b b'
| BsOnly only o c addon name org payload b perr b' :
    PublishDurableOnly_ = Some only -> only o c addon name org payload b = Some (perr, b') -> bus_step b b'
| BsAct a b b' : act a b = Some b' -> bus_step b b'.

Class PublisherLaws := {
  bus_ok : B -> Prop;
  recorded : B -> R -> EventRow -> Prop;
  plain_runs : string -> string -> B -> nat;
  bus_ok_step b b' : bus_step b b' -> bus_ok b -> bus_ok b';
  recorded_step b b' o r : bus_step b b' -> bus_ok b -> recorded b o r -> recorded b' o r;
  recorded_fixed b o r q : fixed r = fixed q -> recorded b o r -> recorded b o q;
  publish_records o c r b b' :
    bus_ok b -> vEventID r <> ""%string -> mID (MetaFromContext c) = vEventID r ->
    Publish_ o c (vAddonKey r) (vEventName r) (vOrganizationID r) (row_payload r) b = Some (None, b') -> recorded b' o r;
  only_records only o c r b b' :
    PublishDurableOnly_ = Some only -> bus_ok b -> vEventID r <> ""%string -> mID (MetaFromContext c) = vEventID r ->
    only o c (vAddonKey r) (vEventName r) (vOrganizationID r) (row_payload r) b = Some (None, b') -> recorded b' o r;
  plain_publish s id o c addon name org payload b perr b' :
    Publish_ o c addon name org payload b = Some (perr, b') ->
    (plain_runs s id b' <= plain_runs s id b + (if decide (mID (MetaFromContext c) = id /\ (perr = None \/ SiblingsRan perr = true)) then 1 else 0))%nat;
  plain_only s id only o c addon name org payload b perr b' :
    PublishDurableOnly_ = Some only -> only o c addon name org payload b = Some (perr, b') ->
    SiblingsRan perr = false /\ plain_runs s id b' = plain_runs s id b;
  plain_act s id a b b' : act a b = Some b' -> plain_runs s id b' = plain_runs s id b
}.
End laws.
Arguments PublisherLaws B R A E {_ _}.

(** ** Facts: counters *)

(** The numbers drawn from a counter are 1 up to its value, each by one row. *)
Record counters_ok (s : sequences) (alloc : list (string * seq_key * Z)) : Prop := mkCountersOk {
  co_pos : forall k n, s !! k = Some n -> 1 <= n;
  co_range : forall k n, (exists i, (i, k, n) ∈ alloc) <-> 1 <= n <= default 0 (s !! k);
  co_once : forall i j k n, (i, k, n) ∈ alloc -> (j, k, n) ∈ alloc -> i = j
}.

(** The counter a row was numbered by. *)
Definition counts_by (r : EventRow) (k : seq_key) : Prop :=
  k.1.1 = vOrganizationID r /\ k.2 = vAggregateID r /\
  (k.1.2 = vAggregateType r \/ k.1.2 = (vAddonKey r +:+ ":" +:+ vAggregateType r)%string).

Lemma counters_ok_equiv s l l' : (forall p, p ∈ l <-> p ∈ l') -> counters_ok s l -> counters_ok s l'.
Proof.
  intros He [Hp Hr Ho]. split; [done| |].
  - intros k n. rewrite <- Hr. split; intros [i Hi]; exists i; by apply He.
  - intros i j k n Hi Hj. eapply Ho; by apply He.
Qed.

Lemma next_counter k s n s' id alloc :
  counters_ok s alloc -> nextAggregateSequence k s = (n, s') -> n <> 0 /\ counters_ok s' ((id, k, n) :: alloc).
Proof.
  intros [Hp Hr Ho]. unfold nextAggregateSequence. intros [= <- <-].
  assert ((match s !! k with Some last => last + 1 | None => 1 end) = default 0 (s !! k) + 1) as -> by (by destruct (s !! k)).
  assert (0 <= default 0 (s !! k)) as Hpos by (destruct (s !! k) as [m|] eqn:E; cbn; [specialize (Hp _ _ E)|]; lia).
  split; [lia|]. split.
  - intros k' m. destruct (decide (k' = k)) as [->|Hne]; [rewrite lookup_insert_eq; intros [= <-]; lia|].
    rewrite lookup_insert_ne by done. apply Hp.
  - intros k' m. setoid_rewrite elem_of_cons. destruct (decide (k' = k)) as [->|Hne].
    + rewrite lookup_insert_eq. cbn. split.
      * intros [i [[= _ ->]|Hi]]; [lia|]. assert (1 <= m <= default 0 (s !! k)); [apply Hr; by exists i|lia].
      * intros Hm. destruct (decide (m = default 0 (s !! k) + 1)) as [->|]; [exists id; by left|].
        destruct (proj2 (Hr k m)) as [i Hi]; [lia|]. exists i. by right.
    + rewrite lookup_insert_ne by done. rewrite <- Hr. split; [intros [i [[= _ -> _]|Hi]]; [done|by exists i]|].
      intros [i Hi]. exists i. by right.
  - assert (forall i, (i, k, default 0 (s !! k) + 1) ∉ alloc) as Hnew.
    { intros i Hi. assert (1 <= default 0 (s !! k) + 1 <= default 0 (s !! k)); [apply Hr; by exists i|lia]. }
    intros i j k' m. rewrite !elem_of_cons. intros [Ei|Hi] [Ej|Hj]; [congruence| | |by eapply Ho].
    + injection Ei as -> -> ->. by apply Hnew in Hj.
    + injection Ej as -> -> ->. by apply Hnew in Hi.
Qed.

(** A row as it is made. *)
Definition newborn (r : EventRow) : Prop :=
  vPublishedAt r = None /\ vAttempts r = 0 /\ vFannedOut r = false.
Definition numbered (id : string) (r : EventRow) (alloc : list (string * seq_key * Z)) : Prop :=
  vSequence r = 0 \/ exists k, (id, k, vSequence r) ∈ alloc /\ counts_by r k.

Lemma numbered_mono id r l l' : l ⊆ l' -> numbered id r l -> numbered id r l'.
Proof. intros Hl [?|(k & ? & ?)]; [by left|right]. exists k. split; [by apply Hl|done]. Qed.

Lemma draw_ok id k s n s' alloc :
  counters_ok s alloc -> match k with Some k => nextAggregateSequence k s | None => (0, s) end = (n, s') ->
  counters_ok s' (drawn_counter id k n ++ alloc) /\ (n = 0 \/ exists q, k = Some q /\ (id, q, n) ∈ drawn_counter id k n).
Proof.
  intros Hc. destruct k as [k|]; cbn.
  - intros [_ Hn]%(next_counter _ _ _ _ id _ Hc). split; [done|]. right. exists k. split; [done|]. by left.
  - intros [= <- <-]. by split; [|left].
Qed.

Lemma stage_spec now fresh e s r s' id alloc :
  counters_ok s alloc -> stage now fresh e s = (r, s') ->
  newborn r /\ counters_ok s' (drawn_counter id (staged_key e) (vSequence r) ++ alloc) /\
  numbered id r (drawn_counter id (staged_key e) (vSequence r)).
Proof.
  intros Hc. unfold stage. destruct (match staged_key e with Some _ => _ | None => _ end) as [n s1] eqn:Hd.
  destruct (draw_ok id _ _ _ _ alloc Hc Hd) as [Hc' Hn]. intros [= <- <-]. cbn [vSequence]. split; [done|]. split; [done|].
  destruct Hn as [->|(k & Hk & Hin)]; [by left|right]. exists k. split; [done|]. revert Hk. unfold staged_key, counts_by.
  destruct (_ && _); [|done]. intros [= <-]. cbn. split_and!; [done..|]. destruct (String.eqb_spec (sAddonKey_ e) ""); auto.
Qed.

Lemma persist_spec now evs s rows s' alloc :
  counters_ok s alloc -> persist now evs s = (rows, s') ->
  let drawn := concat (map (fun p => drawn_counter p.1.1 p.2 (vSequence p.1.2)) rows) in
  counters_ok s' (drawn ++ alloc) /\ Forall (fun p => newborn p.1.2 /\ numbered p.1.1 p.1.2 drawn) rows.
Proof.
  revert s rows s' alloc. induction evs as [|[[id fresh] e] evs IH]; intros s rows s' alloc Hc; cbn [persist].
  { intros [= <- <-]. by split. }
  destruct (stage now fresh e s) as [r s1] eqn:Hs. apply (stage_spec _ _ _ _ _ _ id alloc Hc) in Hs as (Hn & Hc1 & Hnum).
  destruct (persist now evs s1) as [rows1 s2] eqn:Hp. apply (IH _ _ _ _ Hc1) in Hp as [Hc2 Hall]. intros [= <- <-].
  cbn [map concat]. split.
  - eapply counters_ok_equiv, Hc2. intros p. rewrite !elem_of_app. tauto.
  - constructor.
    + split; [done|]. eapply numbered_mono, Hnum. cbn. set_solver.
    + eapply Forall_impl; [exact Hall|]. cbn. intros p [? ?]. split; [done|]. eapply numbered_mono; [|done]. set_solver.
Qed.

(** ** Facts: the tables and the processes *)

Section inv.
Context {B R A E : Type} `{BodyJSON, DispatchEnv, UuidString, !Publisher B R A E, Laws : !PublisherLaws B R A E}.
Variable text : bus_error E -> string.

Definition succeeded (id : string) (dones : list (string * EventRow * R)) : Prop := exists r o, (id, r, o) ∈ dones.
Definition known (born : event_rows) (p : string * EventRow) : Prop := exists r, born !! p.1 = Some r /\ fixed r = fixed p.2.

(** The rows a process still handles, and the publication it has to record. *)
Definition entries (j : job E) : list (string * EventRow) :=
  match j with
  | JCanonical id r _ => [(id, r)]
  | JFan rows | JFanned _ _ rows => map fst rows
  | JSweep rows => rows
  | JRelayed id r _ rows => (id, r) :: rows
  end.
Definition waiting (j : job E) : option (string * option (bus_error E)) :=
  match j with JFanned id perr _ | JRelayed id _ perr _ => Some (id, perr) | _ => None end.
Definition contexts (j : job E) : list (string * EventRow * ctx) :=
  match j with JFan rows | JFanned _ _ rows => rows | _ => [] end.

Record job_ok (born : event_rows) (dones : list (string * EventRow * R)) (j : job E) : Prop := mkJobOk {
  jo_known : Forall (known born) (entries j);
  jo_contexts : Forall (fun p => mID (MetaFromContext p.2) = vEventID p.1.2) (contexts j);
  jo_id : forall id perr, waiting j = Some (id, perr) -> is_Some (born !! id);
  jo_waiting : forall id, waiting j = Some (id, None) -> succeeded id dones;
  jo_new : match j with JCanonical _ r _ => newborn r | _ => True end
}.

Lemma job_ok_mono born born' dones dones' j : born ⊆ born' -> dones ⊆ dones' -> job_ok born dones j -> job_ok born' dones' j.
Proof.
  intros Hb Hd [Hk Hc Hi Hw Hn]. split; [|done| | |done].
  - eapply Forall_impl; [exact Hk|]. intros p (r & Hr & ?). exists r. split; [|done]. by eapply lookup_weaken.
  - intros id perr [r Hr]%Hi. exists r. by eapply lookup_weaken.
  - intros id (r & o & Hin)%Hw. exists r, o. by apply Hd.
Qed.

Record oinv (w : outbox_world B R E) : Prop := mkOinv {
  oi_bus : bus_ok (oBus w);
  oi_born : forall id r, oBorn w !! id = Some r ->
    id ∈ oUsed w /\ vEventID r ∈ oUsed w /\ vEventID r <> ""%string /\ numbered id r (oAlloc w);
  oi_events : forall i j r q, oBorn w !! i = Some r -> oBorn w !! j = Some q -> vEventID r = vEventID q -> i = j;
  oi_rows : forall id r, oRows w !! id = Some r -> known (oBorn w) (id, r);
  oi_jobs : Forall (job_ok (oBorn w) (oDone w)) (oJobs w);
  oi_done : forall id r o, (id, r, o) ∈ oDone w -> known (oBorn w) (id, r) /\ recorded (oBus w) o r;
  oi_published : forall id r, oRows w !! id = Some r -> vPublishedAt r <> None -> succeeded id (oDone w);
  oi_exhausted : forall id r, oRows w !! id = Some r -> vPublishedAt r = None -> outboxMaxAttempts <= vAttempts r ->
    id ∈ oExhausted w \/ id ∈ oSilent w;
  oi_counters : counters_ok (oSeqs w) (oAlloc w);
  oi_plain : forall s id, (0 < plain_runs s id (oBus w))%nat -> id ∈ oUsed w
}.

(** A state with nothing in the outbox. *)
Definition fresh_world (b : B) : outbox_world B R E := mkOutboxWorld ∅ ∅ b [] ∅ ∅ [] [] [] [].

Lemma oinv_fresh b : bus_ok b -> (forall s id, plain_runs s id b = 0%nat) -> oinv (fresh_world b).
Proof.
  intros Hb Hp. split; unfold fresh_world; cbn [oBus oUsed oBorn oRows oSeqs oJobs oDone oAlloc oExhausted oSilent]; try done.
  - intros id r o Hin. by apply elem_of_nil in Hin.
  - split; [done| |intros i j k n Hi; by apply elem_of_nil in Hi]. intros k n. rewrite lookup_empty. cbn. split; [intros [i Hi]; by apply elem_of_nil in Hi|lia].
  - intros s id. rewrite Hp. lia.
Qed.

Lemma update_row_lookup id f (t : event_rows) i :
  update_row id f t !! i = if decide (i = id) then f <$> t !! i else t !! i.
Proof.
  unfold update_row. destruct (t !! id) as [r|] eqn:E1, (decide (i = id)) as [->|Hne]; rewrite ?E1; try done.
  - by rewrite lookup_insert_eq.
  - by rewrite lookup_insert_ne.
Qed.

(** The stamp as one UPDATE. *)
Definition stamped (now : Z) (perr : option (bus_error E)) (r : EventRow) : EventRow :=
  match perr with
  | None => relayed r (Some now) (vAttempts r) (vLastError r) (vFannedOut r) (vNextAttemptAt r)
  | Some _ => if SiblingsRan perr then relayed r (vPublishedAt r) (vAttempts r) (vLastError r) true (vNextAttemptAt r) else r
  end.
Lemma stamp_lookup now id perr (t : event_rows) i :
  stamp now id perr t !! i = if decide (i = id) then stamped now perr <$> t !! i else t !! i.
Proof.
  unfold stamp, stamped. destruct perr as [e|]; [destruct (SiblingsRan (Some e))|]; try apply update_row_lookup.
  destruct (decide (i = id)); [|done]. by destruct (t !! i).
Qed.

(** The rows after a step: of events known, stamped only after a success,
    out of attempts only when reported or silent. *)
Definition row_fine (w : outbox_world B R E) (exhausted silent : list string) (id : string) (r : EventRow) : Prop :=
  known (oBorn w) (id, r) /\ (vPublishedAt r <> None -> succeeded id (oDone w)) /\
  (vPublishedAt r = None -> outboxMaxAttempts <= vAttempts r -> id ∈ exhausted \/ id ∈ silent).

Lemma row_fine_old w id r : oinv w -> oRows w !! id = Some r -> row_fine w (oExhausted w) (oSilent w) id r.
Proof.
  intros Hw Hr. split_and!; [by apply (oi_rows _ Hw)|by apply (oi_published _ Hw)|by apply (oi_exhausted _ Hw)].
Qed.
Lemma row_fine_mono w ex ex' si si' id r : ex ⊆ ex' -> si ⊆ si' -> row_fine w ex si id r -> row_fine w ex' si' id r.
Proof.
  intros He Hs (Hk & Hp & Hx). split_and!; [done..|]. intros Hn Ha. destruct (Hx Hn Ha); [left; by apply He|right; by apply Hs].
Qed.

Lemma oinv_rows_step w t' jobs' exhausted' silent' :
  oinv w -> (forall id r', t' !! id = Some r' -> row_fine w exhausted' silent' id r') ->
  Forall (job_ok (oBorn w) (oDone w)) jobs' ->
  oinv (mkOutboxWorld t' (oSeqs w) (oBus w) jobs' (oUsed w) (oBorn w) (oAlloc w) (oDone w) exhausted' silent').
Proof.
  intros [Hbus Hborn Hev Hrows Hjobs Hdone Hpub Hex Hco Hpl] Hr Hj. split; cbn; try done; intros id r' Hrow; by apply Hr in Hrow as (? & ? & ?).
Qed.

(** What happens behind the bus. *)
Lemma oinv_bus_step w b' jobs' dones :
  oinv w -> bus_step (oBus w) b' ->
  (forall id r o, (id, r, o) ∈ dones -> known (oBorn w) (id, r) /\ recorded b' o r) ->
  (forall s id, (0 < plain_runs s id b')%nat -> id ∈ oUsed w) ->
  Forall (job_ok (oBorn w) (dones ++ oDone w)) jobs' ->
  oinv (mkOutboxWorld (oRows w) (oSeqs w) b' jobs' (oUsed w) (oBorn w) (oAlloc w) (dones ++ oDone w) (oExhausted w) (oSilent w)).
Proof.
  intros [Hbus Hborn Hev Hrows Hjobs Hdone Hpub Hex Hco Hpl] Hb Hd Hp Hj. split; cbn; try done.
  - by eapply bus_ok_step.
  - intros id r o [Hin|Hin]%elem_of_app; [by apply Hd|]. destruct (Hdone id r o Hin). split; [done|]. by eapply recorded_step.
  - intros id r Hrow Hn. destruct (Hpub id r Hrow Hn) as (q & o & Hin). exists q, o. set_solver.
Qed.

(** Rows made in one transaction. *)
Definition row_ids (rows : list (string * EventRow)) : list string := concat (map (fun p => [p.1; vEventID p.2]) rows).

Lemma elem_row_ids rows i : i ∈ row_ids rows <-> exists p, p ∈ rows /\ (i = p.1 \/ i = vEventID p.2).
Proof.
  unfold row_ids. induction rows as [|p rows IH]; cbn; [split; [intros ?%elem_of_nil; done|intros (? & ?%elem_of_nil & _); done]|].
  rewrite !elem_of_cons, IH. split.
  - intros [->|[->|(q & ? & ?)]]; [exists p|exists p|exists q]; (split; [by (left + right)|auto]).
  - intros (q & [->|?]%elem_of_cons & [->| ->]); auto; right; right; exists q; auto.
Qed.
Lemma row_ids_NoDup rows : NoDup (row_ids rows) ->
  NoDup (map fst rows) /\ forall i r j q, (i, r) ∈ rows -> (j, q) ∈ rows -> vEventID r = vEventID q -> i = j.
Proof.
  induction rows as [|[k x] rows IH]; cbn; [intros _; split; [constructor|intros i r j q ?%elem_of_nil; done]|].
  intros [Hk [Hx Hn]%NoDup_cons]%NoDup_cons. change (concat _) with (row_ids rows) in *. destruct (IH Hn) as [Hf He]. split.
  - constructor; [|done]. intros ([i r] & -> & Hin)%list_elem_of_fmap. apply Hk. right. apply elem_row_ids. exists (i, r). auto.
  - assert (forall j q, (j, q) ∈ rows -> vEventID x <> vEventID q) as Hd.
    { intros j q Hin Heq. apply Hx, elem_row_ids. exists (j, q). auto. }
    intros i r j q [[= -> ->]|Hi]%elem_of_cons [[= -> ->]|Hj]%elem_of_cons; [done| | |by eapply He].
    + intros Heq. by apply Hd in Hj.
    + intros Heq. by apply Hd in Hi.
Qed.

Lemma oinv_births w rows t' s' drawn jobs' used' :
  oinv w -> NoDup (row_ids rows) -> Forall (fun i => i ∉ oUsed w /\ i <> ""%string) (row_ids rows) ->
  (forall i, i ∈ used' <-> i ∈ row_ids rows \/ i ∈ oUsed w) -> counters_ok s' (drawn ++ oAlloc w) ->
  Forall (fun p => newborn p.2 /\ numbered p.1 p.2 drawn) rows ->
  (forall id r, t' !! id = Some r -> (id, r) ∈ rows \/ oRows w !! id = Some r) ->
  Forall (fun j => job_ok (write_all rows (oBorn w)) (oDone w) j \/ job_ok (oBorn w) (oDone w) j) jobs' ->
  oinv (mkOutboxWorld t' s' (oBus w) jobs' used' (write_all rows (oBorn w)) (drawn ++ oAlloc w) (oDone w) (oExhausted w) (oSilent w)).
Proof.
  intros [Hbus Hborn Hev Hrows Hjobs Hdone Hpub Hex Hco Hpl] Hn Hu Hu' Hc Hnew Ht Hj. destruct (row_ids_NoDup rows Hn) as [Hfst Hids].
  rewrite Forall_forall in Hnew. rewrite Forall_forall in Hu.
  assert (oBorn w ⊆ write_all rows (oBorn w)) as Hsub.
  { apply map_subseteq_spec. intros i r Hr. destruct (write_all rows (oBorn w) !! i) as [q|] eqn:Eq.
    - apply write_all_cases in Eq as [Hin|[_ ?]]; [|congruence]. destruct (Hu i) as [Hi _]; [apply elem_row_ids; exists (i, q); auto|].
      by destruct (Hborn i r Hr).
    - exfalso. clear -Hr Eq. induction rows as [|[k x] rows IH]; cbn in *; [congruence|].
      destruct (decide (i = k)) as [->|]; [by rewrite lookup_insert_eq in Eq|rewrite lookup_insert_ne in Eq by done; auto]. }
  assert (forall p, known (oBorn w) p -> known (write_all rows (oBorn w)) p) as Hknown.
  { intros p (r & Hr & ?). exists r. split; [|done]. by eapply lookup_weaken. }
  split; cbn [oBus oUsed oBorn oRows oSeqs oJobs oDone oAlloc oExhausted oSilent]; try done.
  - intros id r [Hin|[_ Hr]]%write_all_cases.
    + destruct (Hnew _ Hin) as [_ Hnum]. split_and!.
      * apply Hu'. left. apply elem_row_ids. exists (id, r). auto.
      * apply Hu'. left. apply elem_row_ids. exists (id, r). auto.
      * apply Hu, elem_row_ids. exists (id, r). auto.
      * eapply numbered_mono, Hnum. set_solver.
    + destruct (Hborn id r Hr) as (? & ? & ? & ?). split_and!; [apply Hu'; by right|apply Hu'; by right|done|].
      eapply numbered_mono; [|done]. set_solver.
  - assert (forall i r j q, (i, r) ∈ rows -> oBorn w !! j = Some q -> vEventID r <> vEventID q) as Hx.
    { intros i r j q Hin Hq Heq. destruct (Hborn j q Hq) as (_ & Hq' & _). rewrite <- Heq in Hq'.
      destruct (Hu (vEventID r)) as [Hnu _]; [apply elem_row_ids; exists (i, r); auto|done]. }
    intros i j r q [Hi|[_ Hi]]%write_all_cases [Hj'|[_ Hj']]%write_all_cases; [by eapply Hids| | |by eapply Hev].
    + intros Heq. by destruct (Hx i r j q Hi Hj').
    + intros Heq. by destruct (Hx j q i r Hj' Hi).
  - intros id r [Hin|Hr]%Ht; [|by apply Hknown, Hrows]. exists r. split; [|done]. by apply write_all_in.
  - eapply Forall_impl; [exact Hj|]. intros j [?|?]; [done|]. by eapply job_ok_mono.
  - intros id r o Hin. destruct (Hdone id r o Hin). auto.
  - intros id r [Hin|Hr]%Ht Hp; [|by eapply Hpub]. by destruct (Hnew _ Hin) as [(? & _) _].
  - intros id r [Hin|Hr]%Ht Hp Ha; [|by eapply Hex]. destruct (Hnew _ Hin) as [(_ & E0 & _) _]. cbn in E0. unfold outboxMaxAttempts in Ha. lia.
  - intros s id Hs%Hpl. apply Hu'. by right.
Qed.

Lemma canonical_spec akm mkm c now occurrence m ev row n :
  canonical akm mkm c now occurrence m = Some (ev, row) ->
  vEventID (with_sequence row n) = occurrence /\ newborn (with_sequence row n) /\ mID (MetaFromContext (WithMeta c (row_meta row))) = occurrence /\
  forall k, canonical_key row = Some k -> counts_by (with_sequence row n) k.
Proof.
  unfold canonical. destruct (_ <? _); [done|]. intros [= _ <-]. split_and!; [done..|]. unfold canonical_key, counts_by.
  destruct (String.eqb _ ""); [done|]. intros k [= <-]. cbn. auto.
Qed.

Lemma publishContext_meta r c : MetaFromContext (publishContext r c) = row_meta r.
Proof.
  unfold publishContext, WithBranchID, WithActorID, WithCausationID, WithCorrelationID.
  by repeat (match goal with |- context [String.eqb ?a ?b] => destruct (String.eqb a b) end).
Qed.

Lemma persist_ids now evs s rows s' : persist now evs s = (rows, s') ->
  concat (map (fun p => [p.1.1; vEventID p.1.2]) rows) = row_ids (map fst rows).
Proof. intros _. unfold row_ids. by rewrite map_map. Qed.

Lemma known_event_used w id r : oinv w -> known (oBorn w) (id, r) -> vEventID r ∈ oUsed w /\ vEventID r <> ""%string.
Proof.
  intros Hw (r0 & Hr0 & Hf). destruct (oi_born _ Hw id r0 Hr0) as (_ & ? & ? & _).
  assert (vEventID r0 = vEventID r) as <- by exact (f_equal vEventID Hf). done.
Qed.

Lemma exec_births e w w' : oinv w -> exec text e w = Some w' ->
  match e with OvCanonical _ _ _ _ _ _ _ _ | OvStaged _ _ _ _ _ => oinv w' | _ => True end.
Proof.
  intros Hw. destruct w as [t s b jobs used born alloc dones exhausted silent] eqn:Ew. destruct e; try done; cbn [exec].
  - intros ([ev row] & Hc & He)%bind_Some. apply bind_Some in He as ((Hid & Ho & Hne & Hide & Hoe & Hpay) & _ & He).
    destruct (match (if counted then canonical_key row else None) with Some _ => _ | None => _ end) as [n s'] eqn:Hd.
    destruct (draw_ok id _ _ _ _ alloc (oi_counters _ Hw) Hd) as [Hco Hnum]. injection He as <-.
    destruct (canonical_spec akm mkm c now occurrence m ev row n Hc) as (Hev & Hnew & _ & Hkey).
    apply (oinv_births _ [(id, with_sequence row n)] t _ _ _ _ Hw); cbn [oUsed oRows oBorn oDone oAlloc write_all].
    + unfold row_ids. cbn [map concat fst snd app]. rewrite Hev. repeat constructor; set_solver.
    + unfold row_ids. cbn [map concat fst snd app]. rewrite Hev. by repeat constructor.
    + intros i. unfold row_ids. cbn [map concat fst snd app]. rewrite Hev. set_solver.
    + done.
    + constructor; [|done]. split; [done|]. destruct Hnum as [->|(k & Hk & Hin)]; [by left|right]. exists k. split; [done|].
      apply Hkey. by destruct counted.
    + by right.
    + apply Forall_app. split; [eapply Forall_impl; [exact (oi_jobs _ Hw)|by right]|]. constructor; [left|done]. split; try done.
      constructor; [|done]. eexists. split; [apply lookup_insert_eq|done].
  - destruct (persist now (combine draws (rejectOversized evs)) s) as [rows s'] eqn:Hp.
    intros ((Hlen & Hn & Hu) & _ & [= <-])%bind_Some. rewrite (persist_ids _ _ _ _ _ Hp) in *.
    destruct (persist_spec _ _ _ _ _ alloc (oi_counters _ Hw) Hp) as [Hco Hall].
    apply (oinv_births _ (map fst rows) _ _ _ _ _ Hw); cbn [oUsed oRows oBorn oDone oAlloc]; try done.
    + intros i. rewrite elem_of_union, elem_of_list_to_set. done.
    + rewrite Forall_map. exact Hall.
    + intros id r [?|[_ ?]]%write_all_cases; auto.
    + destruct (row_ids_NoDup _ Hn) as [Hfst _].
      destruct fan; [|eapply Forall_impl; [exact (oi_jobs _ Hw)|by right]].
      apply Forall_app. split; [eapply Forall_impl; [exact (oi_jobs _ Hw)|by right]|]. constructor; [left|done]. split; try done; cbn [entries contexts].
      * rewrite map_map. cbn. rewrite Forall_map, Forall_forall. intros p Hin. exists p.1.2. split; [|done]. apply write_all_in; [done|].
        apply list_elem_of_fmap. exists p. split; [by destruct p as [[? ?] ?]|done].
      * rewrite Forall_map. apply Forall_true. intros p. cbn. by rewrite publishContext_meta.
Qed.

(** A publication of a row a process holds. *)
Lemma oinv_publication w id r o (perr : option (bus_error E)) b' jobs' :
  oinv w -> known (oBorn w) (id, r) -> bus_step (oBus w) b' ->
  (perr = None -> recorded b' o r) ->
  (forall s i, (plain_runs s i b' <= plain_runs s i (oBus w) + (if decide (vEventID r = i) then 1 else 0))%nat) ->
  Forall (job_ok (oBorn w) (done id r o perr ++ oDone w)) jobs' ->
  oinv (mkOutboxWorld (oRows w) (oSeqs w) b' jobs' (oUsed w) (oBorn w) (oAlloc w) (done id r o perr ++ oDone w) (oExhausted w) (oSilent w)).
Proof.
  intros Hw Hk Hb Hrec Hp Hj. apply oinv_bus_step; try done.
  - intros i q o' Hin. destruct perr; cbn in Hin; [by apply elem_of_nil in Hin|].
    apply list_elem_of_singleton in Hin. injection Hin as -> -> ->. auto.
  - intros s i Hs. specialize (Hp s i). destruct (decide (vEventID r = i)) as [<-|]; [by eapply known_event_used|].
    apply (oi_plain _ Hw s). lia.
Qed.

Lemma publish_runs s i o c addon name org payload b perr b' :
  Publish_ o c addon name org payload b = Some (perr, b') ->
  (plain_runs s i b' <= plain_runs s i b + (if decide (mID (MetaFromContext c) = i) then 1 else 0))%nat.
Proof.
  intros Hp. apply (plain_publish s i) in Hp. destruct (decide (_ /\ _)) as [[-> _]|]; destruct (decide _); try done; lia.
Qed.

(** Whether a row is published again to everyone. *)
Definition full_again (r : EventRow) : bool :=
  negb (vFannedOut r) || match @PublishDurableOnly_ B R A E _ with None => true | Some _ => false end.

Lemma republish_spec o r b perr b' :
  bus_ok b -> vEventID r <> ""%string -> republish o Background r b = Some (perr, b') ->
  bus_step b b' /\ (perr = None -> recorded b' o r) /\ (full_again r = false -> SiblingsRan perr = false) /\
  forall s i, (plain_runs s i b' <= plain_runs s i b +
    (if decide (vEventID r = i /\ full_again r = true /\ (perr = None \/ SiblingsRan perr = true)) then 1 else 0))%nat.
Proof.
  intros Hb Hne. unfold republish, full_again.
  assert (mID (MetaFromContext (publishContext r Background)) = vEventID r) as Hm by (by rewrite publishContext_meta).
  assert (forall perr b', Publish_ o (publishContext r Background) (vAddonKey r) (vEventName r) (vOrganizationID r) (row_payload r) b = Some (perr, b') ->
    bus_step b b' /\ (perr = None -> recorded b' o r) /\ (true = false -> SiblingsRan perr = false) /\
    forall s i, (plain_runs s i b' <= plain_runs s i b +
      (if decide (vEventID r = i /\ true = true /\ (perr = None \/ SiblingsRan perr = true)) then 1 else 0))%nat) as Hfull.
  { intros e q Hp. split_and!; [by econstructor|intros ->; by eapply publish_records|done|]. intros s i.
    apply (plain_publish s i) in Hp. rewrite Hm in Hp.
    destruct (decide (vEventID r = i /\ (e = None \/ _))), (decide (vEventID r = i /\ _ /\ _)); try lia. naive_solver. }
  destruct (vFannedOut r) eqn:Ef; [destruct PublishDurableOnly_ as [only|] eqn:Eo|]; cbn [negb orb]; [|by apply Hfull..].
  intros Hp. destruct (plain_only "" "" _ _ _ _ _ _ _ _ _ _ Eo Hp) as [Hs _]. split_and!; [by eapply BsOnly|intros ->; by eapply only_records|done|].
  intros s i. destruct (plain_only s i _ _ _ _ _ _ _ _ _ _ Eo Hp) as [_ ->]. lia.
Qed.

(** A process replaced or ended. *)
Lemma jobs_insert (P : job E -> Prop) jobs k j : Forall P jobs -> P j -> Forall P (<[k := j]> jobs).
Proof. apply Forall_insert. Qed.
Lemma jobs_delete (P : job E -> Prop) jobs k : Forall P jobs -> Forall P (delete k jobs).
Proof. apply Forall_delete. Qed.

Lemma done_in id (r : EventRow) (o : R) : succeeded id (done id r o (None : option (bus_error E))).
Proof. exists r, o. by left. Qed.

Lemma exec_oinv e w w' : oinv w -> exec text e w = Some w' -> oinv w'.
Proof.
  intros Hw He. pose proof (exec_births e w w' Hw He) as Hbirth. destruct e; try exact Hbirth; clear Hbirth;
    destruct w as [t s b jobs used born alloc dones exhausted silent]; cbn [exec] in He;
    pose proof (oi_jobs _ Hw) as Hjobs; cbn [oBorn oDone oJobs] in Hjobs;
    pose proof (fun id r => row_fine_old _ id r Hw) as Hold; cbn [oRows oExhausted oSilent] in Hold.
  - (* persist *)
    destruct (jobs !! k) as [[id r c| | | |]|] eqn:Hk; try done. pose proof (Forall_lookup_1 _ _ _ _ Hjobs Hk) as [Hkn _ _ _ (Hn1 & Hn2 & Hn3)].
    apply Forall_cons in Hkn as [Hkn _]. destruct stored.
    + apply bind_Some in He as (_ & _ & [= <-]). apply (oinv_rows_step _ _ _ exhausted silent Hw).
      * intros i q. destruct (decide (i = id)) as [->|Hne]; [rewrite lookup_insert_eq|rewrite lookup_insert_ne by done; apply Hold].
        intros [= <-]. split_and!; [done|by rewrite Hn1|]. intros _ Ha. rewrite Hn2 in Ha. done.
      * apply jobs_insert; [done|]. split; try done; constructor; done.
    + injection He as <-. apply (oinv_rows_step _ t _ exhausted silent Hw); [done|]. by apply jobs_delete.
  - (* publish *)
    destruct (jobs !! k) as [[|[|[[id r] c] rest]| | |]|] eqn:Hk; try done. pose proof (Forall_lookup_1 _ _ _ _ Hjobs Hk) as [Hkn Hctx _ _ _].
    apply Forall_cons in Hkn as [Hkn Hrest]. apply Forall_cons in Hctx as [Hm Hctx]. cbn in Hm.
    apply bind_Some in He as ([perr b'] & Hp & [= <-]). destruct (known_event_used _ _ _ Hw Hkn) as [Hu Hne].
    apply (oinv_publication _ id r o perr b' _ Hw Hkn).
    + by econstructor.
    + intros ->. eapply publish_records; [apply (oi_bus _ Hw)|done..].
    + intros si i. rewrite <- Hm. by eapply publish_runs.
    + apply jobs_insert; [eapply Forall_impl; [exact Hjobs|]; intros j; apply job_ok_mono; [done|set_solver]|].
      split; try done; cbn; [intros i e' [= <- _]; destruct Hkn as (r0 & ? & _); by exists r0|]. intros i [= <- ->]. exists r, o. by left.
  - (* stamp *)
    destruct (jobs !! k) as [[| |id perr rest| |]|] eqn:Hk; try done. pose proof (Forall_lookup_1 _ _ _ _ Hjobs Hk) as [Hkn Hctx _ Hwait _].
    injection He as <-. apply (oinv_rows_step _ _ _ exhausted silent Hw); [|by apply jobs_insert; [|split]].
    intros i q. destruct written; [|apply Hold]. rewrite stamp_lookup. destruct (decide (i = id)) as [->|]; [|apply Hold].
    intros (r & Hr & ->)%fmap_Some. destruct (Hold _ _ Hr) as ((r0 & ? & ?) & Hpub & Hex). unfold stamped.
    destruct perr as [err|]; [destruct (SiblingsRan (Some err))|]; split_and!; try done; try (by exists r0).
    intros _. by apply Hwait.
  - (* sweep *)
    injection He as <-. apply (oinv_rows_step _ t _ exhausted silent Hw); [done|]. apply Forall_app. split; [done|]. constructor; [|done].
    split; try done. cbn [entries]. apply Forall_forall. intros [id r] [Hr _]%elem_of_select. by apply Hold.
  - (* republish *)
    destruct (jobs !! k) as [[| | |[|[id r] rest]|]|] eqn:Hk; try done. pose proof (Forall_lookup_1 _ _ _ _ Hjobs Hk) as [Hkn _ _ _ _].
    apply Forall_cons in Hkn as [Hkn Hrest]. apply bind_Some in He as ([perr b'] & Hp & [= <-]).
    destruct (known_event_used _ _ _ Hw Hkn) as [Hu Hne].
    destruct (republish_spec o r _ perr b' (oi_bus _ Hw) Hne Hp) as (Hst & Hrec & _ & Hruns).
    apply (oinv_publication _ id r o perr b' _ Hw Hkn Hst Hrec).
    + intros si i. specialize (Hruns si i). cbn in *. destruct (decide (vEventID r = i /\ _)) as [[? _]|], (decide (vEventID r = i)); try done; lia.
    + apply jobs_insert; [eapply Forall_impl; [exact Hjobs|]; intros j; apply job_ok_mono; [done|set_solver]|].
      split; try done; [by constructor|intros i e' [= <- _]; destruct Hkn as (r0 & ? & _); by exists r0|]. cbn. intros i [= <- ->]. exists r, o. by left.
  - (* record *)
    destruct (jobs !! k) as [[| | | |id r perr rest]|] eqn:Hk; try done. pose proof (Forall_lookup_1 _ _ _ _ Hjobs Hk) as [Hkn _ _ Hwait _].
    apply Forall_cons in Hkn as [Hkn Hrest]. injection He as <-.
    set (last := written && bool_decide (perr <> None) && (outboxMaxAttempts <=? vAttempts r + 1)).
    apply (oinv_rows_step _ _ _ _ _ Hw); [|by apply jobs_insert; [|split]].
    intros i q Hq. assert (written = false \/ i <> id -> t !! i = Some q) as Hsame.
    { destruct written; [|done]. intros [?|Hne]; [done|]. rewrite update_row_lookup in Hq. by destruct (decide (i = id)). }
    destruct (decide (written = false \/ i <> id)) as [Hs|Hs].
    { eapply row_fine_mono, Hold, Hsame, Hs; destruct (last && _); set_solver. }
    assert (written = true /\ i = id) as [-> ->] by (destruct written; split; [done|destruct (decide (i = id)); naive_solver|naive_solver..]).
    rewrite update_row_lookup, decide_True in Hq by done. apply fmap_Some in Hq as (q0 & Hq0 & ->).
    destruct (Hold _ _ Hq0) as ((r0 & ? & ?) & Hpub & Hex). unfold relay_update. destruct perr as [err|]; split_and!; try done; try (by exists r0).
    + intros _ Ha. cbn [vAttempts relayed] in Ha. apply Z.leb_le in Ha. unfold last. rewrite Ha. cbn. destruct told; [left|right]; by left.
    + intros _. by apply Hwait.
  - (* prune *)
    destruct (jobs !! k) as [[| | |[|]|]|] eqn:Hk; try done. injection He as <-.
    apply (oinv_rows_step _ _ _ exhausted silent Hw); [|by apply jobs_delete].
    intros id r [Hr _]%map_lookup_filter_Some. by apply Hold.
  - (* crash *)
    apply bind_Some in He as (j & _ & [= <-]). apply (oinv_rows_step _ t _ exhausted silent Hw); [done|]. by apply jobs_delete.
  - (* other *)
    apply bind_Some in He as (b' & Ha & [= <-]). apply (oinv_bus_step _ b' jobs [] Hw); cbn; try done.
    + by eapply BsAct.
    + intros i r o Hin. by apply elem_of_nil in Hin.
    + intros si i. rewrite (plain_act si i _ _ _ Ha). apply (oi_plain _ Hw).
Qed.

Lemma run_oinv es w w' : oinv w -> run text es w = Some w' -> oinv w'.
Proof.
  revert w. induction es as [|e es IH]; intros w Hw; cbn [run]; [by intros [= <-]|].
  intros (w1 & He & Hr)%bind_Some. eapply IH; [|done]. by eapply exec_oinv.
Qed.
End inv.
