(* ===== verification/EventRelay.v ===== *)
(** * The durable outbox of events: what it guarantees (dynamic/outbox.go)

    The facts of [EventOutbox] against any publisher that keeps the laws:
    no event is lost, its numbers are its own, and its plain subscribers hear
    it once when nothing goes wrong. *)

From stdpp Require Import gmap.
From S2P Require Import Prelude GoStrings Tables GoHTTP GoJSON Signing EventBus DispatchEvent EventOutbox.

Section relay.
Context {B R A E : Type} `{BodyJSON, DispatchEnv, UuidString, !Publisher B R A E, Laws : !PublisherLaws B R A E}.
Variable text : bus_error E -> string.
Implicit Types (w : outbox_world B R E) (e : outbox_event R A).

(** ** Rows stay *)

Lemma stamped_fixed now (perr : option (bus_error E)) r :
  fixed (stamped now perr r) = fixed r /\ (vPublishedAt r <> None -> vPublishedAt (stamped now perr r) <> None).
Proof. unfold stamped. destruct perr as [err|]; [destruct (SiblingsRan (Some err))|]; done. Qed.
Lemma relay_fixed now row (perr : option (bus_error E)) r :
  fixed (relay_update text now row perr r) = fixed r /\ (vPublishedAt r <> None -> vPublishedAt (relay_update text now row perr r) <> None).
Proof. unfold relay_update. by destruct perr. Qed.

Lemma exec_rows e w w' id r :
  oinv w -> exec text e w = Some w' -> oRows w !! id = Some r ->
  (exists r', oRows w' !! id = Some r' /\ fixed r' = fixed r /\ (vPublishedAt r <> None -> vPublishedAt r' <> None)) \/
  (oRows w' !! id = None /\ exists k now u, e = OvPrune k now /\ vPublishedAt r = Some u /\ u < now - outboxRetention).
Proof.
  intros Hw He Hr. destruct (oi_rows _ Hw id r Hr) as (r0 & Hb & _). destruct (oi_born _ Hw id r0 Hb) as (Hu & _).
  destruct w as [t s b jobs used born alloc dones exhausted silent]. cbn [oRows oUsed] in *.
  assert (forall w' : outbox_world B R E, oRows w' = t -> exists r', oRows w' !! id = Some r' /\ fixed r' = fixed r /\
    (vPublishedAt r <> None -> vPublishedAt r' <> None)) as Hsame by (intros ? ->; by exists r).
  assert (forall i f, (forall r, fixed (f r) = fixed r /\ (vPublishedAt r <> None -> vPublishedAt (f r) <> None)) ->
    exists r', (if decide (id = i) then f <$> t !! id else t !! id) = Some r' /\ fixed r' = fixed r /\
      (vPublishedAt r <> None -> vPublishedAt r' <> None)) as Hupd.
  { intros i f Hf. rewrite Hr. destruct (decide (id = i)); [exists (f r); split; [done|apply Hf]|by exists r]. }
  destruct e; cbn [exec] in He.
  - left. apply Hsame. apply bind_Some in He as ([ev row] & _ & (_ & _ & He)%bind_Some).
    destruct (match (if counted then canonical_key row else None) with Some _ => _ | None => _ end). by injection He as <-.
  - left. destruct (jobs !! k) as [[i q c| | | |]|]; try done. destruct stored; [|injection He as <-; by apply Hsame].
    apply bind_Some in He as (Hn & _ & [= <-]). exists r. cbn. rewrite lookup_insert_ne; [done|]. intros ->. congruence.
  - left. destruct (persist now (combine draws (rejectOversized evs)) s) as [rows s'] eqn:Hp.
    apply bind_Some in He as ((_ & _ & Hfresh) & _ & [= <-]). exists r. split; [|done]. cbn [oRows].
    rewrite (persist_ids _ _ _ _ _ Hp) in Hfresh. rewrite Forall_forall in Hfresh.
    destruct (write_all (map fst rows) t !! id) as [q|] eqn:Eq.
    + apply write_all_cases in Eq as [Hin|[_ ?]]; [|congruence]. destruct (Hfresh id) as [? _]; [|done].
      apply elem_row_ids. exists (id, q). auto.
    + exfalso. clear -Hr Eq. induction (map fst rows) as [|[i q] l IH]; cbn in *; [congruence|].
      destruct (decide (id = i)) as [->|]; [by rewrite lookup_insert_eq in Eq|rewrite lookup_insert_ne in Eq by done; auto].
  - left. destruct (jobs !! k) as [[|[|[[i q] c] rest]| | |]|]; try done. apply bind_Some in He as ([perr b'] & _ & [= <-]). by apply Hsame.
  - left. destruct (jobs !! k) as [[| |i perr rest| |]|]; try done. injection He as <-. cbn. destruct written; [|by exists r].
    rewrite stamp_lookup. apply Hupd. apply stamped_fixed.
  - left. injection He as <-. by apply Hsame.
  - left. destruct (jobs !! k) as [[| | |[|[i q] rest]|]|]; try done. apply bind_Some in He as ([perr b'] & _ & [= <-]). by apply Hsame.
  - left. destruct (jobs !! k) as [[| | | |i q perr rest]|]; try done. injection He as <-. cbn. destruct written; [|by exists r].
    rewrite update_row_lookup. apply Hupd. apply relay_fixed.
  - destruct (jobs !! k) as [[| | |[|]|]|]; try done. injection He as <-. cbn. unfold prune.
    destruct (prunable now r) eqn:Ep.
    + right. split; [apply map_lookup_filter_None; right; rewrite Hr; intros q [= <-]; cbn [snd]; by rewrite Ep|]. unfold prunable in Ep.
      destruct (vPublishedAt r) as [u|] eqn:Eu; [|done]. exists k, now, u. split_and!; [done..|]. by apply Z.ltb_lt.
    + left. exists r. split; [|done]. by apply map_lookup_filter_Some.
  - left. apply bind_Some in He as (j & _ & [= <-]). by apply Hsame.
  - left. apply bind_Some in He as (b' & _ & [= <-]). by apply Hsame.
Qed.

(** ** When nothing goes wrong

    An orderly step: no process dies, every write after a publication
    reaches its row, and a sweep finds no row another process still holds. *)

Definition held (j : job E) : list string :=
  match waiting j with Some (id, _) => [id] | None => [] end ++
  map fst (match j with JRelayed _ _ _ rows => rows | _ => entries j end).
Definition orderly e w : Prop :=
  match e with
  | OvCrash _ => False
  | OvStamp _ _ written | OvRecord _ _ written _ => written = true
  | OvSweep now => forall p j, p ∈ sweep_rows now (oRows w) -> j ∈ oJobs w -> p.1 ∉ held j
  | _ => True
  end.
Fixpoint orderly_run (es : list (outbox_event R A)) w : Prop :=
  match es with
  | [] => True
  | e :: es => orderly e w /\ match exec text e w with Some w => orderly_run es w | None => True end
  end.

(** The same, to evaluate. *)
Definition orderlyb e w : bool :=
  match e with
  | OvCrash _ => false
  | OvStamp _ _ written | OvRecord _ _ written _ => written
  | OvSweep now =>
      forallb (fun p : string * EventRow => forallb (fun j => negb (bool_decide (p.1 ∈ held j))) (oJobs w)) (sweep_rows now (oRows w))
  | _ => true
  end.
Fixpoint orderly_runb (es : list (outbox_event R A)) w : bool :=
  match es with
  | [] => true
  | e :: es => orderlyb e w && match exec text e w with Some w => orderly_runb es w | None => true end
  end.
Lemma orderlyb_spec e w : orderlyb e w = true -> orderly e w.
Proof.
  destruct e; cbn [orderlyb orderly]; try done. intros Hf p j Hp Hj. rewrite forallb_forall in Hf.
  specialize (Hf p (proj1 (list_elem_of_In _ _) Hp)). rewrite forallb_forall in Hf. specialize (Hf j (proj1 (list_elem_of_In _ _) Hj)).
  by apply negb_true_iff, bool_decide_eq_false in Hf.
Qed.
Lemma orderly_runb_spec es w : orderly_runb es w = true -> orderly_run es w.
Proof.
  revert w. induction es as [|e es IH]; intros w; cbn [orderly_runb orderly_run]; [done|]. intros [He Hes]%andb_true_iff.
  split; [by apply orderlyb_spec|]. destruct (exec text e w); [by apply IH|done].
Qed.

(** The plain subscribers were handed the row. *)
Definition heard_by (perr : option (bus_error E)) : bool := match perr with None => true | Some _ => SiblingsRan perr end.
Definition sent (j : job E) : list string :=
  match waiting j with Some (id, perr) => if heard_by perr then [id] else [] | None => [] end.
Definition spent (r : EventRow) : bool := negb (bool_decide (vPublishedAt r = None)) || vFannedOut r.
Definition unheard w (id : string) : Prop := forall s r, oBorn w !! id = Some r -> plain_runs s (vEventID r) (oBus w) = 0%nat.

(** What a process holds is as it was read. *)
Definition as_read (t : event_rows) (j : job E) : Prop :=
  match j with
  | JCanonical id r _ => t !! id = None
  | JFan rows | JFanned _ _ rows => Forall (fun p => exists q, t !! p.1.1 = Some q /\ spent q = false) rows
  | JSweep rows => Forall (fun p => t !! p.1 = Some p.2 /\ vPublishedAt p.2 = None) rows
  | JRelayed id r _ rows => Forall (fun p => t !! p.1 = Some p.2 /\ vPublishedAt p.2 = None) ((id, r) :: rows)
  end.

Record orderly_inv w : Prop := mkOrderlyInv {
  od_once : NoDup (concat (map held (oJobs w)));
  od_bound : forall s id r, oBorn w !! id = Some r -> (plain_runs s (vEventID r) (oBus w) <= 1)%nat;
  od_rows : forall id q, oRows w !! id = Some q -> spent q = false -> (forall j, j ∈ oJobs w -> id ∉ sent j) -> unheard w id;
  od_canonical : forall id r c, JCanonical id r c ∈ oJobs w -> unheard w id;
  od_read : forall j, j ∈ oJobs w -> as_read (oRows w) j
}.

Lemma sent_held j id : id ∈ sent j -> id ∈ held j.
Proof.
  unfold sent, held. destruct (waiting j) as [[i perr]|]; [|by intros ?%elem_of_nil].
  destruct (heard_by perr); [|by intros ?%elem_of_nil]. intros ->%list_elem_of_singleton. by left.
Qed.
Lemma pending_held j p : p ∈ entries j -> p.1 ∈ held j.
Proof.
  intros Hin. unfold held. apply elem_of_app.
  destruct j; cbn [waiting entries] in *; try (right; apply list_elem_of_fmap; by exists p).
  apply elem_of_cons in Hin as [->|Hin]; [left; by left|right]. apply list_elem_of_fmap. by exists p.
Qed.

(** The process [j] alone holds its rows. *)
Lemma held_alone l1 j l2 id j' :
  NoDup (concat (map held (l1 ++ j :: l2))) -> id ∈ held j -> j' ∈ l1 ++ l2 -> id ∉ held j'.
Proof.
  rewrite map_app, concat_app. cbn [map concat]. intros Hn Hid Hj Hid'.
  apply NoDup_app in Hn as (_ & H1' & Hn). apply NoDup_app in Hn as (_ & H2' & _).
  assert (forall l, j' ∈ l -> id ∈ concat (map held l)) as Hin.
  { intros l Hl. apply list_elem_of_In, in_concat. exists (held j'). split; [|by apply list_elem_of_In].
    apply in_map. by apply list_elem_of_In. }
  apply elem_of_app in Hj as [Hj|Hj]; apply Hin in Hj.
  - apply (H1' id Hj). apply elem_of_app. by left.
  - by apply (H2' id Hid).
Qed.
Lemma held_replace l1 j j' l2 :
  sublist (held j') (held j) -> NoDup (concat (map held (l1 ++ j :: l2))) -> NoDup (concat (map held (l1 ++ j' :: l2))).
Proof.
  intros Hs Hn. eapply sublist_NoDup; [exact Hn|]. rewrite !map_app, !concat_app. cbn [map concat].
  apply sublist_app; [done|]. by apply sublist_app.
Qed.
Lemma held_drop l1 j l2 : NoDup (concat (map held (l1 ++ j :: l2))) -> NoDup (concat (map held (l1 ++ l2))).
Proof.
  intros Hn. eapply sublist_NoDup; [exact Hn|]. rewrite !map_app, !concat_app. cbn [map concat]. apply sublist_app; [done|]. by apply sublist_inserts_l.
Qed.
Lemma elem_middle (l1 l2 : list (job E)) j x : x ∈ l1 ++ j :: l2 <-> x = j \/ x ∈ l1 ++ l2.
Proof. rewrite !elem_of_app, elem_of_cons. tauto. Qed.

Lemma as_read_agree t t' j : (forall i, i ∈ held j -> t' !! i = t !! i) -> as_read t j -> as_read t' j.
Proof.
  intros Ha. assert (forall p, p ∈ entries j -> t' !! p.1 = t !! p.1) as He by (intros p Hp; by apply Ha, pending_held).
  destruct j as [id r c|rows|id perr rows|rows|id r perr rows]; cbn [as_read entries] in *.
  - specialize (He (id, r) ltac:(by left)). cbn [fst] in He. by rewrite He.
  - rewrite !Forall_forall. intros Hr p Hp. rewrite (He p.1); [by apply Hr|]. apply list_elem_of_fmap. by exists p.
  - rewrite !Forall_forall. intros Hr p Hp. rewrite (He p.1); [by apply Hr|]. apply list_elem_of_fmap. by exists p.
  - rewrite !Forall_forall. intros Hr p Hp. rewrite He by done. by apply Hr.
  - rewrite !Forall_forall. intros Hr p Hp. rewrite He by done. by apply Hr.
Qed.

(** One process moves on with the row [id]. *)
Lemma orderly_move w w' l1 j l2 mid id :
  orderly_inv w -> oJobs w = l1 ++ j :: l2 -> oJobs w' = l1 ++ (match mid with Some j' => [j'] | None => [] end) ++ l2 -> oBorn w' = oBorn w -> id ∈ held j ->
  (forall i, i ∈ sent j -> i = id) ->
  (forall j', mid = Some j' -> sublist (held j') (held j) /\ as_read (oRows w') j' /\ forall i r c, j' <> JCanonical i r c) ->
  (forall i, i <> id -> oRows w' !! i = oRows w !! i) ->
  (forall s i r, oBorn w !! i = Some r -> i <> id -> (plain_runs s (vEventID r) (oBus w') <= plain_runs s (vEventID r) (oBus w))%nat) ->
  (forall s r, oBorn w !! id = Some r -> (plain_runs s (vEventID r) (oBus w') <= 1)%nat) ->
  (forall q, oRows w' !! id = Some q -> spent q = false -> (forall j', mid = Some j' -> id ∉ sent j') -> unheard w' id) ->
  orderly_inv w'.
Proof.
  intros [Hone Hbound Hrows Hcan Hread] Hj Hj' Hb Hid Hsent Hmid Ht Hruns Hle Hun. rewrite Hj in Hone.
  assert (forall x, x ∈ l1 ++ l2 -> x ∈ oJobs w) as Hin by (intros x Hx; rewrite Hj; apply elem_middle; by right).
  assert (forall x, x ∈ oJobs w' -> mid = Some x \/ x ∈ l1 ++ l2) as Hin'.
  { intros x. rewrite Hj'. rewrite !elem_of_app. destruct mid; cbn; [rewrite list_elem_of_singleton|rewrite elem_of_nil]; naive_solver. }
  assert (forall i, i <> id -> unheard w i -> unheard w' i) as Hkeep.
  { intros i Hne Hu s r Hr. rewrite Hb in Hr. specialize (Hruns s i r Hr Hne). specialize (Hu s r Hr). lia. }
  split.
  - rewrite Hj'. destruct mid as [j'|]; cbn [app]; [|by apply held_drop in Hone].
    eapply held_replace; [|exact Hone]. by apply Hmid.
  - intros s i r Hr. rewrite Hb in Hr. destruct (decide (i = id)) as [->|Hne]; [by apply Hle|].
    specialize (Hruns s i r Hr Hne). specialize (Hbound s i r Hr). lia.
  - intros i q Hq Hs Hns. destruct (decide (i = id)) as [->|Hne].
    + apply (Hun q Hq Hs). intros j' ->. apply Hns. rewrite Hj'. cbn. set_solver.
    + apply Hkeep; [done|]. rewrite Ht in Hq by done. apply (Hrows i q Hq Hs). intros x. rewrite Hj. intros [->|Hx]%elem_middle.
      * by intros ?%Hsent.
      * apply Hns. rewrite Hj'. rewrite !elem_of_app in *. tauto.
  - intros i r c Hc. destruct (Hin' _ Hc) as [Hm|Hx]; [destruct (Hmid _ Hm) as (_ & _ & Hn); by destruct (Hn i r c)|].
    apply Hkeep; [|by eapply Hcan, Hin]. intros ->. by apply (held_alone _ _ _ _ _ Hone Hid Hx), (pending_held (JCanonical id r c) (id, r)); left.
  - intros x Hx. destruct (Hin' _ Hx) as [Hm|Hx']; [by apply Hmid|]. eapply as_read_agree, Hread, Hin, Hx'.
    intros i Hi. apply Ht. intros ->. by apply (held_alone _ _ _ _ _ Hone Hid Hx').
Qed.

Lemma same_event w i j r q : oinv w -> oBorn w !! i = Some r -> known (oBorn w) (j, q) -> vEventID q = vEventID r -> i = j.
Proof.
  intros Hw Hi (q0 & Hq0 & Hf) He. apply (oi_events _ Hw i j r q0 Hi Hq0).
  assert (vEventID q0 = vEventID q) as -> by exact (f_equal vEventID Hf). done.
Qed.
Lemma unheard_known w i q : unheard w i -> known (oBorn w) (i, q) -> forall s, plain_runs s (vEventID q) (oBus w) = 0%nat.
Proof.
  intros Hu (q0 & Hq0 & Hf) s. assert (vEventID q = vEventID q0) as -> by exact (eq_sym (f_equal vEventID Hf)). by apply Hu.
Qed.

(** The process [k] holds [id] alone, so nobody else has sent it. *)
Lemma unsent w l1 j l2 id : orderly_inv w -> oJobs w = l1 ++ j :: l2 -> id ∈ held j -> id ∉ sent j ->
  forall x, x ∈ oJobs w -> id ∉ sent x.
Proof.
  intros Ho Hj Hid Hns x. rewrite Hj. intros [->|Hx]%elem_middle; [done|]. intros Hin%sent_held.
  pose proof (od_once _ Ho) as Hone. rewrite Hj in Hone. by apply (held_alone _ _ _ _ _ Hone Hid Hx).
Qed.

(** A publication of the row [id] to everyone, or to the durable routers. *)
Lemma orderly_publication w w' l1 j j' l2 id r (perr : option (bus_error E)) (full : bool) :
  oinv w -> orderly_inv w -> oJobs w = l1 ++ j :: l2 -> oJobs w' = l1 ++ j' :: l2 -> oBorn w' = oBorn w -> oRows w' = oRows w ->
  id ∈ held j -> sent j = [] -> held j' = held j -> sent j' = (if heard_by perr then [id] else []) ->
  as_read (oRows w) j' -> (forall i r c, j' <> JCanonical i r c) -> known (oBorn w) (id, r) ->
  (full = true -> unheard w id) ->
  (forall s i, (plain_runs s i (oBus w') <= plain_runs s i (oBus w) + (if decide (vEventID r = i /\ full = true /\ heard_by perr = true) then 1 else 0))%nat) ->
  orderly_inv w'.
Proof.
  intros Hw Ho Hj Hj' Hb Ht Hid Hs Hh Hs' Hread Hcan Hk Hun Hruns.
  apply (orderly_move w w' l1 j l2 (Some j') id Ho Hj); try done.
  - rewrite Hs. by intros i ?%elem_of_nil.
  - intros x [= <-]. rewrite Hh, Ht. done.
  - by intros i _; rewrite Ht.
  - intros s i q Hq Hne. specialize (Hruns s (vEventID q)). destruct (decide (_ /\ _)) as [[He _]|]; [|lia].
    exfalso. apply Hne. by eapply same_event.
  - intros s q Hq. specialize (Hruns s (vEventID q)). pose proof (od_bound _ Ho s id q Hq).
    destruct (decide (_ /\ _)) as [(_ & Hfull & _)|]; [|lia]. rewrite (Hun Hfull s q Hq) in Hruns. lia.
  - intros q Hq Hsp Hx. rewrite Ht in Hq.
    assert (unheard w id) as Hu.
    { apply (od_rows _ Ho id q Hq Hsp). eapply unsent; [done..|]. rewrite Hs. by intros ?%elem_of_nil. }
    intros s q' Hq'. rewrite Hb in Hq'. specialize (Hruns s (vEventID q')). rewrite (Hu s q' Hq') in Hruns.
    destruct (decide (_ /\ _)) as [(_ & _ & Hheard)|]; [|lia]. specialize (Hx j' eq_refl). rewrite Hs', Hheard in Hx. exfalso. apply Hx. by left.
Qed.

Lemma held_nodup w l1 j l2 : orderly_inv w -> oJobs w = l1 ++ j :: l2 -> NoDup (held j).
Proof.
  intros Ho Hj. pose proof (od_once _ Ho) as Hone. rewrite Hj, map_app, concat_app in Hone. cbn [map concat] in Hone.
  apply NoDup_app in Hone as (_ & _ & Hone). by apply NoDup_app in Hone as [? _].
Qed.

(** The write that follows a publication. *)
Lemma orderly_written w w' l1 j j' l2 id (f : EventRow -> EventRow) :
  orderly_inv w -> oJobs w = l1 ++ j :: l2 -> oJobs w' = l1 ++ j' :: l2 -> oBorn w' = oBorn w -> oBus w' = oBus w ->
  (forall i, oRows w' !! i = if decide (i = id) then f <$> oRows w !! i else oRows w !! i) ->
  held j = id :: held j' -> (forall i, i ∈ sent j -> i = id) -> as_read (oRows w) j' -> (forall i r c, j' <> JCanonical i r c) ->
  (forall r, oRows w !! id = Some r -> spent (f r) = false -> spent r = false /\ id ∉ sent j) ->
  orderly_inv w'.
Proof.
  intros Ho Hj Hj' Hb Hbus Ht Hh Hs Hread Hcan Hf.
  assert (id ∈ held j) as Hid by (rewrite Hh; by left).
  apply (orderly_move w w' l1 j l2 (Some j') id Ho Hj); try done.
  - intros x [= <-]. split_and!; [rewrite Hh; by apply sublist_cons|eapply as_read_agree, Hread|done].
    intros i Hi. rewrite Ht, decide_False; [done|]. intros ->. pose proof (held_nodup _ _ _ _ Ho Hj) as Hn. rewrite Hh in Hn.
    by apply NoDup_cons in Hn as [? _].
  - intros i Hne. by rewrite Ht, decide_False.
  - intros s i r _ _. by rewrite Hbus.
  - intros s r Hr. rewrite Hbus. by eapply (od_bound _ Ho).
  - intros q Hq Hsp _ s r Hr. rewrite Hb in Hr. rewrite Hbus. rewrite Ht, decide_True in Hq by done. apply fmap_Some in Hq as (r0 & Hr0 & ->).
    destruct (Hf r0 Hr0 Hsp) as [Hs0 Hns]. apply (od_rows _ Ho id r0 Hr0 Hs0); [|done]. by eapply unsent.
Qed.

Lemma held_used w j i : oinv w -> j ∈ oJobs w -> i ∈ held j -> i ∈ oUsed w.
Proof.
  intros Hw Hj. pose proof (oi_jobs _ Hw) as Hjobs. rewrite Forall_forall in Hjobs. destruct (Hjobs j Hj) as [Hk _ Hi _ _].
  assert (forall p, p ∈ entries j -> p.1 ∈ oUsed w) as Hen.
  { intros p Hp. rewrite Forall_forall in Hk. destruct (Hk p Hp) as (r & Hr & _). by apply (oi_born _ Hw) in Hr as (? & _). }
  unfold held. rewrite elem_of_app. intros [Hin|Hin].
  - destruct (waiting j) as [[id perr]|] eqn:Ewait; [|by apply elem_of_nil in Hin]. apply list_elem_of_singleton in Hin as ->.
    destruct (Hi id perr eq_refl) as [r Hr]. by apply (oi_born _ Hw) in Hr as (? & _).
  - apply list_elem_of_fmap in Hin as (p & -> & Hp). apply Hen. destruct j; cbn in *; try done. by right.
Qed.

(** A process that starts, with rows nobody holds. *)
Lemma orderly_added w w' j :
  orderly_inv w -> oJobs w' = oJobs w ++ [j] -> waiting j = None -> NoDup (held j) ->
  (forall i x, x ∈ oJobs w -> i ∈ held x -> i ∉ held j) ->
  (forall i, i ∈ oUsed w -> oRows w' !! i = oRows w !! i) ->
  (forall x i, x ∈ oJobs w -> i ∈ held x -> i ∈ oUsed w) ->
  (forall id r, oBorn w !! id = Some r -> oBorn w' !! id = Some r /\ id ∈ oUsed w) ->
  (forall id r, oBorn w' !! id = Some r -> oBorn w !! id = Some r \/ forall s, plain_runs s (vEventID r) (oBus w) = 0%nat) ->
  (forall id q, oRows w' !! id = Some q -> oRows w !! id = Some q \/ unheard w' id) ->
  oBus w' = oBus w -> as_read (oRows w') j -> (forall id r c, j = JCanonical id r c -> unheard w' id) ->
  orderly_inv w'.
Proof.
  intros [Hone Hbound Hrows Hcan Hread] Hj Hwait Hn Hapart Ht Hheld Hb Hb' Hr Hbus Has Hcj.
  assert (sent j = []) as Hsj by (unfold sent; by rewrite Hwait).
  assert (forall i r, oBorn w !! i = Some r -> unheard w i -> unheard w' i) as Hkeep.
  { intros i r Hi Hu s q Hq. destruct (Hb i r Hi) as [Hi' _]. rewrite Hi' in Hq. injection Hq as <-. rewrite Hbus. by apply Hu. }
  split.
  - rewrite Hj, map_app, concat_app. cbn [map concat]. rewrite app_nil_r. apply NoDup_app. split_and!; [done| |done].
    intros i Hi Hi'. apply list_elem_of_In, in_concat in Hi as (l & Hl & Hi). apply in_map_iff in Hl as (x & <- & Hx).
    by apply (Hapart i x); [apply list_elem_of_In|apply list_elem_of_In|].
  - intros s id r Hi. rewrite Hbus. destruct (Hb' id r Hi) as [Ho|Ho]; [by eapply Hbound|rewrite Ho; lia].
  - intros id q Hq Hs Hns. destruct (Hr id q Hq) as [Ho|Ho]; [|done].
    destruct (oBorn w !! id) as [r|] eqn:Eborn.
    + eapply Hkeep; [done|]. apply (Hrows id q Ho Hs). intros x Hx. apply Hns. rewrite Hj. set_solver.
    + intros s r Hi. rewrite Hbus. destruct (Hb' id r Hi) as [?|Hz]; [congruence|done].
  - intros id r c. rewrite Hj. intros [Hc|Hc]%elem_of_app; [|apply list_elem_of_singleton in Hc; by apply (Hcj id r c)].
    assert (is_Some (oBorn w !! id) \/ oBorn w !! id = None) as [[q Hq]|Hno] by (destruct (oBorn w !! id); [left; by eexists|by right]).
    + eapply Hkeep; [done|]. by eapply Hcan.
    + intros s q Hi. rewrite Hbus. destruct (Hb' id q Hi) as [?|Hz]; [congruence|done].
  - intros x. rewrite Hj. intros [Hx|Hx]%elem_of_app; [|by apply list_elem_of_singleton in Hx as ->].
    eapply as_read_agree, Hread, Hx. intros i Hi. apply Ht. by eapply Hheld.
Qed.

Lemma orderly_canonical id occurrence akm mkm c now m counted w w' :
  oinv w -> orderly_inv w -> exec text (OvCanonical id occurrence akm mkm c now m counted) w = Some w' -> orderly_inv w'.
Proof.
  intros Hw Ho He. destruct w as [t s b jobs used born alloc dones exhausted silent] eqn:Ew. rewrite <- Ew in Hw, Ho. cbn [exec] in He.
  apply bind_Some in He as ([ev row] & Hc & (( Hid & Hoc & _ & _ & _ & _) & _ & He)%bind_Some).
  destruct (match (if counted then canonical_key row else None) with Some _ => _ | None => _ end) as [n s'] eqn:Hd. injection He as <-.
  destruct (canonical_spec akm mkm c now occurrence m ev row n Hc) as (Hev & _).
  assert (forall s, plain_runs s occurrence b = 0%nat) as Hzero.
  { intros si. destruct (plain_runs si occurrence b) eqn:Er; [done|]. exfalso. apply Hoc.
    pose proof (oi_plain _ Hw si occurrence) as Hp. rewrite Ew in Hp. cbn in Hp. apply Hp. lia. }
  pose proof (fun x i => held_used w x i Hw) as Hheld. rewrite Ew in Hheld. cbn [oJobs oUsed] in Hheld.
  assert (forall i, is_Some (t !! i) -> i ∈ used) as Hrows.
  { intros i [q Hq]. pose proof (oi_rows _ Hw i q) as Hk. rewrite Ew in Hk. destruct (Hk Hq) as (r0 & Hr0 & _).
    pose proof (oi_born _ Hw i r0) as Hb. rewrite Ew in Hb. by apply Hb in Hr0 as (? & _). }
  apply (orderly_added w _ (JCanonical id (with_sequence row n) c) Ho); rewrite ?Ew; cbn [oJobs oRows oBus oBorn oUsed]; try done.
  - cbn. repeat constructor. set_solver.
  - intros i x Hx Hi. cbn. intros ->%list_elem_of_singleton. by apply Hid, (Hheld x).
  - intros i r Hr. pose proof (oi_born _ Hw i r) as Hb. rewrite Ew in Hb. destruct (Hb Hr) as (Hu & _). split; [|done].
    rewrite lookup_insert_ne; [done|]. by intros ->.
  - intros i r. destruct (decide (i = id)) as [->|Hne]; [|rewrite lookup_insert_ne by done; by left].
    rewrite lookup_insert_eq. intros [= <-]. right. by rewrite Hev.
  - by left.
  - cbn. destruct (t !! id) eqn:Et; [|done]. exfalso. apply Hid, Hrows. by eexists.
  - intros i r c' [= -> <- <-] si q. cbn [oBorn oBus]. rewrite lookup_insert_eq. intros [= <-]. by rewrite Hev.
Qed.

Lemma orderly_staged now draws evs c fan w w' :
  oinv w -> orderly_inv w -> exec text (OvStaged now draws evs c fan) w = Some w' -> orderly_inv w'.
Proof.
  intros Hw Ho He. destruct w as [t s b jobs used born alloc dones exhausted silent] eqn:Ew. rewrite <- Ew in Hw, Ho. cbn [exec] in He.
  destruct (persist now (combine draws (rejectOversized evs)) s) as [rows s'] eqn:Hp.
  apply bind_Some in He as ((_ & Hn & Hu) & _ & [= <-]). rewrite (persist_ids _ _ _ _ _ Hp) in *. rewrite Forall_forall in Hu.
  assert (counters_ok s alloc) as Hco by (pose proof (oi_counters _ Hw) as Hco; by rewrite Ew in Hco).
  destruct (persist_spec _ _ _ _ _ alloc Hco Hp) as [_ Hall]. rewrite Forall_forall in Hall.
  destruct (row_ids_NoDup _ Hn) as [Hfst _]. pose proof (fun x i => held_used w x i Hw) as Hheld. rewrite Ew in Hheld. cbn [oJobs oUsed] in Hheld.
  assert (forall i r, (i, r) ∈ map fst rows -> i ∉ used /\ vEventID r ∉ used) as Hfresh.
  { intros i r Hin. split; apply Hu, elem_row_ids; exists (i, r); auto. }
  assert (forall i r, (i, r) ∈ map fst rows -> forall si, plain_runs si (vEventID r) b = 0%nat) as Hzero.
  { intros i r Hin si. destruct (plain_runs si (vEventID r) b) eqn:Er; [done|]. exfalso. apply (Hfresh i r Hin).
    pose proof (oi_plain _ Hw si (vEventID r)) as Hpl. rewrite Ew in Hpl. cbn in Hpl. apply Hpl. lia. }
  assert (forall V (m : gmap string V) (l : list (string * V)) i, i ∉ map fst l -> write_all l m !! i = m !! i) as Hskip.
  { intros V m l i. induction l as [|[x v] l IH]; cbn; [done|]. rewrite not_elem_of_cons. intros [? ?]. rewrite lookup_insert_ne by done. auto. }
  assert (forall i, i ∈ used -> i ∉ map fst (map fst rows)) as Hout.
  { intros i Hi ((x & r) & -> & Hin)%list_elem_of_fmap. by destruct (Hfresh x r Hin). }
  assert (forall w', oBorn w' = write_all (map fst rows) born -> oBus w' = b -> forall i r, (i, r) ∈ map fst rows -> unheard w' i) as Hun.
  { intros w' Hb Hbus i r Hin si q. rewrite Hb, Hbus, (write_all_in _ _ i r Hfst Hin). intros [= <-]. by eapply Hzero. }
  assert (forall w' j, oJobs w' = jobs ++ [j] -> oRows w' = write_all (map fst rows) t -> oBorn w' = write_all (map fst rows) born -> oBus w' = b ->
    waiting j = None -> NoDup (held j) -> (forall i, i ∈ held j -> i ∈ map fst (map fst rows)) -> as_read (oRows w') j ->
    (forall i r c, j <> JCanonical i r c) -> orderly_inv w') as Hadd.
  { intros w' j Hj Ht Hb Hbus Hwj Hnj Hsub Has Hnc. apply (orderly_added w w' j Ho); rewrite ?Hbus; try rewrite Ew; cbn [oJobs oRows oBus oBorn oUsed]; try done.
    - intros i x Hx Hi Hij. by apply (Hout i), Hsub; [eapply Hheld|].
    - intros i Hi. rewrite Ht. by apply Hskip, Hout.
    - intros i r Hr. pose proof (oi_born _ Hw i r) as Hbo. rewrite Ew in Hbo. destruct (Hbo Hr) as (Hi & _). split; [|done].
      rewrite Hb, Hskip; [done|]. by apply Hout.
    - intros i r. rewrite Hb. intros [Hin|[_ ?]]%write_all_cases; [right; by eapply Hzero|by left].
    - intros i q. rewrite Ht. intros [Hin|[_ ?]]%write_all_cases; [right; by eapply Hun|by left].
    - intros i r c' ->. by destruct (Hnc i r c'). }
  set (fan_job := JFan (map (fun p : string * EventRow * option seq_key => (p.1, publishContext p.1.2 c)) rows)).
  assert (held fan_job = map fst (map fst rows)) as Hh by (unfold held, fan_job; cbn; by rewrite !map_map).
  assert (as_read (write_all (map fst rows) t) fan_job) as Has.
  { cbn. rewrite Forall_map, Forall_forall. intros p Hin. exists p.1.2. destruct (Hall p Hin) as [(E1 & _ & E2) _]. split.
    - apply write_all_in; [done|]. apply list_elem_of_fmap. exists p. split; [by destruct p as [[? ?] ?]|done].
    - unfold spent. cbn. by rewrite E1, E2. }
  destruct fan; [apply (Hadd _ fan_job); try done; rewrite Hh; done|].
  pose proof (Hadd (mkOutboxWorld (write_all (map fst rows) t) s' b (jobs ++ [fan_job]) (list_to_set (row_ids (map fst rows)) ∪ used)
    (write_all (map fst rows) born) alloc dones exhausted silent) fan_job) as Hj.
  destruct Hj as [Hone Hbound Hrw Hcan Hread]; try done; [by rewrite Hh|by rewrite Hh|]. cbn in *. split; cbn; try done.
  - rewrite map_app, concat_app in Hone. by apply NoDup_app in Hone as [? _].
  - intros i q Hq Hsp Hns. apply (Hrw i q Hq Hsp). intros x [Hx| ->%list_elem_of_singleton]%elem_of_app; [by apply Hns|]. by intros ?%elem_of_nil.
  - intros i r c' Hin. apply (Hcan i r c'). set_solver.
  - intros x Hx. apply Hread. set_solver.
Qed.

Lemma elem_job w l1 j l2 : oJobs w = l1 ++ j :: l2 -> j ∈ oJobs w.
Proof. intros ->. apply elem_middle. by left. Qed.

Lemma orderly_exec e w w' :
  @PublishDurableOnly_ B R A E _ <> None ->
  oinv w -> orderly_inv w -> orderly e w -> exec text e w = Some w' -> orderly_inv w'.
Proof.
  intros Honly Hw Ho Hord He. destruct e.
  1: by eapply orderly_canonical.
  2: by eapply orderly_staged.
  all: destruct w as [t s b jobs used born alloc dones exhausted silent] eqn:Ew; rewrite <- Ew in Hw, Ho; cbn [exec] in He.
  - (* persist *)
    destruct (jobs !! k) as [[id r c| | | |]|] eqn:Hk; try done. destruct (list_split_at _ _ _ Hk) as (l1 & l2 & Hj & Hins & Hdel).
    assert (oJobs w = l1 ++ JCanonical id r c :: l2) as Hjw by (by rewrite Ew). pose proof (elem_job _ _ _ _ Hjw) as Hin.
    pose proof (od_canonical _ Ho _ _ _ Hin) as Hun. pose proof (oi_jobs _ Hw) as Hjobs. rewrite Forall_forall in Hjobs.
    destruct (Hjobs _ Hin) as [_ _ _ _ (Hn1 & _ & Hn3)].
    assert (forall i, i ∈ sent (@JCanonical E id r c) -> i = id) as Hs by (by intros i ?%elem_of_nil).
    assert (id ∈ held (@JCanonical E id r c)) as Hid by (by left).
    assert (forall w', oBorn w' = born -> oBus w' = b -> unheard w' id) as Hun'.
    { intros w1 E1 E2 si q Hq. rewrite E1 in Hq. rewrite E2. specialize (Hun si q). rewrite Ew in Hun. by apply Hun. }
    destruct stored.
    + apply bind_Some in He as (Ht & _ & [= <-]).
      apply (orderly_move w _ l1 _ l2 (Some (JFan [(id, r, WithMeta c (row_meta r))])) id Ho Hjw); try (rewrite Ew; done); try done.
      * cbn. by rewrite Hins.
      * intros j' [= <-]. split_and!; [done| |done]. cbn. constructor; [|done]. exists r. split; [apply lookup_insert_eq|].
        unfold spent. by rewrite Hn1, Hn3.
      * intros i Hne. rewrite Ew. cbn. by rewrite lookup_insert_ne.
      * intros si q Hq. rewrite Ew in Hq. cbn [oBus]. specialize (Hun si q). rewrite Ew in Hun. cbn in Hun, Hq. rewrite Hun by done. lia.
      * intros q _ _ _. by apply Hun'.
    + injection He as <-. apply (orderly_move w _ l1 _ l2 None id Ho Hjw); try (rewrite Ew; done); try done.
      * intros si q Hq. rewrite Ew in Hq. cbn [oBus]. specialize (Hun si q). rewrite Ew in Hun. cbn in Hun, Hq. rewrite Hun by done. lia.
      * intros q _ _ _. by apply Hun'.
  - (* publish *)
    destruct (jobs !! k) as [[|[|[[id r] c] rest]| | |]|] eqn:Hk; try done. destruct (list_split_at _ _ _ Hk) as (l1 & l2 & Hj & Hins & Hdel).
    assert (oJobs w = l1 ++ JFan ((id, r, c) :: rest) :: l2) as Hjw by (by rewrite Ew). pose proof (elem_job _ _ _ _ Hjw) as Hin.
    pose proof (od_read _ Ho _ Hin) as Hread. cbn in Hread. apply Forall_cons in Hread as [(q & Hq & Hsp) Hrest]. cbn [fst snd] in Hq.
    pose proof (oi_jobs _ Hw) as Hjobs. rewrite Forall_forall in Hjobs. destruct (Hjobs _ Hin) as [Hk' Hc _ _ _].
    apply Forall_cons in Hk' as [Hkn _]. apply Forall_cons in Hc as [Hm _]. cbn in Hm.
    apply bind_Some in He as ([perr b'] & Hp & [= <-]).
    assert (id ∈ held (@JFan E ((id, r, c) :: rest))) as Hid by (by left).
    apply (orderly_publication w _ l1 _ (JFanned id perr rest) l2 id r perr true Hw Ho Hjw); try (rewrite Ew; done); try done.
    + cbn. by rewrite Hins.
    + intros _. apply (od_rows _ Ho id q Hq Hsp). apply (unsent _ _ _ _ _ Ho Hjw Hid). by intros ?%elem_of_nil.
    + intros si i. rewrite Ew. cbn [oBus]. pose proof (plain_publish si i _ _ _ _ _ _ _ _ _ Hp) as Hpl. rewrite Hm in Hpl.
      destruct (decide (vEventID r = i /\ (perr = None \/ _))) as [[Hx Hy]|]; [|destruct (decide _); lia].
      rewrite decide_True; [done|]. split_and!; [done..|]. by destruct perr, Hy.
  - (* stamp *)
    cbn in Hord. subst written. destruct (jobs !! k) as [[| |id perr rest| |]|] eqn:Hk; try done.
    destruct (list_split_at _ _ _ Hk) as (l1 & l2 & Hj & Hins & Hdel). injection He as <-.
    assert (oJobs w = l1 ++ JFanned id perr rest :: l2) as Hjw by (by rewrite Ew). pose proof (elem_job _ _ _ _ Hjw) as Hin.
    pose proof (od_read _ Ho _ Hin) as Hread.
    apply (orderly_written w _ l1 _ (JFan rest) l2 id (stamped now perr) Ho Hjw); try (rewrite Ew; done); try done.
    + cbn. by rewrite Hins.
    + intros i. rewrite Ew. cbn. apply stamp_lookup.
    + intros i. unfold sent. cbn. destruct (heard_by perr); [by intros ->%list_elem_of_singleton|by intros ?%elem_of_nil].
    + intros r Hr. unfold stamped, spent, sent. cbn [waiting]. destruct perr as [err|]; cbn [heard_by].
      * destruct (SiblingsRan (Some err)); [cbn; by rewrite orb_true_r|]. intros ->. split; [done|]. by intros ?%elem_of_nil.
      * by rewrite bool_decide_eq_false_2.
  - (* sweep *)
    injection He as <-.
    pose proof (fun x i => held_used w x i Hw) as Hheld. rewrite Ew in Hheld. cbn [oJobs oUsed] in Hheld.
    apply (orderly_added w _ (JSweep (sweep_rows now t)) Ho); rewrite ?Ew; cbn [oJobs oRows oBus oBorn oUsed]; try done.
    + apply select_keys.
    + intros i x Hx Hi ((i' & r) & -> & Hin)%list_elem_of_fmap. cbn in Hord. by apply (Hord (i', r) x Hin Hx).
    + intros i r Hr. split; [done|]. pose proof (oi_born _ Hw i r) as Hb. rewrite Ew in Hb. by destruct (Hb Hr).
    + by left.
    + by left.
    + cbn [as_read]. apply Forall_forall. intros [i r] [Hr Hd]%elem_of_select. split; [done|]. unfold unpublished_due in Hd.
      rewrite !andb_true_iff in Hd. destruct Hd as [[[Hd _] _] _]. by apply bool_decide_eq_true in Hd.
  - (* republish *)
    destruct (jobs !! k) as [[| | |[|[id r] rest]|]|] eqn:Hk; try done. destruct (list_split_at _ _ _ Hk) as (l1 & l2 & Hj & Hins & Hdel).
    assert (oJobs w = l1 ++ JSweep ((id, r) :: rest) :: l2) as Hjw by (by rewrite Ew). pose proof (elem_job _ _ _ _ Hjw) as Hin.
    pose proof (od_read _ Ho _ Hin) as Hread. pose proof Hread as Hread'. cbn in Hread'. apply Forall_cons in Hread' as [[Hq Hpub] _]. cbn in Hq, Hpub.
    pose proof (oi_jobs _ Hw) as Hjobs. rewrite Forall_forall in Hjobs. destruct (Hjobs _ Hin) as [Hk' _ _ _ _].
    apply Forall_cons in Hk' as [Hkn _]. destruct (known_event_used _ _ _ Hw Hkn) as [_ Hne].
    apply bind_Some in He as ([perr b'] & Hp & [= <-]). assert (bus_ok b) as Hb by (pose proof (oi_bus _ Hw) as Hb; by rewrite Ew in Hb).
    destruct (republish_spec o r _ perr b' Hb Hne Hp) as (_ & _ & _ & Hruns).
    assert (id ∈ held (@JSweep E ((id, r) :: rest))) as Hid by (by left).
    assert (full_again r = negb (vFannedOut r)) as Hfa by (unfold full_again; destruct PublishDurableOnly_; [by rewrite orb_false_r|done]).
    rewrite Hfa in Hruns.
    apply (orderly_publication w _ l1 _ (JRelayed id r perr rest) l2 id r perr (negb (vFannedOut r)) Hw Ho Hjw); try (rewrite Ew; done); try done.
    + cbn. by rewrite Hins.
    + intros Hfo%negb_true_iff. apply (od_rows _ Ho id r Hq); [unfold spent; by rewrite Hpub, Hfo|].
      apply (unsent _ _ _ _ _ Ho Hjw Hid). by intros ?%elem_of_nil.
    + intros si i. specialize (Hruns si i). rewrite Ew. cbn [oBus].
      destruct (decide (vEventID r = i /\ _ /\ (perr = None \/ _))) as [(Hx & Hy & Hz)|]; [|destruct (decide _); lia].
      rewrite decide_True; [done|]. split_and!; [done..|]. by destruct perr, Hz.
  - (* record *)
    cbn in Hord. subst written. destruct (jobs !! k) as [[| | | |id r perr rest]|] eqn:Hk; try done.
    destruct (list_split_at _ _ _ Hk) as (l1 & l2 & Hj & Hins & Hdel). injection He as <-.
    assert (oJobs w = l1 ++ JRelayed id r perr rest :: l2) as Hjw by (by rewrite Ew). pose proof (elem_job _ _ _ _ Hjw) as Hin.
    pose proof (od_read _ Ho _ Hin) as Hread. cbn [as_read] in Hread. apply Forall_cons in Hread as [[Hq Hpub] Hrest]. cbn [fst snd] in Hq, Hpub.
    apply (orderly_written w _ l1 _ (JSweep rest) l2 id (relay_update text now r perr) Ho Hjw); try (rewrite Ew; done); try done.
    + cbn. by rewrite Hins.
    + intros i. rewrite Ew. cbn. apply update_row_lookup.
    + intros i. unfold sent. cbn. destruct (heard_by perr); [by intros ->%list_elem_of_singleton|by intros ?%elem_of_nil].
    + intros q Hq'. cbn in Hq. rewrite Hq in Hq'. injection Hq' as <-. unfold relay_update, spent, sent. cbn [waiting].
      destruct perr as [err|]; cbn [heard_by].
      * cbn [relayed vPublishedAt vFannedOut]. rewrite Hpub. destruct (SiblingsRan (Some err)); [done|].
        cbn. intros ->. split; [done|]. by intros ?%elem_of_nil.
      * by rewrite bool_decide_eq_false_2.
  - (* prune *)
    destruct (jobs !! k) as [[| | |[|]|]|] eqn:Hk; try done. destruct (list_split_at _ _ _ Hk) as (l1 & l2 & Hj & Hins & Hdel). injection He as <-.
    assert (oJobs w = l1 ++ JSweep [] :: l2) as Hjw by (by rewrite Ew). destruct Ho as [Hone Hbound Hrows Hcan Hread].
    rewrite Hjw in Hone. rewrite Ew in Hbound, Hrows, Hcan, Hread. cbn in *.
    assert (forall j, j ∈ l1 ++ l2 -> j ∈ jobs) as Hsub by (intros j Hx; rewrite Hj; apply elem_middle; by right).
    assert (forall i q, t !! i = Some q -> vPublishedAt q = None -> prune now t !! i = Some q) as Hkept.
    { intros i q Hq Hn. apply map_lookup_filter_Some. split; [done|]. cbn. unfold prunable. by rewrite Hn. }
    assert (forall q, spent q = false -> vPublishedAt q = None) as Hsp.
    { intros q [Hn _]%orb_false_iff. apply negb_false_iff, bool_decide_eq_true in Hn. done. }
    split; cbn; rewrite ?Hdel; try done.
    + by apply held_drop in Hone.
    + intros i q [Hq _]%map_lookup_filter_Some Hs Hns. apply (Hrows i q Hq Hs). intros j. rewrite Hj.
      intros [->|Hx]%elem_middle; [by intros ?%elem_of_nil|by apply Hns].
    + intros i r c Hx. by apply (Hcan i r c), Hsub.
    + intros j Hx. specialize (Hread j (Hsub j Hx)). destruct j; cbn in *.
      * apply map_lookup_filter_None. by left.
      * eapply Forall_impl; [exact Hread|]. intros p (q & Hq & Hs). exists q. auto.
      * eapply Forall_impl; [exact Hread|]. intros p (q & Hq & Hs). exists q. auto.
      * eapply Forall_impl; [exact Hread|]. intros p (Hq & Hs). auto.
      * eapply Forall_impl; [exact Hread|]. intros p (Hq & Hs). auto.
  - done.
  - apply bind_Some in He as (b' & Ha & [= <-]). destruct Ho as [Hone Hbound Hrows Hcan Hread]. rewrite Ew in *. cbn in *.
    assert (forall i w1, oBorn w1 = born -> oBus w1 = b' -> unheard (mkOutboxWorld t s b jobs used born alloc dones exhausted silent) i -> unheard w1 i) as Hu.
    { intros i w1 E1 E2 Hun si r Hr. rewrite E1 in Hr. rewrite E2, (plain_act si _ _ _ _ Ha). by apply (Hun si r). }
    split; cbn; try done.
    + intros si i r Hr. rewrite (plain_act si _ _ _ _ Ha). by eapply Hbound.
    + intros i q Hq Hs Hns. apply Hu; [done..|]. by eapply Hrows.
    + intros i r c Hx. apply Hu; [done..|]. by eapply Hcan.
Qed.

Lemma orderly_fresh b : (forall s id, plain_runs s id b = 0%nat) -> orderly_inv (fresh_world b).
Proof. intros Hb. split; cbn; first [done|apply NoDup_nil_2|intros i r c Hin|intros j Hin]; by apply elem_of_nil in Hin. Qed.

Lemma orderly_run_inv es w w' :
  @PublishDurableOnly_ B R A E _ <> None ->
  oinv w -> orderly_inv w -> orderly_run es w -> run text es w = Some w' -> oinv w' /\ orderly_inv w'.
Proof.
  intros Honly. revert w. induction es as [|e es IH]; intros w Hw Ho; cbn [run orderly_run]; [by intros _ [= <-]|].
  intros [Hord Hes] (w1 & He & Hr)%bind_Some. rewrite He in Hes.
  eapply IH; [by eapply exec_oinv|by eapply orderly_exec|done..].
Qed.

(** ** No row is starved *)

Lemma run_app es es' w w' : run text es w = Some w' -> run text (es ++ es') w = run text es' w'.
Proof.
  revert w. induction es as [|e es IH]; intros w; cbn [run app]; [by intros [= ->]|].
  intros (w1 & -> & Hr)%bind_Some. cbn. by apply IH.
Qed.

Section drain.
(** The bus can give an answer [good], and so accepts the rows [ok]. *)
Variable ok : EventRow -> Prop.
Variable good : R -> Prop.
Hypothesis bus_answers : forall b q, bus_ok b ->
  exists o perr b', good o /\ republish o Background q b = Some (perr, b') /\ (ok q -> perr = None).
(** Only the relay moves, on such answers. *)
Definition relaying (e : outbox_event R A) : Prop :=
  match e with OvSweep _ => True | OvRepublish _ o => good o | OvRecord _ _ _ _ => True | _ => False end.

Lemma relay_one now w k i q rest :
  oinv w -> oJobs w !! k = Some (JSweep ((i, q) :: rest)) ->
  exists es w' perr, Forall relaying es /\ run text es w = Some w' /\ oJobs w' !! k = Some (JSweep rest) /\
    oRows w' = update_row i (relay_update text now q perr) (oRows w) /\ (ok q -> perr = None).
Proof.
  intros Hw Hk. destruct (bus_answers (oBus w) q (oi_bus _ Hw)) as (o & perr & b' & Hgood & Hp & Hok).
  destruct w as [t s b jobs used born alloc dones exhausted silent]. cbn [oJobs oBus oRows] in *.
  eexists [OvRepublish k o; OvRecord k now true true], _, perr. split; [by repeat constructor|]. cbn [run exec mbind option_bind].
  rewrite Hk. cbn [mbind option_bind]. rewrite Hp. cbn [mbind option_bind].
  pose proof (lookup_lt_Some _ _ _ Hk) as Hlt. cbn [exec]. rewrite list_lookup_insert_eq by done.
  cbn [mbind option_bind]. split; [done|].
  cbn [oJobs oRows]. rewrite list_lookup_insert_eq by (by rewrite length_insert). done.
Qed.

Lemma relay_all now rows w k :
  oinv w -> oJobs w !! k = Some (JSweep rows) -> NoDup (map fst rows) ->
  exists es w', Forall relaying es /\ run text es w = Some w' /\ (forall i, i ∉ map fst rows -> oRows w' !! i = oRows w !! i) /\
    forall i q r, (i, q) ∈ rows -> oRows w !! i = Some r ->
      exists perr, oRows w' !! i = Some (relay_update text now q perr r) /\ (ok q -> perr = None).
Proof.
  revert w. induction rows as [|[i q] rows IH]; intros w Hw Hk.
  { intros _. exists [], w. split_and!; [done..|]. by intros i q r ?%elem_of_nil. }
  cbn [map fst]. intros [Hi Hn]%NoDup_cons. destruct (relay_one now w k i q rows Hw Hk) as (es & w1 & perr & Hes & He & Hk1 & Ht & Hok).
  destruct (IH w1) as (es' & w' & Hes' & He' & Hsame & Hall); [by eapply run_oinv|done..|].
  exists (es ++ es'), w'. split; [by apply Forall_app|]. split; [by rewrite (run_app _ _ _ _ He)|]. split.
  - intros j [Hj Hj']%not_elem_of_cons. rewrite Hsame, Ht, update_row_lookup by done. by destruct (decide (j = i)).
  - intros j q' r [[= -> ->]|Hin]%elem_of_cons Hr.
    + exists perr. rewrite Hsame, Ht, update_row_lookup, decide_True, Hr by done. done.
    + apply (Hall j q' r Hin). rewrite Ht, update_row_lookup. destruct (decide (j = i)) as [->|]; [|done].
      destruct Hi. apply list_elem_of_fmap. by exists (i, q').
Qed.

Lemma outboxBackoff_pos n : 0 < outboxBackoff n.
Proof.
  unfold outboxBackoff, outboxBackoffMax. destruct (10 <=? _); [lia|]. destruct ((_ <? _) || _) eqn:Eb; [lia|].
  apply orb_false_iff in Eb as [_ ?%Z.leb_gt]. done.
Qed.
Lemma relayed_not_due now q (perr : option (bus_error E)) r : unpublished_due now (relay_update text now q perr r) = false.
Proof.
  unfold relay_update, unpublished_due. destruct perr as [err|]; cbn [relayed vPublishedAt vNextAttemptAt].
  - pose proof (outboxBackoff_pos (vAttempts q + 1)). rewrite (proj2 (Z.leb_gt _ now)) by lia. apply andb_false_r.
  - by rewrite bool_decide_eq_false_2.
Qed.

Definition due_ids (now : Z) (t : event_rows) : gset string := dom (filter (fun p : string * EventRow => unpublished_due now p.2 = true) t).
Lemma elem_due_ids now t i : i ∈ due_ids now t <-> exists r, t !! i = Some r /\ unpublished_due now r = true.
Proof.
  unfold due_ids. rewrite elem_of_dom. split.
  - intros [r [? ?]%map_lookup_filter_Some]. by exists r.
  - intros (r & ? & ?). exists r. by apply map_lookup_filter_Some.
Qed.
Lemma sweep_some now t i r : t !! i = Some r -> unpublished_due now r = true -> sweep_rows now t <> [].
Proof.
  intros Hr Hd. unfold sweep_rows, select. intros Hn. apply (f_equal length) in Hn. rewrite length_take in Hn.
  set (l := List.filter _ _) in Hn. rewrite (Permutation_length (sort_by_perm older l)) in Hn.
  assert ((i, r) ∈ l) as Hin by (apply list_elem_of_In, filter_In; split; [by apply list_elem_of_In, elem_of_map_to_list|done]).
  destruct l; [by apply elem_of_nil in Hin|]. cbn in Hn. unfold outboxSweepBatch in Hn. lia.
Qed.

(** However many rows are due before it, a row that is due is published by
    the sweeps that follow. *)
Lemma due_published now w id r :
  oinv w -> oRows w !! id = Some r -> unpublished_due now r = true -> ok r ->
  exists es w' r', Forall relaying es /\ run text es w = Some w' /\ oRows w' !! id = Some r' /\ vPublishedAt r' <> None.
Proof.
  remember (due_ids now (oRows w)) as X eqn:HX. revert w HX. induction X as [X IH] using (well_founded_induction set_wf).
  intros w HX Hw Hr Hd Hok. set (rows := sweep_rows now (oRows w)).
  assert (exists w1, exec text (OvSweep now) w = Some w1 /\ oRows w1 = oRows w /\ oJobs w1 !! length (oJobs w) = Some (JSweep rows)) as (w1 & He & Ht & Hk).
  { subst rows. destruct w as [t s b jobs used born alloc dones exhausted silent]. eexists. split; [done|]. split; [done|]. cbn.
    by rewrite lookup_app_r, Nat.sub_diag by lia. }
  destruct (relay_all now rows w1 _ (exec_oinv text _ _ _ Hw He) Hk (select_keys _ _ _ _)) as (es & w2 & Hes & Hrun & Hsame & Hall). rewrite Ht in *.
  assert (Forall relaying (OvSweep now :: es)) as Hes1 by (by constructor).
  assert (run text (OvSweep now :: es) w = Some w2) as Hrun2 by (cbn [run]; by rewrite He).
  destruct (decide (id ∈ map fst rows)) as [((i & q) & -> & Hin)%list_elem_of_fmap|Hout].
  - cbn [fst] in *. destruct (elem_of_select _ _ _ _ _ _ Hin) as [Hq _]. destruct (Hall i q r Hin Hr) as (perr & Hr' & Hp).
    exists (OvSweep now :: es), w2, (relay_update text now q perr r). split_and!; [done..|].
    rewrite Hp by congruence. done.
  - assert (due_ids now (oRows w2) ⊂ due_ids now (oRows w)) as Hlt.
    { assert (forall i q, oRows w2 !! i = Some q -> unpublished_due now q = true -> i ∉ map fst rows) as Hnot.
      { intros i q Hq Hdq ((j & q0) & -> & Hin)%list_elem_of_fmap. destruct (elem_of_select _ _ _ _ _ _ Hin) as [Hq0 _].
        destruct (Hall j q0 q0 Hin Hq0) as (perr & Hr' & _). cbn in Hq. rewrite Hr' in Hq. injection Hq as <-.
        by rewrite relayed_not_due in Hdq. }
      split.
      - intros i (q & Hq & Hdq)%elem_due_ids. apply elem_due_ids. exists q. split; [|done]. rewrite <- Hsame by (by eapply Hnot). done.
      - pose proof (sweep_some now _ _ _ Hr Hd) as Hne. change (rows <> []) in Hne. destruct rows as [|[i q] rest] eqn:Er; [done|].
        intros Hsub. assert (i ∈ due_ids now (oRows w)) as Hi.
        { apply elem_due_ids. exists q. apply (elem_of_select older (fun _ r => unpublished_due now r) outboxSweepBatch).
          change ((i, q) ∈ sweep_rows now (oRows w)). subst. unfold rows in Er. rewrite Er. by left. }
        apply Hsub, elem_due_ids in Hi as (q' & Hq' & Hd'). apply (Hnot i q' Hq' Hd'). by left. }
    rewrite <- HX in Hlt. destruct (IH _ Hlt w2 eq_refl) as (es' & w' & r' & Hes' & Hr' & ?); [by eapply run_oinv|by rewrite Hsame|done..|].
    exists ((OvSweep now :: es) ++ es'), w', r'. split; [by apply Forall_app|]. split; [by rewrite (run_app _ _ _ _ Hrun2)|done].
Qed.
End drain.

(** ** Names and pruning *)

Lemma persist_names now evs s rows s' : persist now evs s = (rows, s') ->
  Forall (fun p => slen (sName p.2) <= MaxEventNameLen) evs -> Forall (fun p => slen (vEventName p.1.2) <= MaxEventNameLen) rows.
Proof.
  revert s rows s'. induction evs as [|[[id fresh] e] evs IH]; intros s rows s'; cbn [persist]; [by intros [= <- <-]|].
  unfold stage. destruct (match staged_key e with Some _ => _ | None => _ end) as [n s1]. destruct (persist now evs s1) as [rows1 s2] eqn:Hp.
  intros [= <- <-] [Hn Hall]%Forall_cons. constructor; [done|by eapply IH].
Qed.

(** No row has a name the ledger cannot hold. *)
Lemma exec_names e w w' : exec text e w = Some w' ->
  (forall id r, oBorn w !! id = Some r -> slen (vEventName r) <= MaxEventNameLen) ->
  forall id r, oBorn w' !! id = Some r -> slen (vEventName r) <= MaxEventNameLen.
Proof.
  intros He Hb. destruct w as [t s b jobs used born alloc dones exhausted silent]. destruct e; cbn [exec] in He.
  - apply bind_Some in He as ([ev row] & Hc & (_ & _ & He)%bind_Some).
    destruct (match (if counted then canonical_key row else None) with Some _ => _ | None => _ end) as [n s']. injection He as <-.
    intros i r. cbn. destruct (decide (i = id)) as [->|]; [rewrite lookup_insert_eq|rewrite lookup_insert_ne by done; apply Hb].
    intros [= <-]. unfold canonical in Hc. destruct (_ <? _) eqn:El; [done|]. injection Hc as <- <-. cbn. by apply Z.ltb_ge.
  - destruct (jobs !! k) as [[| | | |]|]; try done. destruct stored; [|by injection He as <-]. by apply bind_Some in He as (_ & _ & [= <-]).
  - destruct (persist now (combine draws (rejectOversized evs)) s) as [rows s'] eqn:Hp.
    apply bind_Some in He as (_ & _ & [= <-]). intros i r. cbn. intros [Hin|[_ ?]]%write_all_cases; [|by eapply Hb].
    apply persist_names in Hp; [|apply Forall_forall; intros [x q] Hx%list_elem_of_In%in_combine_r].
    + rewrite Forall_forall in Hp. apply list_elem_of_fmap in Hin as ([[j q] o] & [= -> ->] & Hin). by apply (Hp (j, q, o)).
    + apply filter_In in Hx as [_ Hx]. apply negb_true_iff, Z.ltb_ge in Hx. done.
  - destruct (jobs !! k) as [[|[|[[? ?] ?] ?]| | |]|]; try done. by apply bind_Some in He as ([? ?] & _ & [= <-]).
  - destruct (jobs !! k) as [[| | | |]|]; try done. by injection He as <-.
  - by injection He as <-.
  - destruct (jobs !! k) as [[| | |[|[? ?] ?]|]|]; try done. by apply bind_Some in He as ([? ?] & _ & [= <-]).
  - destruct (jobs !! k) as [[| | | |]|]; try done. by injection He as <-.
  - destruct (jobs !! k) as [[| | |[|]|]|]; try done. by injection He as <-.
  - by apply bind_Some in He as (? & _ & [= <-]).
  - by apply bind_Some in He as (? & _ & [= <-]).
Qed.
Lemma run_names es w w' : run text es w = Some w' ->
  (forall id r, oBorn w !! id = Some r -> slen (vEventName r) <= MaxEventNameLen) ->
  forall id r, oBorn w' !! id = Some r -> slen (vEventName r) <= MaxEventNameLen.
Proof.
  revert w. induction es as [|e es IH]; intros w; cbn [run]; [by intros [= <-]|].
  intros (w1 & He & Hr)%bind_Some Hb. apply (IH w1 Hr). by eapply exec_names.
Qed.

(** A row leaves the table only when the retention deletes it, a week after
    its publication. *)
Lemma run_rows_kept es w w' id r :
  oinv w -> run text es w = Some w' -> oRows w !! id = Some r ->
  (exists r', oRows w' !! id = Some r' /\ fixed r' = fixed r /\ (vPublishedAt r <> None -> vPublishedAt r' <> None)) \/
  exists es1 k now es2 w1 r1 u, es = es1 ++ OvPrune k now :: es2 /\ run text es1 w = Some w1 /\ oRows w1 !! id = Some r1 /\
    fixed r1 = fixed r /\ vPublishedAt r1 = Some u /\ u < now - outboxRetention.
Proof.
  revert w r. induction es as [|e es IH]; intros w r Hw; cbn [run]; [intros [= <-] Hr; left; by exists r|].
  intros (w1 & He & Hrun)%bind_Some Hr.
  destruct (exec_rows e w w1 id r Hw He Hr) as [(r1 & Hr1 & Hf & Hp)|(_ & k & now & u & -> & Hp & Hu)].
  - destruct (IH w1 r1 (exec_oinv text _ _ _ Hw He) Hrun Hr1) as [(r' & ? & ? & ?)|(es1 & k & now & es2 & w2 & r2 & u & -> & Hr2 & ? & ? & ? & ?)].
    + left. exists r'. split_and!; [done|congruence|auto].
    + right. exists (e :: es1), k, now, es2, w2, r2, u. split_and!; try done; [cbn [run]; by rewrite He|congruence].
  - right. exists [], k, now, es, w, r, u. by split_and!.
Qed.
End relay.
