(* ===== verification/EventDelivery.v ===== *)
(** * From the outbox to the ledger (dispatch/dispatch.go, dynamic/outbox.go,
    events/events.go)

    The bus of a running kernel as the publisher of [EventOutbox]: the
    dispatcher registered under every event, its ledger with the processes of
    [DispatchRuns], and any plain subscribers.  It keeps the laws of
    [PublisherLaws], so the facts of [EventRelay] hold of the whole: from the
    row of the outbox to the deliveries of the ledger. *)

From stdpp Require Import gmap.
From S2P Require Import Prelude GoStrings Tables GoHTTP GoJSON Signing EventBus DispatchEvent Dispatch DispatchRuns EventOutbox EventRelay.

(** ** The bus *)

(** The ledger with its processes; the plain subscribers and the
    publications they were handed. *)
Record system := mkSystem { yWorld : DispatchRuns.world; yHeard : list (string * string) }.

(** What one publication is answered: the order the map is ranged over, the
    dispatcher's provider, clock and draws, and what the plain handlers report. *)
Record answers := mkAnswers {
  aOrder : list string; aSubs : option (list Subscription); aNow : Z; aFresh : string; aFails : string -> bool;
  aDraw : string -> string; aDown : string -> bool; aPlain : string -> Z * option handle_error
}.
(** A plain subscriber: its name here, its addon and its pattern. *)
Record plain_sub := mkPlainSub { psName : string; psAddon : string; psPattern : string }.

(** A map read key by key is the map. *)
Lemma lookups_perm {V} (m : gmap string V) order :
  NoDup order -> list_to_set order = dom m -> omap (fun p => (fun l => (p, l)) <$> m !! p) order ≡ₚ map_to_list m.
Proof.
  intros Hn Hd. apply NoDup_Permutation.
  - clear Hd. induction order as [|p l IH]; cbn; [constructor|]. apply NoDup_cons in Hn as [Hp Hn].
    destruct (m !! p) as [k|] eqn:Ek; cbn; [|by apply IH]. constructor; [|by apply IH].
    intros (q & Hq & (k' & ? & [= -> ->])%fmap_Some)%list_elem_of_omap. done.
  - apply NoDup_map_to_list.
  - intros [p k]. rewrite elem_of_map_to_list, list_elem_of_omap. split.
    + intros (q & _ & (k' & ? & [= -> ->])%fmap_Some). done.
    + intros Hk. exists p. rewrite Hk. split; [|done]. apply (elem_of_list_to_set (C:=gset string)). rewrite Hd. apply elem_of_dom. by exists k.
Qed.

Section bus.
Context `{Crypto, BodyJSON, DispatchEnv, UnicodeLower, GoQuote}.
Variable opts : Options.
Variable resolver : option (string -> string).
Variable enf : option Enforcer.
Variable plain : list plain_sub.

(** The handlers run on the answers and the state, [None] after a draw that
    is not possible. *)
Abbreviation state := (answers * option system)%type.
Abbreviation routing := (@RoutingHandler state (option json) handle_error).
Abbreviation bus_sub := (@EventBus.subscription state (option json) handle_error).
Abbreviation bus := (@Bus state (option json) handle_error).

Definition dispatch_event (o : answers) (c : ctx) (org name : string) (payload : option json) : DispatchRuns.event :=
  EvPublish resolver c org name payload (aSubs o) (aNow o) (aFresh o) (aFails o) (aDraw o) (aDown o).
Definition dispatch : routing := fun c org name payload '(o, s) =>
  match s with
  | None => ((0, None), (o, None))
  | Some s =>
      let '(started, err, _) := handle opts resolver (aSubs o) (aNow o) (aFresh o) (aFails o) (aDraw o) c org name payload (wTable (yWorld s)) in
      ((Z.of_nat (length started), err),
       (o, (fun w => mkSystem w (yHeard s)) <$> DispatchRuns.exec opts (dispatch_event o c org name payload) (yWorld s)))
  end.
Definition plain_handler (name : string) : routing := fun c _ _ _ '(o, s) =>
  (aPlain o name, (o, (fun s => mkSystem (yWorld s) ((name, mID (MetaFromContext c)) :: yHeard s)) <$> s)).

Definition subscriberKey : string := "kernel".
(** [Wire], then the plain subscribers. *)
Definition wiring : list (@bus_op state (option json) handle_error) :=
  OpSubscribe subscriberKey "*" (Some dispatch) None (mkSubKind false true true) ::
  map (fun p => OpSubscribe (psAddon p) (psPattern p) (Some (plain_handler (psName p))) None (mkSubKind false false false)) plain.
Definition the_bus : bus := bus_run wiring (NewBus enf).

Definition ranged (order : list string) : list (string * list bus_sub) :=
  omap (fun p => (fun l => (p, l)) <$> subs the_bus !! p) order.
Definition all_patterns (order : list string) : Prop := NoDup order /\ list_to_set order = dom (subs the_bus).
#[export] Instance all_patterns_dec order : Decision (all_patterns order) := _.

Definition publish_on (durableOnly : bool) (o : answers) (c : ctx) (addon name org : string) (payload : option json) (s : system) :
    option (option (bus_error handle_error) * system) :=
  guard (all_patterns (aOrder o));;
  let '(_, err, (_, s)) := publish the_bus (ranged (aOrder o)) c addon name org payload durableOnly (o, Some s) in
  s ← s; Some (err, s).

#[export] Instance kernel_bus : Publisher system answers DispatchRuns.event handle_error := {
  Publish_ := publish_on false;
  PublishDurableOnly_ := Some (publish_on true);
  act e s := (fun w => mkSystem w (yHeard s)) <$> DispatchRuns.exec opts e (yWorld s)
}.

(** ** Facts: the registry *)

(** Who is subscribed. *)
Definition subscriber (p : option plain_sub) : bus_sub :=
  match p with
  | None => EventBus.mkSubscription subscriberKey "*" dispatch None false true true
  | Some p => EventBus.mkSubscription (psAddon p) (psPattern p) (plain_handler (psName p)) None false false false
  end.
Definition accepted (p : plain_sub) : bool :=
  negb (String.eqb (psPattern p) "") &&
  bool_decide (check (NewBus enf : bus) (psAddon p) "event:subscribe" (psPattern p) = None).
Definition live : list (option plain_sub) := None :: map Some (List.filter accepted plain).

Lemma accepted_run (l : list plain_sub) (acc : list bus_sub) :
  spec_run enf (map (fun p => OpSubscribe (psAddon p) (psPattern p) (Some (plain_handler (psName p))) None (mkSubKind false false false)) l) acc =
  acc ++ map (fun p => subscriber (Some p)) (List.filter accepted l).
Proof.
  revert acc. induction l as [|p l IH]; intros acc; [by rewrite app_nil_r|]. unfold spec_run in *. cbn [map foldl List.filter]. rewrite IH.
  cbn [spec_exec]. change (bool_decide _) with (bool_decide (check (NewBus enf : bus) (psAddon p) "event:subscribe" (psPattern p) = None)).
  fold (accepted p). destruct (accepted p); [|done]. by rewrite <- app_assoc.
Qed.
Lemma the_bus_represents : represents the_bus (map subscriber live) /\ enforcer the_bus = enf.
Proof.
  pose proof (bus_run_represents wiring (NewBus enf) [] (represents_new enf)) as [Hr He]. split; [|exact He].
  fold the_bus in Hr. cbn [enforcer NewBus] in Hr. enough (spec_run enf wiring [] = map subscriber live) as <- by done.
  unfold wiring, live. cbn [map]. rewrite map_map.
  assert (spec_exec enf (OpSubscribe subscriberKey "*" (Some dispatch) None (mkSubKind false true true)) [] = [subscriber None]) as Hd.
  { cbn [spec_exec]. unfold check. cbn. rewrite bool_decide_eq_true_2; [done|]. by destruct enf. }
  pose proof (accepted_run plain [subscriber None]) as Ha. unfold spec_run in *. cbn [foldl]. by rewrite Hd.
Qed.

Lemma ranged_perm order : all_patterns order -> ranged order ≡ₚ map_to_list (subs the_bus).
Proof. intros [Hn Hd]. by apply lookups_perm. Qed.

Lemma filter_map {X Y} (f : Y -> bool) (g : X -> Y) l : List.filter f (map g l) = map g (List.filter (fun x => f (g x)) l).
Proof. induction l as [|x l IH]; cbn; [done|]. destruct (f (g x)); cbn; by rewrite IH. Qed.

(** Who hears a publication. *)
Definition hears (d : bool) (name : string) (p : option plain_sub) : bool :=
  EventBus.eventMatches (EventBus.Pattern (subscriber p)) name && negb (d && negb (durable (subscriber p))).
Lemma matched_live d name order : all_patterns order ->
  exists ls, matched d name (ranged order) = map subscriber ls /\ ls ≡ₚ List.filter (hears d name) live.
Proof.
  intros Ho. destruct the_bus_represents as [Hr _]. pose proof (matched_perm d name the_bus _ _ Hr (ranged_perm order Ho)) as Hp.
  rewrite filter_map in Hp. apply Permutation_map_inv in Hp as (ls & -> & Hls). exists ls. split; [done|]. symmetry. exact Hls.
Qed.
Lemma hears_dispatcher d name : hears d name None = true.
Proof. unfold hears. cbn [subscriber EventBus.Pattern durable]. unfold EventBus.eventMatches. rewrite String.eqb_refl, orb_true_r. by destruct d. Qed.
Lemma hears_durable name p : hears true name (Some p) = false.
Proof. unfold hears. apply andb_false_r. Qed.

(** ** Facts: a publication *)

(** Steps of the dispatcher. *)
Definition advance (s s' : system) : Prop := exists es, DispatchRuns.run opts es (yWorld s) = Some (yWorld s').
Lemma bus_run_app es es' w w' : DispatchRuns.run opts es w = Some w' -> DispatchRuns.run opts (es ++ es') w = DispatchRuns.run opts es' w'.
Proof.
  revert w. induction es as [|e es IH]; intros w; cbn [DispatchRuns.run app]; [by intros [= ->]|].
  intros (w1 & -> & Hr)%bind_Some. cbn. by apply IH.
Qed.
#[export] Instance advance_preorder : PreOrder advance.
Proof.
  split; [intros s; by exists []|]. intros s1 s2 s3 [es1 E1] [es2 E2]. exists (es1 ++ es2). by rewrite (bus_run_app _ _ _ _ E1).
Qed.
Lemma advance_exec e s s' : DispatchRuns.exec opts e (yWorld s) = Some (yWorld s') -> advance s s'.
Proof. intros He. exists [e]. cbn [DispatchRuns.run]. by rewrite He. Qed.

Definition heard (name id : string) (s : system) : nat :=
  length (List.filter (fun h : string * string => String.eqb h.1 name && String.eqb h.2 id) (yHeard s)).
Definition named (name : string) (ls : list (option plain_sub)) : nat :=
  length (List.filter (fun p => match p with Some p => String.eqb (psName p) name | None => false end) ls).

(** The dispatcher's part of a publication. *)
Definition dispatched (o : answers) (c : ctx) (org name : string) (payload : option json) (calls : list (bus_sub * (Z * option handle_error)))
    (s s' : system) : Prop :=
  exists s1 s2 started err t, advance s s1 /\ advance s2 s' /\
    DispatchRuns.exec opts (dispatch_event o c org name payload) (yWorld s1) = Some (yWorld s2) /\
    handle opts resolver (aSubs o) (aNow o) (aFresh o) (aFails o) (aDraw o) c org name payload (wTable (yWorld s1)) = (started, err, t) /\
    (err <> None -> unrecorded calls <> []).

Lemma ran_impossible c org name payload o ls calls x :
  map fst calls = map subscriber ls -> ran c org name payload (o, None) calls x -> x = (o, None).
Proof.
  revert ls. induction calls as [|[q r] calls IH]; intros ls Hm Hr; inversion Hr; subst; [done|].
  destruct ls as [|p ls]; [done|]. injection Hm as -> Hm. destruct p; cbn in *; simplify_eq; by eapply IH.
Qed.

Lemma ran_spec c org name payload o ls calls s m :
  map fst calls = map subscriber ls -> ran c org name payload (o, Some s) calls m ->
  match m with
  | (o', None) => o' = o
  | (o', Some s') => o' = o /\ advance s s' /\
      (forall n id, heard n id s' = heard n id s + (if decide (mID (MetaFromContext c) = id) then named n ls else 0))%nat /\
      (None ∈ ls -> dispatched o c org name payload calls s s')
  end.
Proof.
  revert ls s. induction calls as [|[q r] calls IH]; intros ls s Hm Hr.
  { inversion Hr; subst. destruct ls; [|done]. split_and!; [done..| |by intros ?%elem_of_nil]. intros n i. cbn. destruct (decide _); lia. }
  destruct ls as [|p ls]; [done|]. injection Hm as -> Hm. inversion Hr as [|? ? ? ? w1 ? Hf Hrest]; subst.
  destruct p as [p|]; cbn in Hf.
  - injection Hf as <- <-. specialize (IH ls _ Hm Hrest). destruct m as [o' [s'|]]; [|done]. destruct IH as (-> & Ha & Hh & Hd).
    split_and!; [done|done| |].
    + intros n i. rewrite Hh. unfold heard, named. cbn [yHeard List.filter fst snd].
      destruct (String.eqb (psName p) n), (String.eqb_spec (mID (MetaFromContext c)) i), (decide (mID (MetaFromContext c) = i)); cbn; try done; lia.
    + intros [?|Hin]%elem_of_cons; [done|]. destruct (Hd Hin) as (s1 & s2 & st & err & t & H1' & H2' & H3' & H4' & H5').
      exists s1, s2, st, err, t. split_and!; try done. intros Hx. specialize (H5' Hx). unfold unrecorded in *. cbn. by destruct (aPlain o (psName p)).2.
  - destruct (handle _ _ _ _ _ _ _ _ _ _ _ _) as [[started err] t] eqn:Hh. injection Hf as <- <-.
    destruct (DispatchRuns.exec opts _ (yWorld s)) as [w'|] eqn:He; cbn [fmap option_fmap option_map] in Hrest.
    2:{ apply (ran_impossible _ _ _ _ _ _ _ _ Hm) in Hrest. by subst m. }
    specialize (IH ls _ Hm Hrest). destruct m as [o' [s'|]]; [|done]. destruct IH as (-> & Ha & Hhd & Hd).
    assert (advance s (mkSystem w' (yHeard s))) as Hs by (by eapply (advance_exec _ _ (mkSystem w' (yHeard s)))).
    split_and!; [done|by etrans|done|]. intros _. exists s, (mkSystem w' (yHeard s)), started, err, t. split_and!; [done..|].
    intros Hx. unfold unrecorded. cbn. by destruct err.
Qed.

Lemma publish_on_spec d o c addon name org payload s perr s' :
  publish_on d o c addon name org payload s = Some (perr, s') ->
  (s' = s /\ perr <> None /\ SiblingsRan perr = false) \/
  (name <> ""%string /\ exists ls calls, ls ≡ₚ List.filter (hears d name) live /\ map fst calls = map subscriber ls /\
     ran (WithEmitter c addon) org name payload (o, Some s) calls (o, Some s') /\
     perr = match unrecorded calls with [] => None | l => Some (DurableError l (negb d)) end).
Proof.
  unfold publish_on. intros (Hg & _ & He)%bind_Some. destruct (matched_live d name _ Hg) as (ls & Hm & Hls). revert He. unfold publish.
  destruct (String.eqb_spec name ""); [intros [= <- <-]; by left|]. destruct (check _ _ _ _); [intros [= <- <-]; by left|].
  destruct (fan_out_ran (WithEmitter c addon) org name payload (matched d name (ranged (aOrder o))) (o, Some s)) as (calls & [o' m] & Hc & Hr & ->).
  rewrite Hm in Hc. pose proof (ran_spec _ _ _ _ _ _ _ _ _ Hc Hr) as Hs. destruct m as [s1|]; [|done]. destruct Hs as [-> _].
  intros [= <- <-]. right. split; [done|]. exists ls, calls. split_and!; [done..|]. by destruct (unrecorded calls).
Qed.

(** ** The laws *)

Section laws.
Hypothesis Hopts : options_ok opts.
Hypothesis Hplain : NoDup (map psName plain).

(** The publication of a row as the dispatcher reads it. *)
Definition row_publication (r : EventRow) (payload : json) : publication :=
  prepare resolver (publishContext r Background) 0 (vOrganizationID r) (vEventName r) payload "".
(** Every subscription of the provider's answer that covers the event has
    its row in the ledger, unless the event has no name the ledger can hold or
    no payload. *)
Definition delivered (s : system) (o : answers) (r : EventRow) : Prop :=
  forall payload, row_payload r = Some payload -> slen (vEventName r) <= 512 ->
    exists subs, aSubs o = Some subs /\
      forall sub, sub ∈ subs -> covered (sEvent sub) (pName (row_publication r payload)) ->
        is_Some (wTable (yWorld s) !! delivery_of (row_publication r payload) sub).

Lemma advance_ok s s' : advance s s' -> winv opts (yWorld s) -> winv opts (yWorld s').
Proof. intros [es He] Hw. by eapply run_keeps_winv. Qed.
Lemma delivered_advance s s' o r : advance s s' -> winv opts (yWorld s) -> delivered s o r -> delivered s' o r.
Proof.
  intros [es He] Hw Hd payload Hp Hl. destruct (Hd payload Hp Hl) as (subs & Hs & Hall). exists subs. split; [done|].
  intros sub Hin Hc. destruct (Hall sub Hin Hc) as [q Hq]. destruct (run_rows opts Hopts _ _ _ Hw He _ _ Hq) as (q' & ? & _). by exists q'.
Qed.

Lemma publish_advance d o c addon name org payload s perr s' :
  publish_on d o c addon name org payload s = Some (perr, s') -> advance s s'.
Proof.
  intros [(-> & _)|(_ & ls & calls & _ & Hm & Hr & _)]%publish_on_spec; [done|]. by apply (ran_spec _ _ _ _ _ _ _ _ _ Hm) in Hr as (_ & ? & _).
Qed.
Lemma bus_step_advance s s' : bus_step s s' -> advance s s'.
Proof.
  intros [o c addon name org payload s1 perr s2 Hp|only o c addon name org payload s1 perr s2 [= <-] Hp|a s1 s2 Ha];
    [exact (publish_advance _ _ _ _ _ _ _ _ _ _ Hp)..|].
  apply fmap_Some in Ha as (w & Hw & ->). by eapply advance_exec.
Qed.

Lemma handle_complete subs now fresh fails draw c org name payload t started t' :
  slen name <= 512 -> name <> ""%string -> mID (MetaFromContext c) <> ""%string ->
  handle opts resolver subs now fresh fails draw c org name (Some payload) t = (started, None, t') ->
  exists l, subs = Some l /\ forall sub, sub ∈ l -> forall c' now' org' fresh', mID (MetaFromContext c') = mID (MetaFromContext c) ->
    covered (sEvent sub) (pName (prepare resolver c' now' org' name payload fresh')) ->
    is_Some (t' !! delivery_of (prepare resolver c' now' org' name payload fresh') sub).
Proof.
  intros Hl Hne Hid. unfold handle. rewrite (proj2 (Z.ltb_ge _ _)) by lia. rewrite (proj2 (String.eqb_neq _ _) Hne). destruct subs as [l|]; [|done].
  destruct (enqueue_all _ _ _ _ _ _ _ _) as [[st failed] t1] eqn:He. destruct failed; [|done]. intros [= -> <-].
  apply enqueue_all_spec in He as [E1 _ _ _ _ E6]. exists l. split; [done|]. intros sub Hin c' now' org' fresh' Hm Hc.
  destruct (prepare_stable resolver c c' now now' org org' name payload fresh fresh' (or_intror (conj Hid Hm))) as [Ho Hn]. rewrite Hn in Hc.
  unfold delivery_of. rewrite Ho, Hn. apply E1. right. apply and_comm, and_wlog_l; [intros Hw; by apply (proj1 E6)|].
  exists sub. by split_and!.
Qed.

Lemma publish_delivers d o c r s s' :
  winv opts (yWorld s) -> vEventID r <> ""%string -> mID (MetaFromContext c) = vEventID r ->
  publish_on d o c (vAddonKey r) (vEventName r) (vOrganizationID r) (row_payload r) s = Some (None, s') -> delivered s' o r.
Proof.
  intros Hw Hne Hid [(_ & ? & _)|(Hname & ls & calls & Hls & Hm & Hr & Hperr)]%publish_on_spec; [done|].
  apply (ran_spec _ _ _ _ _ _ _ _ _ Hm) in Hr as (_ & Ha & _ & Hd).
  destruct Hd as (s1 & s2 & started & err & t & H1' & H2' & He & Hh & Herr).
  { rewrite Hls. apply list_elem_of_In, filter_In. split; [by left|apply hears_dispatcher]. }
  assert (err = None) as ->.
  { destruct err; [|done]. destruct (unrecorded calls); [by destruct Herr|done]. }
  pose proof (advance_ok _ _ H1' Hw) as Hw1. assert (advance s1 s2) as H12 by (by eapply advance_exec).
  eapply delivered_advance; [exact H2'|by eapply advance_ok|]. intros payload Hp Hl. rewrite Hp in Hh, He.
  assert (wTable (yWorld s2) = t) as Ht.
  { revert He. destruct (yWorld s1) as [t1 ats reaps used notes letters calls1 refs]. cbn [dispatch_event DispatchRuns.exec wTable] in Hh |- *. rewrite Hh.
    by intros (_ & _ & [= <-])%bind_Some. }
  apply handle_complete in Hh as (l & Hs & Hall); [|done|done|change (mID (MetaFromContext c) <> ""%string); by rewrite Hid].
  exists l. split; [done|]. intros sub Hin Hc. rewrite Ht. apply Hall; [done| |done]. rewrite publishContext_meta. by change (vEventID r = mID (MetaFromContext c)).
Qed.

Lemma named_live n ls d name : ls ≡ₚ List.filter (hears d name) live -> (named n ls <= 1)%nat /\ (d = true -> named n ls = 0%nat).
Proof.
  intros Hls. assert (named n ls = named n (List.filter (hears d name) live)) as ->.
  { unfold named. clear -Hls. set (f := fun p : option plain_sub => _). enough (List.filter f ls ≡ₚ List.filter f (List.filter (hears d name) live)) as Hp
      by (by apply Permutation_length).
    induction Hls as [|x l k _ IH|x y l|l1 l2 l3 _ IH1 _ IH2]; cbn; [done|by destruct (f x); [constructor|]|destruct (f x), (f y); try done; constructor|by etrans]. }
  split.
  - assert (forall k : list plain_sub, (named n (map Some k) <= length (List.filter (String.eqb n) (map psName k)))%nat) as Hk.
    { induction k as [|p k IH]; cbn; [done|]. unfold named in *. cbn. rewrite String.eqb_sym. destruct (String.eqb n (psName p)); cbn; lia. }
    assert (forall f g (l : list (option plain_sub)), (length (List.filter f (List.filter g l)) <= length (List.filter f l))%nat) as Hf.
    { intros f g l. induction l as [|x l IH]; cbn; [done|]. destruct (g x); cbn; destruct (f x); cbn; lia. }
    etrans; [apply Hf|]. unfold live. cbn [List.filter]. etrans; [apply Hk|]. clear -Hplain.
    revert Hplain. induction plain as [|p l IH]; cbn [map List.filter]; [cbn; lia|]. intros [Hp Hl]%NoDup_cons.
    destruct (accepted p); [|by apply IH]. cbn [map List.filter]. destruct (String.eqb_spec n (psName p)) as [->|]; [|by apply IH].
    cbn. enough (List.filter (String.eqb (psName p)) (map psName (List.filter accepted l)) = []) as -> by done.
    destruct (List.filter (String.eqb _) _) as [|q k] eqn:Eq; [done|]. exfalso. apply Hp.
    assert (q ∈ q :: k) as Hq by (by left). rewrite <- Eq in Hq. apply list_elem_of_In, filter_In in Hq as [Hq ->%String.eqb_eq].
    apply in_map_iff in Hq as (x & <- & [Hx _]%filter_In). by apply list_elem_of_In, in_map.
  - intros ->. assert (List.filter (hears true name) live = [None]) as ->; [|done].
    unfold live. cbn [List.filter]. rewrite hears_dispatcher. f_equal. induction (List.filter accepted plain) as [|p l IH]; cbn [map List.filter]; [done|].
    by rewrite hears_durable.
Qed.

#[export] Instance kernel_bus_laws : PublisherLaws system answers DispatchRuns.event handle_error.
Proof.
  refine {| bus_ok s := winv opts (yWorld s); recorded := delivered; plain_runs := heard |}.
  - intros s s' Hs%bus_step_advance. by apply advance_ok.
  - intros s s' o r Hs%bus_step_advance. by apply delivered_advance.
  - intros s o r q Hf. enough (delivered s o r = delivered s o q) as -> by done. change (delivered s o (fixed r) = delivered s o (fixed q)). by rewrite Hf.
  - intros o c r s s'. apply publish_delivers.
  - intros only o c r s s' [= <-]. apply publish_delivers.
  - intros n id o c addon name org payload s perr s' [(-> & Hn & Hs)|(_ & ls & calls & Hls & Hm & Hr & ->)]%publish_on_spec; [lia|].
    apply (ran_spec _ _ _ _ _ _ _ _ _ Hm) in Hr as (_ & _ & Hh & _). rewrite Hh. change (mID (MetaFromContext (WithEmitter c addon))) with (mID (MetaFromContext c)).
    destruct (named_live n _ _ _ Hls) as [Hle _]. destruct (decide (mID (MetaFromContext c) = id)); [|lia].
    rewrite decide_True; [lia|]. split; [done|]. destruct (unrecorded calls); auto.
  - intros n id only o c addon name org payload s perr s' [= <-] [(-> & Hn & Hs)|(_ & ls & calls & Hls & Hm & Hr & ->)]%publish_on_spec; [done|].
    apply (ran_spec _ _ _ _ _ _ _ _ _ Hm) in Hr as (_ & _ & Hh & _). destruct (named_live n _ _ _ Hls) as [_ Hz].
    split; [by destruct (unrecorded calls)|]. rewrite Hh, Hz by done. destruct (decide _); lia.
  - intros n id e s s' (w & _ & ->)%fmap_Some. done.
Defined.

(** ** The bus can always answer *)

Definition answering (l : list Subscription) (token : string) : answers :=
  mkAnswers (elements (dom (subs the_bus))) (Some l) 0 "" (fun _ => false) (fun _ => token) (fun _ => false) (fun _ => (0, None)).

Lemma dispatch_answers l token c org name payload s :
  token ∉ wUsed (yWorld s) -> token <> ""%string ->
  exists n s', dispatch c org name payload (answering l token, Some s) = ((n, None), (answering l token, Some s')).
Proof.
  intros Hu Hne. unfold dispatch. destruct (handle _ _ _ _ _ _ _ _ _ _ _ _) as [[started err] t] eqn:Hh.
  assert (err = None) as ->.
  { revert Hh. unfold handle. destruct (512 <? slen name); [by intros [= <- <- <-]|]. destruct (String.eqb name ""); [by intros [= <- <- <-]|].
    destruct payload as [payload|]; [|by intros [= <- <- <-]]. cbn [answering aSubs].
    destruct (enqueue_all _ _ _ _ _ _ _ _) as [[st failed] t1] eqn:He. apply enqueue_all_spec in He as [_ _ _ _ _ E6].
    by rewrite (proj2 E6) by done; intros [= <- <- <-]. }
  exists (Z.of_nat (length started)). destruct s as [[t1 ats reaps used notes letters calls refs] hs].
  cbn [yWorld wUsed wTable dispatch_event DispatchRuns.exec] in *. rewrite Hh. rewrite option_guard_True; [by eexists|].
  apply Forall_true. intros p. by split.
Qed.

Lemma ran_answers l token c org name payload ls calls s m :
  token <> ""%string -> NoDup ls -> (None ∈ ls -> token ∉ wUsed (yWorld s)) -> map fst calls = map subscriber ls ->
  ran c org name payload (answering l token, Some s) calls m -> (exists s', m = (answering l token, Some s')) /\ unrecorded calls = [].
Proof.
  intros Hne. revert ls s. induction calls as [|[q r] calls IH]; intros ls s Hn Hu Hm Hr.
  { inversion Hr; subst. split; [by exists s|done]. }
  destruct ls as [|p ls]; [done|]. injection Hm as -> Hm. inversion Hr as [|? ? ? ? w1 ? Hf Hrest]; subst.
  apply NoDup_cons in Hn as [Hp Hn]. destruct p as [p|]; cbn [subscriber fn] in Hf.
  - cbn in Hf. injection Hf as <- <-. eapply (IH ls); [done| |done|exact Hrest]. intros Hin. apply Hu. by right.
  - destruct (dispatch_answers l token c org name payload s) as (n & s1 & Hd); [apply Hu; by left|done|].
    rewrite Hd in Hf. injection Hf as <- <-. destruct (IH ls s1) as [Hs Hc]; [done|by intros ?|done|exact Hrest|]. split; [done|].
    unfold unrecorded in *. by cbn.
Qed.

Lemma live_NoDup : NoDup live.
Proof.
  unfold live. constructor; [intros (p & ? & _)%list_elem_of_fmap; done|]. apply (NoDup_fmap_2 Some).
  clear -Hplain. induction plain as [|p l IH]; cbn; [constructor|]. apply NoDup_cons in Hplain as [Hp Hl].
  destruct (accepted p); [|by apply IH]. constructor; [|by apply IH]. intros Hin. apply Hp, list_elem_of_fmap. exists p. split; [done|].
  apply list_elem_of_In, filter_In in Hin as [? _]. by apply list_elem_of_In.
Qed.

Lemma publish_answers l d c addon name org payload s :
  exists o perr s', (aSubs o = Some l /\ forall id, aFails o id = false) /\
    publish_on d o c addon name org payload s = Some (perr, s') /\ (name <> ""%string -> CheckEmit the_bus addon name = None -> perr = None).
Proof.
  set (token := fresh ({[""%string]} ∪ wUsed (yWorld s))). assert (token ∉ {[""%string]} ∪ wUsed (yWorld s)) as Htok by apply is_fresh.
  assert (token <> ""%string /\ token ∉ wUsed (yWorld s)) as [Hne Hu] by set_solver. exists (answering l token).
  assert (all_patterns (aOrder (answering l token))) as Ho.
  { split; cbn [answering aOrder]; [apply NoDup_elements|apply list_to_set_elements_L]. }
  unfold publish_on. rewrite option_guard_True by done. cbn [mbind option_bind]. unfold publish, CheckEmit.
  destruct (String.eqb_spec name ""); [by eexists _, s; split_and!|].
  destruct (check _ addon "event:emit" name); [by eexists _, s; split_and!|].
  destruct (matched_live d name _ Ho) as (ls & Hm & Hls).
  destruct (fan_out_ran (WithEmitter c addon) org name payload (matched d name (ranged (aOrder (answering l token)))) (answering l token, Some s))
    as (calls & m & Hc & Hr & ->). rewrite Hm in Hc.
  apply (ran_answers l token _ _ _ _ ls) in Hr as [[s' ->] ->]; [by eexists None, s'; split_and!|done| |by intros _|done].
  rewrite Hls. pose proof live_NoDup as Hn. revert Hn. clear. induction live as [|x k IH]; cbn; [done|]. intros [Hx Hk]%NoDup_cons.
  destruct (hears d name x); [|by apply IH]. constructor; [|by apply IH]. intros Hin. apply Hx, list_elem_of_In.
  by apply list_elem_of_In, filter_In in Hin as [? _].
Qed.

(** ** What holds of every run of the kernel *)

Section kernel.
Context `{UuidString}.
Variable text : bus_error handle_error -> string.

(** An empty outbox, over any ledger. *)
Definition kernel_start (w0 : DispatchRuns.world) : outbox_world system answers handle_error := fresh_world (mkSystem w0 []).

Lemma kernel_oinv w0 es w : winv opts w0 -> run text es (kernel_start w0) = Some w -> oinv w.
Proof. intros Hw. apply run_oinv, oinv_fresh; [exact Hw|done]. Qed.

(** C7: however the processes interleave and wherever they die, a row of the
    outbox that is stamped published and whose payload is JSON was published
    with success, and every subscription the provider then answered whose
    pattern covers the event has a delivery in the ledger, under the identity
    of that publication, and keeps it; the dispatcher's own theorems say what
    becomes of it.  (A row whose payload is no JSON is stamped without one:
    [broken_payload_dropped].) *)
Theorem published_event_delivered w0 es w id r payload :
  winv opts w0 -> run text es (kernel_start w0) = Some w ->
  oRows w !! id = Some r -> vPublishedAt r <> None -> row_payload r = Some payload ->
  exists r0 o subs, (id, r0, o) ∈ oDone w /\ fixed r0 = fixed r /\ aSubs o = Some subs /\
    forall sub, sub ∈ subs -> covered (sEvent sub) (pName (row_publication r payload)) ->
      exists d, wTable (yWorld (oBus w)) !! delivery_of (row_publication r payload) sub = Some d.
Proof.
  intros Hw0 Hrun Hr Hp Hpay. pose proof (kernel_oinv _ _ _ Hw0 Hrun) as Hw.
  destruct (oi_published _ Hw id r Hr Hp) as (r0 & o & Hd). destruct (oi_done _ Hw _ _ _ Hd) as ((q & Hq & Hf) & Hrec).
  destruct (oi_rows _ Hw id r Hr) as (q' & Hq' & Hf'). cbn in Hq, Hq', Hf, Hf'. assert (q' = q) as -> by congruence.
  assert (fixed r0 = fixed r) as Hfr by congruence.
  assert (slen (vEventName r) <= 512) as Hl.
  { assert (vEventName r = vEventName q) as -> by exact (f_equal vEventName (eq_sym Hf')).
    eapply (run_names text es (kernel_start w0) w Hrun); [|exact Hq]. intros i x Hx. unfold kernel_start, fresh_world in Hx. cbn in Hx. by rewrite lookup_empty in Hx. }
  apply (recorded_fixed _ _ _ r Hfr) in Hrec. destruct (Hrec payload Hpay Hl) as (subs & Hs & Hall).
  exists r0, o, subs. by split_and!.
Qed.

(** C8: a row stays in the outbox with its content until the retention deletes
    it, a week after it was published.  Unpublished and out of its twenty-five
    attempts, it was reported exhausted ([oExhausted]) unless its process died
    before it could report it ([oSilent]).  Unpublished with attempts left, it
    is due ten seconds after it was made and once its backoff has passed; from
    then on, however many rows are due before it and whatever the provider
    answers, there is a run of the relay alone that publishes it, provided its
    name is not empty, its addon may emit it and the INSERTs of the ledger
    succeed. *)
Theorem outbox_never_lost w0 es w id r :
  winv opts w0 -> run text es (kernel_start w0) = Some w -> oRows w !! id = Some r ->
  (forall es' w', run text es' w = Some w' ->
     (exists r', oRows w' !! id = Some r' /\ fixed r' = fixed r /\ (vPublishedAt r <> None -> vPublishedAt r' <> None)) \/
     exists es1 k now es2 w1 r1 u, es' = es1 ++ OvPrune k now :: es2 /\ run text es1 w = Some w1 /\ oRows w1 !! id = Some r1 /\
       fixed r1 = fixed r /\ vPublishedAt r1 = Some u /\ u < now - outboxRetention) /\
  (vPublishedAt r = None -> outboxMaxAttempts <= vAttempts r -> id ∈ oExhausted w \/ id ∈ oSilent w) /\
  (vPublishedAt r = None -> vAttempts r < outboxMaxAttempts ->
   vEventName r <> ""%string -> CheckEmit the_bus (vAddonKey r) (vEventName r) = None ->
   forall now subs, vCreatedAt r < now - outboxRelayMinAge -> (forall n, vNextAttemptAt r = Some n -> n <= now) ->
   exists es' w' r', Forall (relaying (fun o => aSubs o = Some subs /\ forall i, aFails o i = false)) es' /\
     run text es' w = Some w' /\ oRows w' !! id = Some r' /\ vPublishedAt r' <> None).
Proof.
  intros Hw0 Hrun Hr. pose proof (kernel_oinv _ _ _ Hw0 Hrun) as Hw. split_and!.
  - intros es' w' Hrun'. by eapply run_rows_kept.
  - by apply (oi_exhausted _ Hw).
  - intros Hn Ha Hname Hemit now subs Hage Hnext.
    apply (due_published text (fun q => vEventName q <> ""%string /\ CheckEmit the_bus (vAddonKey q) (vEventName q) = None) _) with (now := now) (r := r); try done.
    + intros b q Hb. unfold republish. cbn [PublishDurableOnly_ Publish_ kernel_bus].
      destruct (publish_answers subs (vFannedOut q) (publishContext q Background) (vAddonKey q) (vEventName q) (vOrganizationID q) (row_payload q) b)
        as (o & perr & b' & Hg & Hp & Hok). exists o, perr, b'. split; [done|]. split; [by destruct (vFannedOut q)|]. by intros [? ?]; apply Hok.
    + unfold unpublished_due. rewrite bool_decide_eq_true_2, (proj2 (Z.ltb_lt _ _)), (proj2 (Z.ltb_lt (vAttempts r) _)) by done. cbn.
      destruct (vNextAttemptAt r) as [n|] eqn:En; [|done]. apply Z.leb_le. by apply Hnext.
Qed.

(** C9: in a run in which no process dies, every record of a publication
    reaches the outbox and no sweep takes a row another process still
    publishes, a plain subscriber is handed each event at most once, also when
    the ledger fails and the relay publishes it again. *)
Theorem plain_subscribers_once w0 es w name id r :
  winv opts w0 -> orderly_run text es (kernel_start w0) -> run text es (kernel_start w0) = Some w ->
  oBorn w !! id = Some r -> (heard name (vEventID r) (oBus w) <= 1)%nat.
Proof.
  intros Hw0 Hord Hrun Hr.
  assert (orderly_inv (kernel_start w0)) as Ho by (by apply orderly_fresh).
  assert (oinv (kernel_start w0)) as Hi by (by eapply (kernel_oinv w0 [])).
  destruct (orderly_run_inv text es (kernel_start w0) w) as [_ Ho']; [discriminate|done..|]. by apply (od_bound _ Ho' name id r).
Qed.

(** C10: whoever numbers the events of an aggregate at the same time, the
    numbers drawn from a counter are 1 up to its value, each drawn for one
    row only, and every numbered row has its own from a counter of its
    aggregate. *)
Theorem sequence_numbers_unique w0 es w :
  winv opts w0 -> run text es (kernel_start w0) = Some w ->
  (forall k n, (exists id, (id, k, n) ∈ oAlloc w) <-> 1 <= n <= default 0 (oSeqs w !! k)) /\
  (forall k n i j, (i, k, n) ∈ oAlloc w -> (j, k, n) ∈ oAlloc w -> i = j) /\
  forall id r, oBorn w !! id = Some r -> vSequence r <> 0 -> exists k, counts_by r k /\ (id, k, vSequence r) ∈ oAlloc w.
Proof.
  intros Hw0 Hrun. pose proof (kernel_oinv _ _ _ Hw0 Hrun) as Hw. destruct (oi_counters _ Hw) as [_ Hr Ho]. split; [done|].
  split; [intros k n i j; apply Ho|]. intros id r Hb Hn. destruct (oi_born _ Hw id r Hb) as (_ & _ & _ & [?|(k & ? & ?)]); [done|]. by exists k.
Qed.
End kernel.
End laws.
End bus.

(** ** Examples *)

#[local] Existing Instances ex_env plain_hash.
#[local] Instance sample_lower : UnicodeLower := fun s => s.
#[local] Instance sample_quote : GoQuote := fun s => s.
#[local] Instance sample_uuid : UuidString := fun _ => ""%string.
(** One text is no JSON, one is the canonical event below, and any other is
    taken for a JSON string. *)
Definition ticket_updated : CanonicalEvent := mkCanonicalEvent_ "7" "evt-1" "Ticket" "updated" "pos" "user-1" "" "" [] [] "" None.
#[local] Instance sample_json : BodyJSON :=
  {| json_decode := fun s => if String.eqb s "oops" then None else
                      if String.eqb s "text" then Some (canonical_json ticket_updated) else Some (JString s);
     json_marshal := fun _ => "text"%string |}.

Definition hub_sub : plain_sub := mkPlainSub "hub" "kernel" "pos.*".
Definition sample_bus : Publisher system answers DispatchRuns.event handle_error := kernel_bus defaultOptions None None [hub_sub].
#[local] Existing Instance sample_bus.
#[local] Instance sample_laws : PublisherLaws system answers DispatchRuns.event handle_error.
Proof. apply (kernel_bus_laws defaultOptions None None [hub_sub]); [exact (Wire_options_ok [])|]. repeat constructor. set_solver. Defined.

Definition sold (payload : string) : StagedEvent := mkStagedEvent "" "pos" "pos.sold" "org" payload 1 "Ticket" "7" None "" "" "user-1" "".
Definition accepts (token : string) : answers :=
  mkAnswers ["*"; "pos.*"] (Some [crm_sub]) 0 "fresh" (fun _ => false) (fun _ => token) (fun _ => false) (fun _ => (1, None)).
(** The INSERT of the delivery fails. *)
Definition refuses : answers :=
  mkAnswers ["pos.*"; "*"] (Some [crm_sub]) 0 "fresh" (fun _ => true) (fun _ => "t"%string) (fun _ => false) (fun _ => (1, None)).
Definition sample_text (e : bus_error handle_error) : string := "failed".

(** The ledger fails at first, the relay repairs it. *)
Definition staged_run : list (outbox_event answers DispatchRuns.event) :=
  [OvStaged 0 [("row-1", "evt-1")%string] [sold "paid"] Background true; OvPublish 0 refuses; OvStamp 0 1 true].
Definition repaired_run : list (outbox_event answers DispatchRuns.event) :=
  staged_run ++ [OvSweep (11 * second); OvRepublish 1 (accepts "t1"); OvRecord 1 (11 * second) true true].
Definition sample_start : outbox_world system answers handle_error := kernel_start empty_world.

(** Two replicas sweep at once, or a sweep overlaps a slow fan-out: nothing
    leases the row, so the plain subscribers hear the event twice. *)
Example overlapping_relays :
  exists w, run sample_text
    [OvStaged 0 [("row-1", "evt-1")%string] [sold "paid"] Background false; OvSweep (11 * second); OvSweep (11 * second);
     OvRepublish 0 (accepts "t1"); OvRepublish 1 (accepts "t2")] sample_start = Some w /\ heard "hub" "evt-1" (oBus w) = 2%nat.
Proof. eexists. split; [vm_compute; reflexivity|]. vm_compute. reflexivity. Qed.

(** A payload that is no JSON cannot be encoded again: the dispatcher drops
    the event, and its row is stamped published with no delivery. *)
Example broken_payload_dropped :
  exists w r, run sample_text [OvStaged 0 [("row-1", "evt-1")%string] [sold "oops"] Background true; OvPublish 0 (accepts "t1"); OvStamp 0 1 true]
    sample_start = Some w /\ oRows w !! "row-1"%string = Some r /\ vPublishedAt r = Some 1 /\ wTable (yWorld (oBus w)) = ∅.
Proof. eexists _, _. split; [vm_compute; reflexivity|]. split; [vm_compute; reflexivity|]. split; vm_compute; reflexivity. Qed.

(** The counter of a canonical event is that of its model, the counter of a
    staged one carries its addon's key: both are number one of the aggregate
    their envelopes name alike. *)
Definition ticket_update : mutation := mkMutation "tickets" "updated" (mkUser "user-1" "org" "") "7" [] [] "" None.
Example shared_sequence :
  exists w r q, run sample_text
    [OvCanonical "row-1" "evt-1" (fun _ => "pos"%string) (fun _ => "Ticket"%string) Background 0 ticket_update true;
     OvPersist 0 true; OvStaged 0 [("row-2", "evt-2")%string] [sold "paid"] Background false] sample_start = Some w /\
    oRows w !! "row-1"%string = Some r /\ oRows w !! "row-2"%string = Some q /\
    (vOrganizationID r, vAddonKey r, vAggregateType r, vAggregateID r, vSequence r) =
    (vOrganizationID q, vAddonKey q, vAggregateType q, vAggregateID q, vSequence q).
Proof.
  eexists _, _, _. split; [vm_compute; reflexivity|]. split; [vm_compute; reflexivity|]. split; [vm_compute; reflexivity|]. vm_compute. reflexivity.
Qed.

(** ** Witnesses *)

Lemma winv_start : winv defaultOptions empty_world.
Proof. apply winv_empty. Qed.
Lemma hub_alone : NoDup (map psName [hub_sub]).
Proof. repeat constructor. set_solver. Qed.

Lemma published_event_delivered_witness :
  exists w r d, run sample_text repaired_run sample_start = Some w /\ oRows w !! "row-1"%string = Some r /\
    vPublishedAt r = Some (11 * second) /\
    wTable (yWorld (oBus w)) !! delivery_of (row_publication None r (JString "paid")) crm_sub = Some d.
Proof.
  assert (exists w r, run sample_text repaired_run sample_start = Some w /\ oRows w !! "row-1"%string = Some r /\
    vPublishedAt r = Some (11 * second) /\ row_payload r = Some (JString "paid") /\
    map (fun p => aSubs p.2) (oDone w) = [Some [crm_sub]] /\ pName (row_publication None r (JString "paid")) = "pos.sold"%string)
    as (w & r & Hrun & Hr & Hp & Hpay & Hd & Hn).
  { eexists _, _. split; [vm_compute; reflexivity|]. split; [vm_compute; reflexivity|]. split; [vm_compute; reflexivity|].
    split; [vm_compute; reflexivity|]. split; vm_compute; reflexivity. }
  assert (vPublishedAt r <> None) as Hp' by (rewrite Hp; discriminate).
  destruct (published_event_delivered defaultOptions None None [hub_sub] (Wire_options_ok []) hub_alone sample_text
    empty_world repaired_run w "row-1"%string r _ winv_start Hrun Hr Hp' Hpay) as (r0 & o & subs & Hin & _ & Hs & Hall).
  destruct (Hall crm_sub) as (d & Hd').
  - apply (list_elem_of_fmap_2 (fun p : string * EventRow * answers => aSubs p.2)) in Hin. change (?f <$> oDone w) with (map f (oDone w)) in Hin.
    rewrite Hd in Hin. apply list_elem_of_singleton in Hin. cbn in Hin. rewrite Hin in Hs. injection Hs as <-. left.
  - rewrite Hn. apply eventMatches_covered. reflexivity.
  - exists w, r, d. repeat split; assumption.
Defined.

Lemma outbox_never_lost_witness :
  exists w r es' w' r', run sample_text staged_run sample_start = Some w /\ oRows w !! "row-1"%string = Some r /\ vFannedOut r = true /\
    run sample_text es' w = Some w' /\ oRows w' !! "row-1"%string = Some r' /\ vPublishedAt r' <> None.
Proof.
  assert (exists w r, run sample_text staged_run sample_start = Some w /\ oRows w !! "row-1"%string = Some r /\
    vPublishedAt r = None /\ vAttempts r = 0 /\ vEventName r = "pos.sold"%string /\ vCreatedAt r = 0 /\ vNextAttemptAt r = None /\ vFannedOut r = true)
    as (w & r & Hrun & Hr & Hp & Ha & Hn & Hc & Hx & Hf).
  { eexists _, _. split; [vm_compute; reflexivity|]. split; [vm_compute; reflexivity|]. repeat split; vm_compute; reflexivity. }
  destruct (outbox_never_lost defaultOptions None None [hub_sub] (Wire_options_ok []) hub_alone sample_text
    empty_world staged_run w "row-1"%string r winv_start Hrun Hr) as (_ & _ & Hlive).
  destruct (Hlive Hp) with (now := 11 * second) (subs := [crm_sub]) as (es' & w' & r' & _ & Hrun' & Hr' & Hp').
  - rewrite Ha. reflexivity.
  - rewrite Hn. discriminate.
  - reflexivity.
  - rewrite Hc. reflexivity.
  - intros n E. rewrite Hx in E. discriminate.
  - exists w, r, es', w', r'. repeat split; assumption.
Defined.

Lemma plain_subscribers_once_witness :
  exists w r, run sample_text repaired_run sample_start = Some w /\ oBorn w !! "row-1"%string = Some r /\ vEventID r = "evt-1"%string /\
    heard "hub" "evt-1" (oBus w) = 1%nat.
Proof.
  assert (exists w r, run sample_text repaired_run sample_start = Some w /\ oBorn w !! "row-1"%string = Some r /\ vEventID r = "evt-1"%string /\
    (1 <= heard "hub" "evt-1" (oBus w))%nat) as (w & r & Hrun & Hr & He & Hh).
  { eexists _, _. split; [vm_compute; reflexivity|]. split; [vm_compute; reflexivity|]. split; [reflexivity|]. vm_compute. lia. }
  assert (orderly_run sample_text repaired_run sample_start) as Ho by (apply orderly_runb_spec; vm_compute; reflexivity).
  exists w, r. split; [exact Hrun|]. split; [exact Hr|]. split; [exact He|]. apply Nat.le_antisymm; [|exact Hh].
  rewrite <- He. exact (plain_subscribers_once defaultOptions None None [hub_sub] (Wire_options_ok []) hub_alone sample_text
    empty_world repaired_run w "hub"%string "row-1"%string r winv_start Ho Hrun Hr).
Defined.

Lemma sequence_numbers_unique_witness :
  exists w, run sample_text staged_run sample_start = Some w /\ oSeqs w !! ("org", "pos:Ticket", "7")%string = Some 1 /\
    exists id, (id, ("org", "pos:Ticket", "7")%string, 1) ∈ oAlloc w.
Proof.
  assert (exists w, run sample_text staged_run sample_start = Some w /\ oSeqs w !! ("org", "pos:Ticket", "7")%string = Some 1) as (w & Hrun & Hs).
  { eexists. split; vm_compute; reflexivity. }
  destruct (sequence_numbers_unique defaultOptions None None [hub_sub] (Wire_options_ok []) hub_alone sample_text empty_world staged_run w winv_start Hrun)
    as (Hr & _). exists w. split; [exact Hrun|]. split; [exact Hs|]. apply Hr. rewrite Hs. cbn. lia.
Defined.
