(* ===== verification/GuestEmit.v ===== *)
(** * What a guest's call may do twice or not at all (runtime/wasm/wasm.go,
    runtime/wasm/emitbuffer.go, runtime/wasm/capabilities.go,
    database/staleplan, dynamic/outbox.go, dynamic/commithook.go)

    The events a WASM guest emits are buffered while it runs and published
    when its invocation succeeds; its database calls are run again when the
    server reports a stale plan.  A guest is the sequence of imports it calls
    and how it ends; its memory is a function. *)

From stdpp Require Import gmap.
From S2P Require Import Prelude GoStrings GoHTTP GoJSON EventBus DispatchEvent EventOutbox.

(** ** Retry of a host call (database/staleplan) *)

Inductive Kind : Type := KindNone | KindResultTypeChanged | KindStatementMissing | KindStatementExists.
#[export] Instance Kind_eq_dec : EqDecision Kind.
Proof. solve_decision. Defined.

Definition msgResultType : string := "cached plan must not change result type".
(** An error that only keeps its text, as the envelopes do. *)
Definition Classify (msg : string) : Kind :=
  if Contains msg msgResultType then KindResultTypeChanged else
  if Contains msg "prepared statement" && Contains msg "does not exist" then KindStatementMissing else
  if Contains msg "prepared statement" && Contains msg "already exists" then KindStatementExists else KindNone.
Definition isFailureEnvelope (b : string) : bool := Contains b (jstr "success" +:+ ":false").

Section retry.
(** What a host call reads and writes, and what its environment is during
    one run of it: the plans the connections hold, what other sessions do. *)
Context {W R : Type}.
Definition RetryEnvelope (fn : R -> W -> string * W) (r r' : R) (w : W) : string * W :=
  let '(out, w) := fn r w in
  if bool_decide (Classify out = KindNone) || negb (isFailureEnvelope out) then (out, w) else fn r' w.

(** The imports; [in_tx] when the caller opened a transaction. *)
Definition db_exec (in_tx : bool) (run : R -> W -> string * W) (r r' r'' : R) (w : W) : string * W :=
  let '(env, w) := run r w in if in_tx then (env, w) else RetryEnvelope run r' r'' w.
End retry.

(** An INSERT outside a transaction that succeeds at once is run twice:
    [db_exec] keeps the answer of its first run only inside one. *)
Definition insert_row (_ : unit) (rows : list string) : string * list string := ("{}"%string, "row"%string :: rows).
Example standalone_exec_twice : forall r r' r'',
  db_exec false insert_row r r' r'' [] = ("{}", ["row"; "row"])%string /\ db_exec true insert_row r r' r'' [] = ("{}", ["row"])%string.
Proof. intros [] [] []. vm_compute. done. Qed.

(** ** The buffer *)

Definition maxStagedEvents : nat := 256.
Definition maxStagedBytes : Z := Z.shiftl 4 20.
Definition eventNameMaxBytes : Z := 256.
Definition eventPayloadMaxBytes : Z := 256 * 1024.
Definition maxAggregateField : Z := 128.

Record emitBuffer := mkEmitBuffer { evs : list StagedEvent; bytes : Z }.
Definition reset : emitBuffer := mkEmitBuffer [] 0.
(** [None]: too many events, or too many bytes. *)
Definition add (ev : StagedEvent) (b : emitBuffer) : option emitBuffer :=
  if (maxStagedEvents <=? length (evs b))%nat then None else
  if maxStagedBytes <? bytes b + slen (sPayload ev) then None else
  Some (mkEmitBuffer (evs b ++ [ev]) (bytes b + slen (sPayload ev))).
Definition take (b : emitBuffer) : list StagedEvent * emitBuffer := (evs b, reset).

Definition aggregate_char (c : ascii) : bool :=
  is_upper c || is_lower c || is_digit c || Ascii.eqb c "_" || Ascii.eqb c "." || Ascii.eqb c ":" || Ascii.eqb c "-".
Definition validAggregateField (s : string) : bool := (0 <? slen s) && (slen s <=? maxAggregateField) && str_forall aggregate_char s.

(** The reads of the guest's memory: by address and length. *)
Definition memory : Type := Z -> Z -> option string.
Definition readBytes (mem : memory) (ptr n : Z) : option string := if n =? 0 then None else mem ptr n.

Section emit.
Context `{BodyJSON}.

(** Whether the guest's answer means the work stands. *)
Definition invocationCommitted (out : string) : bool :=
  match decode_struct (json_decode out) (fun l => decode_field "success" read_bool_ptr l None) None with
  | Some (Some b) => b
  | _ => true
  end.

Definition read_aggregate (l : list (string * json)) : (string * string) * bool :=
  let '(t, ok1) := decode_field "type" read_string l ""%string in
  let '(i, ok2) := decode_field "id" read_string l ""%string in ((t, i), ok1 && ok2).
(** [None] is an aggregate that is not valid; [now] and [id] are drawn. *)
Definition stageEmit (c : ctx) (now : Z) (id addonKey event orgID payload : string) : option StagedEvent :=
  let ev t i := mkStagedEvent id addonKey event orgID payload 1 t i (Some now) (CausationIDFromContext c) (CorrelationIDFromContext c)
                  (ActorIDFromContext c) (BranchIDFromContext c) in
  if String.eqb payload "" then Some (ev "" "")%string else
  match json_decode payload ≫= field "aggregate" with
  | None | Some JNull => Some (ev "" "")%string
  | Some raw =>
      '(t, i) ← decode_struct (Some raw) read_aggregate (""%string, ""%string);
      if String.eqb t "" && String.eqb i "" then Some (ev "" "")%string else
      if negb (validAggregateField t) || negb (validAggregateField i) then None else Some (ev t i)
  end.

(** ** The import [event_emit] *)

(** The invocation: its addon and organization (empty for the zero uuid), the
    context of the call, the bus with its check and its estimate, and the
    emit policy.  The violations a policy reports on the bus are dropped. *)
Record invocation := mkInvocation {
  iAddon : string; iOrg : string; iCtx : ctx;
  iBus : option ((string -> string -> option string) * (string -> Z)); iPolicy : string -> option string
}.
Inductive emit_answer : Type :=
| EmitOK (subscribers : Z) | BusUnavailable | InvalidEvent | PayloadTooLarge | InvalidPayload | NoActiveOrg | Forbidden (msg : string)
| TooManyEvents.
(** One call: the memory, the two spans, and what the host draws. *)
Record emit_call := mkEmitCall {
  gMem : memory; gEventPtr : Z; gEventLen : Z; gPayloadPtr : Z; gPayloadLen : Z; gNow : Z; gID : string
}.

Definition event_emit (i : invocation) (g : emit_call) (b : emitBuffer) : emit_answer * emitBuffer :=
  match iBus i with
  | None => (BusUnavailable, b)
  | Some (check, estimate) =>
      if gEventLen g =? 0 then (InvalidEvent, b) else
      if eventNameMaxBytes <? gEventLen g then (InvalidEvent, b) else
      match gMem g (gEventPtr g) (gEventLen g) with
      | None => (InvalidEvent, b)
      | Some name =>
          if negb (utf8_valid name) then (InvalidEvent, b) else
          if eventPayloadMaxBytes <? gPayloadLen g then (PayloadTooLarge, b) else
          if (0 <? gPayloadLen g) && bool_decide (readBytes (gMem g) (gPayloadPtr g) (gPayloadLen g) = None) then (InvalidPayload, b) else
          if String.eqb (iOrg i) "" then (NoActiveOrg, b) else
          match iPolicy i name with
          | Some msg => (Forbidden msg, b)
          | None =>
              match check (iAddon i) name with
              | Some msg => (Forbidden msg, b)
              | None =>
                  let raw := default ""%string (readBytes (gMem g) (gPayloadPtr g) (gPayloadLen g)) in
                  match stageEmit (iCtx i) (gNow g) (gID g) (iAddon i) name (iOrg i) raw with
                  | None => (InvalidPayload, b)
                  | Some staged => match add staged b with None => (TooManyEvents, b) | Some b => (EmitOK (estimate name), b) end
                  end
              end
          end
      end
  end.

(** ** The invocation *)

(** One attempt: it found no instance (and [gone] says its addon is not
    loaded any more), or the guest ran, called [event_emit] so often, and
    ended: with an answer, with its instance closed under it, as a timeout
    does too, or otherwise. *)
Inductive ending : Type := Returned (out : string) | ModuleClosed | Failed.
Inductive guest_run : Type := NotStarted (gone : bool) | Ran (calls : list emit_call) (e : ending).
Inductive run_error : Type := AddonNotLoaded | RunFailed.

Fixpoint run_calls (i : invocation) (calls : list emit_call) (b : emitBuffer) : list emit_answer * emitBuffer :=
  match calls with
  | [] => ([], b)
  | g :: calls => let '(a, b) := event_emit i g b in let '(l, b) := run_calls i calls b in (a :: l, b)
  end.
(** What is handed to the publisher. *)
Definition flushEmits (b : emitBuffer) (out : string) : list StagedEvent :=
  let '(evs, _) := take b in if invocationCommitted out then evs else [].

(** The loop of [invokeImpl] from the attempt [k]: the answer, the events
    published, and how often the guest's code ran. *)
Fixpoint attempts (i : invocation) (runs : nat -> guest_run) (n k : nat) : result run_error string * list StagedEvent * nat :=
  match n with
  | O => (Err RunFailed, [], 0%nat)
  | S n =>
      match runs k with
      | NotStarted gone => if gone then (Err AddonNotLoaded, [], 0%nat) else attempts i runs n (S k)
      | Ran calls e =>
          let '(_, b) := run_calls i calls reset in
          match e with
          | Returned out => (Ok out, flushEmits b out, 1%nat)
          | ModuleClosed =>
              if (k =? 0)%nat then let '(r, pub, m) := attempts i runs n (S k) in (r, pub, S m) else (Err RunFailed, [], 1%nat)
          | Failed => (Err RunFailed, [], 1%nat)
          end
      end
  end.
(** [loaded]: the addon is compiled; [exports]: what its manifest lets be called. *)
Definition invokeImpl (i : invocation) (loaded : bool) (exports : list string) (fn : string) (runs : nat -> guest_run) :
    result run_error string * list StagedEvent * nat :=
  if negb loaded then (Err AddonNotLoaded, [], 0%nat) else
  if negb (existsb (String.eqb fn) exports) then (Err RunFailed, [], 0%nat) else attempts i runs 3 0.

(** ** Facts: one call *)

(** The law of a memory: a read has the length asked for. *)
Definition memory_ok (mem : memory) : Prop := forall p n s, mem p n = Some s -> slen s = n.

(** The host's stamp on an event of the invocation. *)
Record genuine (i : invocation) (ev : StagedEvent) : Prop := mkGenuine {
  gn_addon : sAddonKey_ ev = iAddon i;
  gn_org : sOrgID ev = iOrg i /\ iOrg i <> ""%string;
  gn_ctx : sActorID ev = ActorIDFromContext (iCtx i) /\ sBranchID ev = BranchIDFromContext (iCtx i) /\
    sCausationID ev = CausationIDFromContext (iCtx i) /\ sCorrelationID ev = CorrelationIDFromContext (iCtx i);
  gn_name : 0 < slen (sName ev) <= eventNameMaxBytes /\ utf8_valid (sName ev) = true;
  gn_payload : slen (sPayload ev) <= eventPayloadMaxBytes;
  gn_allowed : iPolicy i (sName ev) = None /\ exists check estimate, iBus i = Some (check, estimate) /\ check (iAddon i) (sName ev) = None;
  gn_aggregate : (sAggregateType ev = "" /\ sAggregateID ev = "")%string \/
    (validAggregateField (sAggregateType ev) = true /\ validAggregateField (sAggregateID ev) = true)
}.
(** The event a call asked for. *)
Definition asked (i : invocation) (g : emit_call) (ev : StagedEvent) : Prop :=
  gMem g (gEventPtr g) (gEventLen g) = Some (sName ev) /\
  sPayload ev = default ""%string (readBytes (gMem g) (gPayloadPtr g) (gPayloadLen g)) /\ sID ev = gID g /\ sOccurredAt ev = Some (gNow g).

Record buffer_ok (i : invocation) (b : emitBuffer) : Prop := mkBufferOk {
  bf_count : (length (evs b) <= maxStagedEvents)%nat;
  bf_bytes : bytes b = zsum (map (fun ev => slen (sPayload ev)) (evs b)) /\ bytes b <= maxStagedBytes;
  bf_genuine : Forall (genuine i) (evs b)
}.

Lemma stageEmit_spec c now id addon event org payload ev :
  stageEmit c now id addon event org payload = Some ev ->
  exists t i, ev = mkStagedEvent id addon event org payload 1 t i (Some now) (CausationIDFromContext c) (CorrelationIDFromContext c)
    (ActorIDFromContext c) (BranchIDFromContext c) /\
    ((t = "" /\ i = "")%string \/ (validAggregateField t = true /\ validAggregateField i = true)).
Proof.
  unfold stageEmit. set (ev0 := fun t i => mkStagedEvent id addon event org payload 1 t i (Some now) (CausationIDFromContext c) (CorrelationIDFromContext c)
    (ActorIDFromContext c) (BranchIDFromContext c)).
  assert (Some (ev0 "" "")%string = Some ev -> exists t i, ev = ev0 t i /\ ((t = "" /\ i = "")%string \/
    (validAggregateField t = true /\ validAggregateField i = true))) as Hnone by (intros [= <-]; exists ""%string, ""%string; split; [done|by left]).
  destruct (String.eqb payload ""); [done|].
  destruct (json_decode payload ≫= field "aggregate") as [[| | | | |]|]; try done;
    intros ([t i] & _ & He)%bind_Some; destruct (String.eqb t "" && String.eqb i ""); try (by apply Hnone);
    destruct (validAggregateField t) eqn:Et, (validAggregateField i) eqn:Ei; try done; injection He as <-; exists t, i; (split; [done|by right]).
Qed.

Lemma event_emit_spec i g b a b' :
  memory_ok (gMem g) -> buffer_ok i b -> event_emit i g b = (a, b') ->
  (exists n ev, a = EmitOK n /\ asked i g ev /\ evs b' = evs b ++ [ev] /\ buffer_ok i b') \/ ((forall n, a <> EmitOK n) /\ b' = b).
Proof.
  intros Hm Hb. unfold event_emit. destruct (iBus i) as [[check estimate]|] eqn:Ebus; [|intros [= <- <-]; by right].
  destruct (Z.eqb_spec (gEventLen g) 0) as [|Hne]; [intros [= <- <-]; by right|].
  destruct (Z.ltb_spec eventNameMaxBytes (gEventLen g)) as [|Hle]; [intros [= <- <-]; by right|].
  destruct (gMem g (gEventPtr g) (gEventLen g)) as [name|] eqn:Ename; [|intros [= <- <-]; by right].
  destruct (utf8_valid name) eqn:Eutf; cbn [negb]; [|intros [= <- <-]; by right].
  destruct (Z.ltb_spec eventPayloadMaxBytes (gPayloadLen g)) as [|Hpl]; [intros [= <- <-]; by right|].
  destruct ((0 <? gPayloadLen g) && _); [intros [= <- <-]; by right|].
  destruct (String.eqb_spec (iOrg i) ""); [intros [= <- <-]; by right|].
  destruct (iPolicy i name) eqn:Epol; [intros [= <- <-]; by right|]. destruct (check (iAddon i) name) eqn:Echk; [intros [= <- <-]; by right|].
  destruct (stageEmit _ _ _ _ _ _ _) as [ev|] eqn:Es; [|intros [= <- <-]; by right].
  destruct (add ev b) as [b1|] eqn:Ea; [|intros [= <- <-]; by right]. intros [= <- <-]. left.
  apply stageEmit_spec in Es as (t & ai & Hev & Hagg). exists (estimate name), ev. split; [done|]. split; [by rewrite Hev; unfold asked; split_and!|].
  unfold add in Ea. destruct (Nat.leb_spec maxStagedEvents (length (evs b))) as [|Hlt]; [done|].
  destruct (Z.ltb_spec maxStagedBytes (bytes b + slen (sPayload ev))) as [|Hby]; [done|]. subst ev.
  injection Ea as <-. split; [done|]. destruct Hb as [Hc [Hs Hx] Hg]. split; cbn [evs bytes].
  - rewrite length_app. cbn. lia.
  - rewrite map_app, zsum_app. cbn [map]. rewrite zsum_cons, zsum_nil. cbn [sPayload] in *. split; lia.
  - apply Forall_app. split; [done|]. constructor; [|done]. pose proof (Hm _ _ _ Ename) as Hlen.
    assert (0 <= slen name) by (unfold slen; lia). split; cbn; try done.
    + split; [lia|done].
    + destruct (readBytes _ _ _) as [p|] eqn:Er; cbn; [|vm_compute; discriminate]. unfold readBytes in Er.
      destruct (_ =? 0); [done|]. apply Hm in Er. lia.
    + split; [done|]. by exists check, estimate.
Qed.

Lemma run_calls_spec i calls b answers b' :
  Forall (fun g => memory_ok (gMem g)) calls -> buffer_ok i b -> run_calls i calls b = (answers, b') ->
  length answers = length calls /\ buffer_ok i b' /\
  exists new, evs b' = evs b ++ new /\
    Forall2 (fun (p : emit_call * emit_answer) ev => asked i p.1 ev) (List.filter (fun p => match p.2 with EmitOK _ => true | _ => false end) (combine calls answers)) new.
Proof.
  revert b answers. induction calls as [|g calls IH]; intros b answers; cbn [run_calls].
  { intros _ Hb [= <- <-]. split_and!; [done..|]. exists []. split; [by rewrite app_nil_r|constructor]. }
  intros [Hg Hcs]%Forall_cons Hb. destruct (event_emit i g b) as [a b1] eqn:He. destruct (run_calls i calls b1) as [l b2] eqn:Hr. intros [= <- <-].
  apply event_emit_spec in He as [(n & ev & -> & Hask & Hev & Hb1)|[Hno ->]]; [| |done|done].
  - destruct (IH _ _ Hcs Hb1 Hr) as (Hl & Hb2 & new & Hnew & Hall). split_and!; [cbn; by f_equal|done|]. exists (ev :: new).
    split; [by rewrite Hnew, Hev, <- app_assoc|]. cbn. by constructor.
  - destruct (IH _ _ Hcs Hb Hr) as (Hl & Hb2 & new & Hnew & Hall). split_and!; [cbn; by f_equal|done|]. exists new. split; [done|].
    cbn. destruct a; try done. by destruct (Hno subscribers).
Qed.

Lemma reset_ok i : buffer_ok i reset.
Proof. split; cbn; [lia|split; [done|vm_compute; discriminate]|constructor]. Qed.

(** ** What an invocation publishes *)

Lemma attempts_spec i runs n k res pub m :
  attempts i runs n k = (res, pub, m) ->
  match res with
  | Err _ => pub = []
  | Ok out => exists j calls, (k <= j < k + n)%nat /\ runs j = Ran calls (Returned out) /\ pub = flushEmits (run_calls i calls reset).2 out
  end /\ (m <= if k =? 0 then 2 else 1)%nat.
Proof.
  revert k res pub m. induction n as [|n IH]; intros k res pub m; cbn [attempts]; [intros [= <- <- <-]; split; [done|lia]|].
  assert (forall res pub m, attempts i runs n (S k) = (res, pub, m) ->
    match res with
    | Err _ => pub = []
    | Ok out => exists j calls, (k <= j < k + S n)%nat /\ runs j = Ran calls (Returned out) /\ pub = flushEmits (run_calls i calls reset).2 out
    end /\ (m <= 1)%nat) as Hnext.
  { intros res' pub' m' [Hr Hm]%IH. split; [|done]. destruct res'; [|done]. destruct Hr as (j & calls & ? & ?). exists j, calls. split; [lia|done]. }
  destruct (runs k) as [gone|calls e] eqn:Hk.
  - destruct gone; [intros [= <- <- <-]; split; [done|lia]|]. intros [? ?]%Hnext. split; [done|]. destruct (k =? 0)%nat; lia.
  - destruct (run_calls i calls reset) as [answers b] eqn:Hr. destruct e as [out| |].
    + intros [= <- <- <-]. split; [|destruct (k =? 0)%nat; lia]. exists k, calls. rewrite Hr. split; [lia|done].
    + destruct (k =? 0)%nat; [|intros [= <- <- <-]; split; [done|lia]].
      destruct (attempts i runs n (S k)) as [[r p] m'] eqn:Ha. intros [= <- <- <-]. destruct (Hnext _ _ _ eq_refl) as [? ?]. split; [done|lia].
    + intros [= <- <- <-]. split; [done|]. destruct (k =? 0)%nat; lia.
Qed.

(** C11: an invocation publishes the events of the attempt that answered, and
    of no other: exactly those its [event_emit] calls were told were
    accepted, in their order, when the answer does not say the work failed,
    and none otherwise or when it ends in an error.  There are at most 256
    of at most 4 MiB in all, none too long for the outbox, and each carries
    the addon, the organization and the people of the invocation, whatever
    the guest wrote, under a name its policy and the bus allow.  The guest's
    code runs at most twice. *)
Theorem emits_on_commit i loaded exports fn runs res pub m :
  (forall j calls e, runs j = Ran calls e -> Forall (fun g => memory_ok (gMem g)) calls) ->
  invokeImpl i loaded exports fn runs = (res, pub, m) ->
  match res with
  | Err _ => pub = []
  | Ok out => loaded = true /\ fn ∈ exports /\
      exists j calls answers b, (j < 3)%nat /\ runs j = Ran calls (Returned out) /\ run_calls i calls reset = (answers, b) /\
        if invocationCommitted out
        then Forall2 (fun (p : emit_call * emit_answer) ev => asked i p.1 ev)
               (List.filter (fun p => match p.2 with EmitOK _ => true | _ => false end) (combine calls answers)) pub
        else pub = []
  end /\
  (length pub <= maxStagedEvents)%nat /\ zsum (map (fun ev => slen (sPayload ev)) pub) <= maxStagedBytes /\
  Forall (genuine i) pub /\ rejectOversized pub = pub /\ (m <= 2)%nat.
Proof.
  intros Hmem Hi.
  assert (match res with
    | Err _ => pub = []
    | Ok out => loaded = true /\ fn ∈ exports /\
        exists j calls, (j < 3)%nat /\ runs j = Ran calls (Returned out) /\ pub = flushEmits (run_calls i calls reset).2 out
    end /\ (m <= 2)%nat) as [Hres Hm].
  { revert Hi. unfold invokeImpl. destruct loaded; cbn [negb]; [|intros [= <- <- <-]; split; [done|lia]].
    destruct (existsb (String.eqb fn) exports) eqn:Ee; cbn [negb]; [|intros [= <- <- <-]; split; [done|lia]].
    intros [Hr Hm]%attempts_spec. split; [|done]. destruct res; [|done]. destruct Hr as (j & calls & ? & ?). split; [done|]. split.
    - apply existsb_exists in Ee as (x & Hx & ->%String.eqb_eq). by apply list_elem_of_In.
    - exists j, calls. split; [lia|done]. }
  assert (exists b, buffer_ok i b /\ pub ⊆ evs b /\ (pub = [] \/ pub = evs b) /\
    match res with
    | Err _ => pub = []
    | Ok out => loaded = true /\ fn ∈ exports /\
        exists j calls answers b, (j < 3)%nat /\ runs j = Ran calls (Returned out) /\ run_calls i calls reset = (answers, b) /\
          if invocationCommitted out
          then Forall2 (fun (p : emit_call * emit_answer) ev => asked i p.1 ev)
                 (List.filter (fun p => match p.2 with EmitOK _ => true | _ => false end) (combine calls answers)) pub
          else pub = []
    end) as (b & Hb & _ & Hpub & Hfinal).
  { destruct res as [out|e]; [|subst pub; exists reset; split_and!; [apply reset_ok|set_solver|by left|done]].
    destruct Hres as (Hl & Hf & j & calls & Hj & Hr & ->). destruct (run_calls i calls reset) as [answers b] eqn:Hc.
    destruct (run_calls_spec i calls reset answers b (Hmem _ _ _ Hr) (reset_ok i) Hc) as (_ & Hb & new & Hnew & Hall). cbn [evs reset app] in Hnew.
    exists b. unfold flushEmits. cbn [take snd]. split; [done|]. split; [by destruct (invocationCommitted out); set_solver|].
    split; [destruct (invocationCommitted out); auto|]. split_and!; [done..|]. exists j, calls, answers, b. split_and!; [done..|].
    destruct (invocationCommitted out); [by rewrite Hnew|done]. }
  split; [done|]. destruct Hb as [Hc [Hs Hx] Hg]. destruct Hpub as [->| ->].
  - split_and!; [cbn; lia|vm_compute; discriminate|done..].
  - split_and!; [done|lia|done| |done]. unfold rejectOversized. induction Hg as [|ev l [_ _ _ [[_ Hn] _] _ _ _] Hl IH]; [done|].
    cbn. unfold eventNameMaxBytes in Hn. unfold MaxEventNameLen. destruct (Z.ltb_spec 512 (slen (sName ev))); [lia|]. cbn. f_equal. clear -Hl.
    induction Hl as [|ev l [_ _ _ [[_ Hn] _] _ _ _] Hl IH]; [done|]. cbn. unfold eventNameMaxBytes in Hn.
    destruct (Z.ltb_spec 512 (slen (sName ev))); [lia|]. cbn. by f_equal.
Qed.

(** A guest cannot advance the counters of anybody else: addon keys hold
    no colon, so the counter of an event one addon staged is neither one of
    another addon nor one of a model. *)
Theorem staged_counters_apart i i' ev ev' row k k' c :
  genuine i ev -> genuine i' ev' -> staged_key ev = Some k -> staged_key ev' = Some k' -> canonical_key row = Some c ->
  iAddon i <> ""%string -> iAddon i' <> ""%string -> str_contains ":" (iAddon i) = false -> str_contains ":" (iAddon i') = false ->
  str_contains ":" (vAggregateType row) = false ->
  (k = k' -> iAddon i = iAddon i' /\ iOrg i = iOrg i' /\ sAggregateType ev = sAggregateType ev' /\ sAggregateID ev = sAggregateID ev') /\ k <> c.
Proof.
  intros [Ha [Ho _] _ _ _ _ _] [Ha' [Ho' _] _ _ _ _ _] Hk Hk' Hc Hne Hne' Hcol Hcol' Hrow. unfold staged_key in Hk, Hk'. unfold canonical_key in Hc.
  destruct (negb _ && _); [|done]. destruct (negb (String.eqb (sAggregateType ev') "") && _); [|done]. destruct (String.eqb (vAggregateID row) ""); [done|].
  rewrite Ha, (proj2 (String.eqb_neq _ _) Hne) in Hk. rewrite Ha', (proj2 (String.eqb_neq _ _) Hne') in Hk'.
  injection Hk as <-. injection Hk' as <-. injection Hc as <-.
  split.
  - intros [= Eo Et Ei]. destruct (str_cut_inj _ _ _ _ _ Hcol Hcol' Et). rewrite <- Ho, <- Ho'. done.
  - intros [= _ Et _]. rewrite <- Et in Hrow. clear -Hrow. induction (iAddon i) as [|x l IH]; cbn in Hrow; [done|]. apply orb_false_iff in Hrow as [_ ?]. auto.
Qed.
End emit.

(** ** Examples and witnesses *)

#[local] Instance no_json : BodyJSON := {| json_decode := fun _ => None; json_marshal := fun _ => ""%string |}.

(** A guest that runs past its deadline has its instance closed by the
    runtime, which [isClosedModuleErr] takes for a stale instance: the call,
    with all it did outside a transaction, is run again. *)
Example timed_out_call_runs_twice i :
  (invokeImpl i true ["charge"%string] "charge" (fun k => Ran [] (if (k =? 0)%nat then ModuleClosed else Returned "done"))).2 = 2%nat.
Proof. reflexivity. Qed.

(** The name at address 0, the payload at 1. *)
Definition sample_memory : memory := fun p n =>
  let s := if p =? 0 then "pos.sold"%string else "paid"%string in if n =? slen s then Some s else None.
Definition sample_call : emit_call := mkEmitCall sample_memory 0 8 1 4 7 "evt-1".
Definition sample_invocation (addon : string) : invocation :=
  mkInvocation addon "org" (WithActorID Background "user-1") (Some (fun _ _ => None, fun _ => 0)) (fun _ => None).
Lemma sample_memory_ok : memory_ok sample_memory.
Proof. intros p n s. unfold sample_memory. destruct (Z.eqb_spec n (slen (if p =? 0 then "pos.sold" else "paid"))); [|done]. by intros [= <-]. Qed.

(** The first attempt finds its instance closed; only the second publishes. *)
Lemma emits_on_commit_witness :
  let runs k := if (k =? 0)%nat then Ran [sample_call] ModuleClosed else Ran [sample_call; sample_call] (Returned "raw") in
  exists pub, invokeImpl (sample_invocation "pos") true ["sell"%string] "sell" runs = (Ok "raw"%string, pub, 2%nat) /\
    length pub = 2%nat /\ Forall (genuine (sample_invocation "pos")) pub.
Proof.
  intros runs. assert (exists pub, invokeImpl (sample_invocation "pos") true ["sell"%string] "sell" runs = (Ok "raw"%string, pub, 2%nat) /\ length pub = 2%nat)
    as (pub & He & Hl) by (eexists; split; vm_compute; reflexivity).
  exists pub. split; [exact He|]. split; [exact Hl|].
  assert (forall j calls e, runs j = Ran calls e -> Forall (fun g => memory_ok (gMem g)) calls) as Hm.
  { intros [|j] calls e; cbn; intros [= <- _]; repeat constructor; apply sample_memory_ok. }
  apply (emits_on_commit (sample_invocation "pos") true ["sell"%string] "sell" runs (Ok "raw"%string) pub 2 Hm He).
Defined.

Definition declared (addon : string) : StagedEvent := mkStagedEvent "evt-1" addon "pos.sold" "org" "{}" 1 "Ticket" "7" (Some 7) "" "" "user-1" "".
Lemma declared_genuine addon : genuine (sample_invocation addon) (declared addon).
Proof.
  split; [done|by split|by split_and!| | | |].
  - split; [|reflexivity]. vm_compute. split; [reflexivity|discriminate].
  - vm_compute. discriminate.
  - split; [reflexivity|]. eexists _, _. split; reflexivity.
  - right. split; reflexivity.
Qed.
Lemma staged_counters_apart_witness :
  exists k k', staged_key (declared "pos") = Some k /\ staged_key (declared "crm") = Some k' /\ k <> k'.
Proof.
  eexists _, _. split; [reflexivity|]. split; [reflexivity|]. intros E.
  destruct (staged_counters_apart (sample_invocation "pos") (sample_invocation "crm") (declared "pos") (declared "crm")
    (mkEventRow "org" "pos" "" "" 0 None 0 "" false None "" 1 None "Ticket" "7" 0 "" "" "" "") _ _ _
    (declared_genuine "pos") (declared_genuine "crm") eq_refl eq_refl eq_refl) as [Hk _]; [discriminate|discriminate|reflexivity..|].
  destruct (Hk E) as [Hab _]. discriminate Hab.
Defined.
