(* ===== verification/Approvals.v ===== *)
(** * Approvals and supervisor PINs (dynamic/approvals.go,
    dynamic/approvals_pin.go, dynamic/approvals_consume.go)

    A mutation parked until a supervisor decides, its replay, the expiry of
    what nobody decided, the grants a supervisor gives with a PIN and their
    redemption.  Any number of callers interleave statement by statement and
    may die anywhere.  The events on the bus, the inbox and its views are
    dropped. *)

From Stdlib Require Import Floats.SpecFloat.
From stdpp Require Import gmap.
From S2P Require Import Prelude GoStrings GoHTTP GoJSON RecordExpr.

(** ** Data *)

Inductive Status : Type := StatusPending | StatusApproved | StatusRejected | StatusExpired | StatusApplied | StatusFailed.
#[export] Instance Status_eq_dec : EqDecision Status.
Proof. solve_decision. Defined.
Inductive Kind : Type := KindConstraint | KindAction | KindExplicit | KindPIN.
#[export] Instance Kind_eq_dec : EqDecision Kind.
Proof. solve_decision. Defined.

(** The JSON columns are kept decoded; ids are texts, the zero uuid empty. *)
Record ApprovalRequest := mkApprovalRequest {
  qOrg : string; qAddonKey : string; qModelKey : string; qRecordID : string; qActionKey : string; qConstraintKey : string;
  qKind : Kind; qLabel : string; qStatus : Status; qRequestedBy : string; qRequestedByRole : string; qRequestedAt : Z;
  qExpiresAt : option Z; qRoles : list string; qReasonRequired : bool; qPayload : list (string * json); qSnapshot : json;
  qViolation : json; qDecidedBy : option string; qDecidedAt : option Z; qReason : string; qAppliedEventID : string;
  qResult : json; qError : string
}.
Abbreviation requests := (gmap string ApprovalRequest).

(** An UPDATE of the columns of the lifecycle. *)
Definition moved (r : ApprovalRequest) (record : string) (s : Status) (by_ : option string) (at_ : option Z) (reason applied : string)
    (result : json) (error : string) : ApprovalRequest :=
  mkApprovalRequest (qOrg r) (qAddonKey r) (qModelKey r) record (qActionKey r) (qConstraintKey r) (qKind r) (qLabel r) s
    (qRequestedBy r) (qRequestedByRole r) (qRequestedAt r) (qExpiresAt r) (qRoles r) (qReasonRequired r) (qPayload r) (qSnapshot r)
    (qViolation r) by_ at_ reason applied result error.
(** The columns no statement changes. *)
Definition fixed (r : ApprovalRequest) : ApprovalRequest := moved r "" StatusPending None None "" "" JNull "".

(** A user: id, organization, role. *)
Record user := mkUser { uID : string; uOrg : string; uRole : string }.

Inductive approval_error : Type :=
| ErrInvalidInput | ErrTenantScopeUnavailable | ErrRecordNotFound | ErrApprovalNotPending | ErrApprovalExpired
| ErrApprovalReasonRequired | ErrApprovalForbidden | ErrApprovalPINUnavailable | ErrApprovalPINInvalid | ErrApprovalPINLocked
| ErrApprovalGrantRequired | ErrApprovalConsume (why : string).

(** ** Roles *)

Section roles.
Context `{UnicodeLower}.

Definition role_key (r : string) : string := ToLower (TrimSpace r).
Fixpoint normalize_from (l : list string) (seen : list string) : list string :=
  match l with
  | [] => []
  | r :: l =>
      let k := role_key r in
      if String.eqb k "" || existsb (String.eqb k) seen then normalize_from l seen else k :: normalize_from l (k :: seen)
  end.
Definition normalizeRoles (l : list string) : list string := normalize_from l [].
Definition rolesIntersect (actor required : list string) : bool :=
  match actor, required with
  | [], _ | _, [] => false
  | _, _ => existsb (fun r => existsb (String.eqb (role_key r)) (map role_key actor)) required
  end.
(** [resolved] is the answer of the host's resolver, if it has one. *)
Definition actorRoles (resolved : option (list string)) (u : user) : list string :=
  match resolved with
  | Some (_ :: _ as l) => normalizeRoles l
  | _ => normalizeRoles [uRole u]
  end.
End roles.

(** ** Requests *)

Record ApprovalInput := mkApprovalInput {
  inKind : option Kind; inAddonKey : string; inModelKey : string; inRecordID : string; inActionKey : string;
  inConstraintKey : string; inLabel : string; inOrg : string; inRequestedBy : string; inRequestedByRole : string;
  inRoles : list string; inReasonRequired : bool; inExpiresHours : Z; inPayload : list (string * json); inSnapshot : json;
  inViolation : json
}.
Definition payload_text (key : string) (payload : list (string * json)) : string :=
  match assoc key (members payload) with Some (JString s) => s | _ => "" end.

Section request.
Context `{UnicodeLower}.

(** [RequestApproval] up to the INSERT. *)
Definition RequestApproval (now : Z) (i : ApprovalInput) : result approval_error ApprovalRequest :=
  if String.eqb (inOrg i) "" then Err ErrInvalidInput else
  if blank (payload_text "op" (inPayload i)) then Err ErrInvalidInput else
  match normalizeRoles (inRoles i) with
  | [] => Err ErrInvalidInput
  | roles =>
      let label := TrimSpace (inLabel i) in
      let label := if negb (String.eqb label "") then label else
                   if negb (String.eqb (inConstraintKey i) "") then inConstraintKey i else
                   if negb (String.eqb (inActionKey i) "") then inActionKey i else inModelKey i in
      let expires := if 0 <? inExpiresHours i then Some (now + wrap64 (inExpiresHours i * 3600000000000)) else None in
      Ok (mkApprovalRequest (inOrg i) (inAddonKey i) (inModelKey i) (inRecordID i) (inActionKey i) (inConstraintKey i)
            (default KindExplicit (inKind i)) label StatusPending (inRequestedBy i) (inRequestedByRole i) now expires roles
            (inReasonRequired i) (inPayload i) (inSnapshot i) (inViolation i) None None "" "" JNull "")
  end.

Definition IsExpired (now : Z) (r : ApprovalRequest) : bool :=
  bool_decide (qStatus r = StatusPending) && match qExpiresAt r with Some e => e <=? now | None => false end.
Definition canDecide (roles : list string) (r : ApprovalRequest) : bool :=
  bool_decide (qStatus r = StatusPending) && rolesIntersect roles (qRoles r).
Definition loadApproval (u : user) (id : string) (t : requests) : result approval_error ApprovalRequest :=
  if String.eqb (uOrg u) "" then Err ErrTenantScopeUnavailable else
  match t !! id with
  | Some r => if String.eqb (qOrg r) (uOrg u) then Ok r else Err ErrRecordNotFound
  | None => Err ErrRecordNotFound
  end.

(** [decide] up to its UPDATE: the row as read and the reason to store. *)
Definition decide_ (now : Z) (actor : user) (roles : list string) (id reason : string) (t : requests) :
    result approval_error (ApprovalRequest * string) :=
  r ← loadApproval actor id t;
  if negb (bool_decide (qStatus r = StatusPending)) then Err ErrApprovalNotPending else
  if IsExpired now r then Err ErrApprovalExpired else
  if negb (canDecide roles r) then Err ErrApprovalForbidden else
  let reason := TrimSpace reason in
  if qReasonRequired r && String.eqb reason "" then Err ErrApprovalReasonRequired else Ok (r, reason).
End request.

(** UPDATE ... WHERE id = ? AND the guard; [None]: no row affected. *)
Definition update_where (id : string) (ok : ApprovalRequest -> bool) (f : ApprovalRequest -> ApprovalRequest) (t : requests) :
    option requests :=
  match t !! id with Some r => if ok r then Some (<[id := f r]> t) else None | None => None end.
Definition decision (org actor : string) (now : Z) (reason : string) (status : Status) (id : string) (t : requests) : option requests :=
  update_where id (fun r => String.eqb (qOrg r) org && bool_decide (qStatus r = StatusPending))
    (fun r => moved r (qRecordID r) status (Some actor) (Some now) reason (qAppliedEventID r) (qResult r) (qError r)) t.
Definition expire (id : string) (t : requests) : option requests :=
  update_where id (fun r => bool_decide (qStatus r = StatusPending))
    (fun r => moved r (qRecordID r) StatusExpired (qDecidedBy r) (qDecidedAt r) (qReason r) (qAppliedEventID r) (qResult r) (qError r)) t.

(** The outcome of the replay on the request's own row; [row] is the copy
    the caller holds. *)
Definition finish (row : ApprovalRequest) (out : result string json) (id : string) (t : requests) : requests :=
  match update_where id (fun _ => true) (fun r =>
    match out with
    | Err msg => moved r (qRecordID r) StatusFailed (qDecidedBy r) (qDecidedAt r) (qReason r) (qAppliedEventID r) (qResult r) msg
    | Ok v =>
        let applied := match v with JObject l => match assoc "id" (members l) with Some (JString s) => s | _ => qAppliedEventID row end
                       | _ => qAppliedEventID row end in
        let record := if String.eqb (qRecordID row) "" then
                        match v with JObject l => match assoc "id" (members l) with Some (JString s) => s | _ => "" end | _ => "" end
                      else qRecordID row in
        moved r record StatusApplied (qDecidedBy r) (qDecidedAt r) (qReason r) applied v (qError r)
    end) t with
  | Some t => t
  | None => t
  end.

(** ** Supervisor PINs *)

Definition pinMaxFailures : nat := 5.
Definition pinLockWindow : Z := 5 * 60 * 1000000000.
Definition PINGrantMaxAge : Z := 15 * 60 * 1000000000.

(** The failures since [first], by organization and requester. *)
Record pinThrottle := mkPinThrottle { failures : nat; first : Z }.
Abbreviation throttles := (gmap (string * string) pinThrottle).

Definition pinLocked (now : Z) (key : string * string) (m : throttles) : bool * throttles :=
  match m !! key with
  | None => (false, m)
  | Some t => if pinLockWindow <? now - first t then (false, delete key m) else ((pinMaxFailures <=? failures t)%nat, m)
  end.
Definition pinFailed (now : Z) (key : string * string) (m : throttles) : throttles :=
  let t := match m !! key with
           | Some t => if pinLockWindow <? now - first t then mkPinThrottle 0 now else t
           | None => mkPinThrottle 0 now
           end in
  <[key := mkPinThrottle (S (failures t)) (first t)]> m.
Definition pinOK (key : string * string) (m : throttles) : throttles := delete key m.

(** [verifyPIN] before the host's verifier is asked, and after: [None] is its
    error or no user. *)
Definition verifyPIN_start (wired : bool) (now : Z) (requester : user) (pin : string) (m : throttles) :
    result approval_error (string * string) * throttles :=
  if negb wired then (Err ErrApprovalPINUnavailable, m) else
  if String.eqb (uOrg requester) "" then (Err ErrTenantScopeUnavailable, m) else
  if String.eqb (TrimSpace pin) "" then (Err ErrApprovalPINInvalid, m) else
  let key := (uOrg requester, uID requester) in
  let '(locked, m) := pinLocked now key m in
  if locked then (Err ErrApprovalPINLocked, m) else (Ok key, m).
Definition verifyPIN_end (now : Z) (key : string * string) (answer : option user) (m : throttles) :
    result approval_error user * throttles :=
  match answer with
  | Some u => if String.eqb (uOrg u) key.1 then (Ok u, pinOK key m) else (Err ErrApprovalPINInvalid, pinFailed now key m)
  | None => (Err ErrApprovalPINInvalid, pinFailed now key m)
  end.

Record PINGrantInput := mkPINGrantInput {
  gPolicyKey : string; gLabel : string; gReason : string; gAddonKey : string; gModelKey : string; gRecordID : string; gContext : json
}.
Definition grant_checks (i : PINGrantInput) : option approval_error :=
  if blank (gPolicyKey i) then Some ErrInvalidInput else if blank (gReason i) then Some ErrApprovalReasonRequired else None.
(** The row of [GrantPINApproval], once the PIN is verified. *)
Definition grant_row (now : Z) (requester approver : user) (roles : list string) (i : PINGrantInput) : ApprovalRequest :=
  let policy := TrimSpace (gPolicyKey i) in
  let label := TrimSpace (gLabel i) in
  mkApprovalRequest (uOrg requester) (gAddonKey i) (gModelKey i) (gRecordID i) "" policy KindPIN
    (if String.eqb label "" then policy else label) StatusApplied (uID requester) (uRole requester) now None roles true
    [("op"%string, JString "pin_grant"); ("policy"%string, JString policy); ("context"%string, gContext i)] JNull JNull
    (Some (uID approver)) (Some now) (TrimSpace (gReason i)) "" (JObject [("granted"%string, JBool true)]) "".

(** ** Redemption *)

Section consume.
Context `{GoFloat}.
(** [fmt.Sprint] of a decoded value. *)
Variable Sprint : json -> string.

Definition finite (f : spec_float) : option spec_float :=
  match f with S754_nan | S754_infinity _ => None | _ => Some f end.
Definition numberOf (v : option json) : option spec_float :=
  match v with
  | Some (JNumber s) => f ← parse_float s; finite f
  | Some (JString s) => f ← parse_float (TrimSpace s); finite f
  | _ => None
  end.
Definition sign_byte (c : ascii) : bool := Ascii.eqb c "+" || Ascii.eqb c "-".
Definition hasLeadingZero (s : string) : bool :=
  match (span sign_byte (TrimSpace s)).2 with
  | String c (String d _) => Ascii.eqb c "0" && negb (Ascii.eqb d ".")
  | _ => false
  end.
Definition contextEquals (recorded : option json) (want : string) : bool :=
  match recorded with
  | None | Some JNull => false
  | Some v =>
      match (f ← parse_float (TrimSpace want); finite f), numberOf recorded with
      | Some wn, Some rn =>
          match v with
          | JString s => if hasLeadingZero s then String.eqb (Sprint v) want else SFeqb rn wn
          | _ => SFeqb rn wn
          end
      | _, _ => String.eqb (Sprint v) want
      end
  end.

(** [cDeclarative]: named by a manifest; the maps are lists of their entries. *)
Record ConsumeInput := mkConsumeInput {
  cOrg : string; cApprovalID : string; cPolicy : string; cRequestedBy : string; cContextEq : list (string * string);
  cContextGte : list (string * spec_float); cAddonKey : string; cModelKey : string; cRecordID : string; cDeclarative : bool
}.
Definition anchoredElsewhere (r : ApprovalRequest) (i : ConsumeInput) : bool :=
  let other a b := negb (String.eqb a "") && negb (String.eqb a b) in
  if cDeclarative i then other (qRecordID r) (cRecordID i) && negb (String.eqb (cRecordID i) "") else
  other (qAddonKey r) (cAddonKey i) || other (qModelKey r) (cModelKey i) || other (qRecordID r) (cRecordID i).
(** [0.01] in binary64. *)
Definition cent : spec_float := S754_finite false 5764607523034235 (-59).
Definition recorded_context (r : ApprovalRequest) (k : string) : option json :=
  match assoc "context" (members (qPayload r)) with Some (JObject l) => assoc k (members l) | _ => None end.
Definition context_covers (r : ApprovalRequest) (i : ConsumeInput) : bool :=
  forallb (fun p => contextEquals (recorded_context r p.1) p.2) (cContextEq i) &&
  forallb (fun p => match finite p.2, numberOf (recorded_context r p.1) with
                    | Some _, Some got => negb (SFltb got (SFsub 53 1024 p.2 cent))
                    | _, _ => false
                    end) (cContextGte i).
Definition unused (r : ApprovalRequest) : bool := String.eqb (qAppliedEventID r) "".
(** [time.Since(decided) > PINGrantMaxAge]. *)
Definition too_old (now : Z) (r : ApprovalRequest) : bool :=
  match qDecidedAt r with Some d => PINGrantMaxAge <? now - d | None => true end.

(** [ConsumeApproval] up to its UPDATE. *)
Definition consume_checks (now : Z) (i : ConsumeInput) (t : requests) : result approval_error unit :=
  if String.eqb (cOrg i) "" then Err ErrTenantScopeUnavailable else
  if String.eqb (cApprovalID i) "" || blank (cPolicy i) || String.eqb (cRequestedBy i) "" then Err (ErrApprovalConsume "incomplete request") else
  if (length (cContextEq i) + length (cContextGte i) =? 0)%nat then Err (ErrApprovalConsume "context required") else
  match t !! cApprovalID i with
  | None => Err (ErrApprovalConsume "unknown grant")
  | Some r =>
      if negb (String.eqb (qOrg r) (cOrg i)) || negb (String.eqb (qRequestedBy r) (cRequestedBy i)) then Err (ErrApprovalConsume "unknown grant") else
      if negb (bool_decide (qKind r = KindPIN)) || negb (String.eqb (qConstraintKey r) (cPolicy i)) then Err (ErrApprovalConsume "wrong policy") else
      if negb (bool_decide (qStatus r = StatusApplied)) || bool_decide (qDecidedAt r = None) then Err (ErrApprovalConsume "not authorized") else
      if negb (unused r) then Err (ErrApprovalConsume "already used") else
      if too_old now r then Err (ErrApprovalConsume "expired") else
      if anchoredElsewhere r i then Err (ErrApprovalConsume "grant anchored to another document") else
      if context_covers r i then Ok tt else Err (ErrApprovalConsume "context")
  end.
(** Its UPDATE, on the clock of the statement. *)
Definition mark_consumed (r : ApprovalRequest) : ApprovalRequest :=
  moved r (qRecordID r) (qStatus r) (qDecidedBy r) (qDecidedAt r) (qReason r) "consumed" (qResult r) (qError r).
Definition redeemable (now : Z) (i : ConsumeInput) (r : ApprovalRequest) : bool :=
  String.eqb (qOrg r) (cOrg i) && bool_decide (qKind r = KindPIN) && String.eqb (qConstraintKey r) (cPolicy i) &&
  bool_decide (qStatus r = StatusApplied) && String.eqb (qRequestedBy r) (cRequestedBy i) &&
  match qDecidedAt r with Some d => now - PINGrantMaxAge <? d | None => false end && unused r.
Definition consume_update (now : Z) (i : ConsumeInput) (t : requests) : option requests :=
  update_where (cApprovalID i) (redeemable now i) mark_consumed t.

(** [ConsumePINGrant] up to its UPDATE, and its UPDATE, which compares less;
    [grantID] is the id as parsed, empty when it is none. *)
Definition pin_checks (now : Z) (u : user) (grantID policy recordID : string) (t : requests) : result approval_error unit :=
  if String.eqb grantID "" || blank policy then Err ErrApprovalGrantRequired else
  if String.eqb (uOrg u) "" then Err ErrTenantScopeUnavailable else
  match t !! grantID with
  | None => Err ErrApprovalGrantRequired
  | Some r =>
      if negb (String.eqb (qOrg r) (uOrg u)) || negb (bool_decide (qKind r = KindPIN)) || negb (String.eqb (qConstraintKey r) policy) ||
         negb (bool_decide (qStatus r = StatusApplied)) || negb (String.eqb (qRequestedBy r) (uID u)) || negb (unused r) || too_old now r
      then Err ErrApprovalGrantRequired else
      if negb (String.eqb (qRecordID r) "") && negb (String.eqb recordID "") && negb (String.eqb (qRecordID r) recordID)
      then Err ErrApprovalGrantRequired else Ok tt
  end.
Definition pin_update (org grantID : string) (t : requests) : option requests :=
  update_where grantID (fun r => String.eqb (qOrg r) org && unused r) mark_consumed t.

(** [RequireSupervisor]: no policy, a caller who may authorize it alone, or a
    grant to redeem. *)
Definition RequireSupervisor (now : Z) (bypass : option (user -> string -> bool)) (u : user) (policy recordID grantID : string) (t : requests) :
    option (result approval_error unit) :=
  if String.eqb policy "" then None else
  match bypass with
  | Some b => if b u policy then None else Some (pin_checks now u grantID policy recordID t)
  | None => Some (pin_checks now u grantID policy recordID t)
  end.
End consume.
