(* ===== verification/ApprovalRuns.v ===== *)
(** * Approvals: any interleaving (dynamic/approvals.go,
    dynamic/approvals_pin.go, dynamic/approvals_consume.go)

    Any number of requesters, approvers, sweepers and cashiers on the table
    of [Approvals], statement by statement, each of which may die anywhere.
    What then holds of every decision, replay and grant. *)

From stdpp Require Import gmap.
From S2P Require Import Prelude GoStrings Tables GoHTTP GoJSON RecordExpr Approvals.

(** ** Runs *)

(** A decision whose checks passed; [vRoles] as the host resolved them. *)
Record verdict := mkVerdict {
  vID : string; vActor : user; vRoles : list string; vNow : Z; vReason : string; vApprove : bool
}.

(** A redemption and the time of its checks. *)
Inductive redemption : Type :=
| RConsume (read : Z) (i : ConsumeInput)
| RRedeem (read : Z) (u : user) (grantID policy recordID : string).
Definition mID (m : redemption) : string := match m with RConsume _ i => cApprovalID i | RRedeem _ _ g _ _ => g end.

(** What the verifier of a PIN is asked for. *)
Inductive pin_use : Type := UGrant (i : PINGrantInput) | UDecide (id reason : string).

Inductive approval_job : Type :=
| JCall (actor : user) (id reason : string) (approve : bool)
| JDecide (v : verdict) (row : ApprovalRequest)
| JReplay (id : string) (row : ApprovalRequest)
| JFinish (id : string) (row : ApprovalRequest) (out : result string json)
| JExpire (id : string)
| JVerify (process : nat) (requester : user) (for_ : pin_use)
| JGrant (verified : nat) (requester approver : user) (i : PINGrantInput)
| JSpend (m : redemption).

(** A PIN that was verified: organization, requester and supervisor, when,
    and the grant written on it. *)
Record pin_verified := mkPinVerified { nOrg : string; nRequester : string; nApprover : string; nAt : Z; nGrant : option string }.
Definition granted_on (id : string) (v : pin_verified) : pin_verified :=
  mkPinVerified (nOrg v) (nRequester v) (nApprover v) (nAt v) (Some id).

(** The table, the throttles of each process, what is in progress, and what
    was done so far: decisions, replays, redemptions, and the PINs verified,
    in order; a [JGrant] holds the number of its own. *)
Record approval_world := mkApprovalWorld {
  aTable : requests; aThrottles : gmap nat throttles; aJobs : list approval_job;
  aDecisions : list verdict; aReplays : list (string * ApprovalRequest); aSpent : list redemption;
  aPINs : list pin_verified
}.
Definition no_approvals : approval_world := mkApprovalWorld ∅ ∅ [] [] [] [] [].

(** [AvReplay] carries what the applier answered, [AvVerdict] what the host's
    verifier did. *)
Inductive approval_event : Type :=
| AvRequest (id : string) (now : Z) (i : ApprovalInput)
| AvCall (actor : user) (id reason : string) (approve : bool)
| AvLoad (k : nat) (now : Z) (resolved : option (list string))
| AvDecide (k : nat)
| AvReplay (k : nat) (out : result string json)
| AvFinish (k : nat)
| AvDue (now : Z) (id : string)
| AvExpire (k : nat)
| AvPIN (process : nat) (wired : bool) (now : Z) (requester : user) (pin : string) (for_ : pin_use)
| AvVerdict (k : nat) (now : Z) (answer : option user)
| AvGrant (k : nat) (id : string) (now : Z) (resolved : option (list string))
| AvCheck (m : redemption)
| AvSpend (k : nat) (now : Z)
| AvCrash (k : nat).

Definition with_jobs (js : list approval_job) (w : approval_world) : approval_world :=
  mkApprovalWorld (aTable w) (aThrottles w) js (aDecisions w) (aReplays w) (aSpent w) (aPINs w).
Definition with_table (t : requests) (js : list approval_job) (w : approval_world) : approval_world :=
  mkApprovalWorld t (aThrottles w) js (aDecisions w) (aReplays w) (aSpent w) (aPINs w).
Definition throttle_of (p : nat) (w : approval_world) : throttles := default ∅ (aThrottles w !! p).
Definition with_throttle (p : nat) (m : throttles) (js : list approval_job) (w : approval_world) : approval_world :=
  mkApprovalWorld (aTable w) (<[p := m]> (aThrottles w)) js (aDecisions w) (aReplays w) (aSpent w) (aPINs w).

Section runs.
Context `{UnicodeLower, GoFloat}.
Variable Sprint : json -> string.

(** What comes before the verifier is asked. *)
Definition pin_allowed (requester : user) (f : pin_use) (t : requests) : bool :=
  match f with
  | UGrant i => bool_decide (grant_checks i = None)
  | UDecide id _ => match loadApproval requester id t with Ok _ => true | Err _ => false end
  end.
Definition check_redemption (m : redemption) (t : requests) : result approval_error unit :=
  match m with
  | RConsume read i => consume_checks Sprint read i t
  | RRedeem read u grantID policy recordID => pin_checks read u grantID policy recordID t
  end.
Definition spend (now : Z) (m : redemption) (t : requests) : option requests :=
  match m with
  | RConsume _ i => consume_update now i t
  | RRedeem _ u grantID _ _ => pin_update (uOrg u) grantID t
  end.

(** The one caller of [RequireSupervisor], an action on a record, names the
    record (dynamic/action.go). *)
Definition record_named (m : redemption) : bool :=
  match m with RConsume _ _ => true | RRedeem _ _ _ _ recordID => negb (String.eqb recordID "") end.

(** One statement, answer or death; [None]: not possible here. *)
Definition exec (e : approval_event) (w : approval_world) : option approval_world :=
  let js := aJobs w in
  match e with
  | AvRequest id now i =>
      if bool_decide (aTable w !! id = None) && negb (bool_decide (inKind i = Some KindPIN)) then
        match RequestApproval now i with
        | Ok r => Some (with_table (<[id := r]> (aTable w)) js w)
        | Err _ => Some w
        end
      else None
  | AvCall actor id reason approve => Some (with_jobs (JCall actor id reason approve :: js) w)
  | AvLoad k now resolved =>
      match js !! k with
      | Some (JCall actor id reason approve) =>
          let roles := actorRoles resolved actor in
          Some (with_jobs match decide_ now actor roles id reason (aTable w) with
                          | Ok (row, reason) => <[k := JDecide (mkVerdict id actor roles now reason approve) row]> js
                          | Err ErrApprovalExpired => <[k := JExpire id]> js
                          | Err _ => delete k js
                          end w)
      | _ => None
      end
  | AvDecide k =>
      match js !! k with
      | Some (JDecide v row) =>
          let status := if vApprove v then StatusApproved else StatusRejected in
          match decision (qOrg row) (uID (vActor v)) (vNow v) (vReason v) status (vID v) (aTable w) with
          | Some t =>
              let row := moved row (qRecordID row) status (Some (uID (vActor v))) (Some (vNow v)) (vReason v) (qAppliedEventID row)
                           (qResult row) (qError row) in
              Some (mkApprovalWorld t (aThrottles w) (if vApprove v then <[k := JReplay (vID v) row]> js else delete k js)
                      (v :: aDecisions w) (aReplays w) (aSpent w) (aPINs w))
          | None => Some (with_jobs (delete k js) w)
          end
      | _ => None
      end
  | AvReplay k out =>
      match js !! k with
      | Some (JReplay id row) =>
          Some (mkApprovalWorld (aTable w) (aThrottles w) (<[k := JFinish id row out]> js) (aDecisions w)
                  ((id, row) :: aReplays w) (aSpent w) (aPINs w))
      | _ => None
      end
  | AvFinish k =>
      match js !! k with
      | Some (JFinish id row out) => Some (with_table (finish row out id (aTable w)) (delete k js) w)
      | _ => None
      end
  | AvDue now id =>
      match aTable w !! id with
      | Some r => if IsExpired now r then Some (with_jobs (JExpire id :: js) w) else None
      | None => None
      end
  | AvExpire k =>
      match js !! k with
      | Some (JExpire id) => Some (with_table (default (aTable w) (expire id (aTable w))) (delete k js) w)
      | _ => None
      end
  | AvPIN p wired now requester pin f =>
      if pin_allowed requester f (aTable w) then
        let '(r, m) := verifyPIN_start wired now requester pin (throttle_of p w) in
        Some (with_throttle p m match r with Ok _ => JVerify p requester f :: js | Err _ => js end w)
      else Some w
  | AvVerdict k now answer =>
      match js !! k with
      | Some (JVerify p requester f) =>
          let '(r, m) := verifyPIN_end now (uOrg requester, uID requester) answer (throttle_of p w) in
          match r with
          | Ok approver =>
              let next := match f with UGrant i => JGrant (length (aPINs w)) requester approver i | UDecide id reason => JCall approver id reason true end in
              Some (mkApprovalWorld (aTable w) (<[p := m]> (aThrottles w)) (<[k := next]> js) (aDecisions w) (aReplays w) (aSpent w)
                      (aPINs w ++ [mkPinVerified (uOrg requester) (uID requester) (uID approver) now None]))
          | Err _ => Some (with_throttle p m (delete k js) w)
          end
      | _ => None
      end
  | AvGrant k id now resolved =>
      match js !! k with
      | Some (JGrant verified requester approver i) =>
          if bool_decide (aTable w !! id = None) then
            Some (mkApprovalWorld (<[id := grant_row now requester approver (actorRoles resolved approver) i]> (aTable w)) (aThrottles w)
                    (delete k js) (aDecisions w) (aReplays w) (aSpent w) (alter (granted_on id) verified (aPINs w)))
          else None
      | _ => None
      end
  | AvCheck m =>
      if record_named m then
        match check_redemption m (aTable w) with
        | Ok _ => Some (with_jobs (JSpend m :: js) w)
        | Err _ => Some w
        end
      else None
  | AvSpend k now =>
      match js !! k with
      | Some (JSpend m) =>
          match spend now m (aTable w) with
          | Some t => Some (mkApprovalWorld t (aThrottles w) (delete k js) (aDecisions w) (aReplays w) (m :: aSpent w) (aPINs w))
          | None => Some (with_jobs (delete k js) w)
          end
      | _ => None
      end
  | AvCrash k => match js !! k with Some _ => Some (with_jobs (delete k js) w) | None => None end
  end.

Fixpoint run (es : list approval_event) (w : approval_world) : option approval_world :=
  match es with [] => Some w | e :: es => match exec e w with Some w => run es w | None => None end end.
End runs.

(** ** The invariant *)

Section inv.
Context `{UnicodeLower, GoFloat}.
Variable Sprint : json -> string.
Implicit Types (w : approval_world) (t : requests) (r : ApprovalRequest).

(** The actor may take this decision on this row. *)
Record entitled (v : verdict) r : Prop := mkEntitled {
  en_org : uOrg (vActor v) = qOrg r /\ qOrg r <> ""%string;
  en_role : rolesIntersect (vRoles v) (qRoles r) = true;
  en_time : forall e, qExpiresAt r = Some e -> vNow v < e;
  en_reason : qReasonRequired r = true -> vReason v <> ""%string
}.
(** The row tells who decided, when and why. *)
Definition told (v : verdict) r : Prop :=
  entitled v r /\ qDecidedBy r = Some (uID (vActor v)) /\ qDecidedAt r = Some (vNow v) /\ qReason r = vReason v.
(** A grant that may pay for this. *)
Definition pays (m : redemption) r : Prop :=
  qKind r = KindPIN /\ (exists d, qDecidedAt r = Some d /\ match m with RConsume read _ | RRedeem read _ _ _ _ => read - d <= PINGrantMaxAge end) /\
  match m with
  | RConsume _ i => qOrg r = cOrg i /\ qRequestedBy r = cRequestedBy i /\ qConstraintKey r = cPolicy i /\
                    anchoredElsewhere r i = false /\ context_covers Sprint r i = true
  | RRedeem _ u _ policy record => qOrg r = uOrg u /\ qRequestedBy r = uID u /\ qConstraintKey r = policy /\
                    (qRecordID r = "" \/ qRecordID r = record)%string
  end.

Definition decided_by (w : approval_world) (id : string) (approve : bool) r : Prop :=
  exists v, v ∈ aDecisions w /\ vID v = id /\ vApprove v = approve /\ told v r.
Definition row_ok w (id : string) r : Prop :=
  if decide (qKind r = KindPIN) then
    qStatus r = StatusApplied /\ qReason r <> ""%string /\
    qAppliedEventID r = (if decide (id ∈ map mID (aSpent w)) then "consumed" else "")%string
  else
    match qStatus r with
    | StatusPending | StatusExpired => id ∉ map vID (aDecisions w)
    | StatusRejected => decided_by w id false r
    | _ => decided_by w id true r
    end /\
    id ∉ map mID (aSpent w).

(** The requests whose approval someone is carrying out. *)
Definition carries (j : approval_job) : list string :=
  match j with JReplay id _ | JFinish id _ _ => [id] | _ => [] end.
Definition carrying (js : list approval_job) : list string := concat (map carries js).
Definition job_ok w (j : approval_job) : Prop :=
  match j with
  | JDecide v row => exists r, aTable w !! vID v = Some r /\ fixed row = fixed r /\ qKind r <> KindPIN /\ entitled v r
  | JReplay id row => id ∉ map fst (aReplays w) /\ exists r, aTable w !! id = Some r /\ fixed row = fixed r
  | JFinish id row _ => id ∈ map fst (aReplays w)
  | JVerify _ _ (UGrant i) => grant_checks i = None
  | JGrant _ _ _ i => grant_checks i = None
  | JSpend m => exists r, aTable w !! mID m = Some r /\ pays m r
  | _ => True
  end.

Record approval_inv w : Prop := mkApprovalInv {
  ai_rows : forall id r, aTable w !! id = Some r -> row_ok w id r;
  ai_decisions : NoDup (map vID (aDecisions w));
  ai_decided : forall v, v ∈ aDecisions w -> is_Some (aTable w !! vID v);
  ai_replays : NoDup (map fst (aReplays w));
  ai_replayed : forall id row, (id, row) ∈ aReplays w -> exists r, aTable w !! id = Some r /\ fixed row = fixed r /\
    (qStatus r = StatusApproved \/ qStatus r = StatusApplied \/ qStatus r = StatusFailed) /\ qKind r <> KindPIN;
  ai_spent : NoDup (map mID (aSpent w));
  ai_paid : forall m, m ∈ aSpent w -> exists r, aTable w !! mID m = Some r /\ pays m r;
  ai_carrying : NoDup (carrying (aJobs w));
  ai_approved : forall id, id ∈ carrying (aJobs w) -> exists r, aTable w !! id = Some r /\ qStatus r = StatusApproved /\ qKind r <> KindPIN;
  ai_jobs : forall j, j ∈ aJobs w -> job_ok w j
}.

(** ** Rows move forward *)

(** A step of one row: a decision, an expiry, the end of a replay, a
    redemption, or none. *)
Definition next r r' : Prop :=
  fixed r' = fixed r /\
  match qStatus r, qStatus r' with
  | StatusPending, StatusPending | StatusPending, StatusExpired => qDecidedBy r' = qDecidedBy r /\ qReason r' = qReason r
  | StatusPending, StatusApproved | StatusPending, StatusRejected => True
  | StatusApproved, StatusApproved | StatusApproved, StatusApplied | StatusApproved, StatusFailed =>
      qDecidedBy r' = qDecidedBy r /\ qDecidedAt r' = qDecidedAt r /\ qReason r' = qReason r
  | _, _ => r' = r \/ qKind r = KindPIN /\ r' = mark_consumed r
  end.
Lemma next_refl r : next r r.
Proof. split; [done|]. destruct (qStatus r); auto. Qed.

(** What the checks of a job rest on. *)
Definition keeps r r' : Prop :=
  fixed r' = fixed r /\ (qKind r = KindPIN -> qRecordID r' = qRecordID r /\ qDecidedAt r' = qDecidedAt r).
Lemma keeps_refl r : keeps r r.
Proof. done. Qed.

Lemma fixed_eq r r' :
  fixed r' = fixed r ->
  qOrg r' = qOrg r /\ qAddonKey r' = qAddonKey r /\ qModelKey r' = qModelKey r /\ qConstraintKey r' = qConstraintKey r /\ qKind r' = qKind r /\
  qRequestedBy r' = qRequestedBy r /\ qExpiresAt r' = qExpiresAt r /\ qRoles r' = qRoles r /\ qReasonRequired r' = qReasonRequired r /\
  qPayload r' = qPayload r.
Proof. intros [= ]. split_and!; assumption. Qed.
Lemma entitled_fixed v r r' : fixed r' = fixed r -> entitled v r -> entitled v r'.
Proof.
  intros (Ho & _ & _ & _ & _ & _ & He & Hr & Hq & _)%fixed_eq [? ? ? ?]. by constructor; rewrite ?Ho, ?He, ?Hr, ?Hq.
Qed.
Lemma pays_keeps m r r' : keeps r r' -> pays m r -> pays m r'.
Proof.
  intros [Hf Hpin] (Hk & (d & Hd & Hage) & Hm). destruct (Hpin Hk) as [Hrec Hat].
  apply fixed_eq in Hf as (Ho & Ha & Hmo & Hc & Hki & Hby & _ & _ & _ & Hp).
  split; [congruence|]. split; [exists d; by rewrite Hat|]. destruct m as [read i|read u g policy rec]; cbn in *.
  - unfold anchoredElsewhere, context_covers, recorded_context in *. by rewrite Hrec, Ho, Ha, Hmo, Hc, Hby, Hp.
  - by rewrite Hrec, Ho, Hc, Hby.
Qed.

Definition table_keeps t t' : Prop := forall id r, t !! id = Some r -> exists r', t' !! id = Some r' /\ keeps r r'.
Lemma table_keeps_refl t : table_keeps t t.
Proof. intros id r Hr. by exists r. Qed.
Lemma table_keeps_insert t id r' : (forall r, t !! id = Some r -> keeps r r') -> table_keeps t (<[id := r']> t).
Proof.
  intros Hk i r Hr. destruct (decide (id = i)) as [->|Hne].
  - exists r'. rewrite lookup_insert_eq. auto.
  - exists r. by rewrite lookup_insert_ne.
Qed.

Lemma update_where_Some id ok f t t' :
  update_where id ok f t = Some t' <-> exists r, t !! id = Some r /\ ok r = true /\ t' = <[id := f r]> t.
Proof.
  unfold update_where. destruct (t !! id) as [r|]; [destruct (ok r) eqn:E|]; split; try done.
  - intros [= <-]. by exists r.
  - by intros (? & [= <-] & _ & ->).
  - intros (? & [= <-] & ? & _). congruence.
  - by intros (? & ? & _).
Qed.

Lemma row_ok_logs w w' id r :
  aDecisions w' = aDecisions w -> aSpent w' = aSpent w -> row_ok w id r -> row_ok w' id r.
Proof.
  intros Hd Hs. unfold row_ok, decided_by. by rewrite Hd, Hs.
Qed.
Lemma job_ok_kept w w' j :
  table_keeps (aTable w) (aTable w') -> aReplays w' = aReplays w -> job_ok w j -> job_ok w' j.
Proof.
  intros Ht Hr. destruct j; cbn [job_ok]; try done.
  - intros (r & Hl & Hf & Hk & He). destruct (Ht _ _ Hl) as (r' & Hl' & Hkeep). exists r'. destruct Hkeep as [Hf' _].
    split_and!; [done|congruence| |by apply (entitled_fixed v r)]. apply fixed_eq in Hf' as (_ & _ & _ & _ & -> & _). done.
  - rewrite Hr. intros (Hn & r & Hl & Hf). split; [done|]. destruct (Ht _ _ Hl) as (r' & Hl' & Hf' & _). exists r'. split; congruence.
  - by rewrite Hr.
  - intros (r & Hl & Hm). destruct (Ht _ _ Hl) as (r' & Hl' & Hkeep). exists r'. split; [done|]. by apply (pays_keeps m r).
Qed.

Definition table_next t t' : Prop := forall id r, t !! id = Some r -> exists r', t' !! id = Some r' /\ next r r'.
Lemma table_next_refl t : table_next t t.
Proof. intros id r Hr. exists r. split; [done|apply next_refl]. Qed.
Lemma table_next_insert t id r' : (forall r, t !! id = Some r -> next r r') -> table_next t (<[id := r']> t).
Proof.
  intros Hk i r Hr. destruct (decide (id = i)) as [->|Hne].
  - exists r'. rewrite lookup_insert_eq. auto.
  - exists r. rewrite lookup_insert_ne by done. split; [done|apply next_refl].
Qed.
Lemma next_keeps w id r r' : row_ok w id r -> next r r' -> keeps r r'.
Proof.
  intros Hrow [Hf Hs]. split; [done|]. intros Hk. unfold row_ok in Hrow. rewrite decide_True in Hrow by done.
  destruct Hrow as (E & _). rewrite E in Hs. by destruct Hs as [->|[_ ->]].
Qed.
Definition carried_out (s : Status) : Prop := s = StatusApproved \/ s = StatusApplied \/ s = StatusFailed.
Lemma next_carried r r' : next r r' -> carried_out (qStatus r) -> carried_out (qStatus r') /\ qKind r' = qKind r.
Proof.
  intros [Hf Hs] Hc. split; [|by apply fixed_eq in Hf as (_ & _ & _ & _ & ? & _)]. unfold carried_out in *.
  destruct (qStatus r) eqn:E; try by destruct Hc as [|[|]].
  - destruct (qStatus r') eqn:E'; auto; destruct Hs as [->|[_ ->]]; cbn in E'; congruence.
  - destruct Hs as [->|[_ ->]]; cbn; rewrite E; auto.
  - destruct Hs as [->|[_ ->]]; cbn; rewrite E; auto.
Qed.

(** ** Jobs *)

Lemma carrying_at js k j :
  js !! k = Some j ->
  carrying js ≡ₚ carries j ++ carrying (delete k js) /\ (forall j', carrying (<[k := j']> js) ≡ₚ carries j' ++ carrying (delete k js)) /\
  (forall x, x ∈ delete k js -> x ∈ js) /\ forall j' x, x ∈ <[k := j']> js -> x = j' \/ x ∈ delete k js.
Proof.
  intros (l1 & l2 & -> & Hi & Hd)%list_split_at. rewrite Hd.
  assert (forall l j l', carrying (l ++ j :: l') ≡ₚ carries j ++ carrying (l ++ l')) as Hperm.
  { intros l x l'. unfold carrying. rewrite !map_app, !concat_app. cbn. solve_Permutation. }
  split_and!.
  - apply Hperm.
  - intros j'. rewrite Hi. apply Hperm.
  - intros x. rewrite !elem_of_app, elem_of_cons. tauto.
  - intros j' x. rewrite Hi, !elem_of_app, !elem_of_cons. tauto.
Qed.
Lemma carries_in js j id : j ∈ js -> id ∈ carries j -> id ∈ carrying js.
Proof. intros (l1 & l2 & ->)%list_elem_of_split Hid. unfold carrying. rewrite map_app, concat_app. set_solver. Qed.

(** ** One step *)

Lemma row_ok_other w w' id i r :
  i <> id ->
  (aDecisions w' = aDecisions w \/ exists v, vID v = id /\ aDecisions w' = v :: aDecisions w) ->
  (aSpent w' = aSpent w \/ exists m, mID m = id /\ aSpent w' = m :: aSpent w) ->
  row_ok w i r -> row_ok w' i r.
Proof.
  intros Hne Hd Hs.
  assert (i ∈ map vID (aDecisions w') <-> i ∈ map vID (aDecisions w)) as Hd1.
  { destruct Hd as [->|(v & Hv & ->)]; [done|]. cbn. rewrite elem_of_cons. naive_solver. }
  assert (i ∈ map mID (aSpent w') <-> i ∈ map mID (aSpent w)) as Hs1.
  { destruct Hs as [->|(v & Hv & ->)]; [done|]. cbn. rewrite elem_of_cons. naive_solver. }
  assert (forall b, decided_by w i b r -> decided_by w' i b r) as Hby.
  { intros b (v & Hv & ?). exists v. split; [|done]. destruct Hd as [->|(u & _ & ->)]; [done|]. by right. }
  unfold row_ok. destruct (decide (qKind r = KindPIN)).
  - intros (? & ? & Ha). split_and!; [done..|]. rewrite Ha. by destruct (decide _), (decide _); naive_solver.
  - intros [Hst Hsp]. split; [|by rewrite Hs1]. destruct (qStatus r); rewrite ?Hd1; auto.
Qed.

Lemma inv_step w w' id :
  approval_inv w ->
  (forall i, i <> id -> aTable w' !! i = aTable w !! i) -> table_next (aTable w) (aTable w') ->
  (aDecisions w' = aDecisions w \/ exists v, vID v = id /\ aDecisions w' = v :: aDecisions w /\ id ∉ map vID (aDecisions w) /\ is_Some (aTable w !! id)) ->
  aReplays w' = aReplays w ->
  (aSpent w' = aSpent w \/ exists m r, mID m = id /\ aSpent w' = m :: aSpent w /\ id ∉ map mID (aSpent w) /\ aTable w !! id = Some r /\ pays m r) ->
  (forall r, aTable w' !! id = Some r -> row_ok w' id r) ->
  NoDup (carrying (aJobs w')) ->
  (forall i, i ∈ carrying (aJobs w') -> (i <> id /\ i ∈ carrying (aJobs w)) \/
     exists r, aTable w' !! i = Some r /\ qStatus r = StatusApproved /\ qKind r <> KindPIN) ->
  (forall j, j ∈ aJobs w' -> j ∈ aJobs w \/ job_ok w' j) ->
  approval_inv w'.
Proof.
  intros [Hrows Hdec Hdecd Hrep Hrepd Hsp Hpaid Hcar Happ Hjobs] Ht Hnext Hd Hr Hs Hrow Hnd Hc Hj.
  assert (table_keeps (aTable w) (aTable w')) as Hkeep.
  { intros i r Hi. destruct (Hnext _ _ Hi) as (r' & Hi' & Hn). exists r'. split; [done|]. eapply next_keeps; [by apply Hrows|done]. }
  constructor; try done.
  - intros i r Hi. destruct (decide (i = id)) as [->|Hne]; [by apply Hrow|].
    apply (row_ok_other w w' id i r Hne); [naive_solver..|]. apply Hrows. by rewrite <- Ht.
  - destruct Hd as [->|(v & Hv & -> & Hn & _)]; [done|]. cbn. rewrite Hv. by constructor.
  - intros v Hv. assert (is_Some (aTable w !! vID v)) as [r Hi].
    { destruct Hd as [Hd|(u & Hu & Hd & _ & Hi)]; rewrite Hd in Hv; [auto|]. apply elem_of_cons in Hv as [->|Hv]; [by rewrite Hu|auto]. }
    destruct (Hnext _ _ Hi) as (r' & ? & _). by exists r'.
  - by rewrite Hr.
  - intros i row. rewrite Hr. intros Hin. destruct (Hrepd i row Hin) as (r & Hi & Hf & Hst & Hk).
    destruct (Hnext _ _ Hi) as (r' & Hi' & Hn). exists r'. destruct (next_carried r r' Hn Hst) as [? Hk']. destruct Hn as [Hf' _].
    split_and!; try done; congruence.
  - destruct Hs as [->|(m & r & Hm & -> & Hn & _)]; [done|]. cbn. rewrite Hm. by constructor.
  - assert (forall m r, aTable w !! mID m = Some r -> pays m r -> exists r', aTable w' !! mID m = Some r' /\ pays m r') as Hmono.
    { intros m r Hi Hm. destruct (Hkeep _ _ Hi) as (r' & Hi' & Hk). exists r'. split; [done|]. by apply (pays_keeps m r). }
    intros m Hm. assert (m ∈ aSpent w \/ exists r, aTable w !! mID m = Some r /\ pays m r) as [Hm'|(r & ? & ?)]; [|..].
    + destruct Hs as [Hs|(m' & r & Hid & Hs & _ & Hi & Hpay)]; rewrite Hs in Hm; [by left|].
      apply elem_of_cons in Hm as [->|Hm]; [right; exists r; by rewrite Hid|by left].
    + destruct (Hpaid m Hm') as (r & ? & ?). by apply (Hmono m r).
    + by apply (Hmono m r).
  - intros i Hi. destruct (Hc i Hi) as [[Hne Hin]|?]; [|done]. destruct (Happ i Hin) as (r & Hr1 & ?). exists r. by rewrite Ht.
  - intros j Hin. destruct (Hj j Hin) as [Hj'|?]; [|done]. apply (job_ok_kept w w'); auto.
Qed.

(** Nothing but the jobs, the throttles and the PINs verified. *)
Lemma inv_jobs w w' :
  approval_inv w -> aTable w' = aTable w -> aDecisions w' = aDecisions w -> aReplays w' = aReplays w -> aSpent w' = aSpent w ->
  NoDup (carrying (aJobs w')) -> (forall i, i ∈ carrying (aJobs w') -> i ∈ carrying (aJobs w)) ->
  (forall j, j ∈ aJobs w' -> j ∈ aJobs w \/ job_ok w' j) -> approval_inv w' /\ table_next (aTable w) (aTable w').
Proof.
  intros Hw Ht Hd Hr Hs Hnd Hc Hj. rewrite Ht. split; [|apply table_next_refl].
  apply (inv_step w w' "" Hw); rewrite ?Ht; try done; [by left..|apply table_next_refl|by left|by left| |].
  - intros r Hi. apply (row_ok_logs w w'); try done. by apply Hw.
  - intros i Hi. right. apply Hw. by apply Hc.
Qed.

(** ** What the checks establish *)

Lemma RequestApproval_row now i r :
  RequestApproval now i = Ok r -> inKind i <> Some KindPIN -> qStatus r = StatusPending /\ qKind r <> KindPIN.
Proof.
  unfold RequestApproval. destruct (String.eqb _ _); [done|]. destruct (blank _); [done|]. destruct (normalizeRoles _); [done|].
  intros [= <-] Hk. split; [done|]. cbn. destruct (inKind i) as [[]|]; done.
Qed.
Lemma decide_entitled now actor roles id reason t row reason' b :
  decide_ now actor roles id reason t = Ok (row, reason') ->
  t !! id = Some row /\ qStatus row = StatusPending /\ entitled (mkVerdict id actor roles now reason' b) row.
Proof.
  unfold decide_, loadApproval. destruct (String.eqb_spec (uOrg actor) "") as [|Horg]; [done|].
  destruct (t !! id) as [r|]; [|done]. destruct (String.eqb_spec (qOrg r) (uOrg actor)) as [Ho|]; [|done]. cbn [mbind result_bind].
  destruct (bool_decide_reflect (qStatus r = StatusPending)) as [Hp|]; [|done]. cbn [negb].
  unfold IsExpired, canDecide. rewrite bool_decide_true by done. cbn [andb].
  destruct (match qExpiresAt r with Some e => e <=? now | None => false end) eqn:Ee; [done|].
  destruct (rolesIntersect roles (qRoles r)) eqn:Er; [|done]. cbn [negb].
  destruct (qReasonRequired r && String.eqb (TrimSpace reason) "") eqn:Eq; [done|]. intros [= <- <-].
  split_and!; try done. constructor; cbn; try done; [split; congruence| |].
  - intros e He. rewrite He in Ee. by apply Z.leb_gt.
  - intros Hq. rewrite Hq in Eq. by destruct (String.eqb_spec (TrimSpace reason) "").
Qed.
Lemma check_pays m t u : record_named m = true -> check_redemption Sprint m t = Ok u -> exists r, t !! mID m = Some r /\ pays m r.
Proof.
  intros Hn. destruct m as [read i|read us g policy rec]; cbn [check_redemption mID].
  - unfold consume_checks. destruct (String.eqb _ _); [done|]. destruct (_ || _); [done|]. destruct (_ =? 0)%nat; [done|].
    destruct (t !! cApprovalID i) as [r|]; [|done]. destruct (negb (String.eqb (qOrg r) _) || _) eqn:E1; [done|].
    destruct (negb (bool_decide _) || _) eqn:E2; [done|]. destruct (_ || bool_decide _) eqn:E3; [done|]. destruct (negb (unused r)); [done|].
    destruct (too_old read r) eqn:E4; [done|]. destruct (anchoredElsewhere r i) eqn:E5; [done|].
    destruct (context_covers Sprint r i) eqn:E6; [|done]. intros _. exists r. split; [done|].
    apply orb_false_iff in E1 as [Ho%negb_false_iff%String.eqb_eq Hb%negb_false_iff%String.eqb_eq],
      E2 as [Hk%negb_false_iff%bool_decide_eq_true Hc%negb_false_iff%String.eqb_eq].
    split; [done|]. split; [|done]. unfold too_old in E4. destruct (qDecidedAt r) as [d|]; [|done]. exists d. split; [done|].
    by apply Z.ltb_ge.
  - unfold pin_checks. destruct (_ || _); [done|]. destruct (String.eqb _ _); [done|]. destruct (t !! g) as [r|]; [|done].
    destruct (negb (String.eqb (qOrg r) _) || _ || _ || _ || _ || _ || _) eqn:E1; [done|].
    destruct (negb (String.eqb (qRecordID r) "") && negb (String.eqb rec "") && _) eqn:E2; [done|]. intros _. exists r. split; [done|].
    rewrite !orb_false_iff in E1. destruct E1 as ((((((Ho & Hk) & Hc) & _) & Hb) & _) & Hold).
    apply negb_false_iff, String.eqb_eq in Ho, Hc, Hb. apply negb_false_iff, bool_decide_eq_true in Hk.
    split; [done|]. split.
    + unfold too_old in Hold. destruct (qDecidedAt r) as [d|]; [|done]. exists d. split; [done|]. by apply Z.ltb_ge.
    + cbn in Hn. split_and!; try done. destruct (String.eqb rec ""); [done|]. destruct (String.eqb_spec (qRecordID r) ""), (String.eqb_spec (qRecordID r) rec); auto; done.
Qed.
Lemma spend_updates now m t t' :
  spend now m t = Some t' -> exists r, t !! mID m = Some r /\ unused r = true /\ t' = <[mID m := mark_consumed r]> t.
Proof.
  destruct m as [read i|read us g policy rec]; cbn [spend mID]; intros (r & Hr & Hok & ->)%update_where_Some; exists r; split_and!; try done.
  - unfold redeemable in Hok. by apply andb_true_iff in Hok as [_ ?].
  - by apply andb_true_iff in Hok as [_ ?].
Qed.

(** ** Every event keeps the invariant *)

Definition steps_to w w' : Prop := approval_inv w' /\ table_next (aTable w) (aTable w').

(** Its job ends, or becomes one that carries nothing. *)
Lemma inv_leave w w' k j :
  approval_inv w -> aJobs w !! k = Some j ->
  aTable w' = aTable w -> aDecisions w' = aDecisions w -> aReplays w' = aReplays w -> aSpent w' = aSpent w ->
  (aJobs w' = delete k (aJobs w) \/ exists j', aJobs w' = <[k := j']> (aJobs w) /\ carries j' = [] /\ job_ok w' j') -> steps_to w w'.
Proof.
  intros Hw Hk Ht Hd Hr Hs Hj. destruct (carrying_at _ _ _ Hk) as (Hc & Hci & Hdel & Hins).
  pose proof (ai_carrying w Hw) as Hnd. rewrite Hc in Hnd. apply NoDup_app in Hnd as (_ & _ & Hnd).
  apply (inv_jobs w w' Hw); try done.
  - destruct Hj as [->|(j' & -> & Hn & _)]; [done|]. by rewrite Hci, Hn.
  - intros i Hi. rewrite Hc. apply elem_of_app. right. destruct Hj as [Hj|(j' & Hj & Hn & _)]; rewrite Hj in Hi; [done|]. by rewrite Hci, Hn in Hi.
  - intros x Hx. destruct Hj as [Hj|(j' & Hj & _ & Hok)]; rewrite Hj in Hx; [left; auto|].
    destruct (Hins _ _ Hx) as [->|?]; [by right|left; auto].
Qed.
(** A job starts. *)
Lemma inv_starts w w' j :
  approval_inv w -> aTable w' = aTable w -> aDecisions w' = aDecisions w -> aReplays w' = aReplays w -> aSpent w' = aSpent w ->
  (aJobs w' = aJobs w \/ aJobs w' = j :: aJobs w) -> carries j = [] -> job_ok w' j -> steps_to w w'.
Proof.
  intros Hw Ht Hd Hr Hs Hj Hn Hok. apply (inv_jobs w w' Hw); try done.
  - destruct Hj as [-> | ->]; unfold carrying; cbn; rewrite ?Hn; apply Hw.
  - intros i. destruct Hj as [-> | ->]; unfold carrying; cbn; by rewrite ?Hn.
  - intros x. destruct Hj as [-> | ->]; [by left|]. intros [->|?]%elem_of_cons; [by right|by left].
Qed.
(** A row appears. *)
Lemma inv_insert w js pins id r :
  approval_inv w -> aTable w !! id = None -> row_ok w id r ->
  NoDup (carrying js) -> (forall i, i ∈ carrying js -> i ∈ carrying (aJobs w)) -> (forall j, j ∈ js -> j ∈ aJobs w) ->
  steps_to w (mkApprovalWorld (<[id := r]> (aTable w)) (aThrottles w) js (aDecisions w) (aReplays w) (aSpent w) pins).
Proof.
  intros Hw Hid Hrow Hnd Hc Hj. assert (table_next (aTable w) (<[id := r]> (aTable w))) as Hnext.
  { apply table_next_insert. congruence. }
  split; [|done]. apply (inv_step w _ id Hw); cbn [aTable aDecisions aReplays aSpent aJobs]; try done; try (by left).
  - intros i Hi. by apply lookup_insert_ne.
  - intros q. rewrite lookup_insert_eq. intros [= <-]. by apply (row_ok_logs w).
  - intros i Hi. left. split; [|auto]. intros ->. destruct (ai_approved w Hw _ (Hc _ Hi)) as (q & ? & _). congruence.
  - intros j Hin. left. auto.
Qed.
Lemma unused_id w id : approval_inv w -> aTable w !! id = None -> id ∉ map mID (aSpent w).
Proof. intros Hw Hid (m & -> & Hm)%list_elem_of_fmap. destruct (ai_paid w Hw m Hm) as (r & ? & _). congruence. Qed.

Lemma inv_decide w w' k v row :
  approval_inv w -> aJobs w !! k = Some (JDecide v row) -> exec Sprint (AvDecide k) w = Some w' -> steps_to w w'.
Proof.
  intros Hw Hk He. cbn [exec] in He. rewrite Hk in He. unfold decision in He.
  destruct (update_where _ _ _ _) as [t|] eqn:Eu; cbv zeta in He; injection He as <-.
  2:{ apply (inv_leave w _ k _ Hw Hk); try done. by left. }
  apply update_where_Some in Eu as (r & Hr & [_ Hst%bool_decide_eq_true]%andb_true_iff & ->).
  pose proof (ai_jobs w Hw _ (list_elem_of_lookup_2 _ _ _ Hk)) as (q & Hq & Hf & Hpin & Hen). rewrite Hr in Hq. injection Hq as <-.
  pose proof (ai_rows w Hw _ _ Hr) as Hrow. unfold row_ok in Hrow. rewrite decide_False, Hst in Hrow by done. destruct Hrow as [Hnew Hsp].
  destruct (carrying_at _ _ _ Hk) as (Hc & Hci & Hdel & Hins). cbn in Hc.
  assert (vID v ∉ carrying (aJobs w)) as Hnc. { intros Hin. destruct (ai_approved w Hw _ Hin) as (q & ? & ? & _). congruence. }
  set (r' := moved _ _ _ _ _ _ _ _ _).
  assert (table_next (aTable w) (<[vID v := r']> (aTable w))) as Hnext.
  { apply table_next_insert. intros q Hq. replace q with r by congruence. split; [done|]. rewrite Hst. unfold r'. cbn. by destruct (vApprove v). }
  split; [|done]. apply (inv_step w _ (vID v) Hw); cbn [aTable aDecisions aReplays aSpent aPINs aJobs]; try done; try (by left).
  - intros i Hi. by apply lookup_insert_ne.
  - right. exists v. by rewrite Hr.
  - intros q. rewrite lookup_insert_eq. intros [= <-]. unfold row_ok. rewrite decide_False by done. split; [|done].
    assert (forall w1 b, aDecisions w1 = v :: aDecisions w -> vApprove v = b -> decided_by w1 (vID v) b r') as Hby.
    { intros w1 b Hd Hb. exists v. rewrite Hd. split_and!; [by left|done|done|]. split; [|done]. by apply (entitled_fixed v r). }
    unfold r' at 1. cbn [qStatus moved]. destruct (vApprove v) eqn:Ev; by apply Hby.
  - destruct (vApprove v); [rewrite Hci; cbn; constructor; [by rewrite <- Hc|]|]; rewrite <- Hc; apply Hw.
  - intros i Hi. assert (i = vID v /\ vApprove v = true \/ i ∈ carrying (aJobs w)) as [[-> Hv]|Hin].
    { destruct (vApprove v); [rewrite Hci in Hi; cbn in Hi; apply elem_of_cons in Hi as [->|Hi]; [by left|]|]; right; by rewrite Hc. }
    + right. exists r'. rewrite lookup_insert_eq. unfold r'. cbn. rewrite Hv. done.
    + left. split; [|done]. by intros ->.
  - intros j Hj. destruct (vApprove v); [|left; auto]. destruct (Hins _ _ Hj) as [->|?]; [|left; auto]. right. split; cbn [aReplays aTable].
    + intros ((i & q) & Hi & Hin)%list_elem_of_fmap. destruct (ai_replayed w Hw _ _ Hin) as (q' & Hq' & _ & Hcarried & _).
      cbn in Hi. rewrite <- Hi, Hr in Hq'. injection Hq' as <-. rewrite Hst in Hcarried. by destruct Hcarried as [|[|]].
    + exists r'. rewrite lookup_insert_eq. done.
Qed.
Lemma inv_replay w w' k id row out :
  approval_inv w -> aJobs w !! k = Some (JReplay id row) -> exec Sprint (AvReplay k out) w = Some w' -> steps_to w w'.
Proof.
  intros Hw Hk He. cbn [exec] in He. rewrite Hk in He. injection He as <-. split; [|apply table_next_refl].
  pose proof (ai_jobs w Hw _ (list_elem_of_lookup_2 _ _ _ Hk)) as (Hnew & r & Hr & Hf).
  destruct (carrying_at _ _ _ Hk) as (Hc & Hci & Hdel & Hins).
  assert (id ∈ carrying (aJobs w)) as Hin by (rewrite Hc; by left).
  destruct (ai_approved w Hw _ Hin) as (q & Hq & Hst & Hpin). rewrite Hr in Hq. injection Hq as <-.
  assert (carrying (<[k := JFinish id row out]> (aJobs w)) ≡ₚ carrying (aJobs w)) as Hsame by by rewrite Hci, Hc.
  destruct Hw as [Hrows Hdec Hdecd Hrep Hrepd Hsp Hpaid Hcar Happ Hjobs].
  constructor; cbn [aTable aDecisions aReplays aSpent aPINs aJobs]; try done.
  - by constructor.
  - intros i q [[= -> ->]|Hi]%elem_of_cons; [|by apply Hrepd]. exists r. auto.
  - by rewrite Hsame.
  - intros i. rewrite Hsame. apply Happ.
  - assert (id ∉ carrying (delete k (aJobs w))) as Hout by (rewrite Hc in Hcar; cbn in Hcar; by apply NoDup_cons in Hcar as [? _]).
    intros j Hj. destruct (Hins _ _ Hj) as [->|Hj']; [by left|]. specialize (Hjobs j (Hdel _ Hj')).
    destruct j as [| |i q|i q o| | | |]; try done; cbn [job_ok aReplays] in *.
    + destruct Hjobs as [Hn Hex]. split; [|done]. cbn. rewrite elem_of_cons. intros [->|?]; [|done].
      apply Hout, (carries_in _ _ id Hj'). by left.
    + cbn. by right.
Qed.
Lemma finish_row row out id t r :
  t !! id = Some r ->
  exists r', finish row out id t = <[id := r']> t /\ fixed r' = fixed r /\ (qStatus r' = StatusApplied \/ qStatus r' = StatusFailed) /\
    qDecidedBy r' = qDecidedBy r /\ qDecidedAt r' = qDecidedAt r /\ qReason r' = qReason r.
Proof.
  intros Hr. unfold finish, update_where. rewrite Hr. eexists. split; [reflexivity|]. destruct out; cbn; auto 10.
Qed.
Lemma told_fixed v r r' :
  fixed r' = fixed r -> qDecidedBy r' = qDecidedBy r -> qDecidedAt r' = qDecidedAt r -> qReason r' = qReason r -> told v r -> told v r'.
Proof. intros Hf Hb Ha Hq (He & ? & ? & ?). split; [by apply (entitled_fixed v r)|]. split_and!; congruence. Qed.
Lemma fixed_kind r r' : fixed r' = fixed r -> qKind r' = qKind r.
Proof. by intros (_ & _ & _ & _ & ? & _)%fixed_eq. Qed.

Lemma inv_finish w w' k id row out :
  approval_inv w -> aJobs w !! k = Some (JFinish id row out) -> exec Sprint (AvFinish k) w = Some w' -> steps_to w w'.
Proof.
  intros Hw Hk He. cbn [exec] in He. rewrite Hk in He. injection He as <-.
  destruct (carrying_at _ _ _ Hk) as (Hc & _ & Hdel & _). pose proof (ai_carrying w Hw) as Hnd. rewrite Hc in Hnd.
  apply NoDup_app in Hnd as (_ & Hout & Hnd). assert (id ∈ carrying (aJobs w)) as Hin by (rewrite Hc; by left).
  destruct (ai_approved w Hw _ Hin) as (r & Hr & Hst & Hpin). destruct (finish_row row out id _ _ Hr) as (r' & -> & Hf & Hs & Hb & Ha & Hq).
  assert (table_next (aTable w) (<[id := r']> (aTable w))) as Hnext.
  { apply table_next_insert. intros q Hq'. replace q with r by congruence. split; [done|]. rewrite Hst. by destruct Hs as [-> | ->]. }
  split; [|done]. apply (inv_step w _ id Hw); cbn [aTable aDecisions aReplays aSpent aPINs aJobs with_table]; try done; try (by left).
  - intros i Hi. by apply lookup_insert_ne.
  - intros q. rewrite lookup_insert_eq. intros [= <-]. pose proof (ai_rows w Hw _ _ Hr) as Hrow. unfold row_ok in *.
    rewrite (fixed_kind _ _ Hf). rewrite decide_False in * by done. rewrite Hst in Hrow. destruct Hrow as [(v & Hv & Hi & Ht & Htold) Hsp].
    assert (told v r') as Htold' by by apply (told_fixed v r). split; [|done]. by destruct Hs as [-> | ->]; exists v.
  - intros i Hi. left. split; [|rewrite Hc; apply elem_of_app; by right]. intros ->. apply (Hout id); [by left|done].
  - intros j Hj. left. auto.
Qed.
Lemma inv_expire w w' k id :
  approval_inv w -> aJobs w !! k = Some (JExpire id) -> exec Sprint (AvExpire k) w = Some w' -> steps_to w w'.
Proof.
  intros Hw Hk He. cbn [exec] in He. rewrite Hk in He. injection He as <-.
  destruct (carrying_at _ _ _ Hk) as (Hc & _ & Hdel & _). cbn in Hc.
  destruct (expire id (aTable w)) as [t|] eqn:Eu.
  2:{ apply (inv_leave w _ k _ Hw Hk); try done. by left. }
  apply update_where_Some in Eu as (r & Hr & Hst%bool_decide_eq_true & ->). set (r' := moved _ _ _ _ _ _ _ _ _).
  change (steps_to w (with_table (<[id := r']> (aTable w)) (delete k (aJobs w)) w)).
  assert (table_next (aTable w) (<[id := r']> (aTable w))) as Hnext.
  { apply table_next_insert. intros q Hq. replace q with r by congruence. split; [done|]. by rewrite Hst. }
  split; [|done]. apply (inv_step w _ id Hw); cbn [aTable aDecisions aReplays aSpent aPINs aJobs with_table]; try done; try (by left).
  - intros i Hi. by apply lookup_insert_ne.
  - intros q. rewrite lookup_insert_eq. intros [= <-]. pose proof (ai_rows w Hw _ _ Hr) as Hrow. unfold row_ok in *.
    rewrite Hst in Hrow. unfold r'. cbn. by destruct (decide (qKind r = KindPIN)); [destruct Hrow as (? & _)|].
  - rewrite <- Hc. apply Hw.
  - intros i. rewrite <- Hc. intros Hi. left. split; [|done]. intros ->. destruct (ai_approved w Hw _ Hi) as (q & ? & ? & _). congruence.
  - intros j Hj. left. auto.
Qed.
Lemma inv_spend w w' k now m :
  approval_inv w -> aJobs w !! k = Some (JSpend m) -> exec Sprint (AvSpend k now) w = Some w' -> steps_to w w'.
Proof.
  intros Hw Hk He. cbn [exec] in He. rewrite Hk in He. destruct (carrying_at _ _ _ Hk) as (Hc & _ & Hdel & _). cbn in Hc.
  destruct (spend now m (aTable w)) as [t|] eqn:Eu; injection He as <-.
  2:{ apply (inv_leave w _ k _ Hw Hk); try done. by left. }
  apply spend_updates in Eu as (r & Hr & Hun%String.eqb_eq & ->).
  pose proof (ai_jobs w Hw _ (list_elem_of_lookup_2 _ _ _ Hk)) as (q & Hq & Hpay). rewrite Hr in Hq. injection Hq as <-.
  pose proof Hpay as (Hpin & _). pose proof (ai_rows w Hw _ _ Hr) as Hrow. unfold row_ok in Hrow. rewrite decide_True in Hrow by done.
  destruct Hrow as (Hst & Hq & Ha).
  assert (mID m ∉ map mID (aSpent w)) as Hnew. { rewrite Hun in Ha. by destruct (decide (mID m ∈ map mID (aSpent w))). }
  assert (table_next (aTable w) (<[mID m := mark_consumed r]> (aTable w))) as Hnext.
  { apply table_next_insert. intros q Hq'. replace q with r by congruence. split; [done|]. rewrite Hst. by right. }
  split; [|done]. apply (inv_step w _ (mID m) Hw); cbn [aTable aDecisions aReplays aSpent aPINs aJobs]; try done; try (by left).
  - intros i Hi. by apply lookup_insert_ne.
  - right. by exists m, r.
  - intros q. rewrite lookup_insert_eq. intros [= <-]. unfold row_ok. cbn. rewrite decide_True by done. split_and!; try done.
    rewrite decide_True; [done|by left].
  - rewrite <- Hc. apply Hw.
  - intros i. rewrite <- Hc. intros Hi. left. split; [|done]. intros ->. destruct (ai_approved w Hw _ Hi) as (q & ? & ? & ?). congruence.
  - intros j Hj. left. auto.
Qed.
Lemma inv_request w w' id now i :
  approval_inv w -> exec Sprint (AvRequest id now i) w = Some w' -> steps_to w w'.
Proof.
  intros Hw He. cbn [exec] in He.
  destruct (bool_decide_reflect (aTable w !! id = None)) as [Hid|]; [|done].
  destruct (bool_decide_reflect (inKind i = Some KindPIN)) as [|Hkind]; [done|]. cbn [andb negb] in He.
  destruct (RequestApproval now i) as [r|e] eqn:Er; injection He as <-.
  2:{ split; [done|apply table_next_refl]. }
  destruct (RequestApproval_row _ _ _ Er Hkind) as [Hst Hk]. apply inv_insert; try done; [|apply Hw].
  unfold row_ok. rewrite decide_False, Hst by done. split; [|by apply unused_id].
  intros (v & -> & Hv)%list_elem_of_fmap. destruct (ai_decided w Hw v Hv) as [q Hq]. congruence.
Qed.
Lemma inv_load w w' k now resolved actor id reason b :
  approval_inv w -> aJobs w !! k = Some (JCall actor id reason b) -> exec Sprint (AvLoad k now resolved) w = Some w' -> steps_to w w'.
Proof.
  intros Hw Hk He. cbn [exec] in He. rewrite Hk in He. cbv zeta in He. injection He as <-.
  apply (inv_leave w _ k _ Hw Hk); try done. cbn [aJobs with_jobs].
  destruct (decide_ _ _ _ _ _ _) as [[row rs]|e] eqn:Ed.
  2:{ destruct e; try (by left). right. by exists (JExpire id). }
  right. eexists. split; [reflexivity|]. split; [done|]. apply (decide_entitled _ _ _ _ _ _ _ _ b) in Ed as (Hr & Hst & Hen).
  exists row. split_and!; try done. pose proof (ai_rows w Hw _ _ Hr) as Hrow. intros Hpin. unfold row_ok in Hrow.
  rewrite decide_True in Hrow by done. destruct Hrow as [Hs _]. congruence.
Qed.
Lemma inv_verdict w w' k now answer p u f :
  approval_inv w -> aJobs w !! k = Some (JVerify p u f) -> exec Sprint (AvVerdict k now answer) w = Some w' -> steps_to w w'.
Proof.
  intros Hw Hk He. pose proof (ai_jobs w Hw _ (list_elem_of_lookup_2 _ _ _ Hk)) as Hf.
  cbn [exec] in He. rewrite Hk in He. destruct (verifyPIN_end _ _ _ _) as [[approver|e] m]; injection He as <-.
  2:{ apply (inv_leave w _ k _ Hw Hk); try done. by left. }
  apply (inv_leave w _ k _ Hw Hk); try done. right. eexists. split; [reflexivity|]. by destruct f.
Qed.
Lemma inv_grant w w' k id now resolved verified u approver i :
  approval_inv w -> aJobs w !! k = Some (JGrant verified u approver i) -> exec Sprint (AvGrant k id now resolved) w = Some w' -> steps_to w w'.
Proof.
  intros Hw Hk He. cbn [exec] in He. rewrite Hk in He.
  destruct (bool_decide_reflect (aTable w !! id = None)) as [Hid|]; [|done]. injection He as <-.
  destruct (carrying_at _ _ _ Hk) as (Hc & _ & Hdel & _). cbn in Hc.
  pose proof (ai_jobs w Hw _ (list_elem_of_lookup_2 _ _ _ Hk)) as Hchk. cbn in Hchk.
  apply inv_insert; try done; [|by rewrite <- Hc; apply Hw|intros x; by rewrite <- Hc].
  unfold row_ok, grant_row. cbn. split_and!; try done.
  - unfold grant_checks, blank in Hchk. destruct (String.eqb (TrimSpace (gPolicyKey i)) ""); [done|].
    by destruct (String.eqb_spec (TrimSpace (gReason i)) "").
  - rewrite decide_False; [done|]. by apply unused_id.
Qed.

Lemma approvals_exec_inv e w w' : approval_inv w -> exec Sprint e w = Some w' -> steps_to w w'.
Proof.
  intros Hw He. destruct e; cbn [exec] in He.
  - by apply (inv_request w w' id now i).
  - injection He as <-. apply (inv_starts w _ (JCall actor id reason approve) Hw); try done. by right.
  - destruct (aJobs w !! k) as [[]|] eqn:Hk; try done. apply (inv_load w w' k now resolved actor id reason approve Hw Hk).
    cbn [exec]. by rewrite Hk.
  - destruct (aJobs w !! k) as [[]|] eqn:Hk; try done. apply (inv_decide w w' k v row Hw Hk). cbn [exec]. by rewrite Hk.
  - destruct (aJobs w !! k) as [[]|] eqn:Hk; try done. apply (inv_replay w w' k id row out Hw Hk). cbn [exec]. by rewrite Hk.
  - destruct (aJobs w !! k) as [[]|] eqn:Hk; try done. apply (inv_finish w w' k id row out Hw Hk). cbn [exec]. by rewrite Hk.
  - destruct (aTable w !! id) as [r|] eqn:Hr; [|done]. destruct (IsExpired now r); [|done]. injection He as <-.
    apply (inv_starts w _ (JExpire id) Hw); try done. by right.
  - destruct (aJobs w !! k) as [[]|] eqn:Hk; try done. apply (inv_expire w w' k id Hw Hk). cbn [exec]. by rewrite Hk.
  - destruct (pin_allowed requester for_ (aTable w)) eqn:Ha; [|injection He as <-; split; [done|apply table_next_refl]].
    destruct (verifyPIN_start _ _ _ _ _) as [[key|err] m]; injection He as <-.
    + apply (inv_starts w _ (JVerify process requester for_) Hw); try done; [by right|]. destruct for_; [|done].
      by apply bool_decide_eq_true in Ha.
    + apply (inv_starts w _ (JExpire "") Hw); try done. by left.
  - destruct (aJobs w !! k) as [[]|] eqn:Hk; try done. apply (inv_verdict w w' k now answer process requester for_ Hw Hk).
    cbn [exec]. by rewrite Hk.
  - destruct (aJobs w !! k) as [[]|] eqn:Hk; try done. apply (inv_grant w w' k id now resolved verified requester approver i Hw Hk).
    cbn [exec]. by rewrite Hk.
  - destruct (record_named m) eqn:En; [|done].
    destruct (check_redemption Sprint m (aTable w)) as [u|err] eqn:Em; injection He as <-; [|split; [done|apply table_next_refl]].
    apply (inv_starts w _ (JSpend m) Hw); try done; [by right|]. by apply (check_pays m _ u).
  - destruct (aJobs w !! k) as [[]|] eqn:Hk; try done. apply (inv_spend w w' k now m Hw Hk). cbn [exec]. by rewrite Hk.
  - destruct (aJobs w !! k) as [j|] eqn:Hk; [|done]. injection He as <-. apply (inv_leave w _ k j Hw Hk); try done. by left.
Qed.

Lemma inv_none : approval_inv no_approvals.
Proof.
  constructor; cbn; try done; try constructor; try (by intros ? ?%elem_of_nil); try (by intros ? ? ?%elem_of_nil).
Qed.
Lemma approvals_run_inv es w w' : approval_inv w -> run Sprint es w = Some w' -> approval_inv w'.
Proof.
  revert w. induction es as [|e es IH]; intros w Hw Hrun; cbn in Hrun; [by injection Hrun as <-|].
  destruct (exec Sprint e w) as [w1|] eqn:He; [|done]. apply (IH w1); [|done]. by apply (approvals_exec_inv e w).
Qed.

(** ** The throttle of a process *)

(** Calls of a requester whose PIN the host is looking up. *)
Definition asking (p : nat) (key : string * string) (j : approval_job) : bool :=
  match j with JVerify q u _ => bool_decide (q = p /\ (uOrg u, uID u) = key) | _ => false end.
Definition in_flight (p : nat) (key : string * string) w : nat := length (List.filter (asking p key) (aJobs w)).

Lemma asking_at p key js k j :
  js !! k = Some j ->
  let b := Nat.b2n (asking p key j) in
  length (List.filter (asking p key) js) = (b + length (List.filter (asking p key) (delete k js)))%nat /\
  forall j', length (List.filter (asking p key) (<[k := j']> js)) =
    (Nat.b2n (asking p key j') + length (List.filter (asking p key) (delete k js)))%nat.
Proof.
  intros (l1 & l2 & -> & Hi & Hd)%list_split_at. rewrite Hd. split; [|intros j'; rewrite Hi];
    rewrite !List.filter_app, !length_app; cbn; destruct (asking p key _); cbn; lia.
Qed.

(** The answer of the host is no supervisor of the organization. *)
Definition wrong (key : string * string) (answer : option user) : bool :=
  match answer with Some a => negb (String.eqb (uOrg a) key.1) | None => true end.
Definition fails_of (t : option pinThrottle) : nat := match t with Some t => failures t | None => 0 end.
(** What an event does to one throttle and to the calls in flight: the
    time on its clock, whether it is a wrong PIN or a right one of this requester. *)
Definition pin_now (e : approval_event) : option Z := match e with AvPIN _ _ now _ _ _ | AvVerdict _ now _ => Some now | _ => None end.
Definition verdict_on (p : nat) (key : string * string) (e : approval_event) w : option bool :=
  match e with
  | AvVerdict k _ answer =>
      match aJobs w !! k with
      | Some j => if asking p key j then Some (negb (wrong key answer)) else None
      | None => None
      end
  | _ => None
  end.
Definition effect_ok (p : nat) (key : string * string) (e : approval_event) w w' : Prop :=
  match verdict_on p key e w with
  | None => let t := throttle_of p w !! key in let t' := throttle_of p w' !! key in
      (t' = t \/ t' = None /\ exists now q, pin_now e = Some now /\ t = Some q /\ pinLockWindow < now - first q) /\
      (in_flight p key w' <= in_flight p key w \/ in_flight p key w' = S (in_flight p key w) /\ (fails_of t' < pinMaxFailures))%nat
  | Some true => throttle_of p w' !! key = None /\ in_flight p key w = S (in_flight p key w')
  | Some false => in_flight p key w = S (in_flight p key w') /\
      exists now, pin_now e = Some now /\ throttle_of p w' = pinFailed now key (throttle_of p w)
  end.

Lemma throttle_insert p q m w js dec pins :
  throttle_of p (mkApprovalWorld (aTable w) (<[q := m]> (aThrottles w)) js dec (aReplays w) (aSpent w) pins) =
  if decide (p = q) then m else throttle_of p w.
Proof.
  unfold throttle_of. cbn. destruct (decide (p = q)) as [->|]; [by rewrite lookup_insert_eq|by rewrite lookup_insert_ne].
Qed.
(** No [JVerify] comes or goes. *)
Lemma effect_quiet p key e w w' :
  verdict_on p key e w = None -> aThrottles w' = aThrottles w -> (in_flight p key w' <= in_flight p key w)%nat -> effect_ok p key e w w'.
Proof. intros Hv Ht Hn. unfold effect_ok. rewrite Hv. unfold throttle_of. rewrite Ht. auto. Qed.
Lemma in_flight_replaced p key w w' k j :
  aJobs w !! k = Some j -> (aJobs w' = delete k (aJobs w) \/ exists j', aJobs w' = <[k := j']> (aJobs w) /\ asking p key j' = false) ->
  (in_flight p key w' <= in_flight p key w)%nat.
Proof.
  intros Hk Hj. unfold in_flight. destruct (asking_at p key _ _ _ Hk) as [-> Hi].
  destruct Hj as [->|(j' & -> & Hn)]; [lia|]. rewrite Hi, Hn. cbn. lia.
Qed.
Lemma pinLocked_at now k m key :
  let '(locked, m') := pinLocked now k m in
  (m' !! key = m !! key \/ k = key /\ m' !! key = None /\ exists q, m !! key = Some q /\ pinLockWindow < now - first q) /\
  (k = key -> locked = false -> (fails_of (m' !! key) < pinMaxFailures)%nat).
Proof.
  unfold pinLocked. destruct (m !! k) as [t|] eqn:Et.
  - destruct (Z.ltb_spec pinLockWindow (now - first t)).
    + split; [|intros -> _; rewrite lookup_delete_eq; cbn; unfold pinMaxFailures; lia]. destruct (decide (k = key)) as [->|].
      * right. rewrite lookup_delete_eq. eauto.
      * left. by rewrite lookup_delete_ne.
    + split; [by left|]. intros -> Hl%Nat.leb_gt. by rewrite Et.
  - split; [by left|]. intros -> _. rewrite Et. cbn. unfold pinMaxFailures. lia.
Qed.
Lemma effect_pin p key w w' q wired now u pin f :
  exec Sprint (AvPIN q wired now u pin f) w = Some w' -> effect_ok p key (AvPIN q wired now u pin f) w w'.
Proof.
  intros He. cbn [exec] in He. destruct (pin_allowed u f (aTable w)); [|injection He as <-; by apply effect_quiet].
  unfold effect_ok. cbn [verdict_on pin_now]. unfold verifyPIN_start in He.
  pose proof (pinLocked_at now (uOrg u, uID u) (throttle_of q w) key) as Hl.
  assert (forall m js, (m !! key = throttle_of q w !! key \/
      (uOrg u, uID u) = key /\ m !! key = None /\ exists x, throttle_of q w !! key = Some x /\ pinLockWindow < now - first x) ->
    let w1 := with_throttle q m js w in
    throttle_of p w1 !! key = throttle_of p w !! key \/
    throttle_of p w1 !! key = None /\ exists n x, Some now = Some n /\ throttle_of p w !! key = Some x /\ pinLockWindow < n - first x) as Ht.
  { intros m js Hm w1. unfold w1, with_throttle. rewrite throttle_insert. destruct (decide (p = q)) as [->|]; [|by left].
    destruct Hm as [?|(_ & ? & x & ? & ?)]; [by left|right]. split; [done|]. by exists now, x. }
  destruct wired; [|injection He as <-; split; [apply Ht|]; auto].
  destruct (String.eqb (uOrg u) ""); [injection He as <-; split; [apply Ht|]; auto|].
  destruct (String.eqb (TrimSpace pin) ""); [injection He as <-; split; [apply Ht|]; auto|].
  destruct (pinLocked now _ _) as [locked m]. destruct Hl as [Hm Hfree]. cbn [negb] in He.
  destruct locked; injection He as <-; split; try (by apply Ht); [by left|]. unfold in_flight. cbn [aJobs with_throttle List.filter asking].
  destruct (bool_decide_reflect (q = p /\ (uOrg u, uID u) = key)) as [[-> Hkey]|]; [right|left; cbn; lia].
  split; [done|]. unfold with_throttle. rewrite throttle_insert, decide_True by done. auto.
Qed.
Lemma effect_verdict p key w w' k now answer :
  exec Sprint (AvVerdict k now answer) w = Some w' -> effect_ok p key (AvVerdict k now answer) w w'.
Proof.
  intros He. pose proof He as He'. cbn [exec] in He. destruct (aJobs w !! k) as [[| | | | |q u f| |]|] eqn:Hk; try done.
  unfold effect_ok. cbn [verdict_on pin_now]. rewrite Hk. cbn [asking].
  destruct (asking_at p key _ _ _ Hk) as [Hn Hi]. cbn [asking] in Hn.
  set (next := fun a => match f with UGrant i => JGrant (length (aPINs w)) u a i | UDecide id reason => JCall a id reason true end).
  assert (forall a, asking p key (next a) = false) as Hnext by (unfold next; by destruct f).
  assert (in_flight p key w' = length (List.filter (asking p key) (delete k (aJobs w)))) as Hflight.
  { destruct (verifyPIN_end _ _ _ _) as [[a|e] m]; injection He as <-; unfold in_flight; cbn [aJobs with_throttle]; [|done].
    fold (next a). rewrite Hi, Hnext. done. }
  assert (forall m', (verifyPIN_end now (uOrg u, uID u) answer (throttle_of q w)).2 = m' ->
    throttle_of p w' = if decide (p = q) then m' else throttle_of p w) as Hth.
  { intros m' Hm. destruct (verifyPIN_end _ _ _ _) as [[a|e] m]; injection He as <-; unfold with_throttle; rewrite throttle_insert; by rewrite <- Hm. }
  unfold in_flight in *. specialize (Hth _ eq_refl). rewrite Hflight, Hn, Hth. clear Hflight He He' Hth.
  assert (forall x m, (uOrg u, uID u) <> key -> (verifyPIN_end now (uOrg u, uID u) x m).2 !! key = m !! key) as Hother.
  { intros x m Hne. unfold verifyPIN_end, pinOK, pinFailed. destruct x as [a|]; [destruct (String.eqb _ _)|]; cbn.
    - by apply lookup_delete_ne.
    - by apply lookup_insert_ne.
    - by apply lookup_insert_ne. }
  destruct (bool_decide_reflect (q = p /\ (uOrg u, uID u) = key)) as [[-> Hkey]|Hne]; cbn [Nat.b2n].
  - rewrite decide_True by done. rewrite Hkey. unfold verifyPIN_end, wrong. destruct answer as [a|]; [destruct (String.eqb (uOrg a) key.1)|]; cbn.
    + split; [apply lookup_delete_eq|done].
    + split; [done|]. by exists now.
    + split; [done|]. by exists now.
  - split; [|left; lia]. destruct (decide (p = q)) as [->|]; [|by left]. left. apply Hother. intros Hkey. by apply Hne.
Qed.
(** Jobs that neither ask for a PIN nor hold one. *)
Definition plain_job (j : approval_job) : bool := match j with JVerify _ _ _ | JGrant _ _ _ _ => false | _ => true end.
(** What happens to the jobs: nothing, one starts, or one ends or goes on. *)
Definition jobs_step (js js' : list approval_job) : Prop :=
  js' = js \/ (exists j, js' = j :: js /\ plain_job j = true) \/
  exists k j, js !! k = Some j /\ (js' = delete k js \/ exists j', js' = <[k := j']> js /\ plain_job j' = true).
Lemma exec_jobs e w w' :
  match e with AvPIN _ _ _ _ _ _ | AvVerdict _ _ _ => False | _ => True end ->
  exec Sprint e w = Some w' -> aThrottles w' = aThrottles w /\ jobs_step (aJobs w) (aJobs w').
Proof.
  intros Hq He. destruct e; try done; cbn [exec] in He.
  1: destruct (_ && _); [|done]; destruct (RequestApproval now i); injection He as <-; (split; [done|by left]).
  1: injection He as <-; split; [done|right; left; eexists; done].
  5: destruct (aTable w !! id); [|done]; destruct (IsExpired _ _); [|done]; injection He as <-; split; [done|right; left; eexists; done].
  7: destruct (record_named _); [|done]; destruct (check_redemption _ _ _); injection He as <-; (split; [done|]); [right; left; eexists; done|by left].
  all: destruct (aJobs w !! k) as [j|] eqn:Hk; [|done]; try (destruct j; try done; []).
  all: assert (forall w1, aThrottles w1 = aThrottles w ->
    (aJobs w1 = delete k (aJobs w) \/ exists j', aJobs w1 = <[k := j']> (aJobs w) /\ plain_job j' = true) ->
    aThrottles w1 = aThrottles w /\ jobs_step (aJobs w) (aJobs w1)) as Hgo
    by (intros w1 ? ?; split; [done|right; right; eauto]).
  - cbv zeta in He. injection He as <-. apply Hgo; [done|]. cbn. destruct (decide_ _ _ _ _ _ _) as [[? ?]|[]]; eauto.
  - cbv zeta in He. destruct (decision _ _ _ _ _ _ _); injection He as <-; (apply Hgo; [done|]); cbn; [destruct (vApprove v)|]; eauto.
  - injection He as <-. apply Hgo; [done|]. cbn. eauto.
  - injection He as <-. apply Hgo; [done|]. cbn. eauto.
  - injection He as <-. apply Hgo; [done|]. cbn. eauto.
  - destruct (bool_decide _); [|done]. injection He as <-. apply Hgo; [done|]. cbn. eauto.
  - destruct (spend _ _ _); injection He as <-; (apply Hgo; [done|]); cbn; eauto.
  - injection He as <-. apply Hgo; [done|]. cbn. eauto.
Qed.
Lemma exec_quiet p key e w w' :
  match e with AvPIN _ _ _ _ _ _ | AvVerdict _ _ _ => False | _ => True end ->
  exec Sprint e w = Some w' -> aThrottles w' = aThrottles w /\ (in_flight p key w' <= in_flight p key w)%nat.
Proof.
  intros Hq He. destruct (exec_jobs e w w' Hq He) as [Ht Hj]. split; [done|].
  assert (forall j, plain_job j = true -> asking p key j = false) as Hplain by (by intros []).
  destruct Hj as [Hj|[(j & Hj & Hn)|(k & j & Hk & Hj)]].
  - unfold in_flight. by rewrite Hj.
  - unfold in_flight. rewrite Hj. cbn. rewrite (Hplain _ Hn). lia.
  - eapply in_flight_replaced; [exact Hk|]. destruct Hj as [?|(j' & ? & ?)]; eauto.
Qed.
Lemma exec_effect p key e w w' : exec Sprint e w = Some w' -> effect_ok p key e w w'.
Proof.
  intros He. destruct e; try (by apply effect_pin); try (by apply effect_verdict).
  all: apply (exec_quiet p key) in He as [? ?]; [by apply effect_quiet|done].
Qed.

(** ** The PIN of a grant *)

(** The verified PINs that jobs hold. *)
Definition holds_pin (j : approval_job) : list nat := match j with JGrant n _ _ _ => [n] | _ => [] end.
Definition held_pins (js : list approval_job) : list nat := concat (map holds_pin js).
Lemma held_at js k j :
  js !! k = Some j -> held_pins js ≡ₚ holds_pin j ++ held_pins (delete k js) /\
  forall j', held_pins (<[k := j']> js) ≡ₚ holds_pin j' ++ held_pins (delete k js).
Proof.
  intros (l1 & l2 & -> & Hi & Hd)%list_split_at. rewrite Hd.
  assert (forall l x l', held_pins (l ++ x :: l') ≡ₚ holds_pin x ++ held_pins (l ++ l')) as Hperm.
  { intros l x l'. unfold held_pins. rewrite !map_app, !concat_app. cbn. solve_Permutation. }
  split; [apply Hperm|]. intros j'. rewrite Hi. apply Hperm.
Qed.

(** The PIN number [n] was verified for this, and paid for [g]. *)
Definition verified_for w (n : nat) (org requester approver : string) (g : option string) : Prop :=
  exists at_, aPINs w !! n = Some (mkPinVerified org requester approver at_ g).

Record pin_inv w : Prop := mkPinInv {
  pv_held : NoDup (held_pins (aJobs w));
  pv_jobs : forall n u a i, JGrant n u a i ∈ aJobs w -> verified_for w n (uOrg u) (uID u) (uID a) None;
  pv_rows : forall id r, aTable w !! id = Some r -> qKind r = KindPIN ->
    exists n a, qDecidedBy r = Some a /\ verified_for w n (qOrg r) (qRequestedBy r) a (Some id)
}.

(** Rows that appear are requests but for those of [AvGrant]. *)
Lemma update_where_new id ok f t t' i r : update_where id ok f t = Some t' -> t' !! i = Some r -> is_Some (t !! i).
Proof.
  intros (r0 & Hr0 & _ & ->)%update_where_Some Hi. destruct (decide (i = id)) as [->|Hne]; [eauto|].
  rewrite lookup_insert_ne in Hi by done. eauto.
Qed.
Lemma exec_new_rows e w w' i r :
  match e with AvGrant _ _ _ _ => False | _ => True end ->
  exec Sprint e w = Some w' -> aTable w' !! i = Some r -> is_Some (aTable w !! i) \/ qKind r <> KindPIN.
Proof.
  intros Hq He Hi. destruct e; try done; cbn [exec] in He.
  - destruct (_ && negb _) eqn:Eb; [|done]. apply andb_true_iff in Eb as [_ Hk%negb_true_iff%bool_decide_eq_false].
    destruct (RequestApproval now i0) as [r0|] eqn:Er; injection He as <-; [|left; eauto]. cbn in Hi.
    destruct (decide (i = id)) as [->|Hne]; [rewrite lookup_insert_eq in Hi; injection Hi as <-; right; by apply (RequestApproval_row now i0)|].
    rewrite lookup_insert_ne in Hi by done. left. eauto.
  - injection He as <-. left. eauto.
  - destruct (aJobs w !! k) as [[]|]; try done. cbv zeta in He. injection He as <-. left. eauto.
  - destruct (aJobs w !! k) as [[]|]; try done. cbv zeta in He. destruct (decision _ _ _ _ _ _ _) eqn:Ed; injection He as <-; left; [|eauto].
    eapply update_where_new; [exact Ed|exact Hi].
  - destruct (aJobs w !! k) as [[]|]; try done. injection He as <-. left. eauto.
  - destruct (aJobs w !! k) as [[]|]; try done. injection He as <-. left. cbn in Hi. unfold finish in Hi.
    destruct (update_where _ _ _ (aTable w)) as [t|] eqn:Eu; cbn in Hi; [|eauto]. eapply update_where_new; [exact Eu|exact Hi].
  - destruct (aTable w !! id); [|done]. destruct (IsExpired _ _); [|done]. injection He as <-. left. eauto.
  - destruct (aJobs w !! k) as [[]|]; try done. injection He as <-. left. cbn in Hi.
    destruct (expire _ (aTable w)) as [t|] eqn:Eu; cbn in Hi; [|eauto]. eapply update_where_new; [exact Eu|exact Hi].
  - destruct (pin_allowed _ _ _); [|injection He as <-; left; eauto]. destruct (verifyPIN_start _ _ _ _ _). injection He as <-. left. eauto.
  - destruct (aJobs w !! k) as [[]|]; try done. destruct (verifyPIN_end _ _ _ _) as [[] ?]; injection He as <-; left; eauto.
  - destruct (record_named m); [|done]. destruct (check_redemption _ _ _); injection He as <-; left; eauto.
  - destruct (aJobs w !! k) as [[]|]; try done. destruct (spend _ _ _) eqn:Es; injection He as <-; left; [|eauto].
    apply spend_updates in Es as (r0 & Hr0 & _ & ->). cbn in Hi. destruct (decide (i = mID m)) as [->|Hne]; [eauto|].
    rewrite lookup_insert_ne in Hi by done. eauto.
  - destruct (aJobs w !! k); [|done]. injection He as <-. left. eauto.
Qed.
(** The verified PINs but for [AvVerdict] and [AvGrant]. *)
Lemma exec_pins e w w' :
  match e with AvVerdict _ _ _ | AvGrant _ _ _ _ => False | _ => True end -> exec Sprint e w = Some w' -> aPINs w' = aPINs w.
Proof.
  intros Hq He. destruct e; try done; cbn [exec] in He; repeat (case_match; try done); by injection He as <-.
Qed.

(** A grant that was there keeps who asked and who decided. *)
Lemma old_grant w w' id r' :
  approval_inv w -> table_next (aTable w) (aTable w') -> is_Some (aTable w !! id) -> aTable w' !! id = Some r' -> qKind r' = KindPIN ->
  exists r, aTable w !! id = Some r /\ qKind r = KindPIN /\ qDecidedBy r' = qDecidedBy r /\ qOrg r' = qOrg r /\ qRequestedBy r' = qRequestedBy r.
Proof.
  intros Hw Hn [r Hr] Hr' Hk. destruct (Hn _ _ Hr) as (r1 & Hr1 & Hf & Hs). assert (r1 = r') as -> by congruence.
  pose proof (fixed_eq _ _ Hf) as (Ho & _ & _ & _ & Hkind & Hby & _). exists r. rewrite <- Hkind. split_and!; try done.
  pose proof (ai_rows w Hw _ _ Hr) as Hrow. unfold row_ok in Hrow. rewrite decide_True in Hrow by congruence. destruct Hrow as (E & _).
  rewrite E in Hs. by destruct Hs as [->|[_ ->]].
Qed.

(** Nothing but rows of old and fewer jobs that hold PINs. *)
Lemma pin_inv_step w w' :
  approval_inv w -> pin_inv w -> table_next (aTable w) (aTable w') -> aPINs w' = aPINs w ->
  (forall id r, aTable w' !! id = Some r -> is_Some (aTable w !! id) \/ qKind r <> KindPIN) ->
  jobs_step (aJobs w) (aJobs w') \/ (exists p u f, aJobs w' = JVerify p u f :: aJobs w) -> pin_inv w'.
Proof.
  intros Hw [Hheld Hjobs Hrows] Hn Hp Hnew Hj.
  assert (held_pins (aJobs w') ⊆+ held_pins (aJobs w) /\
    forall n u a i, JGrant n u a i ∈ aJobs w' -> JGrant n u a i ∈ aJobs w) as [Hsub Hin].
  { destruct Hj as [[Hj|[(j & Hj & Hq)|(k & j & Hk & Hj)]]|(p & u & f & Hj)].
    - by rewrite Hj.
    - rewrite Hj. split; [by destruct j|]. intros n u a i [<-|?]%elem_of_cons; done.
    - destruct (held_at _ _ _ Hk) as [Hh Hi]. destruct (carrying_at _ _ _ Hk) as (_ & _ & Hdel & Hins). destruct Hj as [Hj|(j' & Hj & Hq)]; rewrite Hj.
      + split; [rewrite Hh; by apply submseteq_inserts_l|auto].
      + split; [rewrite Hh, Hi; destruct j'; try done; by apply submseteq_inserts_l|].
        intros n u a i Hx. destruct (Hins _ _ Hx) as [<-|?]; [done|auto].
    - rewrite Hj. split; [done|]. intros n v a i [?|?]%elem_of_cons; done. }
  constructor; unfold verified_for; rewrite ?Hp.
  - apply submseteq_Permutation in Hsub as [l Hl]. rewrite Hl in Hheld. by apply NoDup_app in Hheld as [? _].
  - intros n u a i Hx. by apply (Hjobs n u a i), Hin.
  - intros id r Hr Hk. destruct (Hnew id r Hr) as [Hold|?]; [|done]. destruct (old_grant w w' id r Hw Hn Hold Hr Hk) as (r0 & Hr0 & Hk0 & -> & -> & ->).
    by apply (Hrows id r0).
Qed.

(** A PIN verified for a grant gets a number of its own. *)
Lemma pin_verdict w w' k now answer :
  approval_inv w -> pin_inv w -> exec Sprint (AvVerdict k now answer) w = Some w' -> pin_inv w'.
Proof.
  intros Hw Hpin He. pose proof (approvals_exec_inv _ w w' Hw He) as [_ Hn]. cbn [exec] in He.
  destruct (aJobs w !! k) as [[| | | | |p u f| |]|] eqn:Hk; try done. destruct (held_at _ _ _ Hk) as [Hh Hi].
  destruct (carrying_at _ _ _ Hk) as (_ & _ & Hdel & Hins). pose proof Hpin as [Hheld Hjobs Hrows].
  destruct (verifyPIN_end _ _ _ _) as [[a|e] m]; injection He as <-.
  2:{ apply (pin_inv_step w _ Hw Hpin Hn); [done|intros id r Hr; left; by exists r|]. left. right; right. exists k, (JVerify p u f). eauto. }
  assert (forall n, n ∈ held_pins (aJobs w) -> (n < length (aPINs w))%nat) as Hlt.
  { intros n Hx. unfold held_pins in Hx. rewrite list_elem_of_In, in_concat in Hx. destruct Hx as (l & Hl & Hx).
    apply in_map_iff in Hl as ([] & <- & Hj); cbn in Hx; try done. destruct Hx as [->|[]].
    destruct (Hjobs n requester approver i) as [t Ht]; [by apply list_elem_of_In|]. by apply lookup_lt_Some in Ht. }
  assert (forall n org q x g, verified_for w n org q x g -> forall x', verified_for (mkApprovalWorld (aTable w) (<[p := m]> (aThrottles w)) x'
    (aDecisions w) (aReplays w) (aSpent w) (aPINs w ++ [mkPinVerified (uOrg u) (uID u) (uID a) now None])) n org q x g) as Hmono.
  { intros n org q x g [t Ht] x'. exists t. cbn. by apply lookup_app_l_Some. }
  constructor; cbn [aJobs aTable].
  - rewrite Hi. rewrite Hh in Hheld. cbn in Hheld. destruct f; cbn; [|done]. constructor; [|done]. intros Hx.
    assert (length (aPINs w) ∈ held_pins (aJobs w)) as Hx' by (by rewrite Hh). specialize (Hlt _ Hx'). lia.
  - intros n v b i Hx. destruct (Hins _ _ Hx) as [E|Hx']; [|eapply Hmono, Hjobs; eauto].
    destruct f; [|done]. injection E as -> -> -> ->. exists now. cbn. by rewrite lookup_app_r, Nat.sub_diag by lia.
  - intros id r Hr Hkind. destruct (Hrows id r Hr Hkind) as (n & b & Hb & Hv). exists n, b. eauto.
Qed.
(** The grant written on it is marked on it. *)
Lemma pin_grant w w' k id now resolved :
  approval_inv w -> pin_inv w -> exec Sprint (AvGrant k id now resolved) w = Some w' -> pin_inv w'.
Proof.
  intros Hw Hpin He. pose proof (approvals_exec_inv _ w w' Hw He) as [_ Hn]. cbn [exec] in He.
  destruct (aJobs w !! k) as [[| | | | | |n u a i|]|] eqn:Hk; try done. destruct (bool_decide_reflect (aTable w !! id = None)) as [Hid|]; [|done].
  destruct (held_at _ _ _ Hk) as [Hh _]. destruct (carrying_at _ _ _ Hk) as (_ & _ & Hdel & _). pose proof Hpin as [Hheld Hjobs Hrows].
  destruct (Hjobs n u a i) as [t Ht]; [by apply list_elem_of_lookup_2 in Hk|].
  injection He as <-. rewrite Hh in Hheld. cbn in Hheld. apply NoDup_cons in Hheld as [Hout Hheld].
  assert (forall j, j <> n -> alter (granted_on id) n (aPINs w) !! j = aPINs w !! j) as Hother by (intros j Hne; by apply list_lookup_alter_ne).
  constructor; cbn [aJobs aTable]; unfold verified_for; cbn [aPINs].
  - done.
  - intros j v b i' Hx. assert (j <> n) as Hne.
    { intros ->. apply Hout. unfold held_pins. rewrite list_elem_of_In, in_concat. exists [n]. split; [|by left].
      apply in_map_iff. exists (JGrant n v b i'). split; [done|]. by apply list_elem_of_In. }
    rewrite Hother by done. apply (Hjobs j v b i'). auto.
  - intros x r Hr Hkind. destruct (decide (x = id)) as [->|Hne].
    + rewrite lookup_insert_eq in Hr. injection Hr as <-. exists n, (uID a). split; [done|]. exists t. by rewrite list_lookup_alter_eq, Ht.
    + rewrite lookup_insert_ne in Hr by done. destruct (Hrows x r Hr Hkind) as (j & b & Hb & tj & Htj). exists j, b. split; [done|]. exists tj.
      rewrite Hother; [done|]. intros ->. congruence.
Qed.

Lemma pin_exec e w w' : approval_inv w -> pin_inv w -> exec Sprint e w = Some w' -> pin_inv w'.
Proof.
  intros Hw Hpin He. destruct (approvals_exec_inv e w w' Hw He) as [_ Hn].
  assert (forall (Hq : match e with AvPIN _ _ _ _ _ _ | AvVerdict _ _ _ | AvGrant _ _ _ _ => False | _ => True end), pin_inv w') as Hplain.
  { intros Hq. apply (pin_inv_step w w' Hw Hpin Hn).
    - apply (exec_pins e); [by destruct e|done].
    - intros id r. apply (exec_new_rows e); [by destruct e|done].
    - left. apply (exec_jobs e); [by destruct e|done]. }
  destruct e; try (by apply Hplain); clear Hplain.
  - (* a PIN is asked for *)
    apply (pin_inv_step w w' Hw Hpin Hn).
    + eapply exec_pins; [|exact He]; done.
    + intros id r. eapply exec_new_rows; [|exact He]; done.
    + cbn [exec] in He. destruct (pin_allowed _ _ _); [|injection He as <-; left; by left].
      destruct (verifyPIN_start _ _ _ _ _) as [[|] m]; injection He as <-; [right; eauto|left; by left].
  - by apply (pin_verdict w w' k now answer).
  - by apply (pin_grant w w' k id now resolved).
Qed.
Lemma pin_run es w w' : approval_inv w -> pin_inv w -> run Sprint es w = Some w' -> pin_inv w'.
Proof.
  revert w. induction es as [|e es IH]; intros w Hw Hp Hrun; cbn in Hrun; [by injection Hrun as <-|].
  destruct (exec Sprint e w) as [w1|] eqn:He; [|done]. apply (IH w1); [by apply (approvals_exec_inv e w)|by apply (pin_exec e w)|done].
Qed.
Lemma pin_none : pin_inv no_approvals.
Proof. constructor; cbn; [constructor|by intros ? ? ? ? ?%elem_of_nil|intros id r; by rewrite lookup_empty]. Qed.

(** Along a run: no more than [most] calls of the requester in flight; every
    PIN event within one window from [T] and none of theirs right; their
    wrong PINs. *)
Fixpoint at_most (most p : nat) (key : string * string) (es : list approval_event) w : bool :=
  (in_flight p key w <=? most)%nat &&
  match es with [] => true | e :: es => match exec Sprint e w with Some w => at_most most p key es w | None => true end end.
Definition within (T : Z) (e : approval_event) : bool :=
  match pin_now e with Some now => (T <=? now) && (now <=? T + pinLockWindow) | None => true end.
Fixpoint hopeless (T : Z) (p : nat) (key : string * string) (es : list approval_event) w : bool :=
  match es with
  | [] => true
  | e :: es => within T e && negb (bool_decide (verdict_on p key e w = Some true)) &&
      match exec Sprint e w with Some w => hopeless T p key es w | None => true end
  end.
Fixpoint guesses (p : nat) (key : string * string) (es : list approval_event) w : nat :=
  match es with
  | [] => 0
  | e :: es => Nat.b2n (bool_decide (verdict_on p key e w = Some false)) +
      match exec Sprint e w with Some w => guesses p key es w | None => 0 end
  end.

Definition crowd (most p : nat) (key : string * string) w : Prop :=
  (fails_of (throttle_of p w !! key) + in_flight p key w < pinMaxFailures + most)%nat.
(** [c] wrong PINs since [T]: on a throttle opened since, on top of those of
    an older one. *)
Definition counted (most : nat) (T : Z) (c : nat) (t : option pinThrottle) : Prop :=
  match t with
  | None => (c < pinMaxFailures + most)%nat
  | Some t => if T <=? first t then (c < pinMaxFailures + most + failures t)%nat else (c <= failures t)%nat
  end.

Lemma pinFailed_at now key m :
  pinFailed now key m !! key =
  Some match m !! key with
       | Some t => if pinLockWindow <? now - first t then mkPinThrottle 1 now else mkPinThrottle (S (failures t)) (first t)
       | None => mkPinThrottle 1 now
       end.
Proof. unfold pinFailed. rewrite lookup_insert_eq. f_equal. destruct (m !! key) as [t|]; [|done]. by destruct (_ <? _). Qed.
Lemma crowd_step most p key e w w' :
  effect_ok p key e w w' -> (in_flight p key w <= most)%nat -> (in_flight p key w' <= most)%nat -> crowd most p key w -> crowd most p key w'.
Proof.
  unfold effect_ok, crowd. intros He Hn Hn' Hc. destruct (verdict_on p key e w) as [[]|].
  - destruct He as [-> ?]. cbn. unfold pinMaxFailures. lia.
  - destruct He as (? & now & _ & ->). rewrite pinFailed_at. unfold pinMaxFailures in *.
    destruct (throttle_of p w !! key) as [t|]; [destruct (_ <? _)|]; cbn in *; lia.
  - destruct He as [[Ht|(Ht & _)] [Hle|[Hs Hf]]]; rewrite ?Ht in *; unfold pinMaxFailures in *; cbn in *; lia.
Qed.
Lemma counted_step most T p key e w w' c :
  effect_ok p key e w w' -> within T e = true -> verdict_on p key e w <> Some true -> (in_flight p key w <= most)%nat ->
  crowd most p key w -> counted most T c (throttle_of p w !! key) ->
  counted most T (Nat.b2n (bool_decide (verdict_on p key e w = Some false)) + c) (throttle_of p w' !! key).
Proof.
  unfold effect_ok, crowd, within, counted. intros He Hin Hno Hn Hcr Hc. destruct (verdict_on p key e w) as [[]|]; [done|..].
  - rewrite bool_decide_true by done. destruct He as (? & now & Hnow & ->). rewrite pinFailed_at, Hnow in *. cbn [Nat.b2n].
    apply andb_true_iff in Hin as [Hfrom%Z.leb_le Hto%Z.leb_le]. unfold pinMaxFailures in *.
    destruct (throttle_of p w !! key) as [t|]; [destruct (Z.ltb_spec pinLockWindow (now - first t))|];
      cbn [first failures fails_of] in *; repeat (case_match); lia.
  - rewrite bool_decide_false by done. cbn [Nat.b2n Nat.add]. destruct He as [[->|(-> & now & t & Hnow & Ht & Hold)] _]; [done|].
    rewrite Hnow, Ht in *. apply andb_true_iff in Hin as [Hfrom%Z.leb_le Hto%Z.leb_le].
    destruct (Z.leb_spec T (first t)); [lia|]. unfold pinMaxFailures in *. cbn in Hcr. lia.
Qed.
Lemma crowd_run most p key es w w' :
  at_most most p key es w = true -> run Sprint es w = Some w' -> crowd most p key w -> crowd most p key w' /\ (in_flight p key w' <= most)%nat.
Proof.
  revert w. induction es as [|e es IH]; intros w Ham Hrun Hc; cbn in *; apply andb_true_iff in Ham as [Hn%Nat.leb_le Ham];
    [by injection Hrun as <-|]. destruct (exec Sprint e w) as [w1|] eqn:He; [|done]. apply (IH w1); [done..|].
  apply (crowd_step most p key e w w1); [by apply exec_effect|done| |done]. destruct es; cbn in Ham; by apply andb_true_iff in Ham as [?%Nat.leb_le _].
Qed.
Lemma guesses_run most T p key es w w' c :
  at_most most p key es w = true -> hopeless T p key es w = true -> run Sprint es w = Some w' -> crowd most p key w ->
  counted most T c (throttle_of p w !! key) -> counted most T (guesses p key es w + c) (throttle_of p w' !! key).
Proof.
  revert w c. induction es as [|e es IH]; intros w c Ham Hh Hrun Hcr Hc; cbn in *; [by injection Hrun as <-|].
  apply andb_true_iff in Ham as [Hn%Nat.leb_le Ham]. apply andb_true_iff in Hh as [[Hin Hno%negb_true_iff%bool_decide_eq_false]%andb_true_iff Hh].
  destruct (exec Sprint e w) as [w1|] eqn:He; [|done]. pose proof (exec_effect p key e w w1 He) as Heff.
  set (b := Nat.b2n _). replace (b + guesses p key es w1 + c)%nat with (guesses p key es w1 + (b + c))%nat by lia.
  apply IH; try done; [|by apply (counted_step most T p key e w)]. apply (crowd_step most p key e w w1); try done.
  destruct es; cbn in Ham; by apply andb_true_iff in Ham as [?%Nat.leb_le _].
Qed.

(** ** What holds of every run *)

(** C12: An approved mutation is replayed at most once, and only if one actor
    of its organization, with a role the request names, approved it before it
    expired, giving a reason when one is required; what is replayed is what
    was requested.  A request is decided at most once, however many approvers
    race. *)
Theorem approval_applied_once es w :
  run Sprint es no_approvals = Some w ->
  NoDup (map fst (aReplays w)) /\ NoDup (map vID (aDecisions w)) /\
  forall id row, (id, row) ∈ aReplays w ->
    exists v r, v ∈ aDecisions w /\ vID v = id /\ vApprove v = true /\ aTable w !! id = Some r /\ qKind r <> KindPIN /\
      told v r /\ fixed row = fixed r.
Proof.
  intros Hrun. pose proof (approvals_run_inv _ _ _ inv_none Hrun) as Hw. split; [apply Hw|]. split; [apply Hw|]. intros id row Hin.
  destruct (ai_replayed w Hw id row Hin) as (r & Hr & Hf & Hst & Hk). pose proof (ai_rows w Hw id r Hr) as Hrow.
  unfold row_ok in Hrow. rewrite decide_False in Hrow by done. destruct Hrow as [Hrow _].
  assert (decided_by w id true r) as (v & Hv & Hid & Hap & Ht) by (by destruct Hst as [Hs|[Hs|Hs]]; rewrite Hs in Hrow).
  exists v, r. auto 10.
Qed.

Inductive lifecycle : Status -> Status -> Prop :=
| LApprove : lifecycle StatusPending StatusApproved
| LReject : lifecycle StatusPending StatusRejected
| LExpire : lifecycle StatusPending StatusExpired
| LApply : lifecycle StatusApproved StatusApplied
| LFail : lifecycle StatusApproved StatusFailed.
Lemma next_lifecycle r r' : next r r' -> rtc lifecycle (qStatus r) (qStatus r').
Proof.
  intros [_ Hs]. destruct (qStatus r) eqn:E, (qStatus r') eqn:E'; try apply rtc_refl; try (by apply rtc_once; constructor).
  all: destruct Hs as [->|[_ ->]]; cbn in E'; congruence.
Qed.
Lemma next_decided r r' :
  next r r' -> qStatus r <> StatusPending ->
  qDecidedBy r' = qDecidedBy r /\ qDecidedAt r' = qDecidedAt r /\ qReason r' = qReason r /\ qStatus r' <> StatusPending.
Proof.
  intros [_ Hs] Hp. destruct (qStatus r) eqn:E; [done|..]; try (destruct Hs as [->|[_ ->]]; cbn; rewrite ?E; done).
  destruct (qStatus r') eqn:E'; try (by destruct Hs as (? & ? & ?)); destruct Hs as [->|[_ ->]]; cbn in *; congruence.
Qed.
Lemma next_settled r r' :
  next r r' -> qStatus r <> StatusPending -> qStatus r <> StatusApproved -> r' = r \/ qKind r = KindPIN /\ r' = mark_consumed r.
Proof. intros [_ Hs] Hp Ha. by destruct (qStatus r). Qed.

(** A row and what it became. *)
Record later r r' : Prop := mkLater {
  lt_fixed : fixed r' = fixed r;
  lt_status : rtc lifecycle (qStatus r) (qStatus r');
  lt_decided : qStatus r <> StatusPending ->
    qDecidedBy r' = qDecidedBy r /\ qDecidedAt r' = qDecidedAt r /\ qReason r' = qReason r /\ qStatus r' <> StatusPending;
  lt_settled : qStatus r <> StatusPending -> qStatus r <> StatusApproved -> r' = r \/ qKind r = KindPIN /\ r' = mark_consumed r
}.
Lemma later_refl r : later r r.
Proof. constructor; [done|apply rtc_refl|done|by left]. Qed.
Lemma later_next r r1 r' : later r r1 -> next r1 r' -> later r r'.
Proof.
  intros [Hf Hs Hd Hset] Hn. constructor.
  - destruct Hn as [Hn _]. congruence.
  - etransitivity; [exact Hs|]. by apply next_lifecycle.
  - intros Hp. destruct (Hd Hp) as (Hb & Ha & Hr & Hp1). destruct (next_decided r1 r' Hn Hp1) as (? & ? & ? & ?). split_and!; congruence.
  - intros Hp Ha. destruct (Hset Hp Ha) as [->|[Hk ->]]; [by apply next_settled|].
    destruct (next_settled _ _ Hn Hp Ha) as [->|[_ ->]]; right; done.
Qed.
Lemma run_later es w w' id r :
  approval_inv w -> run Sprint es w = Some w' -> aTable w !! id = Some r -> exists r', aTable w' !! id = Some r' /\ later r r'.
Proof.
  intros Hw Hrun Hr. assert (exists r1, aTable w !! id = Some r1 /\ later r r1) as Hl by (exists r; split; [done|apply later_refl]).
  clear Hr. revert w Hw Hrun Hl. induction es as [|e es IH]; intros w Hw Hrun Hl; cbn in Hrun; [by injection Hrun as <-|].
  destruct (exec Sprint e w) as [w1|] eqn:He; [|done]. destruct (approvals_exec_inv e w w1 Hw He) as [Hw1 Hnext].
  apply (IH w1 Hw1 Hrun). destruct Hl as (r1 & Hr1 & Hl). destruct (Hnext id r1 Hr1) as (r' & Hr' & Hn).
  exists r'. split; [done|]. by apply (later_next r r1).
Qed.

(** C17: A request never disappears: what was asked never changes, its status
    only moves along the lifecycle, the decision on record is final, and a
    settled row never changes again, but for the mark that spends a grant. *)
Theorem approval_final es es' w w' id r :
  run Sprint es no_approvals = Some w -> run Sprint es' w = Some w' -> aTable w !! id = Some r ->
  exists r', aTable w' !! id = Some r' /\ fixed r' = fixed r /\ rtc lifecycle (qStatus r) (qStatus r') /\
    (qStatus r <> StatusPending -> qDecidedBy r' = qDecidedBy r /\ qDecidedAt r' = qDecidedAt r /\ qReason r' = qReason r) /\
    (qStatus r <> StatusPending -> qStatus r <> StatusApproved -> r' = r \/ qKind r = KindPIN /\ r' = mark_consumed r).
Proof.
  intros Hrun Hrun' Hr. destruct (run_later es' w w' id r (approvals_run_inv _ _ _ inv_none Hrun) Hrun' Hr) as (r' & Hr' & [Hf Hs Hd Hset]).
  exists r'. split_and!; try done. intros Hp. destruct (Hd Hp) as (? & ? & ? & _). done.
Qed.

(** C13: a grant pays at most once, for its requester, its policy and what it
    covers ([pays]): for an action, which is on a record, a grant anchored to
    a record pays for that record only; for [ConsumeApproval], its anchors and
    the context recorded with it.  Each grant spent was written, with a
    reason, on one verification of its supervisor's PIN for its requester, in
    their organization, which no other grant was written on; and it was
    written at most fifteen minutes before the checks of the redemption. *)
Theorem grant_spent_once es w :
  run Sprint es no_approvals = Some w ->
  NoDup (map mID (aSpent w)) /\
  forall m, m ∈ aSpent w ->
    exists r a n, aTable w !! mID m = Some r /\ pays m r /\ qAppliedEventID r = "consumed"%string /\ qReason r <> ""%string /\
      qDecidedBy r = Some a /\ verified_for w n (qOrg r) (qRequestedBy r) a (Some (mID m)).
Proof.
  intros Hrun. pose proof (approvals_run_inv _ _ _ inv_none Hrun) as Hw. pose proof (pin_run _ _ _ inv_none pin_none Hrun) as Hpin.
  split; [apply Hw|]. intros m Hm.
  destruct (ai_paid w Hw m Hm) as (r & Hr & Hp). pose proof (ai_rows w Hw _ r Hr) as Hrow. pose proof Hp as (Hk & _).
  unfold row_ok in Hrow. rewrite decide_True in Hrow by done. destruct Hrow as (_ & Hq & Ha).
  rewrite decide_True in Ha by (apply list_elem_of_fmap; by exists m).
  destruct (pv_rows w Hpin _ _ Hr Hk) as (n & a & Hb & Hv). by exists r, a, n.
Qed.

(** C16: in one process the PIN of a supervisor cannot be tried out: when a
    requester has at most [most] calls in flight in process [p], that process
    answers fewer than twice [pinMaxFailures + most] wrong PINs of the
    requester in any five minutes in which it answers none right.  The
    throttle lives in the memory of the process: another replica, and the
    process that comes after a restart, counts anew. *)
Theorem pin_guesses_bounded most T p key es es' w w' :
  run Sprint es no_approvals = Some w -> run Sprint es' w = Some w' ->
  at_most most p key es no_approvals = true -> at_most most p key es' w = true -> hopeless T p key es' w = true ->
  (guesses p key es' w < 2 * (pinMaxFailures + most))%nat.
Proof.
  intros Hrun Hrun' Ham Ham' Hh. destruct (crowd_run most p key es _ _ Ham Hrun) as [Hcr _].
  { unfold crowd, throttle_of, no_approvals. cbn [aThrottles]. rewrite lookup_empty. cbn [default from_option]. rewrite lookup_empty.
    cbn. unfold pinMaxFailures. lia. }
  destruct (crowd_run most p key es' _ _ Ham' Hrun' Hcr) as [Hcr' _].
  assert (counted most T 0 (throttle_of p w !! key)) as Hc.
  { unfold counted, pinMaxFailures. destruct (throttle_of p w !! key) as [t|]; [destruct (_ <=? _)|]; lia. }
  pose proof (guesses_run most T p key es' w w' 0 Ham' Hh Hrun' Hcr Hc) as Hfin. unfold counted, crowd, pinMaxFailures in *.
  destruct (throttle_of p w' !! key) as [t|]; [destruct (_ <=? _)|]; cbn in *; lia.
Qed.
End inv.

(** ** Samples *)

#[local] Instance sample_lower : UnicodeLower := fun s => s.
#[local] Existing Instance whole_numbers.
Definition boss : user := mkUser "boss" "org" "manager".
Definition chief : user := mkUser "chief" "org" "manager".
Definition clerk : user := mkUser "clerk" "org" "cashier".
Definition cheap_sale : ApprovalInput :=
  mkApprovalInput (Some KindConstraint) "pos" "pos.Sale" "" "" "min_price" "" "org" "clerk" "cashier" ["manager"] true 24
    [("op"%string, JString "create"); ("model"%string, JString "sales")] JNull JNull.
(** Two supervisors approve at once. *)
Definition two_approvers : list approval_event :=
  [AvRequest "q1" 0 cheap_sale; AvCall boss "q1" " loyal customer " true; AvCall chief "q1" "fine" true; AvLoad 0 5 None; AvLoad 1 6 None;
   AvDecide 1; AvDecide 0; AvReplay 0 (Ok (JObject [("id"%string, JString "s1")])); AvFinish 0].
(** A refund at the till, redeemed twice. *)
Definition refund_grant : PINGrantInput :=
  mkPINGrantInput "refund" "" "damaged" "" "" "r1" (JObject [("amount"%string, JNumber "500")]).
Definition refund : ConsumeInput :=
  mkConsumeInput "org" "g1" "refund" "clerk" [] [("amount"%string, float_of_int 400)] "" "" "r1" false.
Definition one_refund : list approval_event :=
  [AvPIN 0 true 10 clerk "1234" (UGrant refund_grant); AvVerdict 0 11 (Some boss); AvGrant 0 "g1" 12 None;
   AvCheck (RConsume 20 refund); AvCheck (RRedeem 20 clerk "g1" "refund" "r1"); AvSpend 1 21; AvSpend 0 21].
Definition sample_run (es : list approval_event) : approval_world := default no_approvals (run (fun _ => ""%string) es no_approvals).

Lemma approval_applied_once_witness :
  run (fun _ => ""%string) two_approvers no_approvals = Some (sample_run two_approvers) /\
  map fst (aReplays (sample_run two_approvers)) = ["q1"%string] /\ NoDup (map vID (aDecisions (sample_run two_approvers))).
Proof.
  assert (run (fun _ => ""%string) two_approvers no_approvals = Some (sample_run two_approvers)) as Hrun by (vm_compute; reflexivity).
  split; [exact Hrun|]. split; [vm_compute; reflexivity|]. apply (approval_applied_once (fun _ => ""%string) two_approvers _ Hrun).
Defined.
Lemma approval_final_witness :
  exists r r', aTable (sample_run (take 6 two_approvers)) !! "q1"%string = Some r /\ qStatus r = StatusApproved /\
    qDecidedBy r' = qDecidedBy r /\ rtc lifecycle (qStatus r) (qStatus r') /\ qStatus r' = StatusApplied.
Proof.
  assert (run (fun _ => ""%string) (take 6 two_approvers) no_approvals = Some (sample_run (take 6 two_approvers))) as H1
    by (vm_compute; reflexivity).
  assert (run (fun _ => ""%string) (drop 6 two_approvers) (sample_run (take 6 two_approvers)) = Some (sample_run two_approvers)) as H2
    by (vm_compute; reflexivity).
  destruct (aTable (sample_run (take 6 two_approvers)) !! "q1"%string) as [r|] eqn:Hr; [|exfalso; vm_compute in Hr; discriminate].
  destruct (approval_final (fun _ => ""%string) _ _ _ _ _ _ H1 H2 Hr) as (r' & Hr' & _ & Hl & Hd & _).
  assert (qStatus r = StatusApproved) as Hs by (vm_compute in Hr; injection Hr as <-; reflexivity).
  exists r, r'. split; [reflexivity|]. split; [exact Hs|]. split; [apply Hd; rewrite Hs; discriminate|]. split; [exact Hl|].
  vm_compute in Hr'. injection Hr' as <-. reflexivity.
Defined.
Lemma grant_spent_once_witness :
  run (fun _ => ""%string) one_refund no_approvals = Some (sample_run one_refund) /\
  map mID (aSpent (sample_run one_refund)) = ["g1"%string] /\ NoDup (map mID (aSpent (sample_run one_refund))) /\
  exists r n, aTable (sample_run one_refund) !! "g1"%string = Some r /\ qDecidedBy r = Some "boss"%string /\
    verified_for (sample_run one_refund) n (qOrg r) (qRequestedBy r) "boss" (Some "g1"%string).
Proof.
  assert (run (fun _ => ""%string) one_refund no_approvals = Some (sample_run one_refund)) as Hrun by (vm_compute; reflexivity).
  destruct (grant_spent_once (fun _ => ""%string) one_refund _ Hrun) as [Hnd Hall].
  split; [exact Hrun|]. split; [vm_compute; reflexivity|]. split; [exact Hnd|].
  destruct (Hall (RConsume 20 refund)) as (r & a & n & Hr & _ & _ & _ & Ha & Hv); [vm_compute; by left|].
  assert (a = "boss"%string) as ->. { pose proof Hr as Hr'. vm_compute in Hr'. injection Hr' as <-. vm_compute in Ha. by injection Ha as <-. }
  exists r, n. split; [exact Hr|]. split; [exact Ha|exact Hv].
Defined.

(** Four wrong PINs in a row, then three at once: the failures are counted
    after the host has answered, so seven go through. *)
Definition wrong_pin (now : Z) : list approval_event := [AvPIN 0 true now clerk "0000" (UGrant refund_grant); AvVerdict 0 now None].
Definition seven_guesses : list approval_event :=
  concat (map wrong_pin [1; 2; 3; 4]) ++ repeat (AvPIN 0 true 5 clerk "0000" (UGrant refund_grant)) 3 ++ repeat (AvVerdict 0 6 None) 3.
Example concurrent_guesses :
  guesses (fun _ => ""%string) 0 ("org", "clerk")%string seven_guesses no_approvals = 7%nat /\ (pinMaxFailures < 7)%nat.
Proof. split; [vm_compute; reflexivity|unfold pinMaxFailures; lia]. Qed.
Lemma pin_guesses_bounded_witness :
  run (fun _ => ""%string) seven_guesses no_approvals = Some (sample_run seven_guesses) /\
  at_most (fun _ => ""%string) 3 0 ("org", "clerk")%string seven_guesses no_approvals = true /\
  (guesses (fun _ => ""%string) 0 ("org", "clerk")%string seven_guesses no_approvals < 2 * (pinMaxFailures + 3))%nat.
Proof.
  assert (run (fun _ => ""%string) seven_guesses no_approvals = Some (sample_run seven_guesses)) as Hrun by (vm_compute; reflexivity).
  assert (at_most (fun _ => ""%string) 3 0 ("org", "clerk")%string seven_guesses no_approvals = true) as Ham by (vm_compute; reflexivity).
  split; [exact Hrun|]. split; [exact Ham|].
  apply (pin_guesses_bounded (fun _ => ""%string) 3 0 0 ("org", "clerk")%string [] seven_guesses no_approvals (sample_run seven_guesses)).
  - reflexivity.
  - exact Hrun.
  - reflexivity.
  - exact Ham.
  - vm_compute. reflexivity.
Defined.

(** The redemption itself accepts an anchored grant without a record; its one
    caller always names one. *)
Example anchored_grant_without_record :
  let t := aTable (sample_run (take 3 one_refund)) in
  qRecordID <$> t !! "g1"%string = Some "r1"%string /\ pin_checks 20 clerk "g1" "refund" "" t = Ok tt /\
  pin_checks 20 clerk "g1" "refund" "r2" t = Err ErrApprovalGrantRequired.
Proof. vm_compute. auto. Qed.
