(* ===== verification/Guards.v ===== *)
(** * Guards and the gates of an action (dynamic/constraints.go,
    dynamic/approvals.go, dynamic/action.go, manifest/manifest.go)

    The declarative predicates a write must satisfy, what a violation turns
    into, and the replay of an approved request through the same guards.  The
    arithmetic is [ComputeExpr]'s, the request [Approvals]'.  Names of models
    are ASCII. *)

From Stdlib Require Import Floats.SpecFloat.
From stdpp Require Import gmap.
From S2P Require Import Prelude GoStrings GoHTTP GoJSON RecordExpr ComputeExpr Approvals.

(** ** Declarations *)

Record ApprovalDef := mkApprovalDef {
  pRoles : list string; pReasonRequired : bool; pExpiresHours : Z; pLabel : string; pWhen : string
}.
Record ConstraintDef := mkConstraintDef {
  cnExpr : string; cnErrorKey : string; cnOnViolation : string; cnApproval : option ApprovalDef
}.
Definition RequestsApproval (c : ConstraintDef) : bool :=
  String.eqb (cnOnViolation c) "request_approval" && negb (bool_decide (cnApproval c = None)).
Record ActionDef := mkActionDef { dLabel : string; dSupervisorPolicy : string; dApproval : option ApprovalDef }.

Inductive guard_syntax : Type := NoOperator | MissingOperand | LeftSide (e : expr_error) | RightSide (e : expr_error).
Inductive guard_error : Type :=
| Malformed (expr : string) (e : guard_syntax)
| Violated (c : ConstraintDef) (values : list (string * float64)).

(** ** One predicate *)

Inductive cmp : Type := CGe | CLe | CNe | CEq | CGt | CLt.
(** [constraintOps], the longest first. *)
Definition constraintOps : list (string * cmp) :=
  [(">=", CGe); ("<=", CLe); ("!=", CNe); ("==", CEq); (">", CGt); ("<", CLt); ("=", CEq)]%string.
Definition cmp_byte (c : ascii) : bool := Ascii.eqb c ">" || Ascii.eqb c "<" || Ascii.eqb c "=" || Ascii.eqb c "!".
Definition op_at (s : string) : option (cmp * string) :=
  head (omap (fun p => if String.prefix p.1 s then Some (p.2, str_drop (String.length p.1) s) else None) constraintOps).
(** What stands before the operator, the operator and what follows it. *)
Fixpoint findComparisonOp (s : string) : option (string * cmp * string) :=
  match (if match s with String c _ => cmp_byte c | EmptyString => false end then op_at s else None) with
  | Some (op, r) => Some ("", op, r)%string
  | None =>
      match s with
      | EmptyString => None
      | String c s => '(l, op, r) ← findComparisonOp s; Some (String c l, op, r)
      end
  end.
Definition compare_floats (op : cmp) (l r : float64) : bool :=
  match op with
  | CGe => SFleb r l | CLe => SFleb l r | CGt => SFltb r l | CLt => SFltb l r | CEq => SFeqb l r | CNe => negb (SFeqb l r)
  end.
Definition evalConstraintExpr (expr : string) (env : gmap string float64) : result guard_syntax bool :=
  match findComparisonOp expr with
  | None => Err NoOperator
  | Some (lhs, op, rhs) =>
      if blank lhs || blank rhs then Err MissingOperand else
      match Eval (TrimSpace lhs) env with
      | Err e => Err (LeftSide e)
      | Ok l => match Eval (TrimSpace rhs) env with Err e => Err (RightSide e) | Ok r => Ok (compare_floats op l r) end
      end
  end.

(** The runs of [exprIdentRe]; [cur] is the one being read. *)
Fixpoint ident_runs (cur s : string) : list string :=
  match s with
  | EmptyString => if String.eqb cur "" then [] else [cur]
  | String c s =>
      if String.eqb cur "" then ident_runs (if ident_start c then String c "" else "") s else
      if ident_char c then ident_runs (cur +:+ String c "") s else cur :: ident_runs "" s
  end.
Definition exprValues (expr : string) (env : gmap string float64) : list (string * float64) :=
  members (omap (fun id => v ← env !! id; Some (id, v)) (ident_runs "" expr)).

(** ** The guards of a write *)

(** The marker of an approved replay on the context. *)
Record ApprovalReplay := mkApprovalReplay {
  yKind : Kind; yModel : string; yModelKey : string; yConstraintKey : string; yActionKey : string
}.
Definition matchesModel (r : ApprovalReplay) (model : string) : bool :=
  (String.eqb (yModel r) "" && String.eqb (yModelKey r) "") || EqualFold (yModel r) model || EqualFold (yModelKey r) model.
Definition skipsActionApproval (r : ApprovalReplay) (model action : string) : bool :=
  bool_decide (yKind r = KindAction) && String.eqb (yActionKey r) action && matchesModel r model.
(** The marker [ApproveRequest] attaches. *)
Definition replay_marker (r : ApprovalRequest) : ApprovalReplay :=
  mkApprovalReplay (qKind r) (payload_text "model" (qPayload r)) (qModelKey r) (qConstraintKey r) (qActionKey r).

Definition skipped (skip : string) (c : ConstraintDef) : bool :=
  negb (String.eqb skip "") && String.eqb (cnErrorKey c) skip && RequestsApproval c.

Section guards.
Context `{GoFloat}.

Definition ToFloat (v : json) : float64 :=
  match v with
  | JNumber s => default fzero (parse_float s)
  | JString s => default fzero (parse_float (TrimSpace s))
  | JBool b => if b then S754_finite false 1 0 else fzero
  | _ => fzero
  end.
Definition numeric_env (row : gmap string json) : gmap string float64 := ToFloat <$> row.
Definition mergedNumericEnv (row payload : gmap string json) : gmap string float64 := numeric_env payload ∪ numeric_env row.

(** The loop, with the first violation that asks for approval so far. *)
Fixpoint eval_guards (skip : string) (env : gmap string float64) (cs : list ConstraintDef) (pending : option guard_error) :
    result guard_error unit :=
  match cs with
  | [] => match pending with Some e => Err e | None => Ok tt end
  | c :: cs =>
      if skipped skip c then eval_guards skip env cs pending else
      match evalConstraintExpr (cnExpr c) env with
      | Err e => Err (Malformed (cnExpr c) e)
      | Ok true => eval_guards skip env cs pending
      | Ok false =>
          let ce := Violated c (exprValues (cnExpr c) env) in
          if RequestsApproval c then eval_guards skip env cs (match pending with Some p => Some p | None => Some ce end)
          else Err ce
      end
  end.
Definition evalConstraintsSkipping (cs : list ConstraintDef) (row : gmap string json) (skip : string) : result guard_error unit :=
  eval_guards skip (numeric_env row) cs None.
Definition skip_key (marker : option ApprovalReplay) (model : string) : string :=
  match marker with
  | Some r => if bool_decide (yKind r = KindConstraint) && matchesModel r model then yConstraintKey r else ""
  | None => ""
  end.
Definition evalConstraintsCtx (marker : option ApprovalReplay) (model : string) (cs : list ConstraintDef) (row : gmap string json) :
    result guard_error unit :=
  evalConstraintsSkipping cs row (skip_key marker model).
End guards.

(** ** What a violation turns into *)

Section writes.
Context `{GoFloat} `{UnicodeLower}.
(** [json.Marshal] of a finite float64. *)
Variable marshal_float : float64 -> string.

(** A value without an encoding loses the whole block. *)
Definition violation (c : ConstraintDef) (values : list (string * float64)) : json :=
  if forallb (fun p => bool_decide (finite p.2 <> None)) values then
    JObject (members ([("expr"%string, JString (cnExpr c)); ("error_key"%string, JString (cnErrorKey c))] ++
      match values with [] => [] | _ => [("values"%string, JObject (map (fun p => (p.1, JNumber (marshal_float p.2))) values))] end))
  else JNull.
Definition object_of (row : gmap string json) : json := JObject (members (map_to_list row)).

(** The write: model as invoked, its key and its addon, caller. *)
Record write := mkWrite {
  wModel : string; wModelKey : string; wAddonKey : string; wUser : user; wRecord : string; wInput : gmap string json;
  wBefore : gmap string json
}.
(** [wRecord] is empty on create. *)
Definition openConstraintApproval (w : write) (c : ConstraintDef) (pol : ApprovalDef) (values : list (string * float64)) : ApprovalInput :=
  let create := String.eqb (wRecord w) "" in
  mkApprovalInput (Some KindConstraint) (wAddonKey w) (wModelKey w) (wRecord w) "" (cnErrorKey c) (pLabel pol) (uOrg (wUser w))
    (uID (wUser w)) (uRole (wUser w)) (pRoles pol) (pReasonRequired pol) (pExpiresHours pol)
    (members ([("op"%string, JString (if create then "create" else "update")); ("model"%string, JString (wModel w));
               ("input"%string, object_of (wInput w))] ++ if create then [] else [("record_id"%string, JString (wRecord w))]))
    (if create then JNull else object_of (wBefore w)) (violation c values).

Inductive outcome : Type := Goes | Parked (i : ApprovalInput) | Refused (e : guard_error).
(** The guards of [Create] and [Update]: [row] is what would be written, the
    input after its hooks on top of the row there is. *)
Definition guarded (marker : option ApprovalReplay) (cs : list ConstraintDef) (w : write) (row : gmap string json) : outcome :=
  match evalConstraintsCtx marker (wModel w) cs row with
  | Ok _ => Goes
  | Err (Violated c values) =>
      match cnApproval c with
      | Some pol => if RequestsApproval c then Parked (openConstraintApproval w c pol values) else Refused (Violated c values)
      | None => Refused (Violated c values)
      end
  | Err e => Refused e
  end.

(** ** The gates of an action *)

Definition actionNeedsApproval (marker : option ApprovalReplay) (model key : string) (def : ActionDef) (row payload : gmap string json) : bool :=
  match dApproval def with
  | None => false
  | Some pol =>
      if match marker with Some r => skipsActionApproval r model key | None => false end then false else
      if blank (pWhen pol) then true else
      match evalConstraintExpr (TrimSpace (pWhen pol)) (mergedNumericEnv row payload) with Ok b => b | Err _ => true end
  end.
Definition openActionApproval (w : write) (key : string) (def : ActionDef) (pol : ApprovalDef) (row payload : gmap string json) : ApprovalInput :=
  mkApprovalInput (Some KindAction) (wAddonKey w) (wModelKey w) (wRecord w) key "" (if String.eqb (pLabel pol) "" then dLabel def else pLabel pol)
    (uOrg (wUser w)) (uID (wUser w)) (uRole (wUser w)) (pRoles pol) (pReasonRequired pol) (pExpiresHours pol)
    (members [("op"%string, JString "action"); ("model"%string, JString (wModel w)); ("action_key"%string, JString key);
              ("record_id"%string, JString (wRecord w)); ("payload"%string, object_of payload)])
    (object_of row)
    (let values := exprValues (pWhen pol) (mergedNumericEnv row payload) in
     if forallb (fun p => bool_decide (finite p.2 <> None)) values then
       JObject [("values"%string, JObject (map (fun p => (p.1, JNumber (marshal_float p.2))) values)); ("when"%string, JString (pWhen pol))]
     else JNull).

Inductive gate : Type := Dispatched | ActionParked (i : ApprovalInput) | GateRefused (e : approval_error).
(** [ExecAction] from the supervisor's gate to the dispatcher, alone on the
    table; [grantID] is the [approval_id] of the payload as parsed. *)
Definition action_gates (now : Z) (bypass : option (user -> string -> bool)) (marker : option ApprovalReplay) (w : write) (key : string)
    (def : ActionDef) (grantID : string) (row payload : gmap string json) (t : requests) : gate * requests :=
  let approval t :=
    match dApproval def with
    | Some pol => if actionNeedsApproval marker (wModel w) key def row payload then
                    (ActionParked (openActionApproval w key def pol row payload), t)
                  else (Dispatched, t)
    | None => (Dispatched, t)
    end in
  match RequireSupervisor now bypass (wUser w) (dSupervisorPolicy def) (wRecord w) grantID t with
  | None => approval t
  | Some (Err e) => (GateRefused e, t)
  | Some (Ok _) =>
      match pin_update (uOrg (wUser w)) grantID t with
      | Some t => approval t
      | None => (GateRefused ErrApprovalGrantRequired, t)
      end
  end.
End writes.

(** ** What the guards decide *)

Section decide_.
Context `{GoFloat}.

Definition value_of (c : ConstraintDef) (row : gmap string json) : result guard_syntax bool := evalConstraintExpr (cnExpr c) (numeric_env row).
Definition holds (c : ConstraintDef) (row : gmap string json) : Prop := value_of c row = Ok true.

(** The guard lets this row through; it would ask for approval. *)
Definition passes (skip : string) (row : gmap string json) (c : ConstraintDef) : Prop := skipped skip c = true \/ holds c row.
Definition asks (row : gmap string json) (c : ConstraintDef) : Prop := RequestsApproval c = true /\ value_of c row = Ok false.

(** A violation that asks for approval yields to any other failure. *)
Lemma eval_guards_pending skip env cs p :
  eval_guards skip env cs (Some p) =
  match eval_guards skip env cs None with
  | Ok _ => Err p
  | Err (Violated c vs) => if RequestsApproval c then Err p else Err (Violated c vs)
  | Err e => Err e
  end.
Proof.
  revert p. induction cs as [|c cs IH]; intros p; cbn [eval_guards]; [done|]. destruct (skipped skip c); [done|].
  destruct (evalConstraintExpr (cnExpr c) env) as [[]|e]; [done| |done]. destruct (RequestsApproval c) eqn:Er; [|by rewrite Er].
  rewrite IH, (IH (Violated _ _)). destruct (eval_guards skip env cs None) as [u|[ex e|c' vs]]; [by rewrite Er|done|].
  destruct (RequestsApproval c') eqn:Er'; [by rewrite Er|by rewrite Er'].
Qed.
Lemma eval_guards_spec skip row cs :
  match eval_guards skip (numeric_env row) cs None with
  | Ok _ => Forall (passes skip row) cs
  | Err (Malformed ex e) => exists c, c ∈ cs /\ skipped skip c = false /\ cnExpr c = ex /\ value_of c row = Err e
  | Err (Violated c vs) =>
      exists l1 l2, cs = l1 ++ c :: l2 /\ skipped skip c = false /\ value_of c row = Ok false /\
        vs = exprValues (cnExpr c) (numeric_env row) /\
        if RequestsApproval c then Forall (passes skip row) l1 /\ Forall (fun c => passes skip row c \/ asks row c) l2
        else Forall (fun c => passes skip row c \/ asks row c) l1
  end.
Proof.
  induction cs as [|c cs IH]; cbn [eval_guards]; [constructor|].
  assert (passes skip row c -> match eval_guards skip (numeric_env row) cs None with
    | Ok _ => Forall (passes skip row) (c :: cs)
    | Err (Malformed ex e) => exists c0, c0 ∈ c :: cs /\ skipped skip c0 = false /\ cnExpr c0 = ex /\ value_of c0 row = Err e
    | Err (Violated c0 vs) => exists l1 l2, c :: cs = l1 ++ c0 :: l2 /\ skipped skip c0 = false /\ value_of c0 row = Ok false /\
        vs = exprValues (cnExpr c0) (numeric_env row) /\
        if RequestsApproval c0 then Forall (passes skip row) l1 /\ Forall (fun c => passes skip row c \/ asks row c) l2
        else Forall (fun c => passes skip row c \/ asks row c) l1
    end) as Hpass.
  { intros Hc. destruct (eval_guards skip (numeric_env row) cs None) as [u|[ex e|c0 vs]].
    - by constructor.
    - destruct IH as (c0 & ? & ?). exists c0. split; [by right|done].
    - destruct IH as (l1 & l2 & -> & ? & ? & ? & Hl). exists (c :: l1), l2. split_and!; try done.
      destruct (RequestsApproval c0); [destruct Hl; split; [by constructor|done]|constructor; [by left|done]]. }
  destruct (skipped skip c) eqn:Es; [apply Hpass; by left|].
  destruct (evalConstraintExpr (cnExpr c) (numeric_env row)) as [[]|e] eqn:Ev.
  - apply Hpass. by right.
  - clear Hpass. destruct (RequestsApproval c) eqn:Er.
    + rewrite eval_guards_pending. destruct (eval_guards skip (numeric_env row) cs None) as [u|[ex e|c0 vs]].
      * exists [], cs. rewrite Er. split_and!; try done. eapply Forall_impl; [exact IH|]. by left.
      * destruct IH as (c0 & ? & ?). exists c0. split; [by right|done].
      * destruct IH as (l1 & l2 & -> & Hs & Hv & Hvs & Hl). destruct (RequestsApproval c0) eqn:Er0.
        -- exists [], (l1 ++ c0 :: l2). rewrite Er. split_and!; try done. destruct Hl as [Hl1 Hl2]. apply Forall_app. split.
           ++ eapply Forall_impl; [exact Hl1|]. by left.
           ++ constructor; [by right|done].
        -- exists (c :: l1), l2. rewrite Er0. split_and!; try done. constructor; [by right|done].
    + exists [], cs. rewrite Er. split_and!; try done.
  - exists c. split; [by left|done].
Qed.

(** C14: The guards of a write are all consulted.  It goes when every guard
    that is not exempt holds; a rejecting guard that fails refuses it,
    whatever asked for approval before; it is parked, for the first guard
    that asks, only when every other guard holds or asks too. *)
Theorem guards_decide cs row skip :
  match evalConstraintsSkipping cs row skip with
  | Ok _ => Forall (passes skip row) cs
  | Err (Malformed ex e) => exists c, c ∈ cs /\ skipped skip c = false /\ cnExpr c = ex /\ value_of c row = Err e
  | Err (Violated c vs) =>
      exists l1 l2, cs = l1 ++ c :: l2 /\ skipped skip c = false /\ value_of c row = Ok false /\
        vs = exprValues (cnExpr c) (numeric_env row) /\
        if RequestsApproval c then Forall (passes skip row) l1 /\ Forall (fun c => passes skip row c \/ asks row c) l2
        else Forall (fun c => passes skip row c \/ asks row c) l1
  end.
Proof. apply eval_guards_spec. Qed.
Lemma guards_go cs row skip : evalConstraintsSkipping cs row skip = Ok tt <-> Forall (passes skip row) cs.
Proof.
  split; intros Hf.
  - pose proof (eval_guards_spec skip row cs) as Hs. unfold evalConstraintsSkipping in Hf. by rewrite Hf in Hs.
  - unfold evalConstraintsSkipping. induction Hf as [|c cs Hc _ IH]; cbn [eval_guards]; [done|].
    destruct (skipped skip c) eqn:Es; [done|]. destruct Hc as [Hc|Hc]; [congruence|]. unfold holds, value_of in Hc. by rewrite Hc.
Qed.
End decide_.

(** ** The replay of an approved write *)

Section replay.
Context `{GoFloat} `{UnicodeLower}.
Variable marshal_float : float64 -> string.

Lemma guarded_goes marker cs w row :
  guarded marshal_float marker cs w row = Goes <-> Forall (passes (skip_key marker (wModel w)) row) cs.
Proof.
  rewrite <- guards_go. unfold guarded, evalConstraintsCtx. destruct (evalConstraintsSkipping cs row _) as [[]|[ex e|c vs]]; try done.
  destruct (cnApproval c); [destruct (RequestsApproval c)|]; done.
Qed.
(** What is parked is for a guard that asks, the first that fails. *)
Lemma guarded_parked marker cs w row i :
  guarded marshal_float marker cs w row = Parked i ->
  exists c pol vs, c ∈ cs /\ asks row c /\ cnApproval c = Some pol /\ skipped (skip_key marker (wModel w)) c = false /\
    i = openConstraintApproval marshal_float w c pol vs /\
    Forall (fun c => passes (skip_key marker (wModel w)) row c \/ asks row c) cs.
Proof.
  unfold guarded, evalConstraintsCtx. intros Hp. pose proof (eval_guards_spec (skip_key marker (wModel w)) row cs) as Hs.
  unfold evalConstraintsSkipping in Hp. destruct (eval_guards _ _ cs None) as [u|[ex e|c vs]]; try done.
  destruct Hs as (l1 & l2 & -> & Hsk & Hv & _ & Hl). destruct (cnApproval c) as [pol|] eqn:Ep; [|done].
  destruct (RequestsApproval c) eqn:Er; [|done]. injection Hp as <-. exists c, pol, vs. split_and!; try done.
  - apply elem_of_app. right. by left.
  - destruct Hl as [Hl1 Hl2]. apply Forall_app. split; [eapply Forall_impl; [exact Hl1|]; by left|]. constructor; [by right|done].
Qed.

(** The marker of the request is for the model and the guard it was raised
    for. *)
Lemma replay_skip_key now w c pol vs r :
  str_forall is_ascii (wModel w) = true -> RequestApproval now (openConstraintApproval marshal_float w c pol vs) = Ok r ->
  qConstraintKey r = cnErrorKey c /\ skip_key (Some (replay_marker r)) (wModel w) = cnErrorKey c.
Proof.
  intros Ha. unfold RequestApproval. destruct (String.eqb _ _); [done|]. destruct (blank _); [done|]. destruct (normalizeRoles _); [done|].
  intros [= <-]. split; [done|]. unfold skip_key, replay_marker, matchesModel. cbn [qKind qPayload qModelKey qConstraintKey yKind yModel yModelKey yConstraintKey inKind inPayload openConstraintApproval default inConstraintKey].
  rewrite bool_decide_true by done. cbn [andb].
  set (p := payload_text "model" _). assert (p = wModel w) as -> by (unfold p; by destruct (String.eqb (wRecord w) "")).
  rewrite (EqualFold_refl _ Ha). by rewrite orb_true_r.
Qed.

(** Guards need not have keys of their own: the replay runs the write through
    every guard but those that carry the approved key and ask for approval. *)
Lemma replay_skips_its_key cs w row i now r :
  str_forall is_ascii (wModel w) = true -> guarded marshal_float None cs w row = Parked i -> RequestApproval now i = Ok r ->
  qConstraintKey r <> ""%string ->
  (exists c pol vs, c ∈ cs /\ asks row c /\ i = openConstraintApproval marshal_float w c pol vs /\ cnErrorKey c = qConstraintKey r) /\
  (forall row', guarded marshal_float (Some (replay_marker r)) cs w row' = Goes <->
     forall c, c ∈ cs -> (RequestsApproval c = true /\ cnErrorKey c = qConstraintKey r) \/ holds c row') /\
  (guarded marshal_float (Some (replay_marker r)) cs w row = Goes <->
     forall c, c ∈ cs -> asks row c -> cnErrorKey c = qConstraintKey r).
Proof.
  intros Ha Hp Hr Hk. destruct (guarded_parked None cs w row i Hp) as (c & pol & vs & Hin & Hasks & Hpol & _ & -> & Hall).
  destruct (replay_skip_key now w c pol vs r Ha Hr) as [Hkey Hskip].
  assert (forall row', guarded marshal_float (Some (replay_marker r)) cs w row' = Goes <->
     forall c, c ∈ cs -> (RequestsApproval c = true /\ cnErrorKey c = qConstraintKey r) \/ holds c row') as Hgo.
  { intros row'. rewrite guarded_goes, Hskip, <- Hkey, Forall_forall. unfold passes, skipped.
    destruct (String.eqb_spec (qConstraintKey r) ""); [done|]. cbn [negb andb].
    split; intros Hf c' Hc'; specialize (Hf c' Hc'); rewrite ?andb_true_iff, String.eqb_eq in *; tauto. }
  split; [by exists c, pol, vs|]. split; [done|]. rewrite Hgo. rewrite Forall_forall in Hall. split.
  - intros Hf c' Hc' [Hra Hv]. destruct (Hf c' Hc') as [[_ ?]|Hh]; [done|]. unfold holds in Hh. congruence.
  - intros Hf c' Hc'. destruct (Hall c' Hc') as [[Hs|Hh]|Hask]; [done|by right|]. left. split; [apply Hask|by apply Hf].
Qed.

(** C15: when the guards of a model have keys of their own and the parked
    guard's is not empty, the replay of an approved write is exempt from one
    guard, the one the request was raised for, and from nothing else: it goes
    exactly when every other guard holds on the row as it is by then. *)
Theorem replay_skips_only_its_guard cs w row i now r :
  NoDup (map cnErrorKey cs) ->
  str_forall is_ascii (wModel w) = true -> guarded marshal_float None cs w row = Parked i -> RequestApproval now i = Ok r ->
  qConstraintKey r <> ""%string ->
  exists c pol vs, c ∈ cs /\ asks row c /\ i = openConstraintApproval marshal_float w c pol vs /\ cnErrorKey c = qConstraintKey r /\
    forall row', guarded marshal_float (Some (replay_marker r)) cs w row' = Goes <-> forall c', c' ∈ cs -> c' <> c -> holds c' row'.
Proof.
  intros Hnd Ha Hp Hr Hk. destruct (replay_skips_its_key cs w row i now r Ha Hp Hr Hk) as ((c & pol & vs & Hc & Hasks & Hi & Hkey) & Hgo & _).
  exists c, pol, vs. split_and!; [done..|]. intros row'. rewrite Hgo. split; intros Hf c' Hc'.
  - intros Hne. destruct (Hf c' Hc') as [[_ Hk']|Hh]; [|done]. destruct Hne. apply (NoDup_map_inj cnErrorKey cs); [done..|congruence].
  - destruct (decide (cnErrorKey c' = cnErrorKey c)) as [E|Hne]; [left|right; apply Hf; [done|congruence]].
    assert (c' = c) as -> by (by apply (NoDup_map_inj cnErrorKey cs)). split; [apply Hasks|done].
Qed.

(** A row that two guards with keys of their own send to a supervisor is
    never written: the replay of either request is parked by the other. *)
Theorem two_approvals_never_apply marker cs w row c c' :
  c ∈ cs -> c' ∈ cs -> asks row c -> asks row c' -> cnErrorKey c <> cnErrorKey c' -> guarded marshal_float marker cs w row <> Goes.
Proof.
  intros Hc Hc' [_ Hv] [_ Hv'] Hne Hg. apply guarded_goes in Hg. rewrite Forall_forall in Hg.
  destruct (Hg c Hc) as [Hs|Hh]; [|unfold holds in Hh; congruence]. destruct (Hg c' Hc') as [Hs'|Hh]; [|unfold holds in Hh; congruence].
  unfold skipped in *. rewrite !andb_true_iff, String.eqb_eq in *. destruct Hs as [[_ ?] _], Hs' as [[_ ?] _]. congruence.
Qed.
End replay.

(** ** Samples *)

#[local] Instance sample_lower : UnicodeLower := fun s => s.
#[local] Existing Instance whole_numbers.
Definition no_float : float64 -> string := fun _ => ""%string.
Definition manager_may : ApprovalDef := mkApprovalDef ["manager"] true 24 "" "".
Definition price_guard : ConstraintDef := mkConstraintDef "unit_price >= min_price" "min_price" "request_approval" (Some manager_may).
Definition discount_guard : ConstraintDef := mkConstraintDef "discount <= 10" "discount" "request_approval" (Some manager_may).
Definition stock_guard : ConstraintDef := mkConstraintDef "stock - qty >= 0" "stock" "" None.
Definition cashier : user := mkUser "clerk" "org" "cashier".
Definition sale_row (price qty discount : string) : gmap string json :=
  list_to_map [("unit_price", JNumber price); ("min_price", JNumber "100"); ("stock", JNumber "5"); ("qty", JNumber qty);
               ("discount", JString discount)]%string.
Definition sale (row : gmap string json) : write := mkWrite "sales" "pos.Sale" "pos" cashier "" row ∅.
Definition pos_guards : list ConstraintDef := [price_guard; stock_guard; discount_guard].
Definition ok_input (o : outcome) : option ApprovalInput := match o with Parked i => Some i | _ => None end.

Lemma replay_skips_only_its_guard_witness :
  exists i r, guarded no_float None pos_guards (sale (sale_row "80" "1" "5")) (sale_row "80" "1" "5") = Parked i /\
    RequestApproval 0 i = Ok r /\ qConstraintKey r = "min_price"%string /\
    guarded no_float (Some (replay_marker r)) pos_guards (sale (sale_row "80" "1" "5")) (sale_row "80" "1" "5") = Goes /\
    guarded no_float (Some (replay_marker r)) pos_guards (sale (sale_row "80" "1" "5")) (sale_row "80" "9" "5") <> Goes.
Proof.
  destruct (guarded no_float None pos_guards (sale (sale_row "80" "1" "5")) (sale_row "80" "1" "5")) as [|i|e] eqn:Hp;
    [exfalso; vm_compute in Hp; discriminate| |exfalso; vm_compute in Hp; discriminate].
  destruct (RequestApproval 0 i) as [r|e] eqn:Hr.
  2:{ exfalso. vm_compute in Hp. injection Hp as <-. vm_compute in Hr. discriminate. }
  assert (qConstraintKey r = "min_price"%string) as Hk.
  { pose proof Hp as Hp'. vm_compute in Hp'. injection Hp' as <-. vm_compute in Hr. injection Hr as <-. reflexivity. }
  assert (NoDup (map cnErrorKey pos_guards)) as Hnd by (apply (bool_decide_eq_true_1 _); vm_compute; reflexivity).
  destruct (replay_skips_only_its_guard no_float pos_guards _ _ i 0 r Hnd (eq_refl : str_forall is_ascii (wModel (sale (sale_row "80" "1" "5"))) = true)
    Hp Hr) as (c & pol & vs & Hc & _ & _ & Hkey & Hgo); [rewrite Hk; discriminate|].
  assert (c = price_guard) as ->.
  { rewrite Hk in Hkey. repeat (apply elem_of_cons in Hc as [->|Hc]); [reflexivity|vm_compute in Hkey; discriminate..|by apply elem_of_nil in Hc]. }
  exists i, r. split; [reflexivity|]. split; [exact Hr|]. split; [exact Hk|]. split.
  - apply Hgo. intros c Hc' Hne. repeat (apply elem_of_cons in Hc' as [->|Hc']); [destruct Hne; reflexivity|vm_compute; reflexivity..|].
    by apply elem_of_nil in Hc'.
  - intros Hg. pose proof (proj1 (Hgo _) Hg stock_guard ltac:(right; left) ltac:(discriminate)) as Hh. vm_compute in Hh. discriminate.
Defined.

(** A rejecting guard wins over one that asks, wherever it stands. *)
Example rejection_wins :
  evalConstraintsSkipping pos_guards (sale_row "80" "9" "5") "" = Err (Violated stock_guard (exprValues (cnExpr stock_guard) (numeric_env (sale_row "80" "9" "5")))).
Proof. vm_compute. reflexivity. Qed.
(** Below the price and above the discount: the approval of the price parks
    the sale for the discount, and the other way round. *)
Example approvals_without_end :
  let go m := option_map inConstraintKey (ok_input (guarded no_float m pos_guards (sale (sale_row "80" "1" "20")) (sale_row "80" "1" "20"))) in
  let after key := Some (mkApprovalReplay KindConstraint "sales" "pos.Sale" key "") in
  go None = Some "min_price"%string /\ go (after "min_price"%string) = Some "discount"%string /\
  go (after "discount"%string) = Some "min_price"%string.
Proof. vm_compute. auto. Qed.

(** A refund that needs a supervisor's PIN and an approval: the grant is
    spent when the action is parked, so the approved replay is refused. *)
Definition refund_action : ActionDef := mkActionDef "Refund" "refund" (Some manager_may).
Definition refund_call : write := mkWrite "sales" "pos.Sale" "pos" cashier "s1" ∅ ∅.
Definition granted : requests :=
  {["g1"%string := grant_row 10 cashier (mkUser "boss" "org" "manager") ["manager"%string]
      (mkPINGrantInput "refund" "" "damaged" "" "" "" (JObject []))]}.
Example supervised_approval_fails :
  let first := action_gates no_float 20 None None refund_call "refund" refund_action "g1" ∅ ∅ granted in
  let marker := Some (mkApprovalReplay KindAction "sales" "pos.Sale" "" "refund") in
  match first.1 with ActionParked i => inActionKey i = "refund"%string | _ => False end /\
  (action_gates no_float 30 None marker refund_call "refund" refund_action "g1" ∅ ∅ first.2).1 = GateRefused ErrApprovalGrantRequired /\
  (action_gates no_float 30 None marker refund_call "refund" (mkActionDef "Refund" "" (Some manager_may)) "g1" ∅ ∅ first.2).1 = Dispatched.
Proof. vm_compute. auto. Qed.
